(* ===== verification/_CoqProject ===== *)
-Q . S2P
Prelude.v
HoleList.v
FreeSet.v
Pages.v
PhyMem.v
PhyPage.v
Layout.v
KHeap.v
PgTable.v
PgWalk.v
PgMap.v
PgBack.v
PgSoft.v
IoRemap.v
Boot.v
Bytes.v
Multiboot.v
MemMap.v
Acpi.v
Pci.v
PciDev.v
PciBar.v
PciMsi.v
InetSum.v
Slub.v
VirtQueue.v
Stailq.v
VirtNet.v
Printk.v
Chain.v
Timer.v
Calendar.v
Softirq.v
Net.v
Vm.v
VmBack.v
YaosCall.v
MmapRuns.v
KThread.v
Module.v
Split.v
Palloc.v
PoolRuns.v
