(* ===== verification/Prelude.v ===== *)
(** * YAOS, the kernel of src/0027: models and proofs

    The repository holds 27 numbered states of an x86_64 kernel and copies of
    musl, lwIP and LuaJIT; this development models the last state, src/0027/.
    All paths below are relative to it.  The kernel is single-image C: static
    arrays threaded into linked lists, spinlocks, physical and virtual memory
    allocators that refill each other, page tables, a slab allocator, virtio
    queues, timers, softirqs and cooperative threads.

    ** How code becomes a definition

    A C function is a computation of the monad [M St] of this file: a function
    from the state of its component to an [outcome].  [Done] is a return;
    [Panic] is [panic()], [BUG()] or a failed [ASSERT] (the build defines
    DEBUG); [Deadlock] is a spinlock taken twice on one processor; [Fault] is a
    NULL or wild pointer; [OutOfFuel] is a loop the model cut short.  Words are
    [Z] with [wrap64], [wrap32] written where C wraps.  Pointers into static
    arrays are [option nat].  [wp m s Q] says that [m] returns from [s] and
    that [Q] holds of its result and final state, so every theorem stated with
    it, or with [= Done ...], includes termination and the absence of panics,
    deadlocks and faults.  Fuel is bounded by the size of the node array or
    table walked (one more than its length), by the number of words or pages of
    a range, or by the fixed number of rounds of a retry loop; the theorems
    show that it is never used up, except where a loop of the code does not end.

    ** The files

    Memory:
    - HoleList.v: the lists of holes that kernel/phy_page.c, kernel/kheap.c and
      kernel/vm.c share in shape: nodes, free list, sorted list, lock, and the
      loops over them.  FreeSet.v: the set of addresses such a list stands for,
      the invariant [cells_ok], and the effect of inserting, merging, carving.
      An [arena] says which nodes of the array a list owns.
    - Pages.v: the interfaces [LargePages], [SmallPages], [FrameAlloc]: what an
      allocator promises its clients.  PhyMem.v (arch/x86_64/phymem.c) gives
      [LargePages], PhyPage.v (kernel/phy_page.c) refines any [LargePages] to
      [SmallPages], KHeap.v (kernel/kheap.c) is another client of [LargePages].
    - Layout.v: the address map and conversions of asm/pgtable.h, asm/pm64.h.
    - PgTable.v (arch/x86_64/pgtable.c) builds and edits four-level tables over
      any [FrameAlloc]; PgWalk.v is the processor's walk [mmu] and the shape of
      a table tree; PgMap.v proves what the mapping calls do to [mmu]; PgBack.v
      what [map_alloc_at] and [unmap_free_at] do to tables and memory together,
      for any allocator with the laws [FrameLaws], which PhyPage.v has;
      PgSoft.v is the kernel's own walk of the tables;
      IoRemap.v what [ioremap_nocache] maps; Boot.v is [init_pml4], the first
      tables and the switch to them.
    - Bytes.v: words read from a memory of bytes.  Multiboot.v and MemMap.v
      (arch/x86_64/multiboot.c): the boot loader's memory map, its ranges cut at
      the reserved ones and given to PhyMem.v, PhyPage.v and KHeap.v, or noted
      and mapped as I/O memory; the code and the lists of ranges, and the effect
      on the allocators and tables.
    - Vm.v (kernel/vm.c): zones of virtual addresses over HoleList.v, the
      register of stacks, and [alloc_vm] and its kin over PgTable.v; VmBack.v
      puts zone, tables and physical memory together.  YaosCall.v
      (kernel/yaoscall.c, kernel/yaos_page.c, yaoscall/page.h, libc/mman.c): the
      table of entry points, and [mmap], [munmap], [mremap] through it;
      MmapRuns.v proves what runs of the first two do.
    - Slub.v (module/mm/slub.c): the caches, the page tags and large blocks.
    - Palloc.v and PoolRuns.v (module/httpd/palloc.c): memory pools over the
      interface [Malloc]; the code and its requests, and whole lives of a pool.
    Devices and output:
    - Acpi.v (arch/x86_64/acpi.c, the processor blocks of arch/x86_64/pm64.c and
      kernel/smp.c): finding the ACPI tables and numbering the processors.
    - Pci.v (drivers/pci.c, asm/pci.h): configuration space through its two
      ports, the table of functions and its searches.  PciDev.v
      (libs/libpci, arch/x86_64/msi.c, the vectors of arch/x86_64/irq.c): a
      device's registers, capabilities and message-signalled interrupts;
      PciBar.v proves what parsing a device finds, PciMsi.v what registering
      an interrupt leaves in the device, its table and the vectors.
    - InetSum.v (libs/net/ip.c, libs/net/udp.c): checksums of packets.
    - VirtQueue.v (libs/libvirtio/virtio.c): the split ring and its device, for
      any client.  Stailq.v (include/yaos/queue.h): tail queues.  VirtNet.v
      (module/net/virtio/virtio_net.c and main.c): the network driver, a client
      of two such queues that keeps its packets in tail queues.
    - Printk.v (kernel/printk.c): [number], [vsprintf], [printk], the
      dumps of memory.
    Time and deferred work:
    - Chain.v: structures linked through [pnext] in any heap, with ownership.
    - Timer.v (kernel/timer.c, polls of kernel/kthread.c), Calendar.v
      ([mktime64]), Softirq.v (kernel/softirq.c, kernel/tasklet.c).
    - Net.v (kernel/net.c): the drivers the network softirqs call back.
    - Module.v (kernel/module.c): loading modules, with the retry rounds.
    - KThread.v (kernel/kthread.c): switching between threads, with the stack
      pointers and return points the assembly of arch/x86_64/entry64.S saves.
    - Split.v (module/lua/yaos/split.c): [yaos.split] on strings of bytes.

    ** What is proved

    - Physical memory and heap: the bitmap refines a set of free pages over any
      run of calls (C1, C2); the memory map is given to the allocators without
      the reserved ranges, and a range that starts on a 2M page or is shorter
      than one is owned once afterwards (C3 to C5); each call of the
      hole-list allocators changes the free set by exactly the range taken or
      returned, keeps the lists sorted, disjoint and aligned, and releases its
      lock (C6, C7, C9 while memory is left and no free merges), except that a
      merging free of the heap keeps it (C8).
    - Page tables: a mapping call changes the translation of exactly the pages
      asked for (C10); the kernel's own walk finds what the processor's finds
      (C11); the first tables map the image and all of memory, but lose the rest
      of the third and fourth gigabyte to an [int] product (C12); device
      memory is mapped uncached (C13); backing a range and unmapping it gives
      everything back (C14).
    - Virtual memory: the zones (C15, C16), a range with its pages from
      allocation to release (C17, C18), and any run of [mmap] and [munmap], which
      keeps the regions of a client apart and loses no memory (C19).
    - Slab allocator: fit and freshness (C20).
    - Devices: with a device that follows the protocol a virtio queue refines an
      abstract queue of requests (C21); the network driver over it hands every
      completed packet to the stack once and in order, and sends exactly the
      bytes of a chain of buffers (C22, C23); functions of the PCI bus are found,
      their registers and capabilities read, and their interrupts led to a
      vector (C24 to C27); every enabled processor gets a block (C28); the sum
      of RFC 1071 over an IP header and over a UDP packet with its pseudo-header
      is all ones (C29).
    - Pools: a pool gives everything back and stays well formed, as long as it
      is not reset after a cleanup was added (C30, C31).
    - Printing: layout of numbers while no [int] wraps, termination (C32, C33).
    - Timers, polls, calendar, softirqs, network softirqs, modules: order,
      exactly-once calls, re-arming, bounded rounds (C34 to C38).
    - Threads: the invariant of all runs of switches without [exit_thread] and
      wake-ups of threads that are awake (C39).
    - Strings: splitting cuts at the leftmost occurrences, or faults (C40).

    Next to these the files keep lemmas, most with a concrete run, on what goes
    wrong when memory or nodes run out, on sizes and tags the slab allocator
    cannot free, on lost requests and on bounds that are off.

    ** Clients and hardware

    Callbacks (timeouts, softirq handlers, tasklet functions, virtio clients)
    are parameters with a class that states what they may do; each property
    that assumes one has a witness with a concrete callback.  Devices (clock
    events, virtio device, interrupt controller) appear as the registers or
    answers the code reads and writes; a function of the PCI bus is a device
    with laws for its configuration registers ([PciFunction], [PciRegisters]).  Interleavings of several processors are
    not modelled: state is per processor, as the code keeps it, or protected by
    a lock that is part of the state.

    ** Not modelled

    The IDE disk, the interrupt controllers, the clocks and the boot loader,
    which only move bytes through ports; start-up order and the assembly of
    traps and of the start of other processors; the block driver and the network
    driver's set-up of its device; the HTTP server apart from its pools, the Lua modules apart from
    [yaos.split] and the vendored libraries; [dump_stack]; [create_thread_oncpu],
    [nsleep] and the start-up calls of kernel/kthread.c.

    This file itself holds the monad, its total-correctness triples, machine
    words and facts about lists that several components use. *)
From Stdlib Require Import ZArith Lia.
From stdpp Require Import base tactics gmap list option.
#[export] Set Warnings "-clear-no-such-hyp".
#[global] Open Scope Z_scope.

(** ** Outcomes of kernel code

    A kernel routine returns, or the CPU never comes back from it: [panic()],
    [BUG()] and a failed [ASSERT] (the build defines DEBUG) end in an endless
    loop; a spinlock taken twice on one CPU spins for ever; a NULL or wild
    pointer faults.  [OutOfFuel] marks a loop cut short by the model. *)
Inductive outcome (A : Type) : Type :=
  | Done (a : A)
  | Panic
  | Deadlock
  | Fault
  | OutOfFuel.
Arguments Done {A} a.
Arguments Panic {A}.
Arguments Deadlock {A}.
Arguments Fault {A}.
Arguments OutOfFuel {A}.

(** Computations over a state [St] returning an [A]. *)
Definition M (St A : Type) : Type := St -> outcome (A * St).

Section monad.
Context {St : Type}.

Definition ret {A} (a : A) : M St A := fun s => Done (a, s).

Definition bind {A B} (m : M St A) (k : A -> M St B) : M St B :=
  fun s => match m s with
           | Done (a, s') => k a s'
           | Panic => Panic
           | Deadlock => Deadlock
           | Fault => Fault
           | OutOfFuel => OutOfFuel
           end.

Definition panic {A} : M St A := fun _ => Panic.
Definition fault {A} : M St A := fun _ => Fault.
Definition deadlock {A} : M St A := fun _ => Deadlock.
Definition out_of_fuel {A} : M St A := fun _ => OutOfFuel.

Definition gets {A} (f : St -> A) : M St A := fun s => Done (f s, s).
Definition modify (f : St -> St) : M St unit := fun s => Done (tt, f s).

(** [ASSERT(b)] of include/yaos/assert.h. *)
Definition kassert (b : bool) : M St unit := if b then ret tt else panic.

(** A value that exists only when the pointer read is valid. *)
Definition deref_opt {A} (o : option A) : M St A :=
  match o with Some a => ret a | None => fault end.

(** A loop: the body either continues with a new loop variable or leaves. *)
Fixpoint loop {A R} (fuel : nat) (body : A -> M St (A + R)) (a : A) : M St R :=
  match fuel with
  | O => out_of_fuel
  | S fuel' =>
      bind (body a) (fun x => match x with
                              | inl a' => loop fuel' body a'
                              | inr r => ret r
                              end)
  end.
End monad.

Declare Scope kernel_scope.
Delimit Scope kernel_scope with kernel.
#[global] Open Scope kernel_scope.
Notation "x <- m ;; k" := (bind m (fun x => k))
  (at level 95, m at level 94, right associativity) : kernel_scope.
Notation "m ;;; k" := (bind m (fun _ => k))
  (at level 95, right associativity) : kernel_scope.

(** Running a computation on a component of a larger state. *)
Definition zoom {St T A} (get : St -> T) (put : T -> St -> St) (m : M T A) : M St A :=
  fun s => match m (get s) with
           | Done (a, t) => Done (a, put t s)
           | Panic => Panic
           | Deadlock => Deadlock
           | Fault => Fault
           | OutOfFuel => OutOfFuel
           end.

(** ** Total-correctness triples *)
Definition wp {St A} (m : M St A) (s : St) (Q : A -> St -> Prop) : Prop :=
  match m s with Done (a, s') => Q a s' | _ => False end.

Section wp.
Context {St : Type}.
Implicit Types s : St.

Lemma wp_run {A} (m : M St A) s Q :
  wp m s Q <-> exists a s', m s = Done (a, s') /\ Q a s'.
Proof.
  unfold wp. split.
  - destruct (m s) as [[a s']| | | |]; naive_solver.
  - intros (a & s' & -> & HQ). exact HQ.
Qed.

Lemma wp_mono {A} (m : M St A) s (Q Q' : A -> St -> Prop) :
  wp m s Q -> (forall a s', Q a s' -> Q' a s') -> wp m s Q'.
Proof. unfold wp. destruct (m s) as [[a s']| | | |]; naive_solver. Qed.

Lemma wp_ret {A} (a : A) s Q : Q a s -> wp (ret a) s Q.
Proof. exact id. Qed.

Lemma wp_bind {A B} (m : M St A) (k : A -> M St B) s Q :
  wp m s (fun a s' => wp (k a) s' Q) -> wp (bind m k) s Q.
Proof. unfold wp, bind. destruct (m s) as [[a s']| | | |]; naive_solver. Qed.

Lemma wp_bind_assoc {A B C} (m : M St A) (k : A -> M St B) (k' : B -> M St C) s Q :
  wp (bind m k) s (fun b s' => wp (k' b) s' Q) -> wp (bind m (fun a => bind (k a) k')) s Q.
Proof. unfold wp, bind. destruct (m s) as [[a s']| | | |]; [destruct (k a s') as [[b s'']| | | |]|..]; done. Qed.

Lemma wp_gets {A} (f : St -> A) s Q : Q (f s) s -> wp (gets f) s Q.
Proof. exact id. Qed.

Lemma wp_modify (f : St -> St) s Q : Q tt (f s) -> wp (modify f) s Q.
Proof. exact id. Qed.

Lemma wp_kassert (b : bool) s Q : b = true -> Q tt s -> wp (kassert b) s Q.
Proof. intros -> HQ. exact HQ. Qed.

Lemma wp_deref_opt {A} (o : option A) a s Q :
  o = Some a -> Q a s -> wp (deref_opt o) s Q.
Proof. intros -> HQ. exact HQ. Qed.

Lemma wp_conj {A} (m : M St A) s (Q Q' : A -> St -> Prop) :
  wp m s Q -> wp m s Q' -> wp m s (fun a s' => Q a s' /\ Q' a s').
Proof. unfold wp. destruct (m s) as [[a s']| | | |]; naive_solver. Qed.

(** Loops: an invariant and a measure bounded by the fuel. *)
Lemma wp_loop {A R} (I : A -> St -> Prop) (mu : A -> St -> nat)
    (body : A -> M St (A + R)) (Q : R -> St -> Prop) :
  (forall a s, I a s ->
     wp (body a) s (fun x s' =>
       match x with
       | inl a' => I a' s' /\ (mu a' s' < mu a s)%nat
       | inr r => Q r s'
       end)) ->
  forall fuel a s, I a s -> (mu a s < fuel)%nat -> wp (loop fuel body a) s Q.
Proof.
  intros Hbody fuel. induction fuel as [|fuel IH]; intros a s HI Hmu; [lia|].
  cbn [loop]. apply wp_bind. eapply wp_mono; [apply Hbody, HI|].
  intros [a'|r] s'; cbn beta iota.
  - intros [HI' Hlt]. apply IH; [exact HI'|lia].
  - intros HQ. apply wp_ret, HQ.
Qed.
End wp.

#[global] Arguments loop : simpl never.

Lemma wp_zoom {St T A} (get : St -> T) (put : T -> St -> St) (m : M T A) s Q :
  wp m (get s) (fun a t => Q a (put t s)) -> wp (zoom get put m) s Q.
Proof. unfold wp, zoom. destruct (m (get s)) as [[a t]| | | |]; naive_solver. Qed.

(** ** Frames: a relation every run of a computation keeps *)
Definition respects {St A} (R : St -> St -> Prop) (m : M St A) : Prop :=
  forall s a s', m s = Done (a, s') -> R s s'.

Section respects.
Context {St : Type} (R : St -> St -> Prop) `{!PreOrder R}.

Lemma respects_ret {A} (a : A) : respects R (ret a).
Proof. intros s ? ? [= _ <-]. reflexivity. Qed.
Lemma respects_gets {A} (f : St -> A) : respects R (gets f).
Proof. intros s ? ? [= _ <-]. reflexivity. Qed.
Lemma respects_panic {A} : respects (A := A) R panic.
Proof. intros s ? ? [=]. Qed.
Lemma respects_fault {A} : respects (A := A) R fault.
Proof. intros s ? ? [=]. Qed.
Lemma respects_out_of_fuel {A} : respects (A := A) R out_of_fuel.
Proof. intros s ? ? [=]. Qed.
Lemma respects_modify (f : St -> St) : (forall s, R s (f s)) -> respects R (modify f).
Proof. intros Hf s ? ? [= _ <-]. apply Hf. Qed.
Lemma respects_bind {A B} (m : M St A) (k : A -> M St B) :
  respects R m -> (forall a, respects R (k a)) -> respects R (bind m k).
Proof.
  intros Hm Hk s b s' H. unfold bind in H. destruct (m s) as [[a s1]| | | |] eqn:Hrun; try done.
  transitivity s1; [by eapply Hm|by eapply Hk].
Qed.
Lemma respects_loop {A B} fuel (body : A -> M St (A + B)) a :
  (forall a, respects R (body a)) -> respects R (loop fuel body a).
Proof.
  intros Hb. revert a. induction fuel as [|fuel IH]; intros a; cbn [loop].
  - apply respects_out_of_fuel.
  - apply respects_bind; [apply Hb|]. intros [a'|r]; [apply IH|apply respects_ret].
Qed.
Lemma respects_zoom {T A} (get : St -> T) (put : T -> St -> St) (m : M T A) :
  (forall s a t, m (get s) = Done (a, t) -> R s (put t s)) -> respects R (zoom get put m).
Proof.
  intros Hz s a s' H. unfold zoom in H. destruct (m (get s)) as [[b t]| | | |] eqn:Hrun; try done.
  injection H as <- <-. by eapply Hz.
Qed.
End respects.

(** [wp_step] peels one primitive off the computation in the goal. *)
Ltac wp_step :=
  lazymatch goal with
  | |- wp (bind _ _) _ _ => apply wp_bind
  | |- wp (ret _) _ _ => apply wp_ret
  | |- wp (kassert true) _ _ => apply wp_kassert; [reflexivity|]
  | |- wp (gets _) _ _ => apply wp_gets
  | |- wp (modify _) _ _ => apply wp_modify
  | |- wp (zoom _ _ _) _ _ => apply wp_zoom
  end.
Ltac wp_steps := repeat (wp_step; cbn beta iota).

(** ** Machine words *)
Definition W64 : Z := 2 ^ 64.
Definition wrap64 (z : Z) : Z := z mod 2 ^ 64.
Definition wrap32 (z : Z) : Z := z mod 2 ^ 32.
Definition wrap16 (z : Z) : Z := z mod 2 ^ 16.
Definition wrap8 (z : Z) : Z := z mod 2 ^ 8.
Definition lnot64 (z : Z) : Z := Z.lxor z (2 ^ 64 - 1).
(** Two's complement reading of the low 32 bits, C's conversion to [int]. *)
Definition to_int (z : Z) : Z := (z + 2 ^ 31) mod 2 ^ 32 - 2 ^ 31.

Lemma wrap64_small z : 0 <= z < 2 ^ 64 -> wrap64 z = z.
Proof. apply Z.mod_small. Qed.

Lemma wrap64_range z : 0 <= wrap64 z < 2 ^ 64.
Proof. apply Z.mod_pos_bound. lia. Qed.

Lemma to_int_range z : - 2 ^ 31 <= to_int z < 2 ^ 31.
Proof. unfold to_int. pose proof (Z.mod_pos_bound (z + 2 ^ 31) (2 ^ 32)). lia. Qed.

Lemma to_int_small z : - 2 ^ 31 <= z < 2 ^ 31 -> to_int z = z.
Proof. intros Hz. unfold to_int. rewrite Z.mod_small; lia. Qed.

(** Low bits and the two mask idioms [x & (2^n-1)] and [x & ~(2^n-1)]. *)
Lemma land_low_mod x n : 0 <= n -> Z.land x (2 ^ n - 1) = x mod 2 ^ n.
Proof. intros Hn. rewrite <- Z.land_ones, Z.ones_equiv by lia. reflexivity. Qed.

Lemma land_high x n :
  0 <= n <= 64 -> 0 <= x < 2 ^ 64 ->
  Z.land x (lnot64 (2 ^ n - 1)) = x - x mod 2 ^ n.
Proof.
  intros Hn Hx. unfold lnot64.
  replace (2 ^ n - 1) with (Z.ones n) by (rewrite Z.ones_equiv; lia).
  change (2 ^ 64 - 1) with (Z.ones 64).
  assert (x - x mod 2 ^ n = Z.ldiff x (Z.ones n)) as ->.
  { rewrite Z.ldiff_ones_r, Z.shiftl_mul_pow2, Z.shiftr_div_pow2 by lia.
    pose proof (Z.div_mod x (2 ^ n)). lia. }
  apply Z.bits_inj'. intros i Hi.
  rewrite Z.land_spec, Z.lxor_spec, Z.ldiff_spec, !Z.testbit_ones_nonneg by lia.
  destruct (Z.ltb_spec i 64).
  - destruct (i <? n), (Z.testbit x i); reflexivity.
  - rewrite (Z.bits_above_log2 x i); [reflexivity|lia|].
    destruct (decide (x = 0)) as [->|]; [cbn; lia|].
    enough (Z.log2 x < 64) by lia. apply Z.log2_lt_pow2; lia.
Qed.

(** A word is below [2^n] exactly when it has no bit at or above [n]. *)
Lemma testbit_above x n i : 0 <= x < 2 ^ n -> 0 <= n <= i -> Z.testbit x i = false.
Proof.
  intros Hx Hi. destruct (decide (x = 0)) as [->|]; [apply Z.bits_0|].
  apply Z.bits_above_log2; [lia|]. enough (Z.log2 x < n) by lia.
  apply Z.log2_lt_pow2; lia.
Qed.

Lemma range_of_bits x n :
  0 <= n -> 0 <= x -> (forall i, n <= i -> Z.testbit x i = false) -> 0 <= x < 2 ^ n.
Proof.
  intros Hn Hx Hb. split; [done|]. destruct (decide (x = 0)) as [->|]; [lia|].
  apply Z.log2_lt_pow2; [lia|]. destruct (decide (Z.log2 x < n)); [done|].
  pose proof (Z.bit_log2 x ltac:(lia)) as Hl. rewrite Hb in Hl by lia. done.
Qed.

(** ** Small facts on lists used by several components *)
Lemma elem_of_split_nodup {A} (x : A) (l1 l2 : list A) :
  NoDup (l1 ++ x :: l2) -> x ∉ l1 ++ l2.
Proof.
  intros [_ [Hd [Hx _]%list.NoDup_cons]]%list.NoDup_app [Hin|Hin]%elem_of_app; [|done].
  exact (Hd x Hin (list_elem_of_here x l2)).
Qed.
