(* ===== verification/HoleList.v ===== *)
(** * HoleList: linked lists of memory holes in a static node array

    Three allocators of the kernel (kernel/phy_page.c, kernel/kheap.c,
    kernel/vm.c) keep their free ranges in the same structure: a static array
    of nodes, threaded into a list of unused nodes ([pfree...]) and a list of
    holes sorted by address ([phead...]), under a spinlock.  This file models
    the nodes, the two lists and the loops those files share, pointer by
    pointer ([option nat] is an index in the node array or NULL), and relates
    them to plain lists of cells. *)
From Stdlib Require Import ZArith Lia.
From stdpp Require Import base tactics gmap list option.
From S2P Require Import Prelude.

(** ** Data *)

(** [struct phy_page_t], [struct kheap_t] ([n_meta] is [origin_size]) and
    [struct linear_t] ([n_meta] is [tt]). *)
Record node (X : Type) := Node {
  n_addr : Z;
  n_size : Z;
  n_next : option nat;
  n_meta : X
}.
Arguments Node {X} n_addr n_size n_next n_meta.
Arguments n_addr {X} n.
Arguments n_size {X} n.
Arguments n_next {X} n.
Arguments n_meta {X} n.

Record pool (X : Type) := Pool {
  p_nodes : gmap nat (node X);
  p_free : option nat;
  p_head : option nat;
  p_lock : bool
}.
Arguments Pool {X} p_nodes p_free p_head p_lock.
Arguments p_nodes {X} p.
Arguments p_free {X} p.
Arguments p_head {X} p.
Arguments p_lock {X} p.

Section operations.
Context {X : Type}.
Implicit Types (s : pool X) (p : option nat) (n : node X).

Definition set_nodes (ns : gmap nat (node X)) s : pool X :=
  Pool ns (p_free s) (p_head s) (p_lock s).
Definition set_free p s : pool X := Pool (p_nodes s) p (p_head s) (p_lock s).
Definition set_head p s : pool X := Pool (p_nodes s) (p_free s) p (p_lock s).
Definition set_lock (b : bool) s : pool X :=
  Pool (p_nodes s) (p_free s) (p_head s) b.

(** [*p], and a write through [p]. *)
Definition deref p : M (pool X) (node X) :=
  fun s => match p with
           | None => Fault
           | Some i => match p_nodes s !! i with
                       | Some n => Done (n, s)
                       | None => Fault
                       end
           end.
Definition update p (f : node X -> node X) : M (pool X) unit :=
  n <- deref p ;;
  match p with
  | Some i => modify (fun s => set_nodes (<[i := f n]> (p_nodes s)) s)
  | None => fault
  end.

(** [p->pnext = q], [p->addr = a] and [p->size = z]. *)
Definition put_next p (q : option nat) : M (pool X) unit :=
  update p (fun n => Node (n_addr n) (n_size n) q (n_meta n)).
Definition put_range p (a z : Z) : M (pool X) unit :=
  update p (fun n => Node a z (n_next n) (n_meta n)).
Definition put_cell p (a z : Z) (x : X) : M (pool X) unit :=
  update p (fun n => Node a z (n_next n) x).

Definition spin_lock : M (pool X) unit :=
  fun s => if p_lock s then Deadlock else Done (tt, set_lock true s).
Definition spin_unlock : M (pool X) unit := modify (set_lock false).

(** [while (p && !stop(p)) p = p->pnext;] *)
Fixpoint walk (fuel : nat) (stop : Z -> Z -> bool) p : M (pool X) (option nat) :=
  match fuel with
  | O => out_of_fuel
  | S fuel' =>
      match p with
      | None => ret None
      | Some _ =>
          n <- deref p ;;
          if stop (n_addr n) (n_size n) then ret p
          else walk fuel' stop (n_next n)
      end
  end.

(** [while (p && p->pnext && !stop(p)) p = p->pnext;] *)
Fixpoint walk_last (fuel : nat) (stop : Z -> Z -> bool) p : M (pool X) (option nat) :=
  match fuel with
  | O => out_of_fuel
  | S fuel' =>
      match p with
      | None => ret None
      | Some _ =>
          n <- deref p ;;
          if bool_decide (n_next n = None) || stop (n_addr n) (n_size n) then ret p
          else walk_last fuel' stop (n_next n)
      end
  end.

(** [while (ph->pnext && ph->pnext->addr < a) ph = ph->pnext;] *)
Fixpoint walk_below (fuel : nat) (a : Z) (ph : option nat) : M (pool X) (option nat) :=
  match fuel with
  | O => out_of_fuel
  | S fuel' =>
      n <- deref ph ;;
      match n_next n with
      | None => ret ph
      | Some _ =>
          n' <- deref (n_next n) ;;
          if n_addr n' <? a then walk_below fuel' a (n_next n) else ret ph
      end
  end.

(** The sorted insertion of node [p]: in front when the list is empty or its
    first hole lies above, else behind the last hole that starts below. *)
Definition insert_sorted (fuel : nat) p : M (pool X) unit :=
  np <- deref p ;;
  h <- gets p_head ;;
  first <- match h with
           | None => ret true
           | Some _ => nh <- deref h ;; ret (n_addr np <? n_addr nh)
           end ;;
  if (first : bool) then
    put_next p h ;;;
    modify (set_head p)
  else
    ph <- walk_below fuel (n_addr np) h ;;
    nph <- deref ph ;;
    put_next p (n_next nph) ;;;
    put_next ph p.

(** [while (ptr->pnext && ptr->pnext != p) ptr = ptr->pnext;] *)
Fixpoint walk_before (fuel : nat) p (ptr : option nat) : M (pool X) (option nat) :=
  match fuel with
  | O => out_of_fuel
  | S fuel' =>
      n <- deref ptr ;;
      if bool_decide (n_next n = None) || bool_decide (n_next n = p) then ret ptr
      else walk_before fuel' p (n_next n)
  end.

(** [p->pnext = pfree; pfree = p;] *)
Definition release p : M (pool X) unit :=
  f <- gets p_free ;;
  put_next p f ;;;
  modify (set_free p).

(** Taking [p] off the hole list and giving its node back: the first, the
    second and the general case of the source, the last with its panic. *)
Definition unlink_release (fuel : nat) p : M (pool X) unit :=
  ptr <- gets p_head ;;
  np <- deref p ;;
  (if bool_decide (ptr = p) then
     n <- deref ptr ;;
     modify (set_head (n_next n))
   else
     n <- deref ptr ;;
     if bool_decide (n_next n = p) then put_next ptr (n_next np)
     else
       ptr' <- walk_before fuel p ptr ;;
       n' <- deref ptr' ;;
       match n_next n' with
       | None => panic
       | Some _ => put_next ptr' (n_next np)
       end) ;;;
  release p.

(** [p = pfree; pfree = pfree->pnext; p->addr = ...; p->size = ...;] and the
    sorted insertion that follows it. *)
Definition new_hole (fuel : nat) p (addr size : Z) (x : X) : M (pool X) unit :=
  f <- gets p_free ;;
  nf <- deref f ;;
  modify (set_free (n_next nf)) ;;;
  put_cell p addr size x ;;;
  insert_sorted fuel p.

(** [p->size -= size; if (drop(p->size)) {...} pret = p->addr; p->addr += size;] *)
Definition carve (fuel : nat) (drop : Z -> bool) p (size : Z) : M (pool X) Z :=
  n <- deref p ;;
  put_range p (n_addr n) (wrap64 (n_size n - size)) ;;;
  n1 <- deref p ;;
  (if drop (n_size n1) then unlink_release fuel p else ret tt) ;;;
  n2 <- deref p ;;
  put_range p (wrap64 (n_addr n2 + size)) (n_size n2) ;;;
  ret (n_addr n2).
End operations.

(** The static array of [k] zeroed nodes threaded into the free list, as the
    [init_...] functions leave it ([pnext] of the last node is 0). *)
Definition init_nodes {X} (x0 : X) (k : nat) : gmap nat (node X) :=
  list_to_map (map (fun i => (i, Node 0 0 (if Nat.ltb (S i) k then Some (S i) else None) x0))
                   (seq 0 k)).
Definition init_pool {X} (x0 : X) (k : nat) : pool X :=
  Pool (init_nodes x0 k) (Some 0%nat) None false.

(** ** Lists of cells: what a chain of nodes holds *)

(** A cell is a node's identity with its address, size and extra field. *)
Abbreviation cell X := (nat * (Z * Z * X))%type.

Section chains.
Context {X : Type}.
Implicit Types (ns : gmap nat (node X)) (l : list (cell X)) (s : pool X).

Fixpoint lseg ns (p : option nat) l (q : option nat) : Prop :=
  match l with
  | [] => p = q
  | (i, (a, z, x)) :: l' =>
      p = Some i /\ exists nx, ns !! i = Some (Node a z nx x) /\ lseg ns nx l' q
  end.

Definition ids l : list nat := map fst l.
Definition holes l : list (Z * Z) := map (fun c => fst (snd c)) l.

(** The two lists of a pool share the nodes [u] between them; the nodes
    outside [u] are somebody else's, and hold what [R] says. *)
Definition shares (u : list nat) (R ns : gmap nat (node X)) (l : list nat) : Prop :=
  l ≡ₚ u /\ NoDup u /\ forall j, j ∉ u -> ns !! j = R !! j.
Definition pool_rep (u : list nat) (R : gmap nat (node X)) s (lf lh : list (cell X)) : Prop :=
  lseg (p_nodes s) (p_free s) lf None /\
  lseg (p_nodes s) (p_head s) lh None /\
  shares u R (p_nodes s) (ids lf ++ ids lh).

(** The pure counterparts of [walk] and [walk_last]. *)
Fixpoint find_cell (stop : Z -> Z -> bool) l : option nat :=
  match l with
  | [] => None
  | (i, (a, z, _)) :: l' => if stop a z then Some i else find_cell stop l'
  end.
Fixpoint find_last (stop : Z -> Z -> bool) l : option nat :=
  match l with
  | [] => None
  | (i, (a, z, _)) :: l' =>
      match l' with
      | [] => Some i
      | _ => if stop a z then Some i else find_last stop l'
      end
  end.

(** The pure counterpart of [insert_sorted]. *)
Fixpoint ins_below (c : cell X) l : list (cell X) :=
  match l with
  | [] => [c]
  | d :: l' => if fst (fst (snd d)) <? fst (fst (snd c))
               then d :: ins_below c l' else c :: d :: l'
  end.
Definition ins (c : cell X) l : list (cell X) :=
  match l with
  | [] => [c]
  | d :: l' => if fst (fst (snd c)) <? fst (fst (snd d))
               then c :: d :: l' else d :: ins_below c l'
  end.
End chains.

(** ** Lemmas *)
Section chain_lemmas.
Context {X : Type}.
Implicit Types (ns : gmap nat (node X)) (l : list (cell X)) (s : pool X) (p q : option nat).

Lemma lseg_app ns p l1 l2 q :
  lseg ns p (l1 ++ l2) q <-> exists r, lseg ns p l1 r /\ lseg ns r l2 q.
Proof.
  revert p. induction l1 as [|[i [[a z] x]] l1 IH]; intros p; cbn.
  - naive_solver.
  - setoid_rewrite IH. naive_solver.
Qed.

Lemma lseg_frame ns ns' p l q :
  lseg ns p l q -> (forall i, i ∈ ids l -> ns' !! i = ns !! i) -> lseg ns' p l q.
Proof.
  revert p. induction l as [|[i [[a z] x]] l IH]; intros p; cbn; [done|].
  intros (-> & nx & Hi & Hl) Hfr. split; [done|]. exists nx.
  split; [rewrite Hfr by set_solver; done|].
  apply IH; [done|]. intros j Hj. apply Hfr. set_solver.
Qed.

Lemma lseg_insert_ne ns p l q i n :
  i ∉ ids l -> lseg ns p l q -> lseg (<[i := n]> ns) p l q.
Proof.
  intros Hi Hl. eapply lseg_frame; [exact Hl|].
  intros j Hj. apply lookup_insert_ne. set_solver.
Qed.

Lemma lseg_lookup ns p l1 i a z x l2 q :
  lseg ns p (l1 ++ (i, (a, z, x)) :: l2) q ->
  exists nx, ns !! i = Some (Node a z nx x) /\ lseg ns p l1 (Some i) /\ lseg ns nx l2 q.
Proof. rewrite lseg_app. cbn. naive_solver. Qed.

Lemma lseg_head_none ns l q : lseg ns None l q -> l = [] /\ q = None.
Proof. destruct l as [|[i [[a z] x]] l]; cbn; naive_solver. Qed.

Lemma ids_app l1 l2 : ids (l1 ++ l2) = ids l1 ++ ids l2.
Proof. apply map_app. Qed.

Lemma find_cell_Some stop l i :
  find_cell stop l = Some i ->
  exists l1 a z x l2, l = l1 ++ (i, (a, z, x)) :: l2 /\ stop a z = true.
Proof.
  induction l as [|[j [[a z] x]] l IH]; cbn; [done|].
  destruct (stop a z) eqn:Hst.
  - intros [= ->]. by exists [], a, z, x, l.
  - intros (l1 & a' & z' & x' & l2 & -> & ?)%IH.
    by exists ((j, (a, z, x)) :: l1), a', z', x', l2.
Qed.

Lemma find_cell_None stop l :
  find_cell stop l = None ->
  Forall (fun c => stop (fst (fst (snd c))) (snd (fst (snd c))) = false) l.
Proof.
  induction l as [|[j [[a z] x]] l IH]; cbn; [by constructor|].
  destruct (stop a z) eqn:Hst; [done|]. intros H. constructor; [done|auto].
Qed.

(** The last-node loop finds a satisfying cell whenever there is one. *)
Lemma find_last_cell stop l i :
  find_cell stop l = Some i -> find_last stop l = Some i.
Proof.
  induction l as [|[j [[a z] x]] l IH]; cbn; [done|].
  destruct (stop a z), l as [|[j' [[a' z'] x']] l]; cbn in *; naive_solver.
Qed.

Lemma walk_spec fuel stop s p l :
  lseg (p_nodes s) p l None -> (length l < fuel)%nat ->
  walk fuel stop p s = Done (find_cell stop l, s).
Proof.
  revert p l. induction fuel as [|fuel IH]; intros p l Hl Hlen; [lia|].
  destruct l as [|[i [[a z] x]] l]; cbn in Hl.
  - by rewrite Hl.
  - destruct Hl as (-> & nx & Hi & Hl). cbn. unfold bind, deref. rewrite Hi. cbn.
    destruct (stop a z); [done|]. apply IH; [done|]. cbn in Hlen; lia.
Qed.

Lemma walk_last_spec fuel stop s p l :
  lseg (p_nodes s) p l None -> (length l < fuel)%nat ->
  walk_last fuel stop p s = Done (find_last stop l, s).
Proof.
  revert p l. induction fuel as [|fuel IH]; intros p l Hl Hlen; [lia|].
  destruct l as [|[i [[a z] x]] l]; cbn in Hl.
  - by rewrite Hl.
  - destruct Hl as (-> & nx & Hi & Hl). cbn. unfold bind, deref. rewrite Hi. cbn.
    destruct l as [|[j [[a' z'] x']] l].
    + cbn in Hl. subst nx. done.
    + pose proof Hl as (-> & _). cbn. destruct (stop a z); [done|].
      apply (IH (Some j) ((j, (a', z', x')) :: l)); [done|]. cbn in *; lia.
Qed.

Lemma walk_below_spec fuel a s c l :
  lseg (p_nodes s) (Some (fst c)) (c :: l) None -> (length l < fuel)%nat ->
  exists l1 d l2,
    walk_below fuel a (Some (fst c)) s = Done (Some (fst d), s) /\
    c :: l = l1 ++ d :: l2 /\
    forall n, fst (fst (snd n)) = a -> c :: ins_below n l = l1 ++ d :: n :: l2.
Proof.
  revert c l. induction fuel as [|fuel IH]; intros [i [[b z] x]] l Hl Hlen; [lia|].
  destruct Hl as (_ & nx & Hi & Hl). cbn. unfold bind, deref. rewrite Hi. cbn.
  destruct l as [|[j [[b' z'] x']] l].
  - cbn in Hl. subst nx. exists [], (i, (b, z, x)), []. done.
  - pose proof Hl as (-> & nx' & Hj & Hl'). rewrite Hj. cbn.
    destruct (b' <? a) eqn:Hlt.
    + destruct (IH (j, (b', z', x')) l) as (l1 & d & l2 & Hw & Hsp & Hins);
        [done|cbn in *; lia|].
      exists ((i, (b, z, x)) :: l1), d, l2. split; [exact Hw|].
      split; [cbn [app]; f_equal; exact Hsp|]. intros n <-. cbn [app ins_below fst snd]. rewrite Hlt. f_equal. by apply Hins.
    + exists [], (i, (b, z, x)), ((j, (b', z', x')) :: l).
      split; [done|]. split; [done|]. intros n <-. by rewrite Hlt.
Qed.

(** Linking a cell behind [d] and unlinking the cell behind [d]. *)
Lemma lseg_link ns p l1 d l2 q i a z nx nx' x nd :
  lseg ns p (l1 ++ d :: l2) q ->
  NoDup (ids (l1 ++ d :: l2)) -> i ∉ ids (l1 ++ d :: l2) ->
  ns !! i = Some (Node a z nx x) -> ns !! fst d = Some nd -> nx' = n_next nd ->
  lseg (<[fst d := Node (n_addr nd) (n_size nd) (Some i) (n_meta nd)]>
          (<[i := Node a z nx' x]> ns)) p (l1 ++ d :: (i, (a, z, x)) :: l2) q.
Proof.
  intros Hl Hnd Hi Hni Hd ->. destruct d as [k [[b y] w]].
  rewrite ids_app in Hnd, Hi. cbn in Hnd, Hi, Hd |- *.
  apply lseg_lookup in Hl as (nk & Hk & Hl1 & Hl2).
  rewrite Hk in Hd. injection Hd as <-. cbn.
  apply list.NoDup_app in Hnd as (_ & Hdis & [Hk2 _]%list.NoDup_cons).
  apply lseg_app. exists (Some k). split.
  - apply lseg_insert_ne; [intros Hin; eapply Hdis; [exact Hin|left]|].
    apply lseg_insert_ne; [|done]. rewrite elem_of_app in Hi. naive_solver.
  - rewrite elem_of_app, elem_of_cons in Hi.
    split; [done|]. exists (Some i). rewrite lookup_insert_eq. split; [done|].
    split; [done|]. exists nk. rewrite lookup_insert_ne, lookup_insert_eq by naive_solver.
    split; [done|]. apply lseg_insert_ne; [done|]. apply lseg_insert_ne; naive_solver.
Qed.

Lemma lseg_unlink ns p l1 d i a z x l2 q nd nx :
  lseg ns p (l1 ++ d :: (i, (a, z, x)) :: l2) q ->
  NoDup (ids (l1 ++ d :: (i, (a, z, x)) :: l2)) ->
  ns !! fst d = Some nd -> ns !! i = Some (Node a z nx x) ->
  lseg (<[fst d := Node (n_addr nd) (n_size nd) nx (n_meta nd)]> ns) p (l1 ++ d :: l2) q.
Proof.
  intros Hl Hnd Hd Hi. destruct d as [k [[b y] w]].
  rewrite ids_app in Hnd. cbn in Hnd, Hd |- *.
  apply lseg_lookup in Hl as (nk & Hk & Hl1 & -> & ni & Hi' & Hl2).
  rewrite Hk in Hd. injection Hd as <-. rewrite Hi in Hi'. injection Hi' as <-. cbn.
  apply list.NoDup_app in Hnd as (_ & Hdis & [Hk2 _]%list.NoDup_cons).
  apply lseg_app. exists (Some k). split.
  - apply lseg_insert_ne; [|done]. intros Hin. eapply Hdis; [exact Hin|left].
  - split; [done|]. exists nx. rewrite lookup_insert_eq. split; [done|].
    apply lseg_insert_ne; [|done]. rewrite elem_of_cons in Hk2. naive_solver.
Qed.
End chain_lemmas.

#[global] Arguments walk : simpl never.
#[global] Arguments walk_last : simpl never.
#[global] Arguments walk_below : simpl never.

(** ** The operations on a represented pool *)
Section operation_lemmas.
Context {X : Type}.
Implicit Types (s : pool X) (lf lh l : list (cell X)).

Lemma wp_deref s i n Q :
  p_nodes s !! i = Some n -> Q n s -> wp (deref (Some i)) s Q.
Proof. unfold wp, deref. by intros ->. Qed.

Lemma wp_update s i n f Q :
  p_nodes s !! i = Some n ->
  Q tt (set_nodes (<[i := f n]> (p_nodes s)) s) -> wp (update (Some i) f) s Q.
Proof.
  intros Hi HQ. unfold update. apply wp_bind. eapply wp_deref; [exact Hi|]. exact HQ.
Qed.

Lemma wp_walk fuel stop s p l Q :
  lseg (p_nodes s) p l None -> (length l < fuel)%nat ->
  Q (find_cell stop l) s -> wp (walk fuel stop p) s Q.
Proof. intros Hl Hf HQ. unfold wp. by rewrite (walk_spec _ _ _ _ l). Qed.

Lemma wp_walk_last fuel stop s p l Q :
  lseg (p_nodes s) p l None -> (length l < fuel)%nat ->
  Q (find_last stop l) s -> wp (walk_last fuel stop p) s Q.
Proof. intros Hl Hf HQ. unfold wp. by rewrite (walk_last_spec _ _ _ _ l). Qed.

Lemma wp_spin_lock s Q : p_lock s = false -> Q tt (set_lock true s) -> wp spin_lock s Q.
Proof. unfold wp, spin_lock. by intros ->. Qed.

Lemma ids_ins_below c l : ids (ins_below c l) ≡ₚ fst c :: ids l.
Proof.
  induction l as [|d l IH]; cbn; [done|].
  destruct (_ <? _); cbn; [|done]. rewrite IH. apply Permutation_swap.
Qed.

Lemma ids_ins c l : ids (ins c l) ≡ₚ fst c :: ids l.
Proof.
  destruct l as [|d l]; cbn; [done|].
  destruct (_ <? _); cbn; [done|].
  change (map fst (ins_below c l)) with (ids (ins_below c l)).
  rewrite ids_ins_below. apply Permutation_swap.
Qed.

Lemma shares_NoDup u R (ns : gmap nat (node X)) k : shares u R ns k -> NoDup k.
Proof. by intros (-> & Hu & _). Qed.

Lemma shares_upd u R (ns ns' : gmap nat (node X)) k k' :
  shares u R ns k -> k' ≡ₚ k -> (forall j, j ∉ k -> ns' !! j = ns !! j) -> shares u R ns' k'.
Proof.
  intros (Hl & Hu & Hfr) Hp Hns. split; [by rewrite Hp|]. split; [done|].
  intros j Hj. rewrite Hns; [by apply Hfr|by rewrite Hl].
Qed.

Lemma pool_rep_length u R s lf lh :
  pool_rep u R s lf lh -> (length lf + length lh = length u)%nat.
Proof.
  intros (_ & _ & Hp%Permutation_length & _).
  unfold ids in Hp. rewrite length_app, !length_map in Hp. exact Hp.
Qed.

(** Two writes at nodes of the pool leave the other owners' nodes alone. *)
Ltac frame_nodes :=
  let j := fresh "j" in let Hj := fresh "Hj" in
  intros j Hj; cbn; unfold ids in *; rewrite ?map_app in Hj; cbn in Hj;
  rewrite ?lookup_insert_ne; [done|..]; intros ->; apply Hj; set_solver.

Lemma insert_sorted_spec u R fuel s i a z nx x lf lh :
  lseg (p_nodes s) (p_free s) lf None ->
  lseg (p_nodes s) (p_head s) lh None ->
  shares u R (p_nodes s) (i :: ids lf ++ ids lh) ->
  p_nodes s !! i = Some (Node a z nx x) ->
  (length lh < fuel)%nat ->
  wp (insert_sorted fuel (Some i)) s (fun _ s' =>
    pool_rep u R s' lf (ins (i, (a, z, x)) lh) /\ p_lock s' = p_lock s).
Proof.
  intros Hf Hh Hp Hi Hfuel.
  pose proof (shares_NoDup _ _ _ _ Hp) as [Hni Hnd]%list.NoDup_cons.
  assert (Hperm : forall ns', (forall j, j ∉ i :: ids lf ++ ids lh -> ns' !! j = p_nodes s !! j) ->
    shares u R ns' (ids lf ++ ids (ins (i, (a, z, x)) lh))).
  { intros ns' Hns. eapply shares_upd; [exact Hp| |exact Hns]. rewrite ids_ins. cbn. by rewrite Permutation_middle. }
  apply list.NoDup_app in Hnd as (Hndf & Hdis & Hndh).
  rewrite elem_of_app in Hni.
  remember (ins (i, (a, z, x)) lh) as l' eqn:Hl'.
  unfold insert_sorted. wp_steps. eapply wp_deref; [exact Hi|]. wp_steps. cbn.
  destruct lh as [|[j [[b y] w]] lh].
  { cbn in Hh. rewrite Hh. wp_steps.
    eapply wp_update; [exact Hi|]. wp_steps. cbn in Hl' |- *. subst l'.
    split; [|done]. split; [|split; [|apply Hperm; frame_nodes]]; cbn.
    - apply lseg_insert_ne; [naive_solver|done].
    - split; [done|]. eexists. by rewrite lookup_insert_eq. }
  pose proof Hh as (Hhd & nj & Hj & Hh').
  rewrite Hhd. wp_steps. eapply wp_deref; [exact Hj|]. wp_steps. cbn.
  destruct (a <? b) eqn:Hab.
  { wp_steps. eapply wp_update; [exact Hi|]. wp_steps. cbn in Hl' |- *.
    rewrite Hab in Hl'. subst l'. split; [|done]. split; [|split; [|apply Hperm; frame_nodes]]; cbn.
    - apply lseg_insert_ne; [naive_solver|done].
    - split; [done|]. exists (Some j). rewrite lookup_insert_eq. split; [done|].
      apply (lseg_insert_ne _ (Some j) ((j, (b, y, w)) :: lh));
        [naive_solver|by rewrite <- Hhd]. }
  rewrite Hhd in Hh.
  destruct (walk_below_spec fuel a s (j, (b, y, w)) lh Hh) as (l1 & d & l2 & Hw & Hsp & Hins);
    [cbn in Hfuel; lia|].
  specialize (Hins (i, (a, z, x)) eq_refl).
  wp_steps. unfold wp at 1. cbn [fst] in Hw. rewrite Hw. rewrite Hsp in Hh, Hndh, Hni, Hdis.
  destruct d as [kd [[bd yd] wd]]. pose proof Hh as Hh2.
  apply lseg_lookup in Hh as (nd & Hd & _ & _).
  assert (Hid : i <> kd).
  { intros ->. apply Hni. right. rewrite ids_app. apply elem_of_app. right. left. }
  wp_steps. eapply wp_deref; [exact Hd|]. wp_steps.
  eapply wp_update; [exact Hi|]. cbn. wp_steps.
  eapply wp_update; [cbn; rewrite lookup_insert_ne by done; exact Hd|]. cbn.
  cbn in Hl'. rewrite Hab, Hins in Hl'. subst l'.
  split; [|done]. split; [|split; [|apply Hperm; rewrite Hsp; frame_nodes]]; cbn.
  - apply lseg_insert_ne; [intros Hin; apply (Hdis _ Hin)|].
    { rewrite ids_app. apply elem_of_app. right. left. }
    apply lseg_insert_ne; [naive_solver|done].
  - rewrite Hhd.
    apply (lseg_link (p_nodes s) (Some j) l1 (kd, (bd, yd, wd)) l2 None i a z nx nd x
             (Node bd yd nd wd)); try done; naive_solver.
Qed.

(** The walk to the predecessor of [p], and taking [p] off the list. *)
Lemma walk_before_spec fuel s i c d l1 l2 :
  lseg (p_nodes s) (Some (fst c)) ((c :: l1) ++ d :: l2) None ->
  NoDup (ids ((c :: l1) ++ d :: l2)) -> i = fst d -> (length l1 < fuel)%nat ->
  exists l0 e, c :: l1 = l0 ++ [e] /\
    walk_before fuel (Some i) (Some (fst c)) s = Done (Some (fst e), s).
Proof.
  intros Hl Hnd -> Hfuel. revert c l1 Hl Hnd Hfuel.
  induction fuel as [|fuel IH]; intros [j [[b y] w]] l1 Hl Hnd Hfuel; [lia|].
  destruct Hl as (_ & nx & Hj & Hl). cbn. unfold bind, deref. rewrite Hj. cbn.
  destruct l1 as [|[j' [[b' y'] w']] l1].
  - destruct d as [k [[a z] x]]. destruct Hl as (-> & _). cbn.
    exists [], (j, (b, y, w)). by rewrite (bool_decide_true (Some k = Some k)).
  - pose proof Hl as (-> & _). cbn in Hnd.
    apply list.NoDup_cons in Hnd as [_ Hnd].
    assert (j' <> fst d) as Hne.
    { intros ->. apply list.NoDup_cons in Hnd as [Hin _]. apply Hin.
      rewrite map_app. apply elem_of_app. right. left. }
    cbn. rewrite (bool_decide_false (Some j' = Some (fst d))) by congruence. cbn.
    destruct (IH (j', (b', y', w')) l1 Hl Hnd) as (l0 & e & He & Hw); [cbn in Hfuel; lia|].
    exists ((j, (b, y, w)) :: l0), e. split; [cbn; by rewrite He|exact Hw].
Qed.

Lemma unlink_release_spec u R fuel s i a z x l1 l2 lf :
  pool_rep u R s lf (l1 ++ (i, (a, z, x)) :: l2) -> (length l1 < fuel)%nat ->
  wp (unlink_release fuel (Some i)) s (fun _ s' =>
    pool_rep u R s' ((i, (a, z, x)) :: lf) (l1 ++ l2) /\ p_lock s' = p_lock s /\
    exists nx, p_nodes s' !! i = Some (Node a z nx x)).
Proof.
  intros (Hf & Hh & Hp) Hfuel.
  pose proof (shares_NoDup _ _ _ _ Hp) as Hnd.
  assert (Hp' : forall ns',
    (forall j, j ∉ ids lf ++ ids l1 ++ i :: ids l2 -> ns' !! j = p_nodes s !! j) ->
    shares u R ns' (ids ((i, (a, z, x)) :: lf) ++ ids (l1 ++ l2))).
  { intros ns' Hns. rewrite ids_app in Hp. eapply shares_upd; [exact Hp| |exact Hns]. rewrite !ids_app. cbn. rewrite <- !Permutation_middle.
    rewrite Permutation_app_comm. cbn. by rewrite <- (Permutation_app_comm (map fst lf)). }
  apply list.NoDup_app in Hnd as (Hndf & Hdis & Hndh).
  pose proof (lseg_lookup _ _ _ _ _ _ _ _ _ Hh) as (nx & Hi & _ & Hl2).
  assert (Hif : i ∉ ids lf).
  { intros Hin. apply (Hdis _ Hin). rewrite ids_app. apply elem_of_app. right. left. }
  assert (Hi12 : i ∉ ids (l1 ++ l2)).
  { rewrite ids_app in Hndh |- *. by apply elem_of_split_nodup. }
  unfold unlink_release. wp_steps. eapply wp_deref; [exact Hi|].
  (* whatever the unlinking did, giving the node back ends the same way *)
  assert (Hend : forall s1, lseg (p_nodes s1) (p_free s1) lf None ->
    lseg (p_nodes s1) (p_head s1) (l1 ++ l2) None ->
    p_nodes s1 !! i = Some (Node a z nx x) -> p_lock s1 = p_lock s ->
    (forall ns', (forall j, j <> i -> ns' !! j = p_nodes s1 !! j) ->
      shares u R ns' (ids ((i, (a, z, x)) :: lf) ++ ids (l1 ++ l2))) ->
    wp (release (Some i)) s1
      (fun _ s' => pool_rep u R s' ((i, (a, z, x)) :: lf) (l1 ++ l2) /\ p_lock s' = p_lock s /\
         exists nx', p_nodes s' !! i = Some (Node a z nx' x))).
  { intros s1 Hf1 Hh1 Hi1 Hlk Hsh. unfold release. wp_steps. eapply wp_update; [exact Hi1|]. wp_steps. cbn.
    split; [|split; [done|]].
    - split; [|split; [|apply Hsh; intros j Hj; cbn; by rewrite lookup_insert_ne by done]]; cbn.
      + split; [done|]. exists (p_free s1). rewrite lookup_insert_eq. split; [done|].
        by apply lseg_insert_ne.
      + by apply lseg_insert_ne.
    - exists (p_free s1). by rewrite lookup_insert_eq. }
  destruct l1 as [|[j [[b y] w]] l1].
  { destruct Hh as (Hhd & _). cbn in Hi12. rewrite Hhd, bool_decide_true by done.
    wp_steps. eapply wp_deref; [exact Hi|]. wp_steps. apply Hend; try done.
    intros ns' Hns. apply Hp'. intros j Hj. apply Hns. intros ->. apply Hj. set_solver. }
  pose proof Hh as (Hhd & nj & Hj & Hh').
  assert (j <> i) as Hji.
  { intros ->. apply Hi12. cbn. left. }
  rewrite Hhd, bool_decide_false by congruence.
  wp_steps. eapply wp_deref; [exact Hj|]. cbn.
  rewrite Hhd in Hh.
  assert (exists l0 e, (j, (b, y, w)) :: l1 = l0 ++ [e] /\
    if bool_decide (nj = Some i) then e = (j, (b, y, w))
    else walk_before fuel (Some i) (Some j) s = Done (Some (fst e), s)) as (l0 & e & He & Hw).
  { case_bool_decide as Heq.
    - exists [], (j, (b, y, w)). split; [|done]. subst nj.
      destruct l1 as [|[j' [[b' y'] w']] l1]; [done|]. destruct Hh' as ([= ->] & _).
      exfalso. apply Hi12. cbn. right. left.
    - destruct (walk_before_spec fuel s i (j, (b, y, w)) (i, (a, z, x)) l1 l2) as (l0 & e & ? & ?);
        [done|done|done|cbn in Hfuel; lia|]. by exists l0, e. }
  change ((j, (b, y, w)) :: l1 ++ (i, (a, z, x)) :: l2) with
    (((j, (b, y, w)) :: l1) ++ (i, (a, z, x)) :: l2) in Hh, Hndh, Hdis.
  change (((j, (b, y, w)) :: l1) ++ l2) with (((j, (b, y, w)) :: l1) ++ l2) in Hi12, Hend.
  rewrite He in Hh, Hndh, Hdis, Hend, Hi12.
  rewrite <- (assoc_L app) in Hh, Hndh, Hdis, Hend, Hi12. cbn in Hend, Hi12, Hh, Hndh, Hdis.
  destruct e as [ke [[be ye] we]].
  assert (Hke : ke <> i).
  { intros ->. apply Hi12. rewrite ids_app. apply elem_of_app. right. left. }
  pose proof (lseg_lookup _ _ _ _ _ _ _ _ _ Hh) as (ne & Hne & _ & (Hne' & _)). subst ne.
  pose proof (lseg_unlink (p_nodes s) _ l0 (ke, (be, ye, we)) i a z x l2 None _ nx
    Hh Hndh Hne Hi) as Hunl. cbn in Hunl.
  assert (Hlast : wp (put_next (Some ke) nx) s (fun _ s1 =>
    wp (release (Some i)) s1
      (fun _ s' => pool_rep u R s' ((i, (a, z, x)) :: lf) (l0 ++ (ke, (be, ye, we)) :: l2) /\
         p_lock s' = p_lock s /\ exists nx', p_nodes s' !! i = Some (Node a z nx' x)))).
  { eapply wp_update; [exact Hne|]. apply Hend; cbn; try done.
    - apply lseg_insert_ne; [|done]. intros Hin. apply (Hdis _ Hin).
      rewrite ids_app. apply elem_of_app. right. left.
    - rewrite Hhd. exact Hunl.
    - rewrite lookup_insert_ne by done. exact Hi.
    - intros ns' Hns. rewrite He, <- (assoc_L app) in Hp'. apply Hp'. intros j' Hj'.
      rewrite !ids_app in Hj'. cbn in Hj'.
      rewrite Hns, lookup_insert_ne; [done|..]; intros ->; apply Hj'; set_solver. }
  change ((j, (b, y, w)) :: l1 ++ l2) with (((j, (b, y, w)) :: l1) ++ l2).
  rewrite He, <- (assoc_L app). cbn.
  case_bool_decide as Heq.
  - injection Hw as -> -> -> ->. exact Hlast.
  - wp_steps. unfold wp at 1. rewrite Hw. wp_steps. eapply wp_deref; [exact Hne|]. cbn. exact Hlast.
Qed.

(** Rewriting the fields of one cell. *)
Lemma lseg_put ns p l1 i a z x l2 q nx a' z' x' :
  lseg ns p (l1 ++ (i, (a, z, x)) :: l2) q -> NoDup (ids (l1 ++ (i, (a, z, x)) :: l2)) ->
  ns !! i = Some (Node a z nx x) ->
  lseg (<[i := Node a' z' nx x']> ns) p (l1 ++ (i, (a', z', x')) :: l2) q.
Proof.
  intros Hl Hnd Hi. apply lseg_lookup in Hl as (nx' & Hi' & Hl1 & Hl2).
  rewrite Hi in Hi'. injection Hi' as <-. rewrite ids_app in Hnd.
  apply list.NoDup_app in Hnd as (_ & Hdis & [Hi2 _]%list.NoDup_cons).
  apply lseg_app. exists (Some i). split.
  - apply lseg_insert_ne; [|done]. intros Hin. apply (Hdis _ Hin). left.
  - split; [done|]. exists nx. rewrite lookup_insert_eq. split; [done|].
    by apply lseg_insert_ne.
Qed.

Lemma pool_rep_put u R s lf l1 i a z x l2 nx a' z' x' :
  pool_rep u R s lf (l1 ++ (i, (a, z, x)) :: l2) ->
  p_nodes s !! i = Some (Node a z nx x) ->
  pool_rep u R (set_nodes (<[i := Node a' z' nx x']> (p_nodes s)) s) lf
    (l1 ++ (i, (a', z', x')) :: l2).
Proof.
  intros (Hf & Hh & Hp) Hi. pose proof (shares_NoDup _ _ _ _ Hp) as Hnd.
  apply list.NoDup_app in Hnd as (_ & Hdis & Hndh).
  split; [|split]; cbn.
  - apply lseg_insert_ne; [|done]. intros Hin. apply (Hdis _ Hin).
    rewrite ids_app. apply elem_of_app. right. left.
  - eapply lseg_put; done.
  - eapply shares_upd; [exact Hp|by rewrite !ids_app|]. rewrite ids_app. frame_nodes.
Qed.

Lemma pool_rep_node u R s lf l1 i a z x l2 :
  pool_rep u R s lf (l1 ++ (i, (a, z, x)) :: l2) ->
  exists nx, p_nodes s !! i = Some (Node a z nx x).
Proof. intros (_ & Hh & _). apply lseg_lookup in Hh as (nx & Hi & _). by exists nx. Qed.

Lemma wp_put_cell u R s lf l1 i a z x l2 a' z' x' Q :
  pool_rep u R s lf (l1 ++ (i, (a, z, x)) :: l2) ->
  (forall s', pool_rep u R s' lf (l1 ++ (i, (a', z', x')) :: l2) ->
     p_lock s' = p_lock s -> Q tt s') ->
  wp (put_cell (Some i) a' z' x') s Q.
Proof.
  intros Hrep HQ. destruct (pool_rep_node _ _ _ _ _ _ _ _ _ _ Hrep) as [nx Hi].
  eapply wp_update; [exact Hi|]. cbn. apply HQ; [|done]. by eapply pool_rep_put.
Qed.

Lemma wp_put_range u R s lf l1 i a z x l2 a' z' Q :
  pool_rep u R s lf (l1 ++ (i, (a, z, x)) :: l2) ->
  (forall s', pool_rep u R s' lf (l1 ++ (i, (a', z', x)) :: l2) ->
     p_lock s' = p_lock s -> Q tt s') ->
  wp (put_range (Some i) a' z') s Q.
Proof.
  intros Hrep HQ. destruct (pool_rep_node _ _ _ _ _ _ _ _ _ _ Hrep) as [nx Hi].
  eapply wp_update; [exact Hi|]. cbn. apply HQ; [|done]. by eapply pool_rep_put.
Qed.

Lemma wp_deref_cell u R s lf l1 i a z x l2 (Q : node X -> pool X -> Prop) :
  pool_rep u R s lf (l1 ++ (i, (a, z, x)) :: l2) ->
  (forall nx, Q (Node a z nx x) s) -> wp (deref (Some i)) s Q.
Proof.
  intros Hrep HQ. destruct (pool_rep_node _ _ _ _ _ _ _ _ _ _ Hrep) as [nx Hi].
  eapply wp_deref; [exact Hi|apply HQ].
Qed.

Lemma new_hole_spec u R fuel s i c lf lh addr size x :
  pool_rep u R s ((i, c) :: lf) lh -> (length lh < fuel)%nat ->
  wp (new_hole fuel (Some i) addr size x) s (fun _ s' =>
    pool_rep u R s' lf (ins (i, (addr, size, x)) lh) /\ p_lock s' = p_lock s).
Proof.
  intros (Hf & Hh & Hp) Hfuel. destruct c as [[a z] y]. cbn in Hf.
  destruct Hf as (Hfr & nx & Hi & Hf).
  change (shares u R (p_nodes s) (i :: ids lf ++ ids lh)) in Hp.
  pose proof (shares_NoDup _ _ _ _ Hp) as [Hni _]%list.NoDup_cons.
  unfold new_hole. wp_steps. rewrite Hfr.
  eapply wp_deref; [exact Hi|]. wp_steps.
  eapply wp_update; [exact Hi|]. cbn.
  rewrite elem_of_app in Hni.
  eapply wp_mono; [eapply (insert_sorted_spec u R)|]; cbn.
  - apply lseg_insert_ne; [|exact Hf]. naive_solver.
  - apply lseg_insert_ne; [|exact Hh]. naive_solver.
  - eapply shares_upd; [exact Hp|done|]. frame_nodes.
  - apply lookup_insert_eq.
  - done.
  - done.
Qed.

Lemma carve_spec u R fuel drop s i a z x l1 l2 lf size :
  pool_rep u R s lf (l1 ++ (i, (a, z, x)) :: l2) -> (length l1 < fuel)%nat ->
  0 <= size <= z -> z < 2 ^ 64 -> 0 <= a -> a + size < 2 ^ 64 ->
  wp (carve fuel drop (Some i) size) s (fun r s' =>
    r = a /\ p_lock s' = p_lock s /\
    if drop (z - size)
    then pool_rep u R s' ((i, (a + size, z - size, x)) :: lf) (l1 ++ l2)
    else pool_rep u R s' lf (l1 ++ (i, (a + size, z - size, x)) :: l2)).
Proof.
  intros Hrep Hfuel Hsz Hz Ha Has. unfold carve. wp_steps.
  eapply wp_deref_cell; [exact Hrep|]. intros nx. wp_steps. cbn.
  eapply wp_put_range; [exact Hrep|]. intros s1 Hrep1 Hlk1. rewrite wrap64_small in Hrep1 by lia.
  wp_steps. eapply wp_deref_cell; [exact Hrep1|]. intros nx1. cbn. wp_steps.
  destruct (drop (z - size)).
  - eapply wp_mono; [by apply unlink_release_spec|].
    cbn. intros _ s2 (Hrep2 & Hlk2 & nx2 & Hi2). wp_steps.
    eapply wp_deref; [exact Hi2|]. wp_steps. eapply wp_update; [exact Hi2|]. cbn.
    rewrite wrap64_small by lia. wp_steps. split; [done|]. split; [cbn; congruence|].
    destruct Hrep2 as (Hf2 & Hh2 & Hp2).
    change (shares u R (p_nodes s2) (i :: ids lf ++ ids (l1 ++ l2))) in Hp2.
    pose proof (shares_NoDup _ _ _ _ Hp2) as [Hni _]%list.NoDup_cons.
    cbn in Hf2. destruct Hf2 as (Hfr & nx' & Hi' & Hf2). rewrite elem_of_app in Hni.
    split; [|split; [|eapply shares_upd; [exact Hp2|done|frame_nodes]]]; cbn.
    + split; [done|]. exists nx'. rewrite lookup_insert_eq. split; [congruence|].
      apply lseg_insert_ne; [naive_solver|done].
    + apply lseg_insert_ne; [naive_solver|done].
  - wp_steps. eapply wp_deref_cell; [exact Hrep1|]. intros nx2. wp_steps.
    eapply wp_put_range; [exact Hrep1|]. cbn. intros s2 Hrep2 Hlk2.
    rewrite wrap64_small in Hrep2 by lia. wp_steps. split; [done|]. split; [congruence|done].
Qed.
End operation_lemmas.
#[global] Arguments walk_before : simpl never.
