(* ===== verification/FreeSet.v ===== *)
(** * FreeSet: what a sorted list of holes says about free memory

    The abstract view of the hole lists of HoleList.v: the set of free
    addresses ([covers]) and the invariant that holes are non-empty, sorted and
    disjoint within bounds ([ordered]), with the effect of inserting, merging,
    removing and shrinking a hole on both; then [cells_ok], the state of a list
    that owns an arena of nodes, and what the operations do to it. *)
From Stdlib Require Import ZArith Lia.
From stdpp Require Import base tactics gmap list option.
From S2P Require Import Prelude HoleList.
#[export] Set Warnings "-clear-no-such-hyp".

Section free_sets.
Context {X : Type}.
Implicit Types (l : list (cell X)) (c : cell X).

Definition c_addr c : Z := fst (fst (snd c)).
Definition c_size c : Z := snd (fst (snd c)).

(** Address [x] lies in a hole of the list. *)
Definition covers l (x : Z) : Prop :=
  exists c, c ∈ l /\ c_addr c <= x < c_addr c + c_size c.

Fixpoint ordered (lo hi : Z) l : Prop :=
  match l with
  | [] => lo <= hi
  | (_, (a, z, _)) :: l' => lo <= a /\ 0 < z /\ ordered (a + z) hi l'
  end.

Lemma covers_nil x : covers [] x <-> False.
Proof. unfold covers. set_solver. Qed.

Lemma covers_cons c l x :
  covers (c :: l) x <-> c_addr c <= x < c_addr c + c_size c \/ covers l x.
Proof. unfold covers. setoid_rewrite elem_of_cons. naive_solver. Qed.

Lemma covers_app l1 l2 x : covers (l1 ++ l2) x <-> covers l1 x \/ covers l2 x.
Proof. unfold covers. setoid_rewrite elem_of_app. naive_solver. Qed.

Lemma ordered_le lo hi l : ordered lo hi l -> lo <= hi.
Proof.
  revert lo. induction l as [|[i [[a z] m]] l IH]; intros lo; cbn; [done|].
  intros (? & ? & ?%IH). lia.
Qed.

Lemma ordered_app lo hi l1 l2 :
  ordered lo hi (l1 ++ l2) <-> exists md, ordered lo md l1 /\ ordered md hi l2.
Proof.
  revert lo. induction l1 as [|[i [[a z] m]] l1 IH]; intros lo; cbn.
  - split; [intros H; exists lo; naive_solver lia|].
    intros (md & Hle & Ho). destruct l2 as [|[i [[a z] m]] l2]; cbn in *; naive_solver lia.
  - setoid_rewrite IH. naive_solver.
Qed.

Lemma ordered_covers lo hi l x : ordered lo hi l -> covers l x -> lo <= x < hi.
Proof.
  revert lo. induction l as [|[i [[a z] m]] l IH]; intros lo; cbn.
  - by rewrite covers_nil.
  - intros (? & ? & Ho). rewrite covers_cons. unfold c_addr, c_size. cbn.
    pose proof (ordered_le _ _ _ Ho). intros [?|?%(IH _ Ho)]; lia.
Qed.

Lemma ordered_weaken lo lo' hi hi' l :
  ordered lo hi l -> lo' <= lo -> hi <= hi' -> ordered lo' hi' l.
Proof.
  revert lo lo'. induction l as [|[i [[a z] m]] l IH]; intros lo lo'; cbn; [lia|].
  intros (? & ? & Ho) ? ?. split; [lia|]. split; [done|]. eapply IH; [done|lia|done].
Qed.

(** Sorted insertion of a hole that no free address overlaps. *)
Lemma ordered_ins_below lo hi i a z m l :
  ordered lo hi l -> lo <= a -> 0 < z -> a + z <= hi ->
  (forall x, a <= x < a + z -> ~ covers l x) ->
  ordered lo hi (ins_below (i, (a, z, m)) l).
Proof.
  revert lo. induction l as [|[j [[b y] w]] l IH]; intros lo; cbn; [lia|].
  intros (? & ? & Ho) ? ? ? Hd.
  assert (b + y <= a \/ a + z <= b) as Hcase.
  { destruct (decide (b + y <= a)); [by left|]. destruct (decide (a + z <= b)); [by right|].
    exfalso. apply (Hd (Z.max a b)); [lia|]. apply covers_cons. left.
    unfold c_addr, c_size. cbn. lia. }
  destruct (Z.ltb_spec b a); cbn.
  - split; [done|]. split; [done|]. apply IH; [done|lia|done|done|].
    intros x Hx Hc. apply (Hd x Hx), covers_cons. by right.
  - split; [done|]. split; [done|]. split; [lia|]. split; [done|]. done.
Qed.

Lemma ordered_ins lo hi i a z m l :
  ordered lo hi l -> lo <= a -> 0 < z -> a + z <= hi ->
  (forall x, a <= x < a + z -> ~ covers l x) ->
  ordered lo hi (ins (i, (a, z, m)) l).
Proof.
  destruct l as [|[j [[b y] w]] l]; [cbn; lia|].
  intros Ho Hlo Hz Hhi Hd. pose proof Ho as (Hb & Hy & Ho'). cbn.
  assert (b + y <= a \/ a + z <= b) as Hcase.
  { destruct (decide (b + y <= a)); [by left|]. destruct (decide (a + z <= b)); [by right|].
    exfalso. apply (Hd (Z.max a b)); [lia|]. apply covers_cons. left.
    unfold c_addr, c_size. cbn. lia. }
  destruct (Z.ltb_spec a b); cbn.
  - split; [done|]. split; [done|]. split; [lia|]. split; [done|]. done.
  - split; [done|]. split; [done|]. apply ordered_ins_below; [done|lia|done|done|].
    intros x Hx Hc. apply (Hd x Hx), covers_cons. by right.
Qed.

Lemma covers_perm l l' x : l ≡ₚ l' -> covers l x <-> covers l' x.
Proof. unfold covers. intros Hp. by setoid_rewrite Hp. Qed.

Lemma ins_below_perm c l : ins_below c l ≡ₚ c :: l.
Proof.
  induction l as [|d l IH]; cbn; [done|].
  destruct (_ <? _); [|done]. rewrite IH. apply Permutation_swap.
Qed.

Lemma ins_perm c l : ins c l ≡ₚ c :: l.
Proof.
  destruct l as [|d l]; cbn; [done|].
  destruct (_ <? _); [done|]. rewrite ins_below_perm. apply Permutation_swap.
Qed.

Lemma covers_ins c l x :
  covers (ins c l) x <-> c_addr c <= x < c_addr c + c_size c \/ covers l x.
Proof. rewrite (covers_perm _ _ x (ins_perm c l)). apply covers_cons. Qed.

(** Growing a hole at its end by a range no free address overlaps. *)
Lemma ordered_merge lo hi i b y m m' z l1 l2 :
  ordered lo hi (l1 ++ (i, (b, y, m)) :: l2) -> 0 < z -> b + y + z <= hi ->
  (forall x, b + y <= x < b + y + z -> ~ covers (l1 ++ (i, (b, y, m)) :: l2) x) ->
  ordered lo hi (l1 ++ (i, (b, y + z, m')) :: l2).
Proof.
  rewrite !ordered_app. intros (md & Ho1 & Hb & Hy & Ho2) Hz Hhi Hd.
  exists md. split; [done|]. split; [done|]. split; [lia|].
  destruct l2 as [|[j [[c u] w]] l2]; [cbn; lia|].
  pose proof Ho2 as (? & ? & Ho3). cbn. split; [|done].
  destruct (decide (b + (y + z) <= c)); [done|]. exfalso.
  apply (Hd c); [lia|]. apply covers_app. right. apply covers_cons. right.
  apply covers_cons. left. unfold c_addr, c_size. cbn. lia.
Qed.

Lemma covers_merge i b y m m' z l1 l2 x :
  0 <= y -> 0 <= z ->
  covers (l1 ++ (i, (b, y + z, m')) :: l2) x <->
  b + y <= x < b + y + z \/ covers (l1 ++ (i, (b, y, m)) :: l2) x.
Proof.
  intros Hy Hz. rewrite !covers_app, !covers_cons. unfold c_addr, c_size. cbn.
  split; intros H; repeat match type of H with _ \/ _ => destruct H as [H|H] end; auto.
  - destruct (decide (x < b + y)); [right; right; left|left]; lia.
  - right. left. lia.
  - right. left. lia.
Qed.

(** Taking [z] bytes off the front of a hole, or the whole hole. *)
Lemma ordered_shrink lo hi i a y m m' z l1 l2 :
  ordered lo hi (l1 ++ (i, (a, y, m)) :: l2) -> 0 <= z < y ->
  ordered lo hi (l1 ++ (i, (a + z, y - z, m')) :: l2).
Proof.
  rewrite !ordered_app. intros (md & Ho1 & Hb & Hy & Ho2) Hz.
  exists md. split; [done|]. split; [lia|]. split; [lia|].
  by replace (a + z + (y - z)) with (a + y) by lia.
Qed.

Lemma ordered_remove lo hi c l1 l2 :
  ordered lo hi (l1 ++ c :: l2) -> ordered lo hi (l1 ++ l2).
Proof.
  destruct c as [i [[a y] m]].
  rewrite !ordered_app. intros (md & Ho1 & Hb & Hy & Ho2).
  exists md. split; [done|]. eapply ordered_weaken; [done|lia|lia].
Qed.

Lemma ordered_middle_excl lo hi i a y m l1 l2 x :
  ordered lo hi (l1 ++ (i, (a, y, m)) :: l2) -> a <= x < a + y -> ~ covers (l1 ++ l2) x.
Proof.
  rewrite ordered_app. intros (md & Ho1 & Hb & Hy & Ho2) Hx.
  rewrite covers_app. intros [Hc|Hc].
  - apply (ordered_covers _ _ _ _ Ho1) in Hc. lia.
  - apply (ordered_covers _ _ _ _ Ho2) in Hc. lia.
Qed.

Lemma covers_shrink lo hi i a y m m' z l1 l2 x :
  ordered lo hi (l1 ++ (i, (a, y, m)) :: l2) -> 0 <= z < y ->
  covers (l1 ++ (i, (a + z, y - z, m')) :: l2) x <->
  covers (l1 ++ (i, (a, y, m)) :: l2) x /\ ~ a <= x < a + z.
Proof.
  intros Ho Hz. pose proof (ordered_middle_excl _ _ _ _ _ _ _ _ x Ho) as Hex.
  rewrite covers_app in Hex.
  rewrite !covers_app, !covers_cons. unfold c_addr, c_size. cbn.
  split.
  - intros [Hc|[Hc|Hc]]; (split; [|intros ?; try (apply Hex; [lia|tauto]); lia]).
    + by left.
    + right. left. lia.
    + right. by right.
  - intros [[Hc|[Hc|Hc]] Hn]; [by left| |right; by right]. right. left. lia.
Qed.

Lemma covers_remove lo hi i a y m l1 l2 x :
  ordered lo hi (l1 ++ (i, (a, y, m)) :: l2) ->
  covers (l1 ++ l2) x <-> covers (l1 ++ (i, (a, y, m)) :: l2) x /\ ~ a <= x < a + y.
Proof.
  intros Ho. pose proof (ordered_middle_excl _ _ _ _ _ _ _ _ x Ho) as Hex.
  rewrite covers_app in Hex.
  rewrite !covers_app, !covers_cons. unfold c_addr, c_size. cbn. tauto.
Qed.

Lemma ordered_elem lo hi i a z m l1 l2 :
  ordered lo hi (l1 ++ (i, (a, z, m)) :: l2) -> lo <= a /\ 0 < z /\ a + z <= hi.
Proof.
  rewrite ordered_app. intros (md & ?%ordered_le & ? & ? & ?%ordered_le). lia.
Qed.

(** At most one hole ends at a given address. *)
Lemma ordered_end_unique lo hi l l1 i a z m l2 l1' i' a' z' m' l2' :
  ordered lo hi l -> l = l1 ++ (i, (a, z, m)) :: l2 -> l = l1' ++ (i', (a', z', m')) :: l2' ->
  a + z = a' + z' -> i = i'.
Proof.
  intros Ho -> Heq Hend. revert lo l1' Ho Heq.
  induction l1 as [|[j [[b y] w]] l1 IH]; intros lo l1' Ho Heq.
  - destruct l1' as [|c l1']; cbn in Heq; [congruence|]. exfalso.
    injection Heq as <- ->. cbn in Ho. destruct Ho as (_ & _ & Ho).
    apply ordered_elem in Ho as (? & ? & _). lia.
  - destruct l1' as [|c l1']; cbn in Heq, Ho.
    + exfalso. injection Heq as -> -> -> -> <-. destruct Ho as (_ & _ & Ho).
      apply ordered_elem in Ho as (? & ? & _). lia.
    + injection Heq as <- Heq. destruct Ho as (_ & _ & Ho). by eapply IH.
Qed.
End free_sets.

Create Rewrite HintDb free_set.
#[export] Hint Rewrite @covers_nil @covers_cons @covers_app @covers_ins : free_set.

(** ** Pools as sets of free addresses *)

(** The pool of [k] nodes is unlocked (or locked, [b]), has [nf] unused nodes
    and its holes, sorted within [lo, hi) and aligned to [al], make up [F]. *)
Definition aligned_cell {X} (al : Z) (c : cell X) : Prop :=
  c_addr c mod al = 0 /\ c_size c mod al = 0.

(** The nodes a pool works with, and what the rest of the array holds: all of
    an array of [k] nodes, or what other lists have left of it. *)
Record arena (X : Type) := Arena { ar_ids : list nat; ar_rest : gmap nat (node X) }.
#[global] Arguments Arena {X} _ _.
#[global] Arguments ar_ids {X} _.
#[global] Arguments ar_rest {X} _.
Definition whole {X} (k : nat) : arena X := Arena (seq 0 k) ∅.

Section hole_state.
Context {X : Type} (A : arena X) (lo hi al : Z).
Context (Hlo : 0 <= lo) (Hhi : hi < 2 ^ 64) (Hal : 0 < al).
Implicit Types (s : pool X) (F : Z -> Prop).

Record cells_ok (s : pool X) (lf lh : list (cell X)) : Prop := {
  co_rep : pool_rep (ar_ids A) (ar_rest A) s lf lh;
  co_ord : ordered lo hi lh;
  co_al : Forall (aligned_cell al) lh
}.

Definition holds (b : bool) s (nf : nat) F : Prop :=
  p_lock s = b /\ exists lf lh, cells_ok s lf lh /\ length lf = nf /\
    forall x, covers lh x <-> F x.

Lemma cells_ok_length s lf lh : cells_ok s lf lh -> (length lh <= length (ar_ids A))%nat.
Proof. intros [Hrep _ _]. apply pool_rep_length in Hrep. lia. Qed.

Lemma mod_add_0 a b : a mod al = 0 -> b mod al = 0 -> (a + b) mod al = 0.
Proof. intros Ha Hb. rewrite Z.add_mod, Ha, Hb by lia. apply Z.mod_0_l. lia. Qed.

Lemma mod_sub_0 a b : a mod al = 0 -> b mod al = 0 -> (a - b) mod al = 0.
Proof. intros Ha Hb. rewrite Zminus_mod, Ha, Hb by lia. apply Z.mod_0_l. lia. Qed.

Lemma co_elem s lf l1 i a z x l2 :
  cells_ok s lf (l1 ++ (i, (a, z, x)) :: l2) ->
  lo <= a /\ 0 < z /\ a + z <= hi /\ a mod al = 0 /\ z mod al = 0.
Proof.
  intros [_ Ho Ha]. apply ordered_elem in Ho as (? & ? & ?).
  apply Forall_app in Ha as [_ [[Ha Hz] _]%list.Forall_cons]. done.
Qed.

(** A new hole disjoint from the free set. *)
Lemma new_hole_ok fuel s i c lf lh a z x :
  cells_ok s ((i, c) :: lf) lh -> (length (ar_ids A) <= fuel)%nat ->
  lo <= a -> 0 < z -> a + z <= hi -> a mod al = 0 -> z mod al = 0 ->
  (forall y, a <= y < a + z -> ~ covers lh y) ->
  wp (new_hole fuel (Some i) a z x) s (fun _ s' =>
    p_lock s' = p_lock s /\
    cells_ok s' lf (ins (i, (a, z, x)) lh) /\
    forall y, covers (ins (i, (a, z, x)) lh) y <-> covers lh y \/ a <= y < a + z).
Proof.
  intros [Hrep Hord Hal'] Hfuel Ha Hz Hhi' Haa Hza Hdis.
  pose proof (pool_rep_length _ _ _ _ _ Hrep) as Hlen. cbn in Hlen.
  eapply wp_mono; [eapply (new_hole_spec (ar_ids A) (ar_rest A)); [exact Hrep|lia]|].
  intros _ s' [Hrep' Hlk]. split; [done|]. split.
  - split; [done|by apply ordered_ins|].
    rewrite ins_perm. constructor; [done|done].
  - intros y. rewrite covers_ins. unfold c_addr, c_size. cbn. tauto.
Qed.

(** Growing the hole that ends where the new range starts. *)
Lemma merge_ok s lf l1 i a z x l2 z2 x' Q :
  cells_ok s lf (l1 ++ (i, (a, z, x)) :: l2) ->
  0 < z2 -> a + z + z2 <= hi -> z2 mod al = 0 ->
  (forall y, a + z <= y < a + z + z2 -> ~ covers (l1 ++ (i, (a, z, x)) :: l2) y) ->
  (forall s', cells_ok s' lf (l1 ++ (i, (a, z + z2, x')) :: l2) ->
     p_lock s' = p_lock s ->
     (forall y, covers (l1 ++ (i, (a, z + z2, x')) :: l2) y <->
        covers (l1 ++ (i, (a, z, x)) :: l2) y \/ a + z <= y < a + z + z2) -> Q tt s') ->
  wp (put_cell (Some i) a (z + z2) x') s Q.
Proof.
  intros Hco Hz2 Hb Hm Hdis HQ. pose proof (co_elem _ _ _ _ _ _ _ _ Hco) as (? & ? & ? & ? & ?).
  destruct Hco as [Hrep Hord Hal'].
  eapply wp_put_cell; [exact Hrep|]. intros s' Hrep' Hlk. apply HQ; [|done|].
  - split; [done|eapply ordered_merge; done|].
    apply Forall_app in Hal' as [Hl1 [Hc Hl2]%list.Forall_cons].
    apply Forall_app. split; [done|]. apply list.Forall_cons. split; [|done].
    split; [done|]. by apply mod_add_0.
  - intros y. rewrite (covers_merge i a z x x' z2) by lia. tauto.
Qed.

(** Carving the front of a hole that is large enough; [drop0] is the test
    [p->size == 0]. *)
Definition drop0 (z : Z) : bool := z =? 0.

Lemma carve_ok fuel s lf l1 i a z x l2 size :
  cells_ok s lf (l1 ++ (i, (a, z, x)) :: l2) -> (length (ar_ids A) <= fuel)%nat ->
  0 < size <= z -> size mod al = 0 ->
  wp (carve fuel drop0 (Some i) size) s (fun r s' =>
    r = a /\ p_lock s' = p_lock s /\
    exists lf' lh', cells_ok s' lf' lh' /\ lf `suffix_of` lf' /\
      forall y, covers lh' y <->
        covers (l1 ++ (i, (a, z, x)) :: l2) y /\ ~ a <= y < a + size).
Proof.
  intros Hco Hfuel Hsz Hm. pose proof (co_elem _ _ _ _ _ _ _ _ Hco) as (? & ? & ? & ? & ?).
  pose proof (cells_ok_length _ _ _ Hco) as Hlen. rewrite length_app in Hlen. cbn in Hlen.
  destruct Hco as [Hrep Hord Hal'].
  eapply wp_mono; [apply (carve_spec (ar_ids A) (ar_rest A) _ drop0 _ _ _ _ _ _ _ _ size Hrep); lia|].
  intros r s' (-> & Hlk & Hr). split; [done|]. split; [done|].
  apply Forall_app in Hal' as [Hl1 [Hc Hl2]%list.Forall_cons].
  unfold drop0 in Hr. destruct (Z.eqb_spec (z - size) 0) as [Heq|Hne].
  - assert (z = size) as -> by lia.
    eexists _, _. split; [split; [exact Hr|by eapply ordered_remove|by apply Forall_app]|].
    split; [by apply suffix_cons_r|]. intros y. by apply (covers_remove lo hi).
  - eexists _, _. split; [split; [exact Hr|eapply ordered_shrink; [done|lia]|]|].
    + apply Forall_app. split; [done|]. apply list.Forall_cons. split; [|done].
      split; [by apply mod_add_0|by apply mod_sub_0].
    + split; [done|]. intros y. apply (covers_shrink lo hi _ _ _ x _ _ _ _ y Hord). lia.
Qed.
End hole_state.

(** ** The list of free nodes after initialisation *)
Lemma init_nodes_chain {X} (x0 : X) k j p :
  (j <= k)%nat -> p = (if Nat.ltb j k then Some j else None) ->
  exists l, lseg (init_nodes x0 k) p l None /\ ids l = seq j (k - j).
Proof.
  intros Hj ->. remember (k - j)%nat as n eqn:Hn. revert j Hj Hn.
  induction n as [|n IH]; intros j Hj Hn.
  - exists []. cbn [lseg]. by destruct (Nat.ltb_spec j k); [lia|].
  - destruct (IH (S j)) as (l & Hl & Hids); [lia|lia|].
    exists ((j, (0, 0, x0)) :: l). cbn [lseg ids map fst seq]. split; [|by rewrite <- Hids].
    destruct (Nat.ltb_spec j k); [|lia]. split; [done|]. eexists. split; [|exact Hl].
    unfold init_nodes. apply elem_of_list_to_map_1.
    + rewrite <- list_fmap_compose. unfold compose. cbn [fst].
      rewrite list_fmap_id. apply NoDup_seq.
    + apply list_elem_of_fmap. exists j. split; [done|]. apply elem_of_seq. lia.
Qed.

Lemma init_nodes_None {X} (x0 : X) k j : j ∉ seq 0 k -> init_nodes x0 k !! j = None.
Proof.
  intros Hj. unfold init_nodes. apply not_elem_of_list_to_map_1.
  rewrite <- list_fmap_compose. unfold compose. cbn [fst]. by rewrite list_fmap_id.
Qed.

Lemma init_pool_ok {X} (x0 : X) (k : nat) lo hi al :
  (0 < k)%nat -> lo <= hi ->
  exists lf, cells_ok (whole k) lo hi al (init_pool x0 k) lf [] /\ length lf = k.
Proof.
  intros Hk Hle. destruct (init_nodes_chain x0 k 0 (Some 0%nat)) as (l & Hl & Hids); [lia| |].
  { destruct (Nat.ltb_spec 0 k); [done|lia]. }
  exists l. rewrite Nat.sub_0_r in Hids. split.
  - split; [|done|by constructor]. split; [exact Hl|]. split; [done|].
    split; [by rewrite app_nil_r, Hids|]. split; [apply NoDup_seq|].
    intros j Hj. cbn. rewrite lookup_empty. by apply init_nodes_None.
  - apply (f_equal length) in Hids. unfold ids in Hids. by rewrite length_map, length_seq in Hids.
Qed.

Lemma whole_ids {X} k : length (ar_ids (@whole X k)) = k.
Proof. apply length_seq. Qed.

Lemma whole_length {X} k lo hi al (s : pool X) lf lh :
  cells_ok (whole k) lo hi al s lf lh -> (length lh <= k)%nat.
Proof. intros H. apply cells_ok_length in H. by rewrite whole_ids in H. Qed.
