(* ===== verification/Pages.v ===== *)
(** * Pages: the interfaces between the page allocators and their clients

    [LargePages] is what kernel/phy_page.c, kernel/kheap.c, kernel/vm.c and
    arch/x86_64/pgtable.c rely on when they call [alloc_phy_page()];
    [SmallPages] is what arch/x86_64/pgtable.c relies on when it calls
    [alloc_phy_page_small(4096)].  PhyMem.v and PhyPage.v give the instances. *)
From Stdlib Require Import ZArith Lia.
From stdpp Require Import base tactics.
From S2P Require Import Prelude.

Definition PAGE_SIZE_LARGE : Z := 2097152.
Definition PAGE_4K_SIZE : Z := 4096.

(** The range [a, a + z). *)
Definition in_range (a z x : Z) : Prop := a <= x < a + z.

(** A source of 2M pages: allocation returns a free page and removes exactly
    it, or returns 0 when it reaches none and changes no page. *)
Class LargePages (T : Type) := {
  lp_alloc : M T Z;
  lp_inv : T -> Prop;
  lp_free : T -> Z -> Prop;
  lp_reach : T -> Z -> Prop;
  lp_alloc_ok t :
    lp_inv t ->
    wp lp_alloc t (fun r t' =>
      lp_inv t' /\
      (r = 0 /\ (forall a, lp_free t' a <-> lp_free t a) /\
         (forall a, lp_reach t a -> ~ lp_free t a) \/
       lp_free t r /\ forall a, lp_free t' a <-> lp_free t a /\ a <> r));
  lp_aligned t a :
    lp_inv t -> lp_free t a -> a mod PAGE_SIZE_LARGE = 0 /\ 0 < a < 2 ^ 45
}.

(** A source of 4K page frames ([alloc_phy_page_small(4096)]). *)
Class SmallPages (T : Type) := {
  sp_alloc : M T Z;
  sp_inv : T -> Prop;
  sp_free : T -> Z -> Prop;           (* addresses the source owns *)
  sp_alloc_ok t :
    sp_inv t ->
    wp sp_alloc t (fun r t' =>
      sp_inv t' /\
      (r = 0 /\ (forall x, sp_free t' x <-> sp_free t x) \/
       r mod PAGE_4K_SIZE = 0 /\ 0 < r < 2 ^ 45 /\
       (forall x, in_range r PAGE_4K_SIZE x -> sp_free t x) /\
       (forall x, sp_free t' x <-> sp_free t x /\ ~ in_range r PAGE_4K_SIZE x)))
}.

(** The frame allocators as arch/x86_64/pgtable.c calls them: 4K frames, 2M
    pages, and giving both back. *)
Class FrameAlloc (T : Type) := {
  fa_small :: SmallPages T;
  fa_alloc_large : M T Z;
  fa_free_large : Z -> M T unit;
  fa_free_small : Z -> Z -> M T unit
}.

(** Whole 2M pages, in terms of the bytes the source owns.  [fl_home] are the
    pages it takes back; no operation changes that set. *)
Class FrameLaws (T : Type) `{FA : FrameAlloc T} := {
  fl_home : T -> Z -> Prop;
  fl_home_small t r t' a :
    sp_inv t -> sp_alloc t = Done (r, t') -> fl_home t' a <-> fl_home t a;
  fl_alloc_ok t :
    sp_inv t ->
    wp fa_alloc_large t (fun r t' =>
      sp_inv t' /\ (forall a : Z, fl_home t' a <-> fl_home t a) /\
      (r = 0 /\ (forall x, sp_free t' x <-> sp_free t x) \/
       r mod PAGE_SIZE_LARGE = 0 /\ 0 < r < 2 ^ 45 /\
       (forall x, in_range r PAGE_SIZE_LARGE x -> sp_free t x) /\
       (forall x, sp_free t' x <-> sp_free t x /\ ~ in_range r PAGE_SIZE_LARGE x)));
  fl_free_ok t a :
    sp_inv t -> fl_home t a -> (forall x, in_range a PAGE_SIZE_LARGE x -> ~ sp_free t x) ->
    wp (fa_free_large a) t (fun _ t' =>
      sp_inv t' /\ (forall b, fl_home t' b <-> fl_home t b) /\
      (forall x, sp_free t' x <-> sp_free t x \/ in_range a PAGE_SIZE_LARGE x))
}.

(** Every free 2M page may be given back after it was taken. *)
Definition closed {T} `{FL : FrameLaws T} (t : T) : Prop :=
  forall a, a mod PAGE_SIZE_LARGE = 0 ->
    (forall x, in_range a PAGE_SIZE_LARGE x -> sp_free t x) -> fl_home t a.
