(* ===== verification/PhyMem.v ===== *)
(** * PhyMem: the physical page bitmaps (arch/x86_64/phymem.c)

    One bit per 2M page ([pgbits]), searched word by word from a rotating
    cursor ([pnow]), and a second bitmap that hands one 2M page out as 4K pages
    to the page-fault handler ([smallbits]).  The theorems relate every
    operation to the set of free pages and to the counter [pages]. *)
From Stdlib Require Import ZArith Lia.
From stdpp Require Import base tactics gmap list option.
From S2P Require Import Prelude Pages.
#[export] Set Warnings "-clear-no-such-hyp".

(** ** Bit operations of include/asm/bitops.h on an array of words *)

(** [bsf]: the index of the lowest set bit ([0] when there is none, where the
    instruction leaves its result undefined). *)
Fixpoint ffs_from (fuel : nat) (w i : Z) : Z :=
  match fuel with
  | O => 0
  | S fuel' => if Z.testbit w i then i else ffs_from fuel' w (i + 1)
  end.
Definition __ffs (w : Z) : Z := ffs_from 64 w 0.
#[global] Arguments __ffs : simpl never.

(** A bitmap and its search window; [b_now] and [b_max] are word indices. *)
Record bitmap := Bitmap { b_words : list Z; b_now : nat; b_max : nat }.

(** [bts]/[btr] on a memory operand reach the word that holds the bit. *)
Definition test_and_set_bit (nr : Z) : M bitmap bool := fun b =>
  let k := Z.to_nat (nr / 64) in
  match b_words b !! k with
  | None => Fault
  | Some w => Done (Z.testbit w (nr mod 64),
                    Bitmap (<[k := Z.setbit w (nr mod 64)]> (b_words b)) (b_now b) (b_max b))
  end.
Definition test_and_clear_bit (nr : Z) (k : nat) : M bitmap bool := fun b =>
  match b_words b !! k with
  | None => Fault
  | Some w => Done (Z.testbit w nr,
                    Bitmap (<[k := Z.clearbit w nr]> (b_words b)) (b_now b) (b_max b))
  end.

Definition word_at (k : nat) : M bitmap Z := fun b =>
  match b_words b !! k with Some w => Done (w, b) | None => Fault end.
Definition set_now (k : nat) : M bitmap unit :=
  modify (fun b => Bitmap (b_words b) k (b_max b)).

(** [while (++pnow < lim) if ( *pnow) return pnow;] *)
Fixpoint scan (fuel : nat) (lim : nat) : M bitmap (option nat) :=
  match fuel with
  | O => out_of_fuel
  | S fuel' =>
      now <- gets b_now ;;
      set_now (S now) ;;;
      if Nat.ltb (S now) lim then
        w <- word_at (S now) ;;
        if w =? 0 then scan fuel' lim else ret (Some (S now))
      else ret None
  end.

(** [get_none_zero]: the word under the cursor, the words after it up to
    [pmax], then the words from the start up to the old cursor. *)
Definition get_none_zero : M bitmap (option nat) :=
  fuel <- gets (fun b => S (S (length (b_words b)))) ;;
  pos <- gets b_now ;;
  w <- word_at pos ;;
  if negb (w =? 0) then ret (Some pos)
  else
    lim <- gets b_max ;;
    r <- scan fuel lim ;;
    match r with
    | Some p => ret (Some p)
    | None =>
        set_now 0 ;;;
        w0 <- word_at 0 ;;
        if negb (w0 =? 0) then ret (Some 0%nat)
        else scan fuel pos
    end.

(** ** State of the file *)
Record phymem := PhyMem {
  pg : bitmap;              (* pgbits, pnow, pmax *)
  pages : Z;
  small : bitmap;           (* smallbits, smallpnow, smallpmax *)
  smallpages : Z;
  smallpage_base : Z;
  max_phy_addr : Z;         (* __max_phy_addr *)
  max_phy_mem_addr : Z      (* __max_phy_mem_addr *)
}.

Definition set_pg (b : bitmap) (s : phymem) : phymem :=
  PhyMem b (pages s) (small s) (smallpages s) (smallpage_base s)
    (max_phy_addr s) (max_phy_mem_addr s).
Definition set_pages (n : Z) (s : phymem) : phymem :=
  PhyMem (pg s) n (small s) (smallpages s) (smallpage_base s)
    (max_phy_addr s) (max_phy_mem_addr s).
Definition set_small (b : bitmap) (s : phymem) : phymem :=
  PhyMem (pg s) (pages s) b (smallpages s) (smallpage_base s)
    (max_phy_addr s) (max_phy_mem_addr s).
Definition set_smallpages (n : Z) (s : phymem) : phymem :=
  PhyMem (pg s) (pages s) (small s) n (smallpage_base s)
    (max_phy_addr s) (max_phy_mem_addr s).
Definition set_smallbase (a : Z) (s : phymem) : phymem :=
  PhyMem (pg s) (pages s) (small s) (smallpages s) a
    (max_phy_addr s) (max_phy_mem_addr s).

Definition on_pg {A} : M bitmap A -> M phymem A := zoom pg set_pg.
Definition on_small {A} : M bitmap A -> M phymem A := zoom small set_small.

(** ** Operations *)

(** One iteration of [while (pages) ...]; [inl] is the next iteration. *)
Definition alloc_phy_page_step (_ : unit) : M phymem (unit + Z) :=
  n <- gets pages ;;
  if n =? 0 then ret (inr 0)
  else
    p <- on_pg get_none_zero ;;
    match p with
    | None => ret (inr 0)
    | Some k =>
        w <- on_pg (word_at k) ;;
        if w =? 0 then ret (inl tt)
        else
          let pos := to_int (__ffs w) in
          old <- on_pg (test_and_clear_bit pos k) ;;
          if (old : bool) then
            modify (fun s => set_pages (wrap64 (pages s - 1)) s) ;;;
            ret (inr (wrap64 (PAGE_SIZE_LARGE * (pos + Z.of_nat k * 64))))
          else ret (inl tt)
    end.
Definition alloc_phy_page : M phymem Z := loop 2 alloc_phy_page_step tt.

(** [memset(smallbits, 0xff, sizeof(smallbits))]. *)
Definition full_small : list Z := replicate 64 (2 ^ 64 - 1).
#[global] Arguments full_small : simpl never.

(** The refill of [alloc_small_phy_page_safe]: a whole 2M page, all 4K bits set. *)
Definition refill_small : M phymem bool :=
  addr <- alloc_phy_page ;;
  if addr =? 0 then ret false
  else
    modify (set_smallbase addr) ;;;
    modify (fun s => set_small
              (Bitmap full_small 0 8) s) ;;;
    modify (set_smallpages (PAGE_SIZE_LARGE / PAGE_4K_SIZE)) ;;;
    ret true.

Definition alloc_small_step (_ : unit) : M phymem (unit + option Z) :=
  n <- gets smallpages ;;
  if n =? 0 then ret (inr (Some 0))
  else
    p <- on_small get_none_zero ;;
    match p with
    | None => ret (inr None)             (* the recursive call *)
    | Some k =>
        w <- on_small (word_at k) ;;
        if w =? 0 then ret (inl tt)
        else
          let pos := to_int (__ffs w) in
          old <- on_small (test_and_clear_bit pos k) ;;
          if (old : bool) then
            modify (fun s => set_smallpages (wrap64 (smallpages s - 1)) s) ;;;
            base <- gets smallpage_base ;;
            ret (inr (Some (wrap64 (PAGE_4K_SIZE * (pos + Z.of_nat k * 64) + base))))
          else ret (inl tt)
    end.

Definition alloc_small_loop : M phymem (option Z) := loop 2 alloc_small_step tt.
#[global] Arguments alloc_small_loop : simpl never.

Fixpoint alloc_small_phy_page_safe (fuel : nat) : M phymem Z :=
  match fuel with
  | O => out_of_fuel
  | S fuel' =>
      n <- gets smallpages ;;
      ok <- (if n =? 0 then refill_small else ret true) ;;
      if (ok : bool) then
        r <- alloc_small_loop ;;
        match r with
        | Some a => ret a
        | None => alloc_small_phy_page_safe fuel'
        end
      else ret 0
  end.

Definition free_bit (pos : Z) : M phymem unit :=
  old <- on_pg (test_and_set_bit pos) ;;
  if (old : bool) then ret tt
  else modify (fun s => set_pages (wrap64 (pages s + 1)) s).

Definition free_phy_one_page (addr : Z) : M phymem unit :=
  mm <- gets max_phy_mem_addr ;;
  kassert (addr <? mm) ;;;
  if addr =? 0 then ret tt
  else
    ma <- gets max_phy_addr ;;
    kassert ((Z.land addr (PAGE_SIZE_LARGE - 1) =? 0) && (addr <? ma)) ;;;
    free_bit (addr / PAGE_SIZE_LARGE).

Fixpoint free_loop (fuel : nat) (pos size : Z) : M phymem unit :=
  if size =? 0 then ret tt
  else match fuel with
       | O => out_of_fuel
       | S fuel' =>
           free_bit pos ;;;
           free_loop fuel' (pos + 1) (wrap64 (size - PAGE_SIZE_LARGE))
       end.

Definition free_phy_pages (addr size : Z) : M phymem unit :=
  mm <- gets max_phy_mem_addr ;;
  kassert (addr <? mm) ;;;
  if addr =? 0 then ret tt
  else
    ma <- gets max_phy_addr ;;
    kassert ((Z.land addr (PAGE_SIZE_LARGE - 1) =? 0) && (addr <? ma)) ;;;
    kassert (Z.land size (PAGE_SIZE_LARGE - 1) =? 0) ;;;
    free_loop (Z.to_nat (size / PAGE_SIZE_LARGE)) (addr / PAGE_SIZE_LARGE) size.

(** [init_phy_mem]: [kalloc(bits / 8 + 8)] cleared, the window [bits / 64]. *)
Definition init_phy_mem (max_addr max_mem_addr base : Z) : phymem :=
  let bits := max_addr / PAGE_SIZE_LARGE in
  let size := bits / 8 + 8 in
  PhyMem (Bitmap (replicate (Z.to_nat (size / 8)) 0) 0 (Z.to_nat (bits / 64))) 0
    (Bitmap (replicate 64 0) 0 8) 0 base max_addr max_mem_addr.

(** ** Find-first-set and set bits *)

Lemma ffs_from_spec fuel w i :
  (exists j, i <= j < i + Z.of_nat fuel /\ Z.testbit w j = true) ->
  i <= ffs_from fuel w i < i + Z.of_nat fuel /\
  Z.testbit w (ffs_from fuel w i) = true /\
  forall j, i <= j < ffs_from fuel w i -> Z.testbit w j = false.
Proof.
  revert i. induction fuel as [|fuel IH]; intros i (j & Hj & Hb); [lia|]. cbn [ffs_from].
  destruct (Z.testbit w i) eqn:Hi; [split; [lia|]; split; [done|]; lia|].
  destruct (IH (i + 1)) as (Hr & Hb' & Hlow).
  { exists j. split; [|done]. assert (i <> j) by congruence. lia. }
  split; [lia|]. split; [done|]. intros k Hk.
  destruct (decide (k = i)) as [->|]; [done|]. apply Hlow. lia.
Qed.

Lemma nonzero_word_bit w :
  0 <= w < 2 ^ 64 -> w <> 0 -> exists j, 0 <= j < 64 /\ Z.testbit w j = true.
Proof.
  intros Hw Hn. exists (Z.log2 w). pose proof (Z.log2_nonneg w). split.
  - enough (Z.log2 w < 64) by lia. apply Z.log2_lt_pow2; lia.
  - apply Z.bit_log2. lia.
Qed.

(** [__ffs] of a non-zero word is its lowest set bit. *)
Lemma __ffs_spec w :
  0 <= w < 2 ^ 64 -> w <> 0 ->
  0 <= __ffs w < 64 /\ Z.testbit w (__ffs w) = true /\
  forall j, 0 <= j < __ffs w -> Z.testbit w j = false.
Proof.
  intros Hw Hn. apply (ffs_from_spec 64 w 0).
  destruct (nonzero_word_bit w Hw Hn) as (j & ? & ?). exists j. split; [lia|done].
Qed.

(** Bit [n] of the array, and the indices of all set bits. *)
Definition bit (ws : list Z) (n : nat) : bool :=
  match ws !! (n / 64)%nat with
  | Some w => Z.testbit w (Z.of_nat (n mod 64))
  | None => false
  end.
Definition bits_below (ws : list Z) (lim : nat) : list nat :=
  filter (fun n => bit ws n = true) (seq 0 lim).
Definition set_bits (ws : list Z) : list nat := bits_below ws (64 * length ws).
#[global] Arguments bit : simpl never.
#[global] Arguments bits_below : simpl never.
#[global] Arguments set_bits : simpl never.

Definition words_ok (ws : list Z) : Prop := Forall (fun w => 0 <= w < 2 ^ 64) ws.

Lemma bit_index k j ws w :
  0 <= j < 64 -> ws !! k = Some w -> bit ws (64 * k + Z.to_nat j) = Z.testbit w j.
Proof.
  intros Hj Hk. unfold bit.
  replace ((64 * k + Z.to_nat j) / 64)%nat with k
    by (apply (Nat.div_unique _ _ _ (Z.to_nat j)); lia).
  replace ((64 * k + Z.to_nat j) mod 64)%nat with (Z.to_nat j)
    by (apply (Nat.mod_unique _ _ k); lia).
  rewrite Hk. f_equal. lia.
Qed.

(** Overwriting word [k] changes the bits of that word only. *)
Lemma bit_insert k w ws n :
  (k < length ws)%nat ->
  bit (<[k := w]> ws) n =
  if Nat.eqb (n / 64) k then Z.testbit w (Z.of_nat (n mod 64)) else bit ws n.
Proof.
  intros Hk. unfold bit. destruct (Nat.eqb_spec (n / 64) k) as [->|Hne].
  - by rewrite list_lookup_insert_eq.
  - by rewrite list_lookup_insert_ne by done.
Qed.

Lemma bit_insert_one k j w w' ws n :
  0 <= j < 64 -> ws !! k = Some w ->
  (forall i, 0 <= i -> i <> j -> Z.testbit w' i = Z.testbit w i) ->
  bit (<[k := w']> ws) n =
  if Nat.eqb n (64 * k + Z.to_nat j) then Z.testbit w' j else bit ws n.
Proof.
  intros Hj Hk Hsame. rewrite bit_insert by (eapply lookup_lt_Some; exact Hk).
  pose proof (Nat.div_mod n 64). pose proof (Nat.mod_upper_bound n 64).
  destruct (Nat.eqb_spec (n / 64) k) as [Hd|Hd], (Nat.eqb_spec n (64 * k + Z.to_nat j)) as [He|He].
  - f_equal. lia.
  - rewrite Hsame by lia. unfold bit. by rewrite Hd, Hk.
  - exfalso. apply Hd. subst n. symmetry. apply (Nat.div_unique _ _ _ (Z.to_nat j)); lia.
  - done.
Qed.

Lemma words_ok_insert k w ws : words_ok ws -> 0 <= w < 2 ^ 64 -> words_ok (<[k := w]> ws).
Proof. intros. by apply Forall_insert. Qed.

Lemma clearbit_range w j : 0 <= w < 2 ^ 64 -> 0 <= j -> 0 <= Z.clearbit w j < 2 ^ 64.
Proof.
  intros Hw Hj. apply range_of_bits; [lia| |].
  - rewrite Z.clearbit_spec'. apply Z.ldiff_nonneg. lia.
  - intros i Hi. rewrite Z.clearbit_eqb, (testbit_above w 64 i) by lia. done.
Qed.

Lemma setbit_range w j : 0 <= w < 2 ^ 64 -> 0 <= j < 64 -> 0 <= Z.setbit w j < 2 ^ 64.
Proof.
  intros Hw Hj. apply range_of_bits; [lia| |].
  - rewrite Z.setbit_spec'. apply Z.lor_nonneg. lia.
  - intros i Hi. rewrite Z.setbit_eqb, (testbit_above w 64 i) by lia.
    destruct (Z.eqb_spec j i); [lia|done].
Qed.

(** Toggling one element's membership changes a filtered count by one. *)
Lemma filter_flip (f g : nat -> bool) (m : nat) (l : list nat) :
  NoDup l -> m ∈ l -> f m = true -> g m = false ->
  (forall n, n <> m -> f n = g n) ->
  length (filter (fun n => f n = true) l) = S (length (filter (fun n => g n = true) l)).
Proof.
  intros Hnd Hin Hf Hg Heq. apply list_elem_of_split in Hin as (l1 & l2 & ->).
  pose proof (elem_of_split_nodup _ _ _ Hnd) as Hout.
  assert (forall l' : list nat, m ∉ l' ->
    filter (fun n => f n = true) l' = filter (fun n => g n = true) l') as Hsame.
  { intros l'. induction l' as [|x l' IH]; [done|]. rewrite elem_of_cons. intros Hm.
    rewrite !list.filter_cons, Heq, IH by naive_solver. done. }
  rewrite elem_of_app in Hout.
  rewrite !list.filter_app, !list.filter_cons, !length_app, Hf, Hg, (Hsame l1), (Hsame l2) by tauto.
  rewrite decide_True, decide_False by done. cbn. lia.
Qed.

(** ** The search *)

(** A bitmap whose window lies inside the array, at least one word wide. *)
Record bitmap_ok (b : bitmap) : Prop := {
  bo_words : words_ok (b_words b);
  bo_now : (b_now b <= b_max b)%nat;
  bo_max : (1 <= b_max b < length (b_words b))%nat
}.

Lemma wp_word_at k b w Q : b_words b !! k = Some w -> Q w b -> wp (word_at k) b Q.
Proof. unfold wp, word_at. by intros ->. Qed.

Lemma scan_spec fuel lim b :
  (lim <= length (b_words b))%nat -> (length (b_words b) < b_now b + fuel)%nat ->
  (1 <= fuel)%nat ->
  wp (scan fuel lim) b (fun r b' =>
    b_words b' = b_words b /\ b_max b' = b_max b /\
    match r with
    | Some k => b_now b' = k /\ (b_now b < k < lim)%nat /\
                exists w, b_words b !! k = Some w /\ w <> 0
    | None => b_now b' = Nat.max lim (S (b_now b)) /\
              forall k, (b_now b < k < lim)%nat -> b_words b !! k = Some 0
    end).
Proof.
  revert b. induction fuel as [|fuel IH]; intros b Hlim Hfuel H1; [lia|].
  cbn [scan]. unfold set_now. wp_steps.
  destruct (Nat.ltb_spec (S (b_now b)) lim) as [Hlt|Hge]; cycle 1.
  { wp_steps. cbn. split; [done|]. split; [done|]. split; [lia|]. intros k Hk. lia. }
  destruct (lookup_lt_is_Some_2 (b_words b) (S (b_now b))) as [w Hw]; [lia|].
  wp_steps. eapply wp_word_at; [exact Hw|].
  destruct (Z.eqb_spec w 0) as [->|Hne]; cycle 1.
  { wp_steps. cbn. split; [done|]. split; [done|]. split; [done|]. split; [lia|]. by exists w. }
  eapply wp_mono; [apply IH; cbn; lia|]. cbn.
  intros [k|] b'; intros (-> & -> & Hr); (split; [done|]; split; [done|]).
  - destruct Hr as (-> & Hk & Hw'). split; [done|]. split; [lia|done].
  - destruct Hr as (-> & Hz). split; [lia|]. intros k Hk.
    destruct (decide (k = S (b_now b))) as [->|]; [done|]. apply Hz. lia.
Qed.

(** The search finds a non-zero word whenever one lies below [pmax], and
    leaves the bits alone. *)
Lemma get_none_zero_spec b :
  bitmap_ok b ->
  wp get_none_zero b (fun r b' =>
    b_words b' = b_words b /\ b_max b' = b_max b /\ bitmap_ok b' /\
    (b_now b < b_max b -> 2 <= b_max b -> b_now b' < b_max b)%nat /\
    match r with
    | Some k => b_now b' = k /\ exists w, b_words b !! k = Some w /\ w <> 0
    | None => forall k, (k < b_max b)%nat -> b_words b !! k = Some 0
    end).
Proof.
  intros [Hok Hnow Hmax]. unfold get_none_zero, set_now. wp_steps.
  destruct (lookup_lt_is_Some_2 (b_words b) (b_now b)) as [w Hw]; [lia|].
  eapply wp_word_at; [exact Hw|].
  destruct (Z.eqb_spec w 0) as [->|Hne]; cbn [negb]; cycle 1.
  { wp_steps. split; [done|]. split; [done|]. split; [done|]. split; [done|]. split; [done|]. by exists w. }
  wp_steps. eapply wp_mono; [apply scan_spec; lia|]. cbn beta.
  intros [k|] b1 (Hws & Hbm & Hr).
  { destruct Hr as (Hk & Hlt & w' & Hw' & Hne). wp_steps. split; [done|]. split; [done|].
    split; [split; rewrite ?Hws, ?Hbm; [done|lia|done]|]. split; [lia|].
    split; [done|]. by exists w'. }
  destruct Hr as [Hnow1 Hz1]. wp_steps.
  destruct (lookup_lt_is_Some_2 (b_words b) 0) as [w0 Hw0]; [lia|].
  eapply wp_word_at; [cbn; rewrite Hws; exact Hw0|].
  destruct (Z.eqb_spec w0 0) as [->|Hne]; cbn [negb]; cycle 1.
  { wp_steps. cbn. split; [done|]. split; [done|]. split; [split; cbn; rewrite ?Hws, ?Hbm; [done|lia|done]|].
    split; [lia|]. split; [done|]. by exists w0. }
  eapply wp_mono; [apply scan_spec; cbn; rewrite ?Hws; lia|]. cbn.
  intros [k|] b2; rewrite Hws, Hbm; intros (Hws2 & Hbm2 & Hr);
    (split; [done|]; split; [done|]).
  - destruct Hr as (Hk & Hlt & Hw').
    split; [split; rewrite ?Hws2, ?Hbm2; [done|lia|done]|]. split; [lia|]. by split.
  - destruct Hr as [Hnow2 Hz2].
    split; [split; rewrite ?Hws2, ?Hbm2; [done|lia|done]|]. split; [lia|].
    intros k Hk. destruct (decide (k = 0%nat)) as [->|]; [done|].
    destruct (decide (k = b_now b)) as [->|]; [done|].
    destruct (decide (k < b_now b)%nat); [apply Hz2|apply Hz1]; lia.
Qed.

(** Clearing the lowest set bit of a word of the array. *)
Lemma clear_first_spec k w b :
  bitmap_ok b -> b_words b !! k = Some w -> w <> 0 ->
  wp (test_and_clear_bit (to_int (__ffs w)) k) b (fun old b' =>
    exists n : nat, Z.of_nat n = __ffs w + Z.of_nat k * 64 /\ old = true /\ bitmap_ok b' /\ b_max b' = b_max b /\ b_now b' = b_now b /\
    length (b_words b') = length (b_words b) /\
    (n < 64 * length (b_words b))%nat /\ bit (b_words b) n = true /\
    (forall m, bit (b_words b') m = bit (b_words b) m && negb (Nat.eqb m n)) /\
    forall lim, (n < lim)%nat ->
      length (bits_below (b_words b) lim) = S (length (bits_below (b_words b') lim))).
Proof.
  intros [Hok Hnow Hmax] Hk Hne.
  assert (0 <= w < 2 ^ 64) as Hw by (eapply (Forall_lookup_1 _ _ _ _ Hok), Hk).
  destruct (__ffs_spec w Hw Hne) as (Hr & Hb & _).
  rewrite to_int_small by lia.
  pose proof (lookup_lt_Some _ _ _ Hk) as Hlt.
  set (n := (64 * k + Z.to_nat (__ffs w))%nat).
  assert (Hbits : forall m, bit (<[k := Z.clearbit w (__ffs w)]> (b_words b)) m =
            bit (b_words b) m && negb (Nat.eqb m n)).
  { intros m. rewrite (bit_insert_one k (__ffs w) w) by
      (try done; intros; apply Z.clearbit_neq; lia).
    fold n. destruct (Nat.eqb_spec m n) as [->|]; [|by rewrite andb_true_r].
    rewrite Z.clearbit_eq by lia. by rewrite andb_false_r. }
  assert (bit (b_words b) n = true) as Hbn by (unfold n; by rewrite (bit_index k _ _ w)).
  unfold wp, test_and_clear_bit. rewrite Hk, Hb. cbn [b_words b_now b_max]. fold n.
  exists n. split; [unfold n; lia|]. split; [done|]. split.
  { split; cbn; rewrite ?length_insert; [|done|done].
    apply words_ok_insert; [done|]. apply clearbit_range; lia. }
  split; [done|]. split; [done|]. split; [by rewrite length_insert|].
  split; [unfold n; lia|]. split; [done|]. split; [exact Hbits|].
  intros lim Hlim.
  apply (filter_flip _ _ n); [apply NoDup_seq|apply elem_of_seq; lia|done| |].
  - by rewrite Hbits, Nat.eqb_refl, andb_false_r.
  - intros m Hm. rewrite Hbits. apply Nat.eqb_neq in Hm. by rewrite Hm, andb_true_r.
Qed.

(** ** The invariant of the 2M bitmap *)

(** Page 0 is never free, and [pages] counts the set bits. *)
Record phymem_inv (s : phymem) : Prop := {
  pi_map : bitmap_ok (pg s);
  pi_len : Z.of_nat (length (b_words (pg s))) < 2 ^ 18;
  pi_zero : bit (b_words (pg s)) 0 = false;
  pi_pages : pages s = Z.of_nat (length (set_bits (b_words (pg s))))
}.

Definition page_free (s : phymem) (n : nat) : Prop := bit (b_words (pg s)) n = true.
(** What [get_none_zero] can reach: the words below [pmax]. *)
Definition searched (s : phymem) (n : nat) : Prop := (n < 64 * b_max (pg s))%nat.

(** The parts of the state that no page operation changes. *)
Definition same_frame (s s' : phymem) : Prop :=
  length (b_words (pg s')) = length (b_words (pg s)) /\
  max_phy_addr s' = max_phy_addr s /\ max_phy_mem_addr s' = max_phy_mem_addr s.

Lemma same_frame_trans s1 s2 s3 : same_frame s1 s2 -> same_frame s2 s3 -> same_frame s1 s3.
Proof. unfold same_frame. intuition congruence. Qed.

Lemma set_bits_bound ws : (length (set_bits ws) <= 64 * length ws)%nat.
Proof. unfold set_bits, bits_below. etransitivity; [apply length_filter|]. by rewrite length_seq. Qed.

Lemma set_bits_nil ws :
  length (set_bits ws) = 0%nat -> forall n, bit ws n = false.
Proof.
  intros Hz%length_zero_iff_nil n. destruct (bit ws n) eqn:Hb; [|done]. exfalso.
  assert (n < 64 * length ws)%nat.
  { unfold bit in Hb. destruct (ws !! (n / 64)%nat) eqn:Hl; [|done].
    apply lookup_lt_Some in Hl. pose proof (Nat.div_mod n 64).
    pose proof (Nat.mod_upper_bound n 64). lia. }
  assert (n ∈ set_bits ws) as Hin.
  { apply list_elem_of_filter. split; [done|]. apply elem_of_seq. lia. }
  rewrite Hz in Hin. set_solver.
Qed.

Lemma zero_words_bits ws lim n :
  (forall k, (k < lim)%nat -> ws !! k = Some 0) -> (n < 64 * lim)%nat -> bit ws n = false.
Proof.
  intros Hz Hn. unfold bit. rewrite Hz by (apply Nat.Div0.div_lt_upper_bound; lia).
  apply Z.bits_0.
Qed.

(** What [alloc_phy_page] promises: a free page, taken out of the free set and
    nothing else, or 0 with the free set unchanged and no page in reach. *)
Lemma alloc_phy_page_spec s :
  phymem_inv s ->
  wp alloc_phy_page s (fun r s' =>
    phymem_inv s' /\ b_max (pg s') = b_max (pg s) /\ same_frame s s' /\
    small s' = small s /\ smallpages s' = smallpages s /\
    (r = 0 /\ b_words (pg s') = b_words (pg s) /\
       (forall n, searched s n -> ~ page_free s n) \/
     exists n, r = PAGE_SIZE_LARGE * Z.of_nat n /\ (0 < n)%nat /\ Z.of_nat n < 2 ^ 24 /\ page_free s n /\
       forall m, page_free s' m <-> page_free s m /\ m <> n)).
Proof.
  intros [Hmap Hlen Hzero Hpages]. unfold alloc_phy_page.
  change (loop 2 alloc_phy_page_step tt) with
    (bind (alloc_phy_page_step tt) (fun x => match x with
       | inl a' => loop 1 alloc_phy_page_step a' | inr r => ret r end)).
  unfold alloc_phy_page_step at 1, on_pg. wp_steps.
  destruct (Z.eqb_spec (pages s) 0) as [Hz|Hnz].
  { wp_steps. split; [done|]. do 4 (split; [done|]). left. split; [done|]. split; [done|].
    intros n _. unfold page_free. rewrite set_bits_nil by lia. done. }
  wp_steps. eapply wp_mono; [apply get_none_zero_spec; exact Hmap|].
  intros [k|] b1 (Hws & Hbm & Hok1 & _ & Hr); cycle 1.
  { wp_steps. split; [split; cbn; rewrite ?Hws; done|]. cbn. split; [done|].
    split; [by repeat split; cbn; rewrite ?Hws|]. do 2 (split; [done|]). left. split; [done|]. split; [done|]. intros n Hn.
    unfold page_free. rewrite (zero_words_bits _ (b_max (pg s))); done. }
  destruct Hr as (_ & w & Hw & Hne). wp_steps.
  eapply wp_word_at; [cbn; rewrite Hws; exact Hw|].
  rewrite (proj2 (Z.eqb_neq w 0)) by done. wp_steps.
  eapply wp_mono; [apply (clear_first_spec k w b1); [done|by rewrite Hws|done]|].
  cbn. intros old b2 (n & Hnk & -> & Hok2 & Hmax2 & _ & Hlen2 & Hn & Hbit & Hbits & Hcnt).
  rewrite Hws in *. wp_steps. cbn.
  pose proof (set_bits_bound (b_words (pg s))) as Hbound.
  assert (0 <= w < 2 ^ 64) as Hwr by (eapply (Forall_lookup_1 _ _ _ _ (bo_words _ Hmap)), Hw).
  destruct (__ffs_spec w Hwr Hne) as (Hf & _ & _).
  rewrite to_int_small by lia.
  assert (length (set_bits (b_words (pg s))) = S (length (set_bits (b_words b2)))) as Hcnt'.
  { unfold set_bits. rewrite Hlen2. apply Hcnt, Hn. }
  clear Hcnt.
  rewrite <- Hnk.
  assert (n <> 0%nat) as Hn0 by (intros Heq; rewrite Heq in Hbit; congruence).
  unfold PAGE_SIZE_LARGE. rewrite !wrap64_small by lia.
  split.
  { split; cbn; [done|by rewrite Hlen2| |lia]. rewrite Hbits, Hzero. done. }
  split; [congruence|]. split; [by repeat split|]. do 2 (split; [done|]). right. exists n.
  split; [done|]. split; [lia|]. split; [lia|]. split; [done|].
  intros m. unfold page_free. cbn. rewrite Hbits, andb_true_iff, negb_true_iff, Nat.eqb_neq.
  done.
Qed.

(** ** Freeing pages *)

Lemma test_and_set_bit_spec n b :
  bitmap_ok b -> (n < 64 * length (b_words b))%nat ->
  wp (test_and_set_bit (Z.of_nat n)) b (fun old b' =>
    old = bit (b_words b) n /\ bitmap_ok b' /\ b_max b' = b_max b /\
    length (b_words b') = length (b_words b) /\
    (forall m, bit (b_words b') m = bit (b_words b) m || Nat.eqb m n) /\
    length (set_bits (b_words b')) =
      ((if old then 0 else 1) + length (set_bits (b_words b)))%nat).
Proof.
  intros [Hok Hnow Hmax] Hn.
  set (k := (n / 64)%nat). set (j := Z.of_nat (n mod 64)).
  pose proof (Nat.div_mod n 64). pose proof (Nat.mod_upper_bound n 64).
  assert (Z.to_nat (Z.of_nat n / 64) = k) as Hk.
  { unfold k. pose proof (Nat2Z.inj_div n 64) as Hd. change (Z.of_nat 64) with 64 in Hd.
    rewrite <- Hd. apply Nat2Z.id. }
  assert (Z.of_nat n mod 64 = j) as Hj by (unfold j; pose proof (Nat2Z.inj_mod n 64) as Hd; exact (eq_sym Hd)).
  destruct (lookup_lt_is_Some_2 (b_words b) k) as [w Hw]; [unfold k; lia|].
  assert (0 <= w < 2 ^ 64) as Hwr by (eapply (Forall_lookup_1 _ _ _ _ Hok), Hw).
  unfold wp, test_and_set_bit. rewrite Hk, Hw, Hj. cbn [b_words b_now b_max].
  assert (n = 64 * k + Z.to_nat j)%nat as Hnk by (unfold k, j; lia).
  assert (bit (b_words b) n = Z.testbit w j) as Hbn.
  { rewrite Hnk. apply bit_index; [unfold j; lia|done]. }
  assert (Hbits : forall m, bit (<[k := Z.setbit w j]> (b_words b)) m =
            bit (b_words b) m || Nat.eqb m n).
  { intros m. rewrite (bit_insert_one k j w); [|unfold j; lia|done|].
    2: { intros i Hi Hne. rewrite Z.setbit_neq by (unfold j in *; lia). done. }
    rewrite <- Hnk. destruct (Nat.eqb_spec m n) as [->|]; [|by rewrite orb_false_r].
    rewrite Z.setbit_eq by (unfold j; lia). by rewrite orb_true_r. }
  split; [done|]. split.
  { split; cbn [b_words b_now b_max]; rewrite ?length_insert; [|done|done].
    apply words_ok_insert; [done|]. apply setbit_range; [done|unfold j; lia]. }
  split; [done|]. split; [by rewrite length_insert|]. split; [exact Hbits|].
  unfold set_bits, bits_below. rewrite length_insert, <- Hbn.
  destruct (bit (b_words b) n) eqn:Hb.
  - cbn [Nat.add]. f_equal. apply list_filter_iff. intros m. rewrite Hbits.
    destruct (Nat.eqb_spec m n) as [->|]; [by rewrite Hb|by rewrite orb_false_r].
  - apply (filter_flip _ _ n); [apply NoDup_seq|apply elem_of_seq; lia| |done|].
    + by rewrite Hbits, Nat.eqb_refl, orb_true_r.
    + intros m Hm. rewrite Hbits. apply Nat.eqb_neq in Hm. by rewrite Hm, orb_false_r.
Qed.

Lemma free_bit_spec s n :
  phymem_inv s -> (0 < n < 64 * length (b_words (pg s)))%nat ->
  wp (free_bit (Z.of_nat n)) s (fun _ s' =>
    phymem_inv s' /\ b_max (pg s') = b_max (pg s) /\ same_frame s s' /\
    forall m, page_free s' m <-> page_free s m \/ m = n).
Proof.
  intros [Hmap Hlen Hzero Hpages] Hn. unfold free_bit, on_pg. wp_steps.
  eapply wp_mono; [apply test_and_set_bit_spec; [done|lia]|].
  cbn. intros old b' (-> & Hok & Hmax & Hl & Hbits & Hcnt).
  assert (Hfree : forall m, bit (b_words b') m = true <-> bit (b_words (pg s)) m = true \/ m = n).
  { intros m. rewrite Hbits, orb_true_iff, Nat.eqb_eq. done. }
  pose proof (set_bits_bound (b_words b')) as Hb.
  assert (bit (b_words b') 0 = false) as Hz.
  { rewrite Hbits, Hzero. apply Nat.eqb_neq. lia. }
  destruct (bit (b_words (pg s)) n).
  - wp_steps. split; [|split; [done|split; [by repeat split|done]]].
    split; cbn; [done|by rewrite Hl|done|lia].
  - wp_steps. split; [|split; [done|split; [by repeat split|done]]].
    split; cbn; [done|by rewrite Hl|done|].
    rewrite wrap64_small by lia. lia.
Qed.

Lemma free_loop_spec c n s :
  phymem_inv s -> (0 < n)%nat -> (n + c <= 64 * length (b_words (pg s)))%nat ->
  wp (free_loop c (Z.of_nat n) (PAGE_SIZE_LARGE * Z.of_nat c)) s (fun _ s' =>
    phymem_inv s' /\ b_max (pg s') = b_max (pg s) /\ same_frame s s' /\
    forall m, page_free s' m <-> page_free s m \/ (n <= m < n + c)%nat).
Proof.
  revert n s. unfold PAGE_SIZE_LARGE. induction c as [|c IH]; intros n s Hinv Hn Hc.
  - cbn. apply wp_ret. do 3 (split; [done|]). intros m. naive_solver lia.
  - cbn [free_loop]. rewrite (proj2 (Z.eqb_neq _ 0)) by lia. wp_steps.
    eapply wp_mono; [apply free_bit_spec; [done|lia]|].
    cbn. intros _ s1 (Hinv1 & Hm1 & Hl1 & Hf1).
    pose proof (pi_len _ Hinv) as Hlen.
    replace (Z.of_nat n + 1) with (Z.of_nat (S n)) by lia.
    rewrite wrap64_small by (unfold PAGE_SIZE_LARGE; lia).
    replace (2097152 * Z.of_nat (S c) - PAGE_SIZE_LARGE) with (2097152 * Z.of_nat c)
      by (unfold PAGE_SIZE_LARGE; lia).
    eapply wp_mono; [apply IH; [done|lia|rewrite (proj1 Hl1); lia]|].
    cbn. intros _ s2 (Hinv2 & Hm2 & Hl2 & Hf2). split; [done|]. split; [congruence|].
    split; [eapply same_frame_trans; done|].
    intros m. rewrite Hf2, Hf1. destruct (decide (m = n)); naive_solver lia.
Qed.

Lemma page_aligned n : Z.land (PAGE_SIZE_LARGE * n) (PAGE_SIZE_LARGE - 1) = 0.
Proof.
  change PAGE_SIZE_LARGE with (2 ^ 21). rewrite land_low_mod by lia.
  rewrite Z.mul_comm. apply Z.mod_mul. lia.
Qed.

(** [free_phy_pages] on a page-aligned range within memory frees exactly it. *)
Lemma free_phy_pages_spec s n c :
  phymem_inv s -> (0 < n)%nat -> (n + c <= 64 * length (b_words (pg s)))%nat ->
  PAGE_SIZE_LARGE * Z.of_nat n < Z.min (max_phy_addr s) (max_phy_mem_addr s) ->
  wp (free_phy_pages (PAGE_SIZE_LARGE * Z.of_nat n) (PAGE_SIZE_LARGE * Z.of_nat c)) s
    (fun _ s' => phymem_inv s' /\ b_max (pg s') = b_max (pg s) /\ same_frame s s' /\
       forall m, page_free s' m <-> page_free s m \/ (n <= m < n + c)%nat).
Proof.
  intros Hinv Hn Hc Hmax. unfold free_phy_pages. rewrite !page_aligned. wp_steps.
  apply wp_kassert; [apply Z.ltb_lt; lia|].
  rewrite (proj2 (Z.eqb_neq _ 0)) by (unfold PAGE_SIZE_LARGE; lia). wp_steps.
  apply wp_kassert; [cbn; apply Z.ltb_lt; lia|]. wp_steps.
  apply wp_kassert; [done|].
  rewrite !(Z.mul_comm PAGE_SIZE_LARGE), !Z_div_mult, Nat2Z.id by (unfold PAGE_SIZE_LARGE; lia).
  rewrite (Z.mul_comm (Z.of_nat c)). by apply free_loop_spec.
Qed.

(** [init_phy_mem] starts with no free page and a valid window. *)
Lemma init_phy_mem_inv ma mm base :
  64 * PAGE_SIZE_LARGE <= ma < 2 ^ 44 ->
  phymem_inv (init_phy_mem ma mm base) /\ forall n, ~ page_free (init_phy_mem ma mm base) n.
Proof.
  unfold PAGE_SIZE_LARGE. intros Hma.
  assert (64 <= ma / 2097152 < 2 ^ 23) as Hb by
    (split; [apply Z.div_le_lower_bound|apply Z.div_lt_upper_bound]; lia).
  assert (forall k n, bit (replicate k 0) n = false) as Hbit.
  { intros k n. unfold bit. destruct (replicate k 0 !! _) eqn:Hl; [|done].
    apply lookup_replicate in Hl as [-> _]. apply Z.bits_0. }
  assert (8 * (ma / 2097152 / 64) <= ma / 2097152 / 8 < 2 ^ 20) as Hb8.
  { change 64 with (8 * 8). rewrite <- Z.div_div by lia. set (q := ma / 2097152) in *.
    split; [pose proof (Z.div_mod (q / 8) 8); pose proof (Z.mod_pos_bound (q / 8) 8); lia|].
    apply Z.div_lt_upper_bound; lia. }
  assert (ma / 2097152 / 64 + 1 <= (ma / 2097152 / 8 + 8) / 8 < 2 ^ 18) as Hw by
    (split; [apply Z.div_le_lower_bound|apply Z.div_lt_upper_bound]; lia).
  assert (1 <= ma / 2097152 / 64) by (apply Z.div_le_lower_bound; lia).
  split; [|intros n; unfold page_free; cbn; by rewrite Hbit].
  split.
  - split; cbn [init_phy_mem pg b_words b_now b_max];
      rewrite ?length_replicate; unfold PAGE_SIZE_LARGE; [|lia|lia].
    apply Forall_replicate. lia.
  - cbn [init_phy_mem pg b_words]. rewrite length_replicate. unfold PAGE_SIZE_LARGE. lia.
  - apply Hbit.
  - cbn [init_phy_mem pg b_words pages].
    unfold set_bits, bits_below. generalize (seq 0 (64 * length (replicate (Z.to_nat ((ma / PAGE_SIZE_LARGE / 8 + 8) / 8)) 0))).
    intros l. induction l as [|x l IH]; [done|].
    rewrite list.filter_cons, decide_False; [exact IH|]. by rewrite Hbit.
Qed.

(** ** The 4K pages of the page-fault handler *)

Record small_inv (s : phymem) : Prop := {
  si_map : bitmap_ok (small s);
  si_len : length (b_words (small s)) = 64%nat;
  si_max : b_max (small s) = 8%nat;
  si_now : (b_now (small s) < 8)%nat;
  si_pages : smallpages s = Z.of_nat (length (bits_below (b_words (small s)) 512));
  si_base : 0 <= smallpage_base s < 2 ^ 45
}.

Definition small_free (s : phymem) (a : Z) : Prop :=
  exists n : nat, (n < 512)%nat /\ bit (b_words (small s)) n = true /\
    a = smallpage_base s + PAGE_4K_SIZE * Z.of_nat n.

Definition small_page_of (base a : Z) : Prop :=
  exists n : nat, (n < 512)%nat /\ a = base + PAGE_4K_SIZE * Z.of_nat n.

Lemma full_words_bits n :
  bit full_small n = true <-> (n < 4096)%nat.
Proof.
  pose proof (Nat.div_mod n 64). pose proof (Nat.mod_upper_bound n 64).
  unfold bit, full_small. destruct (replicate 64 (2 ^ 64 - 1) !! (n / 64)%nat) eqn:Hl.
  - apply lookup_replicate in Hl as [-> Hlt]. change (2 ^ 64 - 1) with (Z.ones 64).
    rewrite Z.ones_spec_low by lia. split; [lia|done].
  - apply lookup_replicate_None in Hl. split; [done|lia].
Qed.

Lemma bits_below_full lim : (lim <= 4096)%nat ->
  length (bits_below full_small lim) = lim.
Proof.
  intros Hlim. unfold bits_below.
  assert (forall l : list nat, (forall n, n ∈ l -> (n < 4096)%nat) ->
    filter (fun n => bit full_small n = true) l = l) as Hall.
  { intros l. induction l as [|x l IH]; [done|]. intros Hl.
    rewrite list.filter_cons, decide_True, IH; [done|set_solver|].
    apply full_words_bits, Hl. set_solver. }
  rewrite Hall; [apply length_seq|]. intros n Hn%elem_of_seq. lia.
Qed.

Lemma bits_below_pos ws lim :
  (0 < length (bits_below ws lim))%nat -> exists n, (n < lim)%nat /\ bit ws n = true.
Proof.
  destruct (bits_below ws lim) as [|n l] eqn:Hl; cbn; [lia|]. intros _. exists n.
  assert (n ∈ bits_below ws lim) as [Hb Hn%elem_of_seq]%list_elem_of_filter
    by (rewrite Hl; left).
  split; [lia|done].
Qed.

Lemma bits_below_bound ws lim : (length (bits_below ws lim) <= lim)%nat.
Proof. unfold bits_below. etransitivity; [apply length_filter|]. by rewrite length_seq. Qed.

(** The non-recursive part: while a 4K page is left, one is handed out. *)
Lemma alloc_small_step_spec s :
  small_inv s -> smallpages s <> 0 ->
  wp alloc_small_loop s (fun r s' =>
    exists a, r = Some a /\ small_inv s' /\ pg s' = pg s /\ pages s' = pages s /\
      smallpage_base s' = smallpage_base s /\ small_free s a /\
      forall x, small_free s' x <-> small_free s x /\ x <> a).
Proof.
  intros [Hmap Hlen Hmax Hnow Hpages Hbase] Hnz.
  change alloc_small_loop with
    (bind (alloc_small_step tt) (fun x => match x with
       | inl a' => loop 1 alloc_small_step a' | inr r => ret r end)).
  unfold alloc_small_step at 1, on_small. wp_steps.
  rewrite (proj2 (Z.eqb_neq _ _)) by done. wp_steps.
  eapply wp_mono; [apply get_none_zero_spec; exact Hmap|].
  intros [k|] b1 (Hws & Hbm & Hok1 & Hn1 & Hr); cycle 1.
  { exfalso. destruct (bits_below_pos (b_words (small s)) 512) as (n & Hn & Hb); [lia|].
    rewrite (zero_words_bits _ 8) in Hb; [done|rewrite <- Hmax; exact Hr|lia]. }
  destruct Hr as (Hk & w & Hw & Hne). wp_steps.
  eapply wp_word_at; [cbn; rewrite Hws; exact Hw|].
  rewrite (proj2 (Z.eqb_neq w 0)) by done. wp_steps.
  eapply wp_mono; [apply (clear_first_spec k w b1); [done|by rewrite Hws|done]|].
  cbn. intros old b2 (n & Hnk & -> & Hok2 & Hmax2 & Hnow2 & Hlen2 & Hn & Hbit & Hbits & Hcnt).
  rewrite Hws in *. wp_steps. cbn.
  assert (0 <= w < 2 ^ 64) as Hwr by (eapply (Forall_lookup_1 _ _ _ _ (bo_words _ Hmap)), Hw).
  destruct (__ffs_spec w Hwr Hne) as (Hf & _ & _).
  assert (k < 8)%nat as Hk8 by lia.
  rewrite to_int_small by lia.
  rewrite <- Hnk.
  assert (n < 512)%nat as Hn512 by lia. specialize (Hcnt 512%nat Hn512).
  pose proof (bits_below_bound (b_words (small s)) 512) as Hbd.
  unfold PAGE_4K_SIZE. rewrite (wrap64_small (smallpages s - 1)) by lia.
  rewrite wrap64_small by lia.
  exists (4096 * Z.of_nat n + smallpage_base s). split; [done|].
  split; [split; cbn; [done|by rewrite Hlen2|congruence|lia|lia|done]|].
  do 3 (split; [done|]). split; [exists n; unfold PAGE_4K_SIZE; split; [done|split; [done|lia]]|].
  intros x. unfold small_free, PAGE_4K_SIZE. cbn. setoid_rewrite Hbits.
  setoid_rewrite andb_true_iff. setoid_rewrite negb_true_iff. setoid_rewrite Nat.eqb_neq.
  split.
  - intros (m & Hm & [Hb Hmn] & ->). split; [by exists m|]. lia.
  - intros [(m & Hm & Hb & ->) Hne']. exists m. split; [done|]. split; [|done].
    split; [done|]. intros ->. lia.
Qed.

(** With no 4K page left, the page-fault allocator takes a whole 2M page. *)
Lemma refill_small_spec s :
  phymem_inv s -> length (b_words (small s)) = 64%nat ->
  wp refill_small s (fun ok s' =>
    phymem_inv s' /\
    if ok then small_inv s' /\ smallpages s' <> 0 /\ smallpage_base s' <> 0 /\
      (exists n, page_free s n /\ smallpage_base s' = PAGE_SIZE_LARGE * Z.of_nat n /\
         forall m, page_free s' m <-> page_free s m /\ m <> n) /\
      forall a, small_free s' a <-> small_page_of (smallpage_base s') a
    else smallpages s' = smallpages s /\ b_words (pg s') = b_words (pg s) /\
      forall n, searched s n -> ~ page_free s n).
Proof.
  intros Hinv Hlen. unfold refill_small. wp_steps.
  eapply wp_mono; [by apply alloc_phy_page_spec|].
  cbn. intros r s1 (Hinv1 & Hmax & _ & _ & Hsp & [(-> & Hw & Hno)|(n & -> & Hn0 & Hn & Hfr & Hfr')]).
  { cbn. wp_steps. done. }
  unfold PAGE_SIZE_LARGE. rewrite (proj2 (Z.eqb_neq _ _)) by lia. wp_steps.
  split; [destruct Hinv1; by split|].
  split.
  { assert (length full_small = 64%nat) as Hl by apply length_replicate.
    split; cbn; [split; cbn; rewrite ?Hl; [|lia|lia]|done|done|lia| |lia].
    - apply Forall_replicate. lia.
    - by rewrite bits_below_full by lia. }
  split; [done|]. split; [cbn; lia|]. split.
  { exists n. by split. }
  intros a. unfold small_free, small_page_of. cbn [small b_words smallpage_base set_small set_smallpages set_smallbase].
  setoid_rewrite full_words_bits. split.
  - intros (m & ? & ? & ->). by exists m.
  - intros (m & ? & ->). exists m. split; [done|]. split; [lia|done].
Qed.

(** [alloc_small_phy_page_safe] returns a free 4K page of the current 2M page,
    or of a new one when none is left, or 0 when no 2M page can be reached; it
    never takes the recursive call, so one unit of fuel is enough. *)
Lemma alloc_small_phy_page_safe_spec fuel s :
  phymem_inv s -> small_inv s \/ (smallpages s = 0 /\ length (b_words (small s)) = 64%nat) ->
  (1 <= fuel)%nat ->
  wp (alloc_small_phy_page_safe fuel) s (fun r s' =>
    phymem_inv s' /\
    (smallpages s <> 0 /\ small_inv s' /\ b_words (pg s') = b_words (pg s) /\
       small_free s r /\ (forall x, small_free s' x <-> small_free s x /\ x <> r) \/
     smallpages s = 0 /\ small_inv s' /\
       (exists n, page_free s n /\ small_page_of (PAGE_SIZE_LARGE * Z.of_nat n) r /\
          (forall m, page_free s' m <-> page_free s m /\ m <> n) /\
          forall x, small_free s' x <-> small_page_of (PAGE_SIZE_LARGE * Z.of_nat n) x /\ x <> r) \/
     smallpages s = 0 /\ r = 0 /\ b_words (pg s') = b_words (pg s) /\
       forall n, searched s n -> ~ page_free s n)).
Proof.
  intros Hinv Hsm Hfuel. destruct fuel as [|fuel]; [lia|]. cbn [alloc_small_phy_page_safe].
  wp_steps. destruct (Z.eqb_spec (smallpages s) 0) as [Hz|Hnz].
  - eapply wp_mono; [apply refill_small_spec; [done|destruct Hsm as [[]|[_ ?]]; done]|].
    cbn. intros [|] s1 [Hinv1 Hr]; cycle 1.
    { wp_steps. destruct Hr as (_ & Hw & Hno). split; [done|]. right. right. done. }
    destruct Hr as (Hsm1 & Hnz1 & _ & (n & Hfr & Hbase & Hfr') & Hall).
    wp_steps. eapply wp_mono; [by apply alloc_small_step_spec|].
    cbn. intros r s2 (a & -> & Hsm2 & Hpg & Hpages & Hb2 & Hin & Hout). wp_steps.
    split; [destruct Hinv1; split; rewrite ?Hpg, ?Hpages; done|]. right. left.
    split; [done|]. split; [done|]. exists n. split; [done|].
    split; [rewrite <- Hbase; by apply Hall|].
    split; [unfold page_free; rewrite Hpg; exact Hfr'|].
    intros x. rewrite Hout, Hall, Hbase. done.
  - destruct Hsm as [Hsm|[? _]]; [|done]. wp_steps.
    eapply wp_mono; [by apply alloc_small_step_spec|].
    cbn. intros r s2 (a & -> & Hsm2 & Hpg & Hpages & Hb2 & Hin & Hout). wp_steps.
    split; [destruct Hinv; split; rewrite ?Hpg, ?Hpages; done|]. left. by rewrite Hpg.
Qed.

(** ** The interface instance *)

Lemma bit_bound ws n : bit ws n = true -> (n < 64 * length ws)%nat.
Proof.
  unfold bit. destruct (ws !! (n / 64)%nat) eqn:Hl; [|done]. intros _.
  apply lookup_lt_Some in Hl. pose proof (Nat.div_mod n 64).
  pose proof (Nat.mod_upper_bound n 64). lia.
Qed.

Lemma page_free_bound s n : phymem_inv s -> page_free s n -> (0 < n)%nat /\ Z.of_nat n < 2 ^ 24.
Proof.
  intros Hinv Hf. pose proof (bit_bound _ _ Hf). pose proof (pi_len _ Hinv).
  split; [|lia]. destruct n; [|lia]. unfold page_free in Hf. rewrite (pi_zero _ Hinv) in Hf. done.
Qed.

Definition page_addr_free (s : phymem) (a : Z) : Prop :=
  exists n, a = PAGE_SIZE_LARGE * Z.of_nat n /\ page_free s n.
Definition page_addr_reach (s : phymem) (a : Z) : Prop :=
  exists n, a = PAGE_SIZE_LARGE * Z.of_nat n /\ searched s n.

Lemma phymem_alloc_ok s :
  phymem_inv s ->
  wp alloc_phy_page s (fun r s' =>
    phymem_inv s' /\
    (r = 0 /\ (forall a, page_addr_free s' a <-> page_addr_free s a) /\
       (forall a, page_addr_reach s a -> ~ page_addr_free s a) \/
     page_addr_free s r /\ forall a, page_addr_free s' a <-> page_addr_free s a /\ a <> r)).
Proof.
  intros Hinv. unfold page_addr_free, page_addr_reach. eapply wp_mono; [by apply alloc_phy_page_spec|]. cbn.
  intros r s' (Hinv' & _ & _ & _ & _ & [(-> & Hw & Hno)|(n & -> & _ & _ & Hf & Hf')]);
    (split; [done|]).
  - left. split; [done|]. unfold page_free. rewrite Hw. split; [done|].
    intros a (n & -> & Hs) (m & Hm & Hb). assert (n = m) as -> by (unfold PAGE_SIZE_LARGE in *; lia).
    by apply (Hno m).
  - right. split; [by exists n|]. setoid_rewrite Hf'. intros a. split.
    + intros (m & -> & ? & Hne). split; [by exists m|]. unfold PAGE_SIZE_LARGE. lia.
    + intros [(m & -> & ?) Hne]. exists m. split; [done|]. split; [done|]. congruence.
Qed.

Lemma phymem_aligned s a :
  phymem_inv s -> page_addr_free s a -> a mod PAGE_SIZE_LARGE = 0 /\ 0 < a < 2 ^ 45.
Proof.
  intros Hinv (n & -> & Hf). destruct (page_free_bound _ _ Hinv Hf).
  unfold PAGE_SIZE_LARGE. rewrite Z.mul_comm. split; [apply Z.mod_mul; lia|lia].
Qed.

#[export] Instance phymem_large_pages : LargePages phymem := {|
  lp_alloc := alloc_phy_page;
  lp_inv := phymem_inv;
  lp_free := page_addr_free;
  lp_reach := page_addr_reach;
  lp_alloc_ok := phymem_alloc_ok;
  lp_aligned := phymem_aligned
|}.

(** ** Traces of page operations against a set of page numbers *)

Inductive page_op := OpAlloc | OpFree (n c : nat).
(** [EvAlloc None] is an [alloc_phy_page] that returned 0. *)
Inductive page_event := EvAlloc (r : option nat) | EvFree (n c : nat).

Definition exec_op (o : page_op) : M phymem page_event :=
  match o with
  | OpAlloc =>
      r <- alloc_phy_page ;;
      ret (EvAlloc (if r =? 0 then None else Some (Z.to_nat (r / PAGE_SIZE_LARGE))))
  | OpFree n c =>
      free_phy_pages (PAGE_SIZE_LARGE * Z.of_nat n) (PAGE_SIZE_LARGE * Z.of_nat c) ;;;
      ret (EvFree n c)
  end.
Fixpoint exec_ops (os : list page_op) : M phymem (list page_event) :=
  match os with
  | [] => ret []
  | o :: os' => e <- exec_op o ;; es <- exec_ops os' ;; ret (e :: es)
  end.

(** The abstract allocator: a finite set of free page numbers. *)
Definition abs_step (F : gset nat) (e : page_event) : option (gset nat) :=
  match e with
  | EvAlloc None => Some F
  | EvAlloc (Some n) => if decide (n ∈ F) then Some (F ∖ {[n]}) else None
  | EvFree n c => Some (F ∪ list_to_set (seq n c))
  end.
Fixpoint abs_run (F : gset nat) (es : list page_event) : option (gset nat) :=
  match es with
  | [] => Some F
  | e :: es' => F' ← abs_step F e; abs_run F' es'
  end.

(** The ranges given to [free_phy_pages] lie in the memory the bitmap covers. *)
Definition op_ok (s : phymem) (o : page_op) : Prop :=
  match o with
  | OpAlloc => True
  | OpFree n c => (0 < n)%nat /\ (n + c <= 64 * length (b_words (pg s)))%nat /\
      PAGE_SIZE_LARGE * Z.of_nat n < Z.min (max_phy_addr s) (max_phy_mem_addr s)
  end.

Definition abstracts (s : phymem) (F : gset nat) : Prop :=
  forall n, page_free s n <-> n ∈ F.

Lemma op_ok_frame s s' o : same_frame s s' -> op_ok s o -> op_ok s' o.
Proof. intros (Hl & Ha & Hm). destruct o; [done|]. cbn [op_ok]. by rewrite Hl, Ha, Hm. Qed.

Lemma exec_op_refines s F o :
  phymem_inv s -> abstracts s F -> op_ok s o ->
  wp (exec_op o) s (fun e s' => phymem_inv s' /\ same_frame s s' /\
    exists F', abs_step F e = Some F' /\ abstracts s' F').
Proof.
  intros Hinv Habs Hok. destruct o as [|n c]; unfold exec_op; wp_steps.
  - eapply wp_mono; [by apply alloc_phy_page_spec|].
    cbn. intros r s' (Hinv' & _ & Hfr & _ & _ & [(-> & Hw & _)|(n & -> & Hn0 & Hn & Hf & Hf')]);
      wp_steps; (split; [done|]; split; [done|]).
    + exists F. split; [done|]. intros m. rewrite <- (Habs m). unfold page_free. by rewrite Hw.
    + unfold PAGE_SIZE_LARGE. rewrite (proj2 (Z.eqb_neq _ _)) by lia.
      rewrite Z.mul_comm, Z_div_mult, Nat2Z.id by lia. cbn.
      exists (F ∖ {[n]}). split; [by rewrite decide_True by (by apply Habs)|].
      intros m. rewrite Hf', (Habs m). set_solver.
  - destruct Hok as (? & ? & ?). eapply wp_mono; [by apply free_phy_pages_spec|].
    cbn. intros _ s' (Hinv' & _ & Hfr & Hf). wp_steps. split; [done|]. split; [done|].
    eexists. split; [done|]. intros m. rewrite Hf, (Habs m), elem_of_union, elem_of_list_to_set.
    by rewrite elem_of_seq.
Qed.

Lemma exec_ops_refines os s F :
  phymem_inv s -> abstracts s F -> Forall (op_ok s) os ->
  wp (exec_ops os) s (fun es s' => phymem_inv s' /\
    exists F', abs_run F es = Some F' /\ abstracts s' F').
Proof.
  revert s F. induction os as [|o os IH]; intros s F Hinv Habs Hok; cbn [exec_ops].
  - apply wp_ret. split; [done|]. by exists F.
  - inversion_clear Hok as [|? ? Ho Hos]. wp_steps.
    eapply wp_mono; [by apply exec_op_refines|].
    intros e s1 (Hinv1 & Hfr & F1 & Hs1 & Habs1). wp_steps.
    eapply wp_mono; [apply (IH s1 F1); [done|done|]|].
    { eapply list.Forall_impl; [exact Hos|]. intros o'. by apply op_ok_frame. }
    intros es s2 (Hinv2 & F2 & Hr & Habs2). wp_steps. split; [done|].
    exists F2. split; [|done]. cbn. by rewrite Hs1.
Qed.

(** ** Properties *)

(** C1: every sequence of [alloc_phy_page] and in-range [free_phy_pages] calls
    from [init_phy_mem] runs to the end and behaves as a set of free page
    numbers: an allocation returns a member and removes it, so no page is
    handed out twice without having been freed, and the bitmap is that set. *)
Theorem phymem_refines_page_set ma mm base (os : list page_op)
    (Hma : 64 * PAGE_SIZE_LARGE <= ma < 2 ^ 44)
    (Hos : Forall (op_ok (init_phy_mem ma mm base)) os) :
  exists es s' F,
    exec_ops os (init_phy_mem ma mm base) = Done (es, s') /\
    abs_run ∅ es = Some F /\ abstracts s' F /\
    pages s' = Z.of_nat (length (set_bits (b_words (pg s')))).
Proof.
  destruct (init_phy_mem_inv ma mm base Hma) as [Hinv Hno].
  assert (abstracts (init_phy_mem ma mm base) ∅) as Habs by (intros n; set_solver).
  pose proof (exec_ops_refines os _ _ Hinv Habs Hos) as Hwp.
  apply wp_run in Hwp as (es & s' & Hrun & Hinv' & F & HF & Habs').
  exists es, s', F. split; [done|]. split; [done|]. split; [done|]. apply pi_pages, Hinv'.
Qed.

Lemma phymem_refines_page_set_witness :
  exists es s' F,
    exec_ops [OpFree 3 2; OpAlloc; OpAlloc; OpAlloc; OpFree 4 1; OpAlloc]
      (init_phy_mem (128 * PAGE_SIZE_LARGE) (128 * PAGE_SIZE_LARGE) 0) = Done (es, s') /\
    abs_run ∅ es = Some F /\ abstracts s' F /\
    pages s' = Z.of_nat (length (set_bits (b_words (pg s')))).
Proof.
  apply phymem_refines_page_set.
  - unfold PAGE_SIZE_LARGE. lia.
  - unfold PAGE_SIZE_LARGE. repeat constructor; cbn; lia.
Defined.

(** Pages whose bit lies in the last, partial word of the bitmap are
    counted free but out of reach: with 128 + 32 pages of memory, after freeing
    pages 130 and 131 the counter is 2 and [alloc_phy_page] returns 0. *)
Theorem phymem_last_word_unreachable :
  exists s s', free_phy_pages (PAGE_SIZE_LARGE * 130) (PAGE_SIZE_LARGE * 2)
      (init_phy_mem (160 * PAGE_SIZE_LARGE) (160 * PAGE_SIZE_LARGE) 0) = Done (tt, s) /\
    pages s = 2 /\ page_free s 130 /\ page_free s 131 /\
    alloc_phy_page s = Done (0, s') /\ pages s' = 2.
Proof.
  eexists. eexists. split; [vm_compute; reflexivity|]. repeat split; vm_compute; reflexivity.
Qed.

(** C2: the page-fault allocator hands out each 4K page of its current 2M page
    once, starts a new 2M page only when none is left, returns 0 only when no
    2M page is in reach, and never makes its recursive call. *)
Theorem alloc_small_phy_page_safe_correct s
    (Hinv : phymem_inv s)
    (Hsm : small_inv s \/ smallpages s = 0 /\ length (b_words (small s)) = 64%nat) :
  exists r s', alloc_small_phy_page_safe 1 s = Done (r, s') /\ phymem_inv s' /\
    (smallpages s <> 0 /\ small_inv s' /\ b_words (pg s') = b_words (pg s) /\
       small_free s r /\ (forall x, small_free s' x <-> small_free s x /\ x <> r) \/
     smallpages s = 0 /\ small_inv s' /\
       (exists n, page_free s n /\ small_page_of (PAGE_SIZE_LARGE * Z.of_nat n) r /\
          (forall m, page_free s' m <-> page_free s m /\ m <> n) /\
          forall x, small_free s' x <-> small_page_of (PAGE_SIZE_LARGE * Z.of_nat n) x /\ x <> r) \/
     smallpages s = 0 /\ r = 0 /\ b_words (pg s') = b_words (pg s) /\
       forall n, searched s n -> ~ page_free s n).
Proof.
  apply wp_run. apply alloc_small_phy_page_safe_spec; [done|done|lia].
Qed.

Lemma alloc_small_phy_page_safe_correct_witness :
  exists r s', alloc_small_phy_page_safe 1
      (init_phy_mem (128 * PAGE_SIZE_LARGE) (128 * PAGE_SIZE_LARGE) 0) = Done (r, s') /\
    phymem_inv s'.
Proof.
  destruct (init_phy_mem_inv (128 * PAGE_SIZE_LARGE) (128 * PAGE_SIZE_LARGE) 0) as [Hinv _];
    [unfold PAGE_SIZE_LARGE; lia|].
  destruct (alloc_small_phy_page_safe_correct _ Hinv) as (r & s' & Hrun & Hinv' & _).
  - right. split; reflexivity.
  - exists r, s'. by split.
Defined.
