(* ===== verification/PhyPage.v ===== *)
(** * PhyPage: the 4K physical allocator (kernel/phy_page.c)

    A list of holes of physical memory, refilled one 2M page at a time from
    [alloc_phy_page()].  The operations are over the node pool of HoleList.v and
    any source of large pages; the theorems relate them to the set of physical
    addresses the allocator owns. *)
From Stdlib Require Import ZArith Lia.
From stdpp Require Import base tactics gmap list option.
From S2P Require Import Prelude HoleList FreeSet Pages PhyMem.
#[export] Set Warnings "-clear-no-such-hyp".

Definition MAX_PHY_PAGE_HOLE : nat := 20.

(** [if (size & 0xfff) size = (size & ~0xfff) + 0x1000;] *)
Definition align_4k (size : Z) : Z :=
  if Z.land size 4095 =? 0 then size else wrap64 (Z.land size (lnot64 4095) + 4096).

Section operations.
Context {T : Type} `{LP : LargePages T}.

(** The file's statics ([n_meta] is [origin_size]) and the page source. *)
Record phy_page := PhyPage { pp_pool : pool Z; pp_src : T }.
Definition set_pool (p : pool Z) (s : phy_page) : phy_page := PhyPage p (pp_src s).
Definition set_src (t : T) (s : phy_page) : phy_page := PhyPage (pp_pool s) t.
Definition on_pool {A} : M (pool Z) A -> M phy_page A := zoom pp_pool set_pool.
Definition on_src {A} : M T A -> M phy_page A := zoom pp_src set_src.

Definition init_phy_page (t : T) : phy_page :=
  PhyPage (init_pool 0 MAX_PHY_PAGE_HOLE) t.

(** The fuel of every walk: the node array bounds the length of the lists. *)
Definition FUEL : nat := S MAX_PHY_PAGE_HOLE.

Definition free_phy_page_small (addr size : Z) : M (pool Z) unit :=
  kassert ((Z.land addr 4095 =? 0) && (Z.land size 4095 =? 0)) ;;;
  p <- gets p_free ;;
  match p with
  | None => panic
  | Some _ =>
      spin_lock ;;;
      h <- gets p_head ;;
      ph <- walk FUEL (fun a z => wrap64 (a + z) =? addr) h ;;
      match ph with
      | Some _ =>
          n <- deref ph ;;
          put_cell ph (n_addr n) (wrap64 (n_size n + size)) (wrap64 (n_meta n + size)) ;;;
          spin_unlock
      | None =>
          new_hole FUEL p addr size size ;;;
          spin_unlock
      end
  end.

(** One iteration of [while (!p) {...}]: refill and search again; [inr None]
    is the [return 0]. *)
Definition refill_step (size : Z) (p : option nat) : M phy_page (option nat + option nat) :=
  match p with
  | Some _ => ret (inr p)
  | None =>
      on_pool spin_unlock ;;;
      newaddr <- on_src lp_alloc ;;
      if newaddr =? 0 then ret (inr None)
      else
        on_pool (free_phy_page_small newaddr PAGE_SIZE_LARGE) ;;;
        on_pool spin_lock ;;;
        h <- on_pool (gets p_head) ;;
        p' <- on_pool (walk_last FUEL (fun _ z => negb (z <? size)) h) ;;
        ret (inl p')
  end.

Definition alloc_phy_page_small (size0 : Z) : M phy_page Z :=
  let size := align_4k size0 in
  on_pool spin_lock ;;;
  h <- on_pool (gets p_head) ;;
  p <- on_pool (walk FUEL (fun _ z => negb (z <? size)) h) ;;
  p' <- loop 3 (refill_step size) p ;;
  match p' with
  | None => ret 0
  | Some _ =>
      r <- on_pool (carve FUEL drop0 p' size) ;;
      on_pool spin_unlock ;;;
      ret r
  end.
End operations.
#[global] Arguments phy_page T : clear implicits.
#[global] Arguments FUEL : simpl never.
#[global] Arguments align_4k : simpl never.

(** ** Lemmas *)

Lemma align_4k_spec z :
  0 <= z -> z + 4096 < 2 ^ 64 ->
  align_4k z = 4096 * ((z + 4095) / 4096) /\ z <= align_4k z < z + 4096 /\ align_4k z mod 4096 = 0.
Proof.
  intros H0 H1.
  pose proof (Z.mod_pos_bound z 4096). pose proof (Z.div_mod z 4096).
  assert (align_4k z = if z mod 4096 =? 0 then z else z - z mod 4096 + 4096) as ->.
  { unfold align_4k. change 4095 with (2 ^ 12 - 1).
    rewrite land_low_mod, land_high by lia. change (2 ^ 12) with 4096.
    destruct (z mod 4096 =? 0); [done|]. apply wrap64_small. lia. }
  assert (forall y, y mod 4096 = 0 -> z <= y < z + 4096 ->
    y = 4096 * ((z + 4095) / 4096)) as Huniq.
  { intros y Hm Hy. pose proof (Z.div_mod y 4096).
    enough (y / 4096 = (z + 4095) / 4096) by lia.
    apply (Z.div_unique (z + 4095) 4096 (y / 4096) (z + 4095 - y)); lia. }
  destruct (Z.eqb_spec (z mod 4096) 0) as [Hz|Hz].
  - split; [apply Huniq|]; lia.
  - assert ((z - z mod 4096 + 4096) mod 4096 = 0) as Hm.
    { replace (z - z mod 4096 + 4096) with ((z / 4096 + 1) * 4096) by lia.
      apply Z.mod_mul. lia. }
    split; [apply Huniq|]; lia.
Qed.

Lemma page_mask_true a : a mod 4096 = 0 -> (Z.land a 4095 =? 0) = true.
Proof.
  intros Ha. change 4095 with (2 ^ 12 - 1). rewrite land_low_mod by lia.
  apply Z.eqb_eq. exact Ha.
Qed.

(** ** What the operations do to the free memory *)
Section free_memory.
Context {T : Type} `{LP : LargePages T}.

Local Abbreviation ok := (cells_ok (whole MAX_PHY_PAGE_HOLE) 4096 (2 ^ 45) 4096).
Local Abbreviation holds_F := (holds (whole MAX_PHY_PAGE_HOLE) 4096 (2 ^ 45) 4096 false).

Lemma free_phy_page_small_ok s lf lh a z :
  ok s lf lh -> p_lock s = false -> lf <> [] ->
  PAGE_4K_SIZE <= a -> 0 < z -> a + z <= 2 ^ 45 ->
  a mod PAGE_4K_SIZE = 0 -> z mod PAGE_4K_SIZE = 0 ->
  (forall x, in_range a z x -> ~ covers lh x) ->
  wp (free_phy_page_small a z) s (fun _ s' =>
    p_lock s' = false /\ exists lf' lh', ok s' lf' lh' /\
      (length lf <= S (length lf'))%nat /\
      (forall x, covers lh' x <-> covers lh x \/ in_range a z x) /\
      Exists (fun c => z <= c_size c) lh').
Proof.
  unfold PAGE_4K_SIZE. intros Hok Hlk Hne Ha Hz Hhi Haa Hza Hdis. unfold free_phy_page_small.
  rewrite !page_mask_true by done. wp_steps. apply wp_kassert; [done|]. wp_steps.
  pose proof (whole_length _ _ _ _ _ _ _ Hok) as Hlen.
  destruct lf as [|[i c] lf]; [done|].
  pose proof (co_rep _ _ _ _ _ _ _ Hok) as (Hf & Hh & _).
  assert (p_free s = Some i) as Hfree by (destruct c as [[? ?] ?]; exact (proj1 Hf)).
  rewrite Hfree. wp_steps. apply wp_spin_lock; [done|]. wp_steps.
  assert (Hok1 : ok (set_lock true s) ((i, c) :: lf) lh) by (destruct Hok; by split).
  apply (wp_walk _ _ _ _ lh); [exact Hh|unfold FUEL; lia|].
  destruct (find_cell _ lh) as [j|] eqn:Hfind.
  - apply find_cell_Some in Hfind as (l1 & b & y & m & l2 & -> & Hstop%Z.eqb_eq).
    pose proof (co_elem _ _ _ _ _ _ _ _ _ _ _ _ Hok1) as (? & ? & ? & _).
    rewrite wrap64_small in Hstop by lia.
    wp_steps. eapply wp_deref_cell; [apply Hok1|]. intros nx. cbn [n_addr n_size n_meta].
    rewrite (wrap64_small (y + z)) by lia. wp_steps. unfold spin_unlock.
    eapply (merge_ok (whole MAX_PHY_PAGE_HOLE) 4096 (2 ^ 45) 4096); [lia|exact Hok1|done|lia|done| |].
    { intros x Hx. apply Hdis. unfold in_range. lia. }
    intros s' Hok' _ Hc. apply wp_modify. split; [done|].
    eexists _, _. split; [destruct Hok'; by split|]. split; [cbn; lia|]. split.
    + intros x. rewrite Hc. unfold in_range. subst a. done.
    + apply Exists_app. right. left. unfold c_size. cbn. lia.
  - wp_steps. eapply wp_mono.
    { eapply (new_hole_ok _ _ _ 4096); [exact Hok1|by rewrite whole_ids; unfold FUEL; lia|..]; try done. }
    intros _ s' (_ & Hok' & Hc). apply wp_modify. split; [done|].
    eexists _, _. split; [destruct Hok'; by split|]. split; [cbn; lia|]. split; [exact Hc|].
    rewrite ins_perm. left. done.
Qed.

Lemma lseg_det {X} (ns : gmap nat (node X)) p l l' :
  lseg ns p l None -> lseg ns p l' None -> l = l'.
Proof.
  revert p l'. induction l as [|[i [[a z] x]] l IH]; intros p l'; cbn.
  - intros ->. destruct l' as [|[? [[? ?] ?]] ?]; cbn; naive_solver.
  - intros (-> & nx & Hi & Hl). destruct l' as [|[i' [[a' z'] x']] l']; cbn; [done|].
    intros ([= <-] & nx' & Hi' & Hl'). rewrite Hi in Hi'. injection Hi' as <- <- <- <-.
    f_equal. by eapply IH.
Qed.

(** The allocator's invariant: its holes are disjoint from the pages its
    source still holds. *)
Record pp_ok (b : bool) (s : phy_page T) (lf lh : list (cell Z)) : Prop := {
  ppo_lock : p_lock (pp_pool s) = b;
  ppo_cells : ok (pp_pool s) lf lh;
  ppo_src : lp_inv (pp_src s);
  ppo_dis x p : covers lh x -> lp_free (pp_src s) p -> ~ in_range p PAGE_SIZE_LARGE x
}.

(** Everything that is free: the holes and the source's pages. *)
Definition total (s : phy_page T) (lh : list (cell Z)) (x : Z) : Prop :=
  covers lh x \/ exists p, lp_free (pp_src s) p /\ in_range p PAGE_SIZE_LARGE x.

Definition fits (size : Z) : Z -> Z -> bool := fun _ z => negb (z <? size).

Lemma find_fits_None size (lh : list (cell Z)) :
  find_cell (fits size) lh = None -> Forall (fun c => c_size c < size) lh.
Proof.
  intros H%find_cell_None. eapply list.Forall_impl; [exact H|].
  intros c Hc. unfold fits in Hc. unfold c_size. cbn in Hc. lia.
Qed.

Lemma find_fits_Exists size (lh : list (cell Z)) :
  Exists (fun c => size <= c_size c) lh -> exists i, find_cell (fits size) lh = Some i.
Proof.
  intros Hex. destruct (find_cell (fits size) lh) as [i|] eqn:Hf; [by exists i|].
  apply find_fits_None in Hf. exfalso.
  apply Exists_exists in Hex as (c & Hin & Hc).
  rewrite list.Forall_forall in Hf. specialize (Hf c). unfold c_size in *.
  assert (c ∈ lh) by (by apply list_elem_of_In). naive_solver lia.
Qed.

(** Large pages are disjoint: both ends are 2M-aligned. *)
Lemma pages_disjoint (t : T) p q x :
  lp_inv t -> lp_free t p -> lp_free t q ->
  in_range p PAGE_SIZE_LARGE x -> in_range q PAGE_SIZE_LARGE x -> p = q.
Proof.
  intros Hinv Hp%(lp_aligned t _ Hinv) Hq%(lp_aligned t _ Hinv). unfold in_range.
  unfold PAGE_SIZE_LARGE in *. intros Hx Hy.
  pose proof (Z.div_mod p 2097152). pose proof (Z.div_mod q 2097152). lia.
Qed.

(** The refill loop: either the request already fits, or one 2M page is
    added and then it does, or the source has nothing. *)
Lemma refill_loop_ok s lf lh size :
  pp_ok true s lf lh -> lf <> [] -> 0 < size <= PAGE_SIZE_LARGE ->
  wp (loop 3 (refill_step size) (find_cell (fits size) lh)) s (fun r s' =>
    match r with
    | Some i => exists lf' lh', pp_ok true s' lf' lh' /\
        find_cell (fits size) lh' = Some i /\ (length lf <= S (length lf'))%nat /\
        (find_cell (fits size) lh <> None -> lf' = lf) /\
        forall x, total s' lh' x <-> total s lh x
    | None => pp_ok false s' lf lh /\ Forall (fun c => c_size c < size) lh /\
        (forall x, total s' lh x <-> total s lh x) /\
        forall a, lp_reach (pp_src s) a -> ~ lp_free (pp_src s) a
    end).
Proof.
  intros [Hlk Hok Hinv Hdis] Hne Hsz. cbn [loop]. apply wp_bind. unfold refill_step at 1.
  destruct (find_cell (fits size) lh) as [i|] eqn:Hfind.
  { wp_steps. exists lf, lh. split; [by split|]. split; [done|]. split; [lia|]. split; [done|done]. }
  unfold on_pool, on_src, spin_unlock. wp_steps. cbn.
  eapply wp_mono; [by apply lp_alloc_ok|]. cbn.
  intros r t' [Hinv' [(-> & Hsame & Hno)|[Hr Hfree]]].
  { cbn. wp_steps. split.
    { split; cbn; [done|by destruct Hok; split|done|].
      intros x p Hc Hp. apply Hdis; [done|by apply Hsame]. }
    split; [by apply find_fits_None|]. split; [|done].
    intros x. unfold total. cbn. by setoid_rewrite Hsame. }
  pose proof (lp_aligned _ _ Hinv Hr) as [Hral Hrpos].
  rewrite (proj2 (Z.eqb_neq r 0)) by lia. wp_steps. cbn.
  assert (4096 <= r /\ r + PAGE_SIZE_LARGE <= 2 ^ 45 /\ r mod 4096 = 0) as (Hr1 & Hr2 & Hr3).
  { unfold PAGE_SIZE_LARGE in *. pose proof (Z.div_mod r 2097152). split; [lia|]. split.
    - change (2 ^ 45) with (2097152 * 16777216) in *. lia.
    - replace r with ((r / 2097152 * 512) * 4096) by lia. apply Z.mod_mul. lia. }
  eapply wp_mono; [apply (free_phy_page_small_ok _ lf lh)|];
    [by destruct Hok; split|done|done|done|done|done|done|done| |].
  { intros x Hx Hc. by apply (Hdis x r Hc Hr). }
  cbn. intros _ p' (Hlk' & lf' & lh' & Hok' & Hlen & Hcov & Hbig). wp_steps. cbn.
  apply wp_spin_lock; [done|]. wp_steps.
  destruct (find_fits_Exists size lh') as [i Hi].
  { eapply list.Exists_impl; [exact Hbig|]. intros c Hc. cbn in Hc. lia. }
  pose proof (whole_length _ _ _ _ _ _ _ Hok') as Hlen'.
  apply (wp_walk_last _ _ _ _ lh'); [apply Hok'|unfold FUEL; lia|].
  change (find_last _ lh') with (find_last (fits size) lh').
  rewrite (find_last_cell _ _ _ Hi). wp_steps. cbn.
  exists lf', lh'. split.
  { split; cbn; [done|by destruct Hok'; split|done|].
    intros x q Hc [Hq Hqr]%Hfree. apply Hcov in Hc as [Hc|Hc]; [by apply Hdis|].
    intros Hx. apply Hqr. by eapply (pages_disjoint (pp_src s)). }
  split; [done|]. split; [done|]. split; [done|].
  intros x. unfold total. cbn. rewrite Hcov. setoid_rewrite Hfree. split.
  - intros [[Hc|Hc]|(p & [Hp _] & Hx)]; [by left|right; by exists r|right; by exists p].
  - intros [Hc|(p & Hp & Hx)]; [by left; left|].
    destruct (decide (p = r)) as [->|Hpr]; [left; by right|right; by exists p].
Qed.

(** [alloc_phy_page_small] for requests of at most 2M. *)
Lemma alloc_phy_page_small_ok s lf lh size0 :
  pp_ok false s lf lh -> lf <> [] -> 0 < size0 <= PAGE_SIZE_LARGE ->
  let size := align_4k size0 in
  wp (alloc_phy_page_small size0) s (fun r s' =>
    exists lf' lh', pp_ok false s' lf' lh' /\ (length lf <= S (length lf'))%nat /\
    (find_cell (fits size) lh <> None -> (length lf <= length lf')%nat) /\
    (r = 0 /\ (forall x, total s' lh' x <-> total s lh x) /\
       Forall (fun c => c_size c < size) lh /\
       (forall a, lp_reach (pp_src s) a -> ~ lp_free (pp_src s) a) \/
     r mod 4096 = 0 /\ 4096 <= r /\ r + size <= 2 ^ 45 /\
       (forall x, in_range r size x -> total s lh x) /\
       forall x, total s' lh' x <-> total s lh x /\ ~ in_range r size x)).
Proof.
  intros [Hlk Hok Hinv Hdis] Hne Hsz0. cbn zeta.
  destruct (align_4k_spec size0) as (Heq & Hge & Hmod); [lia|unfold PAGE_SIZE_LARGE in *; lia|].
  assert (0 < align_4k size0 <= PAGE_SIZE_LARGE) as Hsz.
  { split; [lia|]. rewrite Heq. unfold PAGE_SIZE_LARGE in *.
    pose proof (Z.div_le_mono (size0 + 4095) (2097152 + 4095) 4096). cbn in *. lia. }
  set (size := align_4k size0) in *.
  unfold alloc_phy_page_small. fold size. unfold on_pool at 1 2 3. wp_steps. cbn.
  apply wp_spin_lock; [done|]. wp_steps. cbn.
  pose proof (whole_length _ _ _ _ _ _ _ Hok) as Hlen.
  apply (wp_walk _ _ _ _ lh); [apply Hok|unfold FUEL; lia|].
  change (find_cell _ lh) with (find_cell (fits size) lh). cbn.
  apply wp_bind. eapply wp_mono; [apply (refill_loop_ok _ lf lh); [|done|done]|].
  { split; cbn; [done|by destruct Hok; split|done|done]. }
  cbn. intros [i|] s1; cycle 1.
  { intros (Hok1 & Hsmall & Htot & Hno). wp_steps. exists lf, lh. split; [done|]. split; [lia|].
    split; [lia|]. left. done. }
  intros (lf1 & lh1 & [Hlk1 Hok1 Hinv1 Hdis1] & Hfind & Hlen1 & Hkeep & Htot).
  assert (forall x, total s1 lh1 x <-> total s lh x) as Htot' by exact Htot. clear Htot.
  apply find_cell_Some in Hfind as (l1 & a & z & x0 & l2 & -> & Hfit).
  assert (size <= z) as Hz by (unfold fits in Hfit; destruct (Z.ltb_spec z size); done).
  pose proof (co_elem _ _ _ _ _ _ _ _ _ _ _ _ Hok1) as (Ha1 & _ & Ha2 & Ha3 & _).
  unfold on_pool. wp_steps. eapply wp_mono.
  { eapply (carve_ok (whole MAX_PHY_PAGE_HOLE) 4096 (2 ^ 45) 4096); try exact Hok1;
      try (rewrite ?whole_ids; unfold FUEL; lia). }
  cbn. intros r p2 (-> & Hlk2 & lf2 & lh2 & Hok2 & Hsuf2 & Hcov2).
  pose proof (suffix_length _ _ Hsuf2) as Hlen2. unfold spin_unlock. wp_steps.
  cbn. exists lf2, lh2.
  assert (forall x, covers lh2 x -> covers (l1 ++ (i, (a, z, x0)) :: l2) x) as Hsub.
  { intros x. rewrite Hcov2. tauto. }
  assert (forall x, in_range a size x -> covers (l1 ++ (i, (a, z, x0)) :: l2) x) as Hin.
  { intros x Hx. apply covers_app. right. apply covers_cons. left.
    unfold c_addr, c_size, in_range in *. cbn. lia. }
  split; [split; cbn; [done|by destruct Hok2; split|done|naive_solver]|].
  split; [lia|]. split; [intros Hf; rewrite <- (Hkeep Hf); lia|].
  right. split; [done|]. split; [done|]. split; [lia|].
  split; [intros x Hx; apply Htot'; left; by apply Hin|].
  intros x. rewrite <- Htot'. unfold total. cbn. rewrite Hcov2. split.
  - intros [[Hc Hx]|(p & Hp & Hx)]; [by split; [left|]|].
    split; [right; by exists p|]. intros Hr. by apply (Hdis1 x p); [apply Hin| |].
  - intros [[Hc|Hp] Hx]; [by left|by right].
Qed.

(** The state [init_phy_page] leaves: twenty free nodes, no hole. *)
Lemma init_phy_page_ok (t : T) :
  lp_inv t -> exists lf, pp_ok false (init_phy_page t) lf [] /\ length lf = MAX_PHY_PAGE_HOLE.
Proof.
  intros Hinv. destruct (init_pool_ok (0 : Z) MAX_PHY_PAGE_HOLE 4096 (2 ^ 45) 4096)
    as (lf & Hok & Hlen); [unfold MAX_PHY_PAGE_HOLE; lia|lia|].
  exists lf. split; [|done].
  split; cbn; [done|exact Hok|done|intros x p Hc; by apply covers_nil in Hc].
Qed.
End free_memory.

(** ** The interface instance: 4K requests never run out of nodes *)
Section instance.
Context {T : Type} `{LP : LargePages T}.

Definition pp_free (s : phy_page T) (x : Z) : Prop :=
  exists lf lh, pp_ok false s lf lh /\ total s lh x.

Lemma pp_free_total s lf lh x : pp_ok false s lf lh -> pp_free s x <-> total s lh x.
Proof.
  intros Hok. split; [|intros Ht; by exists lf, lh].
  intros (lf' & lh' & Hok' & Ht).
  enough (lh = lh') as -> by done. eapply lseg_det;
    [apply (co_rep _ _ _ _ _ _ _ (ppo_cells _ _ _ _ Hok))|
     apply (co_rep _ _ _ _ _ _ _ (ppo_cells _ _ _ _ Hok'))].
Qed.

Lemma alloc_4k_ok (s : phy_page T) lf lh :
  pp_ok false s lf lh -> lf <> [] ->
  wp (alloc_phy_page_small 4096) s (fun r s' =>
    (exists lf' lh', pp_ok false s' lf' lh' /\ lf' <> []) /\
    (r = 0 /\ (forall x, pp_free s' x <-> pp_free s x) \/
     r mod 4096 = 0 /\ 0 < r < 2 ^ 45 /\
     (forall x, in_range r 4096 x -> pp_free s x) /\
     (forall x, pp_free s' x <-> pp_free s x /\ ~ in_range r 4096 x))).
Proof.
  intros Hok Hne. eapply wp_mono;
    [eapply alloc_phy_page_small_ok; [exact Hok|exact Hne|unfold PAGE_SIZE_LARGE; lia]|].
  change (align_4k 4096) with 4096. cbn beta.
  intros r s' (lf' & lh' & Hok' & Hlen & Hkeep & Hres). split.
  - exists lf', lh'. split; [done|]. intros ->. cbn in *.
    destruct lf as [|c lf]; [done|]. cbn in *.
    destruct lh as [|[i [[a z] x]] lh]; cbn in *.
    + pose proof (pool_rep_length _ _ _ _ _ (co_rep _ _ _ _ _ _ _ (ppo_cells _ _ _ _ Hok))) as Hl.
      rewrite whole_ids in Hl. unfold MAX_PHY_PAGE_HOLE in Hl. cbn in Hl. lia.
    + pose proof (co_elem _ _ _ _ _ _ [] _ _ _ _ _ (ppo_cells _ _ _ _ Hok))
        as (_ & Hz & _ & _ & Hm). cbn in *.
      assert (fits 4096 a z = true) as Hfit.
      { unfold fits. destruct (Z.ltb_spec z 4096) as [Hlt|]; [|done].
        rewrite Z.mod_small in Hm by lia. lia. }
      rewrite Hfit in Hkeep. specialize (Hkeep ltac:(done)). lia.
  - setoid_rewrite (pp_free_total s' lf' lh' _ Hok'). setoid_rewrite (pp_free_total s lf lh _ Hok).
    destruct Hres as [(-> & Htot & _)|(Hm & Hr1 & Hr2 & Hin & Htot)]; [left; done|right].
    split; [done|]. split; [lia|]. split; [exact Hin|exact Htot].
Qed.

Definition pp_inv (s : phy_page T) : Prop := exists lf lh, pp_ok false s lf lh /\ lf <> [].

Lemma phy_page_alloc_ok (s : phy_page T) :
  pp_inv s ->
  wp (alloc_phy_page_small PAGE_4K_SIZE) s (fun r s' =>
    pp_inv s' /\
    (r = 0 /\ (forall x, pp_free s' x <-> pp_free s x) \/
     r mod PAGE_4K_SIZE = 0 /\ 0 < r < 2 ^ 45 /\
     (forall x, in_range r PAGE_4K_SIZE x -> pp_free s x) /\
     (forall x, pp_free s' x <-> pp_free s x /\ ~ in_range r PAGE_4K_SIZE x))).
Proof. intros (lf & lh & Hok & Hne). by eapply alloc_4k_ok. Qed.

#[export] Instance phy_page_small_pages : SmallPages (phy_page T) := {|
  sp_alloc := alloc_phy_page_small PAGE_4K_SIZE;
  sp_inv := pp_inv;
  sp_free := pp_free;
  sp_alloc_ok := phy_page_alloc_ok
|}.
End instance.

(** The 2M bitmap and the 4K list together serve the page tables. *)
#[export] Instance phy_frames : FrameAlloc (phy_page phymem) := {|
  fa_small := phy_page_small_pages;
  fa_alloc_large := on_src alloc_phy_page;
  fa_free_large a := on_src (free_phy_one_page a);
  fa_free_small a z := on_pool (free_phy_page_small a z)
|}.

(** The bitmap's pages that may be given back: those it covers, but page 0,
    below both limits. *)
Definition page_home (s : phymem) (a : Z) : Prop :=
  exists n, a = PAGE_SIZE_LARGE * Z.of_nat n /\ (0 < n < 64 * length (b_words (pg s)))%nat /\
    a < Z.min (max_phy_addr s) (max_phy_mem_addr s).

Lemma page_home_frame s s' a : same_frame s s' -> page_home s' a <-> page_home s a.
Proof. intros (Hl & Ha & Hm). unfold page_home. by rewrite Hl, Ha, Hm. Qed.

#[export] Instance same_frame_preorder : PreOrder same_frame.
Proof. split; [by intros s|]. intros s1 s2 s3. apply same_frame_trans. Qed.

Definition same_source (s s' : phy_page phymem) : Prop :=
  phymem_inv (pp_src s) -> phymem_inv (pp_src s') /\ same_frame (pp_src s) (pp_src s').
#[export] Instance same_source_preorder : PreOrder same_source.
Proof.
  split; [by intros s|]. intros s1 s2 s3 H12 H23 Hi.
  destruct (H12 Hi) as [Hi2 Hf2]. destruct (H23 Hi2) as [Hi3 Hf3]. split; [done|by etransitivity].
Qed.

Lemma on_pool_source {A} (m : M (pool Z) A) : respects same_source (on_pool (T := phymem) m).
Proof. apply respects_zoom. done. Qed.

(** The 4K allocator uses the bitmap only through [alloc_phy_page]. *)
Lemma alloc_small_source size : respects same_source (alloc_phy_page_small (T := phymem) size).
Proof.
  unfold alloc_phy_page_small. repeat (apply (respects_bind same_source); [apply on_pool_source|intros ?]).
  apply (respects_bind same_source); [|].
  - apply (respects_loop same_source). intros [i|]; cbn [refill_step]; [by apply (respects_ret same_source)|].
    apply (respects_bind same_source); [apply on_pool_source|intros _].
    apply (respects_bind same_source); [ |intros r].
    + apply (respects_zoom same_source). intros s b t Hrun Hinv. cbn in Hrun.
      pose proof (alloc_phy_page_spec _ Hinv) as Hwp. unfold wp in Hwp. rewrite Hrun in Hwp.
      destruct Hwp as (? & _ & ? & _). done.
    + destruct (r =? 0); [by apply (respects_ret same_source)|].
      repeat (apply (respects_bind same_source); [apply on_pool_source|intros ?]). by apply (respects_ret same_source).
  - intros [i|]; [|by apply (respects_ret same_source)].
    repeat (apply (respects_bind same_source); [apply on_pool_source|intros ?]). by apply (respects_ret same_source).
Qed.

Lemma frames_home_small (s : phy_page phymem) r s' a :
  pp_inv s -> alloc_phy_page_small PAGE_4K_SIZE s = Done (r, s') ->
  page_home (pp_src s') a <-> page_home (pp_src s) a.
Proof.
  intros (lf & lh & Hok & _) Hrun. apply page_home_frame.
  exact (proj2 (alloc_small_source _ _ _ _ Hrun (ppo_src _ _ _ _ Hok))).
Qed.

(** Both page operations of the source leave the holes alone. *)
Lemma pp_inv_src (s : phy_page phymem) lf lh t :
  pp_ok false s lf lh -> lf <> [] -> phymem_inv t ->
  (forall x p, covers lh x -> page_addr_free t p -> ~ in_range p PAGE_SIZE_LARGE x) ->
  pp_inv (set_src t s) /\
  forall x, pp_free (set_src t s) x <->
    covers lh x \/ exists p, page_addr_free t p /\ in_range p PAGE_SIZE_LARGE x.
Proof.
  intros [Hlk Hco Hsrc Hdis] Hne Ht Hd.
  assert (pp_ok false (set_src t s) lf lh) as Hok by (split; cbn; [done|exact Hco|done|done]).
  split; [by exists lf, lh|]. intros x. by rewrite (pp_free_total _ _ _ _ Hok).
Qed.

Lemma frames_alloc_large_ok (s : phy_page phymem) :
  pp_inv s ->
  wp (on_src alloc_phy_page) s (fun r s' =>
    pp_inv s' /\ (forall a, page_home (pp_src s') a <-> page_home (pp_src s) a) /\
    (r = 0 /\ (forall x, pp_free s' x <-> pp_free s x) \/
     r mod PAGE_SIZE_LARGE = 0 /\ 0 < r < 2 ^ 45 /\
     (forall x, in_range r PAGE_SIZE_LARGE x -> pp_free s x) /\
     (forall x, pp_free s' x <-> pp_free s x /\ ~ in_range r PAGE_SIZE_LARGE x))).
Proof.
  intros (lf & lh & Hok & Hne). pose proof (ppo_src _ _ _ _ Hok) as Hinv.
  unfold on_src. apply wp_zoom. eapply wp_mono.
  { apply wp_conj; [by apply (alloc_phy_page_spec (pp_src s))|by apply (phymem_alloc_ok (pp_src s))]. }
  intros r t [(Hinv' & _ & Hfr & _) [_ Hres]].
  assert (forall x p, covers lh x -> page_addr_free t p -> ~ in_range p PAGE_SIZE_LARGE x) as Hd.
  { intros x p Hc Hp. apply (ppo_dis _ _ _ _ Hok x p Hc).
    destruct Hres as [(_ & Hf & _)|[_ Hf]]; [by apply Hf|by apply Hf in Hp as []]. }
  destruct (pp_inv_src s lf lh t Hok Hne Hinv' Hd) as [Hpp Hfree].
  split; [done|]. split; [intros a; by apply page_home_frame|].
  setoid_rewrite Hfree. setoid_rewrite (pp_free_total s lf lh _ Hok). unfold total. cbn [lp_free phymem_large_pages].
  destruct Hres as [(-> & Hf & _)|[Hr Hf]]; [left|right].
  - split; [done|]. by setoid_rewrite Hf.
  - destruct (phymem_aligned _ _ Hinv Hr) as [Hra Hrb]. split; [done|]. split; [done|].
    split; [intros x Hx; right; by exists r|]. setoid_rewrite Hf. intros x. split.
    + intros [Hc|(p & [Hp Hne'] & Hx)].
      * split; [by left|]. by apply (ppo_dis _ _ _ _ Hok x r Hc).
      * split; [right; by exists p|]. intros Hxr. apply Hne'.
        by apply (pages_disjoint (LP := phymem_large_pages) (pp_src s) p r x).
    + intros [[Hc|(p & Hp & Hx)] Hn]; [by left|]. right. exists p. split; [|done].
      split; [done|]. intros ->. done.
Qed.

Lemma page_home_free (s : phymem) n :
  phymem_inv s -> page_home s (PAGE_SIZE_LARGE * Z.of_nat n) ->
  wp (free_phy_one_page (PAGE_SIZE_LARGE * Z.of_nat n)) s (fun _ s' =>
    phymem_inv s' /\ same_frame s s' /\
    forall m, page_free s' m <-> page_free s m \/ m = n).
Proof.
  intros Hinv (n' & Heq & Hn & Hb). assert (n' = n) as -> by (unfold PAGE_SIZE_LARGE in *; lia).
  unfold free_phy_one_page. wp_steps. apply wp_kassert; [apply Z.ltb_lt; lia|].
  rewrite (proj2 (Z.eqb_neq _ 0)) by (unfold PAGE_SIZE_LARGE; lia). wp_steps.
  apply wp_kassert.
  { rewrite page_aligned. apply Z.ltb_lt. lia. }
  rewrite Z.mul_comm, Z.div_mul by done. eapply wp_mono; [by apply free_bit_spec|]. cbn.
  intros _ s' (? & _ & ? & ?). done.
Qed.

Lemma frames_free_large_ok (s : phy_page phymem) a :
  pp_inv s -> page_home (pp_src s) a ->
  (forall x, in_range a PAGE_SIZE_LARGE x -> ~ pp_free s x) ->
  wp (on_src (free_phy_one_page a)) s (fun _ s' =>
    pp_inv s' /\ (forall b, page_home (pp_src s') b <-> page_home (pp_src s) b) /\
    (forall x, pp_free s' x <-> pp_free s x \/ in_range a PAGE_SIZE_LARGE x)).
Proof.
  intros (lf & lh & Hok & Hne) Hhome Hdis. pose proof (ppo_src _ _ _ _ Hok) as Hinv.
  destruct Hhome as (n & -> & Hhome). unfold on_src. apply wp_zoom. eapply wp_mono.
  { apply page_home_free; [done|by exists n]. }
  cbn. intros _ t (Hinv' & Hfr & Hf).
  assert (forall p, page_addr_free t p <->
    page_addr_free (pp_src s) p \/ p = PAGE_SIZE_LARGE * Z.of_nat n) as Hpf.
  { intros p. unfold page_addr_free. setoid_rewrite Hf. naive_solver. }
  setoid_rewrite (pp_free_total s lf lh _ Hok) in Hdis.
  destruct (pp_inv_src s lf lh t Hok Hne Hinv') as [Hpp Hfree].
  { intros x p Hc [Hp|Hp]%Hpf; [by apply (ppo_dis _ _ _ _ Hok x p Hc)|].
    intros Hx. subst p. apply (Hdis x Hx). by left. }
  split; [done|]. split; [intros b; by apply page_home_frame|].
  intros x. rewrite Hfree, (pp_free_total s lf lh _ Hok). unfold total. cbn [lp_free phymem_large_pages].
  setoid_rewrite Hpf. naive_solver.
Qed.

#[export] Instance phy_frames_laws : FrameLaws (phy_page phymem) := {|
  fl_home s := page_home (pp_src s);
  fl_home_small := frames_home_small;
  fl_alloc_ok := frames_alloc_large_ok;
  fl_free_ok := frames_free_large_ok
|}.

(** ** Properties *)

(** C6: for any page source that keeps its promise, [free_phy_page_small]
    returns exactly the given range to the free memory, whether it extends a
    hole or takes a new node, and leaves the lock free. *)
Theorem free_phy_page_small_correct {T} `{LP : LargePages T} (p : pool Z) lf lh a z
    (Hok : cells_ok (whole MAX_PHY_PAGE_HOLE) 4096 (2 ^ 45) 4096 p lf lh)
    (Hlk : p_lock p = false) (Hnode : lf <> [])
    (Hr : 4096 <= a /\ 0 < z /\ a + z <= 2 ^ 45 /\ a mod 4096 = 0 /\ z mod 4096 = 0)
    (Hdis : forall x, in_range a z x -> ~ covers lh x) :
  exists p' lf' lh', free_phy_page_small a z p = Done (tt, p') /\ p_lock p' = false /\
    cells_ok (whole MAX_PHY_PAGE_HOLE) 4096 (2 ^ 45) 4096 p' lf' lh' /\
    (length lf <= S (length lf'))%nat /\
    (forall x, covers lh' x <-> covers lh x \/ in_range a z x).
Proof.
  destruct Hr as (? & ? & ? & ? & ?).
  pose proof (free_phy_page_small_ok p lf lh a z Hok Hlk Hnode) as Hwp.
  apply wp_run in Hwp as ([] & p' & Hrun & Hlk' & lf' & lh' & Hok' & Hlen & Hcov & _); try done.
  by exists p', lf', lh'.
Qed.

Lemma free_phy_page_small_correct_witness :
  exists p' lf' lh',
    free_phy_page_small 8192 4096 (init_pool 0 MAX_PHY_PAGE_HOLE) = Done (tt, p') /\
    p_lock p' = false /\ cells_ok (whole MAX_PHY_PAGE_HOLE) 4096 (2 ^ 45) 4096 p' lf' lh' /\
    (19 <= length lf')%nat /\
    (forall x, covers lh' x <-> covers ([] : list (cell Z)) x \/ in_range 8192 4096 x).
Proof.
  destruct (init_pool_ok (0 : Z) MAX_PHY_PAGE_HOLE 4096 (2 ^ 45) 4096) as (lf & Hok0 & Hlen);
    [unfold MAX_PHY_PAGE_HOLE; lia|lia|].
  unfold MAX_PHY_PAGE_HOLE in Hlen.
  destruct (free_phy_page_small_correct (init_pool 0 MAX_PHY_PAGE_HOLE) lf [] 8192 4096)
    as (p' & lf' & lh' & Hrun & Hlk & Hok & Hn & Hcov).
  - exact Hok0.
  - reflexivity.
  - destruct lf; [discriminate Hlen|discriminate].
  - repeat split; lia.
  - intros x _ Hc. apply covers_nil in Hc. exact Hc.
  - exists p', lf', lh'. split; [exact Hrun|]. split; [exact Hlk|]. split; [exact Hok|].
    split; [lia|exact Hcov].
Defined.

(** C7: for requests of at most 2M, [alloc_phy_page_small] always returns; a
    non-zero result is a 4K-aligned range of the rounded size that was free,
    and exactly that range leaves the free memory (holes and unclaimed 2M
    pages together); it returns 0 only when no hole is large enough and the
    page source is empty, and then no free byte is lost. *)
Theorem alloc_phy_page_small_correct {T} `{LP : LargePages T} (s : phy_page T) lf lh size0
    (Hok : pp_ok false s lf lh) (Hnode : lf <> [])
    (Hsize : 0 < size0 <= PAGE_SIZE_LARGE) :
  exists r s' lf' lh', alloc_phy_page_small size0 s = Done (r, s') /\
    pp_ok false s' lf' lh' /\
    (r = 0 /\ (forall x, total s' lh' x <-> total s lh x) /\
       Forall (fun c => c_size c < 4096 * ((size0 + 4095) / 4096)) lh /\
       (forall a, lp_reach (pp_src s) a -> ~ lp_free (pp_src s) a) \/
     r mod 4096 = 0 /\ 4096 <= r /\
       (forall x, in_range r (4096 * ((size0 + 4095) / 4096)) x -> total s lh x) /\
       forall x, total s' lh' x <->
         total s lh x /\ ~ in_range r (4096 * ((size0 + 4095) / 4096)) x).
Proof.
  destruct (align_4k_spec size0) as (Heq & _ & _); [lia|unfold PAGE_SIZE_LARGE in *; lia|].
  pose proof (alloc_phy_page_small_ok s lf lh size0 Hok Hnode Hsize) as Hwp.
  apply wp_run in Hwp as (r & s' & Hrun & lf' & lh' & Hok' & _ & _ & Hres).
  exists r, s', lf', lh'. rewrite <- Heq. split; [exact Hrun|]. split; [exact Hok'|].
  destruct Hres as [Hres|(? & ? & _ & ? & ?)]; [by left|by right].
Qed.

Lemma alloc_phy_page_small_correct_witness :
  exists r s' lf' lh',
    alloc_phy_page_small 5000
      (init_phy_page (init_phy_mem (128 * PAGE_SIZE_LARGE) (128 * PAGE_SIZE_LARGE) 0))
      = Done (r, s') /\ pp_ok false s' lf' lh'.
Proof.
  destruct (init_phy_mem_inv (128 * PAGE_SIZE_LARGE) (128 * PAGE_SIZE_LARGE) 0) as [Hinv _];
    [unfold PAGE_SIZE_LARGE; lia|].
  destruct (init_phy_page_ok (LP := phymem_large_pages) (init_phy_mem (128 * PAGE_SIZE_LARGE) (128 * PAGE_SIZE_LARGE) 0) Hinv)
    as (lf & Hok & Hlen).
  destruct (alloc_phy_page_small_correct _ lf [] 5000 Hok) as (r & s' & lf' & lh' & Hrun & Hok' & _).
  - destruct lf; [discriminate Hlen|discriminate].
  - unfold PAGE_SIZE_LARGE. lia.
  - exists r, s', lf', lh'. split; [exact Hrun|exact Hok'].
Defined.

(** Two 2M pages of memory, none of them given to the 4K allocator yet. *)
Definition two_pages : phy_page phymem :=
  match free_phy_pages (PAGE_SIZE_LARGE * 3) (PAGE_SIZE_LARGE * 2)
          (init_phy_mem (128 * PAGE_SIZE_LARGE) (128 * PAGE_SIZE_LARGE) 0) with
  | Done (_, t) => init_phy_page t
  | _ => init_phy_page (init_phy_mem 0 0 0)
  end.

(** Two 2M pages in the bitmap. *)
Lemma two_pages_inv :
  phymem_inv (pp_src two_pages) /\ page_free (pp_src two_pages) 3 /\ searched (pp_src two_pages) 3.
Proof.
  destruct (init_phy_mem_inv (128 * PAGE_SIZE_LARGE) (128 * PAGE_SIZE_LARGE) 0) as [Hinv _];
    [unfold PAGE_SIZE_LARGE; lia|].
  pose proof (free_phy_pages_spec _ 3 2 Hinv) as Hwp. unfold two_pages.
  apply wp_run in Hwp as ([] & t & Hrun & Hinv' & _); [|lia|vm_compute; lia|vm_compute; reflexivity].
  change (PAGE_SIZE_LARGE * 3) with (PAGE_SIZE_LARGE * Z.of_nat 3).
  change (PAGE_SIZE_LARGE * 2) with (PAGE_SIZE_LARGE * Z.of_nat 2).
  split; [|split; vm_compute; [reflexivity|lia]]. rewrite Hrun. exact Hinv'.
Qed.

(** A request for more than 2M is not refused: the refill loop ends at the
    last hole whatever its size, [p->size -= size] wraps, and the allocator
    returns a range it does not own and keeps a hole of almost 2^64 bytes. *)
Theorem alloc_phy_page_small_large_request_underflows :
  exists s' i n,
    alloc_phy_page_small (2 * PAGE_SIZE_LARGE) two_pages = Done (3 * PAGE_SIZE_LARGE, s') /\
    p_nodes (pp_pool s') !! i = Some n /\ p_head (pp_pool s') = Some i /\
    n_size n = 2 ^ 64 - PAGE_SIZE_LARGE.
Proof.
  eexists. exists 0%nat. eexists. split; [vm_compute; reflexivity|].
  split; [vm_compute; reflexivity|]. split; vm_compute; reflexivity.
Qed.
