(* ===== verification/Layout.v ===== *)
(** * Layout: the kernel's virtual address map (include/asm/pgtable.h)

    The constants that divide the address space and the conversions between
    physical addresses, the direct map and the kernel image. *)
From Stdlib Require Import ZArith Lia.
From stdpp Require Import base tactics.
From S2P Require Import Prelude Pages.

Definition IO_MEM_BASE : Z := 0xffffffe800000000.
Definition KERNEL_BASE : Z := 0xffffffff80000000.
Definition PHYS_VIRT_START : Z := 0xFFFF820000000000.
Definition VMALLOC_START : Z := 0xffffc90000000000.
Definition VMALLOC_SIZE : Z := Z.shiftl 32 40.
Definition VMALLOC_END : Z := VMALLOC_START + VMALLOC_SIZE - 1.
Definition LOW_MMAP_START : Z := 0x0000700000000000.
Definition LOW_MMAP_SIZE : Z := Z.shiftl 4 40.
Definition LOW_MMAP_END : Z := LOW_MMAP_START + (LOW_MMAP_SIZE - 1).
Definition KERNEL_STACK_ZONE_SIZE : Z := Z.shiftl 1 40.
Definition KERNEL_STACK_ZONE_START : Z := PHYS_VIRT_START - KERNEL_STACK_ZONE_SIZE.
Definition KERNEL_STACK_ZONE_END : Z := KERNEL_STACK_ZONE_START + (KERNEL_STACK_ZONE_SIZE - 1).
Definition PHYS_VIRT_END : Z := VMALLOC_START - Z.shiftl 1 40 - 1.
Definition KERNEL_BELOW_1G_START : Z := KERNEL_BASE - 0x40000000.
Definition KERNEL_BELOW_1G_END : Z := KERNEL_BASE.
Definition KERNEL_BELOW_1G_SIZE : Z := 0x40000000.

Definition P2K (addr : Z) : Z := wrap64 (addr + KERNEL_BASE).
Definition K2P (addr : Z) : Z := wrap64 (addr - KERNEL_BASE).
Definition IO2V (addr : Z) : Z := wrap64 (addr + IO_MEM_BASE).
Definition P2V (addr : Z) : Z := wrap64 (addr + PHYS_VIRT_START).
(** [__V2P] asserts that its argument is in the direct map. *)
Definition V2P {St} (addr : Z) : M St Z :=
  kassert ((addr <=? PHYS_VIRT_END) && (PHYS_VIRT_START <=? addr)) ;;;
  ret (wrap64 (addr - PHYS_VIRT_START)).
Definition KV2P {St} (addr : Z) : M St Z :=
  if KERNEL_BASE <? addr then ret (wrap64 (addr - KERNEL_BASE)) else V2P addr.

(** Page table entry flags. *)
Definition PTE_P : Z := 0x001.
Definition PTE_W : Z := 0x002.
Definition PTE_U : Z := 0x004.
Definition PTE_PWT : Z := 0x008.
Definition PTE_PCD : Z := 0x010.
Definition PTE_A : Z := 0x020.
Definition PTE_D : Z := 0x040.
Definition PTE_PS : Z := 0x080.
Definition PTE_G : Z := 0x100.

Definition map_flags_rw : Z := Z.lor (Z.lor PTE_P PTE_W) PTE_PS.
Definition map_flags_stack : Z := map_flags_rw.

Definition PML4_SHIFT : Z := 39.
Definition PDP_SHIFT : Z := 30.
Definition PD_SHIFT : Z := 21.
Definition PTE_SHIFT : Z := 12.

(** The physical addresses the direct map can hold. *)
Definition PHYS_LIMIT : Z := 2 ^ 45 + PAGE_SIZE_LARGE.

Lemma P2V_small a : 0 <= a < PHYS_LIMIT -> P2V a = a + PHYS_VIRT_START.
Proof.
  unfold P2V, PHYS_LIMIT, PAGE_SIZE_LARGE, PHYS_VIRT_START. intros Ha. apply wrap64_small. lia.
Qed.

Lemma V2P_P2V {St} a (s : St) (Q : Z -> St -> Prop) :
  0 <= a < PHYS_LIMIT -> Q a s -> wp (V2P (P2V a)) s Q.
Proof.
  intros Ha HQ. rewrite P2V_small by done. unfold V2P. wp_steps.
  unfold PHYS_LIMIT, PAGE_SIZE_LARGE in Ha.
  apply wp_kassert.
  - apply andb_true_intro. split; apply Z.leb_le;
      unfold PHYS_VIRT_END, PHYS_VIRT_START, VMALLOC_START; change (Z.shiftl 1 40) with (2 ^ 40); lia.
  - wp_steps. replace (a + PHYS_VIRT_START - PHYS_VIRT_START) with a by lia.
    rewrite wrap64_small by lia. exact HQ.
Qed.
#[global] Arguments P2V : simpl never.
