(* ===== verification/KHeap.v ===== *)
(** * KHeap: the early kernel heap (kernel/kheap.c)

    Two hole lists over HoleList.v: 4K-aligned memory refilled with 2M pages of
    the direct map, and an unsorted list of small holes refilled with 4K pages
    of the first.  [kalloc] of include/yaos/kheap.h chooses between them. *)
From Stdlib Require Import ZArith Lia.
From stdpp Require Import base tactics gmap list option.
From S2P Require Import Prelude HoleList FreeSet Pages Layout PhyMem PhyPage.
#[export] Set Warnings "-clear-no-such-hyp".

Definition MAX_HEAP_HOLE : nat := 20.
Definition MAX_SMALL_HOLE : nat := 100.
Definition MAX_SMALL_HEAP : Z := 2048.

Definition FUEL4K : nat := S MAX_HEAP_HOLE.
Definition FUEL_SMALL : nat := S MAX_SMALL_HOLE.
#[global] Arguments FUEL4K : simpl never.
#[global] Arguments FUEL_SMALL : simpl never.

Section operations.
Context {T : Type} `{LP : LargePages T}.

Record kheap := KHeap { kh_4k : pool Z; kh_small : pool Z; kh_src : T }.
Definition set_4k (p : pool Z) (s : kheap) : kheap := KHeap p (kh_small s) (kh_src s).
Definition set_small (p : pool Z) (s : kheap) : kheap := KHeap (kh_4k s) p (kh_src s).
Definition set_src (t : T) (s : kheap) : kheap := KHeap (kh_4k s) (kh_small s) t.
Definition on_4k {A} : M (pool Z) A -> M kheap A := zoom kh_4k set_4k.
Definition on_small {A} : M (pool Z) A -> M kheap A := zoom kh_small set_small.
Definition on_src {A} : M T A -> M kheap A := zoom kh_src set_src.

Definition init_kheap (t : T) : kheap :=
  KHeap (init_pool 0 MAX_HEAP_HOLE) (init_pool 0 MAX_SMALL_HOLE) t.

(** Unlike kernel/phy_page.c, the merging branch returns without
    [spin_unlock]. *)
Definition free_kheap_4k (addr size : Z) : M (pool Z) unit :=
  kassert ((Z.land addr 4095 =? 0) && (Z.land size 4095 =? 0)) ;;;
  p <- gets p_free ;;
  match p with
  | None => panic
  | Some _ =>
      spin_lock ;;;
      h <- gets p_head ;;
      ph <- walk FUEL4K (fun a z => wrap64 (a + z) =? addr) h ;;
      match ph with
      | Some _ =>
          n <- deref ph ;;
          put_cell ph (n_addr n) (wrap64 (n_size n + size)) (wrap64 (n_meta n + size))
      | None =>
          new_hole FUEL4K p addr size size ;;;
          spin_unlock
      end
  end.

Definition refill_4k_step (size : Z) (p : option nat) : M kheap (option nat + option nat) :=
  match p with
  | Some _ => ret (inr p)
  | None =>
      on_4k spin_unlock ;;;
      page <- on_src lp_alloc ;;
      let newaddr := P2V page in
      if newaddr =? 0 then ret (inr None)
      else
        on_4k (free_kheap_4k newaddr PAGE_SIZE_LARGE) ;;;
        on_4k spin_lock ;;;
        h <- on_4k (gets p_head) ;;
        p' <- on_4k (walk_last FUEL4K (fun _ z => negb (z <? size)) h) ;;
        ret (inl p')
  end.

Definition alloc_kheap_4k (size0 : Z) : M kheap Z :=
  let size := align_4k size0 in
  on_4k spin_lock ;;;
  h <- on_4k (gets p_head) ;;
  p <- on_4k (walk FUEL4K (fun _ z => negb (z <? size)) h) ;;
  p' <- loop 3 (refill_4k_step size) p ;;
  match p' with
  | None => ret 0
  | Some _ =>
      r <- on_4k (carve FUEL4K drop0 p' size) ;;
      on_4k spin_unlock ;;;
      ret r
  end.

(** New small holes go to the front of the list, unsorted and unmerged. *)
Definition free_kheap_small (addr size : Z) : M (pool Z) unit :=
  kassert ((Z.land addr 4095 =? 0) && (Z.land size 4095 =? 0)) ;;;
  spin_lock ;;;
  p <- gets p_free ;;
  match p with
  | None => panic
  | Some _ =>
      n <- deref p ;;
      modify (set_free (n_next n)) ;;;
      put_cell p addr size size ;;;
      h <- gets p_head ;;
      put_next p h ;;;
      modify (set_head p) ;;;
      spin_unlock
  end.

(** [if (p->size <= 16)]: remainders of at most 16 bytes are dropped. *)
Definition drop16 (z : Z) : bool := z <=? 16.

Definition refill_small_step (size : Z) (p : option nat) : M kheap (option nat + option nat) :=
  match p with
  | Some _ => ret (inr p)
  | None =>
      on_small spin_unlock ;;;
      newaddr <- alloc_kheap_4k 4096 ;;
      if newaddr =? 0 then ret (inr None)
      else
        on_small (free_kheap_small newaddr 4096) ;;;
        on_small spin_lock ;;;
        h <- on_small (gets p_head) ;;
        p' <- on_small (walk FUEL_SMALL (fun _ z => negb (z <? size)) h) ;;
        ret (inl p')
  end.

Definition alloc_kheap_small (size : Z) : M kheap Z :=
  kassert (size <? 4096) ;;;
  on_small spin_lock ;;;
  h <- on_small (gets p_head) ;;
  p <- on_small (walk FUEL_SMALL (fun _ z => negb (z <? size)) h) ;;
  p' <- loop 3 (refill_small_step size) p ;;
  match p' with
  | None => ret 0
  | Some _ =>
      r <- on_small (carve FUEL_SMALL drop16 p' size) ;;
      on_small spin_unlock ;;;
      ret r
  end.

Definition kalloc (size : Z) : M kheap Z :=
  if size <? MAX_SMALL_HEAP then alloc_kheap_small size else alloc_kheap_4k size.
End operations.
#[global] Arguments kheap T : clear implicits.

(** ** Freeing, with and without a merge *)

Local Abbreviation ok := (cells_ok (whole MAX_HEAP_HOLE) 4096 (PHYS_VIRT_END + 1) 4096).

(** A hole of the list ends where the freed range starts. *)
Definition ends_at (a : Z) (c : cell Z) : Prop := c_addr c + c_size c = a.

Lemma kheap_hi : PHYS_VIRT_END + 1 < 2 ^ 64.
Proof. reflexivity. Qed.

(** The prefix both branches of [free_kheap_4k] share. *)
Lemma free_4k_search lf lh s a z Q :
  ok s lf lh -> p_lock s = false -> lf <> [] -> a mod 4096 = 0 -> z mod 4096 = 0 ->
  let s1 := HoleList.set_lock true s in
  (exists l1 i b y m l2, lh = l1 ++ (i, (b, y, m)) :: l2 /\ b + y = a /\
     wp (n <- deref (Some i) ;;
         put_cell (Some i) (n_addr n) (wrap64 (n_size n + z)) (wrap64 (n_meta n + z))) s1 Q) \/
  (Forall (fun c => ~ ends_at a c) lh /\
     wp (new_hole FUEL4K (p_free s) a z z ;;; spin_unlock) s1 Q) ->
  wp (free_kheap_4k a z) s Q.
Proof.
  intros Hok Hlk Hne Ha Hz s1 Hcases. unfold free_kheap_4k.
  rewrite !page_mask_true by done. wp_steps. apply wp_kassert; [done|]. wp_steps.
  pose proof (whole_length _ _ _ _ _ _ _ Hok) as Hlen.
  destruct lf as [|[i c] lf]; [done|].
  pose proof (co_rep _ _ _ _ _ _ _ Hok) as (Hf & Hh & _).
  assert (p_free s = Some i) as Hfree by (destruct c as [[? ?] ?]; exact (proj1 Hf)).
  rewrite Hfree in *. wp_steps. apply wp_spin_lock; [done|]. wp_steps.
  apply (wp_walk _ _ _ _ lh); [exact Hh|unfold FUEL4K; lia|].
  assert (Hwrap : forall l1 j b y m l2, lh = l1 ++ (j, (b, y, m)) :: l2 -> wrap64 (b + y) = b + y).
  { intros l1 j b y m l2 ->. pose proof (co_elem _ _ _ _ _ _ _ _ _ _ _ _ Hok) as (? & ? & ? & _).
    pose proof kheap_hi. apply wrap64_small. lia. }
  destruct (find_cell _ lh) as [j|] eqn:Hfind.
  - apply find_cell_Some in Hfind as (l1 & b & y & m & l2 & Hlh & Hstop%Z.eqb_eq).
    rewrite (Hwrap _ _ _ _ _ _ Hlh) in Hstop.
    destruct Hcases as [(l1' & j' & b' & y' & m' & l2' & Hlh' & Hend & Hwp)|[Hno _]].
    + enough (j' = j) as -> by exact Hwp.
      pose proof (co_ord _ _ _ _ _ _ _ Hok) as Hord.
      eapply ordered_end_unique; [exact Hord|exact Hlh'|exact Hlh|congruence].
    + exfalso. rewrite Hlh in Hno. apply Forall_app in Hno as [_ [Hno _]%list.Forall_cons].
      apply Hno. exact Hstop.
  - apply find_cell_None in Hfind.
    destruct Hcases as [(l1' & j' & b' & y' & m' & l2' & -> & Hend & _)|[_ Hwp]]; [|exact Hwp].
    exfalso. apply Forall_app in Hfind as [_ [Hf1 _]%list.Forall_cons]. cbn in Hf1.
    rewrite (Hwrap _ _ _ _ _ _ eq_refl), Hend, Z.eqb_refl in Hf1. done.
Qed.

Lemma free_kheap_4k_new s lf lh a z :
  ok s lf lh -> p_lock s = false -> lf <> [] ->
  4096 <= a -> 0 < z -> a + z <= PHYS_VIRT_END + 1 -> a mod 4096 = 0 -> z mod 4096 = 0 ->
  (forall x, in_range a z x -> ~ covers lh x) -> Forall (fun c => ~ ends_at a c) lh ->
  wp (free_kheap_4k a z) s (fun _ s' =>
    p_lock s' = false /\ exists lf' lh', ok s' lf' lh' /\
      (length lf <= S (length lf'))%nat /\
      (forall x, covers lh' x <-> covers lh x \/ in_range a z x) /\
      Exists (fun c => z <= c_size c) lh').
Proof.
  intros Hok Hlk Hne Ha Hz Hhi Haa Hza Hdis Hno.
  eapply free_4k_search; try done. right. split; [done|].
  pose proof (whole_length _ _ _ _ _ _ _ Hok) as Hlen.
  destruct lf as [|[i c] lf]; [done|].
  pose proof (co_rep _ _ _ _ _ _ _ Hok) as (Hf & _).
  assert (p_free s = Some i) as -> by (destruct c as [[? ?] ?]; exact (proj1 Hf)).
  assert (Hok1 : ok (HoleList.set_lock true s) ((i, c) :: lf) lh) by (destruct Hok; by split).
  wp_steps. eapply wp_mono.
  { eapply (new_hole_ok _ _ _ 4096); [exact Hok1|by rewrite whole_ids; unfold FUEL4K; lia|..]; try done. }
  intros _ s' (_ & Hok' & Hc). apply wp_modify. split; [done|].
  eexists _, _. split; [destruct Hok'; by split|]. split; [cbn; lia|]. split; [exact Hc|].
  rewrite ins_perm. left. done.
Qed.

(** A merge extends the hole and returns with the lock held. *)
Lemma free_kheap_4k_merge s lf l1 i b y m l2 a z :
  ok s lf (l1 ++ (i, (b, y, m)) :: l2) -> p_lock s = false -> lf <> [] ->
  b + y = a -> 0 < z -> a + z <= PHYS_VIRT_END + 1 -> z mod 4096 = 0 ->
  (forall x, in_range a z x -> ~ covers (l1 ++ (i, (b, y, m)) :: l2) x) ->
  wp (free_kheap_4k a z) s (fun _ s' => p_lock s' = true /\
    exists lh', ok s' lf lh' /\
      forall x, covers lh' x <-> covers (l1 ++ (i, (b, y, m)) :: l2) x \/ in_range a z x).
Proof.
  intros Hok Hlk Hne Hend Hz Hhi Hza Hdis. pose proof kheap_hi.
  pose proof (co_elem _ _ _ _ _ _ _ _ _ _ _ _ Hok) as (? & ? & ? & Hb & Hy).
  assert (a mod 4096 = 0) by (subst a; apply mod_add_0; [lia|done|done]).
  eapply free_4k_search; try done. left. exists l1, i, b, y, m, l2.
  split; [done|]. split; [done|].
  assert (Hok1 : ok (HoleList.set_lock true s) lf (l1 ++ (i, (b, y, m)) :: l2))
    by (destruct Hok; by split).
  apply wp_bind. eapply wp_deref_cell; [apply Hok1|]. intros nx. cbn [n_addr n_size n_meta].
  rewrite (wrap64_small (y + z)) by lia.
  eapply (merge_ok (whole MAX_HEAP_HOLE) 4096 (PHYS_VIRT_END + 1) 4096); [lia|exact Hok1|done|lia|done| |].
  { intros x Hx. apply Hdis. unfold in_range. lia. }
  intros s' Hok' Hlk' Hc. split; [exact Hlk'|].
  eexists. split; [exact Hok'|]. intros x. rewrite Hc. unfold in_range. by subst a.
Qed.

(** ** Allocation of 4K-aligned memory *)
Section allocation.
Context {T : Type} `{LP : LargePages T}.

(** Holes of the heap do not meet the pages still held by the source. *)
Record kh_ok (b : bool) (s : kheap T) (lf lh : list (cell Z)) : Prop := {
  kho_lock : p_lock (kh_4k s) = b;
  kho_cells : ok (kh_4k s) lf lh;
  kho_src : lp_inv (kh_src s);
  kho_dis x p : covers lh x -> lp_free (kh_src s) p -> ~ in_range (P2V p) PAGE_SIZE_LARGE x
}.

Definition kh_total (s : kheap T) (lh : list (cell Z)) (x : Z) : Prop :=
  covers lh x \/ exists p, lp_free (kh_src s) p /\ in_range (P2V p) PAGE_SIZE_LARGE x.

(** No hole ends at the direct-map address of a page of the source: the
    refill would merge and keep the lock. *)
Definition no_adjacent (s : kheap T) (lh : list (cell Z)) : Prop :=
  forall p, lp_free (kh_src s) p -> Forall (fun c => ~ ends_at (P2V p) c) lh.

Lemma direct_map_page (t : T) p :
  lp_inv t -> lp_free t p ->
  P2V p = p + PHYS_VIRT_START /\ 4096 <= P2V p /\
  P2V p + PAGE_SIZE_LARGE <= PHYS_VIRT_END + 1 /\ P2V p mod 4096 = 0 /\ P2V p <> 0.
Proof.
  intros Hinv Hp. destruct (lp_aligned _ _ Hinv Hp) as [Hal Hb].
  assert (P2V p = p + PHYS_VIRT_START) as Heq.
  { apply P2V_small. unfold PHYS_LIMIT, PAGE_SIZE_LARGE. lia. }
  rewrite Heq. split; [done|].
  assert (PHYS_VIRT_START = 68585259008 * 2097152 * 128 * 0 + 0xFFFF820000000000) as Hs by reflexivity.
  assert (PHYS_VIRT_END + 1 = 0xffffc80000000000) as He by reflexivity.
  rewrite He, Hs. unfold PAGE_SIZE_LARGE in *.
  split; [lia|]. split; [lia|]. split; [|lia].
  pose proof (Z.div_mod p 2097152).
  replace (p + (68585259008 * 2097152 * 128 * 0 + 0xFFFF820000000000))
    with ((p / 2097152 * 512 + 0xFFFF820000000) * 4096) by lia.
  apply Z.mod_mul. lia.
Qed.

Lemma refill_4k_loop_ok s lf lh size :
  kh_ok true s lf lh -> lf <> [] -> 0 < size <= PAGE_SIZE_LARGE -> no_adjacent s lh ->
  (find_cell (fits size) lh = None ->
     exists a, lp_reach (kh_src s) a /\ lp_free (kh_src s) a) ->
  wp (loop 3 (refill_4k_step size) (find_cell (fits size) lh)) s (fun r s' =>
    exists i lf' lh', r = Some i /\ kh_ok true s' lf' lh' /\ kh_small s' = kh_small s /\
      find_cell (fits size) lh' = Some i /\ forall x, kh_total s' lh' x <-> kh_total s lh x).
Proof.
  intros [Hlk Hok Hinv Hdis] Hne Hsz Hadj Hsrc. cbn [loop]. apply wp_bind.
  unfold refill_4k_step at 1.
  destruct (find_cell (fits size) lh) as [i|] eqn:Hfind.
  { wp_steps. exists i, lf, lh. split; [done|]. split; [by split|]. done. }
  unfold on_4k, on_src, spin_unlock. wp_steps. cbn.
  eapply wp_mono; [by apply lp_alloc_ok|]. cbn.
  intros r t' [Hinv' [(_ & _ & Hno)|[Hr Hfree]]].
  { destruct (Hsrc eq_refl) as (a & Hreach & Ha). by destruct (Hno a Hreach). }
  destruct (direct_map_page _ _ Hinv Hr) as (Heq & Hr1 & Hr2 & Hr3 & Hr0).
  rewrite (proj2 (Z.eqb_neq (P2V r) 0)) by done. wp_steps. cbn.
  eapply wp_mono; [apply (free_kheap_4k_new _ lf lh)|];
    [by destruct Hok; split|done|done|done|done|done|done|done| |by apply Hadj|].
  { intros x Hx Hc. by apply (Hdis x r Hc Hr). }
  cbn. intros _ p' (Hlk' & lf' & lh' & Hok' & Hlen & Hcov & Hbig). wp_steps. cbn.
  apply wp_spin_lock; [done|]. wp_steps.
  destruct (find_fits_Exists size lh') as [i Hi].
  { eapply list.Exists_impl; [exact Hbig|]. intros c Hc. cbn in Hc. lia. }
  pose proof (whole_length _ _ _ _ _ _ _ Hok') as Hlen'.
  apply (wp_walk_last _ _ _ _ lh'); [apply Hok'|unfold FUEL4K; lia|].
  change (find_last _ lh') with (find_last (fits size) lh').
  rewrite (find_last_cell _ _ _ Hi). wp_steps. cbn.
  exists i, lf', lh'. split; [done|]. split.
  { split; cbn; [done|by destruct Hok'; split|done|].
    intros x q Hc [Hq Hqr]%Hfree. apply Hcov in Hc as [Hc|Hc]; [by apply Hdis|].
    intros Hx. apply Hqr. destruct (direct_map_page _ _ Hinv Hq) as (Heq' & _).
    eapply (pages_disjoint (kh_src s) q r (x - PHYS_VIRT_START)); try done;
      unfold in_range in *; lia. }
  split; [done|]. split; [done|].
  intros x. unfold kh_total. cbn. rewrite Hcov. setoid_rewrite Hfree. split.
  - intros [[Hc|Hc]|(p & [Hp _] & Hx)]; [by left|right; by exists r|right; by exists p].
  - intros [Hc|(p & Hp & Hx)]; [by left; left|].
    destruct (decide (p = r)) as [->|Hpr]; [left; by right|right; by exists p].
Qed.

Lemma alloc_kheap_4k_ok s lf lh size0 :
  kh_ok false s lf lh -> lf <> [] -> 0 < size0 <= PAGE_SIZE_LARGE -> no_adjacent s lh ->
  let size := align_4k size0 in
  (find_cell (fits size) lh = None ->
     exists a, lp_reach (kh_src s) a /\ lp_free (kh_src s) a) ->
  wp (alloc_kheap_4k size0) s (fun r s' =>
    exists lf' lh', kh_ok false s' lf' lh' /\ kh_small s' = kh_small s /\
      r mod 4096 = 0 /\ 4096 <= r /\
      (forall x, in_range r size x -> kh_total s lh x) /\
      forall x, kh_total s' lh' x <-> kh_total s lh x /\ ~ in_range r size x).
Proof.
  intros [Hlk Hok Hinv Hdis] Hne Hsz0 Hadj. cbn zeta. intros Hsrc.
  destruct (align_4k_spec size0) as (Heq & Hge & Hmod); [lia|unfold PAGE_SIZE_LARGE in *; lia|].
  assert (0 < align_4k size0 <= PAGE_SIZE_LARGE) as Hsz.
  { split; [lia|]. rewrite Heq. unfold PAGE_SIZE_LARGE in *.
    pose proof (Z.div_le_mono (size0 + 4095) (2097152 + 4095) 4096). cbn in *. lia. }
  set (size := align_4k size0) in *.
  unfold alloc_kheap_4k. fold size. unfold on_4k at 1 2 3. wp_steps. cbn.
  apply wp_spin_lock; [done|]. wp_steps. cbn.
  pose proof (whole_length _ _ _ _ _ _ _ Hok) as Hlen.
  apply (wp_walk _ _ _ _ lh); [apply Hok|unfold FUEL4K; lia|].
  change (find_cell _ lh) with (find_cell (fits size) lh). cbn.
  apply wp_bind. eapply wp_mono; [apply (refill_4k_loop_ok _ lf lh); [|done|done|done|done]|].
  { split; cbn; [done|by destruct Hok; split|done|done]. }
  cbn. intros r s1 (i & lf1 & lh1 & -> & [Hlk1 Hok1 Hinv1 Hdis1] & Hsm & Hfind & Htot).
  assert (forall x, kh_total s1 lh1 x <-> kh_total s lh x) as Htot' by exact Htot. clear Htot.
  apply find_cell_Some in Hfind as (l1 & a & z & x0 & l2 & -> & Hfit).
  assert (size <= z) as Hz by (unfold fits in Hfit; destruct (Z.ltb_spec z size); done).
  pose proof (co_elem _ _ _ _ _ _ _ _ _ _ _ _ Hok1) as (Ha1 & _ & Ha2 & Ha3 & _).
  unfold on_4k. wp_steps. eapply wp_mono.
  { eapply (carve_ok (whole MAX_HEAP_HOLE) 4096 (PHYS_VIRT_END + 1) 4096); try exact Hok1;
      try (rewrite ?whole_ids; unfold FUEL4K; lia); reflexivity. }
  cbn. intros r p2 (-> & Hlk2 & lf2 & lh2 & Hok2 & Hsuf2 & Hcov2).
  pose proof (suffix_length _ _ Hsuf2) as Hlen2. unfold spin_unlock. wp_steps.
  cbn. exists lf2, lh2.
  assert (forall x, in_range a size x -> covers (l1 ++ (i, (a, z, x0)) :: l2) x) as Hin.
  { intros x Hx. apply covers_app. right. apply covers_cons. left.
    unfold c_addr, c_size, in_range in *. cbn. lia. }
  split.
  { split; cbn; [done|by destruct Hok2; split|done|].
    intros x p Hc. apply Hdis1. apply Hcov2 in Hc. tauto. }
  split; [exact Hsm|]. split; [done|]. split; [done|].
  split; [intros x Hx; apply Htot'; left; by apply Hin|].
  intros x. rewrite <- Htot'. unfold kh_total. cbn. rewrite Hcov2. split.
  - intros [[Hc Hx]|(p & Hp & Hx)]; [by split; [left|]|].
    split; [right; by exists p|]. intros Hr. by apply (Hdis1 x p); [apply Hin| |].
  - intros [[Hc|Hp] Hx]; [by left|by right].
Qed.
End allocation.

(** ** Properties *)

(** C8: freeing a range that extends a hole leaves [spin_4k] held: the memory
    is merged, and from then on every [alloc_kheap_4k] and every further
    [free_kheap_4k] spins for ever. *)
Theorem free_kheap_4k_merge_deadlocks {T} `{LP : LargePages T} (s : kheap T)
    lf l1 i b y m l2 z
    (Hok : cells_ok (whole MAX_HEAP_HOLE) 4096 (PHYS_VIRT_END + 1) 4096 (kh_4k s) lf
             (l1 ++ (i, (b, y, m)) :: l2))
    (Hlk : p_lock (kh_4k s) = false) (Hnode : lf <> [])
    (Hz : 0 < z /\ b + y + z <= PHYS_VIRT_END + 1 /\ z mod 4096 = 0)
    (Hdis : forall x, in_range (b + y) z x -> ~ covers (l1 ++ (i, (b, y, m)) :: l2) x) :
  exists p', free_kheap_4k (b + y) z (kh_4k s) = Done (tt, p') /\ p_lock p' = true /\
    (exists lh', cells_ok (whole MAX_HEAP_HOLE) 4096 (PHYS_VIRT_END + 1) 4096 p' lf lh' /\
       forall x, covers lh' x <->
         covers (l1 ++ (i, (b, y, m)) :: l2) x \/ in_range (b + y) z x) /\
    (forall n, alloc_kheap_4k n (set_4k p' s) = Deadlock) /\
    (forall a n, a mod 4096 = 0 -> n mod 4096 = 0 -> free_kheap_4k a n p' = Deadlock).
Proof.
  destruct Hz as (Hz & Hhi & Hzm).
  pose proof (free_kheap_4k_merge (kh_4k s) lf l1 i b y m l2 (b + y) z Hok Hlk Hnode eq_refl
    Hz Hhi Hzm Hdis) as Hwp.
  apply wp_run in Hwp as ([] & p' & Hrun & Hlk' & lh' & Hok' & Hcov).
  exists p'. split; [exact Hrun|]. split; [done|]. split; [by exists lh'|]. split.
  - intros n. unfold alloc_kheap_4k, on_4k, bind, zoom, spin_lock. cbn. by rewrite Hlk'.
  - intros a n Ha Hn. unfold free_kheap_4k, bind, kassert.
    rewrite !page_mask_true by done. cbn.
    destruct lf as [|[j c] lf]; [done|].
    pose proof (co_rep _ _ _ _ _ _ _ Hok') as (Hf & _).
    assert (p_free p' = Some j) as -> by (destruct c as [[? ?] ?]; exact (proj1 Hf)).
    unfold spin_lock. by rewrite Hlk'.
Qed.

(** A heap that owns one page of the direct map, in some hole that ends with it. *)
Lemma one_page_heap :
  exists p lf l1 i b y m l2,
    cells_ok (whole MAX_HEAP_HOLE) 4096 (PHYS_VIRT_END + 1) 4096 p lf (l1 ++ (i, (b, y, m)) :: l2) /\
    p_lock p = false /\ lf <> [] /\ b + y = P2V 12288 /\
    forall x, covers (X := Z) (l1 ++ (i, (b, y, m)) :: l2) x <-> in_range (P2V 8192) 4096 x.
Proof.
  assert (P2V 8192 = 0xFFFF820000002000 /\ P2V 12288 = 0xFFFF820000003000 /\
    PHYS_VIRT_END + 1 = 0xffffc80000000000) as (He1 & He2 & He3) by done.
  destruct (init_pool_ok (0 : Z) MAX_HEAP_HOLE 4096 (PHYS_VIRT_END + 1) 4096) as (lf & Hok & Hlen);
    [unfold MAX_HEAP_HOLE; lia|rewrite He3; lia|].
  assert (p_lock (init_pool 0 MAX_HEAP_HOLE) = false) as Hlk0 by reflexivity.
  revert Hok Hlk0. generalize (init_pool 0 MAX_HEAP_HOLE). intros p0 Hok Hlk0.
  pose proof (free_kheap_4k_new p0 lf [] (P2V 8192) 4096 Hok Hlk0) as Hwp.
  assert (lf <> []) as Hne by (intros ->; discriminate Hlen).
  apply wp_run in Hwp as ([] & p & _ & Hlk & lf' & lh & Hok' & Hn & Hcov & _);
    [|done|rewrite He1; lia|lia|rewrite He1, He3; lia|by rewrite He1|done
     |intros x _; rewrite covers_nil; tauto|constructor].
  assert (forall x, covers lh x <-> in_range (P2V 8192) 4096 x) as Hcov'.
  { intros x. rewrite Hcov, covers_nil. tauto. }
  destruct (proj2 (Hcov' (P2V 12288 - 1))) as (c & Hc & Hx).
  { unfold in_range. rewrite He1, He2. lia. }
  assert (c_addr c + c_size c = P2V 12288) as Hend.
  { destruct (decide (c_addr c + c_size c = P2V 12288)) as [|Hne']; [done|]. exfalso.
    assert (covers lh (P2V 12288)) as [_ Hlt]%Hcov' by (exists c; split; [done|lia]).
    rewrite He1, He2 in Hlt. lia. }
  apply list_elem_of_split in Hc as (l1 & l2 & ->). destruct c as [i [[b y] m]].
  exists p, lf', l1, i, b, y, m, l2. split; [done|]. split; [done|].
  split; [|split; [exact Hend|exact Hcov']].
  intros ->. unfold MAX_HEAP_HOLE in Hlen. cbn in Hn. lia.
Qed.

Lemma free_kheap_4k_merge_deadlocks_witness :
  exists p p', free_kheap_4k (P2V 12288) 4096 p = Done (tt, p') /\ p_lock p = false /\
    p_lock p' = true.
Proof.
  destruct one_page_heap as (p & lf & l1 & i & b & y & m & l2 & Hok & Hlk & Hne & Hend & Hcov).
  destruct (free_kheap_4k_merge_deadlocks
    (KHeap p (init_pool 0 MAX_SMALL_HOLE) (init_phy_mem 0 0 0))
    lf l1 i b y m l2 4096 Hok Hlk Hne) as (p' & Hrun & Hlk' & _).
  - split; [reflexivity|]. split; [rewrite Hend; vm_compute; discriminate|reflexivity].
  - intros x Hx Hc. apply Hcov in Hc. rewrite Hend in Hx. unfold in_range in *.
    assert (P2V 12288 = P2V 8192 + 4096) as Heq by reflexivity. rewrite Heq in Hx. lia.
  - exists p, p'. rewrite Hend in Hrun. split; [exact Hrun|]. split; [exact Hlk|exact Hlk'].
Defined.

(** C9: for requests of at most 2M, with a hole large enough or a page left in
    the source, and no hole that ends where one of the source's pages starts,
    [alloc_kheap_4k] returns a 4K-aligned range of the rounded size, and exactly
    that range leaves the free memory.  Without a page left it hands out the page
    at physical 0 ([alloc_kheap_4k_out_of_memory_page_zero]); a hole that ends at
    the page makes the refill merge, and that deadlocks
    ([free_kheap_4k_merge_deadlocks]). *)
Theorem alloc_kheap_4k_correct {T} `{LP : LargePages T} (s : kheap T) lf lh size0
    (Hok : kh_ok false s lf lh) (Hnode : lf <> [])
    (Hsize : 0 < size0 <= PAGE_SIZE_LARGE)
    (Hadj : no_adjacent s lh)
    (Hsrc : Exists (fun c => 4096 * ((size0 + 4095) / 4096) <= c_size c) lh \/
            exists a, lp_reach (kh_src s) a /\ lp_free (kh_src s) a) :
  exists r s' lf' lh', alloc_kheap_4k size0 s = Done (r, s') /\ kh_ok false s' lf' lh' /\
    r mod 4096 = 0 /\ 4096 <= r /\
    (forall x, in_range r (4096 * ((size0 + 4095) / 4096)) x -> kh_total s lh x) /\
    forall x, kh_total s' lh' x <->
      kh_total s lh x /\ ~ in_range r (4096 * ((size0 + 4095) / 4096)) x.
Proof.
  destruct (align_4k_spec size0) as (Heq & _ & _); [lia|unfold PAGE_SIZE_LARGE in *; lia|].
  pose proof (alloc_kheap_4k_ok s lf lh size0 Hok Hnode Hsize Hadj) as Hwp. cbn zeta in Hwp.
  rewrite Heq in Hwp.
  apply wp_run in Hwp as (r & s' & Hrun & lf' & lh' & Hok' & _ & Hm & Hr & Hin & Htot).
  - exists r, s', lf', lh'. done.
  - intros Hnone. destruct Hsrc as [Hex|?]; [|done].
    destruct (find_fits_Exists _ _ Hex) as [i Hi]. congruence.
Qed.

Lemma alloc_kheap_4k_correct_witness :
  exists r s' lf' lh', alloc_kheap_4k 5000 (init_kheap (pp_src two_pages)) = Done (r, s') /\
    kh_ok false s' lf' lh' /\ r mod 4096 = 0.
Proof.
  destruct two_pages_inv as (Hinv & Hfree & Hreach).
  destruct (init_pool_ok (0 : Z) MAX_HEAP_HOLE 4096 (PHYS_VIRT_END + 1) 4096) as (lf & Hok & Hlen);
    [unfold MAX_HEAP_HOLE; lia|vm_compute; discriminate|].
  destruct (alloc_kheap_4k_correct (LP := phymem_large_pages) (init_kheap (pp_src two_pages))
    lf [] 5000) as (r & s' & lf' & lh' & Hrun & Hok' & Hm & _).
  - split; [reflexivity|exact Hok|exact Hinv|]. intros x p Hc. by apply covers_nil in Hc.
  - destruct lf; [discriminate Hlen|discriminate].
  - unfold PAGE_SIZE_LARGE. lia.
  - intros p _. constructor.
  - right. exists (PAGE_SIZE_LARGE * 3). split; (exists 3%nat; split; [reflexivity|]); assumption.
  - exists r, s', lf', lh'. split; [exact Hrun|]. split; [exact Hok'|exact Hm].
Defined.

(** When physical memory is exhausted the heap does not fail: [P2V(0)] is
    not 0, so [alloc_kheap_4k] hands out physical page zero. *)
Theorem alloc_kheap_4k_out_of_memory_page_zero :
  alloc_phy_page (init_phy_mem (128 * PAGE_SIZE_LARGE) (128 * PAGE_SIZE_LARGE) 0) =
    Done (0, init_phy_mem (128 * PAGE_SIZE_LARGE) (128 * PAGE_SIZE_LARGE) 0) /\
  exists s', alloc_kheap_4k 4096
      (init_kheap (init_phy_mem (128 * PAGE_SIZE_LARGE) (128 * PAGE_SIZE_LARGE) 0)) =
    Done (PHYS_VIRT_START, s').
Proof.
  split; [vm_compute; reflexivity|]. eexists. vm_compute. reflexivity.
Qed.
