(* ===== verification/PgTable.v ===== *)
(** * PgTable: the four-level page tables (arch/x86_64/pgtable.c)

    Physical memory is a function from addresses to 64-bit words; the tables
    are reached, as in the code, through the direct map ([P2V]).  [mmu] is the
    processor's walk, independent of the code; the theorems say how each mapping
    operation changes what it computes. *)
From Stdlib Require Import ZArith Lia.
From stdpp Require Import base tactics list option.
From S2P Require Import Prelude Pages Layout PhyMem PhyPage.
#[export] Set Warnings "-clear-no-such-hyp".

Definition OK : Z := 0.
Definition EINVAL : Z := 22.
Definition ENOMEM : Z := 12.
Definition NUMBER_1G : Z := 0x40000000.
Definition PAGE_2M_MASK : Z := 0x1FFFFF.
Definition PAGE_2M_SIZE : Z := 0x200000.

(** Index of an entry: [(addr >> SHIFT) & 511]. *)
Definition pt_index (shift addr : Z) : Z := Z.land (Z.shiftr addr shift) 511.
Definition page_mask (e : Z) : Z := Z.land e (lnot64 4095).
Definition has_flags (e fl : Z) : bool := Z.land e fl =? fl.

(** [ret_t] of include/yaos/rett.h. *)
Record ret_t := RetT { r_v : Z; r_e : Z }.

(** Physical words; [upd] is one store, [fill] the remapping loops, [zero4k]
    [memset(p, 0, 4096)]. *)
Definition memory : Type := Z -> Z.
Definition upd (a v : Z) (m : memory) : memory := fun x => if x =? a then v else m x.
Definition zero4k (p : Z) (m : memory) : memory :=
  fun x => if (p <=? x) && (x <? p + 4096) then 0 else m x.
Fixpoint fill (n : nat) (p base step fl : Z) (m : memory) : memory :=
  match n with
  | O => m
  | S n' => fill n' (p + 8) (base + step) step fl (upd p (Z.lor base fl) m)
  end.

Section operations.
Context {T : Type} `{FA : FrameAlloc T}.

Record mm := MM {
  ram : memory;
  pml4 : Z;               (* K2P(&pml4) *)
  frames : T;
  tlb : list Z            (* the addresses invalidated so far, newest first *)
}.
Definition set_ram (m : memory) (s : mm) : mm := MM m (pml4 s) (frames s) (tlb s).
Definition set_frames (t : T) (s : mm) : mm := MM (ram s) (pml4 s) t (tlb s).
Definition set_tlb (l : list Z) (s : mm) : mm := MM (ram s) (pml4 s) (frames s) l.
Definition on_frames {A} : M T A -> M mm A := zoom frames set_frames.

(** Access through a direct-map pointer. *)
Definition phys_of (v : Z) : M mm Z :=
  if (PHYS_VIRT_START <=? v) && (v <=? PHYS_VIRT_END) then ret (v - PHYS_VIRT_START) else fault.
Definition load (v : Z) : M mm Z := p <- phys_of v ;; gets (fun s => ram s p).
Definition store (v x : Z) : M mm unit :=
  p <- phys_of v ;; modify (fun s => set_ram (upd p x (ram s)) s).
Definition memset0 (v : Z) : M mm unit :=
  p <- phys_of v ;; modify (fun s => set_ram (zero4k p (ram s)) s).
(** [for (n = 0; n < 512; n++) { t->e[n] = base | fl; base += step; }] *)
Definition fill_table (v base step fl : Z) : M mm unit :=
  p <- phys_of v ;; modify (fun s => set_ram (fill 512 p base step fl (ram s)) s).
(** The static [pml4] is accessed directly. *)
Definition load_pml4 (i : Z) : M mm Z := gets (fun s => ram s (pml4 s + 8 * i)).
Definition store_pml4 (i x : Z) : M mm unit :=
  modify (fun s => set_ram (upd (pml4 s + 8 * i) x (ram s)) s).
Definition flush_tlb_one_page (v : Z) : M mm unit := modify (fun s => set_tlb (v :: tlb s) s).
Definition alloc_phy_page_small_4096 : M mm Z := on_frames sp_alloc.

(** [p = P2V(alloc_phy_page_small(4096)); ASSERT(aligned); if (!p) ...;
    memset(p, 0, 4096);]: the pointer of a cleared table, 0 on failure. *)
Definition new_table : M mm Z :=
  a <- alloc_phy_page_small_4096 ;;
  let p := P2V a in
  kassert (Z.land p 4095 =? 0) ;;;
  if p =? 0 then ret 0
  else memset0 p ;;; ret p.

(** One level of [build_pte_with_addr]: the table entry [x] of [t] points to,
    made when missing. *)
Definition next_table (t x : Z) : M mm Z :=
  e <- load (t + 8 * x) ;;
  if page_mask e =? 0 then
    p <- new_table ;;
    if p =? 0 then ret 0
    else
      pa <- V2P p ;;
      store (t + 8 * x) (Z.lor (Z.lor pa PTE_P) PTE_W) ;;;
      ret p
  else ret (P2V (page_mask e)).

(** The address of the PD entry of [addr], building the tables on the way. *)
Definition build_pte_with_addr (addr : Z) : M mm Z :=
  let i := pt_index PML4_SHIFT addr in
  let j := pt_index PDP_SHIFT addr in
  let k := pt_index PD_SHIFT addr in
  pml4base <- gets (fun s => page_mask (pml4 s)) ;;
  p_pdp <- next_table (P2V pml4base) i ;;
  if p_pdp =? 0 then ret 0
  else
    p_pd <- next_table p_pdp j ;;
    if p_pd =? 0 then ret 0
    else ret (p_pd + 8 * k).

Definition get_pte_with_addr (addr : Z) : M mm Z :=
  let i := pt_index PML4_SHIFT addr in
  let j := pt_index PDP_SHIFT addr in
  let k := pt_index PD_SHIFT addr in
  pml4base <- gets (fun s => page_mask (pml4 s)) ;;
  e4 <- load (P2V pml4base + 8 * i) ;;
  if page_mask e4 =? 0 then ret 0
  else
    e3 <- load (P2V (page_mask e4) + 8 * j) ;;
    if page_mask e3 =? 0 then ret 0
    else ret (P2V (page_mask e3) + 8 * k).

(** The PDP table of slot [i] of the static [pml4], made when missing: the
    first part of [map_1g_page_p2v] and of [map_page_p2v]. *)
Definition pdp_for_map (i : Z) : M mm Z :=
  e4 <- load_pml4 i ;;
  if page_mask e4 =? 0 then
    p <- new_table ;;
    if p =? 0 then ret 0
    else
      pa <- V2P p ;;
      store_pml4 i (Z.lor (Z.lor (Z.lor pa PTE_P) PTE_W) PTE_U) ;;;
      ret p
  else ret (P2V (page_mask e4)).

(** The page directory of slot [j], made when missing, and made of 512 2M
    entries when the slot maps a 1G page: the second part of [map_page_p2v]. *)
Definition pd_for_map (p_pdp j : Z) : M mm Z :=
  e3 <- load (p_pdp + 8 * j) ;;
  if e3 =? 0 then
    p <- new_table ;;
    if p =? 0 then ret 0
    else
      pa <- V2P p ;;
      store (p_pdp + 8 * j) (Z.lor (Z.lor (Z.lor pa PTE_P) PTE_W) PTE_U) ;;;
      ret p
  else if negb (Z.land e3 PTE_PS =? 0) then
    a <- alloc_phy_page_small_4096 ;;
    let p := P2V a in
    kassert (Z.land p 4095 =? 0) ;;;
    if p =? 0 then ret 0
    else
      fill_table p (page_mask e3) PAGE_SIZE_LARGE (Z.land e3 4095) ;;;
      pa <- V2P p ;;
      store (p_pdp + 8 * j) (Z.lor (Z.lor (Z.lor pa PTE_P) PTE_W) PTE_U) ;;;
      ret p
  else ret (page_mask (P2V e3)).


Definition map_1g_page_p2v (paddr vaddr flag : Z) : M mm Z :=
  kassert (Z.land vaddr (NUMBER_1G - 1) =? 0) ;;;
  kassert (Z.land paddr 4095 =? 0) ;;;
  kassert (Z.land flag (lnot64 4095) =? 0) ;;;
  let i := pt_index PML4_SHIFT vaddr in
  let j := pt_index PDP_SHIFT vaddr in
  p_pdp <- pdp_for_map i ;;
  if p_pdp =? 0 then ret ENOMEM
  else
    store (p_pdp + 8 * j) (Z.lor paddr flag) ;;;
    ret OK.

Definition FLAGS_SHOWN : Z :=
  Z.lor PTE_PWT (Z.lor PTE_PCD (Z.lor PTE_U (Z.lor PTE_W (Z.lor PTE_P (Z.lor PTE_PS PTE_G))))).

Definition map_flags_at (vaddr : Z) : M mm Z :=
  pte <- get_pte_with_addr (Z.land vaddr (lnot64 PAGE_2M_MASK)) ;;
  if pte =? 0 then ret 0
  else
    e <- load pte ;;
    if negb (Z.land e PTE_PS =? 0) then ret (Z.land e FLAGS_SHOWN)
    else
      e1 <- load (page_mask (P2V e) + 8 * pt_index PTE_SHIFT vaddr) ;;
      ret (Z.land e1 FLAGS_SHOWN).

Definition map_paddr_flags_at (vaddr : Z) : M mm ret_t :=
  pte <- get_pte_with_addr (Z.land vaddr (lnot64 PAGE_2M_MASK)) ;;
  if pte =? 0 then ret (RetT 0 0)
  else
    e <- load pte ;;
    if has_flags e (Z.lor PTE_PS PTE_P) then
      ret (RetT (wrap64 (page_mask e + Z.land vaddr PAGE_2M_MASK)) (Z.land e FLAGS_SHOWN))
    else
      e1 <- load (page_mask (P2V e) + 8 * pt_index PTE_SHIFT vaddr) ;;
      ret (RetT (wrap64 (page_mask e1 + Z.land vaddr 4095)) (Z.land e1 FLAGS_SHOWN)).

Definition get_phy_addr (vaddr : Z) : M mm Z :=
  r <- map_paddr_flags_at vaddr ;; ret (r_v r).

(** The page table behind the PD entry at [pte], lines 323-352: a 2M mapping
    is split, a missing table is allocated (and, unlike the other tables, not
    cleared). *)
Definition pt_for_map (pte : Z) : M mm Z :=
  e <- load pte ;;
  if has_flags e (Z.lor PTE_PS PTE_P) then
    a <- alloc_phy_page_small_4096 ;;
    let p := P2V a in
    kassert (Z.land p 4095 =? 0) ;;;
    if p =? 0 then ret 0
    else
      fill_table p (page_mask e) PAGE_4K_SIZE (Z.lor (Z.lor PTE_P PTE_W) PTE_G) ;;;
      pa <- V2P p ;;
      store pte (Z.lor pa (Z.lor PTE_P PTE_W)) ;;;
      ret p
  else
    ok <- (if Z.land e PTE_P =? 0 then
             kassert (page_mask e =? 0) ;;;
             a <- alloc_phy_page_small_4096 ;;
             store pte a ;;;
             kassert (Z.land a 4095 =? 0) ;;;
             if a =? 0 then ret false
             else store pte (Z.lor a (Z.lor PTE_W PTE_P)) ;;; ret true
           else ret true) ;;
    if (ok : bool) then
      e' <- load pte ;;
      ret (page_mask (P2V e'))
    else ret 0.

Definition map_4k_page_p2v (paddr vaddr flag : Z) : M mm Z :=
  kassert (Z.land paddr 4095 =? 0) ;;;
  kassert (Z.land vaddr 4095 =? 0) ;;;
  kassert (Z.land flag (lnot64 4095) =? 0) ;;;
  pte <- build_pte_with_addr (Z.land vaddr (lnot64 PAGE_2M_MASK)) ;;
  if pte =? 0 then ret ENOMEM
  else
    p <- pt_for_map pte ;;
    if p =? 0 then ret ENOMEM
    else
      store (p + 8 * pt_index PTE_SHIFT vaddr)
        (Z.lor (Z.lor paddr (Z.land flag (lnot64 PTE_PS))) PTE_G) ;;;
      flush_tlb_one_page vaddr ;;;
      ret OK.

Definition map_page_p2v (paddr vaddr flag : Z) : M mm Z :=
  kassert (Z.land vaddr (PAGE_SIZE_LARGE - 1) =? 0) ;;;
  kassert (Z.land paddr (PAGE_SIZE_LARGE - 1) =? 0) ;;;
  kassert (Z.land flag (lnot64 4095) =? 0) ;;;
  let i := pt_index PML4_SHIFT vaddr in
  let j := pt_index PDP_SHIFT vaddr in
  let k := pt_index PD_SHIFT vaddr in
  p_pdp <- pdp_for_map i ;;
  if p_pdp =? 0 then ret ENOMEM
  else
    pd <- pd_for_map p_pdp j ;;
    if pd =? 0 then ret ENOMEM
    else
      store (pd + 8 * k) (Z.lor paddr flag) ;;;
      flush_tlb_one_page vaddr ;;;
      ret OK.

(** [while (more(len)) { if ((ret = f(paddr, vaddr)) != OK) return ret;
    paddr += step; vaddr += step; len += step; }]: the error, or the
    advanced cursor. *)
Fixpoint map_run (fuel : nat) (f : Z -> Z -> M mm Z) (step : Z) (more : Z -> bool)
    (paddr vaddr len : Z) : M mm (Z + (Z * Z * Z)) :=
  if more len then
    match fuel with
    | O => out_of_fuel
    | S fuel' =>
        r <- f paddr vaddr ;;
        if r =? OK then
          map_run fuel' f step more (wrap64 (paddr + step)) (wrap64 (vaddr + step)) (len + step)
        else ret (inl r)
    end
  else ret (inr (paddr, vaddr, len)).

(** Enough iterations for [size] bytes in steps of at least 4K. *)
Definition map_fuel (size : Z) : nat := Z.to_nat (size / 4096 + 2).

Definition map_p2v (paddr vaddr size flag : Z) : M mm Z :=
  let fuel := map_fuel size in
  let off := Z.land vaddr PAGE_2M_MASK in
  x <- (if off =? 0 then ret (inr (paddr, vaddr, 0))
        else
          let mapsize := Z.min size (PAGE_2M_SIZE - off) in
          map_run fuel (fun p v => map_4k_page_p2v p v flag) PAGE_4K_SIZE
            (fun len => len <? mapsize) paddr vaddr 0) ;;
  match x with
  | inl e => ret e
  | inr (p1, v1, len1) =>
      y <- (if PAGE_SIZE_LARGE <=? wrap64 (size - len1) then
              map_run fuel (fun p v => map_page_p2v p v flag) PAGE_SIZE_LARGE
                (fun len => len <=? wrap64 (size - PAGE_SIZE_LARGE)) p1 v1 len1
            else ret (inr (p1, v1, len1))) ;;
      match y with
      | inl e => ret e
      | inr (p2, v2, len2) =>
          z <- map_run fuel (fun p v => map_4k_page_p2v p v flag) PAGE_4K_SIZE
                 (fun len => len <? size) p2 v2 len2 ;;
          match z with
          | inl e => ret e
          | inr _ => ret OK
          end
      end
  end.

Fixpoint copy_loop (fuel : nat) (vaddr oldaddr vend : Z) : M mm Z :=
  if oldaddr <? vend then
    match fuel with
    | O => out_of_fuel
    | S fuel' =>
        af <- map_paddr_flags_at oldaddr ;;
        if r_v af =? 0 then ret EINVAL
        else
          r <- map_4k_page_p2v (r_v af) vaddr (r_e af) ;;
          if r =? OK
          then copy_loop fuel' (wrap64 (vaddr + PAGE_4K_SIZE)) (wrap64 (oldaddr + PAGE_4K_SIZE)) vend
          else ret ENOMEM
    end
  else ret OK.
Definition map_copy_map (vaddr oldaddr size : Z) : M mm Z :=
  if size =? 0 then ret OK
  else copy_loop (map_fuel size) vaddr oldaddr (wrap64 (oldaddr + size)).

(** The inner loop of [unmap_free_at_impl] over one page table: frees and
    clears entry after entry; the result is [len]. *)
Fixpoint unmap_4k_loop (fuel : nat) (isfree : bool) (pte vaddr size k len : Z) : M mm Z :=
  if len <? size then
    match fuel with
    | O => out_of_fuel
    | S fuel' =>
        e <- load (pte + 8 * k) ;;
        let paddr := page_mask e in
        (if paddr =? 0 then panic else ret tt) ;;;
        (if isfree then on_frames (fa_free_small paddr PAGE_4K_SIZE) else ret tt) ;;;
        flush_tlb_one_page (wrap64 (vaddr + len)) ;;;
        store (pte + 8 * k) 0 ;;;
        if 512 <=? k + 1 then ret (len + PAGE_4K_SIZE)
        else unmap_4k_loop fuel' isfree pte vaddr size (k + 1) (len + PAGE_4K_SIZE)
    end
  else ret len.

Fixpoint unmap_free_at_impl (fuel : nat) (vaddr size : Z) (isfree : bool) : M mm unit :=
  match fuel with
  | O => out_of_fuel
  | S fuel' =>
      if size =? 0 then ret tt
      else
        let align2Mvaddr := Z.land vaddr (lnot64 PAGE_2M_MASK) in
        pteaddr <- get_pte_with_addr align2Mvaddr ;;
        (if pteaddr =? 0 then panic else ret tt) ;;;
        e <- load pteaddr ;;
        (if e =? 0 then panic else ret tt) ;;;
        if has_flags e (Z.lor PTE_PS PTE_P) && (align2Mvaddr =? vaddr) && (PAGE_SIZE_LARGE <=? size)
        then
          (if isfree then on_frames (fa_free_large (Z.land e (lnot64 PAGE_2M_MASK)))
           else ret tt) ;;;
          store pteaddr 0 ;;;
          flush_tlb_one_page vaddr ;;;
          unmap_free_at_impl fuel' (wrap64 (vaddr + PAGE_SIZE_LARGE)) (size - PAGE_SIZE_LARGE) isfree
        else
          pte <- (if has_flags e (Z.lor PTE_PS PTE_P) then
                    a <- alloc_phy_page_small_4096 ;;
                    let p := P2V a in
                    kassert (Z.land p 4095 =? 0) ;;;
                    if p =? 0 then ret 0
                    else
                      fill_table p (page_mask e) PAGE_4K_SIZE (Z.land (Z.land e 4095) (lnot64 PTE_PS)) ;;;
                      pa <- V2P p ;;
                      store pteaddr (Z.lor pa (Z.lor (Z.lor PTE_P PTE_W) PTE_U)) ;;;
                      ret p
                  else ret (P2V (page_mask e))) ;;
          if pte =? 0 then ret tt
          else
            len <- unmap_4k_loop 512 isfree pte vaddr size (pt_index PTE_SHIFT vaddr) 0 ;;
            if len <? size
            then unmap_free_at_impl fuel' (wrap64 (vaddr + len)) (size - len) isfree
            else ret tt
  end.

Definition unmap_fuel (size : Z) : nat := S (map_fuel size).
Definition unmap_at (addr size : Z) : M mm unit :=
  unmap_free_at_impl (unmap_fuel size) addr size false.
Definition unmap_free_at (addr size : Z) : M mm unit :=
  unmap_free_at_impl (unmap_fuel size) addr size true.

(** One page of [map_alloc_at]: allocate, then map; the physical address of
    the cursor is not used. *)
Definition alloc_map_4k (low : bool) (flag vaddr : Z) : M mm Z :=
  paddr <- alloc_phy_page_small_4096 ;;
  (if low then kassert (paddr <? 0x200000) else ret tt) ;;;
  if paddr =? 0 then ret ENOMEM else map_4k_page_p2v paddr vaddr flag.
Definition alloc_map_2m (flag vaddr : Z) : M mm Z :=
  paddr <- on_frames fa_alloc_large ;;
  if paddr =? 0 then ret ENOMEM else map_page_p2v paddr vaddr flag.

(** Like [map_run], remembering how far it came when it fails. *)
Fixpoint alloc_run (fuel : nat) (f : Z -> M mm Z) (step : Z) (more : Z -> bool)
    (vaddr len : Z) : M mm (Z * (Z * Z)) :=
  if more len then
    match fuel with
    | O => out_of_fuel
    | S fuel' =>
        r <- f vaddr ;;
        if r =? OK then alloc_run fuel' f step more (wrap64 (vaddr + step)) (len + step)
        else ret (r, (vaddr, len))
    end
  else ret (OK, (vaddr, len)).

Definition freeat (vaddr len r : Z) : M mm Z :=
  (if 0 <? len then unmap_free_at vaddr len else ret tt) ;;; ret r.

Definition map_alloc_at (vaddr size flag : Z) : M mm Z :=
  let fuel := map_fuel size in
  let off := Z.land vaddr PAGE_2M_MASK in
  x <- (if off =? 0 then ret (OK, (vaddr, 0))
        else
          let mapsize := Z.min size (PAGE_2M_SIZE - off) in
          alloc_run fuel (alloc_map_4k true flag) PAGE_4K_SIZE (fun len => len <? mapsize) vaddr 0) ;;
  let '(r1, (v1, len1)) := x in
  if negb (r1 =? OK) then freeat vaddr len1 r1
  else
    y <- (if PAGE_SIZE_LARGE <=? wrap64 (size - len1) then
            alloc_run fuel (alloc_map_2m flag) PAGE_SIZE_LARGE
              (fun len => len <=? wrap64 (size - PAGE_SIZE_LARGE)) v1 len1
          else ret (OK, (v1, len1))) ;;
    let '(r2, (v2, len2)) := y in
    if negb (r2 =? OK) then freeat vaddr len2 r2
    else
      z <- alloc_run fuel (alloc_map_4k false flag) PAGE_4K_SIZE (fun len => len <? size) v2 len2 ;;
      let '(r3, (v3, len3)) := z in
      if negb (r3 =? OK) then freeat vaddr len3 r3 else ret OK.

Fixpoint ioremap_loop (fuel : nat) (paddr added size : Z) : M mm unit :=
  if added <=? size then
    match fuel with
    | O => out_of_fuel
    | S fuel' =>
        map_page_p2v paddr (wrap64 (paddr + IO_MEM_BASE))
          (Z.lor PTE_P (Z.lor PTE_W (Z.lor PTE_PWT (Z.lor PTE_PCD PTE_PS)))) ;;;
        ioremap_loop fuel' (wrap64 (paddr + PAGE_SIZE_LARGE)) (added + PAGE_SIZE_LARGE) size
    end
  else ret tt.
Definition ioremap_nocache (addr size : Z) : M mm Z :=
  let paddr := Z.land addr (lnot64 (PAGE_SIZE_LARGE - 1)) in
  let size' := wrap64 (size + wrap64 (addr - paddr)) in
  ioremap_loop (Z.to_nat (size' / PAGE_SIZE_LARGE + 1)) paddr 0 size' ;;;
  ret (wrap64 (addr + IO_MEM_BASE)).
End operations.
#[global] Arguments mm T : clear implicits.
