(* ===== verification/PgWalk.v ===== *)
(** * PgWalk: the processor's page walk and the shape of the tables

    The specification side of PgTable.v: [mmu] is what the processor computes
    from memory, [tables_ok] says that the page tables form a tree of disjoint
    frames, and the lemmas say how a store into a leaf entry and the linking of
    a new table change both. *)
From Stdlib Require Import ZArith Lia.
From stdpp Require Import base tactics list option.
From S2P Require Import Prelude Pages Layout PgTable.
#[export] Set Warnings "-clear-no-such-hyp".

(** ** The walk *)
Definition e_present (e : Z) : bool := Z.testbit e 0.
Definition e_large (e : Z) : bool := Z.testbit e 7.

#[global] Arguments e_present : simpl never.
#[global] Arguments e_large : simpl never.
#[global] Arguments page_mask : simpl never.

(** [walk m q lvl path]: from the table at [q] of level [lvl] (0 is the PML4)
    to the entry that ends the walk, with its level. *)
Fixpoint walk (m : memory) (q : Z) (lvl : nat) (path : list Z) : option (Z * nat) :=
  match path with
  | [] => None
  | x :: rest =>
      let e := m (q + 8 * x) in
      if negb (e_present e) then None
      else match rest with
           | [] => Some (e, lvl)
           | _ => if e_large e && Nat.leb 1 lvl then Some (e, lvl)
                  else walk m (page_mask e) (S lvl) rest
           end
  end.

Definition va_path (va : Z) : list Z :=
  [pt_index 39 va; pt_index 30 va; pt_index 21 va; pt_index 12 va].

(** Bits of the offset in a page that ends the walk at [lvl]. *)
Definition page_shift (lvl : nat) : Z := 39 - 9 * Z.of_nat lvl.

(** The physical address and the low flag bits of a virtual address.  The
    address is all of the entry above its flags: a real processor refuses one
    with bits beyond those it has. *)
Definition mmu (m : memory) (root va : Z) : option (Z * Z) :=
  match walk m root 0 (va_path va) with
  | None => None
  | Some (e, lvl) =>
      let sh := page_shift lvl in
      Some (Z.shiftl (Z.shiftr (page_mask e) sh) sh + va mod 2 ^ sh, Z.land e 4095)
  end.

(** ** Entries *)
Lemma page_mask_spec e : 0 <= e < 2 ^ 64 -> page_mask e = e - e mod 4096.
Proof. intros He. apply (land_high e 12); lia. Qed.

Lemma entry_or a f :
  0 <= a < 2 ^ 64 -> a mod 4096 = 0 -> 0 <= f < 4096 ->
  page_mask (Z.lor a f) = a /\ Z.land (Z.lor a f) 4095 = f /\
  (forall i, 0 <= i < 12 -> Z.testbit (Z.lor a f) i = Z.testbit f i) /\
  0 <= Z.lor a f < 2 ^ 64.
Proof.
  intros Ha Hm Hf.
  assert (Hlow : forall i, 0 <= i < 12 -> Z.testbit a i = false).
  { intros i Hi. rewrite <- (Z.mod_pow2_bits_low a 12) by lia.
    change (2 ^ 12) with 4096. rewrite Hm. apply Z.bits_0. }
  assert (Hhigh : forall i, 12 <= i -> Z.testbit f i = false).
  { intros i Hi. apply (testbit_above f 12); [exact Hf|lia]. }
  assert (Hbits : forall i, 0 <= i < 12 -> Z.testbit (Z.lor a f) i = Z.testbit f i).
  { intros i Hi. by rewrite Z.lor_spec, Hlow by lia. }
  split; [|split; [|split; [exact Hbits|]]].
  - unfold page_mask, lnot64. apply Z.bits_inj'. intros i Hi.
    change (2 ^ 64 - 1) with (Z.ones 64). change 4095 with (Z.ones 12).
    rewrite Z.land_spec, Z.lor_spec, Z.lxor_spec, !Z.testbit_ones_nonneg by lia.
    destruct (Z.ltb_spec i 12).
    + rewrite Hlow by lia. destruct (i <? 64) eqn:?; [by rewrite andb_false_r|lia].
    + rewrite Hhigh by lia. rewrite orb_false_r. destruct (Z.ltb_spec i 64); cbn.
      * apply andb_true_r.
      * rewrite (testbit_above a 64) by lia. done.
  - apply Z.bits_inj'. intros i Hi. change 4095 with (Z.ones 12).
    rewrite Z.land_spec, Z.testbit_ones_nonneg by lia. destruct (Z.ltb_spec i 12).
    + rewrite Hbits by lia. apply andb_true_r.
    + rewrite Hhigh by lia. apply andb_false_r.
  - apply range_of_bits; [lia|apply Z.lor_nonneg; lia|]. intros i Hi.
    rewrite Z.lor_spec, Hhigh by lia. rewrite (testbit_above a 64) by lia. done.
Qed.

(** A present 2M page. *)
Lemma has_flags_2m e : has_flags e (Z.lor PTE_PS PTE_P) = e_large e && e_present e.
Proof.
  unfold has_flags, e_large, e_present. change (Z.lor PTE_PS PTE_P) with 129.
  assert (forall i, Z.testbit 129 i = true -> i = 0 \/ i = 7) as Hbits.
  { intros i Hb. assert (0 <= i < 8) as Hi.
    { destruct (decide (i < 0)); [by rewrite Z.testbit_neg_r in Hb by lia|].
      destruct (decide (i < 8)); [lia|]. by rewrite (testbit_above 129 8) in Hb by lia. }
    assert (i = 0 \/ i = 1 \/ i = 2 \/ i = 3 \/ i = 4 \/ i = 5 \/ i = 6 \/ i = 7) as Hc by lia.
    destruct_or!; subst; try done; auto. }
  destruct (Z.eqb_spec (Z.land e 129) 129) as [Heq|Hne].
  - pose proof (f_equal (fun z => Z.testbit z 7) Heq) as H7. pose proof (f_equal (fun z => Z.testbit z 0) Heq) as H0.
    cbn beta in H7, H0. rewrite Z.land_spec in H7, H0.
    apply andb_prop in H7 as [-> _]. by apply andb_prop in H0 as [-> _].
  - destruct (Z.testbit e 7) eqn:H7, (Z.testbit e 0) eqn:H0; try done. exfalso. apply Hne.
    apply Z.bits_inj'. intros i _. rewrite Z.land_spec.
    destruct (Z.testbit 129 i) eqn:Hb; [|by rewrite andb_false_r].
    by destruct (Hbits i Hb) as [->| ->]; rewrite ?H0, ?H7.
Qed.

Definition idx (x : Z) : Prop := 0 <= x < 512.

Lemma page_mask_bounds e : 0 <= e < 2 ^ 64 -> 0 <= page_mask e < 2 ^ 64.
Proof.
  intros He. rewrite page_mask_spec by done. pose proof (Z.mod_pos_bound e 4096). pose proof (Z.mod_le e 4096). lia.
Qed.

(** The pages a large page splits into have 64-bit addresses. *)
Lemma split_fits b sh y :
  0 <= b < 2 ^ 64 -> 0 <= sh <= 55 -> b mod 2 ^ (sh + 9) = 0 -> idx y -> b + y * 2 ^ sh < 2 ^ 64.
Proof.
  intros Hb Hsh Hm Hy. unfold idx in Hy.
  pose proof (Z.div_mod b (2 ^ (sh + 9)) ltac:(lia)) as Hd. rewrite Hm in Hd.
  replace 64 with (55 - sh + (sh + 9)) in Hb |- * by lia. rewrite Z.pow_add_r in Hb |- * by lia.
  assert (b / 2 ^ (sh + 9) < 2 ^ (55 - sh)) by (apply Z.div_lt_upper_bound; lia).
  rewrite (Z.pow_add_r 2 sh 9) in * by lia. change (2 ^ 9) with 512 in *. nia.
Qed.

Lemma pt_index_range sh va : idx (pt_index sh va).
Proof.
  unfold pt_index, idx. change 511 with (2 ^ 9 - 1). rewrite land_low_mod by lia.
  apply Z.mod_pos_bound. lia.
Qed.

Lemma pt_index_spec sh va : 0 <= sh -> pt_index sh va = (va / 2 ^ sh) mod 512.
Proof.
  intros Hsh. unfold pt_index. rewrite Z.shiftr_div_pow2 by done.
  change 511 with (2 ^ 9 - 1). rewrite land_low_mod by lia. done.
Qed.

Lemma va_path_idx va : Forall idx (va_path va).
Proof. unfold va_path. repeat (apply list.Forall_cons; split; [apply pt_index_range|]). constructor. Qed.

(** ** The tree of tables *)

(** What the entry of a table of level [lvl] may hold: a table [o], or nothing,
    or a large page of the level. *)
Definition entry_ok (lvl : nat) (e : Z) (o : option Z) : Prop :=
  match o with
  | Some r => e_present e = true /\ e_large e = false /\ page_mask e = r /\ 0 <= e < 2 ^ 64
  | None => e = 0 \/
      (1 <= lvl)%nat /\ e_present e = true /\ e_large e = true /\
      page_mask e mod 2 ^ page_shift lvl = 0 /\ 0 <= e < 2 ^ 64
  end.

(** [tab p] is the table reached by the indices [p]; [fr] the free memory. *)
Record tables_ok (m : memory) (root : Z) (tab : list Z -> option Z) (fr : Z -> Prop) : Prop := {
  to_root : tab [] = Some root;
  to_page p q : tab p = Some q ->
    0 <= q < 2 ^ 45 /\ q mod 4096 = 0 /\ (length p <= 3)%nat /\ Forall idx p;
  to_nonzero p q : tab p = Some q -> p <> [] -> q <> 0;
  to_inj p p' q : tab p = Some q -> tab p' = Some q -> p = p';
  to_parent p x q : tab (p ++ [x]) = Some q -> exists r, tab p = Some r;
  to_entry p q x : tab p = Some q -> (length p < 3)%nat -> idx x ->
    entry_ok (length p) (m (q + 8 * x)) (tab (p ++ [x]));
  to_fresh p q y : tab p = Some q -> in_range q 4096 y -> ~ fr y
}.

Section tree.
Context (root : Z).
Implicit Types (m : memory) (tab : list Z -> option Z) (fr : Z -> Prop).

(** Words of distinct tables, or of distinct entries, are distinct. *)
Lemma word_inj m tab fr p q x p' q' x' :
  tables_ok m root tab fr -> tab p = Some q -> tab p' = Some q' -> idx x -> idx x' ->
  q + 8 * x = q' + 8 * x' -> p = p' /\ x = x'.
Proof.
  intros Ht Hp Hp' Hx Hx' Heq. unfold idx in *.
  destruct (to_page _ _ _ _ Ht _ _ Hp) as (? & Hq & _).
  destruct (to_page _ _ _ _ Ht _ _ Hp') as (? & Hq' & _).
  pose proof (Z.div_mod q 4096). pose proof (Z.div_mod q' 4096).
  assert (q = q') as -> by lia. split; [by eapply to_inj|lia].
Qed.

Lemma tab_prefix m tab fr p p' q :
  tables_ok m root tab fr -> tab (p ++ p') = Some q -> exists r, tab p = Some r.
Proof.
  intros Ht. revert q. induction p' as [|x p' IH] using rev_ind; intros q Hq.
  - rewrite app_nil_r in Hq. by exists q.
  - rewrite (assoc_L app) in Hq. apply (to_parent _ _ _ _ Ht) in Hq as [r Hr]. by eapply IH.
Qed.

(** A present, small entry leads to the next table. *)
Lemma entry_table m tab fr p q x :
  tables_ok m root tab fr -> tab p = Some q -> (length p < 3)%nat -> idx x ->
  e_present (m (q + 8 * x)) = true ->
  e_large (m (q + 8 * x)) && Nat.leb 1 (length p) = false ->
  tab (p ++ [x]) = Some (page_mask (m (q + 8 * x))).
Proof.
  intros Ht Hp Hlen Hx Hpr Hla. pose proof (to_entry _ _ _ _ Ht _ _ _ Hp Hlen Hx) as He.
  destruct (tab (p ++ [x])) as [r|]; cbn in He; [destruct He as (_ & _ & -> & _); done|].
  destruct He as [He|(Hl & _ & Hlg & _)].
  - rewrite He in Hpr. done.
  - rewrite Hlg, (proj2 (Nat.leb_le _ _) Hl) in Hla. done.
Qed.

(** The walk depends only on the entries along the path. *)
Lemma walk_agree m m' tab fr p q rest :
  tables_ok m root tab fr -> tab p = Some q -> Forall idx rest ->
  (length p + length rest = 4)%nat ->
  (forall p1 x p2 q1, rest = p1 ++ x :: p2 -> tab (p ++ p1) = Some q1 ->
     m' (q1 + 8 * x) = m (q1 + 8 * x)) ->
  walk m' q (length p) rest = walk m q (length p) rest.
Proof.
  intros Ht. revert p q. induction rest as [|x rest IH]; intros p q Hp Hi Hlen Hsame; [done|].
  apply list.Forall_cons in Hi as [Hx Hi].
  pose proof (Hsame [] x rest q eq_refl ltac:(by rewrite app_nil_r)) as He.
  cbn [walk]. rewrite He. destruct (e_present (m (q + 8 * x))) eqn:Hpr; [|done]. cbn [negb].
  destruct rest as [|y rest]; [done|].
  destruct (e_large (m (q + 8 * x)) && Nat.leb 1 (length p)) eqn:Hla; [done|].
  cbn in Hlen.
  pose proof (entry_table _ _ _ _ _ _ Ht Hp ltac:(lia) Hx Hpr Hla) as Hnext.
  replace (S (length p)) with (length (p ++ [x])) by (rewrite length_app; cbn; lia).
  apply IH; [done|done|rewrite length_app; cbn; lia|].
  intros p1 z p2 q1 Heq Hq1. apply (Hsame (x :: p1) z p2 q1).
  - cbn. by rewrite Heq.
  - rewrite <- (assoc_L app) in Hq1. exact Hq1.
Qed.

(** The walk from the root passes through the tables of the path. *)
Lemma walk_through m tab fr p0 q0 p q rest :
  tables_ok m root tab fr -> tab p0 = Some q0 -> tab (p0 ++ p) = Some q -> rest <> [] ->
  walk m q0 (length p0) (p ++ rest) = walk m q (length (p0 ++ p)) rest.
Proof.
  intros Ht. revert p0 q0. induction p as [|x p IH]; intros p0 q0 Hp0 Hp Hrest.
  - rewrite app_nil_r in *. cbn. congruence.
  - assert (tab ((p0 ++ [x]) ++ p) = Some q) as Hp' by (rewrite <- (assoc_L app); exact Hp).
    destruct (tab_prefix _ _ _ _ _ _ Ht Hp') as [r Hr].
    destruct (to_page _ _ _ _ Ht _ _ Hr) as (_ & _ & Hlen & Hidx).
    rewrite length_app in Hlen. cbn in Hlen. apply Forall_app in Hidx as [_ [Hx _]%list.Forall_cons].
    pose proof (to_entry _ _ _ _ Ht _ _ _ Hp0 ltac:(lia) Hx) as He. rewrite Hr in He.
    destruct He as (Hpr & Hla & Hmask & _). cbn [app walk]. rewrite Hpr. cbn [negb].
    destruct (p ++ rest) as [|y l] eqn:Hl; [by destruct p, rest|]. rewrite Hla. cbn [andb].
    rewrite Hmask. replace (S (length p0)) with (length (p0 ++ [x])) by (rewrite length_app; cbn; lia).
    rewrite (IH (p0 ++ [x]) r Hr Hp' Hrest). by rewrite <- (assoc_L app).
Qed.

Lemma walk_root m tab fr p q rest :
  tables_ok m root tab fr -> tab p = Some q -> rest <> [] ->
  walk m root 0 (p ++ rest) = walk m q (length p) rest.
Proof. intros Ht Hp Hr. apply (walk_through m tab fr [] root p q rest Ht (to_root _ _ _ _ Ht) Hp Hr). Qed.

(** ** Stores *)

(** [m'] differs from [m], as far as tables go, in entry [x] of table [p]. *)
Definition only_entry m m' tab (p : list Z) (x : Z) : Prop :=
  forall p1 q1 y, tab p1 = Some q1 -> idx y -> ~ (p1 = p /\ y = x) ->
    m' (q1 + 8 * y) = m (q1 + 8 * y).

Lemma walk_frame m m' tab fr p x path :
  tables_ok m root tab fr -> only_entry m m' tab p x ->
  Forall idx path -> length path = 4%nat -> ~ (exists rest, path = p ++ x :: rest) ->
  walk m' root 0 path = walk m root 0 path.
Proof.
  intros Ht Honly Hidx Hlen Hno.
  apply (walk_agree m m' tab fr [] root path Ht (to_root _ _ _ _ Ht) Hidx Hlen).
  intros p1 y p2 q1 -> Hq1. apply Forall_app in Hidx as [_ [Hy _]%list.Forall_cons].
  apply (Honly p1); [exact Hq1|exact Hy|]. intros [-> ->]. apply Hno. by exists p2.
Qed.

Lemma upd_only m tab fr p q x e :
  tables_ok m root tab fr -> tab p = Some q -> idx x ->
  only_entry m (upd (q + 8 * x) e m) tab p x.
Proof.
  intros Ht Hp Hx p1 q1 y Hp1 Hy Hne. unfold upd.
  destruct (Z.eqb_spec (q1 + 8 * y) (q + 8 * x)) as [Heq|]; [|done].
  exfalso. apply Hne. by eapply word_inj.
Qed.

Definition set_tab (p : list Z) (o : option Z) tab : list Z -> option Z :=
  fun p' => if decide (p' = p) then o else tab p'.

Lemma snoc_inj_Z (p p' : list Z) (x x' : Z) : p ++ [x] = p' ++ [x'] -> p = p' /\ x = x'.
Proof. intros H%app_inj_tail. exact H. Qed.

(** Storing a leaf in a page directory cuts off a page table it may have
    pointed to. *)
Lemma store_leaf m tab fr p q x e :
  tables_ok m root tab fr -> tab p = Some q -> length p = 2%nat -> idx x ->
  entry_ok 2 e None ->
  tables_ok (upd (q + 8 * x) e m) root (set_tab (p ++ [x]) None tab) fr.
Proof.
  intros Ht Hp Hlen Hx He. unfold set_tab. split.
  - case_decide as Hd; [by destruct p|apply Ht].
  - intros p1 q1. case_decide; [done|apply Ht].
  - intros p1 q1. case_decide; [done|apply Ht].
  - intros p1 p2 q1. case_decide; [done|]. case_decide; [done|]. apply Ht.
  - intros p1 y q1. case_decide as Hd1; [done|]. intros Hq1. case_decide as Hd2.
    + subst p1. destruct (to_page _ _ _ _ Ht _ _ Hq1) as (_ & _ & Hl & _).
      rewrite !length_app in Hl. cbn in Hl. lia.
    + by eapply to_parent.
  - intros p1 q1 y. case_decide as Hd1; [done|]. intros Hq1 Hl Hy.
    case_decide as Hd2.
    + apply snoc_inj_Z in Hd2 as [-> ->]. rewrite Hp in Hq1. injection Hq1 as <-.
      unfold upd. rewrite Z.eqb_refl, Hlen. exact He.
    + rewrite (upd_only m tab fr p q x e Ht Hp Hx p1 q1 y Hq1 Hy) by naive_solver.
      by apply Ht.
  - intros p1 q1 y. case_decide; [done|]. apply Ht.
Qed.

(** Storing a page-table entry changes no table. *)
Lemma store_pte m tab fr p q x e :
  tables_ok m root tab fr -> tab p = Some q -> length p = 3%nat -> idx x ->
  tables_ok (upd (q + 8 * x) e m) root tab fr.
Proof.
  intros Ht Hp Hlen Hx. split; try apply Ht.
  intros p1 q1 y Hq1 Hl Hy.
  rewrite (upd_only m tab fr p q x e Ht Hp Hx p1 q1 y Hq1 Hy); [by apply Ht|].
  intros [-> _]. lia.
Qed.

(** Linking the fresh frame [r] at entry [x] of table [p]. *)
Record linked m m' tab fr (p : list Z) (q x r e : Z) : Prop := {
  ln_fresh y : in_range r 4096 y -> fr y;
  ln_page : 0 < r < 2 ^ 45 /\ r mod 4096 = 0;
  ln_entry : m' (q + 8 * x) = e /\ page_mask e = r /\ e_present e = true /\ e_large e = false /\
    0 <= e < 2 ^ 64;
  ln_new y : idx y -> (S (length p) < 3)%nat -> entry_ok (S (length p)) (m' (r + 8 * y)) None;
  ln_same a : a <> q + 8 * x -> ~ in_range r 4096 a -> m' a = m a
}.

Lemma linked_only m m' tab fr p q x r e :
  tables_ok m root tab fr -> tab p = Some q -> idx x -> linked m m' tab fr p q x r e ->
  only_entry m m' tab p x.
Proof.
  intros Ht Hp Hx Hln p1 q1 y Hp1 Hy Hne. apply (ln_same _ _ _ _ _ _ _ _ _ Hln).
  - intros Heq. apply Hne. by eapply word_inj.
  - intros Hr. apply (to_fresh _ _ _ _ Ht _ _ (q1 + 8 * y) Hp1).
    + unfold in_range, idx in *. lia.
    + by eapply ln_fresh.
Qed.

Lemma link_table m m' tab fr fr' p q x r e :
  tables_ok m root tab fr -> tab p = Some q -> (length p < 3)%nat -> idx x ->
  tab (p ++ [x]) = None -> linked m m' tab fr p q x r e ->
  (forall y, fr' y -> fr y /\ ~ in_range r 4096 y) ->
  tables_ok m' root (set_tab (p ++ [x]) (Some r) tab) fr'.
Proof.
  intros Ht Hp Hlen Hx Hnone Hln Hfr.
  pose proof (linked_only _ _ _ _ _ _ _ _ _ Ht Hp Hx Hln) as Honly.
  destruct (ln_page _ _ _ _ _ _ _ _ _ Hln) as [Hr0 Hr1].
  destruct (ln_entry _ _ _ _ _ _ _ _ _ Hln) as (He & Hem & Hep & Hel & Her).
  assert (Hnew : forall p1, tab p1 <> Some r).
  { intros p1 Hp1. apply (to_fresh _ _ _ _ Ht _ _ r Hp1); [unfold in_range; lia|].
    eapply ln_fresh; [exact Hln|unfold in_range; lia]. }
  assert (Hchild : forall y q1, tab ((p ++ [x]) ++ [y]) <> Some q1).
  { intros y q1 Hq. apply (to_parent _ _ _ _ Ht) in Hq as [r1 Hr]. congruence. }
  unfold set_tab. split.
  - case_decide as Hd; [by destruct p|apply Ht].
  - intros p1 q1. case_decide as Hd; [|apply Ht]. intros [= <-]. subst p1.
    split; [lia|]. split; [done|]. destruct (to_page _ _ _ _ Ht _ _ Hp) as (_ & _ & _ & Hi).
    rewrite length_app. cbn. split; [lia|]. apply Forall_app. split; [done|].
    by apply list.Forall_singleton.
  - intros p1 q1. case_decide as Hd; [|apply Ht]. intros [= <-] _. lia.
  - intros p1 p2 q1. repeat case_decide; [congruence|..].
    + intros [= <-] Hq. by destruct (Hnew p2).
    + intros Hq [= <-]. by destruct (Hnew p1).
    + apply Ht.
  - intros p1 y q1. case_decide as Hd1.
    + apply snoc_inj_Z in Hd1 as [-> ->]. intros _. exists q.
      case_decide as Hd2; [|done]. apply (f_equal length) in Hd2.
      rewrite length_app in Hd2. cbn in Hd2. lia.
    + intros Hq. case_decide as Hd2; [by exists r|]. by eapply to_parent.
  - intros p1 q1 y Hq1 Hl Hy. case_decide as Hd1.
    + subst p1. injection Hq1 as <-. rewrite length_app in Hl |- *. cbn in Hl |- *.
      rewrite Nat.add_1_r in *. case_decide as Hd2.
      { apply (f_equal length) in Hd2. rewrite !length_app in Hd2. cbn in Hd2. lia. }
      destruct (tab ((p ++ [x]) ++ [y])) eqn:Hc; [by destruct (Hchild y z)|].
      by apply (ln_new _ _ _ _ _ _ _ _ _ Hln).
    + case_decide as Hd2.
      * apply snoc_inj_Z in Hd2 as [-> ->]. rewrite Hp in Hq1. injection Hq1 as <-.
        rewrite He. done.
      * rewrite (Honly p1 q1 y Hq1 Hy) by naive_solver. by apply Ht.
  - intros p1 q1 y. case_decide as Hd.
    + intros [= <-] Hy [_ Hn]%Hfr. done.
    + intros Hq Hy [Hf _]%Hfr. by eapply to_fresh.
Qed.

(** Fewer free frames keep the tree valid. *)
Lemma tables_ok_mono m tab fr fr' :
  tables_ok m root tab fr -> (forall y, fr' y -> fr y) -> tables_ok m root tab fr'.
Proof. intros [] Hsub. split; try done. intros p q y Hp Hy Hf%Hsub. by eapply to_fresh0. Qed.

(** ** What the processor sees *)

Lemma path_cases (p : list Z) (x : Z) (path : list Z) :
  (exists rest, path = p ++ x :: rest) \/ ~ (exists rest, path = p ++ x :: rest).
Proof.
  destruct (decide ((p ++ [x]) `prefix_of` path)) as [[rest ->]|Hno]; [left|right].
  - exists rest. by rewrite <- (assoc_L app).
  - intros (rest & ->). apply Hno. exists rest. by rewrite <- (assoc_L app).
Qed.

(** A cleared table in place of an empty entry changes no translation. *)
Lemma walk_link_empty m m' tab fr p q x r e path :
  tables_ok m root tab fr -> tab p = Some q -> (length p < 3)%nat -> idx x ->
  m (q + 8 * x) = 0 -> linked m m' tab fr p q x r e ->
  (forall y, idx y -> m' (r + 8 * y) = 0) ->
  Forall idx path -> length path = 4%nat ->
  walk m' root 0 path = walk m root 0 path.
Proof.
  intros Ht Hp Hlen Hx Hz Hln Hnew Hidx Hl4.
  pose proof (linked_only _ _ _ _ _ _ _ _ _ Ht Hp Hx Hln) as Honly.
  destruct (path_cases p x path) as [(rest & ->)|Hno]; cycle 1.
  { by eapply walk_frame. }
  pose proof (to_entry _ _ _ _ Ht _ _ _ Hp Hlen Hx) as He. rewrite Hz in He.
  destruct (tab (p ++ [x])) as [r1|] eqn:Hnone; [by destruct He as (Hpr & _)|].
  rewrite (walk_root m tab fr p q (x :: rest)) by done. cbn [walk]. rewrite Hz. cbn [negb].
  pose proof (link_table m m' tab fr (fun _ => False) p q x r e Ht Hp Hlen Hx Hnone Hln
    ltac:(done)) as Ht'.
  destruct rest as [|y rest]; [rewrite length_app in Hl4; cbn in Hl4; lia|].
  replace (p ++ x :: y :: rest) with ((p ++ [x]) ++ y :: rest) by (by rewrite <- (assoc_L app)).
  rewrite (walk_root m' _ _ (p ++ [x]) r (y :: rest) Ht'); [|unfold set_tab; by rewrite decide_True|done].
  apply Forall_app in Hidx as [_ [_ [Hy _]%list.Forall_cons]%list.Forall_cons].
  cbn [walk]. rewrite Hnew by done. done.
Qed.

(** ** Splitting a large page *)

Lemma shift_aligned a sh : 0 <= sh -> a mod 2 ^ sh = 0 -> Z.shiftl (Z.shiftr a sh) sh = a.
Proof.
  intros Hsh Ha. rewrite Z.shiftl_mul_pow2, Z.shiftr_div_pow2 by done.
  pose proof (Z.div_mod a (2 ^ sh)). lia.
Qed.

(** A page offset is the index of the smaller page with the offset in it. *)
Lemma offset_split va sh :
  0 <= sh -> va mod 2 ^ (sh + 9) = pt_index sh va * 2 ^ sh + va mod 2 ^ sh.
Proof.
  intros Hsh. rewrite pt_index_spec, Z.pow_add_r by lia. change (2 ^ 9) with 512.
  rewrite Z.rem_mul_r by lia. lia.
Qed.

Lemma va_path_at va p x y rest :
  va_path va = p ++ x :: y :: rest -> y = pt_index (page_shift (S (length p))) va.
Proof.
  unfold va_path, page_shift. intros Heq.
  pose proof (f_equal length Heq) as Hl. rewrite length_app in Hl. cbn in Hl.
  destruct p as [|a [|b [|c p]]]; cbn in Heq, Hl; [| | |lia];
    injection Heq; intros; subst; reflexivity.
Qed.

(** The entries of the new table translate the range as the large entry did,
    with the flags [fl]. *)
Lemma mmu_split m m' tab fr p q x r e fl va y rest :
  tables_ok m root tab fr -> tab p = Some q -> (1 <= length p <= 2)%nat -> idx x ->
  tab (p ++ [x]) = None -> m (q + 8 * x) <> 0 -> linked m m' tab fr p q x r e ->
  0 <= fl < 4096 -> Z.testbit fl 0 = true -> (rest = [] \/ Z.testbit fl 7 = true) ->
  (forall z, idx z -> m' (r + 8 * z) =
     Z.lor (page_mask (m (q + 8 * x)) + z * 2 ^ page_shift (S (length p))) fl) ->
  va_path va = p ++ x :: y :: rest ->
  exists a, mmu m root va = Some (a, Z.land (m (q + 8 * x)) 4095) /\
            mmu m' root va = Some (a, fl).
Proof.
  intros Ht Hp Hlen Hx Hnone Hnz Hln Hfl Hb0 Hrest Hnew Hpath.
  pose proof (to_entry _ _ _ _ Ht _ _ _ Hp ltac:(lia) Hx) as He. rewrite Hnone in He.
  destruct He as [?|(_ & Hpr & Hla & Hal & Hrng)]; [done|].
  set (e0 := m (q + 8 * x)) in *. set (lvl := length p) in *.
  pose proof (link_table m m' tab fr (fun _ => False) p q x r e Ht Hp ltac:(lia) Hx Hnone Hln
    ltac:(done)) as Ht'.
  assert (idx y) as Hy.
  { pose proof (va_path_idx va) as Hi. rewrite Hpath in Hi.
    apply Forall_app in Hi as [_ [_ [Hy _]%list.Forall_cons]%list.Forall_cons]. done. }
  pose proof (va_path_at _ _ _ _ _ Hpath) as Hyeq. fold lvl in Hyeq.
  assert (0 <= page_shift (S lvl) /\ page_shift lvl = page_shift (S lvl) + 9 /\
    12 <= page_shift (S lvl) <= 21) as (Hs0 & Hs9 & Hs12) by (unfold page_shift; lia).
  assert (walk m root 0 (va_path va) = Some (e0, lvl)) as Hw.
  { rewrite Hpath, (walk_root m tab fr p q (x :: y :: rest) Ht Hp) by done. cbn [walk].
    fold e0. fold lvl. rewrite Hpr, Hla. cbn [negb]. by rewrite (proj2 (Nat.leb_le 1 lvl)) by lia. }
  set (b := page_mask e0) in *. set (sh := page_shift (S lvl)) in *.
  assert (0 <= b < 2 ^ 64) as Hb by by apply page_mask_bounds.
  assert (b mod 2 ^ sh = 0) as Hbsh.
  { rewrite Hs9, Z.pow_add_r in Hal by lia. pose proof (Z.div_mod b (2 ^ sh * 2 ^ 9)).
    replace b with (b / (2 ^ sh * 2 ^ 9) * 2 ^ 9 * 2 ^ sh) by lia. apply Z.mod_mul. lia. }
  assert ((b + y * 2 ^ sh) mod 2 ^ sh = 0) as Hbysh by (rewrite Z.mod_add by lia; done).
  assert (2 ^ 12 * 2 ^ (sh - 12) = 2 ^ sh) as Hpow by (rewrite <- Z.pow_add_r by lia; f_equal; lia).
  assert ((b + y * 2 ^ sh) mod 4096 = 0) as Hby12.
  { pose proof (Z.div_mod (b + y * 2 ^ sh) (2 ^ sh)).
    replace (b + y * 2 ^ sh) with ((b + y * 2 ^ sh) / 2 ^ sh * 2 ^ (sh - 12) * 4096) by
      (change 4096 with (2 ^ 12); lia). apply Z.mod_mul. lia. }
  assert (b + y * 2 ^ sh < 2 ^ 64) as Hyb by (apply split_fits; [done|lia|by rewrite <- Hs9|done]).
  assert (0 <= y * 2 ^ sh) by (unfold idx in Hy; nia).
  destruct (entry_or (b + y * 2 ^ sh) fl) as (Hm1 & Hm2 & Hm3 & _); [lia|done|done|].
  assert (walk m' root 0 (va_path va) = Some (Z.lor (b + y * 2 ^ sh) fl, S lvl)) as Hw'.
  { rewrite Hpath. replace (p ++ x :: y :: rest) with ((p ++ [x]) ++ y :: rest)
      by (by rewrite <- (assoc_L app)).
    rewrite (walk_root m' _ _ (p ++ [x]) r (y :: rest) Ht');
      [|unfold set_tab; by rewrite decide_True|done].
    cbn [walk]. rewrite Hnew by done. unfold e_present, e_large. rewrite !Hm3, Hb0 by lia.
    cbn [negb]. rewrite length_app. cbn [length]. fold lvl. rewrite Nat.add_1_r.
    destruct rest as [|z rest]; [done|]. destruct Hrest as [?|Hb7]; [done|].
    rewrite Hb7. done. }
  unfold mmu. rewrite Hw, Hw'. fold sh. rewrite Hm1, Hm2.
  rewrite !shift_aligned by (done || (unfold page_shift; lia)).
  exists (b + va mod 2 ^ page_shift lvl). split; [done|]. do 2 f_equal.
  rewrite Hs9, offset_split, <- Hyeq by done. lia.
Qed.
End tree.
