(* ===== verification/PgMap.v ===== *)
(** * PgMap: what the mapping operations of PgTable.v do to translations

    Total-correctness lemmas for the accesses through the direct map, the table
    allocations and the mapping of 2M and 4K pages, and the properties of the
    page-table code stated with the processor's walk. *)
From Stdlib Require Import ZArith Lia.
From stdpp Require Import base tactics list option.
From S2P Require Import Prelude HoleList FreeSet Pages Layout PhyMem PhyPage PgTable PgWalk.
#[export] Set Warnings "-clear-no-such-hyp".

Section maps.
Context {T : Type} `{FA : FrameAlloc T}.
Implicit Types (s : mm T) (tab : list Z -> option Z).

(** The next [n] frame allocations succeed, and after any number of them [P]
    holds of the source. *)
Fixpoint can_after (P : T -> Prop) (n : nat) (t : T) : Prop :=
  P t /\
  match n with
  | O => True
  | S n' => exists r t', sp_alloc t = Done (r, t') /\ r <> 0 /\ can_after P n' t'
  end.
Definition can_alloc (n : nat) (t : T) : Prop := can_after (fun _ => True) n t.

Lemma can_after_now P n t : can_after P n t -> P t.
Proof. destruct n; by intros [? _]. Qed.
Lemma can_after_weaken P n n' t : can_after P n t -> (n' <= n)%nat -> can_after P n' t.
Proof.
  revert n' t. induction n as [|n IH]; intros [|n'] t; cbn; try done; [lia|naive_solver|].
  intros (? & r & t' & ? & ? & ?) ?. split; [done|]. exists r, t'. split; [done|]. split; [done|].
  apply IH; [done|lia].
Qed.
Context {K : T -> Prop}.

(** The page tables of a state: a tree of frames the allocator does not own. *)
Record mm_ok s tab : Prop := {
  mo_tab : tables_ok (ram s) (pml4 s) tab (sp_free (frames s));
  mo_inv : sp_inv (frames s)
}.

(** Every virtual address translates as before. *)
Definition same_mmu s s' : Prop := forall va, mmu (ram s') (pml4 s') va = mmu (ram s) (pml4 s) va.

(** The words that page tables may use: free memory and the tables' frames. *)
Definition owned s tab (x : Z) : Prop :=
  sp_free (frames s) x \/ exists p q, tab p = Some q /\ in_range q 4096 x.

(** The walk for [va] ends at a 2M entry [e]. *)
Definition leaf s (va e : Z) : Prop :=
  PgWalk.walk (ram s) (pml4 s) 0 (va_path va) = Some (e, 2%nat).

(** ** Memory access *)

Lemma phys_of_table s q x Q :
  0 <= q < 2 ^ 45 -> idx x -> Q (q + 8 * x) s -> wp (phys_of (P2V q + 8 * x)) s Q.
Proof.
  intros Hq Hx HQ. unfold phys_of, idx in *.
  rewrite P2V_small by (unfold PHYS_LIMIT, PAGE_SIZE_LARGE; lia).
  assert (PHYS_VIRT_END = 0xffffc7ffffffffff /\ PHYS_VIRT_START = 0xFFFF820000000000)
    as [He Hs] by done.
  destruct (Z.leb_spec PHYS_VIRT_START (q + PHYS_VIRT_START + 8 * x)); [|lia].
  destruct (Z.leb_spec (q + PHYS_VIRT_START + 8 * x) PHYS_VIRT_END); [|rewrite He, Hs in *; lia].
  cbn. apply wp_ret.
  by replace (q + PHYS_VIRT_START + 8 * x - PHYS_VIRT_START) with (q + 8 * x) by lia.
Qed.

Lemma wp_load s q x Q :
  0 <= q < 2 ^ 45 -> idx x -> Q (ram s (q + 8 * x)) s -> wp (load (P2V q + 8 * x)) s Q.
Proof.
  intros Hq Hx HQ. unfold load. wp_steps. by apply phys_of_table.
Qed.

Lemma wp_store s q x v Q :
  0 <= q < 2 ^ 45 -> idx x -> Q tt (set_ram (upd (q + 8 * x) v (ram s)) s) ->
  wp (store (P2V q + 8 * x) v) s Q.
Proof.
  intros Hq Hx HQ. unfold store. wp_steps. by apply phys_of_table.
Qed.

Lemma P2V_aligned q : 0 <= q < 2 ^ 45 -> q mod 4096 = 0 ->
  (Z.land (P2V q) 4095 =? 0) = true /\ (P2V q =? 0) = false /\ page_mask (P2V q) = P2V q.
Proof.
  intros Hq Hm. assert (P2V q = q + PHYS_VIRT_START) as Heq.
  { apply P2V_small. unfold PHYS_LIMIT, PAGE_SIZE_LARGE. lia. }
  assert (PHYS_VIRT_START = 0xFFFF820000000 * 4096) as Hs by reflexivity.
  assert (P2V q mod 4096 = 0) as Hm'.
  { rewrite Heq, Hs, Z.mod_add by lia. done. }
  split; [by apply page_mask_true|]. split; [apply Z.eqb_neq; lia|].
  rewrite page_mask_spec by lia. lia.
Qed.

Lemma phys_of_base s q Q :
  0 <= q < 2 ^ 45 -> Q q s -> wp (phys_of (P2V q)) s Q.
Proof.
  intros Hq HQ. replace (P2V q) with (P2V q + 8 * 0) by lia.
  apply phys_of_table; [done|done|]. by replace (q + 8 * 0) with q by lia.
Qed.

Lemma zero4k_in p m y : in_range p 4096 y -> zero4k p m y = 0.
Proof.
  unfold zero4k, in_range. intros Hy. destruct (Z.leb_spec p y), (Z.ltb_spec y (p + 4096)); lia || done.
Qed.

Lemma zero4k_out p m y : ~ in_range p 4096 y -> zero4k p m y = m y.
Proof.
  unfold zero4k, in_range. intros Hy. destruct (Z.leb_spec p y), (Z.ltb_spec y (p + 4096)); lia || done.
Qed.

Lemma fill_out n p base step fl m y :
  ~ p <= y < p + 8 * Z.of_nat n -> fill n p base step fl m y = m y.
Proof.
  revert p base m. induction n as [|n IH]; intros p base m Hy; [done|].
  cbn [fill]. rewrite IH by lia. unfold upd. destruct (Z.eqb_spec y p); [lia|done].
Qed.

Lemma fill_in n p base step fl m k :
  0 <= k < Z.of_nat n -> fill n p base step fl m (p + 8 * k) = Z.lor (base + k * step) fl.
Proof.
  revert p base m k. induction n as [|n IH]; intros p base m k Hk; [lia|].
  cbn [fill]. destruct (decide (k = 0)) as [->|].
  - rewrite fill_out by lia. unfold upd.
    replace (p + 8 * 0) with p by lia. rewrite Z.eqb_refl. f_equal. lia.
  - replace (p + 8 * k) with ((p + 8) + 8 * (k - 1)) by lia.
    rewrite IH by lia. f_equal. lia.
Qed.

(** ** Table allocation *)

Lemma alloc_frame_ok s tab n :
  mm_ok s tab -> can_after K (S n) (frames s) ->
  wp alloc_phy_page_small_4096 s (fun r s' =>
    0 < r < 2 ^ 45 /\ r mod 4096 = 0 /\ (forall y, in_range r 4096 y -> sp_free (frames s) y) /\
    (forall y, sp_free (frames s') y <-> sp_free (frames s) y /\ ~ in_range r 4096 y) /\
    sp_inv (frames s') /\ can_after K n (frames s') /\
    (exists t', s' = set_frames t' s) /\ sp_alloc (frames s) = Done (r, frames s')).
Proof.
  intros [Ht Hinv] (_ & r & t' & Hrun & Hr & Hcan).
  unfold alloc_phy_page_small_4096, on_frames. apply wp_zoom.
  pose proof (sp_alloc_ok _ Hinv) as Hspec. apply wp_run in Hspec as (r' & t'' & Hrun' & Hspec).
  rewrite Hrun in Hrun'. injection Hrun' as <- <-. unfold wp. rewrite Hrun.
  destruct Hspec as (Hinv' & [[-> _]|(Hm & Hb & Hin & Hout)]); [done|].
  split; [done|]. split; [done|]. split; [exact Hin|].
  split; [exact Hout|]. split; [done|]. split; [done|]. split; [by exists t'|done].
Qed.

Lemma or_flags_entry r fl :
  0 < r < 2 ^ 45 -> r mod 4096 = 0 -> 0 <= fl < 4096 ->
  Z.testbit fl 0 = true -> Z.testbit fl 7 = false ->
  page_mask (Z.lor r fl) = r /\ e_present (Z.lor r fl) = true /\ e_large (Z.lor r fl) = false /\
  0 <= Z.lor r fl < 2 ^ 64.
Proof.
  intros Hr Hm Hf Hp Hl. destruct (entry_or r fl) as (Hmask & _ & Hbits & Hrng); [lia|done|done|].
  split; [done|]. unfold e_present, e_large. rewrite !Hbits by lia. done.
Qed.

Lemma set_tab_eq tab p o : set_tab p o tab p = o.
Proof. unfold set_tab. by rewrite decide_True. Qed.

(** A linked frame moves from the free memory to the tables. *)
Lemma owned_link s s' tab p r y :
  tab p = None -> (forall x, in_range r 4096 x -> sp_free (frames s) x) ->
  (forall x, sp_free (frames s') x <-> sp_free (frames s) x /\ ~ in_range r 4096 x) ->
  owned s' (set_tab p (Some r) tab) y <-> owned s tab y.
Proof.
  intros Hn Hin Hout. unfold owned. rewrite Hout. split.
  - intros [[Hf _]|(p' & q & Hp & Hy)]; [by left|]. unfold set_tab in Hp.
    case_decide; [|right; by exists p', q]. injection Hp as <-. left. by apply Hin.
  - intros [Hf|(p' & q & Hp & Hy)].
    + destruct (decide (r <= y < r + 4096)) as [Hy|Hy]; [right|by left].
      exists p, r. by rewrite set_tab_eq.
    + right. exists p', q. split; [|done]. unfold set_tab. case_decide; [congruence|done].
Qed.

(** [new_table] followed by the store of its entry links an empty table. *)
Lemma new_table_linked s tab p q x fl n (Q : mm T -> Prop) :
  mm_ok s tab -> can_after K (S n) (frames s) ->
  tab p = Some q -> (length p < 3)%nat -> idx x -> ram s (q + 8 * x) = 0 ->
  0 <= fl < 4096 -> Z.testbit fl 0 = true -> Z.testbit fl 7 = false ->
  (forall s' r, mm_ok s' (set_tab (p ++ [x]) (Some r) tab) ->
     (forall va, PgWalk.walk (ram s') (pml4 s') 0 (va_path va) =
                 PgWalk.walk (ram s) (pml4 s) 0 (va_path va)) ->
     (forall y, owned s' (set_tab (p ++ [x]) (Some r) tab) y <-> owned s tab y) ->
     pml4 s' = pml4 s -> tlb s' = tlb s -> can_after K n (frames s') ->
     ram s' (q + 8 * x) = Z.lor r fl -> 0 < r < 2 ^ 45 -> r mod 4096 = 0 ->
     (forall y, idx y -> ram s' (r + 8 * y) = 0) -> Q s') ->
  wp new_table s (fun v s1 => exists r, v = P2V r /\ 0 < r < 2 ^ 45 /\ r mod 4096 = 0 /\
    Q (set_ram (upd (q + 8 * x) (Z.lor r fl) (ram s1)) s1) /\ pml4 s1 = pml4 s).
Proof.
  intros Hok Hcan Hp Hlen Hx Hz Hfl Hb0 Hb7 HQ. unfold new_table. wp_steps.
  eapply wp_mono; [by apply (alloc_frame_ok s tab n)|].
  intros r s1 (Hr & Hrm & Hin & Hout & Hinv1 & Hcan1 & (t' & ->) & _).
  destruct (P2V_aligned r) as (Ha & Hnz & _); [lia|done|].
  rewrite Ha, Hnz. wp_steps. unfold memset0. wp_steps.
  apply phys_of_base; [lia|].
  wp_steps. exists r. split; [done|]. split; [done|]. split; [done|]. split; [|done].
  destruct Hok as [Ht Hinv].
  destruct (or_flags_entry r fl) as (Hmask & Hpr & Hla & Hrng); try done.
  assert (Hqr : ~ in_range r 4096 (q + 8 * x)).
  { intros Hq. apply (to_fresh _ _ _ _ Ht _ _ (q + 8 * x) Hp).
    - unfold in_range, idx in *. lia.
    - by apply Hin. }
  assert (Hnew : forall y, idx y ->
    upd (q + 8 * x) (Z.lor r fl) (zero4k r (ram s)) (r + 8 * y) = 0).
  { intros y Hy. unfold upd. destruct (Z.eqb_spec (r + 8 * y) (q + 8 * x)) as [Heq|].
    - exfalso. apply Hqr. unfold in_range, idx in *. lia.
    - apply zero4k_in. unfold in_range, idx in *. lia. }
  assert (Hln : linked (ram s) (upd (q + 8 * x) (Z.lor r fl) (zero4k r (ram s))) tab
    (sp_free (frames s)) p q x r (Z.lor r fl)).
  { split; [exact Hin|done| | |].
    - unfold upd. by rewrite Z.eqb_refl.
    - intros y Hy _. left. by apply Hnew.
    - intros a Ha1 Ha2. unfold upd. rewrite (proj2 (Z.eqb_neq _ _)) by done.
      by apply zero4k_out. }
  assert (Hnone : tab (p ++ [x]) = None).
  { pose proof (to_entry _ _ _ _ Ht _ _ _ Hp Hlen Hx) as He. rewrite Hz in He.
    destruct (tab (p ++ [x])); [by destruct He as (? & _)|done]. }
  apply HQ with r; cbn; try done.
  - split; [|done]. cbn. eapply link_table; try done. apply Hout.
  - intros va. cbn [ram pml4 set_ram set_frames].
    exact (walk_link_empty _ _ _ _ _ p q x r _ (va_path va) Ht Hp Hlen Hx Hz Hln Hnew
      (va_path_idx va) eq_refl).
  - intros y. by apply (owned_link s (set_frames t' s)).
  - unfold upd. by rewrite Z.eqb_refl.
Qed.

Definition keeps tab tab' : Prop := forall p q, tab p = Some q -> tab' p = Some q.

Lemma set_tab_keeps tab p q : tab p = None -> keeps tab (set_tab p (Some q) tab).
Proof. intros Hn p' q' Hp. unfold set_tab. case_decide; [congruence|done]. Qed.

(** What a step that only builds tables may do. *)
Record built (s : mm T) tab (n : nat) (s' : mm T) tab' : Prop := {
  bu_ok : mm_ok s' tab';
  bu_mmu : same_mmu s s';
  bu_keeps : keeps tab tab';
  bu_new p : (3 <= length p)%nat -> tab' p = tab p;
  bu_leaf va e : leaf s va e -> leaf s' va e;
  bu_owned y : owned s' tab' y <-> owned s tab y;
  bu_pml4 : pml4 s' = pml4 s;
  bu_tlb : tlb s' = tlb s;
  bu_can : can_after K n (frames s')
}.

Lemma built_refl s tab n n' : mm_ok s tab -> can_after K n (frames s) -> (n' <= n)%nat ->
  built s tab n' s tab.
Proof. intros. split; try done; [by intros p q|by eapply can_after_weaken]. Qed.

Lemma built_trans s tab n s1 tab1 n1 s2 tab2 :
  built s tab n s1 tab1 -> built s1 tab1 n1 s2 tab2 -> built s tab n1 s2 tab2.
Proof.
  intros [] []. split; [done| | | | | |congruence|congruence|done].
  - intros va. rewrite bu_mmu1. apply bu_mmu0.
  - intros p q Hp. by apply bu_keeps1, bu_keeps0.
  - intros p Hp. by rewrite bu_new1, bu_new0.
  - naive_solver.
  - intros y. by rewrite bu_owned1.
Qed.

Lemma built_free s tab n s' tab' :
  built s tab n s' tab' -> forall y, sp_free (frames s') y -> sp_free (frames s) y.
Proof.
  intros [] y Hy. destruct (proj1 (bu_owned0 y) (or_introl Hy)) as [|(p & q & Hp & Hq)]; [done|].
  exfalso. by apply (to_fresh _ _ _ _ (mo_tab _ _ bu_ok0) p q y (bu_keeps0 _ _ Hp) Hq).
Qed.

Lemma root_entry s tab i :
  mm_ok s tab -> idx i ->
  entry_ok 0 (ram s (pml4 s + 8 * i)) (tab [i]).
Proof.
  intros [Ht _] Hi. exact (to_entry _ _ _ _ Ht [] _ _ (to_root _ _ _ _ Ht) ltac:(cbn; lia) Hi).
Qed.

Lemma table_range s tab p q :
  mm_ok s tab -> tab p = Some q -> 0 <= q < 2 ^ 45 /\ q mod 4096 = 0 /\ (p <> [] -> q <> 0).
Proof.
  intros [Ht _] Hp. destruct (to_page _ _ _ _ Ht _ _ Hp) as (? & ? & _).
  split; [done|]. split; [done|]. by eapply to_nonzero.
Qed.

(** [new_table] seen from its callers: the table is linked by the store
    [st], a store through the direct map or into the static [pml4]. *)
Lemma link_new_ok s tab n p q x fl (st : Z -> M (mm T) unit) (g : Z -> Z) :
  mm_ok s tab -> can_after K (S n) (frames s) ->
  tab p = Some q -> (length p < 2)%nat -> idx x -> ram s (q + 8 * x) = 0 ->
  0 <= fl < 4096 -> Z.testbit fl 0 = true -> Z.testbit fl 7 = false ->
  (forall r, g r = Z.lor r fl) ->
  (forall s1 v (Q : unit -> mm T -> Prop), pml4 s1 = pml4 s ->
     Q tt (set_ram (upd (q + 8 * x) v (ram s1)) s1) -> wp (st v) s1 Q) ->
  wp (v <- new_table ;; if v =? 0 then ret 0 else pa <- V2P v ;; st (g pa) ;;; ret v) s
    (fun v s' => exists r tab', v = P2V r /\ tab' (p ++ [x]) = Some r /\ v <> 0 /\
       built s tab n s' tab' /\ ram s' (q + 8 * x) = Z.lor r fl /\
       (forall y, idx y -> ram s' (r + 8 * y) = 0)).
Proof.
  intros Hok Hcan Hp Hlen Hx Hz Hfl Hb0 Hb7 Hg Hst. wp_steps.
  set (Q := fun s' => exists r tab', tab' (p ++ [x]) = Some r /\ built s tab n s' tab' /\
    ram s' (q + 8 * x) = Z.lor r fl /\ 0 < r < 2 ^ 45 /\
    forall y, idx y -> ram s' (r + 8 * y) = 0).
  eapply wp_mono.
  { eapply (new_table_linked s tab p q x fl n Q); try done; [lia|].
    intros s' r Hok' Hwalk Hown Hpml Htlb Hcan' Hent Hr Hrm Hnew.
    exists r, (set_tab (p ++ [x]) (Some r) tab). split; [apply set_tab_eq|].
    split; [|done]. split; try done.
    - intros va. unfold mmu. by rewrite Hwalk.
    - apply set_tab_keeps.
      pose proof (to_entry _ _ _ _ (mo_tab _ _ Hok) _ _ _ Hp ltac:(lia) Hx) as He. rewrite Hz in He.
      destruct (tab (p ++ [x])); [by destruct He as (? & _)|done].
    - intros p' Hp'. unfold set_tab. rewrite decide_False; [done|]. intros ->.
      rewrite length_app in Hp'. cbn in Hp'. lia.
    - intros va e. unfold leaf. by rewrite Hwalk. }
  intros v s1 (r & -> & Hr & Hrm & (r' & tab' & Htab' & Hbu & Hent & Hr' & Hnew) & Hpml).
  destruct (P2V_aligned r) as (_ & Hnz & _); [lia|done|]. rewrite Hnz. wp_steps.
  apply V2P_P2V; [unfold PHYS_LIMIT, PAGE_SIZE_LARGE; lia|]. wp_steps. rewrite Hg.
  apply Hst; [done|]. wp_steps.
  assert (r' = r) as ->.
  { cbn in Hent. unfold upd in Hent. rewrite Z.eqb_refl in Hent.
    destruct (to_page _ _ _ _ (mo_tab _ _ (bu_ok _ _ _ _ _ Hbu)) _ _ Htab') as (_ & Hrm' & _).
    destruct (entry_or r fl) as (Hm1 & _); [lia|done|done|].
    destruct (entry_or r' fl) as (Hm2 & _); [lia|done|done|]. congruence. }
  exists r, tab'. split; [done|]. split; [done|]. split; [by apply Z.eqb_neq|]. done.
Qed.

Lemma lor3 r a b c : Z.lor (Z.lor (Z.lor r a) b) c = Z.lor r (Z.lor a (Z.lor b c)).
Proof. by rewrite !Z.lor_assoc. Qed.

Lemma pdp_for_map_ok s tab n i :
  mm_ok s tab -> can_after K (S n) (frames s) -> idx i ->
  wp (pdp_for_map i) s (fun v s' => exists q tab', v = P2V q /\ v <> 0 /\
    tab' [i] = Some q /\ built s tab n s' tab').
Proof.
  intros Hok Hcan Hi. pose proof (root_entry _ _ _ Hok Hi) as He.
  unfold pdp_for_map, load_pml4. wp_steps.
  destruct (tab [i]) as [r|] eqn:Htab.
  - destruct He as (_ & _ & -> & _). destruct (table_range _ _ _ _ Hok Htab) as (Hr & Hrm & Hnz).
    rewrite (proj2 (Z.eqb_neq r 0)) by (by apply Hnz). wp_steps.
    destruct (P2V_aligned r Hr Hrm) as (_ & Hv & _).
    exists r, tab. split; [done|]. split; [by apply Z.eqb_neq|]. split; [done|].
    by eapply built_refl; [|exact Hcan|lia].
  - destruct He as [He|[He _]]; [|lia]. rewrite He. change (page_mask 0 =? 0) with true.
    cbn iota. eapply wp_mono.
    { eapply (link_new_ok s tab n [] (pml4 s) i (Z.lor PTE_P (Z.lor PTE_W PTE_U)) (store_pml4 i));
        try done; [apply (mo_tab _ _ Hok)|cbn; lia|intros r; apply lor3|].
      intros s1 v Q Hpml HQ. unfold store_pml4. wp_steps. by rewrite Hpml. }
    intros v s' (r & tab' & -> & Ht & Hv & Hbu & _). exists r, tab'. done.
Qed.

(** Splitting a large page leaves every translation unchanged. *)
Lemma large_entry e lvl :
  entry_ok lvl e None -> e <> 0 ->
  (1 <= lvl)%nat /\ e_present e = true /\ e_large e = true /\
  page_mask e mod 2 ^ page_shift lvl = 0 /\ 0 <= page_mask e < 2 ^ 64 /\ 0 <= e < 2 ^ 64.
Proof.
  intros [?|(? & ? & ? & ? & ?)] Hne; [done|]. do 4 (split; [done|]). split; [|done]. by apply page_mask_bounds.
Qed.

Lemma land_pow2_test e n : 0 <= n -> (Z.land e (2 ^ n) =? 0) = negb (Z.testbit e n).
Proof.
  intros Hn. destruct (Z.testbit e n) eqn:Hb; cbn.
  - apply Z.eqb_neq. intros Hz. pose proof (f_equal (fun z => Z.testbit z n) Hz) as Hc.
    cbn beta in Hc. rewrite Z.land_spec, Hb, Z.pow2_bits_true, Z.bits_0 in Hc by done. done.
  - apply Z.eqb_eq. apply Z.bits_inj'. intros i Hi.
    rewrite Z.land_spec, Z.bits_0, Z.pow2_bits_eqb by done.
    destruct (Z.eqb_spec n i) as [<-|]; [by rewrite Hb|apply andb_false_r].
Qed.

Lemma page_mask_P2V e r :
  0 <= e < 2 ^ 64 -> page_mask e = r -> 0 <= r < 2 ^ 45 -> r mod 4096 = 0 ->
  page_mask (P2V e) = P2V r.
Proof.
  intros He Hm Hr Hrm. rewrite page_mask_spec in Hm by done.
  pose proof (Z.mod_pos_bound e 4096).
  assert (PHYS_VIRT_START = 0xFFFF820000000 * 4096) as Hs by reflexivity.
  rewrite (P2V_small e), (P2V_small r) by (unfold PHYS_LIMIT, PAGE_SIZE_LARGE; lia).
  rewrite page_mask_spec by (rewrite Hs; lia).
  rewrite Hs, Z.mod_add by lia. lia.
Qed.

(** The state after the store that links a filled table in place of a large
    page of level [length p]. *)
Lemma split_linked s tab p q x r fl st base step t' :
  mm_ok s tab -> tab p = Some q -> (1 <= length p <= 2)%nat -> idx x ->
  0 < r < 2 ^ 45 -> r mod 4096 = 0 -> (forall y, in_range r 4096 y -> sp_free (frames s) y) ->
  0 <= st < 4096 -> Z.testbit st 0 = true -> Z.testbit st 7 = false ->
  (forall y, idx y -> (S (length p) < 3)%nat ->
     entry_ok (S (length p)) (Z.lor (base + y * step) fl) None) ->
  linked (ram s)
    (ram (set_ram (upd (q + 8 * x) (Z.lor r st) (fill 512 r base step fl (ram s))) (set_frames t' s)))
    tab (sp_free (frames s)) p q x r (Z.lor r st) /\
  forall y, idx y ->
    ram (set_ram (upd (q + 8 * x) (Z.lor r st) (fill 512 r base step fl (ram s))) (set_frames t' s))
      (r + 8 * y) = Z.lor (base + y * step) fl.
Proof.
  intros Hok Hp Hlen Hx Hr Hrm Hin Hst H0 H7 Hent. cbn [ram set_ram].
  assert (Hqr : ~ in_range r 4096 (q + 8 * x)).
  { intros Hq. apply (to_fresh _ _ _ _ (mo_tab _ _ Hok) _ _ (q + 8 * x) Hp).
    - unfold in_range, idx in *. lia.
    - by apply Hin. }
  assert (Hnew : forall y, idx y ->
    upd (q + 8 * x) (Z.lor r st) (fill 512 r base step fl (ram s)) (r + 8 * y) =
    Z.lor (base + y * step) fl).
  { intros y Hy. unfold upd. destruct (Z.eqb_spec (r + 8 * y) (q + 8 * x)) as [Heq|].
    - exfalso. apply Hqr. unfold in_range, idx in *. lia.
    - apply fill_in. unfold idx in Hy. lia. }
  destruct (or_flags_entry r st) as (Hmask & Hpr & Hla & Hrng); try done.
  split; [|exact Hnew]. split; [exact Hin|done| | |].
  - unfold upd. by rewrite Z.eqb_refl.
  - intros y Hy Hl. rewrite Hnew by done. by apply Hent.
  - intros a Ha1 Ha2. unfold upd. rewrite (proj2 (Z.eqb_neq _ _)) by done.
    apply fill_out. unfold in_range in Ha2. lia.
Qed.

Lemma low_flags e :
  0 <= Z.land e 4095 < 4096 /\
  forall i, 0 <= i < 12 -> Z.testbit (Z.land e 4095) i = Z.testbit e i.
Proof.
  change 4095 with (2 ^ 12 - 1). rewrite land_low_mod by lia.
  split; [apply Z.mod_pos_bound; lia|]. intros i Hi. apply Z.mod_pow2_bits_low; lia.
Qed.

(** Each entry of the directory that replaces a 1G page is a valid 2M page. *)
Lemma split_1g_entry e y :
  entry_ok 1 e None -> e <> 0 -> idx y ->
  entry_ok 2 (Z.lor (page_mask e + y * PAGE_SIZE_LARGE) (Z.land e 4095)) None.
Proof.
  intros He Hnz Hy. destruct (large_entry _ _ He Hnz) as (_ & Hpr & Hla & Hal & Hb & Hr).
  destruct (low_flags e) as [Hf Hbits]. unfold idx in Hy.
  change (page_shift 1) with 30 in Hal. unfold PAGE_SIZE_LARGE.
  pose proof (Z.div_mod (page_mask e) (2 ^ 30)) as Hdiv.
  pose proof (split_fits (page_mask e) 21 y Hb ltac:(lia) Hal Hy) as Hfit. change (2 ^ 21) with 2097152 in Hfit.
  destruct (entry_or (page_mask e + y * 2097152) (Z.land e 4095)) as (Hm & _ & Hbits' & Hr'); [lia| |done|].
  { replace (page_mask e + y * 2097152) with ((page_mask e / 2 ^ 30 * 2 ^ 18 + y * 512) * 4096) by lia.
    apply Z.mod_mul. lia. }
  right. split; [lia|]. unfold e_present, e_large in *.
  rewrite !Hbits', !Hbits, Hm by lia. split; [done|]. split; [done|]. split; [|done].
  change (page_shift 2) with 21.
  replace (page_mask e + y * 2097152) with ((page_mask e / 2 ^ 30 * 2 ^ 9 + y) * 2 ^ 21) by lia.
  apply Z.mod_mul. lia.
Qed.

Lemma pd_for_map_ok s tab n i q j :
  mm_ok s tab -> can_after K (S n) (frames s) -> tab [i] = Some q -> idx j ->
  wp (pd_for_map (P2V q) j) s (fun v s' => exists r tab', v = P2V r /\ v <> 0 /\
    tab' [i; j] = Some r /\ built s tab n s' tab').
Proof.
  intros Hok Hcan Hp Hj. destruct (table_range _ _ _ _ Hok Hp) as (Hq & Hqm & _).
  pose proof (to_entry _ _ _ _ (mo_tab _ _ Hok) _ _ j Hp ltac:(cbn; lia) Hj) as He.
  cbn [length app] in He. unfold pd_for_map. wp_steps. apply wp_load; [done|done|].
  set (e3 := ram s (q + 8 * j)) in *.
  destruct (tab [i; j]) as [r|] eqn:Htab.
  { destruct He as (Hpr & Hla & Hmask & Hr). destruct (table_range _ _ _ _ Hok Htab) as (Hrr & Hrm & Hnz).
    destruct (Z.eqb_spec e3 0) as [H0|_]; [by rewrite H0 in Hpr|].
    change PTE_PS with (2 ^ 7). rewrite land_pow2_test by lia. unfold e_large in Hla. rewrite Hla.
    cbn [negb]. wp_steps. rewrite (page_mask_P2V e3 r) by done.
    destruct (P2V_aligned r Hrr Hrm) as (_ & Hv & _).
    exists r, tab. split; [done|]. split; [by apply Z.eqb_neq|]. split; [done|].
    by eapply built_refl; [|exact Hcan|lia]. }
  destruct (Z.eqb_spec e3 0) as [H0|Hne].
  { eapply wp_mono.
    { eapply (link_new_ok s tab n [i] q j (Z.lor PTE_P (Z.lor PTE_W PTE_U)) (store (P2V q + 8 * j)));
        try done; [cbn; lia|intros r; apply lor3|].
      intros s1 v Q Hpml HQ. by apply wp_store. }
    intros v s' (r & tab' & -> & Ht & Hv & Hbu & _). by exists r, tab'. }
  destruct (large_entry _ _ He Hne) as (_ & Hpr & Hla & Hal & Hb & Hr).
  change PTE_PS with (2 ^ 7). rewrite land_pow2_test by lia. unfold e_large in Hla. rewrite Hla.
  cbn [negb]. wp_steps. eapply wp_mono; [by apply (alloc_frame_ok s tab n)|].
  intros r s1 (Hrr & Hrm & Hin & Hout & Hinv1 & Hcan1 & (t' & ->) & _).
  destruct (P2V_aligned r) as (Ha & Hv & _); [lia|done|]. rewrite Ha, Hv. wp_steps.
  unfold fill_table. wp_steps. apply phys_of_base; [lia|]. wp_steps.
  apply V2P_P2V; [unfold PHYS_LIMIT, PAGE_SIZE_LARGE; lia|]. wp_steps.
  apply wp_store; [done|done|]. wp_steps. rewrite lor3.
  destruct (low_flags e3) as [Hf Hbits].
  destruct (split_linked s tab [i] q j r (Z.land e3 4095) (Z.lor PTE_P (Z.lor PTE_W PTE_U))
    (page_mask e3) PAGE_SIZE_LARGE t') as [Hln Hnew]; try done; [cbn; lia| |].
  { intros y Hy _. by apply split_1g_entry. }
  exists r, (set_tab [i; j] (Some r) tab). split; [done|]. split; [by apply Z.eqb_neq|].
  split; [apply set_tab_eq|].
  assert (forall va, ~ (exists rest, va_path va = [i] ++ j :: rest) ->
    PgWalk.walk (ram (set_ram (upd (q + 8 * j) (Z.lor r (Z.lor PTE_P (Z.lor PTE_W PTE_U)))
      (fill 512 r (page_mask e3) PAGE_SIZE_LARGE (Z.land e3 4095) (ram s))) (set_frames t' s)))
      (pml4 s) 0 (va_path va) = PgWalk.walk (ram s) (pml4 s) 0 (va_path va)) as Hwalk.
  { intros va Hno. eapply walk_frame; [apply Hok| |apply va_path_idx|done|exact Hno].
    eapply linked_only; [apply Hok|done|done|exact Hln]. }
  split; [|..|done|done|done].
  - split; [|done]. apply (link_table (pml4 s) (ram s) _ tab (sp_free (frames s)) _ [i] q j r _ (mo_tab _ _ Hok) Hp
      ltac:(cbn; lia) Hj Htab Hln). apply Hout.
  - intros va. destruct (path_cases [i] j (va_path va)) as [(rest & Hpath)|Hno].
    + destruct rest as [|y rest]; [apply (f_equal length) in Hpath; discriminate|].
      destruct (mmu_split (pml4 s) _ _ _ _ [i] q j r _ (Z.land e3 4095) va y rest (mo_tab _ _ Hok)
        Hp ltac:(cbn; lia) Hj Htab Hne Hln Hf) as (a & Hm1 & Hm2).
      * rewrite Hbits by lia. done.
      * right. rewrite Hbits by lia. done.
      * intros z Hz. rewrite Hnew by done. done.
      * done.
      * exact (eq_trans Hm2 (eq_sym Hm1)).
    + unfold mmu. cbn [pml4 set_ram set_frames]. by rewrite Hwalk.
  - by apply set_tab_keeps.
  - intros p' Hp'. unfold set_tab. rewrite decide_False; [done|]. intros ->. cbn in Hp'. lia.
  - intros va e Hleaf. destruct (path_cases [i] j (va_path va)) as [(rest & Hpath)|Hno].
    + exfalso. unfold leaf in Hleaf. rewrite Hpath in Hleaf.
      rewrite (walk_root (pml4 s) (ram s) tab _ [i] q (j :: rest) (mo_tab _ _ Hok) Hp) in Hleaf by done.
      destruct rest as [|y rest]; [apply (f_equal length) in Hpath; discriminate|].
      cbn [PgWalk.walk] in Hleaf. fold e3 in Hleaf. rewrite Hpr in Hleaf.
      unfold e_large in Hleaf. rewrite Hla in Hleaf. cbn in Hleaf. congruence.
    + unfold leaf. cbn [pml4 set_ram set_frames]. rewrite Hwalk by done. exact Hleaf.
  - intros y. by apply (owned_link s (set_frames t' s)).
Qed.

(** ** Mapping a 2M page *)

(** [va] and [vb] share the 2M page number. *)
Definition same_2m (va vb : Z) : Prop := take 3 (va_path va) = take 3 (va_path vb).
#[export] Instance same_2m_dec va vb : Decision (same_2m va vb).
Proof. unfold same_2m. apply _. Defined.

Lemma same_2m_path va vb :
  same_2m va vb <->
  exists rest, va_path va = [pt_index 39 vb; pt_index 30 vb] ++ pt_index 21 vb :: rest.
Proof.
  unfold same_2m, va_path. cbn [take app]. split.
  - intros [= -> -> ->]. by eexists.
  - intros (rest & [= -> -> -> _]). done.
Qed.

(** The processor sees [paddr] with flags [fl] in the 2M page of [vaddr]. *)
Definition mapped_2m s (paddr vaddr fl : Z) : Prop :=
  forall va, same_2m va vaddr ->
    mmu (ram s) (pml4 s) va = Some (paddr + va mod PAGE_SIZE_LARGE, fl).
Definition unchanged_outside_2m s s' (vaddr : Z) : Prop :=
  forall va, ~ same_2m va vaddr -> mmu (ram s') (pml4 s') va = mmu (ram s) (pml4 s) va.

Lemma leaf_2m paddr flag :
  0 <= paddr < 2 ^ 45 -> paddr mod PAGE_SIZE_LARGE = 0 -> 0 <= flag < 4096 ->
  Z.testbit flag 0 = true -> Z.testbit flag 7 = true ->
  page_mask (Z.lor paddr flag) = paddr /\ Z.land (Z.lor paddr flag) 4095 = flag /\
  e_present (Z.lor paddr flag) = true /\ e_large (Z.lor paddr flag) = true /\
  entry_ok 2 (Z.lor paddr flag) None.
Proof.
  intros Hp Hm Hf H0 H7. unfold PAGE_SIZE_LARGE in Hm.
  pose proof (Z.div_mod paddr 2097152).
  destruct (entry_or paddr flag) as (Hmask & Hlow & Hbits & Hr); [lia| |done|].
  { replace paddr with ((paddr / 2097152 * 512) * 4096) by lia. apply Z.mod_mul. lia. }
  unfold entry_ok, e_present, e_large. rewrite !Hbits, Hmask by lia.
  split; [done|]. split; [done|]. split; [done|]. split; [done|]. right.
  change (2 ^ page_shift 2) with 2097152. split; [lia|]. split; [done|]. split; [done|].
  split; [done|]. done.
Qed.

Lemma store_leaf_ok s tab i j q k paddr flag :
  mm_ok s tab -> tab [i; j] = Some q -> idx k ->
  0 <= paddr < 2 ^ 45 -> paddr mod PAGE_SIZE_LARGE = 0 -> 0 <= flag < 4096 ->
  Z.testbit flag 0 = true -> Z.testbit flag 7 = true ->
  let s' := set_ram (upd (q + 8 * k) (Z.lor paddr flag) (ram s)) s in
  mm_ok s' (set_tab [i; j; k] None tab) /\
  (forall va rest, va_path va = [i; j] ++ k :: rest ->
     mmu (ram s') (pml4 s') va = Some (paddr + va mod PAGE_SIZE_LARGE, flag)) /\
  (forall va, ~ (exists rest, va_path va = [i; j] ++ k :: rest) ->
     mmu (ram s') (pml4 s') va = mmu (ram s) (pml4 s) va).
Proof.
  intros Hok Hp Hk Hpa Hpm Hfl H0 H7 s'. pose proof (mo_tab _ _ Hok) as Ht.
  destruct (leaf_2m paddr flag) as (Hmask & Hlow & Hpr & Hla & Hent); try done.
  assert (tables_ok (ram s') (pml4 s') (set_tab [i; j; k] None tab) (sp_free (frames s'))) as Ht'.
  { exact (store_leaf (pml4 s) (ram s) tab (sp_free (frames s)) [i; j] q k _ Ht Hp eq_refl Hk Hent). }
  split; [split; [exact Ht'|apply Hok]|]. split.
  - intros va rest Hpath. unfold mmu. rewrite Hpath.
    destruct rest as [|l rest]; [apply (f_equal length) in Hpath; discriminate|].
    rewrite (walk_root (pml4 s') (ram s') _ _ [i; j] q (k :: l :: rest) Ht');
      [|unfold set_tab; rewrite decide_False by done; exact Hp|done].
    cbn [walk ram set_ram s']. unfold upd. rewrite Z.eqb_refl, Hpr, Hla. cbn [negb andb Nat.leb length].
    rewrite Hmask, Hlow. change (page_shift 2) with 21.
    rewrite shift_aligned by (lia || exact Hpm). done.
  - intros va Hno. unfold mmu. change (pml4 s') with (pml4 s).
    rewrite (walk_frame (pml4 s) (ram s) (ram s') tab (sp_free (frames s)) [i; j] k (va_path va));
      [done|done| |apply va_path_idx|done|exact Hno].
    by eapply upd_only.
Qed.

(** Everything a successful [map_page_p2v] does. *)
Record mapped_page s tab (n : nat) (paddr vaddr flag : Z) s' tab' : Prop := {
  mp_ok : mm_ok s' tab';
  mp_can : can_after K n (frames s');
  mp_pml4 : pml4 s' = pml4 s;
  mp_tlb : tlb s' = vaddr :: tlb s;
  mp_in : mapped_2m s' paddr vaddr flag;
  mp_out : unchanged_outside_2m s s' vaddr;
  mp_leaf : leaf s' vaddr (Z.lor paddr flag);
  mp_leaves va e : ~ same_2m va vaddr -> leaf s va e -> leaf s' va e;
  mp_tables p : (3 <= length p)%nat -> tab p = None -> tab' p = None;
  mp_keeps : tab (take 3 (va_path vaddr)) = None -> keeps tab tab';
  mp_free y : sp_free (frames s') y -> sp_free (frames s) y;
  mp_owned : tab (take 3 (va_path vaddr)) = None -> forall y, owned s' tab' y <-> owned s tab y
}.

Lemma store_leaf_walks s tab i j q k paddr flag s' :
  mm_ok s tab -> tab [i; j] = Some q -> idx k ->
  0 <= paddr < 2 ^ 45 -> paddr mod PAGE_SIZE_LARGE = 0 -> 0 <= flag < 4096 ->
  Z.testbit flag 0 = true -> Z.testbit flag 7 = true ->
  ram s' = upd (q + 8 * k) (Z.lor paddr flag) (ram s) -> pml4 s' = pml4 s ->
  (forall va rest, va_path va = [i; j] ++ k :: rest -> leaf s' va (Z.lor paddr flag)) /\
  (forall va e, ~ (exists rest, va_path va = [i; j] ++ k :: rest) -> leaf s va e -> leaf s' va e).
Proof.
  intros Hok Hp Hk Hpa Hpm Hfl H0 H7 Hram Hpml. pose proof (mo_tab _ _ Hok) as Ht.
  destruct (leaf_2m paddr flag) as (Hmask & Hlow & Hpr & Hla & Hent); try done.
  unfold leaf. rewrite Hram, Hpml. split.
  - intros va rest Hpath. rewrite Hpath.
    destruct rest as [|l rest]; [apply (f_equal length) in Hpath; discriminate|].
    pose proof (store_leaf (pml4 s) (ram s) tab (sp_free (frames s)) [i; j] q k _ Ht Hp eq_refl Hk Hent) as Ht'.
    rewrite (walk_root (pml4 s) _ _ _ [i; j] q (k :: l :: rest) Ht');
      [|unfold set_tab; rewrite decide_False by done; exact Hp|done].
    cbn [PgWalk.walk]. unfold upd. by rewrite Z.eqb_refl, Hpr, Hla.
  - intros va e Hno Hleaf.
    rewrite (walk_frame (pml4 s) (ram s) _ tab (sp_free (frames s)) [i; j] k (va_path va));
      [done|done| |apply va_path_idx|done|exact Hno]. by eapply upd_only.
Qed.

Lemma map_page_p2v_full s tab n paddr vaddr flag :
  mm_ok s tab -> can_after K (2 + n) (frames s) ->
  0 <= paddr < 2 ^ 45 -> paddr mod PAGE_SIZE_LARGE = 0 -> vaddr mod PAGE_SIZE_LARGE = 0 ->
  0 <= flag < 4096 -> Z.testbit flag 0 = true -> Z.testbit flag 7 = true ->
  wp (map_page_p2v paddr vaddr flag) s (fun r s' => r = OK /\
    exists tab', mapped_page s tab n paddr vaddr flag s' tab').
Proof.
  intros Hok Hcan Hpa Hpm Hvm Hfl H0 H7. unfold map_page_p2v. wp_steps.
  change (PAGE_SIZE_LARGE - 1) with (2 ^ 21 - 1). rewrite !land_low_mod by lia.
  change (2 ^ 21) with PAGE_SIZE_LARGE. rewrite Hpm, Hvm. cbn [Z.eqb]. wp_steps.
  assert (Z.land flag (lnot64 4095) = 0) as ->.
  { change 4095 with (2 ^ 12 - 1). rewrite land_high, Z.mod_small by lia. lia. }
  cbn [Z.eqb]. wp_steps.
  change PML4_SHIFT with 39. change PDP_SHIFT with 30. change PD_SHIFT with 21.
  set (i := pt_index 39 vaddr). set (j := pt_index 30 vaddr). set (k := pt_index 21 vaddr).
  eapply wp_mono; [apply (pdp_for_map_ok s tab (S n)); [done|done|apply pt_index_range]|].
  intros v s1 (q1 & tab1 & -> & Hv1 & Hq1 & Hbu1).
  rewrite (proj2 (Z.eqb_neq _ _) Hv1). wp_steps.
  eapply wp_mono.
  { apply (pd_for_map_ok s1 tab1 n i q1 j); [apply Hbu1|apply Hbu1|done|apply pt_index_range]. }
  intros v s2 (q2 & tab2 & -> & Hv2 & Hq2 & Hbu2).
  rewrite (proj2 (Z.eqb_neq _ _) Hv2). wp_steps.
  pose proof (built_trans _ _ _ _ _ _ _ _ Hbu1 Hbu2) as Hbu.
  pose proof (bu_ok _ _ _ _ _ Hbu) as Hok2.
  destruct (table_range _ _ _ _ Hok2 Hq2) as (Hq2r & _ & _).
  apply wp_store; [done|apply pt_index_range|]. unfold flush_tlb_one_page. wp_steps.
  destruct (store_leaf_ok s2 tab2 i j q2 k paddr flag) as (Hok3 & Hin & Hout); try done;
    [apply pt_index_range|].
  set (s3 := set_tlb _ _).
  destruct (store_leaf_walks s2 tab2 i j q2 k paddr flag s3) as [Hl1 Hl2]; try done;
    [apply pt_index_range|].
  split; [done|]. exists (set_tab [i; j; k] None tab2). split.
  - destruct Hok3. by split.
  - apply Hbu.
  - apply Hbu.
  - cbn. by rewrite (bu_tlb _ _ _ _ _ Hbu).
  - intros va Hva%same_2m_path. destruct Hva as (rest & Hva). by apply (Hin va rest).
  - intros va Hva. rewrite <- (bu_mmu _ _ _ _ _ Hbu va). apply Hout.
    intros Hex. by apply Hva, same_2m_path.
  - by apply (Hl1 vaddr [pt_index 12 vaddr]).
  - intros va e Hva Hleaf. apply Hl2; [intros Hex; by apply Hva, same_2m_path|].
    by apply (bu_leaf _ _ _ _ _ Hbu).
  - intros p Hp Hn. unfold set_tab. case_decide; [done|]. by rewrite (bu_new _ _ _ _ _ Hbu).
  - intros Hvac p q Hp. unfold set_tab. case_decide as Hd; [|by apply (bu_keeps _ _ _ _ _ Hbu)].
    subst p. change (take 3 (va_path vaddr)) with [i; j; k] in Hvac. congruence.
  - apply (built_free _ _ _ _ _ Hbu).
  - intros Hvac y. rewrite <- (bu_owned _ _ _ _ _ Hbu y). unfold owned. cbn [s3 frames set_tlb set_ram].
    f_equiv. f_equiv. intros p. unfold set_tab. case_decide as Hd; [|done].
    subst p. change (take 3 (va_path vaddr)) with [i; j; k] in Hvac.
    rewrite <- (bu_new _ _ _ _ _ Hbu) in Hvac by (cbn; lia). by rewrite Hvac.
Qed.

Lemma map_page_p2v_ok s tab n paddr vaddr flag :
  mm_ok s tab -> can_after K (2 + n) (frames s) ->
  0 <= paddr < 2 ^ 45 -> paddr mod PAGE_SIZE_LARGE = 0 -> vaddr mod PAGE_SIZE_LARGE = 0 ->
  0 <= flag < 4096 -> Z.testbit flag 0 = true -> Z.testbit flag 7 = true ->
  wp (map_page_p2v paddr vaddr flag) s (fun r s' => r = OK /\
    (exists tab', mm_ok s' tab') /\ can_after K n (frames s') /\
    pml4 s' = pml4 s /\ tlb s' = vaddr :: tlb s /\
    mapped_2m s' paddr vaddr flag /\ unchanged_outside_2m s s' vaddr).
Proof.
  intros. eapply wp_mono; [by apply (map_page_p2v_full s tab n)|].
  intros r s' (-> & tab' & []). split; [done|]. split; [by exists tab'|]. done.
Qed.

(** ** Mapping a range of 2M pages *)

Lemma same_2m_number va vb :
  same_2m va vb <-> (va / 2 ^ 21) mod 2 ^ 27 = (vb / 2 ^ 21) mod 2 ^ 27.
Proof.
  assert (Hnum : forall v, (v / 2 ^ 21) mod 2 ^ 27 =
    pt_index 39 v * 2 ^ 18 + pt_index 30 v * 2 ^ 9 + pt_index 21 v).
  { intros v. rewrite !pt_index_spec by lia.
    replace (v / 2 ^ 30) with (v / 2 ^ 21 / 512) by (rewrite Z.div_div by lia; done).
    replace (v / 2 ^ 39) with (v / 2 ^ 21 / 512 / 512) by (rewrite !Z.div_div by lia; done).
    change (2 ^ 27) with (512 * (512 * 512)). rewrite Z.rem_mul_r, (Z.rem_mul_r _ 512 512) by lia.
    change (2 ^ 18) with (512 * 512). change (2 ^ 9) with 512. lia. }
  rewrite !Hnum. unfold same_2m, va_path. cbn [take].
  pose proof (pt_index_range 39 va). pose proof (pt_index_range 30 va).
  pose proof (pt_index_range 21 va). pose proof (pt_index_range 39 vb).
  pose proof (pt_index_range 30 vb). pose proof (pt_index_range 21 vb). unfold idx in *.
  split; [intros [= -> -> ->]; done|]. intros Heq.
  assert (pt_index 39 va = pt_index 39 vb) by lia.
  assert (pt_index 30 va = pt_index 30 vb) by lia.
  assert (pt_index 21 va = pt_index 21 vb) by lia. congruence.
Qed.

(** Two pages of a range shorter than the address space are the same page
    only when they have the same number in it. *)
Lemma same_2m_in_range base n i va :
  base mod PAGE_SIZE_LARGE = 0 -> 0 <= i < n -> n <= 2 ^ 27 ->
  in_range base (n * PAGE_SIZE_LARGE) va ->
  same_2m va (base + i * PAGE_SIZE_LARGE) <-> in_range (base + i * PAGE_SIZE_LARGE) PAGE_SIZE_LARGE va.
Proof.
  intros Hb Hi Hn Hva. rewrite same_2m_number. unfold in_range, PAGE_SIZE_LARGE in *.
  change (2 ^ 21) with 2097152. rewrite Z.div_add by lia.
  pose proof (Z.div_mod base 2097152). pose proof (Z.div_mod va 2097152).
  pose proof (Z.mod_pos_bound va 2097152).
  set (b := base / 2097152) in *. set (v := va / 2097152) in *.
  assert (b <= v < b + n) as Hv by lia.
  split.
  - intros Heq. assert (v = b + i) as ->; [|lia].
    pose proof (Z.div_mod v (2 ^ 27)). pose proof (Z.div_mod (b + i) (2 ^ 27)). lia.
  - intros Hr. assert (v = b + i) as -> by lia. done.
Qed.

Lemma map_run_2m_ok n s tab paddr vaddr flag size len fuel :
  mm_ok s tab -> can_after K (2 * n) (frames s) ->
  0 <= paddr -> paddr + Z.of_nat n * PAGE_SIZE_LARGE <= 2 ^ 45 ->
  paddr mod PAGE_SIZE_LARGE = 0 -> vaddr mod PAGE_SIZE_LARGE = 0 ->
  0 <= vaddr -> vaddr + Z.of_nat n * PAGE_SIZE_LARGE < 2 ^ 64 -> Z.of_nat n <= 2 ^ 27 ->
  0 <= flag < 4096 -> Z.testbit flag 0 = true -> Z.testbit flag 7 = true ->
  0 <= len -> PAGE_SIZE_LARGE <= size < 2 ^ 64 ->
  size = len + Z.of_nat n * PAGE_SIZE_LARGE -> (n < fuel)%nat ->
  wp (map_run fuel (fun p v => map_page_p2v p v flag) PAGE_SIZE_LARGE
        (fun l => l <=? wrap64 (size - PAGE_SIZE_LARGE)) paddr vaddr len) s
    (fun x s' => exists p' v', x = inr (p', v', size) /\ (exists tab', mm_ok s' tab') /\
      pml4 s' = pml4 s /\
      (forall va, in_range vaddr (Z.of_nat n * PAGE_SIZE_LARGE) va ->
         mmu (ram s') (pml4 s') va = Some (paddr + (va - vaddr), flag)) /\
      forall va, (forall i, 0 <= i < Z.of_nat n -> ~ same_2m va (vaddr + i * PAGE_SIZE_LARGE)) ->
         mmu (ram s') (pml4 s') va = mmu (ram s) (pml4 s) va).
Proof.
  revert s tab paddr vaddr len fuel. induction n as [|n IH]; intros s tab paddr vaddr len fuel
    Hok Hcan Hp0 Hpb Hpm Hvm Hv0 Hvb Hn Hfl H0 H7 Hl Hsz Hsize Hfuel.
  - destruct fuel as [|fuel]; [lia|]. cbn [map_run].
    rewrite wrap64_small by (unfold PAGE_SIZE_LARGE in *; lia).
    rewrite (proj2 (Z.leb_gt _ _)) by (unfold PAGE_SIZE_LARGE in *; lia). apply wp_ret.
    exists paddr, vaddr. replace len with size by lia. split; [done|]. split; [by exists tab|].
    split; [done|]. split; [|done]. intros va Hva. unfold in_range in Hva. lia.
  - destruct fuel as [|fuel]; [lia|]. cbn [map_run].
    rewrite wrap64_small by (unfold PAGE_SIZE_LARGE in *; lia).
    rewrite (proj2 (Z.leb_le _ _)) by (unfold PAGE_SIZE_LARGE in *; lia). wp_steps.
    replace (2 * S n)%nat with (2 + 2 * n)%nat in Hcan by lia.
    eapply wp_mono; [apply (map_page_p2v_ok s tab (2 * n)); try done;
      unfold PAGE_SIZE_LARGE in *; lia|].
    intros r s1 (-> & (tab1 & Hok1) & Hcan1 & Hpml1 & _ & Hin1 & Hout1). cbn [Z.eqb OK].
    change (OK =? OK) with true. cbn iota.
    rewrite !wrap64_small by (unfold PAGE_SIZE_LARGE in *; lia).
    assert (Hpm' : (paddr + PAGE_SIZE_LARGE) mod PAGE_SIZE_LARGE = 0).
    { rewrite <- Zplus_mod_idemp_r, Z.mod_same, Z.add_0_r by done. done. }
    assert (Hvm' : (vaddr + PAGE_SIZE_LARGE) mod PAGE_SIZE_LARGE = 0).
    { rewrite <- Zplus_mod_idemp_r, Z.mod_same, Z.add_0_r by done. done. }
    eapply wp_mono.
    { pose proof (IH s1 tab1 (paddr + PAGE_SIZE_LARGE) (vaddr + PAGE_SIZE_LARGE)
        (len + PAGE_SIZE_LARGE) fuel Hok1 Hcan1) as IH'.
      rewrite wrap64_small in IH' by (unfold PAGE_SIZE_LARGE in *; lia).
      apply IH'; try done; unfold PAGE_SIZE_LARGE in *; lia. }
    intros x s2 (p' & v' & -> & Hok2 & Hpml2 & Hin2 & Hout2).
    exists p', v'. split; [done|]. split; [done|]. split; [congruence|]. split.
    + intros va Hva. destruct (decide (va < vaddr + PAGE_SIZE_LARGE)).
      * rewrite Hout2.
        { rewrite Hin1.
          - f_equal. f_equal. f_equal. unfold in_range, PAGE_SIZE_LARGE in *.
            pose proof (Z.div_mod vaddr 2097152).
            symmetry. apply (Z.mod_unique _ _ (vaddr / 2097152)); lia.
          - pose proof (same_2m_in_range vaddr (Z.of_nat (S n)) 0 va) as Hs.
            rewrite Z.add_0_r in Hs || idtac.
            replace (vaddr + 0 * PAGE_SIZE_LARGE) with vaddr in Hs by lia.
            apply Hs; [done|lia|done|done|]. unfold in_range in *. lia. }
        intros i Hi. replace (vaddr + PAGE_SIZE_LARGE + i * PAGE_SIZE_LARGE)
          with (vaddr + (i + 1) * PAGE_SIZE_LARGE) by lia.
        rewrite (same_2m_in_range vaddr (Z.of_nat (S n))) by (done || lia).
        unfold in_range, PAGE_SIZE_LARGE in *. lia.
      * rewrite Hin2 by (unfold in_range, PAGE_SIZE_LARGE in *; lia). f_equal. f_equal. lia.
    + intros va Hva. rewrite Hout2.
      * apply Hout1. specialize (Hva 0 ltac:(lia)).
        by replace (vaddr + 0 * PAGE_SIZE_LARGE) with vaddr in Hva by lia.
      * intros i Hi. specialize (Hva (i + 1) ltac:(lia)).
        by replace (vaddr + PAGE_SIZE_LARGE + i * PAGE_SIZE_LARGE)
          with (vaddr + (i + 1) * PAGE_SIZE_LARGE) by lia.
Qed.

(** ** Mapping a 4K page where a page table exists *)

Lemma next_table_existing s tab p q x r Q :
  mm_ok s tab -> tab p = Some q -> (length p < 3)%nat -> idx x -> tab (p ++ [x]) = Some r ->
  (P2V r <> 0 -> Q (P2V r) s) -> wp (next_table (P2V q) x) s Q.
Proof.
  intros Hok Hp Hlen Hx Hr HQ. destruct (table_range _ _ _ _ Hok Hp) as (Hq & _).
  pose proof (to_entry _ _ _ _ (mo_tab _ _ Hok) _ _ _ Hp Hlen Hx) as He. rewrite Hr in He.
  destruct He as (_ & _ & Hmask & _).
  destruct (table_range _ _ _ _ Hok Hr) as (Hrr & Hrm & Hnz).
  unfold next_table. wp_steps. apply wp_load; [done|done|]. rewrite Hmask.
  rewrite (proj2 (Z.eqb_neq r 0)) by (apply Hnz; by destruct p). wp_steps.
  apply HQ. destruct (P2V_aligned r Hrr Hrm) as (_ & Hv & _). by apply Z.eqb_neq.
Qed.

Lemma build_pte_existing s tab va q2 Q :
  mm_ok s tab -> tab [pt_index 39 va; pt_index 30 va] = Some q2 ->
  (forall v, v = P2V q2 + 8 * pt_index 21 va -> v <> 0 -> Q v s) ->
  wp (build_pte_with_addr va) s Q.
Proof.
  intros Hok Hq2 HQ. unfold build_pte_with_addr. wp_steps.
  destruct (to_parent _ _ _ _ (mo_tab _ _ Hok) [pt_index 39 va] _ _ Hq2) as [q1 Hq1].
  pose proof (to_root _ _ _ _ (mo_tab _ _ Hok)) as Hroot.
  destruct (table_range _ _ _ _ Hok Hroot) as (Hr & Hrm & _).
  rewrite page_mask_spec, Hrm, Z.sub_0_r by lia.
  eapply (next_table_existing s tab []); [done|done|cbn; lia|apply pt_index_range|exact Hq1|].
  intros Hv1. rewrite (proj2 (Z.eqb_neq _ _) Hv1). wp_steps.
  eapply (next_table_existing s tab [pt_index 39 va]);
    [done|done|cbn; lia|apply pt_index_range|exact Hq2|].
  intros Hv2. rewrite (proj2 (Z.eqb_neq _ _) Hv2). wp_steps. apply HQ; [done|].
  destruct (table_range _ _ _ _ Hok Hq2) as (Hr2 & _).
  rewrite P2V_small by (unfold PHYS_LIMIT, PAGE_SIZE_LARGE; lia).
  pose proof (pt_index_range 21 va) as Hi. unfold idx in Hi.
  change PD_SHIFT with 21. unfold PHYS_VIRT_START. lia.
Qed.

Lemma pt_for_map_existing s tab p q2 k q3 Q :
  mm_ok s tab -> tab p = Some q2 -> length p = 2%nat -> idx k -> tab (p ++ [k]) = Some q3 ->
  (P2V q3 <> 0 -> Q (P2V q3) s) -> wp (pt_for_map (P2V q2 + 8 * k)) s Q.
Proof.
  intros Hok Hq2 Hlen Hk Hq3 HQ. destruct (table_range _ _ _ _ Hok Hq2) as (Hr2 & _).
  destruct (table_range _ _ _ _ Hok Hq3) as (Hr3 & Hm3 & _).
  pose proof (to_entry _ _ _ _ (mo_tab _ _ Hok) _ _ _ Hq2 ltac:(lia) Hk) as He. rewrite Hq3 in He.
  destruct He as (Hpr & Hla & Hmask & Hr). unfold pt_for_map. wp_steps.
  apply wp_load; [done|done|]. set (e := ram s (q2 + 8 * k)) in *.
  rewrite has_flags_2m, Hla. cbn [andb].
  wp_steps. change PTE_P with (2 ^ 0). rewrite land_pow2_test by lia.
  unfold e_present in Hpr. rewrite Hpr. cbn [negb]. wp_steps.
  apply wp_load; [done|done|]. fold e. wp_steps. rewrite (page_mask_P2V e q3) by done.
  apply HQ. destruct (P2V_aligned q3 Hr3 Hm3) as (_ & Hv & _). by apply Z.eqb_neq.
Qed.

(** The flags [map_4k_page_p2v] stores: no [PTE_PS], always [PTE_G]. *)
Definition flags_4k (flag : Z) : Z := Z.lor (Z.land flag (lnot64 PTE_PS)) PTE_G.

Lemma flags_4k_spec flag :
  0 <= flag < 4096 -> 0 <= flags_4k flag < 4096 /\
  Z.testbit (flags_4k flag) 0 = Z.testbit flag 0.
Proof.
  intros Hf. unfold flags_4k. split.
  - change 4096 with (2 ^ 12). apply range_of_bits; [lia| |].
    + apply Z.lor_nonneg. split; [apply Z.land_nonneg; lia|done].
    + intros i Hi. rewrite Z.lor_spec, Z.land_spec, (testbit_above flag 12) by lia.
      apply (testbit_above PTE_G 12); [unfold PTE_G; lia|lia].
  - rewrite Z.lor_spec, Z.land_spec. change (Z.testbit PTE_G 0) with false.
    change (Z.testbit (lnot64 PTE_PS) 0) with true. by rewrite andb_true_r, orb_false_r.
Qed.

Lemma index_of_2m_base sh va :
  0 <= va < 2 ^ 64 -> 21 <= sh -> pt_index sh (Z.land va (lnot64 PAGE_2M_MASK)) = pt_index sh va.
Proof.
  intros Hva Hsh. rewrite !pt_index_spec by lia. f_equal.
  change PAGE_2M_MASK with (2 ^ 21 - 1). rewrite land_high by lia.
  replace (2 ^ sh) with (2 ^ 21 * 2 ^ (sh - 21)) by (rewrite <- Z.pow_add_r by lia; f_equal; lia).
  rewrite <- !Z.div_div by lia. f_equal.
  pose proof (Z.div_mod va (2 ^ 21)). pose proof (Z.mod_pos_bound va (2 ^ 21)).
  symmetry. apply (Z.div_unique _ _ _ 0); lia.
Qed.

Lemma map_4k_existing_ok s tab q3 paddr vaddr flag :
  mm_ok s tab -> 0 <= vaddr < 2 ^ 64 -> vaddr mod 4096 = 0 ->
  tab [pt_index 39 vaddr; pt_index 30 vaddr; pt_index 21 vaddr] = Some q3 ->
  0 <= paddr < 2 ^ 45 -> paddr mod 4096 = 0 -> 0 <= flag < 4096 -> Z.testbit flag 0 = true ->
  wp (map_4k_page_p2v paddr vaddr flag) s (fun r s' => r = OK /\ mm_ok s' tab /\
    frames s' = frames s /\ pml4 s' = pml4 s /\ tlb s' = vaddr :: tlb s /\
    forall va, mmu (ram s') (pml4 s') va =
      if decide (va_path va = va_path vaddr) then Some (paddr + va mod 4096, flags_4k flag)
      else mmu (ram s) (pml4 s) va).
Proof.
  intros Hok Hv Hvm Hq3 Hpa Hpm Hfl H0. unfold map_4k_page_p2v.
  rewrite !page_mask_true by done.
  assert (Z.land flag (lnot64 4095) = 0) as ->.
  { change 4095 with (2 ^ 12 - 1). rewrite land_high, Z.mod_small by lia. lia. }
  cbn [Z.eqb]. wp_steps.
  destruct (to_parent _ _ _ _ (mo_tab _ _ Hok) [pt_index 39 vaddr; pt_index 30 vaddr] _ _ Hq3)
    as [q2 Hq2].
  eapply (build_pte_existing s tab _ q2); [done|by rewrite !index_of_2m_base by lia|].
  intros v -> Hnz. rewrite (proj2 (Z.eqb_neq _ _) Hnz). wp_steps.
  rewrite index_of_2m_base by lia.
  eapply (pt_for_map_existing s tab [_; _]); [done|exact Hq2|done|apply pt_index_range|exact Hq3|].
  intros Hnz3. rewrite (proj2 (Z.eqb_neq _ _) Hnz3). wp_steps.
  destruct (table_range _ _ _ _ Hok Hq3) as (Hr3 & Hm3 & _).
  apply wp_store; [done|apply pt_index_range|]. unfold flush_tlb_one_page. wp_steps.
  rewrite <- Z.lor_assoc. fold (flags_4k flag). change PTE_SHIFT with 12.
  set (p := [pt_index 39 vaddr; pt_index 30 vaddr; pt_index 21 vaddr]) in *.
  set (l := pt_index 12 vaddr).
  set (m' := upd (q3 + 8 * l) (Z.lor paddr (flags_4k flag)) (ram s)).
  assert (tables_ok m' (pml4 s) tab (sp_free (frames s))) as Ht'.
  { by apply (store_pte (pml4 s) (ram s) tab _ p q3 l _ (mo_tab _ _ Hok) Hq3 eq_refl
      (pt_index_range 12 vaddr)). }
  split; [done|]. split; [split; [exact Ht'|apply Hok]|]. do 3 (split; [done|]).
  intros va. cbn [ram pml4 set_ram set_tlb]. fold m'.
  destruct (flags_4k_spec flag Hfl) as [Hfr Hf0].
  destruct (entry_or paddr (flags_4k flag)) as (Hm1 & Hm2 & Hm4 & _); [lia|done|done|].
  assert (va_path vaddr = p ++ [l]) as Hvp by done.
  case_decide as Hd.
  - unfold mmu. rewrite Hd, Hvp. rewrite (walk_root (pml4 s) m' tab _ p q3 [l] Ht' Hq3) by done.
    cbn [walk]. unfold m' at 1 2, upd. rewrite Z.eqb_refl. unfold e_present.
    rewrite Hm4, Hf0, H0 by lia. cbn [negb]. rewrite Hm1, Hm2.
    change (page_shift (length p)) with 12. rewrite shift_aligned by (lia || exact Hpm). done.
  - unfold mmu. erewrite (walk_frame (pml4 s) (ram s) m'); [done|apply Hok| |apply va_path_idx|done|].
    + eapply upd_only; [apply Hok|exact Hq3|apply pt_index_range].
    + intros (rest & Hrest). apply Hd. rewrite Hrest, Hvp.
      destruct rest as [|? ?]; [done|]. apply (f_equal length) in Hrest. discriminate.
Qed.
End maps.

(** ** Concrete states *)

(** An empty PML4 at physical 4096, two 2M pages for the allocator. *)
Definition boot_mm : mm (phy_page phymem) := MM (fun _ => 0) 4096 two_pages [].

Lemma two_pages_frames : sp_inv two_pages /\ forall y, sp_free two_pages y -> PAGE_SIZE_LARGE <= y.
Proof.
  destruct two_pages_inv as (Hinv & _).
  destruct (init_phy_page_ok (LP := phymem_large_pages) _ Hinv) as (lf & Hok & Hlen).
  assert (two_pages = init_phy_page (pp_src two_pages)) as Heq by reflexivity.
  rewrite Heq. split.
  - exists lf, []. split; [exact Hok|]. intros ->. discriminate Hlen.
  - intros y (lf' & lh' & Hok' & Ht).
    assert (lh' = []) as ->.
    { eapply (lseg_det _ None); [|done].
      apply (co_rep _ _ _ _ _ _ _ (ppo_cells _ _ _ _ Hok')). }
    destruct Ht as [Hc|(p & Hp & Hy)]; [by apply covers_nil in Hc|].
    destruct (lp_aligned (LargePages := phymem_large_pages) _ _ Hinv Hp) as [Hm Hb]. unfold in_range, PAGE_SIZE_LARGE in *.
    pose proof (Z.div_mod p 2097152). lia.
Qed.

Lemma two_pages_can_alloc : can_alloc 2 two_pages.
Proof.
  unfold can_alloc. cbn [can_after]. split; [done|]. eexists _, _. split; [vm_compute; reflexivity|].
  split; [lia|]. split; [done|]. eexists _, _. split; [vm_compute; reflexivity|]. split; [lia|].
  by split.
Qed.

Definition root_only : list Z -> option Z := fun p => if decide (p = []) then Some 4096 else None.

Lemma boot_mm_ok : mm_ok boot_mm root_only.
Proof.
  destruct two_pages_frames as [Hinv Hfree]. split; [|exact Hinv]. unfold root_only. split.
  - done.
  - intros p q. case_decide; [|done]. intros [= <-]. subst. cbn. repeat split; try lia. constructor.
  - intros p q. case_decide; done.
  - intros p p' q. repeat case_decide; congruence.
  - intros p x q. case_decide as Hd; [by destruct p|done].
  - intros p q x. case_decide; [|done]. intros _ _ _.
    rewrite decide_False by (by destruct p). left. done.
  - intros p q y. case_decide; [|done]. intros [= <-] Hy Hf.
    apply Hfree in Hf. unfold in_range, PAGE_SIZE_LARGE in *. lia.
Qed.

(** Address 0 has a whole chain of tables: PDP, PD and page table. *)
Definition chain_mm : mm (phy_page phymem) :=
  MM (upd 4096 0x2003 (upd 0x2000 0x3003 (upd 0x3000 0x4003 (fun _ => 0)))) 4096 two_pages [].
Definition chain_tab (p : list Z) : option Z :=
  if decide (p = []) then Some 4096
  else if decide (p = [0]) then Some 0x2000
  else if decide (p = [0; 0]) then Some 0x3000
  else if decide (p = [0; 0; 0]) then Some 0x4000
  else None.

Lemma chain_mm_ok : mm_ok chain_mm chain_tab.
Proof.
  destruct two_pages_frames as [Hinv Hfree]. split; [|exact Hinv].
  assert (forall p q, chain_tab p = Some q ->
    (p = [] /\ q = 4096) \/ (p = [0] /\ q = 0x2000) \/ (p = [0; 0] /\ q = 0x3000) \/
    (p = [0; 0; 0] /\ q = 0x4000)) as Hinvt.
  { intros p q. unfold chain_tab. repeat case_decide; naive_solver. }
  assert (forall p x q, chain_tab (p ++ [x]) = Some q -> x = 0 /\ exists r, chain_tab p = Some r) as Hpar.
  { intros p x q Hq. apply Hinvt in Hq.
    destruct Hq as [[Hp _]|[[Hp _]|[[Hp _]|[Hp _]]]].
    - by destruct p.
    - apply (app_inj_tail p []) in Hp as [-> ->]. by split; [|eexists].
    - apply (app_inj_tail p [0]) in Hp as [-> ->]. by split; [|eexists].
    - apply (app_inj_tail p [0; 0]) in Hp as [-> ->]. by split; [|eexists]. }
  split.
  - done.
  - intros p q Hq%Hinvt. destruct_or!; destruct_and!; subst; cbn; repeat split; try lia;
      repeat constructor; lia.
  - intros p q Hq%Hinvt. destruct_or!; destruct_and!; subst; done.
  - intros p p' q Hq%Hinvt Hq'%Hinvt. destruct_or!; destruct_and!; subst; done || lia.
  - intros p x q Hq. apply Hpar in Hq. tauto.
  - intros p q x Hq Hl Hx. unfold idx in Hx.
    destruct (decide (x = 0)) as [->|Hx0].
    + apply Hinvt in Hq. destruct_or!; destruct_and!; subst; cbn in Hl; try lia; by vm_compute.
    + destruct (chain_tab (p ++ [x])) as [r|] eqn:Hr; [by apply Hpar in Hr as [? _]|]. left.
      apply Hinvt in Hq. cbn [ram chain_mm]. unfold upd.
      destruct_or!; destruct_and!; subst; cbn in Hl; try lia;
        rewrite !(proj2 (Z.eqb_neq _ _)) by lia; done.
  - intros p q y Hq%Hinvt Hy Hf%Hfree. unfold in_range, PAGE_SIZE_LARGE in *.
    destruct_or!; destruct_and!; subst; lia.
Qed.

(** ** Properties *)

(** C10: [map_page_p2v] succeeds whenever the tables it may need can be
    allocated; then the processor translates every address of the 2M page at
    [vaddr] to [paddr] plus the offset with exactly the given flags, every other
    address as before (also when a 1G page had to be split into 2M entries), the
    page tables are still a tree of disjoint frames, and the TLB entry of
    [vaddr] is invalidated. *)
Theorem map_page_p2v_correct {T} `{FA : FrameAlloc T} (s : mm T) tab paddr vaddr flag
    (Hok : mm_ok s tab) (Hcan : can_alloc 2 (frames s))
    (Hp : 0 <= paddr < 2 ^ 45 /\ paddr mod PAGE_SIZE_LARGE = 0)
    (Hv : vaddr mod PAGE_SIZE_LARGE = 0)
    (Hf : 0 <= flag < 4096 /\ Z.testbit flag 0 = true /\ Z.testbit flag 7 = true) :
  exists s', map_page_p2v paddr vaddr flag s = Done (OK, s') /\
    (exists tab', mm_ok s' tab') /\ tlb s' = vaddr :: tlb s /\
    (forall va, same_2m va vaddr ->
       mmu (ram s') (pml4 s') va = Some (paddr + va mod PAGE_SIZE_LARGE, flag)) /\
    (forall va, ~ same_2m va vaddr -> mmu (ram s') (pml4 s') va = mmu (ram s) (pml4 s) va).
Proof.
  destruct Hp as [Hp Hpm]. destruct Hf as (Hf & H0 & H7).
  pose proof (map_page_p2v_ok s tab 0 paddr vaddr flag Hok Hcan Hp Hpm Hv Hf H0 H7) as Hwp.
  apply wp_run in Hwp as (r & s' & Hrun & -> & Hok' & _ & _ & Htlb & Hin & Hout).
  by exists s'.
Qed.

Lemma map_page_p2v_correct_witness :
  exists s', map_page_p2v PAGE_SIZE_LARGE (5 * PAGE_SIZE_LARGE) 0x83 boot_mm = Done (OK, s') /\
    mmu (ram s') (pml4 s') (5 * PAGE_SIZE_LARGE + 77) = Some (PAGE_SIZE_LARGE + 77, 0x83).
Proof.
  destruct (map_page_p2v_correct boot_mm root_only PAGE_SIZE_LARGE (5 * PAGE_SIZE_LARGE) 0x83)
    as (s' & Hrun & _ & _ & Hin & _).
  - exact boot_mm_ok.
  - apply two_pages_can_alloc.
  - unfold PAGE_SIZE_LARGE. split; [lia|reflexivity].
  - reflexivity.
  - split; [lia|]. split; reflexivity.
  - exists s'. split; [exact Hrun|]. apply Hin. reflexivity.
Defined.

(** [map_p2v] of [n] whole 2M pages maps the range linearly: every address
    of it translates to the same offset from [paddr], and no translation outside
    its pages changes. *)
Theorem map_p2v_large_correct {T} `{FA : FrameAlloc T} (s : mm T) tab paddr vaddr flag (n : nat)
    (Hok : mm_ok s tab) (Hcan : can_alloc (2 * n) (frames s)) (Hn : 0 < Z.of_nat n <= 2 ^ 27)
    (Hp : 0 <= paddr /\ paddr + Z.of_nat n * PAGE_SIZE_LARGE <= 2 ^ 45 /\
          paddr mod PAGE_SIZE_LARGE = 0)
    (Hv : 0 <= vaddr /\ vaddr + Z.of_nat n * PAGE_SIZE_LARGE < 2 ^ 64 /\
          vaddr mod PAGE_SIZE_LARGE = 0)
    (Hf : 0 <= flag < 4096 /\ Z.testbit flag 0 = true /\ Z.testbit flag 7 = true) :
  exists s', map_p2v paddr vaddr (Z.of_nat n * PAGE_SIZE_LARGE) flag s = Done (OK, s') /\
    (exists tab', mm_ok s' tab') /\
    (forall va, in_range vaddr (Z.of_nat n * PAGE_SIZE_LARGE) va ->
       mmu (ram s') (pml4 s') va = Some (paddr + (va - vaddr), flag)) /\
    (forall va, (forall i, 0 <= i < Z.of_nat n -> ~ same_2m va (vaddr + i * PAGE_SIZE_LARGE)) ->
       mmu (ram s') (pml4 s') va = mmu (ram s) (pml4 s) va).
Proof.
  destruct Hp as (Hp & Hpb & Hpm). destruct Hv as (Hv & Hvb & Hvm). destruct Hf as (Hf & H0 & H7).
  set (size := Z.of_nat n * PAGE_SIZE_LARGE) in *.
  assert (PAGE_SIZE_LARGE <= size < 2 ^ 64) as Hsz by (unfold size, PAGE_SIZE_LARGE in *; lia).
  enough (wp (map_p2v paddr vaddr size flag) s (fun r s' => r = OK /\ (exists tab', mm_ok s' tab') /\
    (forall va, in_range vaddr size va ->
       mmu (ram s') (pml4 s') va = Some (paddr + (va - vaddr), flag)) /\
    (forall va, (forall i, 0 <= i < Z.of_nat n -> ~ same_2m va (vaddr + i * PAGE_SIZE_LARGE)) ->
       mmu (ram s') (pml4 s') va = mmu (ram s) (pml4 s) va))) as Hwp.
  { apply wp_run in Hwp as (r & s' & Hrun & -> & Hrest). by exists s'. }
  unfold map_p2v. change PAGE_2M_MASK with (2 ^ 21 - 1). rewrite land_low_mod by lia.
  change (2 ^ 21) with PAGE_SIZE_LARGE. rewrite Hvm. cbn [Z.eqb]. wp_steps.
  rewrite Z.sub_0_r, (wrap64_small size) by (unfold PAGE_SIZE_LARGE in *; lia).
  rewrite (proj2 (Z.leb_le _ _)) by lia. eapply wp_mono.
  { apply (map_run_2m_ok (K := fun _ => True) n s tab); try done; try lia.
    unfold map_fuel, size, PAGE_SIZE_LARGE.
    replace (Z.of_nat n * 2097152) with (Z.of_nat n * 512 * 4096) by lia. rewrite Z_div_mult by lia. lia. }
  intros x s1 (p' & v' & -> & Hok1 & _ & Hin & Hout). wp_steps.
  unfold map_fuel. destruct (Z.to_nat (size / 4096 + 2)); cbn [map_run];
    rewrite Z.ltb_irrefl; wp_steps; done.
Qed.

Lemma map_p2v_large_correct_witness :
  exists s', map_p2v PAGE_SIZE_LARGE (5 * PAGE_SIZE_LARGE) (1 * PAGE_SIZE_LARGE) 0x83 boot_mm
    = Done (OK, s') /\
    mmu (ram s') (pml4 s') (5 * PAGE_SIZE_LARGE + 77) = Some (PAGE_SIZE_LARGE + 77, 0x83).
Proof.
  destruct (map_p2v_large_correct boot_mm root_only PAGE_SIZE_LARGE (5 * PAGE_SIZE_LARGE) 0x83 1)
    as (s' & Hrun & _ & Hin & _).
  - exact boot_mm_ok.
  - apply two_pages_can_alloc.
  - lia.
  - unfold PAGE_SIZE_LARGE. repeat split; lia.
  - unfold PAGE_SIZE_LARGE. repeat split; lia.
  - split; [lia|]. split; reflexivity.
  - exists s'. split; [exact Hrun|]. rewrite Hin; [reflexivity|].
    unfold in_range, PAGE_SIZE_LARGE. lia.
Defined.

(** Where a page table exists, [map_4k_page_p2v] changes the translation
    of exactly one 4K page, to [paddr] with the flags without [PTE_PS] and with
    [PTE_G], allocates nothing and invalidates the page's TLB entry. *)
Theorem map_4k_page_p2v_correct {T} `{FA : FrameAlloc T} (s : mm T) tab q3 paddr vaddr flag
    (Hok : mm_ok s tab)
    (Htab : tab [pt_index 39 vaddr; pt_index 30 vaddr; pt_index 21 vaddr] = Some q3)
    (Hv : 0 <= vaddr < 2 ^ 64 /\ vaddr mod 4096 = 0)
    (Hp : 0 <= paddr < 2 ^ 45 /\ paddr mod 4096 = 0)
    (Hf : 0 <= flag < 4096 /\ Z.testbit flag 0 = true) :
  exists s', map_4k_page_p2v paddr vaddr flag s = Done (OK, s') /\ mm_ok s' tab /\
    frames s' = frames s /\ tlb s' = vaddr :: tlb s /\
    forall va, mmu (ram s') (pml4 s') va =
      if decide (va_path va = va_path vaddr) then Some (paddr + va mod 4096, flags_4k flag)
      else mmu (ram s) (pml4 s) va.
Proof.
  destruct Hv as [Hv Hvm]. destruct Hp as [Hp Hpm]. destruct Hf as [Hf H0].
  pose proof (map_4k_existing_ok s tab q3 paddr vaddr flag Hok Hv Hvm Htab Hp Hpm Hf H0) as Hwp.
  apply wp_run in Hwp as (r & s' & Hrun & -> & Hok' & Hfr & _ & Htlb & Hmmu). by exists s'.
Qed.

Lemma map_4k_page_p2v_correct_witness :
  exists s', map_4k_page_p2v 0x9000 0x5000 0x83 chain_mm = Done (OK, s') /\
    mmu (ram s') (pml4 s') 0x5123 = Some (0x9123, 0x103).
Proof.
  destruct (map_4k_page_p2v_correct chain_mm chain_tab 0x4000 0x9000 0x5000 0x83)
    as (s' & Hrun & _ & _ & _ & Hmmu).
  - exact chain_mm_ok.
  - reflexivity.
  - split; [lia|reflexivity].
  - split; [lia|reflexivity].
  - split; [lia|reflexivity].
  - exists s'. split; [exact Hrun|]. rewrite Hmmu. reflexivity.
Defined.

(** Memory in which the frame at 6M holds what a previous owner left there. *)
Definition stale_mm : mm (phy_page phymem) :=
  MM (upd 0x600028 0x12345003 (upd 4096 0x2003 (upd 0x2000 0x3003 (fun _ => 0)))) 4096 two_pages [].

(** A page table made by [map_4k_page_p2v] is not cleared: mapping the
    page at 0 also maps address 0x5000, which was unmapped, to whatever frame
    the stale word of the new table names. *)
Theorem map_4k_new_table_stale :
  mmu (ram stale_mm) (pml4 stale_mm) 0x5000 = None /\
  exists s', map_4k_page_p2v 0x9000 0 0x83 stale_mm = Done (OK, s') /\
    mmu (ram s') (pml4 s') 0 = Some (0x9000, 0x103) /\
    mmu (ram s') (pml4 s') 0x5000 = Some (0x12345000, 0x003).
Proof.
  split; [vm_compute; reflexivity|]. eexists. split; [vm_compute; reflexivity|].
  split; vm_compute; reflexivity.
Qed.

(** Nothing left to allocate, and a word of interest in physical page 0. *)
Definition exhausted_mm : mm (phy_page phymem) :=
  MM (upd 0 0xdead (fun _ => 0)) 4096
     (init_phy_page (init_phy_mem (128 * PAGE_SIZE_LARGE) (128 * PAGE_SIZE_LARGE) 0)) [].

(** Out of memory is not reported: [P2V(0)] passes the [if (!p_pdp)] test,
    so [map_page_p2v] clears physical page 0, links it as PDP and as PD at once,
    and returns OK. *)
Theorem map_page_p2v_out_of_memory_ok :
  exists s', map_page_p2v PAGE_SIZE_LARGE (5 * PAGE_SIZE_LARGE) 0x83 exhausted_mm = Done (OK, s') /\
    ram exhausted_mm 0 = 0xdead /\ ram s' 0 = 0x007 /\ ram s' 4096 = 0x007.
Proof.
  eexists. split; [vm_compute; reflexivity|]. split; [reflexivity|].
  split; vm_compute; reflexivity.
Qed.
