(* ===== verification/PgBack.v ===== *)
(** * PgBack: ranges backed by whole 2M pages

    What [map_alloc_at] and [unmap_free_at] of arch/x86_64/pgtable.c do, over
    the frame allocator, to a range of whole 2M pages: every byte of memory is
    accounted for as free, used by a page table, or mapped in the range, also
    when the memory runs out half way and what was mapped is returned. *)
From Stdlib Require Import ZArith Lia.
From stdpp Require Import base tactics sets list option.
From S2P Require Import Prelude HoleList FreeSet Pages Layout PhyMem PhyPage PgTable PgWalk PgMap.
#[export] Set Warnings "-clear-no-such-hyp".

Section back.
Context {T : Type} `{FL : FrameLaws T}.
Implicit Types (s : mm T) (tab : list Z -> option Z) (pas : list Z).

Definition same_home (t t' : T) : Prop := forall a, fl_home t' a <-> fl_home t a.

(** Whenever one of the next [n] allocations of a 2M page succeeds, so do those
    of the page tables that mapping it may need. *)
Fixpoint can_back (n : nat) (t : T) : Prop :=
  match n with
  | O => True
  | S n' => forall r t', fa_alloc_large t = Done (r, t') -> r <> 0 -> can_after (can_back n') 2 t'
  end.

Lemma can_after_home P n t0 t :
  sp_inv t -> same_home t0 t -> can_after P n t ->
  can_after (fun t' => P t' /\ same_home t0 t') n t.
Proof.
  revert t. induction n as [|n IH]; intros t Hinv Hh; cbn [can_after]; [naive_solver|].
  intros (HP & r & t' & Hrun & Hr & Hcan). split; [done|]. exists r, t'. split; [done|].
  split; [done|]. pose proof (sp_alloc_ok t Hinv) as Hwp. unfold wp in Hwp. rewrite Hrun in Hwp.
  apply IH; [apply Hwp| |done]. intros a. rewrite (fl_home_small t r t' a Hinv Hrun). apply Hh.
Qed.

(** ** Pages of a range *)
Definition page_at (va : Z) (i : Z) : Z := va + i * PAGE_SIZE_LARGE.
Fixpoint page_list (va : Z) (n : nat) : list Z :=
  match n with
  | O => []
  | S n' => va :: page_list (va + PAGE_SIZE_LARGE) n'
  end.

(** [va] is none of the [n] pages from [base]. *)
Definition off_pages (base : Z) (n : Z) (va : Z) : Prop :=
  forall i, 0 <= i < n -> ~ same_2m va (page_at base i).

Lemma off_pages_S base n va :
  0 <= n -> off_pages base (n + 1) va <->
  ~ same_2m va base /\ off_pages (base + PAGE_SIZE_LARGE) n va.
Proof.
  intros Hn. unfold off_pages, page_at. split.
  - intros H. split.
    + specialize (H 0 ltac:(lia)). by replace (base + 0 * PAGE_SIZE_LARGE) with base in H by lia.
    + intros i Hi. specialize (H (i + 1) ltac:(lia)).
      by replace (base + PAGE_SIZE_LARGE + i * PAGE_SIZE_LARGE)
        with (base + (i + 1) * PAGE_SIZE_LARGE) by lia.
  - intros [H0 H] i Hi. destruct (decide (i = 0)) as [->|].
    + by replace (base + 0 * PAGE_SIZE_LARGE) with base by lia.
    + specialize (H (i - 1) ltac:(lia)).
      by replace (base + PAGE_SIZE_LARGE + (i - 1) * PAGE_SIZE_LARGE)
        with (base + i * PAGE_SIZE_LARGE) in H by lia.
Qed.

(** A range that fits the address space repeats no page. *)
Lemma pages_differ base i j :
  0 <= i < 2 ^ 27 -> 0 <= j < 2 ^ 27 -> same_2m (page_at base i) (page_at base j) -> i = j.
Proof.
  intros Hi Hj. rewrite same_2m_number. unfold page_at, PAGE_SIZE_LARGE.
  change (2 ^ 21) with 2097152. rewrite !Z.div_add by lia. intros Heq.
  pose proof (Z.div_mod (base / 2097152 + i) (2 ^ 27)).
  pose proof (Z.div_mod (base / 2097152 + j) (2 ^ 27)). lia.
Qed.

(** ** Leaves *)
Lemma leaf_tables s tab va e :
  mm_ok s tab -> leaf s va e ->
  exists q1 q2, tab [pt_index 39 va] = Some q1 /\
    tab [pt_index 39 va; pt_index 30 va] = Some q2 /\
    tab (take 3 (va_path va)) = None /\
    ram s (q2 + 8 * pt_index 21 va) = e /\ e_present e = true /\ e_large e = true.
Proof.
  intros [Ht Hinv] Hleaf. unfold leaf in Hleaf. unfold va_path in *.
  pose proof (pt_index_range 39 va) as Hi. pose proof (pt_index_range 30 va) as Hj.
  pose proof (pt_index_range 21 va) as Hk.
  set (i := pt_index 39 va) in *. set (j := pt_index 30 va) in *. set (k := pt_index 21 va) in *.
  cbn [take].
  pose proof (to_entry _ _ _ _ Ht [] _ i (to_root _ _ _ _ Ht) ltac:(cbn; lia) Hi) as H4.
  cbn [app length] in H4. cbn [PgWalk.walk] in Hleaf.
  destruct (e_present (ram s (pml4 s + 8 * i))) eqn:Hp4; [|done]. cbn [negb] in Hleaf.
  rewrite andb_false_r in Hleaf.
  destruct (tab [i]) as [q1|] eqn:Hq1; [|destruct H4 as [H4|[? _]]; [by rewrite H4 in Hp4|lia]].
  destruct H4 as (_ & _ & Hm4 & _). rewrite Hm4 in Hleaf.
  pose proof (to_entry _ _ _ _ Ht [i] _ j Hq1 ltac:(cbn; lia) Hj) as H3.
  cbn [app length] in H3.
  destruct (e_present (ram s (q1 + 8 * j))) eqn:Hp3; [|done]. cbn [negb] in Hleaf.
  destruct (e_large (ram s (q1 + 8 * j))) eqn:Hl3; [done|]. cbn [andb] in Hleaf.
  destruct (tab [i; j]) as [q2|] eqn:Hq2;
    [|destruct H3 as [H3|(_ & _ & H3 & _)]; [by rewrite H3 in Hp3|congruence]].
  destruct H3 as (_ & _ & Hm3 & _). rewrite Hm3 in Hleaf.
  pose proof (to_entry _ _ _ _ Ht [i; j] _ k Hq2 ltac:(cbn; lia) Hk) as H2.
  cbn [app length] in H2.
  destruct (e_present (ram s (q2 + 8 * k))) eqn:Hp2; [|done]. cbn [negb] in Hleaf.
  destruct (e_large (ram s (q2 + 8 * k))) eqn:Hl2; cbn in Hleaf.
  - injection Hleaf as <-. exists q1, q2. split; [done|]. split; [done|]. split; [|done].
    destruct (tab [i; j; k]); [|done]. destruct H2 as (_ & H2 & _). congruence.
  - by destruct (e_present (ram s (page_mask (ram s (q2 + 8 * k)) + 8 * pt_index 12 va))).
Qed.

Lemma leaf_mmu s pa va flag va' :
  leaf s va (Z.lor pa flag) -> 0 <= pa < 2 ^ 45 -> pa mod PAGE_SIZE_LARGE = 0 ->
  0 <= flag < 4096 -> Z.testbit flag 0 = true -> Z.testbit flag 7 = true -> same_2m va' va ->
  mmu (ram s) (pml4 s) va' = Some (pa + va' mod PAGE_SIZE_LARGE, flag).
Proof.
  intros Hleaf Hpa Hpm Hfl H0 H7 Hsame. unfold mmu.
  assert (PgWalk.walk (ram s) (pml4 s) 0 (va_path va') = Some (Z.lor pa flag, 2%nat)) as ->.
  { unfold leaf, va_path, same_2m in *. cbn [take va_path] in Hsame. unfold va_path in Hsame.
    cbn [take] in Hsame. injection Hsame as -> -> ->. cbn [PgWalk.walk] in *.
    repeat case_match; try done; simplify_eq/=. all: rewrite ?andb_true_r in *; congruence. }
  destruct (leaf_2m pa flag) as (Hmask & Hlow & _); try done.
  cbn zeta beta. rewrite Hmask, Hlow. change (page_shift 2) with 21.
  rewrite shift_aligned by (lia || exact Hpm). done.
Qed.

(** ** Pages with frames behind them *)
Definition in_frames pas (y : Z) : Prop := exists pa, pa ∈ pas /\ in_range pa PAGE_SIZE_LARGE y.

(** The pages from [va] are mapped to the frames [pas], which are 2M pages of
    the allocator, apart from its free memory, the tables and each other. *)
Record backed s tab (va flag : Z) pas : Prop := {
  bk_leaf i pa : pas !! i = Some pa -> leaf s (page_at va (Z.of_nat i)) (Z.lor pa flag);
  bk_page pa : pa ∈ pas -> pa mod PAGE_SIZE_LARGE = 0 /\ 0 < pa < 2 ^ 45;
  bk_home pa : pa ∈ pas -> fl_home (frames s) pa;
  bk_apart y : in_frames pas y -> ~ owned s tab y;
  bk_nodup : NoDup pas
}.

Lemma aligned_disjoint a b x :
  a mod PAGE_SIZE_LARGE = 0 -> b mod PAGE_SIZE_LARGE = 0 ->
  in_range a PAGE_SIZE_LARGE x -> in_range b PAGE_SIZE_LARGE x -> a = b.
Proof.
  unfold in_range, PAGE_SIZE_LARGE. intros Ha Hb Hx Hy.
  pose proof (Z.div_mod a 2097152). pose proof (Z.div_mod b 2097152). lia.
Qed.

Lemma backed_nil s tab va flag : backed s tab va flag [].
Proof.
  split; try (intros *; rewrite ?lookup_nil; by try intros ?%elem_of_nil); [|constructor].
  by intros y (pa & ?%elem_of_nil & _).
Qed.

Lemma in_frames_cons pa pas y :
  in_frames (pa :: pas) y <-> in_range pa PAGE_SIZE_LARGE y \/ in_frames pas y.
Proof. unfold in_frames. setoid_rewrite elem_of_cons. naive_solver. Qed.

Lemma page_at_S va i : page_at va (Z.of_nat (S i)) = page_at (va + PAGE_SIZE_LARGE) (Z.of_nat i).
Proof. unfold page_at. lia. Qed.
Lemma page_at_0 va : page_at va 0 = va.
Proof. unfold page_at. lia. Qed.

(** Another page in front. *)
Lemma backed_cons s tab va flag pa pas :
  leaf s va (Z.lor pa flag) -> pa mod PAGE_SIZE_LARGE = 0 -> 0 < pa < 2 ^ 45 ->
  fl_home (frames s) pa -> (forall y, in_range pa PAGE_SIZE_LARGE y -> ~ owned s tab y) ->
  (forall y, in_range pa PAGE_SIZE_LARGE y -> ~ in_frames pas y) ->
  backed s tab (va + PAGE_SIZE_LARGE) flag pas -> backed s tab va flag (pa :: pas).
Proof.
  intros Hl Hm Hb Hh Ha Hd []. split.
  - intros [|i] p; cbn [lookup list_lookup].
    + intros [= <-]. cbn. by rewrite page_at_0.
    + intros Hp. rewrite page_at_S. by apply bk_leaf0.
  - intros p [->|Hp]%elem_of_cons; [done|by apply bk_page0].
  - intros p [->|Hp]%elem_of_cons; [done|by apply bk_home0].
  - intros y [Hy|Hy]%in_frames_cons; [by apply Ha|by apply bk_apart0].
  - constructor; [|done]. intros Hin. apply (Hd pa); [unfold in_range, PAGE_SIZE_LARGE; lia|].
    exists pa. split; [done|unfold in_range, PAGE_SIZE_LARGE; lia].
Qed.

Lemma backed_uncons s tab va flag pa pas :
  backed s tab va flag (pa :: pas) ->
  leaf s va (Z.lor pa flag) /\ pa mod PAGE_SIZE_LARGE = 0 /\ 0 < pa < 2 ^ 45 /\
  fl_home (frames s) pa /\ (forall y, in_range pa PAGE_SIZE_LARGE y -> ~ owned s tab y) /\
  (forall y, in_range pa PAGE_SIZE_LARGE y -> ~ in_frames pas y) /\
  backed s tab (va + PAGE_SIZE_LARGE) flag pas.
Proof.
  intros []. apply list.NoDup_cons in bk_nodup0 as [Hni Hnd].
  destruct (bk_page0 pa) as [Hm Hb]; [by left|].
  split; [specialize (bk_leaf0 0%nat pa eq_refl); by rewrite page_at_0 in bk_leaf0|].
  split; [done|]. split; [done|]. split; [apply bk_home0; by left|].
  split; [intros y Hy; apply bk_apart0; exists pa; split; [by left|done]|]. split.
  - intros y Hy (p & Hp & Hy'). destruct (bk_page0 p) as [Hm' _]; [by right|].
    by rewrite (aligned_disjoint pa p y Hm Hm' Hy Hy') in Hni.
  - split; [|intros p Hp; apply bk_page0; by right|intros p Hp; apply bk_home0; by right| |done].
    + intros i p Hp. rewrite <- page_at_S. by apply bk_leaf0.
    + intros y Hy. apply bk_apart0, in_frames_cons. by right.
Qed.

(** ** Taking a page away *)
Lemma tables_ok_ext root m tab tab' fr :
  (forall p, tab p = tab' p) -> tables_ok m root tab fr -> tables_ok m root tab' fr.
Proof.
  intros Heq []. split; intros *; rewrite <- ?Heq; eauto.
Qed.

Lemma get_pte_table s tab va q2 Q :
  mm_ok s tab -> tab [pt_index 39 va; pt_index 30 va] = Some q2 ->
  (P2V q2 + 8 * pt_index 21 va <> 0 -> Q (P2V q2 + 8 * pt_index 21 va) s) ->
  wp (get_pte_with_addr va) s Q.
Proof.
  intros Hok Hq2 HQ. pose proof (mo_tab _ _ Hok) as Ht. pose proof (to_root _ _ _ _ Ht) as Hroot.
  destruct (to_parent _ _ _ _ Ht [pt_index 39 va] _ _ Hq2) as [q1 Hq1].
  destruct (table_range _ _ _ _ Hok Hroot) as (Hr & Hrm & _).
  destruct (table_range _ _ _ _ Hok Hq1) as (Hr1 & Hm1 & Hz1).
  destruct (table_range _ _ _ _ Hok Hq2) as (Hr2 & Hm2 & Hz2).
  pose proof (to_entry _ _ _ _ Ht [] _ (pt_index 39 va) Hroot ltac:(cbn; lia) (pt_index_range _ _)) as H4.
  cbn [app length] in H4. rewrite Hq1 in H4. destruct H4 as (_ & _ & H4 & _).
  pose proof (to_entry _ _ _ _ Ht [pt_index 39 va] _ (pt_index 30 va) Hq1 ltac:(cbn; lia) (pt_index_range _ _)) as H3.
  cbn [app length] in H3. rewrite Hq2 in H3. destruct H3 as (_ & _ & H3 & _).
  unfold get_pte_with_addr. wp_steps.
  rewrite page_mask_spec, Hrm, Z.sub_0_r by lia.
  apply wp_load; [done|apply pt_index_range|]. change PML4_SHIFT with 39. rewrite H4.
  rewrite (proj2 (Z.eqb_neq _ _)) by (by apply Hz1). wp_steps.
  apply wp_load; [done|apply pt_index_range|]. change PDP_SHIFT with 30. rewrite H3.
  rewrite (proj2 (Z.eqb_neq _ _)) by (by apply Hz2). wp_steps. change PD_SHIFT with 21. apply HQ.
  rewrite P2V_small by (unfold PHYS_LIMIT, PAGE_SIZE_LARGE; lia).
  pose proof (pt_index_range 21 va) as Hi. unfold idx in Hi. unfold PHYS_VIRT_START. lia.
Qed.

Lemma get_pte_leaf s tab va e Q :
  mm_ok s tab -> leaf s va e ->
  (forall q2, tab [pt_index 39 va; pt_index 30 va] = Some q2 -> 0 <= q2 < 2 ^ 45 ->
     tab (take 3 (va_path va)) = None -> ram s (q2 + 8 * pt_index 21 va) = e ->
     e_present e = true -> e_large e = true ->
     P2V q2 + 8 * pt_index 21 va <> 0 -> Q (P2V q2 + 8 * pt_index 21 va) s) ->
  wp (get_pte_with_addr va) s Q.
Proof.
  intros Hok Hleaf HQ. destruct (leaf_tables _ _ _ _ Hok Hleaf) as (q1 & q2 & _ & Hq2 & Hn & He & Hp & Hl).
  destruct (table_range _ _ _ _ Hok Hq2) as (Hr2 & _).
  eapply get_pte_table; [done|exact Hq2|]. by apply HQ.
Qed.

(** The effect of taking the frames [pas] behind the pages of [base] away. *)
Record released s tab (base : Z) pas s' tab' : Prop := {
  re_ok : mm_ok s' tab';
  re_tab p : tab' p = tab p;
  re_pml4 : pml4 s' = pml4 s;
  re_tlb : tlb s' = reverse (page_list base (length pas)) ++ tlb s;
  re_owned y : owned s' tab' y <-> owned s tab y \/ in_frames pas y;
  re_home : same_home (frames s) (frames s');
  re_in va i : 0 <= i < Z.of_nat (length pas) -> same_2m va (page_at base i) ->
    mmu (ram s') (pml4 s') va = None;
  re_out va : off_pages base (Z.of_nat (length pas)) va ->
    mmu (ram s') (pml4 s') va = mmu (ram s) (pml4 s) va;
  re_leaf va e : off_pages base (Z.of_nat (length pas)) va -> leaf s va e -> leaf s' va e
}.

Lemma same_2m_not_path va vb :
  ~ same_2m va vb ->
  ~ (exists rest, va_path va = [pt_index 39 vb; pt_index 30 vb] ++ pt_index 21 vb :: rest).
Proof. intros Hn Hex. by apply Hn, same_2m_path. Qed.

Lemma in_frames_nil y : ~ in_frames [] y.
Proof. by intros (? & ?%elem_of_nil & _). Qed.
Lemma in_frames_one pa y : in_frames [pa] y <-> in_range pa PAGE_SIZE_LARGE y.
Proof. rewrite in_frames_cons. pose proof (in_frames_nil y). tauto. Qed.

Lemma off_page_one base v : off_pages base 1 v <-> ~ same_2m v base.
Proof.
  rewrite (off_pages_S base 0) by done. split; [by intros []|].
  intros H. split; [done|]. intros x ?. lia.
Qed.
Lemma off_pages_cons {A} base (x : A) l v :
  off_pages base (Z.of_nat (length (x :: l))) v <->
  ~ same_2m v base /\ off_pages (base + PAGE_SIZE_LARGE) (Z.of_nat (length l)) v.
Proof. cbn [length]. rewrite Nat2Z.inj_succ. apply off_pages_S. lia. Qed.

(** The first page of a range is none of the others. *)
Lemma first_page_off base n v :
  n < 2 ^ 27 -> same_2m v base -> off_pages (base + PAGE_SIZE_LARGE) n v.
Proof.
  intros Hn Hv i Hi Hi'. assert (0 = i + 1); [|lia].
  apply (pages_differ base); [lia|lia|]. unfold same_2m in *.
  rewrite page_at_0, <- Hv, Hi'.
  by replace (page_at (base + PAGE_SIZE_LARGE) i) with (page_at base (i + 1)) by (unfold page_at; lia).
Qed.

(** Freeing the frame of a leaf and clearing the leaf. *)
Lemma release_page_ok s tab va flag pa q2 t' l' :
  mm_ok s tab -> leaf s va (Z.lor pa flag) ->
  tab [pt_index 39 va; pt_index 30 va] = Some q2 -> tab (take 3 (va_path va)) = None ->
  pa mod PAGE_SIZE_LARGE = 0 ->
  (forall y, in_range pa PAGE_SIZE_LARGE y -> ~ owned s tab y) ->
  sp_inv t' -> same_home (frames s) t' ->
  (forall x, sp_free t' x <-> sp_free (frames s) x \/ in_range pa PAGE_SIZE_LARGE x) ->
  l' = va :: tlb s ->
  released s tab va [pa] (MM (upd (q2 + 8 * pt_index 21 va) 0 (ram s)) (pml4 s) t' l') tab.
Proof.
  intros Hok Hleaf Hq2 Hn Hpm Hap Hinv Hhome Hfree ->. pose proof (mo_tab _ _ Hok) as Ht.
  set (i := pt_index 39 va) in *. set (j := pt_index 30 va) in *. set (k := pt_index 21 va) in *.
  assert (idx k) as Hk by apply pt_index_range.
  set (m' := upd (q2 + 8 * k) 0 (ram s)).
  assert (tables_ok m' (pml4 s) tab (sp_free t')) as Ht'.
  { apply (tables_ok_ext _ _ (set_tab [i; j; k] None tab)).
    { intros p. unfold set_tab. case_decide as Hd; [|done]. by rewrite Hd. }
    pose proof (store_leaf (pml4 s) (ram s) tab (sp_free (frames s)) [i; j] q2 k 0 Ht Hq2
      eq_refl Hk ltac:(by left)) as [].
    split; try done. intros p q y Hp Hy [Hf|Hf]%Hfree; [by apply (to_fresh p q y)|].
    apply (Hap y Hf). right. exists p, q. split; [|done]. unfold set_tab in Hp. by case_decide. }
  assert (Hwalk : forall v, ~ same_2m v va ->
    PgWalk.walk m' (pml4 s) 0 (va_path v) = PgWalk.walk (ram s) (pml4 s) 0 (va_path v)).
  { intros v Hv. eapply (walk_frame _ _ _ tab _ [i; j] k);
      [exact Ht| |apply va_path_idx|done|by apply same_2m_not_path].
    by eapply upd_only. }
  change (Z.of_nat (length [pa])) with 1 in *.
  split; change (Z.of_nat (length [pa])) with 1; cbn [ram pml4 tlb frames]; try done.
  - intros y. rewrite in_frames_one. unfold owned. cbn [frames]. rewrite Hfree. tauto.
  - intros v x Hx Hs. assert (x = 0) as -> by lia. rewrite page_at_0 in Hs.
    apply same_2m_path in Hs as (rest & Hpath).
    change (va_path v = [i; j] ++ k :: rest) in Hpath. unfold mmu. rewrite Hpath.
    destruct rest as [|y rest]; [apply (f_equal length) in Hpath; discriminate|].
    rewrite (walk_root (pml4 s) m' tab _ [i; j] q2 (k :: y :: rest) Ht') by done.
    cbn [PgWalk.walk]. unfold m', upd. by rewrite Z.eqb_refl.
  - intros v Hv%off_page_one. unfold mmu. by rewrite Hwalk.
  - intros v e Hv%off_page_one Hl. unfold leaf. cbn [ram pml4]. by rewrite Hwalk.
Qed.

Lemma released_nil s tab base : mm_ok s tab -> released s tab base [] s tab.
Proof.
  intros Hok. split; try done.
  - intros y. pose proof (in_frames_nil y). tauto.
  - intros va i Hi. cbn in Hi. lia.
Qed.

Lemma released_cons s tab base pa pas s1 tab1 s2 tab2 :
  Z.of_nat (length pas) < 2 ^ 27 ->
  released s tab base [pa] s1 tab1 ->
  released s1 tab1 (base + PAGE_SIZE_LARGE) pas s2 tab2 ->
  released s tab base (pa :: pas) s2 tab2.
Proof.
  intros Hlen [] []. change (Z.of_nat (length [pa])) with 1 in *.
  assert (forall v, same_2m v base -> mmu (ram s1) (pml4 s1) v = None) as Hfirst.
  { intros v Hv. apply (re_in0 v 0); [lia|]. by rewrite page_at_0. }
  setoid_rewrite off_page_one in re_out0. setoid_rewrite off_page_one in re_leaf0.
  split; [done|congruence|congruence| | | | | |].
  - rewrite re_tlb1, re_tlb0. cbn [length page_list]. change (reverse [base]) with [base].
    rewrite reverse_cons. by rewrite <- (assoc_L app).
  - intros y. rewrite re_owned1, re_owned0, in_frames_one, in_frames_cons. tauto.
  - intros a. by rewrite (re_home1 a).
  - intros v i Hi Hv. cbn [length] in Hi. destruct (decide (i = 0)) as [->|].
    + rewrite page_at_0 in Hv. rewrite re_out1; [by apply Hfirst|]. by apply first_page_off.
    + apply (re_in1 v (i - 1)); [lia|].
      replace (page_at (base + PAGE_SIZE_LARGE) (i - 1)) with (page_at base i); [done|].
      unfold page_at. lia.
  - intros v [Hv1 Hv2]%off_pages_cons. by rewrite re_out1, re_out0.
  - intros v e [Hv1 Hv2]%off_pages_cons Hl. by apply re_leaf1, re_leaf0.
Qed.

(** What is still backed stays so. *)
Lemma released_backed s tab base pa pas flag s1 tab1 :
  Z.of_nat (length pas) < 2 ^ 27 ->
  backed s tab base flag (pa :: pas) -> released s tab base [pa] s1 tab1 ->
  backed s1 tab1 (base + PAGE_SIZE_LARGE) flag pas.
Proof.
  intros Hlen (_ & _ & _ & _ & _ & Hd & [])%backed_uncons [].
  change (Z.of_nat (length [pa])) with 1 in *. split; try done.
  - intros i p Hp. apply re_leaf0; [|by apply bk_leaf0]. apply off_page_one. intros Hs.
    apply lookup_lt_Some in Hp. apply (first_page_off base (Z.of_nat (length pas))) in Hs; [|done].
    by apply (Hs (Z.of_nat i)); [lia|].
  - intros p Hp. by apply re_home0, bk_home0.
  - intros y Hy [Ho|Ho%in_frames_one]%re_owned0; [by apply (bk_apart0 y)|by apply (Hd y)].
Qed.

Lemma large_flag pa flag :
  0 < pa < 2 ^ 45 -> pa mod PAGE_SIZE_LARGE = 0 -> 0 <= flag < 4096 ->
  Z.testbit flag 0 = true -> Z.testbit flag 7 = true ->
  Z.lor pa flag <> 0 /\ has_flags (Z.lor pa flag) (Z.lor PTE_PS PTE_P) = true /\
  Z.land (Z.lor pa flag) (lnot64 PAGE_2M_MASK) = pa.
Proof.
  intros Hpa Hpm Hfl H0 H7. unfold PAGE_SIZE_LARGE in Hpm.
  assert (pa mod 4096 = 0) as Hm.
  { pose proof (Z.div_mod pa 2097152). replace pa with (pa / 2097152 * 512 * 4096) by lia.
    apply Z.mod_mul. lia. }
  destruct (entry_or pa flag) as (Hmask & Hlow & Hbits & Hr); [lia|done|done|].
  rewrite page_mask_spec in Hmask by done.
  change 4095 with (2 ^ 12 - 1) in Hlow. rewrite land_low_mod in Hlow by lia.
  change (2 ^ 12) with 4096 in Hlow. split; [|split].
  - intros Hz. specialize (Hbits 0 ltac:(lia)). rewrite Hz, H0 in Hbits. done.
  - rewrite has_flags_2m. unfold e_large, e_present. by rewrite !Hbits, H7, H0 by lia.
  - change PAGE_2M_MASK with (2 ^ 21 - 1). rewrite land_high by lia.
    assert (Z.lor pa flag = pa + flag) as -> by lia.
    change (2 ^ 21) with 2097152.
    rewrite (Z.add_mod pa), Hpm, Z.add_0_l, Z.mod_mod, (Z.mod_small flag) by lia. lia.
Qed.

Lemma released_closed s tab base flag pas s' tab' :
  closed (frames s) -> backed s tab base flag pas -> released s tab base pas s' tab' ->
  closed (frames s').
Proof.
  intros Hcl Hb Hr a Ha Hfree. apply (re_home _ _ _ _ _ _ Hr).
  destruct (decide (a ∈ pas)) as [Hin|Hnin]; [by apply (bk_home _ _ _ _ _ Hb)|].
  apply Hcl; [done|]. intros x Hx. specialize (Hfree x Hx).
  destruct (proj1 (re_owned _ _ _ _ _ _ Hr x) (or_introl Hfree)) as [[|(p & q & Hp & Hq)]|(pa & Hpa & Hx')].
  - done.
  - exfalso. rewrite <- (re_tab _ _ _ _ _ _ Hr) in Hp.
    by apply (to_fresh _ _ _ _ (mo_tab _ _ (re_ok _ _ _ _ _ _ Hr)) p q x Hp Hq).
  - destruct (bk_page _ _ _ _ _ Hb pa Hpa) as [Hpm _].
    by rewrite (aligned_disjoint a pa x Ha Hpm Hx Hx') in Hnin.
Qed.

(** [unmap_free_at] of a backed range gives every frame back. *)
Lemma unmap_free_ok pas : forall s tab va flag fuel,
  mm_ok s tab -> backed s tab va flag pas -> 0 <= flag < 4096 ->
  Z.testbit flag 0 = true -> Z.testbit flag 7 = true ->
  0 <= va -> va + Z.of_nat (length pas) * PAGE_SIZE_LARGE < 2 ^ 64 ->
  va mod PAGE_SIZE_LARGE = 0 -> Z.of_nat (length pas) < 2 ^ 27 -> (length pas < fuel)%nat ->
  wp (unmap_free_at_impl fuel va (Z.of_nat (length pas) * PAGE_SIZE_LARGE) true) s
    (fun _ s' => exists tab', released s tab va pas s' tab').
Proof.
  induction pas as [|pa pas IH]; intros s tab va flag fuel Hok Hb Hfl H0 H7 Hva Hvb Hvm Hlen Hfuel;
    (destruct fuel as [|fuel]; [cbn in Hfuel; lia|]); cbn [unmap_free_at_impl].
  - cbn [length]. wp_steps. exists tab. by apply released_nil.
  - destruct (backed_uncons _ _ _ _ _ _ Hb) as (Hl & Hpm & Hpb & Hh & Ha & Hd & _).
    cbn [length] in *. rewrite Nat2Z.inj_succ in *.
    rewrite (proj2 (Z.eqb_neq _ 0)) by (unfold PAGE_SIZE_LARGE; lia).
    assert (Z.land va (lnot64 PAGE_2M_MASK) = va) as Hva2.
    { change PAGE_2M_MASK with (2 ^ 21 - 1). rewrite land_high by (unfold PAGE_SIZE_LARGE in *; lia).
      change (2 ^ 21) with PAGE_SIZE_LARGE. rewrite Hvm. lia. }
    rewrite Hva2, Z.eqb_refl. wp_steps.
    eapply get_pte_leaf; [done|exact Hl|]. intros q2 Hq2 Hr2 Hn He Hpr Hla Hnz.
    rewrite (proj2 (Z.eqb_neq _ _) Hnz). wp_steps.
    apply wp_load; [done|apply pt_index_range|]. rewrite He.
    destruct (large_flag pa flag) as (Hez & Hfs & Hea); try done.
    rewrite (proj2 (Z.eqb_neq _ _) Hez), Hfs. wp_steps. cbn [andb].
    rewrite (proj2 (Z.leb_le _ _)) by (unfold PAGE_SIZE_LARGE; lia). rewrite Hea. wp_steps.
    unfold on_frames. wp_steps. eapply wp_mono.
    { apply (fl_free_ok (frames s) pa); [apply Hok|done|].
      intros x Hx Hf. apply (Ha x Hx). by left. }
    cbn. intros _ t' (Hinv' & Hhome' & Hfree'). wp_steps.
    apply wp_store; [done|apply pt_index_range|]. unfold flush_tlb_one_page. wp_steps.
    pose proof (release_page_ok s tab va flag pa q2 t' _ Hok Hl Hq2 Hn Hpm Ha Hinv' Hhome' Hfree' eq_refl) as Hrel.
    set (s1 := MM _ _ t' _) in Hrel. change (set_tlb _ _) with s1.
    rewrite wrap64_small by (unfold PAGE_SIZE_LARGE in *; lia).
    replace (Z.succ (Z.of_nat (length pas)) * PAGE_SIZE_LARGE - PAGE_SIZE_LARGE)
      with (Z.of_nat (length pas) * PAGE_SIZE_LARGE) by lia.
    eapply wp_mono.
    { apply (IH s1 tab (va + PAGE_SIZE_LARGE) flag); try done; try lia.
      - apply Hrel.
      - eapply released_backed; [|exact Hb|exact Hrel]. lia.
      - unfold PAGE_SIZE_LARGE. lia.
      - rewrite <- Zplus_mod_idemp_r, Z.mod_same, Z.add_0_r by done. done. }
    intros _ s' (tab' & Hrel'). exists tab'. eapply released_cons; [lia|exact Hrel|exact Hrel'].
Qed.

(** ** Backing a range *)

(** The effect of mapping the pages of [base] to fresh frames [pas]. *)
Record gained s tab (base flag : Z) pas s' tab' : Prop := {
  ga_ok : mm_ok s' tab';
  ga_pml4 : pml4 s' = pml4 s;
  ga_tlb : tlb s' = reverse (page_list base (length pas)) ++ tlb s;
  ga_backed : backed s' tab' base flag pas;
  ga_owned y : owned s tab y <-> owned s' tab' y \/ in_frames pas y;
  ga_keeps : keeps tab tab';
  ga_free y : sp_free (frames s') y -> sp_free (frames s) y;
  ga_home : same_home (frames s) (frames s');
  ga_tab p : (3 <= length p)%nat -> tab p = None -> tab' p = None;
  ga_out va : off_pages base (Z.of_nat (length pas)) va ->
    mmu (ram s') (pml4 s') va = mmu (ram s) (pml4 s) va;
  ga_leaf va e : off_pages base (Z.of_nat (length pas)) va -> leaf s va e -> leaf s' va e
}.

Lemma gained_nil s tab base flag t' :
  mm_ok s tab -> sp_inv t' -> same_home (frames s) t' ->
  (forall x, sp_free t' x <-> sp_free (frames s) x) ->
  gained s tab base flag [] (set_frames t' s) tab.
Proof.
  intros [Ht Hinv] Hinv' Hh Hf. split; try done.
  - split; [|done]. eapply tables_ok_mono; [exact Ht|]. intros y. apply Hf.
  - apply backed_nil.
  - intros y. pose proof (in_frames_nil y). unfold owned. cbn [frames set_frames]. rewrite Hf. tauto.
  - by intros p q.
  - intros y. apply Hf.
Qed.

Lemma gained_cons s tab base flag pa pas s1 tab1 s2 tab2 :
  Z.of_nat (length pas) < 2 ^ 27 ->
  gained s tab base flag [pa] s1 tab1 ->
  gained s1 tab1 (base + PAGE_SIZE_LARGE) flag pas s2 tab2 ->
  gained s tab base flag (pa :: pas) s2 tab2.
Proof.
  intros Hlen [] [].
  destruct (backed_uncons _ _ _ _ _ _ ga_backed0) as (Hl & Hpm & Hpb & Hh & Ha & _ & _).
  change (Z.of_nat (length [pa])) with 1 in *.
  split; [done|congruence| | | | | | | | |].
  - rewrite ga_tlb1, ga_tlb0. cbn [length page_list]. change (reverse [base]) with [base].
    rewrite reverse_cons. by rewrite <- (assoc_L app).
  - apply backed_cons; try done.
    + apply ga_leaf1; [|done]. by apply first_page_off.
    + by apply ga_home1.
    + intros y Hy Ho. apply (Ha y Hy), ga_owned1. by left.
    + intros y Hy Hf. apply (Ha y Hy), ga_owned1. by right.
  - intros y. rewrite ga_owned0, ga_owned1, in_frames_one, in_frames_cons. tauto.
  - intros p q Hp. by apply ga_keeps1, ga_keeps0.
  - intros y Hy. by apply ga_free0, ga_free1.
  - intros a. by rewrite (ga_home1 a).
  - intros p Hp Hn. by apply ga_tab1, ga_tab0.
  - intros v [Hv1 Hv2]%off_pages_cons. rewrite ga_out1 by done. by apply ga_out0, off_page_one.
  - intros v e [Hv1 Hv2]%off_pages_cons Hl'. apply ga_leaf1; [done|].
    by apply ga_leaf0; [apply off_page_one|].
Qed.

Lemma alloc_map_2m_ok s tab n va flag :
  mm_ok s tab -> closed (frames s) -> can_back (S n) (frames s) ->
  va mod PAGE_SIZE_LARGE = 0 -> 0 <= flag < 4096 ->
  Z.testbit flag 0 = true -> Z.testbit flag 7 = true -> tab (take 3 (va_path va)) = None ->
  wp (alloc_map_2m flag va) s (fun r s' =>
    r = ENOMEM /\ gained s tab va flag [] s' tab \/
    r = OK /\ exists pa tab', gained s tab va flag [pa] s' tab' /\ can_back n (frames s')).
Proof.
  intros Hok Hcl Hcan Hvm Hfl H0 H7 Hvac. unfold alloc_map_2m, on_frames. wp_steps.
  pose proof (fl_alloc_ok (frames s) (mo_inv _ _ Hok)) as Hwp.
  apply wp_run in Hwp as (r & t' & Hrun & Hinv' & Hh & Hres). unfold wp. rewrite Hrun.
  destruct Hres as [(-> & Hf)|(Hrm & Hrb & Hin & Hf)].
  { left. split; [done|]. by apply gained_nil. }
  rewrite (proj2 (Z.eqb_neq r 0)) by lia.
  fold (wp (map_page_p2v r va flag) (set_frames t' s) (fun r s' =>
    r = ENOMEM /\ gained s tab va flag [] s' tab \/
    r = OK /\ exists pa tab', gained s tab va flag [pa] s' tab' /\ can_back n (frames s'))).
  assert (mm_ok (set_frames t' s) tab) as Hok'.
  { split; [|done]. eapply tables_ok_mono; [apply Hok|]. intros y Hy. by apply Hf. }
  assert (forall y, owned s tab y <-> owned (set_frames t' s) tab y \/ in_range r PAGE_SIZE_LARGE y) as Hown.
  { intros y. unfold owned. cbn [frames set_frames]. rewrite Hf. split.
    - intros [Hy|Hy]; [|by left; right].
      destruct (decide (r <= y < r + PAGE_SIZE_LARGE)) as [Hd|Hd]; [by right|by left; left].
    - intros [[[Hy _]|Hy]|Hy]; [by left|by right|left; by apply Hin]. }
  assert (forall y, in_range r PAGE_SIZE_LARGE y -> ~ owned (set_frames t' s) tab y) as Hapart.
  { intros y Hy [[_ Hn]%Hf|(p & q & Hp & Hy')]; [done|].
    apply (to_fresh _ _ _ _ (mo_tab _ _ Hok) p q y Hp Hy'). by apply Hin. }
  eapply wp_mono.
  { apply (map_page_p2v_full (K := fun u => can_back n u /\ same_home t' u) _ tab 0); try done; [|lia].
    cbn [Nat.add]. apply can_after_home; [done|done|]. apply (Hcan r t'); [done|lia]. }
  intros x s' (-> & tab' & Hm). right. split; [done|]. exists r, tab'.
  destruct (can_after_now _ _ _ (mp_can _ _ _ _ _ _ _ _ Hm)) as [Hcb Hh']. split; [|done].
  pose proof (mp_owned _ _ _ _ _ _ _ _ Hm Hvac) as Ho.
  change (Z.of_nat (length [r])) with 1. split.
  - apply Hm.
  - by rewrite (mp_pml4 _ _ _ _ _ _ _ _ Hm).
  - by rewrite (mp_tlb _ _ _ _ _ _ _ _ Hm).
  - apply backed_cons; try done.
    + apply Hm.
    + apply Hh', Hh, Hcl; [done|]. exact Hin.
    + intros y Hy Hy'%Ho. by apply (Hapart y).
    + intros y _. apply in_frames_nil.
    + apply backed_nil.
  - intros y. by rewrite Hown, Ho, in_frames_one.
  - by apply (mp_keeps _ _ _ _ _ _ _ _ Hm).
  - intros y Hy%(mp_free _ _ _ _ _ _ _ _ Hm). by apply Hf in Hy as [].
  - intros a. rewrite (Hh' a). apply Hh.
  - apply Hm.
  - intros v Hv%off_page_one. by apply (mp_out _ _ _ _ _ _ _ _ Hm).
  - intros v e Hv%off_page_one Hl. by apply (mp_leaves _ _ _ _ _ _ _ _ Hm).
Qed.

(** No page table behind any of the [n] pages from [base]. *)
Definition no_tables tab (base : Z) (n : nat) : Prop :=
  forall i, 0 <= i < Z.of_nat n -> tab (take 3 (va_path (page_at base i))) = None.

Lemma no_tables_S tab base n :
  no_tables tab base (S n) ->
  tab (take 3 (va_path base)) = None /\ no_tables tab (base + PAGE_SIZE_LARGE) n.
Proof.
  intros H. split.
  - specialize (H 0 ltac:(lia)). by rewrite page_at_0 in H.
  - intros i Hi. specialize (H (i + 1) ltac:(lia)).
    by replace (page_at (base + PAGE_SIZE_LARGE) i) with (page_at base (i + 1)) by (unfold page_at; lia).
Qed.

Lemma gained_closed s tab base flag pas s1 tab1 :
  closed (frames s) -> gained s tab base flag pas s1 tab1 -> closed (frames s1).
Proof.
  intros Hcl [] a Ha Hfree. apply ga_home0, Hcl; [done|]. intros x Hx. by apply ga_free0, Hfree.
Qed.

(** The 2M loop of [map_alloc_at]: it stops at the end of the range or where
    the memory is exhausted. *)
Lemma alloc_run_ok n : forall s tab va len size flag fuel,
  mm_ok s tab -> closed (frames s) -> can_back n (frames s) -> no_tables tab va n ->
  va mod PAGE_SIZE_LARGE = 0 -> 0 <= va -> va + Z.of_nat n * PAGE_SIZE_LARGE < 2 ^ 64 ->
  Z.of_nat n < 2 ^ 27 -> 0 <= flag < 4096 ->
  Z.testbit flag 0 = true -> Z.testbit flag 7 = true ->
  0 <= len -> PAGE_SIZE_LARGE <= size < 2 ^ 64 ->
  size = len + Z.of_nat n * PAGE_SIZE_LARGE -> (n < fuel)%nat ->
  wp (alloc_run fuel (alloc_map_2m flag) PAGE_SIZE_LARGE
        (fun l => l <=? wrap64 (size - PAGE_SIZE_LARGE)) va len) s
    (fun x s' => exists pas tab',
       gained s tab va flag pas s' tab' /\ (length pas <= n)%nat /\
       x = (if decide (length pas = n) then OK else ENOMEM,
            (page_at va (Z.of_nat (length pas)),
             len + Z.of_nat (length pas) * PAGE_SIZE_LARGE))).
Proof.
  induction n as [|n IH]; intros s tab va len size flag fuel Hok Hcl Hcan Hno Hvm Hv0 Hvb Hn Hfl H0 H7
    Hl Hsz Hsize Hfuel; (destruct fuel as [|fuel]; [lia|]); cbn [alloc_run];
    rewrite wrap64_small by (unfold PAGE_SIZE_LARGE in *; lia).
  - rewrite (proj2 (Z.leb_gt _ _)) by (unfold PAGE_SIZE_LARGE in *; lia). apply wp_ret.
    exists [], tab. split; [|split; [done|]].
    + replace s with (set_frames (frames s) s) at 2 by (by destruct s).
      apply gained_nil; [done|apply Hok|done|done].
    + cbn [length]. rewrite decide_True by done. unfold page_at. do 2 f_equal; lia.
  - rewrite (proj2 (Z.leb_le _ _)) by (unfold PAGE_SIZE_LARGE in *; lia). wp_steps.
    destruct (no_tables_S _ _ _ Hno) as [Hno0 Hno1].
    eapply wp_mono; [by apply (alloc_map_2m_ok s tab n)|].
    intros r s1 [[-> Hg]|(-> & pa & tab1 & Hg & Hcan1)].
    { change (ENOMEM =? OK) with false. cbn iota. apply wp_ret. exists [], tab. split; [done|].
      split; [cbn; lia|]. cbn [length]. rewrite decide_False by lia. unfold page_at.
      do 2 f_equal; lia. }
    change (OK =? OK) with true. cbn iota.
    rewrite wrap64_small by (unfold PAGE_SIZE_LARGE in *; lia).
    pose proof (IH s1 tab1 (va + PAGE_SIZE_LARGE) (len + PAGE_SIZE_LARGE) size flag fuel) as IH'.
    rewrite wrap64_small in IH' by (unfold PAGE_SIZE_LARGE in *; lia). eapply wp_mono.
    { apply IH'; try done; try (unfold PAGE_SIZE_LARGE in *; lia).
      - apply Hg.
      - by eapply gained_closed.
      - intros i Hi. apply (ga_tab _ _ _ _ _ _ _ Hg); [done|]. by apply Hno1.
      - rewrite <- Zplus_mod_idemp_r, Z.mod_same, Z.add_0_r by done. done. }
    intros x s2 (pas & tab2 & Hg2 & Hlen & ->). exists (pa :: pas), tab2.
    split; [eapply gained_cons; [lia|exact Hg|exact Hg2]|]. cbn [length]. split; [lia|].
    f_equal; [repeat case_decide; done || lia|]. unfold page_at. f_equal; lia.
Qed.

(** ** The calls *)
Definition unmapped s (base : Z) (n : nat) : Prop :=
  forall va i, 0 <= i < Z.of_nat n -> same_2m va (page_at base i) -> mmu (ram s) (pml4 s) va = None.

(** The conditions under which a range of [n] pages is mapped or unmapped. *)
Record range_ok (va : Z) (n : nat) (flag : Z) : Prop := {
  ro_align : va mod PAGE_SIZE_LARGE = 0;
  ro_bounds : 0 <= va /\ va + Z.of_nat n * PAGE_SIZE_LARGE < 2 ^ 64;
  ro_pages : 0 < Z.of_nat n < 2 ^ 27;
  ro_flag : 0 <= flag < 4096 /\ Z.testbit flag 0 = true /\ Z.testbit flag 7 = true
}.

(** What the processor sees of a backed range. *)
Lemma backed_mmu s tab va n flag pas a :
  range_ok va n flag -> backed s tab va flag pas -> (length pas <= n)%nat ->
  in_range va (Z.of_nat (length pas) * PAGE_SIZE_LARGE) a ->
  exists pa, pas !! Z.to_nat ((a - va) / PAGE_SIZE_LARGE) = Some pa /\
    mmu (ram s) (pml4 s) a = Some (pa + (a - va) mod PAGE_SIZE_LARGE, flag).
Proof.
  intros [Hal _ Hn (Hfl & H0 & H7)] Hb Hlen Ha. set (i := (a - va) / PAGE_SIZE_LARGE).
  assert (0 <= i < Z.of_nat (length pas)) as Hi.
  { unfold in_range, i in *. split; [apply Z.div_pos; [lia|done]|]. apply Z.div_lt_upper_bound; [done|]. lia. }
  destruct (lookup_lt_is_Some_2 pas (Z.to_nat i)) as [pa Hpa]; [lia|]. exists pa. split; [done|].
  destruct (bk_page _ _ _ _ _ Hb pa) as [Hpm Hpb]; [by eapply list_elem_of_lookup_2|].
  pose proof (bk_leaf _ _ _ _ _ Hb _ _ Hpa) as Hleaf. rewrite Z2Nat.id in Hleaf by lia.
  pose proof (Z.div_mod (a - va) PAGE_SIZE_LARGE ltac:(done)) as Hdm. fold i in Hdm.
  pose proof (Z.mod_pos_bound (a - va) PAGE_SIZE_LARGE ltac:(done)) as Hmb.
  rewrite (leaf_mmu s pa (page_at va i) flag a); try done; [|lia|].
  - do 3 f_equal. pose proof (Z.div_mod va PAGE_SIZE_LARGE ltac:(done)).
    symmetry. apply (Z.mod_unique _ _ (va / PAGE_SIZE_LARGE + i)); [left; done|]. lia.
  - apply (same_2m_in_range va (Z.of_nat n)); try done; [lia|lia|..];
      unfold in_range, page_at in *; nia.
Qed.

Lemma gained_mmu s tab va n flag pas s' tab' a :
  range_ok va n flag -> gained s tab va flag pas s' tab' -> (length pas <= n)%nat ->
  in_range va (Z.of_nat (length pas) * PAGE_SIZE_LARGE) a ->
  exists pa, pas !! Z.to_nat ((a - va) / PAGE_SIZE_LARGE) = Some pa /\
    mmu (ram s') (pml4 s') a = Some (pa + (a - va) mod PAGE_SIZE_LARGE, flag).
Proof. intros Hro Hg. eapply backed_mmu; [exact Hro|apply Hg]. Qed.

Lemma map_fuel_pages n : (n < map_fuel (Z.of_nat n * PAGE_SIZE_LARGE))%nat.
Proof.
  unfold map_fuel, PAGE_SIZE_LARGE. replace (Z.of_nat n * 2097152) with (Z.of_nat n * 512 * 4096) by lia.
  rewrite Z_div_mult by lia. lia.
Qed.

Lemma unmap_free_at_ok s tab va flag n pas :
  mm_ok s tab -> range_ok va n flag -> (length pas <= n)%nat -> backed s tab va flag pas ->
  wp (unmap_free_at va (Z.of_nat (length pas) * PAGE_SIZE_LARGE)) s
    (fun _ s' => exists tab', released s tab va pas s' tab').
Proof.
  intros Hok [Hal Hb Hn (Hfl & H0 & H7)] Hlen Hbk. unfold unmap_free_at, unmap_fuel.
  eapply (unmap_free_ok pas); try done; try lia.
  - unfold PAGE_SIZE_LARGE in *. lia.
  - pose proof (map_fuel_pages (length pas)). lia.
Qed.

(** Nothing changed but page tables that were added, empty. *)
Record restored s tab s' tab' : Prop := {
  rs_ok : mm_ok s' tab';
  rs_pml4 : pml4 s' = pml4 s;
  rs_mmu : same_mmu s s';
  rs_leaf va e : leaf s va e -> leaf s' va e;
  rs_owned y : owned s' tab' y <-> owned s tab y;
  rs_home : same_home (frames s) (frames s');
  rs_keeps : keeps tab tab';
  rs_tab p : (3 <= length p)%nat -> tab p = None -> tab' p = None
}.

(** Decides whether an address lies in one of finitely many pages. *)
Lemma off_pages_dec base n va :
  off_pages base (Z.of_nat n) va \/
  exists i, 0 <= i < Z.of_nat n /\ same_2m va (page_at base i).
Proof.
  induction n as [|n IH].
  - left. intros i Hi. lia.
  - destruct IH as [Hoff|(i & Hi & Hs)]; [|right; exists i; split; [lia|done]].
    destruct (decide (same_2m va (page_at base (Z.of_nat n)))) as [Hs|Hs].
    + right. exists (Z.of_nat n). split; [lia|done].
    + left. intros i Hi. destruct (decide (i = Z.of_nat n)) as [->|]; [done|]. apply Hoff. lia.
Qed.

Lemma gained_released s tab base flag pas s1 tab1 s2 tab2 n :
  unmapped s base n -> (length pas <= n)%nat ->
  gained s tab base flag pas s1 tab1 -> released s1 tab1 base pas s2 tab2 ->
  restored s tab s2 tab2.
Proof.
  intros Hun Hlen [] []. split; [done|congruence| | | | | |].
  - intros va. destruct (off_pages_dec base (length pas) va) as [Hoff|(i & Hi & Hs)].
    + by rewrite re_out0, ga_out0.
    + rewrite (re_in0 va i Hi Hs). symmetry. apply (Hun va i); [lia|done].
  - intros va e Hl. destruct (off_pages_dec base (length pas) va) as [Hoff|(i & Hi & Hs)].
    + by apply re_leaf0, ga_leaf0.
    + specialize (Hun va i ltac:(lia) Hs). unfold mmu in Hun. by rewrite Hl in Hun.
  - intros y. by rewrite re_owned0, ga_owned0.
  - intros a. by rewrite (re_home0 a).
  - intros p q Hp. rewrite re_tab0. by apply ga_keeps0.
  - intros p Hp Hn. rewrite re_tab0. by apply ga_tab0.
Qed.

Lemma restored_refl s tab : mm_ok s tab -> restored s tab s tab.
Proof. intros Hok. split; try done; by intros p q. Qed.

Lemma restored_closed s tab s' tab' :
  closed (frames s) -> restored s tab s' tab' -> closed (frames s').
Proof.
  intros Hcl Hr a Ha Hfree. apply (rs_home _ _ _ _ Hr), Hcl; [done|]. intros x Hx.
  specialize (Hfree x Hx).
  destruct (proj1 (rs_owned _ _ _ _ Hr x) (or_introl Hfree)) as [|(p & q & Hp & Hq)]; [done|].
  exfalso. by apply (to_fresh _ _ _ _ (mo_tab _ _ (rs_ok _ _ _ _ Hr)) p q x (rs_keeps _ _ _ _ Hr _ _ Hp) Hq).
Qed.

(** A backed range stays so while other ranges come and go. *)
Definition off_range (p : Z) (n : nat) (q : Z) (m : nat) : Prop :=
  forall i, (i < n)%nat -> off_pages q (Z.of_nat m) (page_at p (Z.of_nat i)).

Lemma backed_gained s tab p flag pas q flag' qs s' tab' :
  backed s tab p flag pas -> gained s tab q flag' qs s' tab' -> off_range p (length pas) q (length qs) ->
  backed s' tab' p flag pas.
Proof.
  intros [] Hg Hoff. split; try done.
  - intros i pa Hi. apply (ga_leaf _ _ _ _ _ _ _ Hg); [|by apply bk_leaf0]. apply Hoff. by eapply lookup_lt_Some.
  - intros pa Hpa. by apply (ga_home _ _ _ _ _ _ _ Hg), bk_home0.
  - intros y Hy Ho. apply (bk_apart0 y Hy), (ga_owned _ _ _ _ _ _ _ Hg). by left.
Qed.
Lemma backed_kept s tab p flag pas q qs s' tab' :
  backed s tab p flag pas -> released s tab q qs s' tab' -> off_range p (length pas) q (length qs) ->
  (forall y, in_frames pas y -> ~ in_frames qs y) -> backed s' tab' p flag pas.
Proof.
  intros [] Hr Hoff Hd. split; try done.
  - intros i pa Hi. apply (re_leaf _ _ _ _ _ _ Hr); [|by apply bk_leaf0]. apply Hoff. by eapply lookup_lt_Some.
  - intros pa Hpa. by apply (re_home _ _ _ _ _ _ Hr), bk_home0.
  - intros y Hy [Ho|Ho]%(re_owned _ _ _ _ _ _ Hr); [by apply (bk_apart0 y)|by apply (Hd y)].
Qed.
Lemma backed_restored s tab p flag pas s' tab' :
  backed s tab p flag pas -> restored s tab s' tab' -> backed s' tab' p flag pas.
Proof.
  intros [] Hr. split; try done.
  - intros i pa Hi. by apply (rs_leaf _ _ _ _ Hr), bk_leaf0.
  - intros pa Hpa. by apply (rs_home _ _ _ _ Hr), bk_home0.
  - intros y Hy Ho%(rs_owned _ _ _ _ Hr). by apply (bk_apart0 y).
Qed.

Lemma map_alloc_at_ok s tab va n flag :
  mm_ok s tab -> closed (frames s) -> can_back n (frames s) -> no_tables tab va n ->
  unmapped s va n -> range_ok va n flag ->
  wp (map_alloc_at va (Z.of_nat n * PAGE_SIZE_LARGE) flag) s (fun r s' =>
    r = OK /\ (exists pas tab', length pas = n /\ gained s tab va flag pas s' tab') \/
    r = ENOMEM /\ exists tab', restored s tab s' tab').
Proof.
  intros Hok Hcl Hcan Hno Hun Hro. destruct Hro as [Hal Hb Hn (Hfl & H0 & H7)] eqn:Heq; clear Heq.
  set (size := Z.of_nat n * PAGE_SIZE_LARGE).
  assert (PAGE_SIZE_LARGE <= size < 2 ^ 64) as Hsz by (unfold size, PAGE_SIZE_LARGE in *; lia).
  unfold map_alloc_at. change PAGE_2M_MASK with (2 ^ 21 - 1). rewrite land_low_mod by lia.
  change (2 ^ 21) with PAGE_SIZE_LARGE. rewrite Hal. cbn [Z.eqb]. wp_steps.
  change (OK =? OK) with true. cbn [negb]. rewrite Z.sub_0_r, (wrap64_small size) by (unfold PAGE_SIZE_LARGE in *; lia).
  rewrite (proj2 (Z.leb_le _ _)) by lia. wp_steps. eapply wp_mono.
  { apply (alloc_run_ok n s tab); try done; try lia.
    - apply map_fuel_pages. }
  intros x s1 (pas & tab1 & Hg & Hlen & ->). case_decide as Hk.
  - change (OK =? OK) with true. cbn [negb]. wp_steps. rewrite Hk. fold size.
    assert (forall f f', wp (alloc_run f f' PAGE_4K_SIZE (fun len => len <? size)
      (page_at va (Z.of_nat n)) (0 + size)) s1 (fun z s' => z = (OK, (page_at va (Z.of_nat n), 0 + size)) /\ s' = s1)) as Hend.
    { intros f f'. destruct f; cbn [alloc_run]; rewrite Z.add_0_l, Z.ltb_irrefl; by apply wp_ret. }
    eapply wp_mono; [apply Hend|]. intros z s' [-> ->]. change (OK =? OK) with true. cbn [negb].
    apply wp_ret. left. split; [done|]. by exists pas, tab1.
  - change (ENOMEM =? OK) with false. cbn [negb]. unfold freeat. wp_steps. rewrite Z.add_0_l.
    destruct pas as [|pa pas].
    + cbn [length]. change (0 <? Z.of_nat 0 * PAGE_SIZE_LARGE) with false. wp_steps.
      right. split; [done|]. exists tab1. eapply gained_released; [exact Hun|exact Hlen|exact Hg|].
      apply released_nil, Hg.
    + rewrite (proj2 (Z.ltb_lt _ _)) by (cbn [length]; unfold PAGE_SIZE_LARGE; lia).
      eapply wp_mono; [eapply (unmap_free_at_ok s1 tab1 va flag n)|]; [apply Hg|by split|exact Hlen|apply Hg|].
      intros _ s' (tab' & Hre). wp_steps. right. split; [done|]. exists tab'.
      by eapply gained_released.
Qed.
End back.

(** ** Concrete states *)

(** Both pages of [two_pages] may be given back. *)
Lemma two_pages_closed : closed two_pages.
Proof.
  intros a Ha Hfree. specialize (Hfree a ltac:(unfold in_range, PAGE_SIZE_LARGE; lia)).
  destruct (init_phy_mem_inv (128 * PAGE_SIZE_LARGE) (128 * PAGE_SIZE_LARGE) 0) as [Hinv0 Hz0];
    [unfold PAGE_SIZE_LARGE; lia|].
  pose proof (free_phy_pages_spec _ 3 2 Hinv0) as Hwp.
  apply wp_run in Hwp as ([] & t & Hrun & Hinv & _ & Hfr & Hf);
    [|lia|vm_compute; lia|vm_compute; reflexivity].
  assert (two_pages = init_phy_page t) as Heq.
  { unfold two_pages. change (PAGE_SIZE_LARGE * 3) with (PAGE_SIZE_LARGE * Z.of_nat 3).
    change (PAGE_SIZE_LARGE * 2) with (PAGE_SIZE_LARGE * Z.of_nat 2). by rewrite Hrun. }
  destruct (init_phy_page_ok (LP := phymem_large_pages) t Hinv) as (lf & Hok & _).
  rewrite Heq in *. apply (pp_free_total (LP := phymem_large_pages) _ lf [] _ Hok) in Hfree.
  destruct Hfree as [Hc|(p & (n & -> & Hn) & Hx)]; [by apply covers_nil in Hc|].
  assert (a = PAGE_SIZE_LARGE * Z.of_nat n) as ->.
  { apply (aligned_disjoint _ _ a Ha); [rewrite Z.mul_comm; by apply Z.mod_mul| |exact Hx].
    unfold in_range, PAGE_SIZE_LARGE. lia. }
  apply Hf in Hn as [Hn|Hn]; [by apply Hz0 in Hn|].
  apply (page_home_frame _ _ _ Hfr). exists n. split; [done|].
  split; [split; [lia|]|]; [assert (length (b_words (pg (init_phy_mem (128 * PAGE_SIZE_LARGE)
    (128 * PAGE_SIZE_LARGE) 0))) = 3%nat) as -> by (vm_compute; reflexivity); lia|].
  change (Z.min _ _) with (128 * PAGE_SIZE_LARGE). unfold PAGE_SIZE_LARGE. lia.
Qed.

Lemma two_pages_can_back : can_back 1 two_pages.
Proof.
  cbn [can_back]. intros r t' Hrun Hr.
  assert (exists t, fa_alloc_large two_pages = Done (3 * PAGE_SIZE_LARGE, t) /\ can_alloc 2 t)
    as (t & Hrun' & Hcan).
  { eexists. split; [vm_compute; reflexivity|]. unfold can_alloc. cbn [can_after].
    split; [done|]. eexists _, _. split; [vm_compute; reflexivity|]. split; [lia|].
    split; [done|]. eexists _, _. split; [vm_compute; reflexivity|]. split; [lia|]. by split. }
  rewrite Hrun in Hrun'. injection Hrun' as _ ->. exact Hcan.
Qed.

Lemma boot_mm_vacant va : root_only (take 3 (va_path va)) = None /\ mmu (ram boot_mm) (pml4 boot_mm) va = None.
Proof. split; [done|]. reflexivity. Qed.

Lemma boot_range_ok : range_ok (5 * PAGE_SIZE_LARGE) 1 map_flags_rw.
Proof. split; [reflexivity|unfold PAGE_SIZE_LARGE; lia|lia|]. by repeat split. Qed.

(** ** Properties *)

Lemma gained_frames_free {T} `{FL : FrameLaws T} (s : mm T) tab va flag pas s' tab' y :
  gained s tab va flag pas s' tab' -> in_frames pas y -> sp_free (frames s) y.
Proof.
  intros Hg Hy. destruct (proj2 (ga_owned _ _ _ _ _ _ _ Hg y) (or_intror Hy)) as [|(p & q & Hp & Hq)]; [done|].
  exfalso. apply (bk_apart _ _ _ _ _ (ga_backed _ _ _ _ _ _ _ Hg) y Hy). right.
  exists p, q. split; [by apply (ga_keeps _ _ _ _ _ _ _ Hg)|done].
Qed.

(** [map_alloc_at] of [n] whole 2M pages always returns.  With OK, the
    pages are mapped, in order, to [n] distinct 2M frames that were free and
    that neither the allocator nor a page table holds any more, and no other
    translation changes.  With ENOMEM, what had been mapped is unmapped again,
    every translation is as before, and every frame is back: the free memory
    and the page tables together are what they were. *)
Theorem map_alloc_at_correct {T} `{FL : FrameLaws T} (s : mm T) tab va n flag
    (Hok : mm_ok s tab) (Hclosed : closed (frames s)) (Htables : can_back n (frames s))
    (Hvac : no_tables tab va n /\ unmapped s va n) (Hrange : range_ok va n flag) :
  exists r s' tab', map_alloc_at va (Z.of_nat n * PAGE_SIZE_LARGE) flag s = Done (r, s') /\
    mm_ok s' tab' /\
    (r = OK /\ (exists pas, length pas = n /\ NoDup pas /\
       (forall y, in_frames pas y -> sp_free (frames s) y /\ ~ owned s' tab' y) /\
       (forall y, owned s tab y <-> owned s' tab' y \/ in_frames pas y) /\
       (forall a, in_range va (Z.of_nat n * PAGE_SIZE_LARGE) a ->
          exists pa, pas !! Z.to_nat ((a - va) / PAGE_SIZE_LARGE) = Some pa /\
            mmu (ram s') (pml4 s') a = Some (pa + (a - va) mod PAGE_SIZE_LARGE, flag)) /\
       (forall a, off_pages va (Z.of_nat n) a ->
          mmu (ram s') (pml4 s') a = mmu (ram s) (pml4 s) a)) \/
     r = ENOMEM /\ same_mmu s s' /\ forall y, owned s' tab' y <-> owned s tab y).
Proof.
  destruct Hvac as [Hnt Hun].
  pose proof (map_alloc_at_ok s tab va n flag Hok Hclosed Htables Hnt Hun Hrange) as Hwp.
  apply wp_run in Hwp as (r & s' & Hrun & [(-> & pas & tab' & Hlen & Hg)|(-> & tab' & Hr)]).
  - exists OK, s', tab'. split; [exact Hrun|]. split; [apply Hg|]. left. split; [done|].
    pose proof (ga_backed _ _ _ _ _ _ _ Hg) as Hb. exists pas. split; [done|].
    split; [apply Hb|]. split; [|split; [apply Hg|split]].
    + intros y Hy. split; [by eapply gained_frames_free|by apply Hb].
    + intros a Ha. apply (gained_mmu s tab va n flag pas s' tab'); [done|done|lia|by rewrite Hlen].
    + intros a Ha. apply Hg. by rewrite Hlen.
  - exists ENOMEM, s', tab'. split; [exact Hrun|]. split; [apply Hr|]. right.
    split; [done|]. split; apply Hr.
Qed.

Lemma map_alloc_at_correct_witness :
  exists r s' tab', map_alloc_at (5 * PAGE_SIZE_LARGE) (Z.of_nat 1 * PAGE_SIZE_LARGE) map_flags_rw boot_mm
      = Done (r, s') /\ mm_ok s' tab'.
Proof.
  destruct (map_alloc_at_correct boot_mm root_only (5 * PAGE_SIZE_LARGE) 1 map_flags_rw)
    as (r & s' & tab' & Hrun & Hok' & _).
  - exact boot_mm_ok.
  - exact two_pages_closed.
  - exact two_pages_can_back.
  - split; [intros i _; apply boot_mm_vacant|intros va i _ _; apply boot_mm_vacant].
  - exact boot_range_ok.
  - exists r, s', tab'. split; [exact Hrun|exact Hok'].
Defined.


