(* ===== verification/PgSoft.v ===== *)
(** * PgSoft: the kernel's own page walk

    [map_paddr_flags_at] and [map_flags_at] of arch/x86_64/pgtable.c walk the
    tables in software.  Where an address is mapped through a page directory
    they agree with the processor; elsewhere they read memory that is no page
    table. *)
From Stdlib Require Import ZArith Lia.
From stdpp Require Import base tactics list option.
From S2P Require Import Prelude HoleList FreeSet Pages Layout PhyMem PhyPage PgTable PgWalk PgMap PgBack.
#[export] Set Warnings "-clear-no-such-hyp".

Section soft.
Context {T : Type} `{FA : FrameAlloc T}.
Implicit Types (s : mm T) (tab : list Z -> option Z).

(** Masking a 4K-aligned word below the page offset. *)
Lemma page_mask_range e : 0 <= page_mask e < 2 ^ 64 /\ page_mask e mod 4096 = 0.
Proof.
  unfold page_mask, lnot64. change (Z.lxor 4095 (2 ^ 64 - 1)) with (2 ^ 64 - 1 - 4095).
  assert (Z.land e (2 ^ 64 - 1 - 4095) = Z.land (Z.land e (2 ^ 64 - 1)) (lnot64 (2 ^ 12 - 1))) as ->.
  { rewrite <- Z.land_assoc. f_equal. }
  rewrite (land_low_mod e 64) by lia. pose proof (Z.mod_pos_bound e (2 ^ 64) ltac:(lia)) as Hr.
  rewrite land_high by lia. change (2 ^ 12) with 4096.
  pose proof (Z.mod_pos_bound (e mod 2 ^ 64) 4096 ltac:(lia)). pose proof (Z.mod_le (e mod 2 ^ 64) 4096 ltac:(lia) ltac:(lia)).
  split; [lia|]. rewrite Zminus_mod, Z.mod_mod, Z.sub_diag by lia. done.
Qed.

Lemma frame_plus e sh va : 12 <= sh <= 21 -> page_mask e mod 2 ^ sh = 0 ->
  wrap64 (page_mask e + Z.land va (2 ^ sh - 1)) = Z.shiftl (Z.shiftr (page_mask e) sh) sh + va mod 2 ^ sh.
Proof.
  intros Hsh Hm. destruct (page_mask_range e) as [Hr _]. rewrite land_low_mod, shift_aligned by (lia || done).
  pose proof (Z.mod_pos_bound va (2 ^ sh) ltac:(lia)).
  assert (2 ^ 64 = 2 ^ (64 - sh) * 2 ^ sh) as H64 by (rewrite <- Z.pow_add_r by lia; f_equal; lia).
  pose proof (Z.div_mod (page_mask e) (2 ^ sh) ltac:(lia)). apply wrap64_small.
  assert (page_mask e / 2 ^ sh < 2 ^ (64 - sh)) by (apply Z.div_lt_upper_bound; lia). nia.
Qed.

(** What the walk finds behind the page directory. *)
Lemma walk_directory s tab va q2 : mm_ok s tab -> tab [pt_index 39 va; pt_index 30 va] = Some q2 ->
  PgWalk.walk (ram s) (pml4 s) 0 (va_path va) = PgWalk.walk (ram s) q2 2 [pt_index 21 va; pt_index 12 va].
Proof.
  intros Hok Hq2. apply (walk_root _ _ _ _ [pt_index 39 va; pt_index 30 va] q2 [pt_index 21 va; pt_index 12 va] (mo_tab _ _ Hok) Hq2). done.
Qed.

(** An entry of a page directory: nothing, a 2M page or a page table. *)
Lemma directory_entry s tab p q2 k : mm_ok s tab -> tab p = Some q2 -> length p = 2%nat -> idx k ->
  let e := ram s (q2 + 8 * k) in
  e = 0 \/
  e_present e = true /\ e_large e = true /\ page_mask e mod 2 ^ 21 = 0 \/
  exists q3, tab (p ++ [k]) = Some q3 /\ e_present e = true /\ e_large e = false /\ page_mask e = q3 /\
    page_mask (P2V e) = P2V q3 /\ 0 <= q3 < 2 ^ 45.
Proof.
  intros Hok Hq2 Hlen Hk e. pose proof (to_entry _ _ _ _ (mo_tab _ _ Hok) _ _ _ Hq2 ltac:(lia) Hk) as He.
  fold e in He. rewrite Hlen in He. destruct (tab (p ++ [k])) as [q3|] eqn:Hq3.
  - destruct He as (Hp & Hl & Hm & Hr). destruct (table_range _ _ _ _ Hok Hq3) as (Hr3 & Hm3 & _).
    right. right. exists q3. split; [done|]. split; [done|]. split; [done|]. split; [done|].
    split; [by apply page_mask_P2V|done].
  - destruct He as [He|(_ & Hp & Hl & Hm & _)]; [by left|]. right. by left.
Qed.

Section walks.
Context (s : mm T) (tab : list Z -> option Z) (va q2 : Z).
Hypothesis (Hok : mm_ok s tab) (Hva : 0 <= va < 2 ^ 64).
Hypothesis (Hq2 : tab [pt_index 39 va; pt_index 30 va] = Some q2).

Lemma get_pte_soft Q : (P2V q2 + 8 * pt_index 21 va <> 0 -> Q (P2V q2 + 8 * pt_index 21 va) s) ->
  wp (get_pte_with_addr (Z.land va (lnot64 PAGE_2M_MASK))) s Q.
Proof.
  intros HQ. eapply (get_pte_table s tab); [done| |]; rewrite !index_of_2m_base by lia; [exact Hq2|exact HQ].
Qed.

(** What either call reads at a mapped address: the entry that maps it. *)
Lemma soft_walk pa fl : mmu (ram s) (pml4 s) va = Some (pa, fl) ->
  let e := ram s (q2 + 8 * pt_index 21 va) in
  0 <= q2 < 2 ^ 45 /\ e_present e = true /\
  (e_large e = true /\ pa = wrap64 (page_mask e + Z.land va PAGE_2M_MASK) /\ fl = Z.land e 4095 \/
   e_large e = false /\ exists q3, page_mask (P2V e) = P2V q3 /\ 0 <= q3 < 2 ^ 45 /\
     let e1 := ram s (q3 + 8 * pt_index 12 va) in
     pa = wrap64 (page_mask e1 + Z.land va 4095) /\ fl = Z.land e1 4095).
Proof.
  destruct (table_range _ _ _ _ Hok Hq2) as (Hr2 & _). intros Hw e. unfold mmu in Hw.
  rewrite (walk_directory s tab va q2) in Hw by done. split; [done|].
  destruct (directory_entry s tab _ q2 (pt_index 21 va) Hok Hq2 eq_refl (pt_index_range _ _)) as [He|[(Hp & Hl & Hm)|(q3 & _ & Hp & Hl & Hm & Hm3 & Hr3)]];
    fold e in He || fold e in Hp, Hl, Hm; cbn [PgWalk.walk] in Hw; fold e in Hw.
  - by rewrite He in Hw.
  - rewrite Hp, Hl in Hw. cbn [negb andb Nat.leb] in Hw. injection Hw as <- <-. split; [done|]. left. split; [done|].
    split; [|done]. symmetry. change PAGE_2M_MASK with (2 ^ 21 - 1). change (page_shift 2) with 21. by apply frame_plus.
  - fold e in Hm3. rewrite Hp, Hl in Hw. cbn [negb andb] in Hw. split; [done|]. right. split; [done|]. exists q3. split; [done|]. split; [done|].
    rewrite Hm in Hw. intros e1. fold e1 in Hw. destruct (e_present e1); cbn [negb] in Hw; [|done]. injection Hw as <- <-. split; [|done].
    symmetry. change 4095 with (2 ^ 12 - 1). change (page_shift 3) with 12. apply frame_plus; [lia|]. apply page_mask_range.
Qed.

Lemma flags_shown e : Z.land (Z.land e 4095) FLAGS_SHOWN = Z.land e FLAGS_SHOWN.
Proof. rewrite <- Z.land_assoc. reflexivity. Qed.

Lemma map_paddr_flags_at_ok pa fl : mmu (ram s) (pml4 s) va = Some (pa, fl) ->
  map_paddr_flags_at va s = Done (RetT pa (Z.land fl FLAGS_SHOWN), s).
Proof.
  intros Hmmu. destruct (soft_walk pa fl Hmmu) as (Hr2 & Hp & Hcase).
  enough (wp (map_paddr_flags_at va) s (fun r s' => r = RetT pa (Z.land fl FLAGS_SHOWN) /\ s' = s)) as Hwp.
  { apply wp_run in Hwp as (r & s' & -> & -> & ->). done. }
  unfold map_paddr_flags_at. wp_steps. apply get_pte_soft. intros Hnz. rewrite (proj2 (Z.eqb_neq _ _) Hnz). wp_steps.
  apply wp_load; [done|apply pt_index_range|]. rewrite has_flags_2m, Hp, andb_true_r.
  destruct Hcase as [(-> & -> & ->)|(-> & q3 & Hm3 & Hr3 & -> & ->)]; wp_steps.
  - split; [|done]. by rewrite flags_shown.
  - rewrite Hm3. apply wp_load; [done|apply pt_index_range|]. wp_steps. split; [|done]. by rewrite flags_shown.
Qed.

Lemma map_flags_at_ok pa fl : mmu (ram s) (pml4 s) va = Some (pa, fl) ->
  map_flags_at va s = Done (Z.land fl FLAGS_SHOWN, s).
Proof.
  intros Hmmu. destruct (soft_walk pa fl Hmmu) as (Hr2 & Hp & Hcase).
  enough (wp (map_flags_at va) s (fun r s' => r = Z.land fl FLAGS_SHOWN /\ s' = s)) as Hwp.
  { apply wp_run in Hwp as (r & s' & -> & -> & ->). done. }
  unfold map_flags_at. wp_steps. apply get_pte_soft. intros Hnz. rewrite (proj2 (Z.eqb_neq _ _) Hnz). wp_steps.
  apply wp_load; [done|apply pt_index_range|]. change PTE_PS with (2 ^ 7). rewrite land_pow2_test, negb_involutive by lia.
  change (Z.testbit (ram s (q2 + 8 * pt_index 21 va)) 7) with (e_large (ram s (q2 + 8 * pt_index 21 va))).
  destruct Hcase as [(-> & _ & ->)|(-> & q3 & Hm3 & Hr3 & _ & ->)]; wp_steps.
  - split; [|done]. by rewrite flags_shown.
  - rewrite Hm3. apply wp_load; [done|apply pt_index_range|]. wp_steps. split; [|done]. by rewrite flags_shown.
Qed.

(** With nothing in the directory for the address, the walk goes on in frame 0. *)
Lemma unmapped_reads_frame_0 : ram s (q2 + 8 * pt_index 21 va) = 0 ->
  mmu (ram s) (pml4 s) va = None /\
  let e1 := ram s (8 * pt_index 12 va) in
  map_paddr_flags_at va s = Done (RetT (wrap64 (page_mask e1 + Z.land va 4095)) (Z.land e1 FLAGS_SHOWN), s).
Proof.
  intros He. destruct (table_range _ _ _ _ Hok Hq2) as (Hr2 & _). split.
  { unfold mmu. rewrite (walk_directory s tab va q2) by done. cbn [PgWalk.walk]. by rewrite He. }
  intros e1. enough (wp (map_paddr_flags_at va) s (fun r s' =>
    r = RetT (wrap64 (page_mask e1 + Z.land va 4095)) (Z.land e1 FLAGS_SHOWN) /\ s' = s)) as Hwp.
  { apply wp_run in Hwp as (r & s' & -> & -> & ->). done. }
  unfold map_paddr_flags_at. wp_steps. apply get_pte_soft. intros Hnz. rewrite (proj2 (Z.eqb_neq _ _) Hnz). wp_steps.
  apply wp_load; [done|apply pt_index_range|]. rewrite He. change (has_flags 0 _) with false. cbn iota. wp_steps.
  rewrite (page_mask_P2V 0 0) by done. apply wp_load; [done|apply pt_index_range|]. wp_steps. done.
Qed.
End walks.
End soft.

(** ** Property *)

(** C11: At an address that is mapped below a page directory, by a 2M page or a
    4K page, [map_paddr_flags_at] and [map_flags_at] return, without changing
    anything, the physical address and the flags that the processor's own walk
    finds. *)
Theorem soft_walk_agrees {T} `{FA : FrameAlloc T} (s : mm T) tab va q2 pa fl
    (Hok : mm_ok s tab) (Hva : 0 <= va < 2 ^ 64)
    (Hdir : tab [pt_index 39 va; pt_index 30 va] = Some q2)
    (Hmap : mmu (ram s) (pml4 s) va = Some (pa, fl)) :
  map_paddr_flags_at va s = Done (RetT pa (Z.land fl FLAGS_SHOWN), s) /\
  map_flags_at va s = Done (Z.land fl FLAGS_SHOWN, s) /\
  get_phy_addr va s = Done (pa, s).
Proof.
  pose proof (map_paddr_flags_at_ok s tab va q2 Hok Hva Hdir pa fl Hmap) as Hp.
  split; [exact Hp|]. split; [by apply (map_flags_at_ok s tab va q2 Hok Hva Hdir pa fl)|].
  unfold get_phy_addr, bind. by rewrite Hp.
Qed.

(** A 4K page is mapped and looked up. *)
Lemma soft_walk_agrees_witness :
  exists s', map_4k_page_p2v 0x9000 0x5000 0x83 chain_mm = Done (OK, s') /\
    get_phy_addr 0x5123 s' = Done (0x9123, s').
Proof.
  assert (wp (map_4k_page_p2v 0x9000 0x5000 0x83) chain_mm (fun r s' => r = OK /\ mm_ok s' chain_tab /\
    mmu (ram s') (pml4 s') 0x5123 = Some (0x9123, 0x103))) as Hwp.
  { eapply wp_mono; [apply (map_4k_existing_ok chain_mm chain_tab 0x4000 0x9000 0x5000 0x83 chain_mm_ok); (done || reflexivity)|].
    intros r s' (-> & Hok & _ & _ & _ & Hmmu). split; [done|]. split; [exact Hok|]. rewrite Hmmu. reflexivity. }
  apply wp_run in Hwp as (r & s' & Hrun & -> & Hok & Hmmu). exists s'. split; [exact Hrun|].
  destruct (soft_walk_agrees s' chain_tab 0x5123 0x3000 0x9123 0x103) as (_ & _ & Hget).
  - exact Hok.
  - split; [lia|reflexivity].
  - reflexivity.
  - exact Hmmu.
  - exact Hget.
Defined.

(** [get_phy_addr] of an unmapped address is the word of frame 0 in its place. *)
Example unmapped_address_found :
  let s := MM (upd 40 0xabc000 (ram chain_mm)) (pml4 chain_mm) (frames chain_mm) [] in
  mmu (ram s) (pml4 s) 0x205010 = None /\ get_phy_addr 0x205010 s = Done (0xabc010, s).
Proof. vm_compute. done. Qed.
