(* ===== verification/IoRemap.v ===== *)
(** * IoRemap: device memory in the kernel's address space

    What [ioremap_nocache] of PgTable.v does to the processor's translation, and
    the step it shares with the remapping of the firmware's I/O areas
    (MemMap.v): one 2M page of physical addresses appears at [IO_MEM_BASE] plus
    itself, uncached. *)
From Stdlib Require Import ZArith Lia.
From stdpp Require Import base tactics gmap list option.
From S2P Require Import Prelude FreeSet Pages Layout PhyMem PhyPage PgTable PgWalk PgMap.
#[export] Set Warnings "-clear-no-such-hyp".

(** The part of the address space above [IO_MEM_BASE], in pages. *)
Definition IO_PAGES : Z := 49152.
Definition IO_FLAGS : Z := Z.lor PTE_P (Z.lor PTE_W (Z.lor PTE_PWT (Z.lor PTE_PCD PTE_PS))).
Definition io_va (p : Z) : Z := IO_MEM_BASE + p * PAGE_SIZE_LARGE.

Definition io_mapped {T} (m : mm T) (p : Z) : Prop :=
  forall va, in_range (io_va p) PAGE_SIZE_LARGE va -> mmu (ram m) (pml4 m) va = Some (va - IO_MEM_BASE, IO_FLAGS).

Lemma io_same_2m p va : 0 <= p < IO_PAGES -> in_range IO_MEM_BASE (IO_PAGES * PAGE_SIZE_LARGE) va ->
  same_2m va (io_va p) <-> in_range (io_va p) PAGE_SIZE_LARGE va.
Proof.
  intros Hp Hva. apply (same_2m_in_range IO_MEM_BASE IO_PAGES p va); try done.
Qed.

Lemma io_window q va : 0 <= q < IO_PAGES -> in_range (io_va q) PAGE_SIZE_LARGE va ->
  in_range IO_MEM_BASE (IO_PAGES * PAGE_SIZE_LARGE) va.
Proof. unfold in_range, io_va, IO_PAGES, PAGE_SIZE_LARGE. lia. Qed.

Lemma wrap_io_va p : 0 <= p < IO_PAGES -> wrap64 (p * PAGE_SIZE_LARGE + IO_MEM_BASE) = io_va p.
Proof.
  intros Hp. rewrite wrap64_small by (unfold IO_PAGES, IO_MEM_BASE, PAGE_SIZE_LARGE in *; lia). unfold io_va. lia.
Qed.

Section io.
Context {T : Type} `{FA : FrameAlloc T} {K : T -> Prop}.
Implicit Types s : mm T.

(** One page: it is mapped, the pages mapped before stay, and nothing else
    changes. *)
Lemma io_page_ok s tab n p : mm_ok s tab -> can_after K (2 + n) (frames s) -> 0 <= p < IO_PAGES ->
  wp (map_page_p2v (p * PAGE_SIZE_LARGE) (io_va p) IO_FLAGS) s (fun r s' => r = OK /\
    (exists tab', mm_ok s' tab') /\ can_after K n (frames s') /\ io_mapped s' p /\
    (forall q, 0 <= q < IO_PAGES -> io_mapped s q -> io_mapped s' q) /\
    unchanged_outside_2m s s' (io_va p)).
Proof.
  intros Hok Hcan Hp.
  assert (0 <= p * PAGE_SIZE_LARGE /\ p * PAGE_SIZE_LARGE + PAGE_SIZE_LARGE <= 0x1800000000) as Hb.
  { unfold IO_PAGES, PAGE_SIZE_LARGE in *. lia. }
  assert (0 < PAGE_SIZE_LARGE) as Hpos by done. change IO_FLAGS with 0x9b.
  eapply wp_mono; [apply (map_page_p2v_ok (K := K) s tab n); try done; try lia|].
  { by apply Z.mod_mul. }
  { unfold io_va. by rewrite Z.mod_add. }
  intros r m (-> & Hok' & Hcan' & Hpml & _ & Hin & Hout). split; [done|]. split; [done|]. split; [done|].
  assert (io_mapped m p) as Hp'.
  { intros va Hva. change IO_FLAGS with 0x9b. rewrite Hin by (apply io_same_2m; [done|by apply (io_window p)|done]).
    do 2 f_equal. unfold in_range in Hva. change IO_MEM_BASE with (8796092973056 * PAGE_SIZE_LARGE) in *.
    unfold io_va in *. change IO_MEM_BASE with (8796092973056 * PAGE_SIZE_LARGE) in *.
    rewrite (Z.mod_eq va) by done. rewrite <- (Z.div_unique va PAGE_SIZE_LARGE (8796092973056 + p) (va - (8796092973056 + p) * PAGE_SIZE_LARGE)); lia. }
  split; [done|]. split; [|done].
  intros q Hq Hm va Hva. destruct (decide (q = p)) as [->|Hne]; [by apply Hp'|]. rewrite Hout; [by apply Hm|].
  rewrite io_same_2m; [|done|by apply (io_window q)]. unfold in_range, io_va, PAGE_SIZE_LARGE in *. lia.
Qed.

(** The loop: the pages from [p] on. *)
Lemma ioremap_loop_ok n : forall fuel p added size s tab, mm_ok s tab -> can_after K (2 * n) (frames s) ->
  0 <= p -> p + Z.of_nat n <= IO_PAGES -> 0 <= added ->
  size < added + Z.of_nat n * PAGE_SIZE_LARGE -> added + (Z.of_nat n - 1) * PAGE_SIZE_LARGE <= size -> (n <= fuel)%nat ->
  wp (ioremap_loop fuel (p * PAGE_SIZE_LARGE) added size) s (fun _ s' =>
    (exists tab', mm_ok s' tab') /\ K (frames s') /\
    (forall q, p <= q < p + Z.of_nat n -> io_mapped s' q) /\
    (forall q, 0 <= q < IO_PAGES -> io_mapped s q -> io_mapped s' q) /\
    forall va, (forall q, p <= q < p + Z.of_nat n -> ~ same_2m va (io_va q)) ->
      mmu (ram s') (pml4 s') va = mmu (ram s) (pml4 s) va).
Proof.
  assert (0 < PAGE_SIZE_LARGE) as Hpos by done.
  induction n as [|n IH]; intros fuel p added size s tab Hok Hcan Hp Hpn Ha Hs1 Hs2 Hf.
  - destruct fuel as [|fuel]; cbn [ioremap_loop]; rewrite (proj2 (Z.leb_gt added size)) by lia; wp_steps;
      (split; [by exists tab|]; split; [by apply can_after_now in Hcan|]; split; [lia|done]).
  - destruct fuel as [|fuel]; [lia|]. cbn [ioremap_loop]. rewrite (proj2 (Z.leb_le added size)) by nia. wp_steps.
    rewrite wrap_io_va by lia. replace (2 * S n)%nat with (2 + 2 * n)%nat in Hcan by lia.
    eapply wp_mono; [apply (io_page_ok s tab (2 * n) p Hok Hcan); lia|].
    intros r s1 (_ & (tab1 & Hok1) & Hcan1 & Hin1 & Hkeep1 & Hout1). cbn beta.
    replace (wrap64 (p * PAGE_SIZE_LARGE + PAGE_SIZE_LARGE)) with ((p + 1) * PAGE_SIZE_LARGE)
      by (rewrite wrap64_small; unfold IO_PAGES, PAGE_SIZE_LARGE in *; lia).
    eapply wp_mono; [apply (IH fuel (p + 1) (added + PAGE_SIZE_LARGE) size s1 tab1 Hok1 Hcan1); lia|].
    intros [] s2 (Hok2 & HK & Hin2 & Hkeep2 & Hout2). split; [done|]. split; [done|]. split; [|split].
    + intros q Hq. destruct (decide (q = p)) as [->|]; [apply Hkeep2; [lia|done]|apply Hin2; lia].
    + intros q Hq Hm. by apply Hkeep2, Hkeep1.
    + intros va Hva. rewrite Hout2 by (intros q Hq; apply Hva; lia). apply Hout1. apply Hva. lia.
Qed.
End io.

(** The pages [ioremap_nocache] maps: one more than needed when the range ends
    on a page. *)
Definition io_first (addr : Z) : Z := addr / PAGE_SIZE_LARGE.
Definition io_rounds (addr size : Z) : Z := (addr mod PAGE_SIZE_LARGE + size) / PAGE_SIZE_LARGE + 1.

Lemma ioremap_nocache_ok {T} `{FA : FrameAlloc T} (s : mm T) tab addr size
    (Hok : mm_ok s tab) (Hcan : can_alloc (2 * Z.to_nat (io_rounds addr size)) (frames s))
    (Hr : 0 <= addr /\ 0 <= size /\ io_first addr + io_rounds addr size <= IO_PAGES) :
  exists s', ioremap_nocache addr size s = Done (addr + IO_MEM_BASE, s') /\
    (exists tab', mm_ok s' tab') /\
    (forall a, addr <= a <= addr + size -> mmu (ram s') (pml4 s') (a + IO_MEM_BASE) = Some (a, IO_FLAGS)) /\
    (forall q, 0 <= q < IO_PAGES -> io_mapped s q -> io_mapped s' q) /\
    forall va, (forall q, io_first addr <= q < io_first addr + io_rounds addr size -> ~ same_2m va (io_va q)) ->
      mmu (ram s') (pml4 s') va = mmu (ram s) (pml4 s) va.
Proof.
  destruct Hr as (Ha & Hz & Hb). assert (0 < PAGE_SIZE_LARGE) as Hpos by done.
  pose proof (Z.div_mod addr PAGE_SIZE_LARGE) as Hdm. pose proof (Z.mod_pos_bound addr PAGE_SIZE_LARGE Hpos) as Hm.
  assert (0 <= io_first addr) as Hf0 by (apply Z.div_pos; lia).
  set (w := addr mod PAGE_SIZE_LARGE + size) in *. assert (w = addr mod PAGE_SIZE_LARGE + size) as Hw by done. clearbody w.
  pose proof (Z.div_mod w PAGE_SIZE_LARGE) as Hwd. pose proof (Z.mod_pos_bound w PAGE_SIZE_LARGE Hpos) as Hwm.
  assert (0 <= w / PAGE_SIZE_LARGE) as Hw0 by (apply Z.div_pos; lia).
  unfold io_rounds, io_first in *. rewrite <- Hw in *. set (n := w / PAGE_SIZE_LARGE) in *. set (p := addr / PAGE_SIZE_LARGE) in *.
  assert (addr = p * PAGE_SIZE_LARGE + addr mod PAGE_SIZE_LARGE) as Haddr by lia.
  assert (addr + size < 0x1800000000) as Htop by (unfold IO_PAGES, PAGE_SIZE_LARGE in *; lia).
  assert (Z.land addr (lnot64 (PAGE_SIZE_LARGE - 1)) = p * PAGE_SIZE_LARGE) as Hland.
  { change (PAGE_SIZE_LARGE - 1) with (2 ^ 21 - 1). rewrite land_high by lia. change (2 ^ 21) with PAGE_SIZE_LARGE. lia. }
  enough (wp (ioremap_nocache addr size) s (fun r s' => r = addr + IO_MEM_BASE /\ (exists tab', mm_ok s' tab') /\
    (forall q, p <= q < p + Z.of_nat (Z.to_nat (n + 1)) -> io_mapped s' q) /\
    (forall q, 0 <= q < IO_PAGES -> io_mapped s q -> io_mapped s' q) /\
    forall va, (forall q, p <= q < p + Z.of_nat (Z.to_nat (n + 1)) -> ~ same_2m va (io_va q)) ->
      mmu (ram s') (pml4 s') va = mmu (ram s) (pml4 s) va)) as Hwp.
  { apply wp_run in Hwp as (r & s' & Hrun & -> & Hok' & Hin & Hkeep & Hout). rewrite Z2Nat.id in Hin, Hout by lia.
    exists s'. split; [exact Hrun|]. split; [done|]. split; [|by split]. intros a Ha'.
    set (q := a / PAGE_SIZE_LARGE). pose proof (Z.div_mod a PAGE_SIZE_LARGE) as Hqa. pose proof (Z.mod_pos_bound a PAGE_SIZE_LARGE Hpos).
    fold q in Hqa. assert (p <= q <= p + n) as Hq by nia.
    rewrite (Hin q) by (try lia; unfold in_range, io_va; lia). do 2 f_equal. lia. }
  unfold ioremap_nocache. rewrite Hland.
  replace (wrap64 (size + wrap64 (addr - p * PAGE_SIZE_LARGE))) with w
    by (rewrite (wrap64_small (addr - _)), wrap64_small; lia).
  fold n. wp_steps.
  eapply wp_mono; [apply (ioremap_loop_ok (K := fun _ => True) (Z.to_nat (n + 1)) _ p 0 w s tab Hok Hcan); lia|].
  intros [] s' (Hok' & _ & Hin & Hkeep & Hout). wp_steps. split; [|done].
  rewrite wrap64_small; [done|]. unfold IO_MEM_BASE in *. lia.
Qed.

(** [ioremap_nocache] of device memory below the end of the I/O window,
    with two frames for each page to be had, maps the whole range (and up to a
    page behind it) uncached at [IO_MEM_BASE] plus itself, answers the address
    of its first byte there, keeps what was mapped there before, and changes no
    translation outside these pages. *)
Theorem ioremap_nocache_correct {T} `{FA : FrameAlloc T} (s : mm T) tab addr size
    (Hok : mm_ok s tab) (Hcan : can_alloc (2 * Z.to_nat (io_rounds addr size)) (frames s))
    (Hr : 0 <= addr /\ 0 <= size /\ io_first addr + io_rounds addr size <= IO_PAGES) :
  exists s', ioremap_nocache addr size s = Done (addr + IO_MEM_BASE, s') /\
    (exists tab', mm_ok s' tab') /\
    (forall a, addr <= a <= addr + size -> mmu (ram s') (pml4 s') (a + IO_MEM_BASE) = Some (a, IO_FLAGS)) /\
    (forall q, 0 <= q < IO_PAGES -> io_mapped s q -> io_mapped s' q) /\
    forall va, (forall q, io_first addr <= q < io_first addr + io_rounds addr size -> ~ same_2m va (io_va q)) ->
      mmu (ram s') (pml4 s') va = mmu (ram s) (pml4 s) va.
Proof. by eapply ioremap_nocache_ok. Qed.

(** A device of 8K, in the middle of a page, on the first tables. *)
Lemma ioremap_nocache_correct_witness :
  exists s', ioremap_nocache 0xFEBF0000 0x2000 boot_mm = Done (0xFEBF0000 + IO_MEM_BASE, s') /\
    mmu (ram s') (pml4 s') (0xFEBF0010 + IO_MEM_BASE) = Some (0xFEBF0010, IO_FLAGS).
Proof.
  destruct (ioremap_nocache_correct boot_mm root_only 0xFEBF0000 0x2000) as (s' & Hrun & _ & Hin & _).
  - exact boot_mm_ok.
  - exact two_pages_can_alloc.
  - split; [lia|]. split; [lia|]. apply (bool_decide_unpack _). vm_compute. exact I.
  - exists s'. split; [exact Hrun|]. apply Hin. lia.
Defined.
