(* ===== verification/Boot.v ===== *)
(** * Boot: the first page tables ([init_pml4] of arch/x86_64/pgtable.c)

    The eleven static tables that map the kernel image and the direct map of
    physical memory, the switch to them, and the loop that maps what lies above
    1G page by page with [map_page_p2v].  The page directories are filled from
    [int] products, which wrap around for the third and fourth gigabyte; the loop
    puts the entries of pages that are memory right.  The theorem says what the
    processor translates afterwards and that the tables form the tree the mapping
    calls of PgTable.v work on. *)
From Stdlib Require Import ZArith Lia.
From stdpp Require Import base tactics list option.
From S2P Require Import Prelude Pages Layout PhyMem PhyPage PgTable PgWalk PgMap.
#[export] Set Warnings "-clear-no-such-hyp".

Definition PML4_NR : Z := 512.
Definition PML4_PER_PDP : Z := 512.
Definition PD_PER_PTE : nat := 512.
Definition cr4_pge : Z := 0x80.

(** The static tables. *)
Inductive table :=
  | pml4_t | first_pdp | second_pdp
  | first_pd | second_pd | third_pd | fourth_pd
  | phy_first_pd | phy_second_pd | phy_third_pd | phy_fourth_pd.
#[export] Instance table_eq_dec : EqDecision table.
Proof. solve_decision. Defined.

Section boot.
Context {T : Type} `{FA : FrameAlloc T}.
(** [&t], an address of the kernel image, and [__max_phy_mem_addr]. *)
Context (addr : table -> Z) (max : Z).

Record boot := BootState {
  b_mm : mm T;
  cr3 : Z;
  cr4 : Z;
  bp_cr3 : Z;
  cr4_writes : list Z
}.
Definition set_mm (m : mm T) (s : boot) : boot := BootState m (cr3 s) (cr4 s) (bp_cr3 s) (cr4_writes s).
Definition write_cr3 (v : Z) : M boot unit :=
  modify (fun s => BootState (b_mm s) v (cr4 s) (bp_cr3 s) (cr4_writes s)).
Definition write_cr4 (v : Z) : M boot unit :=
  modify (fun s => BootState (b_mm s) (cr3 s) v (bp_cr3 s) (v :: cr4_writes s)).
Definition set_bp_cr3 (v : Z) : M boot unit :=
  modify (fun s => BootState (b_mm s) (cr3 s) (cr4 s) v (cr4_writes s)).

(** Static tables are accessed where the kernel image lies. *)
Definition phys (t : table) : Z := K2P (addr t).
Definition get (t : table) (i : Z) : M (mm T) Z := gets (fun s => ram s (phys t + 8 * i)).
Definition put (t : table) (i v : Z) : M (mm T) unit :=
  modify (fun s => set_ram (upd (phys t + 8 * i) v (ram s)) s).
Definition clear (t : table) : M (mm T) unit := modify (fun s => set_ram (zero4k (phys t) (ram s)) s).

(** [K2P((ulong)&t) | PTE_P | PTE_W] *)
Definition table_entry (t : table) : Z := Z.lor (Z.lor (phys t) PTE_P) PTE_W.

(** [while (len < __max_phy_mem_addr)]: 1G pages, as far as the PML4 entry. *)
Fixpoint direct_loop (fuel : nat) (vaddr len : Z) : M (mm T) unit :=
  if len <? max then
    match fuel with
    | O => out_of_fuel
    | S fuel' =>
        e <- get pml4_t (pt_index PML4_SHIFT vaddr) ;;
        if e =? 0 then ret tt
        else
          pa <- V2P vaddr ;;
          put first_pdp (pt_index PDP_SHIFT vaddr) (Z.lor (Z.lor (Z.lor pa PTE_P) PTE_W) PTE_PS) ;;;
          direct_loop fuel' (wrap64 (vaddr + NUMBER_1G)) (len + NUMBER_1G)
    end
  else ret tt.

(** [i * PAGE_SIZE_LARGE | PTE_PS | PTE_W | PTE_P]: an [int], which wraps around
    (the kernel is compiled with -fno-strict-overflow), stored as an [ulong]. *)
Definition page_entry (i : Z) : Z :=
  wrap64 (Z.lor (Z.lor (Z.lor (to_int (i * PAGE_SIZE_LARGE)) PTE_PS) PTE_W) PTE_P).
(** [for (i = 0; i < PD_PER_PTE; i++)]: [n] rounds from [i]. *)
Fixpoint fill_pds (n : nat) (i : Z) : M (mm T) unit :=
  match n with
  | O => ret tt
  | S n' =>
      put first_pd i (page_entry i) ;;;
      put second_pd i (page_entry (i + 512)) ;;;
      put third_pd i (page_entry (i + 2 * 512)) ;;;
      put fourth_pd i (page_entry (i + 3 * 512)) ;;;
      put phy_first_pd i (page_entry i) ;;;
      put phy_second_pd i (page_entry (i + 512)) ;;;
      put phy_third_pd i (page_entry (i + 2 * 512)) ;;;
      put phy_fourth_pd i (page_entry (i + 3 * 512)) ;;;
      fill_pds n' (i + 1)
  end.

Definition static_tables : M (mm T) unit :=
  clear pml4_t ;;; clear first_pdp ;;; clear second_pdp ;;;
  kassert (Z.land (addr pml4_t) 0xfff =? 0) ;;;
  kassert (Z.land (addr first_pdp) 0xfff =? 0) ;;;
  kassert (Z.land (addr first_pd) 0xfff =? 0) ;;;
  put pml4_t (pt_index PML4_SHIFT PHYS_VIRT_START) (table_entry first_pdp) ;;;
  direct_loop 513 PHYS_VIRT_START 0 ;;;
  let idx := pt_index PDP_SHIFT PHYS_VIRT_START in
  put first_pdp idx (table_entry phy_first_pd) ;;;
  (if idx <? PML4_PER_PDP - 1 then put first_pdp (idx + 1) (table_entry phy_second_pd) else ret tt) ;;;
  (if idx + 1 <? PML4_PER_PDP - 1 then put first_pdp (idx + 2) (table_entry phy_third_pd) else ret tt) ;;;
  (if idx + 2 <? PML4_PER_PDP - 1 then put first_pdp (idx + 3) (table_entry phy_fourth_pd) else ret tt) ;;;
  put pml4_t (pt_index PML4_SHIFT KERNEL_BASE) (table_entry second_pdp) ;;;
  let idx := pt_index PDP_SHIFT KERNEL_BASE in
  put second_pdp idx (table_entry first_pd) ;;;
  (if idx <? PML4_PER_PDP - 1 then put second_pdp (idx + 1) (table_entry second_pd) else ret tt) ;;;
  fill_pds PD_PER_PTE 0.

Definition load_tables : M boot unit :=
  write_cr3 (phys pml4_t) ;;;
  c <- gets cr3 ;; set_bp_cr3 c ;;;
  c4 <- gets cr4 ;;
  write_cr4 (Z.lxor c4 cr4_pge) ;;;
  write_cr4 c4.

(** [for (; addr < __max_phy_mem_addr; addr += PAGE_SIZE_LARGE)] *)
Fixpoint map_loop (fuel : nat) (a : Z) : M (mm T) unit :=
  if a <? max then
    match fuel with
    | O => out_of_fuel
    | S fuel' =>
        r <- map_page_p2v a (P2V a) (Z.lor (Z.lor PTE_PS PTE_P) PTE_W) ;;
        (if r =? OK then ret tt else panic) ;;;
        map_loop fuel' (a + PAGE_SIZE_LARGE)
    end
  else ret tt.
Definition map_above : M (mm T) unit :=
  if PAGE_SIZE_LARGE <? max then map_loop (S (Z.to_nat (max / PAGE_SIZE_LARGE))) NUMBER_1G else ret tt.

Definition init_pml4 : M boot unit :=
  zoom b_mm set_mm static_tables ;;;
  load_tables ;;;
  zoom b_mm set_mm map_above.
Definition init_pgtable : M boot unit := init_pml4.
(** Its body is commented out. *)
Definition init_pgtable_ap : M boot unit := ret tt.
End boot.
#[global] Arguments boot T : clear implicits.

(** ** The tables as the code means them *)

(** The table an entry points to. *)
Definition child (t : table) (x : Z) : option table :=
  match t with
  | pml4_t => if x =? 260 then Some first_pdp else if x =? 511 then Some second_pdp else None
  | first_pdp =>
      if x =? 0 then Some phy_first_pd else if x =? 1 then Some phy_second_pd
      else if x =? 2 then Some phy_third_pd else if x =? 3 then Some phy_fourth_pd else None
  | second_pdp => if x =? 510 then Some first_pd else if x =? 511 then Some second_pd else None
  | _ => None
  end.
Fixpoint tbl_from (t : table) (p : list Z) : option table :=
  match p with
  | [] => Some t
  | x :: p' => match child t x with Some c => tbl_from c p' | None => None end
  end.
Definition level (t : table) : nat :=
  match t with pml4_t => 0 | first_pdp | second_pdp => 1 | _ => 2 end.
(** The gigabyte a page directory holds. *)
Definition giga (t : table) : Z :=
  match t with
  | second_pd | phy_second_pd => 1
  | third_pd | phy_third_pd => 2
  | fourth_pd | phy_fourth_pd => 3
  | _ => 0
  end.

(** Gigabytes of physical memory, rounded up. *)
Definition gigas (max : Z) : Z := (max + (NUMBER_1G - 1)) / NUMBER_1G.

(** An [int] product of an index and [PAGE_SIZE_LARGE] as an [ulong]: from 2G on
    the sign fills the upper half. *)
Definition sign_extended (b : Z) : Z := wrap64 (to_int b).
#[global] Arguments sign_extended : simpl never.

Lemma sign_extended_spec b : 0 <= b < 2 ^ 32 ->
  sign_extended b = if b <? 2 ^ 31 then b else b + (2 ^ 64 - 2 ^ 32).
Proof.
  intros Hb. unfold sign_extended. destruct (Z.ltb_spec b (2 ^ 31)).
  - rewrite to_int_small, wrap64_small by lia. done.
  - assert (to_int b = b - 2 ^ 32) as ->.
    { unfold to_int. rewrite <- (Z_mod_plus_full _ (-1)), Z.mod_small; lia. }
    unfold wrap64. rewrite <- (Z_mod_plus_full _ 1), Z.mod_small; lia.
Qed.

Lemma sign_extended_page q o : 0 <= q < 2048 -> 0 <= o < 2 ^ 21 ->
  sign_extended (q * PAGE_SIZE_LARGE + o) = sign_extended (q * PAGE_SIZE_LARGE) + o /\
  0 <= sign_extended (q * PAGE_SIZE_LARGE) < 2 ^ 64 /\ sign_extended (q * PAGE_SIZE_LARGE) mod 2 ^ 21 = 0.
Proof.
  unfold PAGE_SIZE_LARGE. intros Hq Ho. change (2 ^ 21) with 2097152 in *. rewrite !sign_extended_spec by lia.
  destruct (Z.ltb_spec (q * 2097152 + o) (2 ^ 31)), (Z.ltb_spec (q * 2097152) (2 ^ 31)); try lia;
    (split; [lia|]; split; [lia|]).
  - by apply Z.mod_mul.
  - replace (q * 2097152 + (2 ^ 64 - 2 ^ 32)) with ((q + 8796093020160) * 2097152) by lia. by apply Z.mod_mul.
Qed.

(** The page an entry maps. *)
Definition page_of (max : Z) (t : table) (x : Z) : option Z :=
  match level t with
  | 1%nat => if (match t with first_pdp => true | _ => false end) && (4 <=? x) && (x <? gigas max) then Some (x * NUMBER_1G) else None
  | 2%nat => Some (sign_extended ((x + giga t * 512) * PAGE_SIZE_LARGE))
  | _ => None
  end.

Section tables.
Context {T : Type} `{FA : FrameAlloc T} (addr : table -> Z) (max : Z).
Abbreviation phys := (phys addr).

Definition word (t : table) (x : Z) : Z :=
  match child t x with
  | Some c => Z.lor (phys c) 3
  | None => match page_of max t x with Some b => Z.lor b 0x83 | None => 0 end
  end.
Definition tab_boot (p : list Z) : option Z := phys <$> tbl_from pml4_t p.

(** Where the linker puts the tables: different pages of the kernel image. *)
Record image_ok : Prop := {
  im_range t : KERNEL_BASE < addr t /\ addr t + 4096 <= 2 ^ 64;
  im_aligned t : addr t mod 4096 = 0;
  im_inj t t' : addr t = addr t' -> t = t'
}.
Hypothesis (Him : image_ok).

Lemma phys_eq t : phys t = addr t - KERNEL_BASE.
Proof.
  pose proof (im_range Him t). unfold KERNEL_BASE in *. unfold Boot.phys, K2P, KERNEL_BASE.
  apply wrap64_small. lia.
Qed.

Lemma phys_range t : 0 < phys t < 2 ^ 31 /\ phys t mod 4096 = 0.
Proof.
  rewrite phys_eq. pose proof (im_range Him t). pose proof (im_aligned Him t) as Ha.
  assert (KERNEL_BASE = 0xffffffff80000 * 4096) as Hk by reflexivity. split; [unfold KERNEL_BASE in *; lia|].
  rewrite Hk, Zminus_mod, Ha, Z.mod_mul by lia. done.
Qed.

Lemma phys_inj t t' : phys t = phys t' -> t = t'.
Proof. rewrite !phys_eq. intros H. apply (im_inj Him). lia. Qed.

(** Words of the tables are all different. *)
Lemma words_inj t t' x x' : idx x -> idx x' -> phys t + 8 * x = phys t' + 8 * x' -> t = t' /\ x = x'.
Proof.
  unfold idx. intros Hx Hx' Heq. destruct (phys_range t) as [? Ht], (phys_range t') as [? Ht'].
  pose proof (Z.div_mod (phys t) 4096). pose proof (Z.div_mod (phys t') 4096).
  assert (phys t = phys t') as Hp by lia. split; [by apply phys_inj|lia].
Qed.

(** ** Memory as the tables see it *)
Definition sees (m : memory) (f : table -> Z -> Z) : Prop := forall t x, idx x -> m (phys t + 8 * x) = f t x.
Definition vput (t : table) (i v : Z) (f : table -> Z -> Z) : table -> Z -> Z :=
  fun t' x => if decide (t' = t) then (if x =? i then v else f t' x) else f t' x.
Definition vclear (t : table) (f : table -> Z -> Z) : table -> Z -> Z :=
  fun t' x => if decide (t' = t) then 0 else f t' x.

(** A run that changes nothing but memory, and makes it look like [f]. *)
Definition views (s : mm T) (f : table -> Z -> Z) (s' : mm T) : Prop :=
  sees (ram s') f /\ pml4 s' = pml4 s /\ frames s' = frames s /\ tlb s' = tlb s.

Lemma store_table_ok s0 s f t i v Q : views s0 f s -> idx i ->
  (forall s', views s0 (vput t i v f) s' -> Q tt s') -> wp (put addr t i v) s Q.
Proof.
  intros (Hs & Hp & Hf & Ht) Hi HQ. unfold put. wp_steps. apply HQ. split; [|done].
  intros t' x Hx. cbn. unfold upd, vput. destruct (Z.eqb_spec (phys t' + 8 * x) (phys t + 8 * i)) as [Heq|Hne].
  - apply words_inj in Heq as [-> ->]; [|done|done]. rewrite decide_True by done. by rewrite Z.eqb_refl.
  - rewrite (Hs t' x Hx). case_decide as Hd; [|done]. subst. destruct (Z.eqb_spec x i) as [->|]; done.
Qed.

Lemma clear_ok s0 s f t Q : views s0 f s ->
  (forall s', views s0 (vclear t f) s' -> Q tt s') -> wp (clear addr t) s Q.
Proof.
  intros (Hs & Hp & Hf & Ht) HQ. unfold clear. wp_steps. apply HQ. split; [|done].
  intros t' x Hx. cbn. unfold vclear. case_decide as Hd.
  - subst. apply zero4k_in. unfold in_range, idx in *. lia.
  - rewrite zero4k_out; [by apply Hs|]. unfold in_range, idx in *. intros Hr.
    destruct (phys_range t) as [? Hm], (phys_range t') as [? Hm'].
    pose proof (Z.div_mod (phys t) 4096). pose proof (Z.div_mod (phys t') 4096).
    apply Hd, phys_inj. lia.
Qed.

Lemma get_ok s0 s f t i Q : views s0 f s -> idx i -> Q (f t i) s -> wp (get addr t i) s Q.
Proof. intros (Hs & _) Hi HQ. unfold get. wp_steps. by rewrite (Hs t i Hi). Qed.

Lemma views_ext s0 s f g : (forall t x, idx x -> f t x = g t x) -> views s0 f s -> views s0 g s.
Proof. intros He (Hs & ?). split; [|done]. intros t x Hx. by rewrite <- He, Hs. Qed.

(** ** Indices *)
Lemma shifted_index b c a sh : 0 <= sh -> b = c * 2 ^ sh -> 0 <= a -> pt_index sh (b + a) = (c + a / 2 ^ sh) mod 512.
Proof. intros Hsh -> Ha. rewrite pt_index_spec by done. rewrite Z.add_comm, Z.div_add by lia. f_equal. lia. Qed.

Lemma shifted_mod b c a sh : 0 <= sh -> b = c * 2 ^ sh -> (b + a) mod 2 ^ sh = a mod 2 ^ sh.
Proof. intros Hsh ->. rewrite Z.add_comm. by apply Z.mod_add; lia. Qed.

Lemma direct_index a : 0 <= a < 2 ^ 39 ->
  pt_index 39 (PHYS_VIRT_START + a) = 260 /\ pt_index 30 (PHYS_VIRT_START + a) = a / 2 ^ 30 /\
  pt_index 21 (PHYS_VIRT_START + a) = (a / 2 ^ 21) mod 512.
Proof.
  intros Ha. split; [|split].
  - rewrite (shifted_index _ 0x1FFFF04 a 39) by (done || lia). rewrite (Z.div_small a) by lia. done.
  - rewrite (shifted_index _ 0x3FFFE0800 a 30) by (done || lia).
    rewrite Z.add_mod by lia. change (0x3FFFE0800 mod 512) with 0. rewrite Z.add_0_l, Z.mod_mod by lia.
    apply Z.mod_small. split; [apply Z.div_pos; lia|apply Z.div_lt_upper_bound; lia].
  - rewrite (shifted_index _ 0x7FFFC100000 a 21) by (done || lia).
    rewrite Z.add_mod by lia. change (0x7FFFC100000 mod 512) with 0. by rewrite Z.add_0_l, Z.mod_mod by lia.
Qed.

Lemma kernel_index a : 0 <= a < 2 ^ 31 ->
  pt_index 39 (KERNEL_BASE + a) = 511 /\ pt_index 30 (KERNEL_BASE + a) = 510 + a / 2 ^ 30 /\
  pt_index 21 (KERNEL_BASE + a) = (a / 2 ^ 21) mod 512.
Proof.
  intros Ha. assert (0 <= a / 2 ^ 30 < 2).
  { split; [apply Z.div_pos; lia|apply Z.div_lt_upper_bound; lia]. }
  split; [|split].
  - unfold pt_index. rewrite Z.shiftr_div_pow2 by lia. unfold KERNEL_BASE.
    rewrite <- (Z.div_unique (0xffffffff80000000 + a) (2 ^ 39) 0x1ffffff (0x7f80000000 + a)) by lia. done.
  - rewrite (shifted_index _ 0x3fffffffe a 30) by (done || lia).
    rewrite Z.add_mod by lia. change (0x3fffffffe mod 512) with 510.
    rewrite (Z.mod_small (a / 2 ^ 30)) by lia. apply Z.mod_small. lia.
  - rewrite (shifted_index _ 0x7fffffffc00 a 21) by (done || lia).
    rewrite Z.add_mod by lia. change (0x7fffffffc00 mod 512) with 0. by rewrite Z.add_0_l, Z.mod_mod by lia.
Qed.

(** ** The loops *)
Hypothesis (Hmax : 0 <= max <= 2 ^ 39).

Lemma gigas_spec n : n * NUMBER_1G < max <-> n < gigas max.
Proof.
  unfold gigas, NUMBER_1G. pose proof (Z.div_mod (max + (0x40000000 - 1)) 0x40000000).
  pose proof (Z.mod_pos_bound (max + (0x40000000 - 1)) 0x40000000). lia.
Qed.

Lemma gigas_range : 0 <= gigas max <= 512.
Proof.
  unfold gigas, NUMBER_1G. split; [apply Z.div_pos; lia|].
  assert ((max + (0x40000000 - 1)) / 0x40000000 < 513); [|lia]. apply Z.div_lt_upper_bound; lia.
Qed.

Definition vdirect (n : Z) (f : table -> Z -> Z) : table -> Z -> Z := fun t x =>
  if decide (t = first_pdp) then (if (n <=? x) && (x <? gigas max) then Z.lor (x * NUMBER_1G) 0x83 else f t x) else f t x.

Lemma direct_loop_ok s0 fuel : forall n s f Q, views s0 f s -> 0 <= n -> 513 <= n + Z.of_nat fuel -> f pml4_t 260 <> 0 ->
  (forall s', views s0 (vdirect n f) s' -> Q tt s') ->
  wp (direct_loop addr max fuel (PHYS_VIRT_START + n * NUMBER_1G) (n * NUMBER_1G)) s Q.
Proof.
  pose proof gigas_range as Hg.
  induction fuel as [|fuel IH]; intros n s f Q Hv Hn Hf Hp HQ; cbn [direct_loop];
    (destruct (Z.ltb_spec (n * NUMBER_1G) max) as [Hlt|Hge]; [apply gigas_spec in Hlt|]).
  1: lia.
  1, 3: wp_steps; apply HQ; eapply views_ext; [|exact Hv]; intros t x Hx; unfold vdirect;
    case_decide; [|done]; destruct (Z.leb_spec n x), (Z.ltb_spec x (gigas max)) as [Hx'|]; try done;
    apply gigas_spec in Hx'; unfold NUMBER_1G in *; cbn; lia.
  assert (0 <= n * NUMBER_1G < 2 ^ 39) as Hr by (unfold NUMBER_1G; lia).
  destruct (direct_index _ Hr) as (H39 & H30 & _). wp_steps.
  change PML4_SHIFT with 39. change PDP_SHIFT with 30. rewrite H39, H30.
  change (2 ^ 30) with NUMBER_1G. rewrite Z.div_mul by done.
  eapply get_ok; [exact Hv|unfold idx; lia|]. rewrite (proj2 (Z.eqb_neq _ _) Hp). wp_steps.
  rewrite (Z.add_comm PHYS_VIRT_START), <- P2V_small by (unfold PHYS_LIMIT, PAGE_SIZE_LARGE; lia).
  apply V2P_P2V; [unfold PHYS_LIMIT, PAGE_SIZE_LARGE; lia|]. wp_steps.
  eapply store_table_ok; [exact Hv|unfold idx; lia|]. intros s1 Hv1.
  rewrite P2V_small by (unfold PHYS_LIMIT, PAGE_SIZE_LARGE; lia).
  replace (n * NUMBER_1G + PHYS_VIRT_START + NUMBER_1G) with (PHYS_VIRT_START + (n + 1) * NUMBER_1G) by lia.
  rewrite wrap64_small by (unfold NUMBER_1G, PHYS_VIRT_START in *; lia).
  replace (n * NUMBER_1G + NUMBER_1G) with ((n + 1) * NUMBER_1G) by lia.
  apply (IH (n + 1) s1 _ Q Hv1); [lia|lia|unfold vput; by rewrite decide_False|].
  intros s2 Hv2. apply HQ. eapply views_ext; [|exact Hv2]. intros t x Hx. unfold vdirect, vput.
  case_decide as Ht; [|done]. rewrite <- !Z.lor_assoc. change (Z.lor PTE_P (Z.lor PTE_W PTE_PS)) with 0x83.
  destruct (Z.leb_spec (n + 1) x), (Z.leb_spec n x), (Z.ltb_spec x (gigas max)), (Z.eqb_spec x n); cbn; try done; try lia; by subst.
Qed.

Definition is_pd (t : table) : bool := Nat.eqb (level t) 2.
Definition vpds (n : Z) (f : table -> Z -> Z) : table -> Z -> Z := fun t x =>
  if is_pd t && (n <=? x) then Z.lor (sign_extended ((x + giga t * 512) * PAGE_SIZE_LARGE)) 0x83 else f t x.

Lemma page_entry_spec i : page_entry i = Z.lor (sign_extended (i * PAGE_SIZE_LARGE)) 0x83.
Proof.
  unfold page_entry, sign_extended, wrap64. rewrite <- !Z.lor_assoc, <- !Z.land_ones, Z.land_lor_distr_l by lia. done.
Qed.

Lemma fill_pds_ok s0 m : forall n s f Q, views s0 f s -> 0 <= n -> n + Z.of_nat m = 512 ->
  (forall s', views s0 (vpds n f) s' -> Q tt s') -> wp (fill_pds addr m n) s Q.
Proof.
  induction m as [|m IH]; intros n s f Q Hv Hn Hm HQ; cbn [fill_pds].
  - wp_steps. apply HQ. eapply views_ext; [|exact Hv]. intros t x Hx. unfold vpds, idx in *.
    rewrite (proj2 (Z.leb_gt n x)) by lia. by rewrite andb_false_r.
  - assert (idx n) as Hi by (unfold idx; lia). rewrite !page_entry_spec.
    do 8 (wp_steps; eapply store_table_ok; [eassumption|exact Hi|]; clear s Hv; intros s Hv). wp_steps.
    apply (IH (n + 1) s _ Q Hv); [lia|lia|]. intros s' Hv'. apply HQ. eapply views_ext; [|exact Hv'].
    intros t x Hx. unfold vpds, vput, is_pd.
    destruct (Z.leb_spec (n + 1) x), (Z.leb_spec n x), (Z.eqb_spec x n); try lia;
      destruct t; cbn; try done; subst; f_equal; f_equal; f_equal; lia.
Qed.

(** The tables after the static part. *)
Lemma static_tables_ok s f : views s f s ->
  wp (static_tables addr max) s (fun _ s' => views s word s').
Proof.
  intros Hv. unfold static_tables. wp_steps.
  do 3 (eapply clear_ok; [eassumption|]; intros ? ?; wp_steps).
  assert (forall t, (Z.land (addr t) 0xfff =? 0) = true) as Hal.
  { intros t. change 0xfff with (2 ^ 12 - 1). rewrite land_low_mod by lia. apply Z.eqb_eq, (im_aligned Him). }
  rewrite !Hal. wp_steps.
  change (pt_index PML4_SHIFT PHYS_VIRT_START) with 260. change (pt_index PDP_SHIFT PHYS_VIRT_START) with 0.
  change (pt_index PML4_SHIFT KERNEL_BASE) with 511. change (pt_index PDP_SHIFT KERNEL_BASE) with 510.
  eapply store_table_ok; [eassumption|done|]. intros s1 Hv1. wp_steps.
  replace PHYS_VIRT_START with (PHYS_VIRT_START + 0 * NUMBER_1G) by lia. change 0 with (0 * NUMBER_1G) at 3.
  eapply direct_loop_ok; [exact Hv1|lia|lia| |].
  { unfold vput. cbn. unfold table_entry, PTE_P, PTE_W. intros Hz.
    rewrite <- Z.lor_assoc in Hz. apply Z.lor_eq_0_iff in Hz as [_ Hz]. done. }
  intros s2 Hv2. wp_steps. change (0 <? PML4_PER_PDP - 1) with true. change (0 + 1 <? PML4_PER_PDP - 1) with true.
  change (0 + 2 <? PML4_PER_PDP - 1) with true. change (510 <? PML4_PER_PDP - 1) with true. cbn iota.
  do 7 (eapply store_table_ok; [eassumption|done|]; intros ? ?; wp_steps).
  eapply fill_pds_ok; [eassumption|lia|done|]. intros s9 Hv9. eapply views_ext; [|exact Hv9].
  intros t x Hx. unfold idx in Hx. unfold vpds, is_pd, vdirect, vput, vclear, word, page_of, table_entry.
  rewrite (proj2 (Z.leb_le 0 x)) by lia. rewrite <- !Z.lor_assoc. change (Z.lor PTE_P PTE_W) with 3.
  destruct t; cbn; try done; repeat (case_match; simplify_eq; try done; try lia).
Qed.

(** ** The tree of tables *)
Lemma low_or b fl : 0 <= b < 2 ^ 64 -> b mod 4096 = 0 -> 0 <= fl < 4096 ->
  page_mask (Z.lor b fl) = b /\ Z.land (Z.lor b fl) 4095 = fl /\
  e_present (Z.lor b fl) = Z.testbit fl 0 /\ e_large (Z.lor b fl) = Z.testbit fl 7 /\ 0 <= Z.lor b fl < 2 ^ 64.
Proof.
  intros Hb Hm Hf. destruct (entry_or b fl) as (H1 & H2 & H3 & H4); [lia|done|done|].
  unfold e_present, e_large. rewrite !H3 by lia. done.
Qed.

Lemma page_of_range t x b : idx x -> page_of max t x = Some b ->
  (1 <= level t)%nat /\ 0 <= b < 2 ^ 64 /\ b mod 2 ^ page_shift (level t) = 0 /\ b mod 4096 = 0.
Proof.
  intros Hx. unfold page_of, page_shift, idx, NUMBER_1G in *.
  assert (forall g, 0 <= g < 4 -> let b := sign_extended ((x + g * 512) * PAGE_SIZE_LARGE) in
    0 <= b < 2 ^ 64 /\ b mod 2 ^ 21 = 0 /\ b mod 4096 = 0) as Hpd.
  { intros g Hg b'. destruct (sign_extended_page (x + g * 512) 0) as (_ & Hr & Hm); [lia..|]. split; [done|]. split; [done|].
    fold b' in Hr, Hm. pose proof (Z.div_mod b' (2 ^ 21)). replace b' with (b' / 2 ^ 21 * 512 * 4096) by lia. by apply Z.mod_mul. }
  destruct t; cbn; try discriminate; repeat case_match; try discriminate; intros [= <-];
    (split; [lia|]); try (by apply (Hpd 0)); try (by apply (Hpd 1)); try (by apply (Hpd 2)); try (by apply (Hpd 3)).
  split; [lia|].
  1: change 0x40000000 with (262144 * 4096); split; [change (2 ^ Z.pos_sub _ _) with (262144 * 4096); by apply Z.mod_mul|].
  1: by rewrite Z.mul_assoc, Z.mod_mul.
Qed.

Lemma word_ok t x : idx x -> entry_ok (level t) (word t x) (phys <$> child t x).
Proof.
  intros Hx. unfold word. destruct (child t x) as [c|]; cbn [fmap option_fmap option_map entry_ok].
  - destruct (phys_range c) as [Hr Hm]. destruct (low_or (phys c) 3) as (H1 & _ & H3 & H4 & H5); [lia|done|lia|]. done.
  - destruct (page_of max t x) as [b|] eqn:Hp; [right|by left].
    destruct (page_of_range _ _ _ Hx Hp) as (Hl & Hb & Hs & Hm).
    destruct (low_or b 0x83) as (H1 & _ & H3 & H4 & H5); [done|done|lia|]. rewrite H1. split_and!; try done; lia.
Qed.

Lemma tbl_from_app t p q : tbl_from t (p ++ q) = match tbl_from t p with Some c => tbl_from c q | None => None end.
Proof. revert t. induction p as [|x p IH]; intros t; cbn; [done|]. by destruct (child t x). Qed.

Definition path_of (t : table) : list Z :=
  match t with
  | pml4_t => []
  | first_pdp => [260] | second_pdp => [511]
  | first_pd => [511; 510] | second_pd => [511; 511]
  | third_pd | fourth_pd => [-1]
  | phy_first_pd => [260; 0] | phy_second_pd => [260; 1] | phy_third_pd => [260; 2] | phy_fourth_pd => [260; 3]
  end.

Lemma tbl_from_path p t : tbl_from pml4_t p = Some t -> p = path_of t /\ level t = length p /\ Forall idx p.
Proof.
  assert (forall x, idx x <-> 0 <= x < 512) as Hi by done.
  destruct p as [|x [|y [|z p]]]; cbn; intros Hp; repeat (case_match; simplify_eq; cbn in *);
    repeat match goal with Heq : (_ =? _) = true |- _ => apply Z.eqb_eq in Heq; subst end; cbn in *; try done; try (injection Hp as <-);
    (split; [done|]); (split; [done|]); repeat constructor; lia.
Qed.

Lemma boot_tables_ok m fr : sees m word -> (forall t y, in_range (phys t) 4096 y -> ~ fr y) ->
  tables_ok m (phys pml4_t) tab_boot fr.
Proof.
  intros Hm Hfr. unfold tab_boot. split.
  - done.
  - intros p q Hq. apply fmap_Some in Hq as (t & Ht & ->). destruct (phys_range t) as [Hr Hal].
    destruct (tbl_from_path _ _ Ht) as (_ & Hl & Hidx). split; [lia|]. split; [done|]. split; [|done].
    rewrite <- Hl. destruct t; cbn; lia.
  - intros p q Hq _. apply fmap_Some in Hq as (t & Ht & ->). destruct (phys_range t). lia.
  - intros p p' q Hq Hq'. apply fmap_Some in Hq as (t & Ht & ->). apply fmap_Some in Hq' as (t' & Ht' & Heq).
    apply phys_inj in Heq as <-. destruct (tbl_from_path _ _ Ht) as [-> _]. by destruct (tbl_from_path _ _ Ht') as [-> _].
  - intros p x q Hq. apply fmap_Some in Hq as (t & Ht & ->). rewrite tbl_from_app in Ht.
    destruct (tbl_from pml4_t p) as [c|]; [by exists (phys c)|done].
  - intros p q x Hq Hl Hx. apply fmap_Some in Hq as (t & Ht & ->). rewrite (Hm t x Hx), tbl_from_app, Ht.
    destruct (tbl_from_path _ _ Ht) as (_ & <- & _). cbn [tbl_from].
    replace (phys <$> match child t x with Some c => Some c | None => None end) with (phys <$> child t x) by by destruct (child t x).
    by apply word_ok.
  - intros p q y Hq. apply fmap_Some in Hq as (t & _ & ->). apply Hfr.
Qed.

(** ** What the processor translates *)
Definition DIRECT_SIZE : Z := Z.max (4 * NUMBER_1G) (gigas max * NUMBER_1G).

(** The end of a walk at a large page. *)
Lemma large_page e lvl b va a : (1 <= lvl <= 2)%nat -> e = Z.lor b 0x83 -> 0 <= b < 2 ^ 64 ->
  b mod 2 ^ page_shift lvl = 0 -> b mod 4096 = 0 -> b + va mod 2 ^ page_shift lvl = a ->
  Some (Z.shiftl (Z.shiftr (page_mask e) (page_shift lvl)) (page_shift lvl) + va mod 2 ^ page_shift lvl, Z.land e 4095) =
  Some (a, 0x83).
Proof.
  intros Hl -> Hb Hs Hm <-. destruct (low_or b 0x83) as (-> & -> & _); [done|done|lia|].
  rewrite shift_aligned by (done || (unfold page_shift; lia)). done.
Qed.

Lemma pd_walk m t va a : sees m word -> is_pd t = true -> 0 <= a < 2 ^ 32 ->
  pt_index 21 va = (a / 2 ^ 21) mod 512 -> a / 2 ^ 30 = giga t -> va mod 2 ^ 21 = a mod 2 ^ 21 ->
  match PgWalk.walk m (phys t) 2 [pt_index 21 va; pt_index 12 va] with
  | None => None
  | Some (e, lvl) => Some (Z.shiftl (Z.shiftr (page_mask e) (page_shift lvl)) (page_shift lvl) + va mod 2 ^ page_shift lvl, Z.land e 4095)
  end = Some (sign_extended a, 0x83).
Proof.
  intros Hm Ht Ha H21 Hg Hlow. cbn [PgWalk.walk]. pose proof (pt_index_range 21 va) as Hi. rewrite (Hm t _ Hi).
  assert (child t (pt_index 21 va) = None) as Hc by by destruct t.
  set (q := pt_index 21 va + giga t * 512).
  assert (page_of max t (pt_index 21 va) = Some (sign_extended (q * PAGE_SIZE_LARGE))) as Hp by by destruct t.
  unfold word. rewrite Hc, Hp. destruct (page_of_range _ _ _ Hi Hp) as (_ & Hb & Hs & Hm4).
  destruct (low_or (sign_extended (q * PAGE_SIZE_LARGE)) 0x83) as (_ & _ & Hpr & Hla & _); [done|done|lia|].
  rewrite Hpr, Hla. cbn [negb Z.testbit andb Nat.leb].
  assert (level t = 2%nat) as Hlv by by apply Nat.eqb_eq. rewrite Hlv in Hs.
  apply (large_page _ 2 (sign_extended (q * PAGE_SIZE_LARGE))); try done; [lia|].
  change (page_shift 2) with 21.
  assert (a / 2 ^ 21 / 512 = giga t) as Hg'.
  { rewrite Z.div_div by lia. change (2 ^ 21 * 512) with (2 ^ 30). exact Hg. }
  assert (0 <= giga t < 4) as Hgr by (destruct t; cbn; lia).
  assert (a = q * PAGE_SIZE_LARGE + va mod 2 ^ 21) as ->.
  { unfold q. rewrite Hlow, H21. unfold PAGE_SIZE_LARGE. change 2097152 with (2 ^ 21).
    pose proof (Z.div_mod (a / 2 ^ 21) 512). pose proof (Z.div_mod a (2 ^ 21)). lia. }
  symmetry. unfold idx in Hi. apply (sign_extended_page q); [unfold q; lia|apply Z.mod_pos_bound; lia].
Qed.

Lemma boot_kernel m a : sees m word -> 0 <= a < 2 ^ 31 ->
  mmu m (phys pml4_t) (KERNEL_BASE + a) = Some (a, 0x83).
Proof.
  intros Hm Ha. destruct (kernel_index a Ha) as (H39 & H30 & H21). unfold mmu, va_path. rewrite H39, H30.
  assert (0 <= a / 2 ^ 30 < 2) as Hj. { split; [apply Z.div_pos; lia|apply Z.div_lt_upper_bound; lia]. }
  cbn [PgWalk.walk]. rewrite (Hm pml4_t 511) by done. change (word pml4_t 511) with (Z.lor (phys second_pdp) 3).
  destruct (phys_range second_pdp). destruct (low_or (phys second_pdp) 3) as (-> & _ & -> & -> & _); [lia|done|lia|].
  cbn [negb Z.testbit Pos.testbit andb]. rewrite (Hm second_pdp) by (unfold idx; lia).
  assert (exists t, child second_pdp (510 + a / 2 ^ 30) = Some t /\ is_pd t = true /\ giga t = a / 2 ^ 30) as (t & Ht & Hpd & Hg).
  { assert (a / 2 ^ 30 = 0 \/ a / 2 ^ 30 = 1) as [-> | ->] by lia; [by exists first_pd|by exists second_pd]. }
  unfold word. rewrite Ht. destruct (phys_range t). destruct (low_or (phys t) 3) as (-> & _ & -> & -> & _); [lia|done|lia|].
  cbn [negb Z.testbit Pos.testbit andb].
  transitivity (Some (sign_extended a, 0x83)).
  - apply pd_walk; [done|done|lia|done|done|]. by apply (shifted_mod _ 0x7fffffffc00).
  - by rewrite sign_extended_spec, (proj2 (Z.ltb_lt a _)) by lia.
Qed.

(** What the direct map translates [a] to when the loop has mapped the pages
    below [l]. *)
Definition direct_pa (l a : Z) : Z := if (l <=? a) && (a <? 2 ^ 32) then sign_extended a else a.

Lemma direct_pa_low l a : 0 <= a < 2 ^ 31 -> direct_pa l a = a.
Proof.
  intros Ha. unfold direct_pa. rewrite sign_extended_spec, (proj2 (Z.ltb_lt a (2 ^ 31))) by lia. by destruct (_ && _).
Qed.

Lemma direct_pa_high l a : 2 ^ 32 <= a -> direct_pa l a = a.
Proof. intros Ha. unfold direct_pa. rewrite (proj2 (Z.ltb_ge a _)) by done. by rewrite andb_false_r. Qed.

Lemma boot_direct m a : sees m word -> 0 <= a < DIRECT_SIZE ->
  mmu m (phys pml4_t) (PHYS_VIRT_START + a) = Some (direct_pa 0 a, 0x83).
Proof.
  intros Hm Ha. pose proof gigas_range as Hgr. unfold DIRECT_SIZE, NUMBER_1G in Ha.
  assert (0 <= a < 2 ^ 39) as Ha39 by lia. destruct (direct_index a Ha39) as (H39 & H30 & H21).
  unfold mmu, va_path. rewrite H39, H30.
  assert (0 <= a / 2 ^ 30 < 512) as Hj. { split; [apply Z.div_pos; lia|apply Z.div_lt_upper_bound; lia]. }
  cbn [PgWalk.walk]. rewrite (Hm pml4_t 260) by done. change (word pml4_t 260) with (Z.lor (phys first_pdp) 3).
  destruct (phys_range first_pdp). destruct (low_or (phys first_pdp) 3) as (-> & _ & -> & -> & _); [lia|done|lia|].
  cbn [negb Z.testbit Pos.testbit andb]. rewrite (Hm first_pdp) by (unfold idx; lia).
  set (j := a / 2 ^ 30) in *. destruct (decide (j < 4)) as [Hj4|Hj4].
  - assert (exists t, child first_pdp j = Some t /\ is_pd t = true /\ giga t = j) as (t & Ht & Hpd & Hg).
    { assert (j = 0 \/ j = 1 \/ j = 2 \/ j = 3) as [-> |[-> |[-> | ->]]] by lia;
        [by exists phy_first_pd|by exists phy_second_pd|by exists phy_third_pd|by exists phy_fourth_pd]. }
    unfold word. rewrite Ht. destruct (phys_range t). destruct (low_or (phys t) 3) as (-> & _ & -> & -> & _); [lia|done|lia|].
    cbn [negb Z.testbit Pos.testbit andb].
    assert (a < 2 ^ 32) as Ha32.
    { pose proof (Z.div_mod a (2 ^ 30) ltac:(lia)) as Hdm. pose proof (Z.mod_pos_bound a (2 ^ 30) ltac:(lia)).
      change (a / 2 ^ 30) with j in Hdm. lia. }
    unfold direct_pa. rewrite (proj2 (Z.leb_le 0 a)), (proj2 (Z.ltb_lt a (2 ^ 32))) by lia. cbn [andb].
    apply pd_walk; [done|done|lia|done|done|]. by apply (shifted_mod _ 0x7fffc100000).
  - assert (j < gigas max) as Hjg.
    { pose proof (Z.div_mod a (2 ^ 30) ltac:(lia)) as Hdm. pose proof (Z.mod_pos_bound a (2 ^ 30) ltac:(lia)). fold j in Hdm. lia. }
    assert (child first_pdp j = None) as Hc by (cbn; repeat case_match; try done; lia).
    assert (page_of max first_pdp j = Some (j * NUMBER_1G)) as Hp.
    { unfold page_of. cbn. rewrite (proj2 (Z.leb_le 4 j)), (proj2 (Z.ltb_lt j _)) by lia. done. }
    destruct (page_of_range first_pdp j _ Hj Hp) as (_ & Hb & Hs & Hm4).
    unfold word. rewrite Hc, Hp. destruct (low_or (j * NUMBER_1G) 0x83) as (_ & _ & Hpr & Hla & _); [done|done|lia|].
    rewrite Hpr, Hla. cbn [negb Z.testbit Pos.testbit andb Nat.leb].
    assert (2 ^ 32 <= a) as Ha32.
    { pose proof (Z.div_mod a (2 ^ 30) ltac:(lia)) as Hdm. pose proof (Z.mod_pos_bound a (2 ^ 30) ltac:(lia)).
      change (a / 2 ^ 30) with j in Hdm. lia. }
    rewrite direct_pa_high by done.
    apply (large_page _ 1 (j * NUMBER_1G)); try done; [lia|]. change (page_shift 1) with 30.
    rewrite (shifted_mod _ 0x3fffe0800) by (done || lia). unfold j. change NUMBER_1G with (2 ^ 30).
    pose proof (Z.div_mod a (2 ^ 30)). lia.
Qed.

Lemma va_split va : va mod 2 ^ 48 = pt_index 39 va * 2 ^ 39 + pt_index 30 va * 2 ^ 30 + va mod 2 ^ 30.
Proof.
  pose proof (offset_split va 39 ltac:(lia)) as H1. pose proof (offset_split va 30 ltac:(lia)) as H2.
  change (39 + 9) with 48 in H1. change (30 + 9) with 39 in H2. lia.
Qed.

(** Nothing else is mapped; the processor ignores the top 16 bits. *)
Definition image_of (base n va : Z) : Prop := exists a, 0 <= a < n /\ va mod 2 ^ 48 = (base + a) mod 2 ^ 48.

Lemma boot_nothing_else m va r : sees m word -> mmu m (phys pml4_t) va = Some r ->
  image_of KERNEL_BASE (2 ^ 31) va \/ image_of PHYS_VIRT_START DIRECT_SIZE va.
Proof.
  intros Hm Hr. pose proof (va_split va) as Hva. pose proof gigas_range as Hgr.
  pose proof (pt_index_range 39 va) as Hx. pose proof (pt_index_range 30 va) as Hj.
  pose proof (Z.mod_pos_bound va (2 ^ 30) ltac:(lia)) as Hlow.
  unfold mmu, va_path in Hr. cbn [PgWalk.walk] in Hr. rewrite (Hm pml4_t _ Hx) in Hr.
  set (x := pt_index 39 va) in *. set (j := pt_index 30 va) in *. unfold idx in *.
  destruct (decide (x = 260)) as [Hx1|Hx1]; [right|destruct (decide (x = 511)) as [Hx2|Hx2]; [left|]].
  - rewrite Hx1 in Hr, Hva. change (word pml4_t 260) with (Z.lor (phys first_pdp) 3) in Hr.
    destruct (phys_range first_pdp).
    destruct (low_or (phys first_pdp) 3) as (E1 & _ & E3 & E4 & _); [lia|done|lia|]. rewrite E1, E3, E4 in Hr.
    cbn [negb Z.testbit Pos.testbit andb] in Hr. rewrite (Hm first_pdp j Hj) in Hr.
    exists (j * 2 ^ 30 + va mod 2 ^ 30). split; [|rewrite Hva; unfold PHYS_VIRT_START; Z.div_mod_to_equations; lia].
    unfold DIRECT_SIZE, NUMBER_1G. enough (j < 4 \/ j < gigas max) by lia.
    destruct (decide (j < 4)) as [|Hj4]; [by left|]. right.
    assert (child first_pdp j = None) as Hc by (cbn; repeat case_match; try done; lia).
    unfold word, page_of in Hr. rewrite Hc in Hr. cbn [level andb] in Hr.
    destruct (Z.leb_spec 4 j), (Z.ltb_spec j (gigas max)); try done; lia.
  - rewrite Hx2 in Hr, Hva. change (word pml4_t 511) with (Z.lor (phys second_pdp) 3) in Hr.
    destruct (phys_range second_pdp).
    destruct (low_or (phys second_pdp) 3) as (E1 & _ & E3 & E4 & _); [lia|done|lia|]. rewrite E1, E3, E4 in Hr.
    cbn [negb Z.testbit Pos.testbit andb] in Hr. rewrite (Hm second_pdp j Hj) in Hr.
    exists ((j - 510) * 2 ^ 30 + va mod 2 ^ 30). assert (510 <= j).
    { destruct (decide (510 <= j)) as [|Hj4]; [done|]. exfalso.
      assert (child second_pdp j = None) as Hc by (cbn; repeat case_match; try done; lia).
      unfold word, page_of in Hr. by rewrite Hc in Hr. }
    split; [lia|]. rewrite Hva. unfold KERNEL_BASE. Z.div_mod_to_equations. lia.
  - exfalso. assert (child pml4_t x = None) as Hc by (cbn; repeat case_match; try done; lia).
    unfold word, page_of in Hr. by rewrite Hc in Hr.
Qed.

(** ** Mapping above 1G *)

(** What the loop keeps when it has mapped the pages below [l]: the
    translations, and no page tables. *)
Record direct_ok (root l : Z) (s : mm T) tab : Prop := {
  dk_ok : mm_ok s tab;
  dk_small p : (3 <= length p)%nat -> tab p = None;
  dk_pdp : is_Some (tab [260]);
  dk_root : pml4 s = root;
  dk_kernel a : 0 <= a < 2 ^ 31 -> mmu (ram s) root (KERNEL_BASE + a) = Some (a, 0x83);
  dk_direct a : 0 <= a < DIRECT_SIZE -> mmu (ram s) root (PHYS_VIRT_START + a) = Some (direct_pa l a, 0x83);
  dk_else va r : mmu (ram s) root va = Some r -> image_of KERNEL_BASE (2 ^ 31) va \/ image_of PHYS_VIRT_START DIRECT_SIZE va
}.

Lemma direct_pa_start l a : l <= 2 ^ 31 -> 0 <= a -> direct_pa l a = direct_pa 0 a.
Proof.
  intros Hl Ha. destruct (Z.lt_ge_cases a (2 ^ 31)); [by rewrite !direct_pa_low by lia|].
  unfold direct_pa. by rewrite !(proj2 (Z.leb_le _ a)) by lia.
Qed.

Lemma direct_size_range : 4 * NUMBER_1G <= DIRECT_SIZE <= 2 ^ 39 /\ DIRECT_SIZE mod PAGE_SIZE_LARGE = 0 /\ max <= DIRECT_SIZE.
Proof.
  pose proof gigas_range as Hg. pose proof (gigas_spec (gigas max)) as Hs. unfold DIRECT_SIZE, NUMBER_1G, PAGE_SIZE_LARGE in *.
  split; [lia|]. split; [|lia].
  destruct (Z.max_spec (4 * 0x40000000) (gigas max * 0x40000000)) as [[_ ->]|[_ ->]]; [|done].
  change 0x40000000 with (512 * 2097152). rewrite Z.mul_assoc. by apply Z.mod_mul.
Qed.

(** The numbers of the 2M pages of the two images. *)
Lemma page_number c base a n : base = c * 2 ^ 21 -> 0 <= a < n * 2 ^ 21 -> c mod 2 ^ 27 + n <= 2 ^ 27 ->
  ((base + a) / 2 ^ 21) mod 2 ^ 27 = c mod 2 ^ 27 + a / 2 ^ 21.
Proof.
  intros -> Ha Hn. rewrite Z.add_comm, Z.div_add by lia.
  assert (0 <= a / 2 ^ 21 < n) by (split; [apply Z.div_pos; lia|apply Z.div_lt_upper_bound; lia]).
  pose proof (Z.mod_pos_bound c (2 ^ 27) ltac:(lia)).
  rewrite Z.add_mod, (Z.mod_small (a / 2 ^ 21)), Z.add_comm by lia. apply Z.mod_small. lia.
Qed.

Lemma direct_number a : 0 <= a < 2 ^ 39 -> ((PHYS_VIRT_START + a) / 2 ^ 21) mod 2 ^ 27 = 0x4100000 + a / 2 ^ 21.
Proof. intros Ha. by apply (page_number 0x7fffc100000 _ a (2 ^ 18)). Qed.
Lemma kernel_number a : 0 <= a < 2 ^ 31 -> ((KERNEL_BASE + a) / 2 ^ 21) mod 2 ^ 27 = 0x7fffc00 + a / 2 ^ 21.
Proof. intros Ha. by apply (page_number 0x7fffffffc00 _ a (2 ^ 10)). Qed.

Lemma same_2m_direct a b : 0 <= a < 2 ^ 39 -> 0 <= b < 2 ^ 39 ->
  same_2m (PHYS_VIRT_START + b) (PHYS_VIRT_START + a) <-> b / 2 ^ 21 = a / 2 ^ 21.
Proof. intros Ha Hb. rewrite same_2m_number, !direct_number by done. lia. Qed.

Lemma same_2m_kernel a b : 0 <= a < 2 ^ 39 -> 0 <= b < 2 ^ 31 ->
  ~ same_2m (KERNEL_BASE + b) (PHYS_VIRT_START + a).
Proof.
  intros Ha Hb. rewrite same_2m_number, direct_number, kernel_number by done.
  assert (a / 2 ^ 21 < 2 ^ 18) by (apply Z.div_lt_upper_bound; lia).
  assert (0 <= b / 2 ^ 21) by (apply Z.div_pos; lia). lia.
Qed.

Lemma same_2m_image a va : 0 <= a -> a mod 2 ^ 21 = 0 -> a + 2 ^ 21 <= DIRECT_SIZE ->
  same_2m va (PHYS_VIRT_START + a) -> image_of PHYS_VIRT_START DIRECT_SIZE va.
Proof.
  intros Ha Ham Hd Hs%same_2m_number. pose proof direct_size_range as (Hsz & _).
  rewrite direct_number in Hs by lia. pose proof (Z.mod_pos_bound va (2 ^ 21) ltac:(lia)) as Hlow.
  exists (a + va mod 2 ^ 21). split; [lia|].
  assert (va mod 2 ^ 48 = (va / 2 ^ 21) mod 2 ^ 27 * 2 ^ 21 + va mod 2 ^ 21) as ->.
  { change (2 ^ 48) with (2 ^ 21 * 2 ^ 27). rewrite Z.rem_mul_r by lia. lia. }
  rewrite Hs. pose proof (Z.div_mod a (2 ^ 21) ltac:(lia)) as Hda. rewrite Ham in Hda.
  replace (PHYS_VIRT_START + (a + va mod 2 ^ 21)) with
    ((0x4100000 + a / 2 ^ 21) * 2 ^ 21 + va mod 2 ^ 21 + 0xffff * 2 ^ 48) by (unfold PHYS_VIRT_START; lia).
  rewrite Z.mod_add by lia. symmetry. apply Z.mod_small.
  assert (a / 2 ^ 21 < 2 ^ 18) by (apply Z.div_lt_upper_bound; lia). assert (0 <= a / 2 ^ 21) by (apply Z.div_pos; lia). lia.
Qed.

(** One more page of the direct map. *)
Lemma direct_ok_page root s tab s' tab' a : direct_ok root a s tab -> mm_ok s' tab' -> pml4 s' = pml4 s ->
  0 <= a -> a mod 2 ^ 21 = 0 -> a + 2 ^ 21 <= DIRECT_SIZE ->
  mapped_2m s' a (PHYS_VIRT_START + a) 0x83 -> unchanged_outside_2m s s' (PHYS_VIRT_START + a) ->
  (forall p, (3 <= length p)%nat -> tab p = None -> tab' p = None) -> is_Some (tab' [260]) ->
  direct_ok root (a + PAGE_SIZE_LARGE) s' tab'.
Proof.
  intros [] Hok Hp Ha Ham Hd Hin Hout Ht Hpdp. pose proof direct_size_range as (Hsz & _).
  unfold mapped_2m, unchanged_outside_2m in *. rewrite Hp, dk_root0 in *. change PAGE_SIZE_LARGE with (2 ^ 21) in *.
  split; try done.
  - intros p Hl. by apply Ht; [|apply dk_small0].
  - intros b Hb. rewrite Hout by (apply same_2m_kernel; lia). by apply dk_kernel0.
  - intros b Hb. pose proof (Z.div_mod a (2 ^ 21) ltac:(lia)) as Hda. rewrite Ham in Hda.
    pose proof (Z.div_mod b (2 ^ 21) ltac:(lia)) as Hdb. pose proof (Z.mod_pos_bound b (2 ^ 21) ltac:(lia)) as Hmb.
    destruct (decide (b / 2 ^ 21 = a / 2 ^ 21)) as [Heq|Hne].
    + rewrite Hin by (apply same_2m_direct; lia). rewrite (shifted_mod _ 0x7fffc100000) by (done || lia).
      rewrite Heq in Hdb. unfold direct_pa. rewrite (proj2 (Z.leb_gt (a + 2 ^ 21) b)) by lia. cbn [andb]. do 2 f_equal. lia.
    + rewrite Hout by (rewrite same_2m_direct by lia; done). rewrite dk_direct0 by done. do 2 f_equal. unfold direct_pa.
      destruct (Z.leb_spec a b), (Z.leb_spec (a + 2 ^ 21) b); lia || done.
  - intros va r. destruct (same_2m_dec va (PHYS_VIRT_START + a)) as [Hs|Hs].
    + intros _. right. by apply (same_2m_image a).
    + rewrite Hout by done. apply dk_else0.
Qed.

(** [map_page_p2v] where the page directory is there. *)
Lemma map_page_existing s tab q d paddr vaddr flag :
  mm_ok s tab -> tab [pt_index 39 vaddr] = Some q -> tab [pt_index 39 vaddr; pt_index 30 vaddr] = Some d ->
  0 <= paddr < 2 ^ 45 -> paddr mod PAGE_SIZE_LARGE = 0 -> vaddr mod PAGE_SIZE_LARGE = 0 -> 0 <= flag < 4096 ->
  Z.testbit flag 0 = true -> Z.testbit flag 7 = true ->
  wp (map_page_p2v paddr vaddr flag) s (fun r s' => r = OK /\
    mm_ok s' (set_tab [pt_index 39 vaddr; pt_index 30 vaddr; pt_index 21 vaddr] None tab) /\
    frames s' = frames s /\ pml4 s' = pml4 s /\
    mapped_2m s' paddr vaddr flag /\ unchanged_outside_2m s s' vaddr).
Proof.
  intros Hok Hq Hd Hp Hpm Hvm Hf Hf0 Hf7. unfold map_page_p2v.
  change (PAGE_SIZE_LARGE - 1) with (2 ^ 21 - 1). rewrite !land_low_mod by lia. change (2 ^ 21) with PAGE_SIZE_LARGE.
  rewrite Hpm, Hvm. change 4095 with (2 ^ 12 - 1). rewrite land_high, Z.mod_small, Z.sub_diag by lia. cbn [Z.eqb]. wp_steps.
  change PML4_SHIFT with 39. change PDP_SHIFT with 30. change PD_SHIFT with 21.
  pose proof (pt_index_range 39 vaddr) as Hi. pose proof (pt_index_range 30 vaddr) as Hj. pose proof (pt_index_range 21 vaddr) as Hk.
  pose proof (root_entry _ _ _ Hok Hi) as He4. rewrite Hq in He4. destruct He4 as (_ & _ & He4 & _).
  unfold pdp_for_map, load_pml4. wp_steps. rewrite He4.
  destruct (table_range _ _ _ _ Hok Hq) as (Hqr & Hqm & Hqn). rewrite (proj2 (Z.eqb_neq q 0)) by (by apply Hqn). wp_steps.
  destruct (P2V_aligned q Hqr Hqm) as (_ & -> & _).
  pose proof (to_entry _ _ _ _ (mo_tab _ _ Hok) _ _ _ Hq ltac:(cbn; lia) Hj) as He3. cbn [app] in He3. rewrite Hd in He3.
  destruct He3 as (Hpr & Hla & Hmask & Hr3). destruct (table_range _ _ _ _ Hok Hd) as (Hdr & Hdm & Hdn).
  unfold pd_for_map. wp_steps. apply wp_load; [done|done|].
  rewrite (proj2 (Z.eqb_neq (ram s _) 0)) by (intros H0; by rewrite H0 in Hpr).
  change PTE_PS with (2 ^ 7). rewrite land_pow2_test by lia. unfold e_large in Hla. rewrite Hla. cbn [negb]. wp_steps.
  rewrite (page_mask_P2V _ d) by done. destruct (P2V_aligned d Hdr Hdm) as (_ & -> & _). wp_steps.
  apply wp_store; [done|done|]. unfold flush_tlb_one_page. wp_steps.
  destruct (store_leaf_ok s tab (pt_index 39 vaddr) (pt_index 30 vaddr) d (pt_index 21 vaddr) paddr flag) as (Hok' & Hin & Hout); try done.
  split; [done|]. split; [by destruct Hok'; split|]. do 2 (split; [done|]). split.
  - intros va Hva%same_2m_path. destruct Hva as (rest & Hva). by apply (Hin va rest).
  - intros va Hva. apply Hout. intros Hex. by apply Hva, same_2m_path.
Qed.

(** Where a walk ends at a 2M page there is a page directory. *)
Lemma leaf_table s tab va e : mm_ok s tab -> leaf s va e ->
  is_Some (tab [pt_index 39 va]) /\ is_Some (tab [pt_index 39 va; pt_index 30 va]).
Proof.
  intros Hok Hl. unfold leaf, va_path in Hl. pose proof (pt_index_range 39 va) as Hi. pose proof (pt_index_range 30 va) as Hj.
  pose proof (root_entry _ _ _ Hok Hi) as He. cbn [PgWalk.walk] in Hl.
  destruct (tab [pt_index 39 va]) as [q|] eqn:Hq.
  2: { destruct He as [He|[? _]]; [by rewrite He in Hl|lia]. }
  split; [done|]. destruct He as (Hpr & _ & Hm & _). rewrite Hpr, andb_false_r, Hm in Hl. cbn [negb] in Hl.
  pose proof (to_entry _ _ _ _ (mo_tab _ _ Hok) _ _ _ Hq ltac:(cbn; lia) Hj) as He. cbn [app] in He.
  destruct (tab [pt_index 39 va; pt_index 30 va]) as [d|]; [done|]. exfalso.
  destruct He as [He|(_ & Hpr2 & Hla2 & _)]; [by rewrite He in Hl|]. rewrite Hpr2, Hla2 in Hl. done.
Qed.

Context {K : T -> Prop}.

(** How many gigabytes from [a] on may still need a page directory. *)
Definition pending (tab : list Z -> option Z) (a : Z) : Z :=
  gigas max - Z.max 4 (if decide (is_Some (tab [260; a / 2 ^ 30])) then a / 2 ^ 30 + 1 else a / 2 ^ 30).

Lemma pending_next tab a : is_Some (tab [260; a / 2 ^ 30]) -> a mod 2 ^ 21 = 0 -> 0 <= a ->
  pending tab (a + PAGE_SIZE_LARGE) <= gigas max - Z.max 4 (a / 2 ^ 30 + 1).
Proof.
  intros Hd Ham Ha. unfold pending, PAGE_SIZE_LARGE.
  assert ((a + 2097152) / 2 ^ 30 = a / 2 ^ 30 \/ (a + 2097152) / 2 ^ 30 = a / 2 ^ 30 + 1) as [-> | ->].
  { Z.div_mod_to_equations. lia. }
  - by rewrite decide_True.
  - case_decide; lia.
Qed.

Definition four_directories (tab : list Z -> option Z) : Prop := forall j, 0 <= j < 4 -> is_Some (tab [260; j]).

Lemma map_step_ok root s tab n a : direct_ok root a s tab -> four_directories tab ->
  can_after K (2 * n) (frames s) -> pending tab a <= Z.of_nat n ->
  0 <= a < max -> a mod PAGE_SIZE_LARGE = 0 ->
  wp (map_page_p2v a (P2V a) 0x83) s (fun r s' => r = OK /\ exists tab' n',
    direct_ok root (a + PAGE_SIZE_LARGE) s' tab' /\ four_directories tab' /\
    can_after K (2 * n') (frames s') /\ pending tab' (a + PAGE_SIZE_LARGE) <= Z.of_nat n').
Proof.
  intros Hdk Hfour Hcan Hpend Ha Ham. pose proof direct_size_range as (Hsz & Hszm & Hszmax).
  change PAGE_SIZE_LARGE with (2 ^ 21) in Ham, Hszm.
  assert (a + 2 ^ 21 <= DIRECT_SIZE) as Had.
  { pose proof (Z.div_mod a (2 ^ 21) ltac:(lia)). pose proof (Z.div_mod DIRECT_SIZE (2 ^ 21) ltac:(lia)). lia. }
  assert (0 <= a < 2 ^ 39) as Ha39 by lia. destruct (direct_index a Ha39) as (H39 & H30 & H21).
  rewrite P2V_small by (unfold PHYS_LIMIT, PAGE_SIZE_LARGE; lia). rewrite (Z.add_comm a).
  pose proof (dk_ok _ _ _ _ Hdk) as Hok. destruct (dk_pdp _ _ _ _ Hdk) as [q Hq].
  assert ((PHYS_VIRT_START + a) mod PAGE_SIZE_LARGE = 0) as Hvm.
  { change PAGE_SIZE_LARGE with (2 ^ 21). rewrite (shifted_mod _ 0x7fffc100000) by (done || lia). exact Ham. }
  assert (0 <= a / 2 ^ 30) as Hj0 by (apply Z.div_pos; lia).
  destruct (tab [260; a / 2 ^ 30]) as [d|] eqn:Hd.
  - eapply wp_mono; [eapply (map_page_existing s tab q d a _ 0x83 Hok); rewrite ?H39, ?H30; try done; lia|].
    rewrite H39, H30. set (tab' := set_tab _ None tab).
    assert (forall p, (length p < 3)%nat -> tab' p = tab p) as Htab.
    { intros p Hl. unfold tab', set_tab. case_decide as Hd3; [|done]. subst p. cbn in Hl. lia. }
    intros r s' (-> & Hok' & Hfr & Hpml & Hin & Hout). split; [done|]. exists tab', n.
    split; [|split; [|split; [by rewrite Hfr|]]].
    + eapply direct_ok_page; try done; [lia|].
      intros p Hl Hp. unfold tab', set_tab. by case_decide.
    + intros j Hj. rewrite Htab by (cbn; lia). by apply Hfour.
    + pose proof (pending_next tab' a ltac:(by rewrite Htab, Hd by (cbn; lia)) Ham ltac:(lia)).
      unfold pending in Hpend. rewrite decide_True in Hpend by by rewrite Hd. lia.
  - assert (4 <= a / 2 ^ 30) as Hj4.
    { destruct (decide (4 <= a / 2 ^ 30)); [done|]. destruct (Hfour (a / 2 ^ 30)) as [? ?]; [lia|congruence]. }
    assert (a / 2 ^ 30 < gigas max) as Hjg.
    { apply gigas_spec. unfold NUMBER_1G. pose proof (Z.div_mod a (2 ^ 30)). pose proof (Z.mod_pos_bound a (2 ^ 30)). lia. }
    assert (pending tab a = gigas max - a / 2 ^ 30) as Hpe.
    { unfold pending. rewrite decide_False by (rewrite Hd; by intros [? ?]). lia. }
    destruct n as [|n]; [lia|]. replace (2 * S n)%nat with (2 + 2 * n)%nat in Hcan by lia.
    eapply wp_mono; [eapply (map_page_p2v_full s tab (2 * n) a _ 0x83 Hok Hcan); try done; lia|].
    intros r s' (-> & tab' & Hm). split; [done|]. exists tab', n.
    assert (take 3 (va_path (PHYS_VIRT_START + a)) = [260; a / 2 ^ 30; pt_index 21 (PHYS_VIRT_START + a)]) as Hpath.
    { unfold va_path. by rewrite H39, H30. }
    assert (keeps tab tab') as Hkeep.
    { apply (mp_keeps _ _ _ _ _ _ _ _ Hm). rewrite Hpath. by apply (dk_small _ _ _ _ Hdk). }
    destruct (leaf_table _ _ _ _ (mp_ok _ _ _ _ _ _ _ _ Hm) (mp_leaf _ _ _ _ _ _ _ _ Hm)) as [_ Hd'].
    rewrite H39, H30 in Hd'. split; [|split; [|split; [apply Hm|]]].
    + eapply direct_ok_page; try done; try apply Hm; [lia|]. exists q. by apply Hkeep.
    + intros j Hj. destruct (Hfour j Hj) as [r Hr]. exists r. by apply Hkeep.
    + pose proof (pending_next tab' a Hd' Ham ltac:(lia)). lia.
Qed.

Lemma map_loop_ok root fuel : forall a s tab n, direct_ok root a s tab -> four_directories tab ->
  can_after K (2 * n) (frames s) -> pending tab a <= Z.of_nat n ->
  0 <= a /\ a mod PAGE_SIZE_LARGE = 0 /\ (a = NUMBER_1G \/ a - PAGE_SIZE_LARGE < max) ->
  max <= a + Z.of_nat fuel * PAGE_SIZE_LARGE ->
  wp (map_loop max fuel a) s (fun _ s' => exists l tab', direct_ok root l s' tab' /\ max <= l /\
    l mod PAGE_SIZE_LARGE = 0 /\ (l = NUMBER_1G \/ l - PAGE_SIZE_LARGE < max)).
Proof.
  induction fuel as [|fuel IH]; intros a s tab n Hdk Hfour Hcan Hpend (Ha & Ham & Hal) Hf; cbn [map_loop];
    (destruct (Z.ltb_spec a max) as [Hlt|Hge]; [|wp_steps; by exists a, tab]).
  { lia. }
  change (Z.lor (Z.lor PTE_PS PTE_P) PTE_W) with 0x83. wp_steps. eapply wp_mono; [by apply (map_step_ok root s tab n)|].
  intros r s' (-> & tab' & n' & Hdk' & Hfour' & Hcan' & Hpend'). cbn [Z.eqb OK]. wp_steps.
  apply (IH _ s' tab' n'); try done; [|unfold PAGE_SIZE_LARGE in *; lia].
  split; [unfold PAGE_SIZE_LARGE; lia|]. split; [by rewrite Z.add_mod, Ham by done|right; lia].
Qed.

(** The physical address behind [a] of the direct map after the loop: memory is
    mapped up to the end of its last 2M page, and so are the first 2G and
    everything from 4G on; in between there are the entries of [fill_pds], whose
    address has the sign of the [int] in its upper half. *)
Definition mapped_end : Z := (max + (PAGE_SIZE_LARGE - 1)) / PAGE_SIZE_LARGE * PAGE_SIZE_LARGE.
Definition direct_map (a : Z) : Z :=
  if (2 ^ 31 <=? a) && (a <? 2 ^ 32) && (mapped_end <=? a) then a + (2 ^ 64 - 2 ^ 32) else a.

Lemma direct_map_end l a : 0 <= a -> max <= l -> l mod PAGE_SIZE_LARGE = 0 ->
  l = NUMBER_1G \/ l - PAGE_SIZE_LARGE < max -> direct_pa l a = direct_map a.
Proof.
  intros Ha Hl Hlm Hle. unfold direct_pa, direct_map, mapped_end, NUMBER_1G, PAGE_SIZE_LARGE in *.
  pose proof (Z.div_mod l 2097152 ltac:(lia)). pose proof (Z.div_mod (max + (2097152 - 1)) 2097152 ltac:(lia)).
  pose proof (Z.mod_pos_bound (max + (2097152 - 1)) 2097152 ltac:(lia)).
  set (e := (max + (2097152 - 1)) / 2097152 * 2097152) in *.
  destruct (Z.ltb_spec a (2 ^ 32)); [|by rewrite !andb_false_r].
  rewrite sign_extended_spec by lia.
  destruct (Z.ltb_spec a (2 ^ 31)), (Z.leb_spec (2 ^ 31) a); try lia; cbn [andb]; [by destruct (_ && _)|].
  destruct (Z.leb_spec l a), (Z.leb_spec e a); cbn [andb]; lia.
Qed.
End tables.

(** ** The whole call *)

(** C12: [init_pml4] ends with the processor on tables that map the first 2G of
    physical memory at [KERNEL_BASE] and, at [PHYS_VIRT_START], every address
    below [__max_phy_mem_addr] (up to 512G), the first 2G whatever the size of
    memory, and every started gigabyte above 4G; each readable and writable, and
    nothing else is mapped but what lies between the end of memory and 4G when
    memory ends below 4G: there the entries hold the address with the upper half
    set, since the code computes them as an [int] (see [direct_map]).  The tables
    form the tree that the mapping calls work on, and need page tables from the
    allocator only above 4G. *)
Theorem init_pml4_correct {T} `{FA : FrameAlloc T} (addr : table -> Z) (max : Z) (s : boot T)
    (Him : image_ok addr) (Hmax : 0 <= max <= 2 ^ 39)
    (Hroot : pml4 (b_mm s) = phys addr pml4_t) (Hinv : sp_inv (frames (b_mm s)))
    (Hfree : forall t y, in_range (phys addr t) 4096 y -> ~ sp_free (frames (b_mm s)) y)
    (Hcan : can_alloc (2 * Z.to_nat (gigas max - 4)) (frames (b_mm s))) :
  exists s', init_pml4 addr max s = Done (tt, s') /\
    cr3 s' = phys addr pml4_t /\ bp_cr3 s' = cr3 s' /\ cr4 s' = cr4 s /\ pml4 (b_mm s') = cr3 s' /\
    (exists tab, mm_ok (b_mm s') tab) /\
    (forall a, 0 <= a < 2 ^ 31 -> mmu (ram (b_mm s')) (cr3 s') (KERNEL_BASE + a) = Some (a, 0x83)) /\
    (forall a, 0 <= a < DIRECT_SIZE max ->
       mmu (ram (b_mm s')) (cr3 s') (PHYS_VIRT_START + a) = Some (direct_map max a, 0x83)) /\
    (forall a, 0 <= a < max \/ 0 <= a < 2 ^ 31 -> direct_map max a = a) /\
    (forall va r, mmu (ram (b_mm s')) (cr3 s') va = Some r ->
       image_of KERNEL_BASE (2 ^ 31) va \/ image_of PHYS_VIRT_START (DIRECT_SIZE max) va).
Proof.
  enough (wp (init_pml4 addr max) s (fun _ s' => cr3 s' = phys addr pml4_t /\ bp_cr3 s' = cr3 s' /\ cr4 s' = cr4 s /\
    exists l tab, direct_ok max (phys addr pml4_t) l (b_mm s') tab /\ max <= l /\
      l mod PAGE_SIZE_LARGE = 0 /\ (l = NUMBER_1G \/ l - PAGE_SIZE_LARGE < max))) as Hwp.
  { apply wp_run in Hwp as ([] & s' & Hrun & Hc3 & Hb & Hc4 & l & tab & [] & Hl & Hlm & Hle). exists s'. rewrite Hc3 in *.
    split_and!; try done; [by exists tab| |].
    - intros a Ha. rewrite dk_direct0 by done. do 2 f_equal. apply direct_map_end; tauto || lia.
    - intros a Ha. unfold direct_map, mapped_end, PAGE_SIZE_LARGE.
      pose proof (Z.div_mod (max + (2097152 - 1)) 2097152 ltac:(lia)).
      pose proof (Z.mod_pos_bound (max + (2097152 - 1)) 2097152 ltac:(lia)).
      destruct (Z.leb_spec (2 ^ 31) a); [|done]. rewrite (proj2 (Z.leb_gt _ a)) by lia. by rewrite andb_false_r. }
  unfold init_pml4. wp_steps.
  eapply wp_mono; [apply (static_tables_ok addr max Him Hmax _ (fun t x => ram (b_mm s) (phys addr t + 8 * x))); by split|].
  intros [] m1 (Hsees & Hpml & Hfr & _). wp_steps. unfold load_tables, write_cr3, write_cr4, set_bp_cr3. wp_steps.
  assert (direct_ok max (phys addr pml4_t) NUMBER_1G m1 (tab_boot addr)) as Hdk.
  { split.
    - split; [|by rewrite Hfr]. rewrite Hpml, Hroot, Hfr. by apply (boot_tables_ok addr max).
    - intros p Hp. unfold tab_boot. destruct (tbl_from pml4_t p) as [t|] eqn:Ht; [|done].
      apply tbl_from_path in Ht as (_ & Hl & _). destruct t; cbn in Hl; lia.
    - by eexists.
    - by rewrite Hpml.
    - intros a Ha. by apply (boot_kernel addr max).
    - intros a Ha. rewrite (direct_pa_start NUMBER_1G) by (done || lia). by apply (boot_direct addr max).
    - intros va r. by apply (boot_nothing_else addr max). }
  unfold map_above. destruct (Z.ltb_spec PAGE_SIZE_LARGE max); wp_steps.
  2: { split_and!; try done. exists NUMBER_1G, (tab_boot addr). split_and!; try done; [|by left]. unfold PAGE_SIZE_LARGE, NUMBER_1G in *. lia. }
  eapply wp_mono.
  { apply (map_loop_ok max Hmax (K := fun _ => True) (phys addr pml4_t) _ NUMBER_1G m1 (tab_boot addr)
      (Z.to_nat (gigas max - 4)) Hdk); [|by rewrite Hfr| |by split_and!; [..|left]|].
    - intros j Hj. unfold tab_boot. cbn.
      assert (j = 0 \/ j = 1 \/ j = 2 \/ j = 3) as [-> |[-> |[-> | ->]]] by lia; by eexists.
    - unfold pending. change (NUMBER_1G / 2 ^ 30) with 1. case_decide; lia.
    - unfold NUMBER_1G, PAGE_SIZE_LARGE. pose proof (Z.div_mod max 2097152). pose proof (Z.mod_pos_bound max 2097152).
      assert (0 <= max / 2097152) by (apply Z.div_pos; lia). lia. }
  intros [] m2 (l & tab2 & Hdk2 & Hend). split_and!; try done. by exists l, tab2.
Qed.

(** An image whose tables are the pages from 4096 on. *)
Definition boot_addr (t : table) : Z :=
  KERNEL_BASE + 4096 * match t with
  | pml4_t => 1 | first_pdp => 2 | second_pdp => 3 | first_pd => 4 | second_pd => 5 | third_pd => 6 | fourth_pd => 7
  | phy_first_pd => 8 | phy_second_pd => 9 | phy_third_pd => 10 | phy_fourth_pd => 11
  end.
Lemma boot_addr_ok : image_ok boot_addr.
Proof.
  split.
  - intros t. unfold boot_addr, KERNEL_BASE. destruct t; lia.
  - intros t. by destruct t.
  - intros t t' Heq. unfold boot_addr in Heq. destruct t, t'; done || lia.
Qed.

(** 5G of memory: all of it is mapped, and the gap below 4G closed. *)
Lemma init_pml4_correct_witness :
  exists s', init_pml4 boot_addr 0x140000000 (BootState boot_mm 0 0x80 0 []) = Done (tt, s') /\
    mmu (ram (b_mm s')) (cr3 s') (KERNEL_BASE + 0x1234567) = Some (0x1234567, 0x83) /\
    mmu (ram (b_mm s')) (cr3 s') (PHYS_VIRT_START + 0x123456789) = Some (0x123456789, 0x83) /\
    mmu (ram (b_mm s')) (cr3 s') (PHYS_VIRT_START + 0xfee00020) = Some (0xfee00020, 0x83).
Proof.
  destruct (init_pml4_correct boot_addr 0x140000000 (BootState boot_mm 0 0x80 0 []))
    as (s' & Hrun & _ & _ & _ & _ & _ & Hk & Hd & Hid & _).
  - exact boot_addr_ok.
  - lia.
  - reflexivity.
  - exact (proj1 two_pages_frames).
  - intros t y Hy Hf. apply (proj2 two_pages_frames) in Hf. unfold in_range, PAGE_SIZE_LARGE in *.
    rewrite (phys_eq _ boot_addr_ok) in Hy. unfold boot_addr in Hy. destruct t; lia.
  - exact two_pages_can_alloc.
  - exists s'. split; [exact Hrun|]. split; [apply Hk; lia|].
    split; (rewrite Hd; [rewrite Hid by lia; reflexivity|]; split; [lia|reflexivity]).
Defined.

(** 1G of memory: the local APIC's page of the direct map is not there. *)
Example apic_page_lost : direct_map 0x40000000 0xfee00020 = 0xfffffffffee00020 /\ 0xfee00020 < DIRECT_SIZE 0x40000000.
Proof. by split. Qed.
