(* ===== verification/Bytes.v ===== *)
(** * Bytes: little-endian words and buffers of bytes

    The bytes of a word as the processor stores them, reading words out of a
    buffer, and the ranges of C's [unsigned] types that the parsers of firmware
    tables and the string functions share. *)
From Stdlib Require Import ZArith Lia.
From stdpp Require Import base tactics list option.
From S2P Require Import Prelude.

Definition is_byte (b : Z) : Prop := 0 <= b < 256.

(** The word a list of bytes stands for, and the bytes of a word. *)
Fixpoint le_word (l : list Z) : Z :=
  match l with [] => 0 | b :: l' => b + 256 * le_word l' end.
Fixpoint to_le (n : nat) (z : Z) : list Z :=
  match n with O => [] | S n' => z mod 256 :: to_le n' (z / 256) end.

(** [*(T * )(buf + o)] for a type of [n] bytes: reading outside the buffer
    faults. *)
Definition read_le {St} (buf : list Z) (o : Z) (n : nat) : M St Z :=
  if (0 <=? o) && (o + Z.of_nat n <=? Z.of_nat (length buf))
  then ret (le_word (take n (drop (Z.to_nat o) buf)))
  else fault.

Lemma le_word_inj l l' :
  Forall is_byte l -> Forall is_byte l' -> length l = length l' -> le_word l = le_word l' -> l = l'.
Proof.
  revert l'. induction l as [|b l IH]; intros [|b' l'] Hl Hl' Hlen; cbn in *; try done.
  apply list.Forall_cons in Hl as [Hb Hl]. apply list.Forall_cons in Hl' as [Hb' Hl'].
  unfold is_byte in *. intros Heq. assert (b = b') as -> by lia. f_equal. apply IH; [done|done|lia|lia].
Qed.

Lemma length_to_le n z : length (to_le n z) = n.
Proof. revert z. induction n as [|n IH]; intros z; cbn; [done|]. by rewrite IH. Qed.

Lemma to_le_bytes n z : Forall is_byte (to_le n z).
Proof.
  revert z. induction n as [|n IH]; intros z; constructor; [|apply IH].
  unfold is_byte. apply Z.mod_pos_bound. lia.
Qed.

Lemma le_word_to_le n z : 0 <= z < 256 ^ Z.of_nat n -> le_word (to_le n z) = z.
Proof.
  revert z. induction n as [|n IH]; intros z Hz; [change (256 ^ Z.of_nat 0) with 1 in Hz; cbn; lia|].
  rewrite Nat2Z.inj_succ, Z.pow_succ_r in Hz by lia. cbn [to_le le_word]. rewrite IH.
  - pose proof (Z.div_mod z 256). lia.
  - split; [apply Z.div_pos; lia|apply Z.div_lt_upper_bound; lia].
Qed.

Lemma le_word_range l : Forall is_byte l -> 0 <= le_word l < 256 ^ Z.of_nat (length l).
Proof.
  induction 1 as [|b l Hb _ IH]; [done|]. cbn [le_word length]. rewrite Nat2Z.inj_succ, Z.pow_succ_r by lia.
  unfold is_byte in Hb. lia.
Qed.

Lemma wp_read_le {St} buf pre z post o n (s : St) Q :
  buf = pre ++ to_le n z ++ post -> o = Z.of_nat (length pre) -> 0 <= z < 256 ^ Z.of_nat n ->
  Q z s -> wp (read_le buf o n) s Q.
Proof.
  intros -> -> Hz HQ. unfold read_le. rewrite !length_app, length_to_le.
  rewrite (proj2 (Z.leb_le 0 _)), (proj2 (Z.leb_le _ _)) by lia. cbn [andb]. apply wp_ret.
  rewrite Nat2Z.id, drop_app_length, <- (length_to_le n z) at 1. rewrite take_app_length. by rewrite le_word_to_le.
Qed.
