(* ===== verification/Multiboot.v ===== *)
(** * Multiboot: finding the memory (arch/x86_64/multiboot.c)

    The boot loader's memory map is read twice: [init_bootload] takes the
    highest addresses from it, [init_e820] cuts the reserved ranges out of
    every entry and gives what is left to the allocators (memory) or notes its
    pages (I/O memory); [init_page_map] then maps the noted pages.  The state
    is the file's statics with the allocators and page tables it hands memory
    to.  Console output is left out. *)
From Stdlib Require Import ZArith Lia.
From stdpp Require Import base tactics gmap list option.
From S2P Require Import Prelude Bytes HoleList FreeSet Pages Layout PhyMem PhyPage KHeap PgTable.
#[export] Set Warnings "-clear-no-such-hyp".

Definition MULTIBOOT_BOOTLOADER_MAGIC : Z := 0x2BADB002.
Definition MAX_IO_REMAPS : nat := 2000.
Definition MAX_REVERSE : nat := 10.
Definition IOAPIC_BASE : Z := 0xFEC00000.

(** The statics: [io_remap_pages] up to [remaped], [revmem] up to
    [reserved_nr], the copy of the memory map at [pe820], and the state of
    kernel/kheap.c and of the page tables with the physical allocators (their
    [__max_phy_addr] and [__max_phy_mem_addr] are this file's). *)
Record mboot := MBoot {
  io_remap_pages : list Z;
  revmem : list (Z * Z);
  max_reserve_addr : Z;
  pe820 : list Z;
  e820map_size : Z;
  heap_4k : pool Z;
  heap_small : pool Z;
  tables : mm (phy_page phymem)
}.
Definition set_io (l : list Z) (s : mboot) : mboot :=
  MBoot l (revmem s) (max_reserve_addr s) (pe820 s) (e820map_size s) (heap_4k s) (heap_small s) (tables s).
Definition set_rev (l : list (Z * Z)) (m : Z) (s : mboot) : mboot :=
  MBoot (io_remap_pages s) l m (pe820 s) (e820map_size s) (heap_4k s) (heap_small s) (tables s).
Definition set_e820 (b : list Z) (z : Z) (s : mboot) : mboot :=
  MBoot (io_remap_pages s) (revmem s) (max_reserve_addr s) b z (heap_4k s) (heap_small s) (tables s).
Definition set_heaps (h4 hs : pool Z) (s : mboot) : mboot :=
  MBoot (io_remap_pages s) (revmem s) (max_reserve_addr s) (pe820 s) (e820map_size s) h4 hs (tables s).
Definition set_tables (m : mm (phy_page phymem)) (s : mboot) : mboot :=
  MBoot (io_remap_pages s) (revmem s) (max_reserve_addr s) (pe820 s) (e820map_size s) (heap_4k s) (heap_small s) m.

Definition phy_pages (s : mboot) : phy_page phymem := frames (tables s).
Definition set_phy_pages (p : phy_page phymem) (s : mboot) : mboot := set_tables (set_frames p (tables s)) s.
Definition on_small_heap {A} : M (pool Z) A -> M mboot A :=
  zoom heap_small (fun p s => set_heaps (heap_4k s) p s).
Definition on_phy {A} : M (phy_page phymem) A -> M mboot A := zoom phy_pages set_phy_pages.
Definition on_tables {A} : M (mm (phy_page phymem)) A -> M mboot A := zoom tables set_tables.
(** The heap refills itself from the same 2M pages. *)
Definition on_heap {A} : M (kheap phymem) A -> M mboot A :=
  zoom (fun s => KHeap (heap_4k s) (heap_small s) (pp_src (phy_pages s)))
    (fun k s => set_phy_pages (PhyPage.set_src (kh_src k) (phy_pages s)) (set_heaps (kh_4k k) (kh_small k) s)).

Definition __max_phy_mem_addr (s : mboot) : Z := max_phy_mem_addr (pp_src (phy_pages s)).

(** ** I/O memory: noting and mapping its pages *)

(** [add_map(int pg)] *)
Definition add_map (pg0 : Z) : M mboot unit :=
  let pg := to_int pg0 in
  l <- gets io_remap_pages ;;
  if existsb (Z.eqb pg) l then ret tt
  else if (MAX_IO_REMAPS <=? length l)%nat then panic
  else modify (set_io (l ++ [pg])).

(** [while (size >= PAGE_SIZE_LARGE)] and the last partial page. *)
Fixpoint io_pages (fuel : nat) (addr size : Z) : M mboot unit :=
  if PAGE_SIZE_LARGE <=? size then
    match fuel with
    | O => out_of_fuel
    | S fuel' =>
        add_map (addr / PAGE_SIZE_LARGE + 1) ;;;
        io_pages fuel' (wrap64 (addr + PAGE_SIZE_LARGE)) (size - PAGE_SIZE_LARGE)
    end
  else if size =? 0 then ret tt
  else add_map (addr / PAGE_SIZE_LARGE + 1).

Definition io_fuel (size : Z) : nat := S (Z.to_nat (size / PAGE_SIZE_LARGE)).

(** The recursive call of the C function is on an aligned address. *)
Definition on_iomem_aligned (addr size : Z) : M mboot unit :=
  if addr =? 0 then ret tt else io_pages (io_fuel size) addr size.
Definition on_iomem (addr size : Z) : M mboot unit :=
  let low := Z.land addr (PAGE_SIZE_LARGE - 1) in
  if addr =? 0 then ret tt
  else if negb (low =? 0) then
    let lowsize := PAGE_SIZE_LARGE - low in
    if size <=? lowsize then add_map (wrap64 (addr + PAGE_SIZE_LARGE - 1) / PAGE_SIZE_LARGE)
    else
      add_map (wrap64 (addr + PAGE_SIZE_LARGE - 1) / PAGE_SIZE_LARGE) ;;;
      on_iomem_aligned (wrap64 (addr + lowsize)) (size - lowsize)
  else on_iomem_aligned addr size.

Definition io_flags : Z := Z.lor (Z.lor (Z.lor (Z.lor PTE_P PTE_W) PTE_PWT) PTE_PCD) PTE_PS.

(** [if (OK != map_page_p2v(...)) panic] *)
Definition map_io (addr : Z) : M mboot unit :=
  r <- on_tables (map_page_p2v addr (wrap64 (addr + IO_MEM_BASE)) io_flags) ;;
  if r =? OK then ret tt else panic.

Fixpoint remap_list (l : list Z) : M mboot unit :=
  match l with
  | [] => ret tt
  | pg0 :: l' =>
      let pg := wrap64 pg0 in
      (if 0 <? pg then map_io (wrap64 ((pg - 1) * PAGE_SIZE_LARGE)) else ret tt) ;;;
      remap_list l'
  end.
Definition remap_iomem : M mboot unit := l <- gets io_remap_pages ;; remap_list l.

(** ** Memory: giving it to the allocators *)

(** [if (addr + size < __max_phy_mem_addr) f(addr, size)] *)
Definition if_below (addr size : Z) (f : M mboot unit) : M mboot unit :=
  m <- gets __max_phy_mem_addr ;;
  if wrap64 (addr + size) <? m then f else ret tt.
Definition free_small (addr size : Z) : M mboot unit :=
  on_phy (PhyPage.on_pool (free_phy_page_small addr size)).

(** [fuel] bounds the recursion: an address that is no multiple of 4K, then
    one that is no multiple of 2M, then one that is. *)
Fixpoint on_mem_rec (fuel : nat) (addr size0 : Z) : M mboot unit :=
  match fuel with
  | O => out_of_fuel
  | S fuel' =>
      let low4k := Z.land addr 0xfff in
      if negb (low4k =? 0) then
        let low4ksize := 0x1000 - low4k in
        (if size0 <=? low4ksize
         then if_below addr size0 (on_small_heap (free_kheap_small (P2K addr) size0))
         else ret tt) ;;;
        on_small_heap (free_kheap_small (P2K addr) low4ksize) ;;;
        on_mem_rec fuel' (wrap64 (addr + low4ksize)) (wrap64 (size0 - low4ksize))
      else
        let size := Z.land size0 (lnot64 0xfff) in
        if size =? 0 then ret tt
        else if size <? PAGE_SIZE_LARGE then if_below addr size (free_small addr size)
        else
          let low := Z.land addr (PAGE_SIZE_LARGE - 1) in
          if negb (low =? 0) then
            let lowsize := PAGE_SIZE_LARGE - low in
            if size <=? lowsize then if_below addr size (free_small addr size)
            else
              let size := size - lowsize in
              if_below addr size (free_small addr size) ;;;
              on_mem_rec fuel' (wrap64 (addr + lowsize)) size
          else
            let npg := size / PAGE_SIZE_LARGE in
            on_phy (PhyPage.on_src (free_phy_pages addr (npg * PAGE_SIZE_LARGE))) ;;;
            let size := Z.land size (PAGE_SIZE_LARGE - 1) in
            let addr := wrap64 (addr + npg * PAGE_SIZE_LARGE) in
            if size =? 0 then ret tt
            else if_below addr size (free_small addr size)
  end.
Definition on_mem : Z -> Z -> M mboot unit := on_mem_rec 3.

(** ** Cutting out the reserved ranges *)
Definition add_reserve (addr size : Z) : M mboot unit :=
  l <- gets revmem ;;
  if (MAX_REVERSE <=? length l)%nat then panic
  else
    m <- gets max_reserve_addr ;;
    let m' := if m <? wrap64 (P2K addr + size) then wrap64 (addr + size) else m in
    modify (set_rev (l ++ [(addr, size)]) m').

Definition give (ismem : bool) (addr size : Z) : M mboot unit :=
  if ismem then on_mem addr size else on_iomem addr size.

(** [for (i = 0; i < reserved_nr; i++)], with [rec] for the recursive calls. *)
Fixpoint cut_reserves (rec : Z -> Z -> M mboot unit) (ismem : bool) (addr size : Z)
    (l : list (Z * Z)) : M mboot unit :=
  match l with
  | [] => give ismem addr size
  | (rev_start, rev_size) :: l' =>
      let rev_end := wrap64 (rev_start + rev_size) in
      let end_ := wrap64 (addr + size) in
      if rev_end <=? addr then cut_reserves rec ismem addr size l'
      else if end_ <=? rev_start then cut_reserves rec ismem addr size l'
      else if (rev_start <=? addr) && (end_ <=? rev_end) then ret tt
      else if rev_start <=? addr then rec rev_end (wrap64 (end_ - rev_end))
      else
        kassert (addr <=? rev_start) ;;;
        rec addr (rev_start - addr) ;;;
        if rev_end <? end_ then rec rev_end (wrap64 (end_ - rev_end)) else ret tt
  end.
Fixpoint deal_reserve_rec (fuel : nat) (ismem : bool) (addr size : Z) : M mboot unit :=
  match fuel with
  | O => out_of_fuel
  | S fuel' =>
      m <- gets max_reserve_addr ;;
      if m <? addr then give ismem addr size
      else
        l <- gets revmem ;;
        cut_reserves (deal_reserve_rec fuel' ismem) ismem addr size l
  end.
Definition deal_reserve (addr size : Z) (ismem : bool) : M mboot unit :=
  deal_reserve_rec (S MAX_REVERSE) ismem addr size.

(** ** Reading the memory map *)

(** An entry of the map: [memory_map_t] at offset [o]. *)
Record entry := Entry { e_size : Z; e_addr : Z; e_len : Z; e_type : Z }.
Definition read_entry (buf : list Z) (o : Z) : M mboot entry :=
  size <- read_le buf o 4 ;;
  base_low <- read_le buf (o + 4) 4 ;;
  base_high <- read_le buf (o + 8) 4 ;;
  length_low <- read_le buf (o + 12) 4 ;;
  length_high <- read_le buf (o + 16) 4 ;;
  type <- read_le buf (o + 20) 4 ;;
  ret (Entry size (wrap64 (Z.shiftl base_high 32 + base_low)) (wrap64 (Z.shiftl length_high 32 + length_low)) type).

(** [for (mmap = base; mmap < base + limit; mmap += mmap->size + 4)]; a round
    is given the variables of the loop. *)
Fixpoint for_entries {V} (fuel : nat) (buf : list Z) (limit : Z) (round : entry -> V -> M mboot V)
    (o : Z) (v : V) : M mboot V :=
  if o <? limit then
    match fuel with
    | O => out_of_fuel
    | S fuel' =>
        e <- read_entry buf o ;;
        v' <- round e v ;;
        for_entries fuel' buf limit round (o + e_size e + 4) v'
    end
  else ret v.
(** Every step is at least 4 bytes long. *)
Definition entries_fuel (limit : Z) : nat := S (Z.to_nat limit).

(** The loop variables of [init_bootload]: [minaddr], [maxaddr],
    [maxmemaddr], [phmemsize]. *)
Record extent := Extent { minaddr : Z; maxaddr : Z; maxmemaddr : Z; phmemsize : Z }.
Definition widen (e : entry) (v : extent) : extent :=
  let addr := e_addr e in let msize := e_len e in
  let end_ := wrap64 (addr + msize) in
  Extent (if addr <? minaddr v then addr else minaddr v)
    (if maxaddr v <? end_ then end_ else maxaddr v)
    (if (e_type e =? 1) && (maxmemaddr v <? end_) then end_ else maxmemaddr v)
    (if e_type e =? 1 then wrap64 (phmemsize v + msize) else phmemsize v).

(** The fields of [multiboot_info_type] that are used for more than output,
    and the memory at [mmap_addr]. *)
Record multiboot_info := MInfo { mb_flags : Z; mmap_length : Z; mmap_bytes : list Z }.
Definition CHECK_FLAG (flags bit : Z) : bool := negb (Z.land flags (Z.shiftl 1 bit) =? 0).

Definition set_limits (maxa maxm : Z) (s : mboot) : mboot :=
  let p := phy_pages s in let t := pp_src p in
  set_phy_pages (PhyPage.set_src
    (PhyMem (pg t) (pages t) (small t) (smallpages t) (smallpage_base t) maxa maxm) p) s.

(** [cli_hlt()] does not come back. *)
Definition init_bootload (mbi : multiboot_info) (magic : Z) : M mboot unit :=
  if negb (magic =? MULTIBOOT_BOOTLOADER_MAGIC) then panic
  else
    modify (set_io []) ;;; modify (set_e820 [] 0) ;;;
    if CHECK_FLAG (mb_flags mbi) 4 && CHECK_FLAG (mb_flags mbi) 5 then ret tt
    else if CHECK_FLAG (mb_flags mbi) 6 then
      let size := mmap_length mbi in
      p <- on_heap (kalloc size) ;;
      (if p =? 0 then panic else ret tt) ;;;
      modify (set_e820 (take (Z.to_nat size) (mmap_bytes mbi)) size) ;;;
      v <- for_entries (entries_fuel size) (mmap_bytes mbi) size
             (fun e v => ret (widen e v)) 0 (Extent (2 ^ 64 - 1) 0 0 0) ;;
      modify (set_limits (maxaddr v) (maxmemaddr v))
    else panic.

Section image.
(** [kernel_start] and [kernel_end] (set by [init_bss]), and the range of
    read-only pages. *)
Context (kernel_start kernel_end ro_start ro_end : Z).

Definition init_heap_size : Z := 0x10000.
(** [kernel_end = __kernel_end + init_heap_size] *)
Definition init_bss : M mboot unit :=
  zoom heap_4k (fun p s => set_heaps p (heap_small s) s)
    (free_kheap_4k (wrap64 (kernel_end - init_heap_size)) init_heap_size).

(** A round of [init_e820] with [minaddr]; [maxaddr] stays 0. *)
Definition e820_round (e : entry) (minaddr : Z) : M mboot Z :=
  let addr := e_addr e in let msize := e_len e in
  let minaddr := if addr <? minaddr then addr else minaddr in
  let maxaddr := 0 in
  let addr := if (minaddr <? addr) && (wrap64 (addr + msize) <? maxaddr) then maxaddr else addr in
  deal_reserve addr msize (e_type e =? 1) ;;; ret minaddr.

Definition reserve_low_size : Z := 0x10000.
Definition init_e820 : M mboot unit :=
  add_reserve 0 reserve_low_size ;;;
  add_reserve (K2P kernel_start) (wrap64 (kernel_end - kernel_start)) ;;;
  add_map (IOAPIC_BASE / PAGE_SIZE_LARGE + 1) ;;;
  buf <- gets pe820 ;;
  size <- gets e820map_size ;;
  for_entries (entries_fuel size) buf size e820_round 0 (2 ^ 64 - 1) ;;; ret tt.

(** [for (haddr = lastend; haddr + PAGE_SIZE_LARGE < addr; ...)] *)
Fixpoint map_hole (fuel : nat) (haddr addr : Z) : M mboot unit :=
  if wrap64 (haddr + PAGE_SIZE_LARGE) <? addr then
    match fuel with
    | O => out_of_fuel
    | S fuel' => map_io haddr ;;; map_hole fuel' (wrap64 (haddr + PAGE_SIZE_LARGE)) addr
    end
  else ret tt.

(** A round of [init_page_map] with [lastend]. *)
Definition hole_round (e : entry) (lastend : Z) : M mboot Z :=
  let addr := e_addr e in let msize := e_len e in
  m <- gets __max_phy_mem_addr ;;
  (if (lastend <? addr) && (lastend <? m) then
     if addr - lastend <? PAGE_SIZE_LARGE then deal_reserve lastend (addr - lastend) false
     else
       let low := Z.land lastend (PAGE_SIZE_LARGE - 1) in
       lastend <- (if negb (low =? 0) then
                     deal_reserve lastend (PAGE_SIZE_LARGE - low) false ;;;
                     ret (Z.land (wrap64 (lastend + PAGE_SIZE_LARGE)) (lnot64 (PAGE_SIZE_LARGE - 1)))
                   else ret lastend) ;;
       map_hole (S (Z.to_nat ((addr - lastend) / PAGE_SIZE_LARGE))) lastend addr
   else ret tt) ;;;
  ret (wrap64 (addr + msize)).

(** [while (vaddr < ro_end)]: the read-only pages of the image, at both of
    their addresses; the results are not looked at. *)
Fixpoint map_readonly (fuel : nat) (vaddr : Z) : M mboot unit :=
  if vaddr <? ro_end then
    match fuel with
    | O => out_of_fuel
    | S fuel' =>
        let flags := Z.lor PTE_P PTE_PS in
        on_tables (map_4k_page_p2v (K2P vaddr) vaddr flags) ;;;
        on_tables (map_4k_page_p2v (K2P vaddr) (P2V (K2P vaddr)) flags) ;;;
        map_readonly fuel' (wrap64 (vaddr + PAGE_4K_SIZE))
    end
  else ret tt.

Definition init_page_map : M mboot unit :=
  buf <- gets pe820 ;;
  size <- gets e820map_size ;;
  for_entries (entries_fuel size) buf size hole_round 0 0 ;;;
  remap_iomem ;;;
  map_readonly (S (Z.to_nat ((ro_end - ro_start) / PAGE_4K_SIZE + 1))) ro_start.
End image.

(** ** What the cuts leave *)

(** The statics that describe the reserved ranges. *)
Definition same_reserves (s s' : mboot) : Prop :=
  revmem s' = revmem s /\ max_reserve_addr s' = max_reserve_addr s.
#[export] Instance same_reserves_equiv : Equivalence same_reserves.
Proof.
  split; [done| |].
  - intros s1 s2 [? ?]. by split.
  - intros s1 s2 s3 [? ?] [? ?]. split; congruence.
Qed.

Ltac keeps_reserves := repeat first
  [ apply (respects_ret same_reserves) | apply (respects_panic same_reserves)
  | apply (respects_out_of_fuel same_reserves) | apply (respects_gets same_reserves)
  | apply (respects_modify same_reserves); done
  | apply (respects_zoom same_reserves); done
  | apply (respects_bind same_reserves); [|intros ?] | case_match ].

Lemma add_map_keeps pg : respects same_reserves (add_map pg).
Proof. unfold add_map. keeps_reserves. Qed.

Lemma io_pages_keeps fuel : forall addr size, respects same_reserves (io_pages fuel addr size).
Proof.
  induction fuel as [|fuel IH]; intros addr size; cbn [io_pages].
  - case_match; [apply (respects_out_of_fuel same_reserves)|]. case_match; [by apply (respects_ret same_reserves)|apply add_map_keeps].
  - case_match; [|case_match; [by apply (respects_ret same_reserves)|apply add_map_keeps]].
    apply (respects_bind same_reserves); [apply add_map_keeps|intros _; apply IH].
Qed.

Lemma on_iomem_keeps addr size : respects same_reserves (on_iomem addr size).
Proof.
  assert (forall a z, respects same_reserves (on_iomem_aligned a z)) as Hal.
  { intros a z. unfold on_iomem_aligned. case_match; [by apply (respects_ret same_reserves)|apply io_pages_keeps]. }
  unfold on_iomem. repeat case_match; try apply (respects_ret same_reserves); try apply add_map_keeps; [|apply Hal].
  apply (respects_bind same_reserves); [apply add_map_keeps|intros _; apply Hal].
Qed.

Lemma if_below_keeps addr size f : respects same_reserves f -> respects same_reserves (if_below addr size f).
Proof. intros Hf. unfold if_below. keeps_reserves. exact Hf. Qed.

Lemma on_mem_keeps addr size : respects same_reserves (on_mem addr size).
Proof.
  assert (forall A (m : M (pool Z) A), respects same_reserves (on_small_heap m)) as Hs by (intros; by apply (respects_zoom same_reserves)).
  assert (forall A (m : M (phy_page phymem) A), respects same_reserves (on_phy m)) as Hp by (intros; by apply (respects_zoom same_reserves)).
  unfold on_mem. generalize 3%nat. intros fuel. revert addr size.
  induction fuel as [|fuel IH]; intros addr size; cbn [on_mem_rec]; [apply (respects_out_of_fuel same_reserves)|].
  repeat first [ apply IH | apply Hs | apply Hp | apply if_below_keeps | apply (respects_ret same_reserves)
    | apply (respects_bind same_reserves); [|intros ?] | case_match ].
Qed.

Lemma give_keeps b addr size : respects same_reserves (give b addr size).
Proof. destruct b; [apply on_mem_keeps|apply on_iomem_keeps]. Qed.

(** Giving a list of ranges, one after the other. *)
Fixpoint give_all (b : bool) (ps : list (Z * Z)) : M mboot unit :=
  match ps with
  | [] => ret tt
  | (a, z) :: ps' => give b a z ;;; give_all b ps'
  end.

Lemma bind_assoc {St A B C} (m : M St A) (k : A -> M St B) (k' : B -> M St C) s :
  bind (bind m k) k' s = bind m (fun a => bind (k a) k') s.
Proof. unfold bind. by destruct (m s) as [[a s']| | | |]. Qed.

Lemma bind_ext {St A B} (m : M St A) (k k' : A -> M St B) s :
  (forall a s', m s = Done (a, s') -> k a s' = k' a s') -> bind m k s = bind m k' s.
Proof. intros H. unfold bind. destruct (m s) as [[a s']| | | |] eqn:Hr; [by apply H|done..]. Qed.

Lemma give_all_app b ps qs s : give_all b (ps ++ qs) s = (give_all b ps ;;; give_all b qs) s.
Proof.
  revert s. induction ps as [|[a z] ps IH]; intros s; cbn [app give_all]; [done|].
  rewrite bind_assoc. apply bind_ext. intros [] s' _. apply IH.
Qed.

Lemma give_all_keeps b ps : respects same_reserves (give_all b ps).
Proof.
  induction ps as [|[a z] ps IH]; cbn [give_all]; [apply (respects_ret same_reserves)|].
  apply (respects_bind same_reserves); [apply give_keeps|intros _; exact IH].
Qed.

(** Ascending ranges inside [a, a + z), possibly empty. *)
Inductive ascend : Z -> list (Z * Z) -> Z -> Prop :=
  | ascend_nil lo hi : lo <= hi -> ascend lo [] hi
  | ascend_cons lo a z ps hi : lo <= a -> 0 <= z -> ascend (a + z) ps hi -> ascend lo ((a, z) :: ps) hi.

Lemma ascend_app lo ps mid qs hi : ascend lo ps mid -> ascend mid qs hi -> ascend lo (ps ++ qs) hi.
Proof.
  induction 1 as [lo mid Hle|lo a z ps mid Hlo Hz H IH]; intros Hq; cbn.
  - inversion Hq; subst; constructor; lia || done.
  - constructor; [done|done|by apply IH].
Qed.

Lemma ascend_wider lo lo' ps hi hi' : ascend lo ps hi -> lo' <= lo -> hi <= hi' -> ascend lo' ps hi'.
Proof.
  intros H. revert lo'. induction H as [lo hi Hle|lo a z ps hi Hlo Hz H IH]; intros lo' Hl Hh; constructor; try lia.
  apply IH; lia.
Qed.

Definition in_some (ps : list (Z * Z)) (x : Z) : Prop := exists p, p ∈ ps /\ in_range p.1 p.2 x.
Lemma in_some_nil x : ~ in_some [] x.
Proof. intros (p & Hp & _). by apply elem_of_nil in Hp. Qed.
Lemma in_some_cons p ps x : in_some (p :: ps) x <-> in_range p.1 p.2 x \/ in_some ps x.
Proof. unfold in_some. setoid_rewrite elem_of_cons. naive_solver. Qed.
Lemma in_some_app ps qs x : in_some (ps ++ qs) x <-> in_some ps x \/ in_some qs x.
Proof. unfold in_some. setoid_rewrite elem_of_app. naive_solver. Qed.

(** The reserved ranges end below 2^64 and below the highest noted end. *)
Record reserves_ok (s : mboot) : Prop := {
  rs_range r : r ∈ revmem s -> 0 <= r.1 /\ 0 <= r.2 /\ r.1 + r.2 < 2 ^ 64 /\ r.1 + r.2 <= max_reserve_addr s;
  rs_length : (length (revmem s) <= MAX_REVERSE)%nat
}.

Lemma reserves_ok_same s s' : same_reserves s s' -> reserves_ok s -> reserves_ok s'.
Proof. intros [Hr Hm] [H1 H2]. split; rewrite ?Hr, ?Hm; done. Qed.

(** The reserved ranges the loop would cut at. *)
Definition cuts_range (a z : Z) (r : Z * Z) : bool := (a <? r.1 + r.2) && (r.1 <? a + z).
Definition to_cut (l : list (Z * Z)) (a z : Z) : nat := length (List.filter (cuts_range a z) l).

Lemma to_cut_le l a z a' z' : (forall r, r ∈ l -> cuts_range a' z' r = true -> cuts_range a z r = true) ->
  (to_cut l a' z' <= to_cut l a z)%nat.
Proof.
  unfold to_cut. induction l as [|r l IH]; intros H; cbn; [lia|].
  assert (length (List.filter (cuts_range a' z') l) <= length (List.filter (cuts_range a z) l))%nat.
  { apply IH. intros r' Hr'. apply H. by right. }
  pose proof (H r ltac:(by left)) as Hr. destruct (cuts_range a' z' r); [rewrite Hr by done; cbn; lia|].
  destruct (cuts_range a z r); cbn; lia.
Qed.

Lemma to_cut_lt l a z a' z' r : (forall r, r ∈ l -> cuts_range a' z' r = true -> cuts_range a z r = true) ->
  r ∈ l -> cuts_range a' z' r = false -> cuts_range a z r = true -> (to_cut l a' z' < to_cut l a z)%nat.
Proof.
  unfold to_cut. induction l as [|r' l IH]; intros H Hr Hn Hy; [by apply elem_of_nil in Hr|]. cbn.
  assert (forall r, r ∈ l -> cuts_range a' z' r = true -> cuts_range a z r = true) as H' by (intros; apply H; [by right|done]).
  apply elem_of_cons in Hr as [->|Hr].
  - rewrite Hn, Hy. cbn. pose proof (to_cut_le l a z a' z' H'). unfold to_cut in *. lia.
  - pose proof (IH H' Hr Hn Hy). pose proof (H r' ltac:(by left)) as Hr'.
    destruct (cuts_range a' z' r'); [rewrite Hr' by done; cbn; lia|]. destruct (cuts_range a z r'); cbn; lia.
Qed.

(** The ranges a call gives to the allocators or notes: ascending, inside the
    range, and all of it but the reserved addresses. *)
Record leaves (s : mboot) (a z : Z) (ps : list (Z * Z)) : Prop := {
  lv_ascend : ascend a ps (a + z);
  lv_covers x : in_some ps x <-> in_range a z x /\ ~ in_some (revmem s) x
}.

Lemma leaves_same s s' a z ps : same_reserves s s' -> leaves s a z ps -> leaves s' a z ps.
Proof. intros [Hr _] [Ha Hc]. split; [done|]. by rewrite Hr. Qed.

Lemma leaves_whole s a z : 0 <= z -> (forall x, in_range a z x -> ~ in_some (revmem s) x) -> leaves s a z [(a, z)].
Proof.
  intros Hz Hno. split; [constructor; [lia|done|constructor; lia]|]. intros x. rewrite in_some_cons. cbn.
  pose proof (in_some_nil x). split; [intros [?|?]; [split; [done|by apply Hno]|done]|tauto].
Qed.

Lemma leaves_none s a z r : r ∈ revmem s -> r.1 <= a -> a + z <= r.1 + r.2 -> 0 <= z -> leaves s a z [].
Proof.
  intros Hr H1 H2 Hz. split; [constructor; lia|]. intros x. split; [intros H; by apply in_some_nil in H|].
  intros [Hx Hn]. destruct Hn. exists r. split; [done|]. unfold in_range in *. lia.
Qed.

(** Behind a reserved range that starts at or before [a]. *)
Lemma leaves_behind s a z r ps : r ∈ revmem s -> r.1 <= a -> a <= r.1 + r.2 <= a + z -> 
  leaves s (r.1 + r.2) (a + z - (r.1 + r.2)) ps -> leaves s a z ps.
Proof.
  intros Hr H1 H2 [Ha Hc]. split; [eapply ascend_wider; [exact Ha|lia|lia]|]. intros x. rewrite Hc.
  assert (in_range r.1 r.2 x -> in_some (revmem s) x) by (intros; by exists r). unfold in_range in *.
  split; intros [? Hn]; (split; [|done]); [lia|].
  destruct (decide (r.1 + r.2 <= x)); [lia|]. destruct Hn. apply H. lia.
Qed.

(** Around a reserved range that starts behind [a]. *)
Lemma leaves_around s a z r ps qs : r ∈ revmem s -> a < r.1 <= a + z -> 0 <= r.2 ->
  leaves s a (r.1 - a) ps -> 
  (r.1 + r.2 < a + z -> leaves s (r.1 + r.2) (a + z - (r.1 + r.2)) qs) ->
  (a + z <= r.1 + r.2 -> qs = []) -> leaves s a z (ps ++ qs).
Proof.
  intros Hr H1 H2 [Ha Hc] Hq Hnil. replace (a + (r.1 - a)) with r.1 in Ha by lia.
  assert (forall x, in_range r.1 r.2 x -> in_some (revmem s) x) as Hrev by (intros; by exists r).
  destruct (decide (r.1 + r.2 < a + z)) as [Hlt|Hge].
  - destruct (Hq Hlt) as [Ha' Hc']. split.
    + eapply ascend_app; [exact Ha|]. eapply ascend_wider; [exact Ha'|lia|lia].
    + intros x. rewrite in_some_app, Hc, Hc'. specialize (Hrev x). unfold in_range in *. split; [|intros [Hx Hn]].
      * intros [[? ?]|[? ?]]; (split; [lia|done]).
      * destruct (decide (x < r.1)); [left; split; [lia|done]|right; split; [|done]].
        destruct (decide (x < r.1 + r.2)); [|lia]. destruct Hn. apply Hrev. lia.
  - rewrite (Hnil ltac:(lia)), app_nil_r. split; [eapply ascend_wider; [exact Ha|lia|lia]|].
    intros x. rewrite Hc. specialize (Hrev x). unfold in_range in *. split; intros [Hx Hn]; (split; [|done]); [lia|].
    destruct (decide (x < r.1)); [lia|]. destruct Hn. apply Hrev. lia.
Qed.

Lemma deal_rec_ok b fuel : forall a z s, reserves_ok s -> 0 <= a -> 0 <= z -> a + z < 2 ^ 64 ->
  (to_cut (revmem s) a z < fuel)%nat ->
  exists ps, deal_reserve_rec fuel b a z s = give_all b ps s /\ leaves s a z ps.
Proof.
  induction fuel as [|fuel IH]; intros a z s Hok Ha Hz Hw Hf; [lia|]. cbn [deal_reserve_rec].
  unfold bind at 1. cbn [gets]. destruct (Z.ltb_spec (max_reserve_addr s) a) as [Hmax|Hmax].
  { exists [(a, z)]. split.
    - cbn [give_all]. unfold bind. by destruct (give b a z s) as [[[] ?]| | | |].
    - apply leaves_whole; [done|]. intros x Hx (r & Hr & Hxr). pose proof (rs_range s Hok r Hr).
      unfold in_range in *. lia. }
  unfold bind at 1. cbn [gets].
  assert (forall l, l ⊆ revmem s -> (forall r, r ∈ revmem s -> r ∉ l -> cuts_range a z r = false) ->
    exists ps, cut_reserves (deal_reserve_rec fuel b) b a z l s = give_all b ps s /\ leaves s a z ps) as Hl;
    [|apply Hl; [done|by intros]].
  induction l as [|r l IHl]; intros Hsub Hno.
  - exists [(a, z)]. split.
    + cbn [cut_reserves give_all]. unfold bind. by destruct (give b a z s) as [[[] ?]| | | |].
    + apply leaves_whole; [done|]. intros x Hx (r & Hr & Hxr). pose proof (Hno r Hr (not_elem_of_nil r)) as Hn.
      unfold cuts_range, in_range in *. destruct (Z.ltb_spec a (r.1 + r.2)), (Z.ltb_spec r.1 (a + z)); cbn in Hn; lia || done.
  - assert (r ∈ revmem s) as Hr by (apply Hsub; by left).
    destruct (rs_range s Hok r Hr) as (Hr1 & Hr2 & Hrw & Hrm).
    assert (cuts_range a z r = false -> exists ps, cut_reserves (deal_reserve_rec fuel b) b a z l s = give_all b ps s /\ leaves s a z ps) as Hskip.
    { intros Hc. apply IHl; [intros r' Hr'; apply Hsub; by right|]. intros r' Hr' Hnl.
      destruct (decide (r' = r)) as [->|Hne]; [done|]. apply Hno; [done|]. by rewrite not_elem_of_cons. }
    destruct r as [rs rz]. cbn [fst snd] in *. cbn [cut_reserves]. rewrite !(wrap64_small (rs + rz)), !(wrap64_small (a + z)) by lia.
    unfold cuts_range in Hskip. cbn [fst snd] in Hskip.
    destruct (Z.leb_spec (rs + rz) a) as [Hc1|Hc1]; [apply Hskip; destruct (Z.ltb_spec a (rs + rz)); [lia|done]|].
    destruct (Z.leb_spec (a + z) rs) as [Hc2|Hc2].
    { apply Hskip. destruct (Z.ltb_spec rs (a + z)); [lia|]. by rewrite andb_false_r. }
    assert (forall a' z', a <= a' -> a' + z' <= a + z -> (rs + rz <= a' \/ a' + z' <= rs) -> (to_cut (revmem s) a' z' < fuel)%nat) as Hless.
    { intros a' z' H1 H2 H3. enough (to_cut (revmem s) a' z' < to_cut (revmem s) a z)%nat by lia.
      apply (to_cut_lt _ _ _ _ _ (rs, rz)); [|done| |]; unfold cuts_range; cbn [fst snd].
      - intros r' _ [H4%Z.ltb_lt H5%Z.ltb_lt]%andb_prop. apply andb_true_intro. rewrite !Z.ltb_lt. lia.
      - destruct (Z.ltb_spec a' (rs + rz)), (Z.ltb_spec rs (a' + z')); done || lia.
      - apply andb_true_intro. rewrite !Z.ltb_lt. lia. }
    destruct (Z.leb_spec rs a) as [Hc3|Hc3]; destruct (Z.leb_spec (a + z) (rs + rz)) as [Hc4|Hc4]; cbn [andb].
    + exists []. split; [done|]. by apply (leaves_none s a z (rs, rz)).
    + rewrite wrap64_small by lia.
      destruct (IH (rs + rz) (a + z - (rs + rz)) s) as (ps & Hrun & Hlv); [done|lia|lia|lia|apply Hless; lia|].
      exists ps. split; [done|]. apply (leaves_behind s a z (rs, rz)); cbn; done || lia.
    + rewrite (proj2 (Z.leb_le a rs)) by lia. cbn [kassert]. unfold bind at 1. cbn [ret].
      destruct (IH a (rs - a) s) as (ps & Hrun & Hlv); [done|lia|lia|lia|apply Hless; lia|].
      exists (ps ++ []). rewrite (proj2 (Z.ltb_ge (rs + rz) (a + z))) by lia. split.
      * rewrite give_all_app. unfold bind. by rewrite Hrun.
      * apply (leaves_around s a z (rs, rz)); cbn; try done; lia.
    + rewrite (proj2 (Z.leb_le a rs)) by lia. cbn [kassert]. unfold bind at 1. cbn [ret].
      destruct (IH a (rs - a) s) as (ps & Hrun & Hlv); [done|lia|lia|lia|apply Hless; lia|].
      rewrite (proj2 (Z.ltb_lt (rs + rz) (a + z))), wrap64_small by lia.
      assert (forall s1, same_reserves s s1 -> exists qs,
        deal_reserve_rec fuel b (rs + rz) (a + z - (rs + rz)) s1 = give_all b qs s1 /\
        leaves s (rs + rz) (a + z - (rs + rz)) qs) as Hrest.
      { intros s1 Hs1. destruct (IH (rs + rz) (a + z - (rs + rz)) s1) as (qs & Hrun' & Hlv').
        - by eapply reserves_ok_same.
        - lia.
        - lia.
        - lia.
        - rewrite (proj1 Hs1). apply Hless; lia.
        - exists qs. split; [done|]. eapply leaves_same; [by symmetry|exact Hlv']. }
      pose proof (give_all_keeps b ps s tt) as Hkeep.
      destruct (give_all b ps s) as [[[] s1]| | | |] eqn:Hg.
      1: destruct (Hrest s1 (Hkeep s1 eq_refl)) as (qs & Hrun' & Hlv').
      2, 3, 4, 5: destruct (Hrest s ltac:(done)) as (qs & _ & Hlv').
      all: exists (ps ++ qs); split; [rewrite give_all_app; unfold bind; rewrite Hrun, Hg; done|].
      all: apply (leaves_around s a z (rs, rz)); cbn; try done; lia.
Qed.

(** ** The theorems *)

(** C5: [deal_reserve] gives or notes, in ascending order, exactly the
    addresses of the range that are not reserved, each once, and ends: the
    reserved ranges are at most ten and none is cut at twice. *)
Theorem deal_reserve_correct (s : mboot) (addr size : Z) (ismem : bool)
    (Hok : reserves_ok s) (Hrange : 0 <= addr /\ 0 <= size /\ addr + size < 2 ^ 64) :
  exists ps, deal_reserve addr size ismem s = give_all ismem ps s /\
    ascend addr ps (addr + size) /\
    forall x, in_some ps x <-> in_range addr size x /\ ~ in_some (revmem s) x.
Proof.
  destruct (deal_rec_ok ismem (S MAX_REVERSE) addr size s Hok) as (ps & Hrun & []); [lia..| |by exists ps].
  pose proof (rs_length s Hok). unfold to_cut. pose proof (filter_length (cuts_range addr size) (revmem s)). lia.
Qed.

(** A machine with [max] bytes of memory, nothing of it given away yet. *)
Definition fresh_mboot (max : Z) (map : list Z) : mboot :=
  MBoot [] [] 0 map (Z.of_nat (length map)) (init_pool 0 MAX_HEAP_HOLE) (init_pool 0 MAX_SMALL_HOLE)
    (MM (fun _ => 0) 4096 (init_phy_page (init_phy_mem max max 0)) []).
Definition boot_reserves : list (Z * Z) := [(0, 0x10000); (0x1000000, 0x200000)].

Lemma deal_reserve_correct_witness :
  exists ps, deal_reserve 0x100000 0x1f00000 false (set_rev boot_reserves 0x1200000 (fresh_mboot 0x10000000 [])) =
      give_all false ps (set_rev boot_reserves 0x1200000 (fresh_mboot 0x10000000 [])) /\
    in_some ps 0x1200000 /\ ~ in_some ps 0x11fffff.
Proof.
  destruct (deal_reserve_correct (set_rev boot_reserves 0x1200000 (fresh_mboot 0x10000000 [])) 0x100000 0x1f00000 false)
    as (ps & Hrun & _ & Hin).
  - split; [|cbn; unfold MAX_REVERSE; lia]. cbn. intros r [->|[->|Hr%elem_of_nil]%elem_of_cons]%elem_of_cons; cbn; [lia|lia|done].
  - lia.
  - exists ps. split; [exact Hrun|]. rewrite !Hin. cbn [set_rev revmem]. unfold boot_reserves. rewrite !in_some_cons. unfold in_range. cbn.
    pose proof (in_some_nil 0x1200000). split; [split; [lia|intros [?|[?|?]]; [lia|lia|done]]|]. intros [_ Hn]. apply Hn. right. left. lia.
Defined.

(** Noting a low range after a high one takes the protection from the high
    one: [max_reserve_addr] becomes the end of the range noted last. *)
Example late_low_reserve :
  (add_reserve 0x1000000 0x200000 ;;; add_reserve 0 0x10000 ;;; deal_reserve 0x1000000 0x400000 false) (fresh_mboot 0x10000000 []) =
  (add_reserve 0x1000000 0x200000 ;;; add_reserve 0 0x10000 ;;; on_iomem 0x1000000 0x400000) (fresh_mboot 0x10000000 []).
Proof. vm_compute. reflexivity. Qed.
