(* ===== verification/MemMap.v ===== *)
(** * MemMap: where memory and devices end up

    What the calls of Multiboot.v do to the allocators of PhyPage.v and PhyMem.v
    and to the translation of PgWalk.v: a range given by [on_mem], the ranges
    that are given twice, the pages of I/O memory, and the whole map. *)
From Stdlib Require Import ZArith Lia.
From stdpp Require Import base tactics gmap list option.
From S2P Require Import Prelude Bytes HoleList FreeSet Pages Layout PhyMem PhyPage KHeap PgTable PgWalk PgMap IoRemap Multiboot.
#[export] Set Warnings "-clear-no-such-hyp".

(** ** What the allocators own afterwards *)

(** The 4K allocator with at least [k] free nodes, and the bytes it and its
    source of 2M pages own. *)
Definition owns (k : nat) (s : mboot) (F : Z -> Prop) : Prop :=
  exists lf lh, pp_ok (LP := phymem_large_pages) false (phy_pages s) lf lh /\ (k <= length lf)%nat /\
    forall x, total (LP := phymem_large_pages) (phy_pages s) lh x <-> F x.

(** The bitmap covers all of memory. *)
Record limits_ok (t : phymem) : Prop := {
  li_mem : max_phy_mem_addr t <= max_phy_addr t;
  li_map : max_phy_mem_addr t <= PAGE_SIZE_LARGE * (64 * Z.of_nat (length (b_words (pg t))));
  li_top : max_phy_mem_addr t <= 2 ^ 45
}.
Definition mem_limit (s : mboot) : Z := max_phy_mem_addr (pp_src (phy_pages s)).

(** Nothing changed but the memory the allocators own. *)
Record only_memory (s s' : mboot) : Prop := {
  om_reserves : same_reserves s s';
  om_io : io_remap_pages s' = io_remap_pages s;
  om_frame : same_frame (pp_src (phy_pages s)) (pp_src (phy_pages s'))
}.
#[export] Instance only_memory_preorder : PreOrder only_memory.
Proof.
  split; [done|]. intros s1 s2 s3 [? H1 ?] [? H2 ?]. split; [by etransitivity|congruence|by etransitivity].
Qed.
Lemma only_memory_limits s s' : only_memory s s' -> limits_ok (pp_src (phy_pages s)) -> limits_ok (pp_src (phy_pages s')).
Proof. intros [_ _ (Hl & Ha & Hm)] [? ? ?]. split; rewrite ?Hl, ?Ha, ?Hm; done. Qed.
Lemma only_memory_limit s s' : only_memory s s' -> mem_limit s' = mem_limit s.
Proof. by intros [_ _ (_ & _ & ?)]. Qed.

Lemma owns_ext k s F G : (forall x, F x <-> G x) -> owns k s F -> owns k s G.
Proof. intros He (lf & lh & ? & ? & Ht). exists lf, lh. split; [done|]. split; [done|]. intros x. by rewrite Ht. Qed.
Lemma owns_less k k' s F : (k' <= k)%nat -> owns k s F -> owns k' s F.
Proof. intros Hk (lf & lh & ? & ? & Ht). exists lf, lh. split; [done|]. split; [lia|done]. Qed.

Lemma owns_nothing k s F a z : z = 0 -> owns (S k) s F -> owns k s (fun x => F x \/ in_range a z x).
Proof.
  intros -> Ho. eapply owns_ext; [|eapply owns_less; [|exact Ho]; lia]. intros x. unfold in_range. split; [by left|].
  intros [?|?]; [done|lia].
Qed.

Lemma free_small_ok k s F a z :
  owns (S k) s F -> 4096 <= a -> 0 < z -> a + z <= 2 ^ 45 -> a mod 4096 = 0 -> z mod 4096 = 0 ->
  (forall x, in_range a z x -> ~ F x) ->
  wp (free_small a z) s (fun _ s' => owns k s' (fun x => F x \/ in_range a z x) /\ only_memory s s').
Proof.
  intros (lf & lh & [Hlk Hco Hsrc Hdis] & Hk & HF) Ha Hz Hhi Ham Hzm Hno. unfold free_small, on_phy, PhyPage.on_pool.
  apply wp_zoom, wp_zoom. eapply wp_mono.
  { apply free_phy_page_small_ok; try done; [intros ->; cbn in Hk; lia|].
    intros x Hx Hc. apply (Hno x Hx), HF. by left. }
  intros [] p (Hlk' & lf' & lh' & Hco' & Hlen & Hc & _). split; [|by split].
  exists lf', lh'. split; [|split; [lia|]].
  - split; try done. cbn. intros x q Hx Hq Hr. apply Hc in Hx as [Hx|Hx]; [by apply (Hdis x q Hx Hq)|].
    apply (Hno x Hx), HF. right. by exists q.
  - intros x. rewrite <- HF. unfold total. cbn. rewrite Hc. tauto.
Qed.

Lemma pages_union (t t' : phymem) n c x :
  (forall m, page_free t' m <-> page_free t m \/ (n <= m < n + c)%nat) ->
  (exists p, page_addr_free t' p /\ in_range p PAGE_SIZE_LARGE x) <->
  (exists p, page_addr_free t p /\ in_range p PAGE_SIZE_LARGE x) \/
    in_range (PAGE_SIZE_LARGE * Z.of_nat n) (PAGE_SIZE_LARGE * Z.of_nat c) x.
Proof.
  unfold page_addr_free, in_range, PAGE_SIZE_LARGE. intros Hf. split.
  - intros (p & (m & -> & Hm) & Hx). apply Hf in Hm as [Hm|Hm]; [left; eauto|right; lia].
  - intros [(p & (m & -> & Hm) & Hx)|Hx].
    + exists (2097152 * Z.of_nat m). split; [exists m; rewrite Hf; eauto|done].
    + pose proof (Z.div_mod x 2097152). pose proof (Z.mod_pos_bound x 2097152).
      assert (0 <= x / 2097152) by (apply Z.div_pos; lia).
      exists (2097152 * Z.of_nat (Z.to_nat (x / 2097152))). split; [|rewrite Z2Nat.id; lia].
      exists (Z.to_nat (x / 2097152)). split; [done|]. rewrite Hf. right. lia.
Qed.

Lemma free_pages_ok k s F n c :
  owns k s F -> limits_ok (pp_src (phy_pages s)) -> (0 < n)%nat -> (0 < c)%nat ->
  PAGE_SIZE_LARGE * Z.of_nat (n + c) <= mem_limit s ->
  (forall x, in_range (PAGE_SIZE_LARGE * Z.of_nat n) (PAGE_SIZE_LARGE * Z.of_nat c) x -> ~ F x) ->
  wp (on_phy (PhyPage.on_src (free_phy_pages (PAGE_SIZE_LARGE * Z.of_nat n) (PAGE_SIZE_LARGE * Z.of_nat c)))) s
    (fun _ s' => owns k s' (fun x => F x \/ in_range (PAGE_SIZE_LARGE * Z.of_nat n) (PAGE_SIZE_LARGE * Z.of_nat c) x) /\
       only_memory s s').
Proof.
  intros (lf & lh & [Hlk Hco Hsrc Hdis] & Hk & HF) [Hl1 Hl2 Hl3] Hn Hc Hm Hno. unfold mem_limit in *.
  unfold on_phy, PhyPage.on_src. apply wp_zoom, wp_zoom. eapply wp_mono.
  { apply free_phy_pages_spec; [exact Hsrc|done| |]; unfold PAGE_SIZE_LARGE in *; lia. }
  intros [] t (Hinv & _ & Hfr & Hf). split; [|by split].
  pose proof (fun x => pages_union _ _ _ _ x Hf) as Hu.
  exists lf, lh. split; [|split; [done|]].
  - split; try done. cbn. intros x q Hx (m & -> & Hq) Hr. apply Hf in Hq as [Hq|Hq].
    + apply (Hdis x (PAGE_SIZE_LARGE * Z.of_nat m) Hx); [by exists m|done].
    + apply (Hno x); [unfold in_range, PAGE_SIZE_LARGE in *; lia|]. apply HF. by left.
  - intros x. rewrite <- HF. unfold total. cbn. rewrite Hu. tauto.
Qed.

(** Ranges the allocators can take as [on_mem] passes them on: their first
    address is a multiple of 2M unless they are shorter. *)
Definition round_4k (z : Z) : Z := z - z mod 4096.
Definition plain (a z : Z) : Prop := a mod 4096 = 0 /\ (round_4k z < PAGE_SIZE_LARGE \/ a mod PAGE_SIZE_LARGE = 0).
(** What is kept of a range: a last part that ends at the end of memory and
    is no 2M page is given to nobody. *)
Definition kept (limit a z : Z) : Z :=
  let z := round_4k z in if a + z <? limit then z else z - z mod PAGE_SIZE_LARGE.

Lemma land_4k a : Z.land a 0xfff = a mod 4096.
Proof. exact (land_low_mod a 12 ltac:(lia)). Qed.
Lemma land_2m a : Z.land a (PAGE_SIZE_LARGE - 1) = a mod PAGE_SIZE_LARGE.
Proof. exact (land_low_mod a 21 ltac:(lia)). Qed.
Lemma round_4k_aligned z : z mod 4096 = 0 -> round_4k z = z.
Proof. unfold round_4k. lia. Qed.
Lemma mask_4k z : 0 <= z < 2 ^ 64 -> Z.land z (lnot64 0xfff) = round_4k z.
Proof. intros Hz. exact (land_high z 12 ltac:(lia) Hz). Qed.

Lemma if_below_ok a z f s Q : 0 <= a + z < 2 ^ 64 ->
  (a + z < mem_limit s -> wp f s Q) -> (mem_limit s <= a + z -> Q tt s) -> wp (if_below a z f) s Q.
Proof.
  intros Hw Hlt Hge. unfold if_below. wp_steps. rewrite wrap64_small by done. unfold __max_phy_mem_addr.
  unfold mem_limit in *. destruct (Z.ltb_spec (a + z) (max_phy_mem_addr (pp_src (phy_pages s)))); [by apply Hlt|].
  wp_steps. by apply Hge.
Qed.

Lemma mod_4k_2m z : z mod PAGE_SIZE_LARGE mod 4096 = z mod 4096.
Proof.
  unfold PAGE_SIZE_LARGE. rewrite (Z.mod_eq z 2097152) by lia.
  replace (z - 2097152 * (z / 2097152)) with (z + (- (512 * (z / 2097152))) * 4096) by lia. by apply Z.mod_add.
Qed.

Lemma on_mem_plain k s F a z :
  owns (S k) s F -> limits_ok (pp_src (phy_pages s)) -> plain a z -> 4096 <= a -> 0 <= z ->
  a + round_4k z <= mem_limit s -> (forall x, in_range a (round_4k z) x -> ~ F x) ->
  wp (on_mem a z) s (fun _ s' => owns k s' (fun x => F x \/ in_range a (kept (mem_limit s) a z) x) /\ only_memory s s').
Proof.
  intros Hown Hli [Ham Hpl] Ha Hz Hlim Hno. unfold on_mem. cbn [on_mem_rec].
  pose proof (Z.mod_pos_bound z 4096) as Hzm. pose proof (li_top _ Hli) as Htop.
  assert (mem_limit s <= 2 ^ 45) as Hl45 by exact Htop. assert (a + (z - z mod 4096) <= 2 ^ 45) as Hz45 by (unfold round_4k in Hlim; lia).
  rewrite land_4k, Ham. cbn [Z.eqb negb]. rewrite mask_4k by lia.
  assert (round_4k z mod 4096 = 0) as Hr4.
  { unfold round_4k. rewrite (Z.mod_eq z 4096) by lia. replace (z - (z - 4096 * (z / 4096))) with (z / 4096 * 4096) by lia.
    by apply Z.mod_mul. }
  set (w := round_4k z) in *. assert (0 <= w) as Hw by (pose proof (Z.mod_le z 4096); unfold w, round_4k; lia).
  pose proof (Z.mod_pos_bound w PAGE_SIZE_LARGE ltac:(done)) as Hwm.
  assert (kept (mem_limit s) a z = if a + w <? mem_limit s then w else w - w mod PAGE_SIZE_LARGE) as Hkept by done.
  destruct (Z.eqb_spec w 0) as [Hw0|Hw0].
  { wp_steps. split; [|done]. apply owns_nothing; [|done]. rewrite Hkept, Hw0. destruct (a + 0 <? mem_limit s); reflexivity. }
  destruct (Z.ltb_spec w PAGE_SIZE_LARGE) as [Hsm|Hbig].
  { apply if_below_ok; [lia| |].
    - intros Hlt. eapply wp_mono; [apply (free_small_ok k s F a w Hown); try done; lia|]. intros [] s' [Ho Hom].
      split; [|done]. rewrite Hkept, (proj2 (Z.ltb_lt _ _)) by done. done.
    - intros Hge. split; [|done]. rewrite Hkept, (proj2 (Z.ltb_ge _ _)) by done. rewrite Z.mod_small by lia.
      apply owns_nothing; [lia|done]. }
  destruct Hpl as [?|Ha2]; [lia|]. rewrite land_2m, Ha2. cbn [Z.eqb negb].
  rewrite land_2m. pose proof (Z.div_mod w PAGE_SIZE_LARGE ltac:(done)) as Hdiv.
  pose proof (Z.div_mod a PAGE_SIZE_LARGE ltac:(done)) as Hadiv. rewrite Ha2, Z.add_0_r in Hadiv.
  set (c := Z.to_nat (w / PAGE_SIZE_LARGE)). set (n := Z.to_nat (a / PAGE_SIZE_LARGE)).
  assert (Z.of_nat c = w / PAGE_SIZE_LARGE) as Hc by (unfold c; rewrite Z2Nat.id; [done|apply Z.div_pos; done || lia]).
  assert (Z.of_nat n = a / PAGE_SIZE_LARGE) as Hn by (unfold n; rewrite Z2Nat.id; [done|apply Z.div_pos; done || lia]).
  assert (a = PAGE_SIZE_LARGE * Z.of_nat n) as Han by (rewrite Hn; exact Hadiv).
  assert (w / PAGE_SIZE_LARGE * PAGE_SIZE_LARGE = PAGE_SIZE_LARGE * Z.of_nat c) as Hwc by (rewrite Hc; lia).
  assert (free_phy_pages a (w / PAGE_SIZE_LARGE * PAGE_SIZE_LARGE) =
    free_phy_pages (PAGE_SIZE_LARGE * Z.of_nat n) (PAGE_SIZE_LARGE * Z.of_nat c)) as -> by congruence.
  rewrite Hwc. wp_steps.
  assert (0 < Z.of_nat n /\ 0 < Z.of_nat c) as [Hn0 Hc0] by (unfold PAGE_SIZE_LARGE in *; lia).
  eapply wp_mono; [apply (free_pages_ok (S k) s F n c); try done; try lia|].
  { intros x Hx. apply Hno. unfold in_range in *. lia. }
  intros [] s1 [Hown1 Hom1]. cbn beta.
  pose proof (only_memory_limit _ _ Hom1) as Hlim1.
  destruct (Z.eqb_spec (w mod PAGE_SIZE_LARGE) 0) as [Ht0|Ht0].
  { wp_steps. split; [|done]. rewrite Hkept, Ht0, Z.sub_0_r. eapply owns_ext; [|eapply owns_less; [|exact Hown1]; lia].
    intros x. cbn. rewrite <- Han. replace (PAGE_SIZE_LARGE * Z.of_nat c) with w by lia. by destruct (a + w <? mem_limit s). }
  rewrite wrap64_small by lia. apply if_below_ok; [lia| |].
  - rewrite Hlim1. intros Hlt. eapply wp_mono; [eapply (free_small_ok k s1 _ _ (w mod PAGE_SIZE_LARGE) Hown1); try lia|].
    + rewrite <- Hwc. unfold PAGE_SIZE_LARGE.
      replace (a + w / 2097152 * 2097152) with (a + 512 * (w / 2097152) * 4096) by lia. by rewrite Z.mod_add.
    + by rewrite mod_4k_2m.
    + intros x Hx [HF|Hx']; [|unfold in_range in *; lia]. apply (Hno x); [|done]. unfold in_range in *. lia.
    + intros [] s2 [Hown2 Hom2]. split; [|by etransitivity]. rewrite Hkept, (proj2 (Z.ltb_lt _ _)) by lia.
      eapply owns_ext; [|exact Hown2]. intros x. cbn. rewrite <- Han. unfold in_range. intuition lia.
  - rewrite Hlim1. intros Hge. split; [|done]. rewrite Hkept, (proj2 (Z.ltb_ge _ _)) by lia.
    eapply owns_ext; [|eapply owns_less; [|exact Hown1]; lia]. intros x. cbn. rewrite <- Han. unfold in_range. intuition lia.
Qed.

(** ** Pages of I/O memory *)

(** Page [p] (counted from 0) holds bytes of [a, a + z). *)
Definition touched (a z p : Z) : Prop := p * PAGE_SIZE_LARGE < a + z /\ a < (p + 1) * PAGE_SIZE_LARGE.

(** Pages noted one more than their number. *)
Definition noted (s s' : mboot) (n : nat) (P : Z -> Prop) : Prop :=
  exists l', s' = set_io l' s /\ (length l' <= length (io_remap_pages s) + n)%nat /\
    forall q, q ∈ l' <-> q ∈ io_remap_pages s \/ P (q - 1).

Lemma noted_ext s s' n P P' : (forall p, P p <-> P' p) -> noted s s' n P -> noted s s' n P'.
Proof. intros He (l' & ? & ? & Hq). exists l'. split; [done|]. split; [done|]. intros q. by rewrite Hq, He. Qed.

Lemma noted_trans s s1 s2 n m P P' : noted s s1 n P -> noted s1 s2 m P' -> noted s s2 (n + m) (fun p => P p \/ P' p).
Proof.
  intros (l1 & -> & Hl1 & Hq1) (l2 & -> & Hl2 & Hq2). cbn in *. exists l2. split; [done|]. split; [lia|].
  intros q. rewrite Hq2, Hq1. tauto.
Qed.

Lemma noted_none s P : (forall p, ~ P p) -> noted s s 0 P.
Proof.
  intros Hno. exists (io_remap_pages s). split; [by destruct s|]. split; [lia|].
  intros q. split; [by left|]. intros [?|?]; [done|by destruct (Hno (q - 1))].
Qed.

Lemma add_map_ok s p : 0 <= p < 2 ^ 31 - 1 -> (length (io_remap_pages s) < MAX_IO_REMAPS)%nat ->
  wp (add_map (p + 1)) s (fun _ s' => noted s s' 1 (fun p' => p' = p)).
Proof.
  intros Hp Hroom. unfold add_map. rewrite to_int_small by lia. wp_steps.
  destruct (existsb (Z.eqb (p + 1)) (io_remap_pages s)) eqn:He.
  - wp_steps. exists (io_remap_pages s). split; [by destruct s|]. split; [lia|]. intros q. split; [by left|].
    intros [?|Hq]; [done|]. apply existsb_exists in He as (q' & Hin & Hq'%Z.eqb_eq). apply list_elem_of_In.
    by replace q with q' by lia.
  - rewrite (proj2 (Nat.leb_gt _ _)) by done. wp_steps. exists (io_remap_pages s ++ [p + 1]). split; [done|].
    rewrite length_app. split; [done|]. intros q. rewrite elem_of_app, list_elem_of_singleton.
    split; (intros [?|?]; [by left|right; lia]).
Qed.

Lemma div_2m_add a : (a + PAGE_SIZE_LARGE) / PAGE_SIZE_LARGE = a / PAGE_SIZE_LARGE + 1.
Proof. rewrite <- (Z.mul_1_l PAGE_SIZE_LARGE) at 1. by apply Z.div_add. Qed.

Lemma touched_first a z p : 0 < z <= PAGE_SIZE_LARGE - a mod PAGE_SIZE_LARGE -> touched a z p <-> p = a / PAGE_SIZE_LARGE.
Proof.
  intros Hz. unfold touched, PAGE_SIZE_LARGE in *. pose proof (Z.div_mod a 2097152). pose proof (Z.mod_pos_bound a 2097152). lia.
Qed.

Lemma touched_split a z w p : 0 < w <= z -> (a + w) mod PAGE_SIZE_LARGE = 0 ->
  touched a z p <-> touched a w p \/ touched (a + w) (z - w) p.
Proof.
  intros Hw Hm. unfold touched, PAGE_SIZE_LARGE in *. pose proof (Z.div_mod (a + w) 2097152). lia.
Qed.

(** The pages of [n] bytes from a page's start. *)
Definition page_count (z : Z) : nat := Z.to_nat ((z + PAGE_SIZE_LARGE - 1) / PAGE_SIZE_LARGE).

Lemma page_count_step z : PAGE_SIZE_LARGE <= z -> page_count z = S (page_count (z - PAGE_SIZE_LARGE)).
Proof.
  intros Hz. unfold page_count. replace (z + PAGE_SIZE_LARGE - 1) with (z - PAGE_SIZE_LARGE + PAGE_SIZE_LARGE - 1 + PAGE_SIZE_LARGE) by lia.
  rewrite div_2m_add. assert (0 <= (z - PAGE_SIZE_LARGE + PAGE_SIZE_LARGE - 1) / PAGE_SIZE_LARGE) by (apply Z.div_pos; unfold PAGE_SIZE_LARGE in *; lia).
  lia.
Qed.

Lemma io_pages_ok fuel : forall a z s, a mod PAGE_SIZE_LARGE = 0 -> 0 <= a -> 0 <= z -> a + z <= 2 ^ 51 ->
  z / PAGE_SIZE_LARGE < Z.of_nat fuel -> (length (io_remap_pages s) + page_count z <= MAX_IO_REMAPS)%nat ->
  wp (io_pages fuel a z) s (fun _ s' => noted s s' (page_count z) (touched a z)).
Proof.
  assert (forall a z, 0 <= a -> a + z <= 2 ^ 51 -> 0 < z -> 0 <= a / PAGE_SIZE_LARGE < 2 ^ 31 - 1) as Hrange.
  { intros a z Ha Hz Hz0. split; [apply Z.div_pos; unfold PAGE_SIZE_LARGE; lia|]. apply Z.div_lt_upper_bound; unfold PAGE_SIZE_LARGE; lia. }
  assert (forall a z s, a mod PAGE_SIZE_LARGE = 0 -> 0 <= a -> 0 <= z < PAGE_SIZE_LARGE -> a + z <= 2 ^ 51 ->
    (length (io_remap_pages s) + page_count z <= MAX_IO_REMAPS)%nat ->
    wp (if z =? 0 then ret tt else add_map (a / PAGE_SIZE_LARGE + 1)) s (fun _ s' => noted s s' (page_count z) (touched a z))) as Hlast.
  { intros a z s Ham Ha Hz Hhi Hroom. destruct (Z.eqb_spec z 0) as [->|Hz0].
    - wp_steps. apply noted_none. intros p. unfold touched, PAGE_SIZE_LARGE in *. pose proof (Z.div_mod a 2097152). lia.
    - assert (page_count z = 1%nat) as Hp1.
      { unfold page_count. replace (z + PAGE_SIZE_LARGE - 1) with (z - 1 + PAGE_SIZE_LARGE) by lia.
        rewrite div_2m_add, Z.div_small by lia. done. }
      rewrite Hp1 in *. eapply wp_mono; [apply add_map_ok; [apply (Hrange a z); lia|lia]|].
      intros [] s' Hn. eapply noted_ext; [|exact Hn]. intros p. rewrite touched_first by lia. done. }
  induction fuel as [|fuel IH]; intros a z s Ham Ha Hz Hhi Hf Hroom; cbn [io_pages];
    (destruct (Z.leb_spec PAGE_SIZE_LARGE z) as [Hge|Hlt]; [|apply Hlast; try done; lia]).
  { assert (0 <= z / PAGE_SIZE_LARGE) by (apply Z.div_pos; unfold PAGE_SIZE_LARGE; lia). lia. }
  pose proof (page_count_step z Hge) as Hpc. rewrite Hpc in *.
  wp_steps. eapply wp_mono; [apply add_map_ok; [apply (Hrange a z); unfold PAGE_SIZE_LARGE in *; lia|lia]|].
  intros [] s1 Hn1. cbn beta. assert (0 < PAGE_SIZE_LARGE < 2 ^ 22) as Hpg by done.
  rewrite wrap64_small by lia. eapply wp_mono.
  { apply IH; try lia.
    - rewrite <- (Z.mul_1_l PAGE_SIZE_LARGE) at 1. by rewrite Z.mod_add.
    - pose proof (div_2m_add (z - PAGE_SIZE_LARGE)) as Hd. rewrite Z.sub_add in Hd. lia.
    - destruct Hn1 as (l1 & -> & Hl1 & _). cbn. lia. }
  intros [] s2 Hn2. eapply noted_ext; [|exact (noted_trans _ _ _ _ _ _ _ Hn1 Hn2)].
  intros p. cbn. rewrite (touched_split a z PAGE_SIZE_LARGE p), (touched_first a PAGE_SIZE_LARGE); [done|rewrite Ham; lia|lia|].
  rewrite <- (Z.mul_1_l PAGE_SIZE_LARGE) at 1. by rewrite Z.mod_add.
Qed.

Lemma on_iomem_ok s a z : 0 < a -> 0 < z -> a + z <= 2 ^ 51 ->
  (length (io_remap_pages s) + S (page_count z) <= MAX_IO_REMAPS)%nat ->
  wp (on_iomem a z) s (fun _ s' => noted s s' (S (page_count z)) (touched a z)).
Proof.
  intros Ha Hz Hhi Hroom. assert (0 < PAGE_SIZE_LARGE < 2 ^ 22) as Hpg by done.
  pose proof (Z.mod_pos_bound a PAGE_SIZE_LARGE) as Hb. pose proof (Z.div_mod a PAGE_SIZE_LARGE) as Hd.
  assert (forall a z, 0 < a -> 0 < z -> a + z <= 2 ^ 51 -> a mod PAGE_SIZE_LARGE = 0 ->
    forall s, (length (io_remap_pages s) + page_count z <= MAX_IO_REMAPS)%nat ->
    wp (on_iomem_aligned a z) s (fun _ s' => noted s s' (page_count z) (touched a z))) as Hal.
  { clear. intros a z Ha Hz Hhi Ham s Hroom. unfold on_iomem_aligned. rewrite (proj2 (Z.eqb_neq _ _)) by lia.
    apply io_pages_ok; try lia. unfold io_fuel. assert (0 <= z / PAGE_SIZE_LARGE) by (apply Z.div_pos; unfold PAGE_SIZE_LARGE; lia). lia. }
  unfold on_iomem. rewrite (proj2 (Z.eqb_neq a 0)) by lia. rewrite land_2m.
  destruct (Z.eqb_spec (a mod PAGE_SIZE_LARGE) 0) as [Ham|Ham]; cbn [negb].
  { eapply wp_mono; [apply Hal; try done; lia|]. intros [] s' (l' & ? & ? & ?). exists l'. split; [done|]. split; [lia|done]. }
  assert (wrap64 (a + PAGE_SIZE_LARGE - 1) / PAGE_SIZE_LARGE = a / PAGE_SIZE_LARGE + 1) as ->.
  { rewrite wrap64_small by lia. symmetry. apply (Z.div_unique _ _ _ (a mod PAGE_SIZE_LARGE - 1)); lia. }
  assert (0 <= a / PAGE_SIZE_LARGE < 2 ^ 31 - 1) as Hq.
  { split; [apply Z.div_pos; lia|apply Z.div_lt_upper_bound; [lia|]]. unfold PAGE_SIZE_LARGE. lia. }
  set (w := PAGE_SIZE_LARGE - a mod PAGE_SIZE_LARGE) in *. destruct (Z.leb_spec z w) as [Hle|Hgt].
  { eapply wp_mono; [apply add_map_ok; [done|lia]|]. intros [] s' (l' & ? & ? & Hl'). exists l'. split; [done|].
    split; [lia|]. intros q. rewrite Hl'. by rewrite touched_first by lia. }
  wp_steps. eapply wp_mono; [apply add_map_ok; [done|lia]|]. intros [] s1 Hn1. cbn beta. rewrite wrap64_small by lia.
  assert ((a + w) mod PAGE_SIZE_LARGE = 0) as Hwm.
  { replace (a + w) with ((a / PAGE_SIZE_LARGE + 1) * PAGE_SIZE_LARGE) by lia. by apply Z.mod_mul. }
  assert ((page_count (z - w) <= page_count z)%nat) as Hpc.
  { unfold page_count. apply Z2Nat.inj_le; try (apply Z.div_pos; lia). apply Z.div_le_mono; lia. }
  eapply wp_mono; [apply Hal; [lia|lia|lia|exact Hwm|]|].
  { destruct Hn1 as (l1 & -> & Hl1 & _). cbn. lia. }
  intros [] s2 Hn2. pose proof (noted_trans _ _ _ _ _ _ _ Hn1 Hn2) as (l' & -> & Hl & Hq'). exists l'. split; [done|].
  split; [lia|]. intros q. rewrite Hq', (touched_split a z w) by (done || lia). rewrite (touched_first a w) by lia. done.
Qed.

(** ** Mapping them *)

Section io_map.
Context {K : phy_page phymem -> Prop}.
Implicit Types s : mboot.

Lemma map_io_ok s tab n p : mm_ok (tables s) tab -> can_after K (2 + n) (frames (tables s)) -> 0 <= p < IO_PAGES ->
  wp (map_io (p * PAGE_SIZE_LARGE)) s (fun _ s' => exists tab', mm_ok (tables s') tab' /\
    can_after K n (frames (tables s')) /\ io_remap_pages s' = io_remap_pages s /\
    io_mapped (tables s') p /\ (forall q, 0 <= q < IO_PAGES -> io_mapped (tables s) q -> io_mapped (tables s') q) /\
    unchanged_outside_2m (tables s) (tables s') (io_va p)).
Proof.
  intros Hok Hcan Hp. unfold map_io. wp_steps. unfold on_tables. apply wp_zoom. rewrite wrap_io_va by done.
  change io_flags with IO_FLAGS. eapply wp_mono; [by apply (io_page_ok (K := K) (tables s) tab n)|].
  intros r m (-> & (tab' & Hok') & Hcan' & Hp' & Hkeep & Hout). cbn [Z.eqb OK]. cbn beta iota. wp_steps. by exists tab'.
Qed.

Lemma remap_list_ok l : forall s tab, mm_ok (tables s) tab -> can_after K (2 * length l) (frames (tables s)) ->
  (forall q, q ∈ l -> 1 <= q <= IO_PAGES) ->
  wp (remap_list l) s (fun _ s' => (exists tab', mm_ok (tables s') tab') /\ K (frames (tables s')) /\
    (forall q, q ∈ l -> io_mapped (tables s') (q - 1)) /\
    (forall q, 0 <= q < IO_PAGES -> io_mapped (tables s) q -> io_mapped (tables s') q) /\
    forall va, (forall p, 0 <= p < IO_PAGES -> ~ same_2m va (io_va p)) ->
      mmu (ram (tables s')) (pml4 (tables s')) va = mmu (ram (tables s)) (pml4 (tables s)) va).
Proof.
  induction l as [|q l IH]; intros s tab Hok Hcan Hl; cbn [remap_list].
  { wp_steps. split; [by exists tab|]. split; [by apply can_after_now in Hcan|]. split; [|done]. intros q Hq. by apply elem_of_nil in Hq. }
  pose proof (Hl q ltac:(by left)) as Hq. unfold IO_PAGES in Hq. rewrite (wrap64_small q) by lia.
  rewrite (proj2 (Z.ltb_lt 0 q)) by lia. rewrite wrap64_small by (unfold PAGE_SIZE_LARGE; lia). wp_steps.
  replace (2 * length (q :: l))%nat with (2 + 2 * length l)%nat in Hcan by (cbn; lia).
  eapply wp_mono; [apply (map_io_ok s tab (2 * length l) (q - 1)); try done; unfold IO_PAGES; lia|].
  intros [] s1 (tab1 & Hok1 & Hcan1 & _ & Hin1 & Hkeep1 & Hout1). cbn beta.
  eapply wp_mono; [apply (IH s1 tab1 Hok1 Hcan1); intros q' Hq'; apply Hl; by right|].
  intros [] s2 (Hok2 & HK & Hin2 & Hkeep2 & Hout2). split; [done|]. split; [done|]. split; [|split].
  - intros q' [->|Hq']%elem_of_cons; [apply Hkeep2; [unfold IO_PAGES; lia|done]|by apply Hin2].
  - intros q' Hq' Hm. by apply Hkeep2, Hkeep1.
  - intros va Hva. rewrite Hout2 by done. apply Hout1. apply Hva. unfold IO_PAGES. lia.
Qed.
End io_map.

(** ** Reading entries back *)

(** An entry with the bytes behind its six words. *)
Definition encode (e : entry * list Z) : list Z :=
  to_le 4 (e_size e.1) ++ to_le 4 (e_addr e.1 mod 2 ^ 32) ++ to_le 4 (e_addr e.1 / 2 ^ 32) ++
  to_le 4 (e_len e.1 mod 2 ^ 32) ++ to_le 4 (e_len e.1 / 2 ^ 32) ++ to_le 4 (e_type e.1) ++ e.2.
Record entry_ok (e : entry * list Z) : Prop := {
  eo_size : e_size e.1 = 20 + Z.of_nat (length e.2) /\ e_size e.1 < 2 ^ 32;
  eo_addr : 0 <= e_addr e.1 < 2 ^ 64;
  eo_len : 0 <= e_len e.1 < 2 ^ 64;
  eo_type : 0 <= e_type e.1 < 2 ^ 32
}.

Lemma length_encode e : entry_ok e -> Z.of_nat (length (encode e)) = e_size e.1 + 4.
Proof. intros [[Hs _] _ _ _]. unfold encode. rewrite !length_app, !length_to_le. lia. Qed.

Lemma word_parts a : 0 <= a < 2 ^ 64 -> 0 <= a mod 2 ^ 32 < 256 ^ 4 /\ 0 <= a / 2 ^ 32 < 256 ^ 4 /\
  wrap64 (Z.shiftl (a / 2 ^ 32) 32 + a mod 2 ^ 32) = a.
Proof.
  intros Ha. pose proof (Z.mod_pos_bound a (2 ^ 32)). pose proof (Z.div_mod a (2 ^ 32)).
  assert (0 <= a / 2 ^ 32 < 2 ^ 32) by (split; [apply Z.div_pos; lia|apply Z.div_lt_upper_bound; lia]).
  split; [lia|]. split; [lia|]. rewrite Z.shiftl_mul_pow2 by lia. rewrite wrap64_small; lia.
Qed.

Lemma read_entry_ok pre e post s : entry_ok e ->
  read_entry (pre ++ encode e ++ post) (Z.of_nat (length pre)) s = Done (e.1, s).
Proof.
  intros [[Hs Hs'] Ha Hl Ht]. pose proof (word_parts _ Ha) as (Ha1 & Ha2 & Ha3). pose proof (word_parts _ Hl) as (Hl1 & Hl2 & Hl3).
  enough (wp (read_entry (pre ++ encode e ++ post) (Z.of_nat (length pre))) s (fun r s' => r = e.1 /\ s' = s)) as Hwp.
  { apply wp_run in Hwp as (r & s' & Hrun & -> & ->). done. }
  unfold read_entry, encode. wp_steps.
  eapply (wp_read_le _ pre); [by rewrite <- app_assoc|done|cbn; lia|]. wp_steps.
  assert (forall (l : list Z) k, Z.of_nat (length pre) + k = Z.of_nat (length (pre ++ l)) <-> k = Z.of_nat (length l)) as Hlen.
  { intros l k. rewrite length_app. lia. }
  set (w1 := to_le 4 (e_size e.1)). set (w2 := to_le 4 (e_addr e.1 mod 2 ^ 32)). set (w3 := to_le 4 (e_addr e.1 / 2 ^ 32)).
  set (w4 := to_le 4 (e_len e.1 mod 2 ^ 32)). set (w5 := to_le 4 (e_len e.1 / 2 ^ 32)).
  eapply (wp_read_le _ (pre ++ w1)); [by rewrite <- !app_assoc|by apply Hlen|exact Ha1|]. wp_steps.
  eapply (wp_read_le _ (pre ++ w1 ++ w2)); [by rewrite <- !app_assoc|by apply Hlen|exact Ha2|]. wp_steps.
  eapply (wp_read_le _ (pre ++ w1 ++ w2 ++ w3)); [by rewrite <- !app_assoc|by apply Hlen|exact Hl1|]. wp_steps.
  eapply (wp_read_le _ (pre ++ w1 ++ w2 ++ w3 ++ w4)); [by rewrite <- !app_assoc|by apply Hlen|exact Hl2|]. wp_steps.
  eapply (wp_read_le _ (pre ++ w1 ++ w2 ++ w3 ++ w4 ++ w5)); [by rewrite <- !app_assoc|by apply Hlen|cbn; lia|]. wp_steps.
  rewrite Ha3, Hl3. by destruct e as [[]].
Qed.

(** A round for every entry. *)
Fixpoint each {V} (round : entry -> V -> M mboot V) (es : list (entry * list Z)) (v : V) : M mboot V :=
  match es with [] => ret v | e :: es' => v' <- round e.1 v ;; each round es' v' end.

Lemma for_entries_ok {V} (round : entry -> V -> M mboot V) es : forall pre post v fuel s, Forall entry_ok es ->
  (length es <= fuel)%nat ->
  for_entries fuel (pre ++ (es ≫= encode) ++ post) (Z.of_nat (length (pre ++ (es ≫= encode)))) round
    (Z.of_nat (length pre)) v s = each round es v s.
Proof.
  induction es as [|e es IH]; intros pre post v fuel s Hok Hf; cbn [mbind list_bind] in *.
  { rewrite app_nil_r. destruct fuel; cbn [for_entries]; rewrite Z.ltb_irrefl; done. }
  apply list.Forall_cons in Hok as [He Hok]. destruct fuel as [|fuel]; [cbn in Hf; lia|]. cbn [for_entries each].
  pose proof (length_encode e He) as Hlen. destruct (eo_size e He) as [Hs _].
  rewrite (proj2 (Z.ltb_lt _ _)) by (rewrite !length_app; lia).
  rewrite <- app_assoc. unfold bind at 1. rewrite read_entry_ok by done. apply bind_ext. intros v' s' _.
  replace (Z.of_nat (length pre) + e_size e.1 + 4) with (Z.of_nat (length (pre ++ encode e))) by (rewrite length_app; lia).
  rewrite !app_assoc. rewrite <- (app_assoc (pre ++ encode e)). apply IH; [done|cbn in Hf; lia].
Qed.

(** ** The theorems *)

(** C4: A range of memory that starts on a 2M page, or starts on a 4K page and
    is shorter than 2M, is
    given to the allocators: rounded down to 4K, whole 2M pages to the bitmap
    and the rest to the 4K list; afterwards they own exactly it and what they
    owned, but for a last part of less than 2M that ends at the end of memory,
    which is given to nobody ([kept]).  A longer range that starts inside a 2M
    page is left out: part of it is given away twice ([on_mem_owned_twice]). *)
Theorem on_mem_correct (s : mboot) (k : nat) (F : Z -> Prop) (addr size : Z)
    (Hown : owns (S k) s F) (Hlim : limits_ok (pp_src (phy_pages s)))
    (Hplain : plain addr size) (Hrange : 4096 <= addr /\ 0 <= size /\ addr + round_4k size <= mem_limit s)
    (Hno : forall x, in_range addr (round_4k size) x -> ~ F x) :
  exists s', on_mem addr size s = Done (tt, s') /\
    owns k s' (fun x => F x \/ in_range addr (kept (mem_limit s) addr size) x) /\ only_memory s s'.
Proof.
  destruct Hrange as (Ha & Hz & Hl). pose proof (on_mem_plain k s F addr size Hown Hlim Hplain Ha Hz Hl Hno) as Hwp.
  apply wp_run in Hwp as ([] & s' & Hrun & Ho & Hom). by exists s'.
Qed.

Lemma fresh_owns max map : 64 * PAGE_SIZE_LARGE <= max < 2 ^ 44 ->
  owns MAX_PHY_PAGE_HOLE (fresh_mboot max map) (fun _ => False) /\ limits_ok (pp_src (phy_pages (fresh_mboot max map))).
Proof.
  intros Hm. destruct (init_phy_mem_inv max max 0 Hm) as [Hinv Hno].
  destruct (init_phy_page_ok (LP := phymem_large_pages) _ Hinv) as (lf & Hok & Hlen). split.
  - exists lf, []. split; [exact Hok|]. split; [lia|]. intros x. unfold total. split; [|done].
    intros [H|(p & (n & _ & H) & _)]; [by apply covers_nil in H|]. by apply Hno in H.
  - split; cbn; [lia| |lia]. rewrite length_replicate. unfold PAGE_SIZE_LARGE in *.
    assert (0 <= max / 2097152 / 8) by (apply Z.div_pos; [apply Z.div_pos; lia|lia]).
    rewrite Z2Nat.id by (apply Z.div_pos; lia).
    pose proof (Z.div_mod max 2097152). pose proof (Z.mod_pos_bound max 2097152).
    pose proof (Z.div_mod (max / 2097152) 8). pose proof (Z.mod_pos_bound (max / 2097152) 8).
    pose proof (Z.div_mod (max / 2097152 / 8 + 8) 8). pose proof (Z.mod_pos_bound (max / 2097152 / 8 + 8) 8). lia.
Qed.

Lemma on_mem_correct_witness :
  exists s', on_mem 0x1200000 0x345678 (fresh_mboot 0x10000000 []) = Done (tt, s') /\
    owns 19 s' (fun x => False \/ in_range 0x1200000 0x345000 x).
Proof.
  destruct (fresh_owns 0x10000000 []) as [Ho Hl]; [unfold PAGE_SIZE_LARGE; lia|].
  destruct (on_mem_correct (fresh_mboot 0x10000000 []) 19 (fun _ => False) 0x1200000 0x345678 Ho Hl) as (s' & Hrun & Hown & _).
  - split; [reflexivity|]. right. reflexivity.
  - vm_compute. intuition discriminate.
  - intros x _ [].
  - exists s'. split; [exact Hrun|exact Hown].
Defined.

(** The two steps of a range that does not start on a 2M page. *)
Section unaligned.
Context (s : mboot) (lf lh : list (cell Z)) (addr size : Z).
Context (Hok : pp_ok (LP := phymem_large_pages) false (phy_pages s) lf lh) (Hroom : lf <> []).
Context (Hlim : limits_ok (pp_src (phy_pages s))).
Context (Ham : addr mod 4096 = 0) (Hzm : size mod 4096 = 0) (Hne : addr mod PAGE_SIZE_LARGE <> 0).
Context (Ha : 4096 <= addr) (Hz : 2 * PAGE_SIZE_LARGE <= size) (Hend : addr + size = mem_limit s).
Context (Hno : forall x, in_range addr size x -> ~ total (LP := phymem_large_pages) (phy_pages s) lh x).
Let low := PAGE_SIZE_LARGE - addr mod PAGE_SIZE_LARGE.
Let c := (size - low) / PAGE_SIZE_LARGE.
Let n := addr / PAGE_SIZE_LARGE + 1.

Lemma unaligned_parts : 0 < low < PAGE_SIZE_LARGE /\ low mod 4096 = 0 /\ 1 <= c /\ 0 <= n - 1 /\
  addr + low = PAGE_SIZE_LARGE * n /\ 0 <= size - low - PAGE_SIZE_LARGE * c < PAGE_SIZE_LARGE /\
  (size - low) mod PAGE_SIZE_LARGE = size - low - PAGE_SIZE_LARGE * c.
Proof using Ham Hne Ha Hz.
  assert (0 < PAGE_SIZE_LARGE) as Hpos by done.
  pose proof (Z.mod_pos_bound addr PAGE_SIZE_LARGE Hpos) as Hb. pose proof (Z.div_mod addr PAGE_SIZE_LARGE ltac:(lia)) as Hd.
  assert (0 < low < PAGE_SIZE_LARGE) as Hlow by (unfold low; lia). split; [done|]. split.
  { unfold low. change PAGE_SIZE_LARGE with (512 * 4096) at 1. rewrite Zminus_mod, mod_4k_2m, Ham. done. }
  pose proof (Z.div_mod (size - low) PAGE_SIZE_LARGE ltac:(lia)) as Hcd. fold c in Hcd.
  pose proof (Z.mod_pos_bound (size - low) PAGE_SIZE_LARGE Hpos) as Hcb.
  split; [apply Z.div_le_lower_bound; lia|]. assert (0 <= addr / PAGE_SIZE_LARGE) by (apply Z.div_pos; lia).
  unfold n, low in *. split_and!; lia.
Qed.

Lemma on_mem_unaligned : wp (on_mem addr size) s (fun _ s' => exists lf' lh',
    cells_ok (whole MAX_PHY_PAGE_HOLE) 4096 (2 ^ 45) 4096 (pp_pool (phy_pages s')) lf' lh' /\
    (forall x, covers lh' x <-> covers lh x \/ in_range addr (size - low) x) /\
    forall m, page_free (pp_src (phy_pages s')) m <->
      page_free (pp_src (phy_pages s)) m \/ (Z.to_nat n <= m < Z.to_nat n + Z.to_nat c)%nat).
Proof using Hok Hroom Hlim Ham Hzm Hne Ha Hz Hend Hno.
  destruct unaligned_parts as (Hlow & Hlm & Hc & Hn0 & Hn & Hcb & Hmod).
  pose proof (li_top _ Hlim) as Htop. change (max_phy_mem_addr (pp_src (phy_pages s))) with (mem_limit s) in Htop.
  unfold on_mem. cbn [on_mem_rec]. rewrite land_4k, Ham. cbn [Z.eqb negb].
  rewrite mask_4k, (round_4k_aligned size) by (done || lia).
  rewrite (proj2 (Z.eqb_neq size 0)), (proj2 (Z.ltb_ge size PAGE_SIZE_LARGE)) by lia.
  rewrite land_2m, (proj2 (Z.eqb_neq (addr mod PAGE_SIZE_LARGE) 0)) by done. cbn [negb]. fold low.
  rewrite (proj2 (Z.leb_gt size low)) by lia. wp_steps.
  assert (0 < addr + (size - low) < mem_limit s /\ mem_limit s < 2 ^ 64) as Hsum by lia.
  apply if_below_ok; [lia| |lia]. intros _. unfold free_small, on_phy, PhyPage.on_pool. apply wp_zoom, wp_zoom.
  destruct Hok as [Hlk Hco Hinv Hdis]. eapply wp_mono.
  { apply (free_phy_page_small_ok _ lf lh); try done; [lia|lia|change PAGE_4K_SIZE with 4096; by rewrite Zminus_mod, Hzm, Hlm|].
    intros x Hx Hcx. apply (Hno x); [unfold in_range in *; lia|by left]. }
  intros [] p (_ & lf' & lh' & Hco' & _ & Hcov & _). cbn beta. rewrite wrap64_small by lia.
  rewrite land_4k. assert ((addr + low) mod 4096 = 0) as -> by by rewrite Z.add_mod, Ham, Hlm.
  cbn [Z.eqb negb]. rewrite mask_4k, (round_4k_aligned (size - low)) by (lia || by rewrite Zminus_mod, Hzm, Hlm).
  rewrite (proj2 (Z.eqb_neq _ 0)), (proj2 (Z.ltb_ge _ PAGE_SIZE_LARGE)) by lia.
  rewrite land_2m, Hn, Z.mul_comm, Z.mod_mul by lia. cbn [Z.eqb negb]. fold c.
  rewrite (Z.mul_comm n), (Z.mul_comm c). wp_steps.
  rewrite <- (Z2Nat.id n), <- (Z2Nat.id c) by lia. unfold PhyPage.on_src. repeat apply wp_zoom.
  pose proof (li_map _ Hlim) as Hmap. pose proof (li_mem _ Hlim) as Hmem.
  change (max_phy_mem_addr (pp_src (phy_pages s))) with (mem_limit s) in *.
  eapply wp_mono; [apply free_phy_pages_spec; [exact Hinv|lia| |]; cbn|].
  { assert (PAGE_SIZE_LARGE * (n + c) <= PAGE_SIZE_LARGE * (64 * Z.of_nat (length (b_words (pg (pp_src (phy_pages s))))))) as Hle by lia.
    apply Z.mul_le_mono_pos_l in Hle; [|done]. lia. }
  { change (max_phy_mem_addr (pp_src (phy_pages s))) with (mem_limit s). rewrite Z2Nat.id by lia.
    assert (PAGE_SIZE_LARGE * n < mem_limit s) by lia. lia. }
  intros [] t (_ & _ & (_ & _ & Hfr) & Hf). rewrite !Z2Nat.id by lia.
  rewrite land_2m, Hmod, wrap64_small by lia. destruct (_ =? 0) eqn:Htail; wp_steps.
  - by exists lf', lh'.
  - apply if_below_ok; [lia| |].
    + intros Hlt. unfold mem_limit in Hlt at 1. cbn in Hlt. rewrite Hfr in Hlt.
      change (PAGE_SIZE_LARGE * n + PAGE_SIZE_LARGE * c + (size - low - PAGE_SIZE_LARGE * c) < mem_limit s) in Hlt. lia.
    + intros _. by exists lf', lh'.
Qed.
End unaligned.

(** A longer range of memory that does not start on a 2M page and ends
    with memory is given away twice: the 4K list is given [size] bytes less
    those up to the next 2M page, counted from the start of the range, and the
    bitmap the 2M pages behind that page's start.  The addresses that both own
    make the invariant of the 4K allocator false. *)
Theorem on_mem_owned_twice (s : mboot) lf lh (addr size : Z)
    (Hok : pp_ok (LP := phymem_large_pages) false (phy_pages s) lf lh) (Hroom : lf <> [])
    (Hlim : limits_ok (pp_src (phy_pages s)))
    (Hal : addr mod 4096 = 0 /\ size mod 4096 = 0 /\ addr mod PAGE_SIZE_LARGE <> 0)
    (Hrange : 4096 <= addr /\ 2 * PAGE_SIZE_LARGE <= size /\ addr + size = mem_limit s)
    (Hno : forall x, in_range addr size x -> ~ total (LP := phymem_large_pages) (phy_pages s) lh x) :
  let low := PAGE_SIZE_LARGE - addr mod PAGE_SIZE_LARGE in
  exists s' lf' lh', on_mem addr size s = Done (tt, s') /\
    cells_ok (whole MAX_PHY_PAGE_HOLE) 4096 (2 ^ 45) 4096 (pp_pool (phy_pages s')) lf' lh' /\
    (forall x, covers lh' x <-> covers lh x \/ in_range addr (size - low) x) /\
    (forall x, in_range (addr + low) (PAGE_SIZE_LARGE * ((size - low) / PAGE_SIZE_LARGE)) x ->
       exists p, page_addr_free (pp_src (phy_pages s')) p /\ in_range p PAGE_SIZE_LARGE x) /\
    ~ pp_inv (LP := phymem_large_pages) (phy_pages s').
Proof.
  destruct Hal as (Ham & Hzm & Hne). destruct Hrange as (Ha & Hz & Hend). intros low.
  destruct (unaligned_parts addr size Ham Hne Ha Hz) as (Hlow & _ & Hc & Hn0 & Hn & _). fold low in Hlow, Hc, Hn.
  pose proof (on_mem_unaligned s lf lh addr size Hok Hroom Hlim Ham Hzm Hne Ha Hz Hend Hno) as Hwp.
  apply wp_run in Hwp as ([] & s' & Hrun & lf' & lh' & Hco & Hcov & Hf). fold low in Hcov, Hf.
  assert (forall x, in_range (addr + low) (PAGE_SIZE_LARGE * ((size - low) / PAGE_SIZE_LARGE)) x ->
    exists p, page_addr_free (pp_src (phy_pages s')) p /\ in_range p PAGE_SIZE_LARGE x) as Hpages.
  { intros x Hx. apply (pages_union _ _ _ _ x Hf). right. rewrite !Z2Nat.id by lia. by rewrite <- Hn. }
  exists s', lf', lh'. do 4 (split; [done|]). intros (lf2 & lh2 & Hpp & _).
  assert (lh2 = lh') as ->.
  { eapply lseg_det; [apply (co_rep _ _ _ _ _ _ _ (ppo_cells _ _ _ _ Hpp))|apply (co_rep _ _ _ _ _ _ _ Hco)]. }
  assert (PAGE_SIZE_LARGE * 1 <= PAGE_SIZE_LARGE * ((size - low) / PAGE_SIZE_LARGE)) by (apply Z.mul_le_mono_nonneg_l; [done|lia]).
  destruct (Hpages (addr + low)) as (p & Hp & Hx); [unfold in_range; lia|].
  apply (ppo_dis _ _ _ _ Hpp (addr + low) p); [|exact Hp|exact Hx]. apply Hcov. right. unfold in_range. lia.
Qed.

(** The 240M behind a kernel that ends at 17M. *)
Lemma on_mem_owned_twice_witness :
  exists s' lf' lh', on_mem 0x1100000 0xef00000 (fresh_mboot 0x10000000 []) = Done (tt, s') /\
    cells_ok (whole MAX_PHY_PAGE_HOLE) 4096 (2 ^ 45) 4096 (pp_pool (phy_pages s')) lf' lh' /\
    covers lh' 0x1234567 /\ exists p, page_addr_free (pp_src (phy_pages s')) p /\ in_range p PAGE_SIZE_LARGE 0x1234567.
Proof.
  destruct (init_phy_mem_inv 0x10000000 0x10000000 0) as [Hinv Hfree]; [unfold PAGE_SIZE_LARGE; lia|].
  destruct (init_phy_page_ok (LP := phymem_large_pages) _ Hinv) as (lf & Hok & Hlen).
  destruct (fresh_owns 0x10000000 []) as [_ Hl]; [unfold PAGE_SIZE_LARGE; lia|].
  destruct (on_mem_owned_twice (fresh_mboot 0x10000000 []) lf [] 0x1100000 0xef00000)
    as (s' & lf' & lh' & Hrun & Hco & Hcov & Hp & _).
  - exact Hok.
  - intros ->. discriminate Hlen.
  - exact Hl.
  - vm_compute. intuition discriminate.
  - vm_compute. intuition discriminate.
  - intros x _ [Hc|(p & (n & _ & Hn) & _)]; [by apply covers_nil in Hc|by apply Hfree in Hn].
  - exists s', lf', lh'. split; [exact Hrun|]. split; [exact Hco|]. split.
    + apply Hcov. right. vm_compute. intuition discriminate.
    + apply Hp. vm_compute. intuition discriminate.
Defined.

(** The same machine hands out the 2M page at 18M, and then a block of the 4K
    list that contains it. *)
Example overlapping_blocks :
  exists s', (on_mem 0x1100000 0xef00000 ;;;
   p <- on_phy (PhyPage.on_src alloc_phy_page) ;;
   q <- on_phy (alloc_phy_page_small 0xee00000) ;; ret (p, q)) (fresh_mboot 0x10000000 []) =
  Done ((0x1200000, 0x1100000), s').
Proof. eexists. vm_compute. reflexivity. Qed.

(** A range that does not start on a 4K page stops the kernel: the small heap
    asserts that it is given whole pages. *)
Lemma on_mem_odd_start_panics s addr size : 0 <= addr < 2 ^ 45 -> addr mod 4096 <> 0 -> 4096 <= size ->
  on_mem addr size s = Panic.
Proof.
  intros Ha Hm Hz. unfold on_mem. cbn [on_mem_rec]. rewrite land_4k, (proj2 (Z.eqb_neq _ 0)) by done. cbn [negb].
  pose proof (Z.mod_pos_bound addr 4096). rewrite (proj2 (Z.leb_gt _ _)) by lia. unfold bind at 1. cbn [ret].
  unfold bind at 1, on_small_heap, zoom, free_kheap_small.
  assert (Z.land (P2K addr) 4095 = addr mod 4096) as Hl.
  { rewrite land_4k. unfold P2K, wrap64. change (2 ^ 64) with (4096 * 2 ^ 52).
    rewrite Z.mod_mod_divide by (exists (2 ^ 52); lia).
    change KERNEL_BASE with (4503599626846208 * 4096). by apply Z.mod_add. }
  rewrite Hl, (proj2 (Z.eqb_neq (addr mod 4096) 0)) by done. done.
Qed.

(** C13: Every byte of a noted range of I/O memory below 96G can be reached
    uncached at its address plus [IO_MEM_BASE] after [remap_iomem], the tables
    stay well formed, and nothing outside that window changes. *)
Theorem on_iomem_mapped (s : mboot) tab (addr size : Z)
    (Hok : mm_ok (tables s) tab)
    (Hcan : can_alloc (2 * (length (io_remap_pages s) + S (page_count size))) (frames (tables s)))
    (Hold : forall q, q ∈ io_remap_pages s -> 1 <= q <= IO_PAGES)
    (Hroom : (length (io_remap_pages s) + S (page_count size) <= MAX_IO_REMAPS)%nat)
    (Hrange : 0 < addr /\ 0 < size /\ addr + size <= IO_PAGES * PAGE_SIZE_LARGE) :
  exists s', (on_iomem addr size ;;; remap_iomem) s = Done (tt, s') /\ (exists tab', mm_ok (tables s') tab') /\
    (forall x, in_range addr size x -> mmu (ram (tables s')) (pml4 (tables s')) (IO2V x) = Some (x, io_flags)) /\
    (forall va, (forall p, 0 <= p < IO_PAGES -> ~ same_2m va (io_va p)) ->
      mmu (ram (tables s')) (pml4 (tables s')) va = mmu (ram (tables s)) (pml4 (tables s)) va).
Proof.
  destruct Hrange as (Ha & Hz & Hhi). assert (IO_PAGES * PAGE_SIZE_LARGE = 0x1800000000) as Hwin by done.
  enough (wp (on_iomem addr size ;;; remap_iomem) s (fun _ s' => (exists tab', mm_ok (tables s') tab') /\
    (forall x, in_range addr size x -> mmu (ram (tables s')) (pml4 (tables s')) (IO2V x) = Some (x, io_flags)) /\
    (forall va, (forall p, 0 <= p < IO_PAGES -> ~ same_2m va (io_va p)) ->
      mmu (ram (tables s')) (pml4 (tables s')) va = mmu (ram (tables s)) (pml4 (tables s)) va))) as Hwp.
  { apply wp_run in Hwp as ([] & s' & Hrun & Hrest). by exists s'. }
  wp_steps. eapply wp_mono; [apply (on_iomem_ok s addr size); try done; lia|].
  intros [] s1 (l & -> & Hlen & Hl). cbn beta. unfold remap_iomem. wp_steps. cbn [io_remap_pages set_io].
  eapply wp_mono; [apply (remap_list_ok (K := fun _ => True) l (set_io l s) tab Hok)|].
  - cbn. eapply can_after_weaken; [exact Hcan|lia].
  - intros q [Hq|Hq]%Hl; [by apply Hold|]. unfold touched, IO_PAGES, PAGE_SIZE_LARGE in *. lia.
  - intros [] s2 (Hok2 & _ & Hin & _ & Hout). split; [done|]. split; [|exact Hout]. intros x Hx. unfold in_range in Hx.
    unfold IO2V. rewrite wrap64_small by (unfold IO_MEM_BASE; lia).
    pose proof (Z.div_mod x PAGE_SIZE_LARGE ltac:(done)) as Hd. pose proof (Z.mod_pos_bound x PAGE_SIZE_LARGE ltac:(done)) as Hb.
    assert ((x / PAGE_SIZE_LARGE + 1) ∈ l) as Hq.
    { apply Hl. right. rewrite Z.add_simpl_r. unfold touched. lia. }
    specialize (Hin _ Hq). rewrite Z.add_simpl_r in Hin. rewrite Hin; [f_equal; f_equal; lia|].
    unfold in_range, io_va. lia.
Qed.

(** Registers of a device at 2M and 5M + 4K, with the memory of two pages left
    for tables. *)
Definition io_mboot : mboot :=
  MBoot [] [] 0 [] 0 (init_pool 0 MAX_HEAP_HOLE) (init_pool 0 MAX_SMALL_HOLE) boot_mm.

Lemma on_iomem_mapped_witness :
  exists s', (on_iomem 0x501000 0x2000 ;;; remap_iomem) io_mboot = Done (tt, s') /\
    mmu (ram (tables s')) (pml4 (tables s')) (IO2V 0x502abc) = Some (0x502abc, io_flags).
Proof.
  destruct (on_iomem_mapped io_mboot root_only 0x501000 0x2000) as (s' & Hrun & _ & Hin & _).
  - exact boot_mm_ok.
  - change (2 * (length (io_remap_pages io_mboot) + S (page_count 0x2000)))%nat with 4%nat.
    unfold can_alloc. cbn [can_after].
    do 4 (split; [done|]; eexists _, _; split; [vm_compute; reflexivity|]; split; [lia|]). done.
  - intros q Hq. by apply elem_of_nil in Hq.
  - vm_compute. lia.
  - unfold IO_PAGES, PAGE_SIZE_LARGE. lia.
  - exists s'. split; [exact Hrun|]. apply Hin. unfold in_range. lia.
Defined.

(** ** The whole map *)

(** The pieces of every entry, to the allocators or to the noted pages. *)
Fixpoint give_each (es : list (entry * list Z)) (pss : list (list (Z * Z))) : M mboot unit :=
  match es, pss with
  | e :: es', ps :: pss' => give_all (e_type e.1 =? 1) ps ;;; give_each es' pss'
  | _, _ => ret tt
  end.
Definition left_of (s : mboot) (e : entry * list Z) (ps : list (Z * Z)) : Prop := leaves s (e_addr e.1) (e_len e.1) ps.
Definition fits64 (e : entry * list Z) : Prop := entry_ok e /\ e_addr e.1 + e_len e.1 < 2 ^ 64.

Lemma e820_round_deal e v s : (e820_round e v) s =
  (deal_reserve (e_addr e) (e_len e) (e_type e =? 1) ;;; ret (if e_addr e <? v then e_addr e else v)) s.
Proof.
  unfold e820_round. pose proof (wrap64_range (e_addr e + e_len e)). rewrite (proj2 (Z.ltb_ge _ 0)) by lia.
  by rewrite andb_false_r.
Qed.

Lemma each_round_ok es : forall s v, reserves_ok s -> Forall fits64 es ->
  exists pss, Forall2 (left_of s) es pss /\ (each e820_round es v ;;; ret tt) s = give_each es pss s.
Proof.
  induction es as [|e es IH]; intros s v Hok Hes; [exists []; split; [constructor|done]|].
  apply list.Forall_cons in Hes as [[[_ Ha Hl _] Hfit] Hes].
  destruct (deal_rec_ok (e_type e.1 =? 1) (S MAX_REVERSE) (e_addr e.1) (e_len e.1) s Hok) as (ps & Hrun & Hlv); [lia..| |].
  { pose proof (rs_length s Hok). pose proof (filter_length (cuts_range (e_addr e.1) (e_len e.1)) (revmem s)). unfold to_cut. lia. }
  set (v' := if e_addr e.1 <? v then e_addr e.1 else v).
  assert (forall s', same_reserves s s' -> exists pss, Forall2 (left_of s) es pss /\
    (each e820_round es v' ;;; ret tt) s' = give_each es pss s') as Hrest.
  { intros s' Hs'. destruct (IH s' v') as (pss & Hp & Hr); [by eapply reserves_ok_same|done|].
    exists pss. split; [|done]. eapply list.Forall2_impl; [exact Hp|]. intros e' ps' Hlv'. eapply leaves_same; [by symmetry|exact Hlv']. }
  assert (forall pss, (each e820_round (e :: es) v ;;; ret tt) s =
    match give_all (e_type e.1 =? 1) ps s with
    | Done (_, s') => (each e820_round es v' ;;; ret tt) s'
    | Panic => Panic | Deadlock => Deadlock | Fault => Fault | OutOfFuel => OutOfFuel end /\
    give_each (e :: es) (ps :: pss) s =
    match give_all (e_type e.1 =? 1) ps s with
    | Done (_, s') => give_each es pss s'
    | Panic => Panic | Deadlock => Deadlock | Fault => Fault | OutOfFuel => OutOfFuel end) as Hstep.
  { intros pss. cbn [each give_each]. unfold bind. rewrite e820_round_deal. fold v'. unfold bind.
    unfold deal_reserve. rewrite Hrun. split; by destruct (give_all _ _ s) as [[[] ?]| | | |]. }
  pose proof (give_all_keeps (e_type e.1 =? 1) ps s tt) as Hkeep.
  destruct (give_all (e_type e.1 =? 1) ps s) as [[[] s']| | | |] eqn:Hg.
  1: destruct (Hrest s' (Hkeep s' eq_refl)) as (pss & Hp & Hr).
  2, 3, 4, 5: destruct (Hrest s ltac:(done)) as (pss & Hp & _).
  all: exists (ps :: pss); split; [by constructor|]; destruct (Hstep pss) as [-> ->]; done.
Qed.

Lemma bind_three {St B} (m1 m2 m3 : M St unit) (k : M St B) (s : St) :
  (m1 ;;; m2 ;;; m3 ;;; k) s = ((m1 ;;; m2 ;;; m3) ;;; k) s.
Proof. rewrite bind_assoc. apply bind_ext. intros [] s1 _. by rewrite bind_assoc. Qed.

Lemma encode_count es : Forall entry_ok es -> (length es <= S (length (es ≫= encode)))%nat.
Proof.
  induction 1 as [|e es He _ IH]; cbn [mbind list_bind length] in *; [lia|]. rewrite length_app.
  pose proof (length_encode e He). destruct (eo_size e He). lia.
Qed.

(** What [init_e820] notes before it reads the map. *)
Definition noted_first (kernel_start kernel_end : Z) (s : mboot) : mboot :=
  set_io [IOAPIC_BASE / PAGE_SIZE_LARGE + 1]
    (set_rev [(0, reserve_low_size); (kernel_start - KERNEL_BASE, kernel_end - kernel_start)] (kernel_end - KERNEL_BASE) s).

Lemma add_reserve_run a z s : (length (revmem s) < MAX_REVERSE)%nat ->
  add_reserve a z s = Done (tt, set_rev (revmem s ++ [(a, z)])
    (if max_reserve_addr s <? wrap64 (P2K a + z) then wrap64 (a + z) else max_reserve_addr s) s).
Proof. intros Hl. unfold add_reserve, bind, gets. by rewrite (proj2 (Nat.leb_gt _ _)). Qed.

Lemma e820_prologue ks ke s : KERNEL_BASE <= ks <= ke -> ke < 2 ^ 64 -> KERNEL_BASE + reserve_low_size < ke ->
  revmem s = [] -> max_reserve_addr s = 0 -> io_remap_pages s = [] ->
  (add_reserve 0 reserve_low_size ;;; add_reserve (K2P ks) (wrap64 (ke - ks)) ;;; add_map (IOAPIC_BASE / PAGE_SIZE_LARGE + 1)) s =
  Done (tt, noted_first ks ke s).
Proof.
  intros Hk He Hl Hr Hm Hi. assert (0 < KERNEL_BASE) as HK by done. unfold bind at 1.
  rewrite add_reserve_run by (rewrite Hr; cbn; unfold MAX_REVERSE; lia). rewrite Hr, Hm.
  change (P2K 0 + reserve_low_size) with (KERNEL_BASE + reserve_low_size). change (0 + reserve_low_size) with reserve_low_size.
  rewrite (wrap64_small (KERNEL_BASE + _)) by (unfold reserve_low_size in *; lia).
  rewrite (proj2 (Z.ltb_lt 0 _)) by (unfold reserve_low_size; lia). change (wrap64 reserve_low_size) with reserve_low_size.
  unfold bind at 1. rewrite add_reserve_run by (cbn; unfold MAX_REVERSE; lia). cbn [revmem set_rev app max_reserve_addr].
  assert (K2P ks = ks - KERNEL_BASE) as -> by (unfold K2P; apply wrap64_small; lia).
  rewrite (wrap64_small (ke - ks)) by lia.
  assert (P2K (ks - KERNEL_BASE) = ks) as -> by (unfold P2K; rewrite wrap64_small; lia).
  replace (ks + (ke - ks)) with ke by lia. rewrite (wrap64_small ke) by lia.
  rewrite (proj2 (Z.ltb_lt reserve_low_size ke)) by lia.
  replace (ks - KERNEL_BASE + (ke - ks)) with (ke - KERNEL_BASE) by lia. rewrite (wrap64_small (ke - _)) by lia.
  unfold add_map, bind, gets. cbn [io_remap_pages set_rev]. by rewrite Hi.
Qed.

(** C3: [init_e820] reserves the first 64K and the kernel image, and then, in
    the order of the map, gives what is left of every entry of type 1 to the
    allocators and notes the pages of what is left of the others. *)
Theorem init_e820_correct (s : mboot) (es : list (entry * list Z)) (kernel_start kernel_end : Z)
    (Hmap : pe820 s = (es ≫= encode) /\ e820map_size s = Z.of_nat (length (es ≫= encode)))
    (Hes : Forall fits64 es)
    (Hfirst : revmem s = [] /\ max_reserve_addr s = 0 /\ io_remap_pages s = [])
    (Hk : KERNEL_BASE <= kernel_start <= kernel_end /\ KERNEL_BASE + reserve_low_size < kernel_end /\ kernel_end < 2 ^ 64) :
  let s1 := noted_first kernel_start kernel_end s in
  exists pss, init_e820 kernel_start kernel_end s = give_each es pss s1 /\
    Forall2 (fun e ps => ascend (e_addr e.1) ps (e_addr e.1 + e_len e.1) /\
      forall x, in_some ps x <-> in_range (e_addr e.1) (e_len e.1) x /\ ~ in_some (revmem s1) x) es pss.
Proof.
  destruct Hmap as [Hb Hsz]. destruct Hfirst as (Hr & Hm & Hi). destruct Hk as (Hk & Hlow & Hke). intros s1.
  pose proof (e820_prologue kernel_start kernel_end s Hk Hke Hlow Hr Hm Hi) as Hpro.
  assert (reserves_ok s1) as Hok.
  { unfold s1, noted_first, reserve_low_size in *. split; cbn; [|unfold MAX_REVERSE; lia].
    assert (0 < KERNEL_BASE) by done.
    intros r [->|[->|Hr'%elem_of_nil]%elem_of_cons]%elem_of_cons; cbn; [lia|lia|done]. }
  destruct (each_round_ok es s1 (2 ^ 64 - 1) Hok Hes) as (pss & Hp & Hrun). exists pss. split.
  - rewrite <- Hrun. unfold init_e820. rewrite (bind_three _ _ _ _ s). unfold bind at 1. rewrite Hpro. fold s1.
    unfold bind, gets. change (pe820 s1) with (pe820 s). change (e820map_size s1) with (e820map_size s). rewrite Hb, Hsz.
    pose proof (for_entries_ok e820_round es [] [] (2 ^ 64 - 1) (entries_fuel (Z.of_nat (length (es ≫= encode)))) s1) as Hfor.
    rewrite app_nil_r in Hfor. change (Z.of_nat (length (@nil Z))) with 0 in Hfor. cbn [app] in Hfor. rewrite Hfor; [done| |].
    + eapply list.Forall_impl; [exact Hes|]. by intros e [].
    + unfold entries_fuel. rewrite Nat2Z.id. apply encode_count. eapply list.Forall_impl; [exact Hes|]. by intros e [].
  - eapply list.Forall2_impl; [exact Hp|]. intros e ps [Ha Hc]. by split.
Qed.

(** 256M of memory with the registers of a device above it. *)
Definition small_map : list (entry * list Z) :=
  [(Entry 20 0 0x9fc00 1, []); (Entry 24 0x100000 0xff00000 1, [0; 0; 0; 0]); (Entry 20 0xfd000000 0x1000000 2, [])].
Lemma small_map_ok : Forall fits64 small_map.
Proof. unfold small_map, fits64. repeat constructor; cbn; lia. Qed.

Lemma init_e820_correct_witness :
  exists pss, init_e820 0xffffffff81000000 0xffffffff81200000 (fresh_mboot 0x10000000 (small_map ≫= encode)) =
      give_each small_map pss (noted_first 0xffffffff81000000 0xffffffff81200000 (fresh_mboot 0x10000000 (small_map ≫= encode))) /\
    exists ps, pss !! 1%nat = Some ps /\ in_some ps 0x1200000 /\ ~ in_some ps 0x1100000.
Proof.
  destruct (init_e820_correct (fresh_mboot 0x10000000 (small_map ≫= encode)) small_map 0xffffffff81000000 0xffffffff81200000)
    as (pss & Hrun & Hp).
  - split; reflexivity.
  - exact small_map_ok.
  - split_and!; reflexivity.
  - unfold KERNEL_BASE, reserve_low_size. lia.
  - exists pss. split; [exact Hrun|].
    assert (small_map !! 1%nat = Some (Entry 24 0x100000 0xff00000 1, [0; 0; 0; 0])) as Hl by reflexivity.
    destruct (Forall2_lookup_l _ _ _ _ _ Hp Hl) as (ps & Hps & _ & Hin). exists ps. split; [exact Hps|].
    rewrite !Hin. cbn [e_addr e_len fst noted_first set_io set_rev revmem]. unfold KERNEL_BASE, reserve_low_size.
    rewrite !in_some_cons. unfold in_range. cbn [fst snd]. split.
    + split; [lia|]. intros [?|[?|?%in_some_nil]]; lia || done.
    + intros [_ Hn]. apply Hn. right. left. lia.
Defined.

(** [init_bootload] takes the highest end of all entries and the highest end
    of memory from the map. *)
Definition entry_end (e : entry * list Z) : Z := e_addr e.1 + e_len e.1.
Definition highest (l : list Z) : Z := foldr Z.max 0 l.
Definition is_ram (e : entry * list Z) : bool := e_type e.1 =? 1.

Lemma highest_app l x : 0 <= x -> highest (l ++ [x]) = Z.max (highest l) x.
Proof.
  intros Hx. unfold highest. induction l as [|y l IH]; cbn [app foldr]; [lia|]. rewrite IH. lia.
Qed.

Lemma widen_ok e v l r : fits64 e -> maxaddr v = highest l -> maxmemaddr v = highest r ->
  maxaddr (widen e.1 v) = highest (l ++ [entry_end e]) /\
  maxmemaddr (widen e.1 v) = highest (r ++ if is_ram e then [entry_end e] else []).
Proof.
  intros [[_ Ha Hl _] Hf] Hv Hr. unfold widen, entry_end, is_ram. cbn. rewrite wrap64_small by lia. rewrite Hv, Hr. split.
  - rewrite highest_app by lia. destruct (Z.ltb_spec (highest l) (e_addr e.1 + e_len e.1)); lia.
  - destruct (e_type e.1 =? 1); cbn [andb]; [|by rewrite app_nil_r]. rewrite highest_app by lia.
    destruct (Z.ltb_spec (highest r) (e_addr e.1 + e_len e.1)); lia.
Qed.

Lemma widen_each es : forall v s l r, Forall fits64 es -> maxaddr v = highest l -> maxmemaddr v = highest r ->
  exists v', each (fun e v => ret (widen e v)) es v s = Done (v', s) /\
    maxaddr v' = highest (l ++ map entry_end es) /\
    maxmemaddr v' = highest (r ++ map entry_end (List.filter is_ram es)).
Proof.
  induction es as [|e es IH]; intros v s l r Hes Hv Hr.
  { exists v. cbn. by rewrite !app_nil_r. }
  apply list.Forall_cons in Hes as [He Hes]. destruct (widen_ok e v l r He Hv Hr) as [Hv' Hr'].
  destruct (IH (widen e.1 v) s _ _ Hes Hv' Hr') as (v' & Hrun & H1 & H2). exists v'. split; [exact Hrun|].
  rewrite H1, H2, <- !app_assoc. split; [done|]. cbn [List.filter]. by destruct (is_ram e).
Qed.

Lemma init_bootload_ok (s s1 : mboot) (mbi : multiboot_info) (es : list (entry * list Z)) (post : list Z) (p : Z) :
  Forall fits64 es -> mmap_bytes mbi = (es ≫= encode) ++ post -> mmap_length mbi = Z.of_nat (length (es ≫= encode)) ->
  CHECK_FLAG (mb_flags mbi) 6 = true -> CHECK_FLAG (mb_flags mbi) 4 && CHECK_FLAG (mb_flags mbi) 5 = false ->
  on_heap (kalloc (mmap_length mbi)) (set_e820 [] 0 (set_io [] s)) = Done (p, s1) -> p <> 0 ->
  init_bootload mbi MULTIBOOT_BOOTLOADER_MAGIC s =
  Done (tt, set_limits (highest (map entry_end es)) (highest (map entry_end (List.filter is_ram es)))
    (set_e820 (es ≫= encode) (mmap_length mbi) s1)).
Proof.
  intros Hes Hb Hlen H6 H45 Hk Hp. unfold init_bootload. rewrite Z.eqb_refl. cbn [negb]. rewrite H45, H6.
  unfold bind at 1 2, modify. unfold bind at 1. rewrite Hk, (proj2 (Z.eqb_neq p 0)) by done.
  unfold bind at 1, ret at 1. unfold bind at 1. rewrite Hlen, Nat2Z.id, Hb, take_app_length.
  destruct (widen_each es (Extent (2 ^ 64 - 1) 0 0 0) (set_e820 (es ≫= encode) (Z.of_nat (length (es ≫= encode))) s1) [] [] Hes)
    as (v' & Hrun & H1 & H2); [done|done|].
  pose proof (for_entries_ok (fun e v => ret (widen e v)) es [] post (Extent (2 ^ 64 - 1) 0 0 0) (entries_fuel (Z.of_nat (length (es ≫= encode))))
    (set_e820 (es ≫= encode) (Z.of_nat (length (es ≫= encode))) s1)) as Hfor.
  change (Z.of_nat (length (@nil Z))) with 0 in Hfor. cbn [app] in Hfor. unfold bind at 1. rewrite Hfor; [|  |].
  - rewrite Hrun, H1, H2. done.
  - eapply list.Forall_impl; [exact Hes|]. by intros e [].
  - unfold entries_fuel. rewrite Nat2Z.id. apply encode_count. eapply list.Forall_impl; [exact Hes|]. by intros e [].
Qed.
