(* ===== verification/Acpi.v ===== *)
(** * Acpi: finding the processors (arch/x86_64/acpi.c, pm64.c, smp.c)

    [init_acpi] looks for the root pointer in low memory, walks the table it
    leads to and reads the processors from the MADT; [init_cpu] makes a per-CPU
    block for each.  Physical memory is a function from addresses to bytes; the
    tables are read through [P2K] and [IO2V], both linear.  Of a per-CPU block
    the model keeps what these functions read back; the descriptor tables and
    stacks [init_arch_cpu] and [init_percpu] set up are left out. *)
From Stdlib Require Import ZArith Lia.
From stdpp Require Import base tactics gmap list option.
From S2P Require Import Prelude Bytes Layout.
#[export] Set Warnings "-clear-no-such-hyp".

Definition MAX_CPUS : Z := 1024.
Definition TYPE_LAPIC : Z := 0.
Definition TYPE_IOAPIC : Z := 1.
Definition APIC_LAPIC_ENABLED : Z := 1.
Definition SIG_RDSP : list Z := [82; 83; 68; 32; 80; 84; 82; 32].
Definition SIG_MADT : list Z := [65; 80; 73; 67].
Definition SIZE_RDSP : Z := 36.
Definition SIZE_HEADER : Z := 36.
Definition SIZE_MADT : Z := 44.
Definition SIZE_LAPIC : Z := 8.
Definition SIZE_IOAPIC : Z := 12.

(** [struct cpu] at the start of a per-CPU block. *)
Record cpu := Cpu { apic_id : Z; percpu_base : Z; cpu_no : Z }.

(** [nr_cpu], [cpu_base], the blocks by base address, the blocks [kalloc] has
    left for [new_percpu], and the results of [acpi_config_smp]. *)
Record smp := Smp {
  nr_cpu : Z;
  cpu_base : gmap Z Z;
  blocks : gmap Z cpu;
  supply : list Z;
  ismp : bool;
  lapic_base : Z;
  ioapicid : Z
}.
Definition set_cpus (n : Z) (b : gmap Z Z) (s : smp) : smp :=
  Smp n b (blocks s) (supply s) (ismp s) (lapic_base s) (ioapicid s).
Definition set_block (a : Z) (c : cpu) (s : smp) : smp :=
  Smp (nr_cpu s) (cpu_base s) (<[a := c]> (blocks s)) (supply s) (ismp s) (lapic_base s) (ioapicid s).
Definition set_supply (l : list Z) (s : smp) : smp :=
  Smp (nr_cpu s) (cpu_base s) (blocks s) l (ismp s) (lapic_base s) (ioapicid s).
Definition set_ioapic (i : Z) (s : smp) : smp :=
  Smp (nr_cpu s) (cpu_base s) (blocks s) (supply s) (ismp s) (lapic_base s) i.
Definition set_lapic (a : Z) (s : smp) : smp :=
  Smp (nr_cpu s) (cpu_base s) (blocks s) (supply s) true a (ioapicid s).

Section acpi.
(** The bytes of physical memory, [__per_cpu_load] (the block of the processor
    that booted) and [cpuid_apic_id()] on that processor. *)
Context (mem : Z -> Z) (load : Z) (bp_id : Z).

Definition bytes_at (a : Z) (n : nat) : list Z := map (fun i => mem (a + Z.of_nat i)) (seq 0 n).
Definition u32_at (a : Z) : Z := le_word (bytes_at a 4).
Definition u16_at (a : Z) : Z := le_word (bytes_at a 2).
(** [memcmp(p, sig, n) == 0] *)
Definition same_bytes (a : Z) (sig : list Z) : bool := bool_decide (bytes_at a (length sig) = sig).

(** ** The tables *)
Definition rdsp_here (p : Z) : bool :=
  same_bytes p SIG_RDSP && (Z.land (foldl Z.add 0 (bytes_at p 20)) 0xff =? 0).
Fixpoint scan_rdsp_loop (fuel : nat) (p len : Z) : M smp (option Z) :=
  if SIZE_RDSP <=? len then
    match fuel with
    | O => out_of_fuel
    | S fuel' => if rdsp_here p then ret (Some p) else scan_rdsp_loop fuel' (p + 4) (len - 4)
    end
  else ret None.
Definition scan_rdsp (base len : Z) : M smp (option Z) := scan_rdsp_loop (Z.to_nat len) base len.

Definition find_rdsp : M smp (option Z) :=
  let pa := u16_at 0x40E * 16 in
  r <- (if negb (pa =? 0) then scan_rdsp pa 1024 else ret None) ;;
  match r with
  | Some p => ret (Some p)
  | None => scan_rdsp 0xE0000 0x20000
  end.

(** ** Per-CPU blocks *)

(** [cpu_base[i] = p]; the array has [MAX_CPUS] elements. *)
Definition store_base (i p : Z) : M smp unit :=
  if (0 <=? i) && (i <? MAX_CPUS) then modify (fun s => set_cpus (nr_cpu s) (<[i := p]> (cpu_base s)) s) else fault.
Definition load_cpu (base : Z) : M smp cpu := o <- gets (fun s => blocks s !! base) ;; deref_opt o.

(** [memcpy] comes before any test of the pointer. *)
Definition new_percpu : M smp Z :=
  l <- gets supply ;;
  match l with
  | [] => fault
  | p :: l' =>
      c <- load_cpu load ;;
      modify (fun s => set_supply l' (set_block p c s)) ;;; ret p
  end.

Definition init_cpu_bp : M smp unit :=
  modify (set_block load (Cpu bp_id load 0)) ;;; store_base 0 load.

Definition init_cpu (apicid : Z) : M smp unit :=
  pcpu <- load_cpu load ;;
  if apic_id pcpu =? apicid then
    modify (fun s => set_cpus (nr_cpu s + 1) (cpu_base s) s) ;;; init_cpu_bp
  else
    ptr <- new_percpu ;;
    (if MAX_CPUS <? apicid then panic else ret tt) ;;;
    (if ptr =? 0 then panic else ret tt) ;;;
    n <- gets nr_cpu ;;
    store_base n ptr ;;;
    modify (set_block ptr (Cpu apicid ptr n)) ;;;
    modify (fun s => set_cpus (n + 1) (cpu_base s) s).

(** [for (i = 0; i < nr_cpu; i++)]: the base of the block found. *)
Fixpoint find_cpu (n : nat) (i apicid : Z) : M smp (option Z) :=
  match n with
  | O => ret None
  | S n' =>
      base <- gets (fun s => default 0 (cpu_base s !! i)) ;;
      c <- load_cpu base ;;
      if apic_id c =? apicid then ret (Some base) else find_cpu n' (i + 1) apicid
  end.
Definition apic_id_to_cpu (apicid : Z) : M smp (option Z) :=
  n <- gets nr_cpu ;; find_cpu (Z.to_nat n) 0 apicid.

(** ** The MADT *)

(** The entry at [p] of [len] bytes, with the number of I/O APICs so far. *)
Definition madt_entry (p len nioapic : Z) : M smp Z :=
  if mem p =? TYPE_LAPIC then
    if len <? SIZE_LAPIC then ret nioapic
    else if Z.land (u32_at (p + 4)) APIC_LAPIC_ENABLED =? 0 then ret nioapic
    else init_cpu (mem (p + 3)) ;;; ret nioapic
  else if mem p =? TYPE_IOAPIC then
    if len <? SIZE_IOAPIC then ret nioapic
    else
      (if negb (nioapic =? 0) then ret tt else modify (set_ioapic (mem (p + 2)))) ;;;
      ret (nioapic + 1)
  else ret nioapic.

(** [while (p < e)] *)
Fixpoint madt_loop (fuel : nat) (p e nioapic : Z) : M smp unit :=
  if p <? e then
    match fuel with
    | O => out_of_fuel
    | S fuel' =>
        if e - p <? 2 then ret tt
        else
          let len := mem (p + 1) in
          if e - p <? len then ret tt
          else
            nioapic' <- madt_entry p len nioapic ;;
            madt_loop fuel' (p + len) e nioapic'
    end
  else ret tt.

(** [-1] is [2 ^ 32 - 1] read back as an [int]. *)
Definition acpi_config_smp (madt : option Z) : M smp Z :=
  match madt with
  | None => ret (-1)
  | Some a =>
      let length := u32_at (a + 4) in
      if length <? SIZE_MADT then ret (-1)
      else
        let lapic_addr := u32_at (a + 36) in
        let p := a + SIZE_MADT in
        let e := p + length - SIZE_MADT in
        madt_loop (Z.to_nat length) p e 0 ;;;
        n <- gets nr_cpu ;;
        if negb (n =? 0) then modify (set_lapic (IO2V lapic_addr)) ;;; ret 0 else ret (-1)
  end.

(** [for (n = 0; n < count; n++)]: the last table with the MADT's signature. *)
Fixpoint find_madt (n : nat) (p : Z) (madt : option Z) : option Z :=
  match n with
  | O => madt
  | S n' => let hdr := u32_at p in find_madt n' (p + 4) (if same_bytes hdr SIG_MADT then Some hdr else madt)
  end.

Definition init_acpi : M smp Z :=
  rdsp <- find_rdsp ;;
  match rdsp with
  | None => panic
  | Some p =>
      let rsdt := u32_at (p + 16) in
      let count := wrap32 (wrap64 (u32_at (rsdt + 4) - SIZE_HEADER) / 4) in
      acpi_config_smp (find_madt (Z.to_nat count) (rsdt + SIZE_HEADER) None)
  end.
End acpi.

(** ** Tables as lists of bytes *)
Section tables.
Context (mem : Z -> Z) (load : Z) (bp_id : Z).
Abbreviation bytes_at := (bytes_at mem).
Abbreviation u32_at := (u32_at mem).
Abbreviation init_cpu := (init_cpu load bp_id).
Abbreviation madt_loop := (madt_loop mem load bp_id).
Implicit Types s : smp.

(** Memory holds the bytes [l] from [a] on. *)
Definition holds_at (a : Z) (l : list Z) : Prop := bytes_at a (length l) = l.

Lemma bytes_at_app a n m : bytes_at a (n + m) = bytes_at a n ++ bytes_at (a + Z.of_nat n) m.
Proof.
  unfold Acpi.bytes_at. rewrite seq_app, map_app. f_equal. rewrite Nat.add_0_l.
  apply list_eq. intros i. change (@map nat Z) with (@fmap list list_fmap nat Z). rewrite !list_lookup_fmap.
  destruct (decide (i < m)%nat) as [Hi|Hi].
  - rewrite !lookup_seq_lt by done. cbn. do 2 f_equal. lia.
  - rewrite !lookup_seq_ge by lia. done.
Qed.

Lemma length_bytes_at a n : length (bytes_at a n) = n.
Proof. unfold Acpi.bytes_at. by rewrite length_map, length_seq. Qed.

Lemma holds_app a l1 l2 : holds_at a (l1 ++ l2) <-> holds_at a l1 /\ holds_at (a + Z.of_nat (length l1)) l2.
Proof.
  unfold holds_at. rewrite length_app, bytes_at_app. split; [|by intros [-> ->]].
  intros H. apply app_inj_1 in H; [done|]. apply length_bytes_at.
Qed.

Lemma holds_cons a b l : holds_at a (b :: l) <-> mem a = b /\ holds_at (a + 1) l.
Proof.
  change (b :: l) with ([b] ++ l). rewrite holds_app. unfold holds_at at 1, Acpi.bytes_at. cbn. rewrite Z.add_0_r.
  split; intros [H ?]; (split; [congruence|done]).
Qed.

Lemma holds_prefix a l n : holds_at a l -> (n <= length l)%nat -> bytes_at a n = take n l.
Proof.
  intros H Hn. rewrite <- (take_drop n l) in H. apply holds_app in H as [H _]. unfold holds_at in H.
  by rewrite length_take_le in H by done.
Qed.

Lemma holds_drop a l n : holds_at a l -> (n <= length l)%nat -> holds_at (a + Z.of_nat n) (drop n l).
Proof.
  intros H Hn. rewrite <- (take_drop n l) in H. apply holds_app in H as [_ H]. by rewrite length_take_le in H by done.
Qed.

(** ** Entries of the MADT *)

(** A type and what follows the length byte. *)
Definition mentry : Type := Z * list Z.
Definition enc (e : mentry) : list Z := e.1 :: 2 + Z.of_nat (length e.2) :: e.2.
Definition mentry_ok (e : mentry) : Prop := (length e.2 <= 253)%nat.

Inductive kind := Lapic (id : Z) | Ioapic (id : Z) | Other.
Definition kind_of (e : mentry) : kind :=
  if (e.1 =? TYPE_LAPIC) && (6 <=? length e.2)%nat && Z.odd (le_word (take 4 (drop 2 e.2))) then Lapic (nth 1 e.2 0)
  else if (e.1 =? TYPE_IOAPIC) && (10 <=? length e.2)%nat then Ioapic (nth 0 e.2 0)
  else Other.

Definition do_kind (k : kind) (nioapic : Z) : M smp Z :=
  match k with
  | Lapic id => init_cpu id ;;; ret nioapic
  | Ioapic id => (if nioapic =? 0 then modify (set_ioapic id) else ret tt) ;;; ret (nioapic + 1)
  | Other => ret nioapic
  end.
Fixpoint do_kinds (ks : list kind) (nioapic : Z) : M smp unit :=
  match ks with [] => ret tt | k :: ks' => n <- do_kind k nioapic ;; do_kinds ks' n end.

Lemma nth_byte a l i : holds_at a l -> (i < length l)%nat -> mem (a + Z.of_nat i) = nth i l 0.
Proof.
  revert a i. induction l as [|b l IH]; intros a [|i] Hl Hi; cbn in *; try lia; apply holds_cons in Hl as [Hb Hl].
  - by rewrite Z.add_0_r.
  - rewrite <- (IH (a + 1) i Hl) by lia. f_equal. lia.
Qed.

Lemma madt_entry_ok p e n s : mentry_ok e -> holds_at p (enc e) ->
  madt_entry mem load bp_id p (2 + Z.of_nat (length e.2)) n s = do_kind (kind_of e) n s.
Proof.
  destruct e as [t l]. unfold mentry_ok, enc, kind_of. cbn [fst snd]. intros Hok [Ht [Hlen Hl]%holds_cons]%holds_cons.
  replace (p + 1 + 1) with (p + 2) in Hl by lia. unfold madt_entry. rewrite Ht.
  unfold SIZE_LAPIC, SIZE_IOAPIC, TYPE_LAPIC, TYPE_IOAPIC.
  destruct (Z.eqb_spec t 0) as [->|Ht0]; cbn [andb].
  - change (0 =? 1) with false. cbn [andb].
    destruct (Nat.leb_spec 6 (length l)) as [Hn|Hn]; [rewrite (proj2 (Z.ltb_ge _ 8)) by lia|by rewrite (proj2 (Z.ltb_lt _ 8)) by lia].
    assert (u32_at (p + 4) = le_word (take 4 (drop 2 l))) as ->.
    { unfold Acpi.u32_at. pose proof (holds_drop _ _ 2 Hl ltac:(lia)) as Hd. change (Z.of_nat 2) with 2 in Hd.
      replace (p + 2 + 2) with (p + 4) in Hd by lia. rewrite (holds_prefix _ _ 4 Hd); [done|]. rewrite length_drop. lia. }
    pose proof (nth_byte (p + 2) l 1 Hl ltac:(lia)) as Hb. change (Z.of_nat 1) with 1 in Hb.
    replace (p + 2 + 1) with (p + 3) in Hb by lia. rewrite Hb. unfold APIC_LAPIC_ENABLED.
    change 1 with (Z.ones 1) at 1. rewrite Z.land_ones by lia. change (2 ^ 1) with 2. rewrite Zmod_odd.
    by destruct (Z.odd _).
  - destruct (Z.eqb_spec t 1) as [->|Ht1]; cbn [andb]; [|done].
    destruct (Nat.leb_spec 10 (length l)) as [Hn|Hn]; [rewrite (proj2 (Z.ltb_ge _ 12)) by lia|by rewrite (proj2 (Z.ltb_lt _ 12)) by lia].
    pose proof (nth_byte (p + 2) l 0 Hl ltac:(lia)) as Hb. rewrite Z.add_0_r in Hb. rewrite Hb. cbn [do_kind].
    by destruct (n =? 0).
Qed.

(** The loop takes the entries one after the other; a last piece that is no
    whole entry is left alone. *)
Lemma madt_loop_ok es : forall p e n s fuel, Forall mentry_ok es -> holds_at p (es ≫= enc) ->
  e = p + Z.of_nat (length (es ≫= enc)) -> (length es < fuel)%nat ->
  madt_loop fuel p e n s = do_kinds (kind_of <$> es) n s.
Proof.
  induction es as [|[t l] es IH]; intros p e n s fuel Hok Hh He Hf; cbn [mbind list_bind fmap list_fmap do_kinds] in *.
  - cbn in He. rewrite Z.add_0_r in He. subst. destruct fuel; cbn [Acpi.madt_loop]; by rewrite Z.ltb_irrefl.
  - apply list.Forall_cons in Hok as [Hok Hoks]. apply holds_app in Hh as [Hh1 Hh2].
    destruct fuel as [|fuel]; [cbn in Hf; lia|]. cbn [Acpi.madt_loop].
    pose proof Hh1 as [_ [Hlen _]%holds_cons]%holds_cons. rewrite length_app in He. cbn [enc length fst snd] in He, Hh2, Hlen.
    rewrite (proj2 (Z.ltb_lt p e)), (proj2 (Z.ltb_ge _ 2)) by lia. rewrite Hlen, (proj2 (Z.ltb_ge (e - p) _)) by lia.
    pose proof (madt_entry_ok p (t, l) n s Hok Hh1) as Hrun. cbn [snd] in Hrun. unfold bind. rewrite Hrun.
    destruct (do_kind (kind_of (t, l)) n s) as [[n' s']| | | |]; try done.
    apply IH; [done| |lia|cbn in Hf; lia]. by replace (p + (2 + Z.of_nat (length l))) with (p + Z.of_nat (S (S (length l)))) by lia.
Qed.
End tables.

(** ** The processors found *)
Section processors.
Context (load : Z) (bp_id : Z).
Implicit Types s : smp.

(** Processor [i] is the one with the [i]-th id of [ids], in a block of its
    own; the first has the block at [load]. *)
Record cpus_ok (ids : list Z) s : Prop := {
  co_count : nr_cpu s = Z.of_nat (length ids);
  co_first : ids !! 0%nat = Some bp_id /\ cpu_base s !! 0 = Some load;
  co_each i id : ids !! i = Some id ->
    exists base, cpu_base s !! Z.of_nat i = Some base /\ blocks s !! base = Some (Cpu id base (Z.of_nat i));
  co_supply : NoDup (supply s) /\ (0 ∉ supply s);
  co_fresh i base : cpu_base s !! i = Some base -> base ∉ supply s
}.

Lemma cpus_ok_same ids s s' : nr_cpu s' = nr_cpu s -> cpu_base s' = cpu_base s -> blocks s' = blocks s ->
  supply s' = supply s -> cpus_ok ids s -> cpus_ok ids s'.
Proof. intros H1 H2 H3 H4 [? ? ? ? ?]. split; rewrite ?H1, ?H2, ?H3, ?H4; done. Qed.

(** What a new processor leaves alone. *)
Definition same_rest s s' : Prop := lapic_base s' = lapic_base s /\ ioapicid s' = ioapicid s /\ ismp s' = ismp s.

(** Before the MADT is read: [cpu_base] has its initialiser, and the boot
    processor's block has its APIC id (0 in the image). *)
Record smp_fresh s : Prop := {
  sf_count : nr_cpu s = 0;
  sf_base : cpu_base s = {[0 := load]};
  sf_block : exists c, blocks s !! load = Some c /\ apic_id c = bp_id;
  sf_supply : NoDup (load :: supply s) /\ (0 ∉ supply s)
}.

Lemma init_cpu_first s : smp_fresh s ->
  wp (init_cpu load bp_id bp_id) s (fun _ s' => cpus_ok [bp_id] s' /\ supply s' = supply s /\ same_rest s s').
Proof.
  intros [Hn Hc (c & Hb & Hid) [[Hl Hnd]%list.NoDup_cons H0]]. unfold init_cpu, load_cpu, init_cpu_bp, store_base. wp_steps.
  eapply wp_deref_opt; [exact Hb|]. rewrite Hid, Z.eqb_refl. wp_steps. split; [|done]. split; cbn.
  - by rewrite Hn.
  - split; [done|]. by rewrite lookup_insert_eq.
  - intros [|i] id Hi; [|by destruct i]. injection Hi as <-. exists load. rewrite !lookup_insert_eq. done.
  - done.
  - intros i base. rewrite Hc. intros [[_ <-]|[_ Hi]]%lookup_insert_Some; [done|]. by apply lookup_singleton_Some in Hi as [_ <-].
Qed.

Lemma init_cpu_next ids id p l s : cpus_ok ids s -> id ∉ ids -> 0 <= id <= MAX_CPUS ->
  Z.of_nat (length ids) < MAX_CPUS -> supply s = p :: l ->
  wp (init_cpu load bp_id id) s (fun _ s' => cpus_ok (ids ++ [id]) s' /\ supply s' = l /\ same_rest s s').
Proof.
  intros [Hcnt [Hf1 Hf2] Heach [Hnd H0] Hfr] Hid Hr Hlen Hs.
  destruct (Heach 0%nat bp_id Hf1) as (base0 & Hb0 & Hbl0). change (Z.of_nat 0) with 0 in Hb0. assert (base0 = load) as -> by congruence.
  assert (id <> bp_id) as Hne by (intros ->; apply Hid, list_elem_of_lookup; by exists 0%nat).
  rewrite Hs in *. apply list.NoDup_cons in Hnd as [Hpl Hnd]. apply not_elem_of_cons in H0 as [Hp0 H0].
  unfold init_cpu, load_cpu, new_percpu, store_base. wp_steps. eapply wp_deref_opt; [exact Hbl0|]. cbn [apic_id].
  rewrite (proj2 (Z.eqb_neq bp_id id)) by congruence. wp_steps. rewrite Hs. unfold load_cpu. wp_steps.
  eapply wp_deref_opt; [exact Hbl0|]. wp_steps. rewrite (proj2 (Z.ltb_ge MAX_CPUS id)) by lia. wp_steps.
  rewrite (proj2 (Z.eqb_neq p 0)) by congruence. wp_steps. cbn [nr_cpu set_supply set_block].
  rewrite Hcnt, (proj2 (Z.leb_le 0 _)), (proj2 (Z.ltb_lt _ MAX_CPUS)) by lia. cbn [andb]. wp_steps. split; [|done].
  assert (forall i b, cpu_base s !! i = Some b -> b <> p) as Hnp.
  { intros i b Hb ->. apply (Hfr i p Hb). by left. }
  split; cbn.
  - rewrite length_app. cbn. lia.
  - split; [by apply lookup_app_l_Some|]. rewrite lookup_insert_ne; [done|]. destruct ids; [done|cbn; lia].
  - intros i id' [Hi|[Hge Hi]]%lookup_app_Some.
    + destruct (Heach i id' Hi) as (b & Hb & Hbl). exists b. pose proof (lookup_lt_Some _ _ _ Hi).
      rewrite !lookup_insert_ne; [done| | |lia]; apply not_eq_sym; by eapply Hnp.
    + destruct (i - length ids)%nat as [|k] eqn:Hk; [|by destruct k]. injection Hi as <-.
      replace i with (length ids) by lia. exists p. by rewrite !lookup_insert_eq.
  - done.
  - intros i b [[_ <-]|[_ Hb]]%lookup_insert_Some; [done|]. pose proof (Hfr i b Hb) as Hn.
    apply not_elem_of_cons in Hn as [_ Hn]. exact Hn.
Qed.

(** The ids of the processors and the first I/O APIC of a list of entries. *)
Fixpoint lapic_ids (ks : list kind) : list Z :=
  match ks with [] => [] | Lapic id :: ks' => id :: lapic_ids ks' | _ :: ks' => lapic_ids ks' end.
Fixpoint first_ioapic (ks : list kind) (d : Z) : Z :=
  match ks with [] => d | Ioapic id :: _ => id | _ :: ks' => first_ioapic ks' d end.

Lemma do_kinds_ok ks : forall ids n s, cpus_ok ids s -> 0 <= n -> NoDup (ids ++ lapic_ids ks) ->
  (forall id, id ∈ lapic_ids ks -> 0 <= id <= MAX_CPUS) -> Z.of_nat (length (ids ++ lapic_ids ks)) <= MAX_CPUS ->
  (length (lapic_ids ks) <= length (supply s))%nat ->
  wp (do_kinds load bp_id ks n) s (fun _ s' => cpus_ok (ids ++ lapic_ids ks) s' /\
    ioapicid s' = (if n =? 0 then first_ioapic ks (ioapicid s) else ioapicid s)).
Proof.
  induction ks as [|[id|id|] ks IH]; intros ids n s Hok Hn Hnd Hr Hlen Hsup; cbn [do_kinds do_kind lapic_ids first_ioapic] in *.
  - wp_steps. rewrite app_nil_r. by destruct (n =? 0).
  - destruct (supply s) as [|p l] eqn:Hs; [cbn in Hsup; lia|]. cbn in Hsup. rewrite length_app in Hlen. cbn in Hlen.
    wp_steps. eapply wp_mono.
    { apply (init_cpu_next ids id p l s Hok); [|apply Hr; by left|lia|done].
      apply list.NoDup_app in Hnd as (_ & Hd & _). intros Hin. apply (Hd id Hin). by left. }
    intros [] s1 (Hok1 & Hs1 & Hl1 & Hi1 & _). wp_steps. rewrite cons_middle, app_assoc in Hnd |- *.
    eapply wp_mono; [apply (IH (ids ++ [id]) n s1 Hok1 Hn Hnd)|].
    + intros id' Hid'. apply Hr. by right.
    + rewrite !length_app. cbn. lia.
    + rewrite Hs1. lia.
    + intros [] s2 [Hok2 Hio]. by rewrite Hi1 in Hio.
  - destruct (Z.eqb_spec n 0) as [->|Hn0]; wp_steps.
    + eapply wp_mono; [apply (IH ids 1 (set_ioapic id s)); try done; by apply (cpus_ok_same ids s)|]. intros [] s2 [Hok2 Hio]. done.
    + eapply wp_mono; [apply (IH ids (n + 1) s); try done; lia|]. intros [] s2 [Hok2 Hio].
      split; [done|]. by rewrite (proj2 (Z.eqb_neq (n + 1) 0)) in Hio by lia.
  - wp_steps. by apply IH.
Qed.

Lemma find_cpu_ok ids s n : forall i k id, cpus_ok ids s -> NoDup ids -> (i + n = length ids)%nat -> ids !! k = Some id -> (i <= k)%nat ->
  exists base, find_cpu n (Z.of_nat i) id s = Done (Some base, s) /\ cpu_base s !! Z.of_nat k = Some base /\
    blocks s !! base = Some (Cpu id base (Z.of_nat k)).
Proof.
  induction n as [|n IH]; intros i k id Hok Hnd Hi Hk Hik; [pose proof (lookup_lt_Some _ _ _ Hk); lia|].
  cbn [find_cpu]. destruct (lookup_lt_is_Some_2 ids i ltac:(lia)) as [id' Hid'].
  destruct (co_each ids s Hok i id' Hid') as (base & Hb & Hbl). unfold load_cpu, bind, gets, deref_opt. rewrite Hb. cbn [from_option Datatypes.id].
  rewrite Hbl. cbn [apic_id ret]. destruct (Z.eqb_spec id' id) as [->|Hne].
  - assert (i = k) as -> by (by eapply NoDup_lookup). by exists base.
  - destruct (decide (i = k)) as [->|]; [congruence|]. replace (Z.of_nat i + 1) with (Z.of_nat (S i)) by lia.
    apply IH; [done|done|lia|done|lia].
Qed.

(** From the start, the boot processor listed before the others. *)
Lemma do_kinds_start ks aps : forall n s, smp_fresh s -> 0 <= n -> lapic_ids ks = bp_id :: aps -> NoDup (bp_id :: aps) ->
  Forall (fun id => 0 <= id <= MAX_CPUS) aps -> Z.of_nat (length (bp_id :: aps)) <= MAX_CPUS ->
  (length aps <= length (supply s))%nat ->
  wp (do_kinds load bp_id ks n) s (fun _ s' => cpus_ok (bp_id :: aps) s' /\
    ioapicid s' = (if n =? 0 then first_ioapic ks (ioapicid s) else ioapicid s)).
Proof.
  induction ks as [|[id|id|] ks IH]; intros n s Hs Hn Hids Hnd Hr Hlen Hsup; cbn [do_kinds do_kind lapic_ids first_ioapic] in *; try done.
  - injection Hids as -> <-. wp_steps. eapply wp_mono; [by apply init_cpu_first|].
    intros [] s1 (Hok & Hs1 & _ & Hi & _). wp_steps. eapply wp_mono; [apply (do_kinds_ok ks [bp_id] n s1 Hok Hn)|].
    + done.
    + by apply list.Forall_forall.
    + done.
    + by rewrite Hs1.
    + intros [] s2 [Hok2 Hio]. by rewrite Hi in Hio.
  - destruct (Z.eqb_spec n 0) as [->|Hn0]; wp_steps.
    + eapply wp_mono; [apply (IH 1 (set_ioapic id s)); try done; by destruct Hs|]. intros [] s2 [Hok2 Hio]. done.
    + eapply wp_mono; [apply (IH (n + 1) s); try done; lia|]. intros [] s2 [Hok2 Hio].
      split; [done|]. by rewrite (proj2 (Z.eqb_neq (n + 1) 0)) in Hio by lia.
  - wp_steps. by apply IH.
Qed.
End processors.

(** ** The MADT read *)

(** The table at [a] with the entries [es] and the local APICs at [lapic]. *)
Record madt_at (mem : Z -> Z) (a lapic : Z) (es : list mentry) : Prop := {
  ma_length : u32_at mem (a + 4) = SIZE_MADT + Z.of_nat (length (es ≫= enc));
  ma_lapic : u32_at mem (a + 36) = lapic;
  ma_holds : holds_at mem (a + SIZE_MADT) (es ≫= enc);
  ma_entries : Forall (fun e => mentry_ok e /\ Forall is_byte e.2) es
}.

Lemma distinct_bytes l : NoDup l -> Forall is_byte l -> (length l <= 256)%nat.
Proof.
  intros Hnd Hl. change 256%nat with (length (seqZ 0 256)). apply submseteq_length, NoDup_submseteq; [done|].
  intros x Hx. apply elem_of_seqZ. rewrite list.Forall_forall in Hl. specialize (Hl x Hx). unfold is_byte in Hl. lia.
Qed.

Lemma length_entries es : (length es <= length (es ≫= enc))%nat.
Proof. induction es as [|e es IH]; cbn; [done|]. rewrite length_app. cbn in *. lia. Qed.

Lemma lapic_ids_bytes es : Forall (fun e => mentry_ok e /\ Forall is_byte e.2) es -> Forall is_byte (lapic_ids (kind_of <$> es)).
Proof.
  induction 1 as [|[t l] es [_ Hl] _ IH]; cbn; [done|]. unfold kind_of at 1. cbn [fst snd] in *.
  destruct (_ && _ && _); cbn; [|by destruct (_ && _)]. apply list.Forall_cons. split; [|done].
  destruct (nth_in_or_default 1 l 0) as [Hin| ->]; [|done]. rewrite list.Forall_forall in Hl. by apply Hl, list_elem_of_In.
Qed.

(** C28: [acpi_config_smp] on a MADT whose enabled local APICs are the boot
    processor first and then any other distinct ids, with enough memory for
    their blocks: it returns 0, [nr_cpu] is their number, [lapic_base] is the
    mapped address of the table's local APICs, [ioapicid] that of the first I/O
    APIC listed, and [apic_id_to_cpu] finds for the [k]-th id the block of
    processor [k], which holds that id and that number.  Entries of other types
    and entries too short for theirs are skipped. *)
Theorem acpi_config_smp_correct mem load bp_id a lapic es aps s :
  madt_at mem a lapic es -> smp_fresh load bp_id s -> lapic_ids (kind_of <$> es) = bp_id :: aps ->
  NoDup (bp_id :: aps) -> (length aps <= length (supply s))%nat ->
  wp (acpi_config_smp mem load bp_id (Some a)) s (fun r s' => r = 0 /\
    nr_cpu s' = Z.of_nat (length (bp_id :: aps)) /\ ismp s' = true /\ lapic_base s' = IO2V lapic /\
    ioapicid s' = first_ioapic (kind_of <$> es) (ioapicid s) /\
    forall k id, (bp_id :: aps) !! k = Some id -> exists base,
      apic_id_to_cpu id s' = Done (Some base, s') /\ cpu_base s' !! Z.of_nat k = Some base /\
      blocks s' !! base = Some (Cpu id base (Z.of_nat k))).
Proof.
  intros [Hl Hla Hh Hes] Hs Hids Hnd Hsup. pose proof (lapic_ids_bytes es Hes) as Hb. rewrite Hids in Hb.
  pose proof (distinct_bytes _ Hnd Hb) as Hlen. pose proof (length_entries es) as Hn.
  unfold acpi_config_smp. rewrite Hl, Hla, (proj2 (Z.ltb_ge _ SIZE_MADT)) by lia. apply wp_bind.
  assert (Forall mentry_ok es) as Hok by (eapply list.Forall_impl; [exact Hes|by intros ? []]).
  unfold wp at 1. rewrite (madt_loop_ok mem load bp_id es _ _ 0 s _ Hok Hh); [|lia|unfold SIZE_MADT; lia].
  eapply wp_mono.
  { apply (do_kinds_start load bp_id _ aps 0 s Hs); try done.
    - apply list.Forall_cons in Hb as [_ Hb]. eapply list.Forall_impl; [exact Hb|]. unfold is_byte, MAX_CPUS. lia.
    - unfold MAX_CPUS. cbn in *. lia. }
  intros [] s1 [Hok1 Hio]. wp_steps. rewrite (co_count _ _ _ _ Hok1). cbn [length]. rewrite (proj2 (Z.eqb_neq _ 0)) by lia. cbn [negb].
  wp_steps. split; [done|]. split; [apply (co_count _ _ _ _ Hok1)|]. do 3 (split; [done|]). intros k id Hk.
  assert (cpus_ok load bp_id (bp_id :: aps) (set_lapic (IO2V lapic) s1)) as Hok2 by (by apply (cpus_ok_same load bp_id _ s1)).
  unfold apic_id_to_cpu, bind, gets. rewrite (co_count _ _ _ _ Hok2), Nat2Z.id.
  apply (find_cpu_ok load bp_id _ _ _ 0 k id Hok2 Hnd); [done|done|lia].
Qed.

(** ** The search for the root pointer *)

Lemma scan_rdsp_loop_ok mem fuel : forall p len (s : smp), (Z.to_nat len <= fuel)%nat ->
  exists r, scan_rdsp_loop mem fuel p len s = Done (r, s) /\ match r with
    | Some q => exists k, 0 <= k /\ q = p + 4 * k /\ SIZE_RDSP <= len - 4 * k /\ rdsp_here mem q = true /\
        forall j, 0 <= j < k -> rdsp_here mem (p + 4 * j) = false
    | None => forall k, 0 <= k -> SIZE_RDSP <= len - 4 * k -> rdsp_here mem (p + 4 * k) = false
    end.
Proof.
  induction fuel as [|fuel IH]; intros p len s Hf; cbn [scan_rdsp_loop]; destruct (Z.leb_spec SIZE_RDSP len) as [Hl|Hl]; try (unfold SIZE_RDSP in *; lia).
  1, 3: exists None; split; [done|]; lia.
  destruct (rdsp_here mem p) eqn:Hp.
  - exists (Some p). split; [done|]. exists 0. do 4 (split; [done || lia|]). lia.
  - destruct (IH (p + 4) (len - 4) s) as (r & Hr & HQ); [unfold SIZE_RDSP in *; lia|]. exists r. split; [exact Hr|].
    destruct r as [q|].
    + destruct HQ as (k & Hk & -> & Hlen & Hq & Hj). exists (k + 1). split; [lia|]. split; [lia|]. split; [lia|]. split; [done|].
      intros j Hjk. destruct (decide (j = 0)) as [->|]; [by rewrite Z.mul_0_r, Z.add_0_r|].
      replace (p + 4 * j) with (p + 4 + 4 * (j - 1)) by lia. apply Hj. lia.
    + intros k Hk Hlen. destruct (decide (k = 0)) as [->|]; [by rewrite Z.mul_0_r, Z.add_0_r|].
      replace (p + 4 * k) with (p + 4 + 4 * (k - 1)) by lia. apply HQ; lia.
Qed.

(** [scan_rdsp] always ends, and its result is the first multiple of four
    bytes past [base] where the signature and the checksum are right and a
    whole [struct acpi_rdsp] still lies in the [len] bytes; without one it
    reports none. *)
Theorem scan_rdsp_correct mem base len (s : smp) :
  exists r, scan_rdsp mem base len s = Done (r, s) /\ match r with
    | Some q => exists k, 0 <= k /\ q = base + 4 * k /\ SIZE_RDSP <= len - 4 * k /\ rdsp_here mem q = true /\
        forall j, 0 <= j < k -> rdsp_here mem (base + 4 * j) = false
    | None => forall k, 0 <= k -> SIZE_RDSP <= len - 4 * k -> rdsp_here mem (base + 4 * k) = false
    end.
Proof. by apply scan_rdsp_loop_ok. Qed.

(** An entry of length zero stops the walk of the MADT for good: with at
    least two bytes left, no number of iterations is enough. *)
Theorem madt_zero_length_spins mem load bp_id p e n fuel s :
  2 <= e - p -> mem (p + 1) = 0 -> madt_loop mem load bp_id fuel p e n s = OutOfFuel.
Proof.
  intros He Hz. induction fuel as [|fuel IH]; cbn [madt_loop]; rewrite (proj2 (Z.ltb_lt p e)) by lia; [done|].
  rewrite (proj2 (Z.ltb_ge _ 2)), Hz, (proj2 (Z.ltb_ge _ 0)) by lia. cbn [Z.ltb].
  assert (madt_entry mem load bp_id p 0 n s = Done (n, s)) as Hent.
  { unfold madt_entry. by destruct (mem p =? TYPE_LAPIC), (mem p =? TYPE_IOAPIC). }
  unfold bind. by rewrite Hent, Z.add_0_r.
Qed.

(** ** A machine *)

(** Physical memory with the bytes [l] at 4096 and zeros elsewhere. *)
Definition mem_of (l : list Z) (a : Z) : Z := if a <? 4096 then 0 else nth (Z.to_nat (a - 4096)) l 0.
Definition lapic_entry (id : Z) : mentry := (TYPE_LAPIC, [0; id; 1; 0; 0; 0]).
Definition ioapic_entry (id : Z) : mentry := (TYPE_IOAPIC, [id; 0; 0; 0; 192; 254; 0; 0; 0; 0]).
Definition madt_bytes (es : list mentry) : list Z :=
  SIG_MADT ++ to_le 4 (SIZE_MADT + Z.of_nat (length (es ≫= enc))) ++ repeat 0 28 ++ to_le 4 0xFEE00000 ++ repeat 0 4 ++ (es ≫= enc).
Definition smp0 : smp := Smp 0 {[0 := 0x200000]} {[0x200000 := Cpu 0 0 0]} [0x900000; 0xA00000] false 0 0.
Definition three_entries : list mentry := [lapic_entry 0; ioapic_entry 7; lapic_entry 3; (TYPE_LAPIC, [0; 9; 0; 0; 0; 0])].

Lemma acpi_config_smp_correct_witness :
  wp (acpi_config_smp (mem_of (madt_bytes three_entries)) 0x200000 0 (Some 4096)) smp0 (fun r s' => r = 0 /\
    nr_cpu s' = 2 /\ ismp s' = true /\ lapic_base s' = IO2V 0xFEE00000 /\
    ioapicid s' = 7 /\
    forall k id, [0; 3] !! k = Some id -> exists base,
      apic_id_to_cpu id s' = Done (Some base, s') /\ cpu_base s' !! Z.of_nat k = Some base /\
      blocks s' !! base = Some (Cpu id base (Z.of_nat k))).
Proof.
  apply (acpi_config_smp_correct _ _ _ 4096 0xFEE00000 three_entries [3]).
  - split; [reflexivity|reflexivity|vm_compute; reflexivity|].
    repeat (apply list.Forall_cons; split; [split; [unfold mentry_ok; cbn; lia|cbn; unfold is_byte; repeat (apply list.Forall_cons; split; [lia|]); constructor]|]).
    constructor.
  - split; [reflexivity|reflexivity|by exists (Cpu 0 0 0)|]. split; apply (bool_decide_unpack _); vm_compute; exact I.
  - reflexivity.
  - apply (bool_decide_unpack _); vm_compute; exact I.
  - cbn. lia.
Defined.

Lemma madt_zero_length_spins_witness :
  madt_loop (mem_of [5; 0; 0; 0]) 0x200000 0 100 4096 4100 0 smp0 = OutOfFuel.
Proof. apply madt_zero_length_spins; [lia|reflexivity]. Defined.

(** The boot processor listed second: its entry overwrites [cpu_base[0]] and
    leaves [cpu_base[1]] empty, so the other processor's block is lost and a
    search for it reads through a null pointer. *)
Example boot_processor_second :
  match acpi_config_smp (mem_of (madt_bytes [lapic_entry 3; lapic_entry 0])) 0x200000 0 (Some 4096) smp0 with
  | Done (r, s') => r = 0 /\ nr_cpu s' = 2 /\ cpu_base s' !! 0 = Some 0x200000 /\ cpu_base s' !! 1 = None /\
      apic_id_to_cpu 3 s' = Fault
  | _ => False
  end.
Proof. vm_compute. repeat split. Qed.

(** The whole of [init_acpi]: the root pointer in the BIOS area, its table of
    one entry at 8192 and the MADT at 4096. *)
Definition rdsp_bytes : list Z := SIG_RDSP ++ [193] ++ repeat 0 7 ++ to_le 4 8192.
Definition rsdt_bytes : list Z := repeat 82 4 ++ to_le 4 40 ++ repeat 0 28 ++ to_le 4 4096.
Definition machine (a : Z) : Z :=
  if a <? 8192 then mem_of (madt_bytes three_entries) a
  else if a <? 9000 then nth (Z.to_nat (a - 8192)) rsdt_bytes 0 else if a <? 0xE0010 then 0 else nth (Z.to_nat (a - 0xE0010)) rdsp_bytes 0.
Example init_acpi_machine :
  match init_acpi machine 0x200000 0 smp0 with
  | Done (r, s') => r = 0 /\ nr_cpu s' = 2 /\ ioapicid s' = 7 /\ apic_id_to_cpu 3 s' = Done (Some 0x900000, s')
  | _ => False
  end.
Proof. vm_compute. repeat split. Qed.
