(* ===== verification/Pci.v ===== *)
(** * Pci: configuration space, devices and the table of functions

    include/asm/pci.h (the two configuration ports), drivers/pci.c (the table
    of functions found on the bus), include/drivers/pci_device.h and
    pci_function.h (the structures), and the reading of base address registers
    in libs/libpci/pci_function.c.  A function on the bus is anything with
    registers of 32 bits ([PciFunction]); [PciRegisters] is what the PCI
    specification says of them: a bit of a register either can be written or is
    hard-wired.  The host bridge decodes the address register as the
    specification lays down; reads of an absent function give all ones. *)
From Stdlib Require Import ZArith Lia.
From stdpp Require Import base tactics gmap list option.
From S2P Require Import Prelude.
#[export] Set Warnings "-clear-no-such-hyp".

Definition PCI_CONFIG_ADDRESS_ENABLE : Z := 0x80000000.
Definition PCI_BUS_OFFSET : Z := 16.
Definition PCI_SLOT_OFFSET : Z := 11.
Definition PCI_FUNC_OFFSET : Z := 8.
Definition MAX_PCI : Z := 128.

(** [cfg_get d r] is the register at the multiple [r] of four; [cfg_put d r v m]
    is a write of [v] that reaches the bits of [m]. *)
Class PciFunction (D : Type) := {
  cfg_get : D -> Z -> Z;
  cfg_put : D -> Z -> Z -> Z -> D
}.
Class PciRegisters (D : Type) `{PciFunction D} := {
  cfg_wmask : D -> Z -> Z;
  cfg_get_range d r : 0 <= cfg_get d r < 2 ^ 32;
  cfg_wmask_range d r : 0 <= cfg_wmask d r < 2 ^ 32;
  cfg_put_get d r v m q : cfg_get (cfg_put d r v m) q =
    if q =? r then Z.lor (Z.ldiff (cfg_get d r) (Z.land (cfg_wmask d r) m)) (Z.land v (Z.land (cfg_wmask d r) m))
    else cfg_get d q;
  cfg_put_wmask d r v m q : cfg_wmask (cfg_put d r v m) q = cfg_wmask d q
}.

(** ** Structures *)
Record pci_bar := PciBar {
  _dev : bool;  (* not NULL *)
  _pos : Z;
  _addr_lo : Z; _addr_hi : Z; _addr_64 : Z; _addr_size : Z; _addr_mmio : Z;
  _is_mmio : bool; _is_64 : bool; _is_prefetchable : bool
}.
Record pcicfg_msix := Msix {
  msix_ctrl : Z; msix_msgnum : Z; msix_location : Z; msix_table_bar : Z; msix_pba_bar : Z;
  msix_table_offset : Z; msix_pba_offset : Z
}.
Record pcicfg_msi := Msi {
  msi_location : Z; msi_ctrl : Z; msi_msgnum : Z; is_64_address : bool; is_vector_mask : bool
}.
(** Where the function is, and what it says of itself. *)
Record pci_where := Where { _bus : Z; _device : Z; _func : Z }.
Record pci_ids := Ids {
  _revision_id : Z; _header_type : Z; _base_class_code : Z; _sub_class_code : Z; _programming_interface : Z;
  _device_id : Z; _vendor_id : Z; _subsystem_vid : Z; _subsystem_id : Z
}.
Record pci_device := Pci {
  bdf : pci_where;
  ids : pci_ids;
  _have_msix : bool; _msix : pcicfg_msix; _msix_enabled : bool;
  _have_msi : bool; _msi : pcicfg_msi; _msi_enabled : bool;
  _bars : list pci_bar
}.
Definition set_bdf (w : pci_where) (p : pci_device) : pci_device :=
  Pci w (ids p) (_have_msix p) (_msix p) (_msix_enabled p) (_have_msi p) (_msi p) (_msi_enabled p) (_bars p).
Definition set_ids (i : pci_ids) (p : pci_device) : pci_device :=
  Pci (bdf p) i (_have_msix p) (_msix p) (_msix_enabled p) (_have_msi p) (_msi p) (_msi_enabled p) (_bars p).
Definition set_msix (have en : bool) (x : pcicfg_msix) (p : pci_device) : pci_device :=
  Pci (bdf p) (ids p) have x en (_have_msi p) (_msi p) (_msi_enabled p) (_bars p).
Definition set_msi (have en : bool) (x : pcicfg_msi) (p : pci_device) : pci_device :=
  Pci (bdf p) (ids p) (_have_msix p) (_msix p) (_msix_enabled p) have x en (_bars p).
Definition set_bars (l : list pci_bar) (p : pci_device) : pci_device :=
  Pci (bdf p) (ids p) (_have_msix p) (_msix p) (_msix_enabled p) (_have_msi p) (_msi p) (_msi_enabled p) l.

Section bus.
Context {D : Type} `{PF : PciFunction D}.

(** ** The two ports *)

(** The address register and the functions by bus, slot and number. *)
Record bus := Bus { config_address : Z; funcs : gmap Z D }.
Definition set_funcs (f : gmap Z D) (u : bus) : bus := Bus (config_address u) f.

Definition target (u : bus) : option D :=
  if Z.testbit (config_address u) 31 then funcs u !! Z.land (Z.shiftr (config_address u) 8) 0xFFFF else None.
Definition selected (u : bus) : Z := Z.land (config_address u) 0xFC.
(** [inb], [inw], [inl] of [PCI_CONFIG_DATA + lane], of [n] bits, and the
    [out]s. *)
Definition in_data (n lane : Z) : M bus Z := gets (fun u =>
  match target u with
  | Some d => Z.land (Z.shiftr (cfg_get d (selected u)) (8 * lane)) (Z.ones n)
  | None => Z.ones n
  end).
Definition out_data (n lane v : Z) : M bus unit := modify (fun u =>
  match target u with
  | Some d =>
      set_funcs (<[Z.land (Z.shiftr (config_address u) 8) 0xFFFF :=
        cfg_put d (selected u) (Z.shiftl v (8 * lane)) (Z.shiftl (Z.ones n) (8 * lane))]> (funcs u)) u
  | None => u
  end).

Definition build_config_address (b s f offset : Z) : Z :=
  Z.lor (Z.lor (Z.lor (Z.shiftl b PCI_BUS_OFFSET) (Z.shiftl s PCI_SLOT_OFFSET)) (Z.shiftl f PCI_FUNC_OFFSET))
    (Z.ldiff offset 3).
Definition prepare_pci_config_access (b s f offset : Z) : M bus unit :=
  modify (fun u => Bus (Z.lor PCI_CONFIG_ADDRESS_ENABLE (build_config_address b s f offset)) (funcs u)).
Definition read_pci_config (b s f offset : Z) : M bus Z :=
  prepare_pci_config_access b s f offset ;;; in_data 32 0.
Definition read_pci_config_word (b s f offset : Z) : M bus Z :=
  prepare_pci_config_access b s f offset ;;; in_data 16 (Z.land offset 2).
Definition read_pci_config_byte (b s f offset : Z) : M bus Z :=
  prepare_pci_config_access b s f offset ;;; in_data 8 (Z.land offset 3).
Definition write_pci_config (b s f offset val : Z) : M bus unit :=
  prepare_pci_config_access b s f offset ;;; out_data 32 0 val.
Definition write_pci_config_word (b s f offset val : Z) : M bus unit :=
  prepare_pci_config_access b s f offset ;;; out_data 16 (Z.land offset 2) val.
Definition write_pci_config_byte (b s f offset val : Z) : M bus unit :=
  prepare_pci_config_access b s f offset ;;; out_data 8 (Z.land offset 3) val.

(** ** The table of functions *)
Record pci_bsf := PciBsf { vid : Z; did : Z; bsf : pci_where }.
(** [pci_bsf[MAX_PCI]] and [nr_pci]. *)
Record table := Table { the_bus : bus; nr_pci : Z; entries : list pci_bsf }.
Definition on_bus {A} : M bus A -> M table A := zoom the_bus (fun u t => Table u (nr_pci t) (entries t)).

Definition add_pci (e : pci_bsf) : M table unit :=
  n <- gets nr_pci ;;
  if n <? MAX_PCI then
    modify (fun t => Table (the_bus t) (n + 1) (<[Z.to_nat n := e]> (entries t)))
  else fault.

(** The loops over [f], [s] and [b], with the number of rounds left. *)
Definition probe (b s f : Z) : M table unit :=
  vid <- on_bus (read_pci_config_word b s f 0) ;;
  did <- on_bus (read_pci_config_word b s f 2) ;;
  if vid =? 0xffff then ret tt else add_pci (PciBsf vid did (Where b s f)).
Fixpoint probe_functions (n : nat) (b s f : Z) : M table unit :=
  match n with O => ret tt | S n' => probe b s f ;;; probe_functions n' b s (f + 1) end.
Fixpoint probe_slots (n : nat) (b s : Z) : M table unit :=
  match n with O => ret tt | S n' => probe_functions 8 b s 0 ;;; probe_slots n' b (s + 1) end.
Fixpoint probe_buses (n : nat) (b : Z) : M table unit :=
  match n with O => ret tt | S n' => probe_slots 32 b 0 ;;; probe_buses n' (b + 1) end.
Definition init_pci : M table unit :=
  modify (fun t => Table (the_bus t) 0 (entries t)) ;;; probe_buses 256 0.

(** The searches: [hit] is the test of the loop, and the structure gets the
    address of the entry found. *)
Fixpoint find_loop (n : nat) (i : Z) (hit : pci_bsf -> M table bool) (p : pci_device) : M table (bool * pci_device) :=
  match n with
  | O => ret (false, p)
  | S n' =>
      e <- (t <- gets entries ;; deref_opt (t !! Z.to_nat i)) ;;
      h <- hit e ;;
      if h : bool then ret (true, set_bdf (bsf e) p) else find_loop n' (i + 1) hit p
  end.
Definition find_with (hit : pci_bsf -> M table bool) (p : pci_device) : M table (bool * pci_device) :=
  n <- gets nr_pci ;; find_loop (Z.to_nat n) 0 hit p.
Definition find_pci (p : pci_device) : M table (bool * pci_device) :=
  find_with (fun e => ret ((vid e =? _vendor_id (ids p)) && (did e =? _device_id (ids p)))) p.
Definition PCI_CFG_CLASS_CODE0 : Z := 0x0B.
Definition PCI_CFG_CLASS_CODE1 : Z := 0x0A.
Definition class_byte (r : Z) (e : pci_bsf) : M table Z :=
  on_bus (read_pci_config_byte (_bus (bsf e)) (_device (bsf e)) (_func (bsf e)) r).
Definition find_pci_by_baseclass (p : pci_device) : M table (bool * pci_device) :=
  find_with (fun e =>
    b <- class_byte PCI_CFG_CLASS_CODE0 e ;;
    s <- class_byte PCI_CFG_CLASS_CODE1 e ;;
    ret ((b =? _base_class_code (ids p)) && (s =? _sub_class_code (ids p)))) p.
Definition find_pci_by_subclass (p : pci_device) : M table (bool * pci_device) :=
  find_with (fun e => b <- class_byte PCI_CFG_CLASS_CODE0 e ;; ret (b =? _base_class_code (ids p))) p.
End bus.
#[global] Arguments bus D : clear implicits.
#[global] Arguments table D : clear implicits.

(** ** What an access selects *)

(** Fields put side by side with [|]. *)
Lemma lor_low_add n x y : 0 <= n -> 0 <= y < 2 ^ n -> Z.lor (x * 2 ^ n) y = x * 2 ^ n + y.
Proof.
  intros Hn Hy. rewrite <- Z.add_lor_land.
  enough (Z.land (x * 2 ^ n) y = 0) as -> by lia. apply Z.bits_inj'. intros i Hi.
  rewrite Z.bits_0, Z.land_spec, <- Z.shiftl_mul_pow2, Z.shiftl_spec by lia.
  destruct (Z.ltb_spec i n).
  - by rewrite (Z.testbit_neg_r x (i - n)) by lia.
  - rewrite (testbit_above y n i) by lia. apply andb_false_r.
Qed.

Definition where_ok (w : pci_where) : Prop := 0 <= _bus w < 256 /\ 0 <= _device w < 32 /\ 0 <= _func w < 8.
Definition index (w : pci_where) : Z := _bus w * 256 + _device w * 8 + _func w.
Definition where_of (i : Z) : pci_where := Where (i / 256) (i / 8 mod 32) (i mod 8).

Lemma index_where_of i : index (where_of i) = i.
Proof. unfold index. cbn. Z.to_euclidean_division_equations. lia. Qed.
Lemma where_of_ok i : 0 <= i < 65536 -> where_ok (where_of i).
Proof. intros Hi. unfold where_ok. cbn. Z.to_euclidean_division_equations. lia. Qed.
Lemma where_of_index w : where_ok w -> where_of (index w) = w.
Proof.
  destruct w as [b s f]. unfold where_ok, index, where_of. cbn. intros ?. f_equal; Z.to_euclidean_division_equations; lia.
Qed.

Lemma ldiff_3 o : Z.ldiff o 3 = o / 4 * 4.
Proof. change 3 with (Z.ones 2). rewrite Z.ldiff_ones_r, Z.shiftl_mul_pow2, Z.shiftr_div_pow2 by lia. done. Qed.

Section access.
Context {D : Type} `{PR : PciRegisters D}.
Implicit Types (u : bus D) (w : pci_where) (d : D).

Definition address_of w (o : Z) : Z :=
  Z.lor PCI_CONFIG_ADDRESS_ENABLE (build_config_address (_bus w) (_device w) (_func w) o).
Lemma address_of_sum w o : where_ok w -> 0 <= o < 256 -> address_of w o = 2 ^ 31 + index w * 256 + o / 4 * 4.
Proof.
  intros (Hb & Hs & Hf) Ho. unfold address_of, build_config_address, PCI_BUS_OFFSET, PCI_SLOT_OFFSET, PCI_FUNC_OFFSET.
  rewrite !Z.shiftl_mul_pow2 by lia. rewrite ldiff_3.
  assert (0 <= o / 4 * 4 < 256) as Ho' by (Z.to_euclidean_division_equations; lia).
  rewrite (lor_low_add 16) by (try split; lia).
  replace (_bus w * 2 ^ 16 + _device w * 2 ^ 11) with ((_bus w * 32 + _device w) * 2 ^ 11) by lia.
  rewrite (lor_low_add 11) by lia.
  replace ((_bus w * 32 + _device w) * 2 ^ 11 + _func w * 2 ^ 8) with (index w * 2 ^ 8) by (unfold index; lia).
  rewrite (lor_low_add 8) by lia. change PCI_CONFIG_ADDRESS_ENABLE with (1 * 2 ^ 31).
  rewrite (lor_low_add 31) by (unfold index; lia). lia.
Qed.

(** The host bridge finds the function and the register the address was built
    from. *)
Lemma address_decodes w o (F : gmap Z D) : where_ok w -> 0 <= o < 256 ->
  let u := Bus (address_of w o) F in
  target u = F !! index w /\ selected u = o / 4 * 4 /\ Z.land (Z.shiftr (config_address u) 8) 0xFFFF = index w.
Proof.
  intros Hw Ho u. pose proof Hw as (Hb & Hs & Hf). subst u. unfold target, selected. cbn [config_address funcs].
  rewrite address_of_sum by done. set (i := index w). assert (0 <= i < 65536) as Hi by (subst i; unfold index; lia).
  assert (0 <= o / 4 * 4 < 256) as Ho' by (Z.to_euclidean_division_equations; lia).
  assert (Z.land (Z.shiftr (2 ^ 31 + i * 256 + o / 4 * 4) 8) 0xFFFF = i) as Hidx.
  { change 0xFFFF with (Z.ones 16). rewrite Z.land_ones, Z.shiftr_div_pow2 by lia. Z.to_euclidean_division_equations. lia. }
  split; [|split; [|done]].
  - rewrite Hidx. rewrite Z.testbit_odd, Z.shiftr_div_pow2 by lia.
    replace ((2 ^ 31 + i * 256 + o / 4 * 4) / 2 ^ 31) with 1; [done|]. Z.to_euclidean_division_equations. lia.
  - change 0xFC with (Z.land (Z.ones 8) (Z.lnot 3)). rewrite Z.land_assoc, Z.land_ones by lia.
    rewrite <- Z.ldiff_land, ldiff_3. Z.to_euclidean_division_equations. lia.
Qed.

(** The words and bytes of a function's registers. *)
Definition cfg_bits d (n lane o : Z) : Z := Z.land (Z.shiftr (cfg_get d (o / 4 * 4)) (8 * lane)) (Z.ones n).
Definition cfg_word d (o : Z) : Z := cfg_bits d 16 (Z.land o 2) o.
Definition cfg_byte d (o : Z) : Z := cfg_bits d 8 (Z.land o 3) o.

Lemma read_bits n lane w o u : where_ok w -> 0 <= o < 256 ->
  (prepare_pci_config_access (_bus w) (_device w) (_func w) o ;;; in_data n lane) u =
  Done (match funcs u !! index w with Some d => cfg_bits d n lane o | None => Z.ones n end, Bus (address_of w o) (funcs u)).
Proof.
  intros Hw Ho. unfold prepare_pci_config_access, in_data, bind, modify, gets.
  change (Z.lor PCI_CONFIG_ADDRESS_ENABLE (build_config_address (_bus w) (_device w) (_func w) o)) with (address_of w o).
  destruct (address_decodes w o (funcs u) Hw Ho) as (-> & -> & _). done.
Qed.

Lemma write_bits n lane v w o u d : where_ok w -> 0 <= o < 256 -> funcs u !! index w = Some d ->
  (prepare_pci_config_access (_bus w) (_device w) (_func w) o ;;; out_data n lane v) u =
  Done (tt, Bus (address_of w o) (<[index w := cfg_put d (o / 4 * 4) (Z.shiftl v (8 * lane)) (Z.shiftl (Z.ones n) (8 * lane))]> (funcs u))).
Proof.
  intros Hw Ho Hd. unfold prepare_pci_config_access, out_data, bind, modify.
  change (Z.lor PCI_CONFIG_ADDRESS_ENABLE (build_config_address (_bus w) (_device w) (_func w) o)) with (address_of w o).
  destruct (address_decodes w o (funcs u) Hw Ho) as (-> & -> & ->). cbn [funcs]. by rewrite Hd.
Qed.

Lemma wp_read_word w o u Q : where_ok w -> 0 <= o < 256 ->
  Q (match funcs u !! index w with Some d => cfg_word d o | None => 0xffff end) (Bus (address_of w o) (funcs u)) ->
  wp (read_pci_config_word (_bus w) (_device w) (_func w) o) u Q.
Proof. intros Hw Ho HQ. unfold wp, read_pci_config_word. by rewrite read_bits. Qed.
Lemma wp_read_byte w o u Q : where_ok w -> 0 <= o < 256 ->
  Q (match funcs u !! index w with Some d => cfg_byte d o | None => 0xff end) (Bus (address_of w o) (funcs u)) ->
  wp (read_pci_config_byte (_bus w) (_device w) (_func w) o) u Q.
Proof. intros Hw Ho HQ. unfold wp, read_pci_config_byte. by rewrite read_bits. Qed.

Lemma cfg_bits_32 d o : cfg_bits d 32 0 o = cfg_get d (o / 4 * 4).
Proof. unfold cfg_bits. rewrite Z.mul_0_r, Z.shiftr_0_r, Z.land_ones, Z.mod_small by (try apply cfg_get_range; lia). done. Qed.
End access.

(** ** The scan of the bus *)
Fixpoint zrange (n : nat) (i : Z) : list Z := match n with O => [] | S n' => i :: zrange n' (i + 1) end.
Lemma zrange_app n m i : zrange (n + m) i = zrange n i ++ zrange m (i + Z.of_nat n).
Proof.
  revert i. induction n as [|n IH]; intros i; cbn [zrange Nat.add app]; [by rewrite Z.add_0_r|].
  rewrite IH. by replace (i + 1 + Z.of_nat n) with (i + Z.of_nat (S n)) by lia.
Qed.
Lemma elem_of_zrange n i x : x ∈ zrange n i <-> i <= x < i + Z.of_nat n.
Proof.
  revert i. induction n as [|n IH]; intros i; cbn [zrange]; [split; [by intros ?%not_elem_of_nil|lia]|].
  rewrite elem_of_cons, IH. lia.
Qed.

Section scan.
Context {D : Type} `{PR : PciRegisters D}.
Implicit Types (t : table D) (F : gmap Z D) (e : pci_bsf).

(** The functions that answer, in the order of bus, slot and number, and what
    the table says of each. *)
Definition present F (i : Z) : bool :=
  match F !! i with Some d => negb (cfg_word d 0 =? 0xffff) | None => false end.
Definition entry_of F (i : Z) : pci_bsf :=
  match F !! i with Some d => PciBsf (cfg_word d 0) (cfg_word d 2) (where_of i) | None => PciBsf 0xffff 0xffff (where_of i) end.
Definition found F (k : Z) : list Z := filter (fun i => present F i = true) (zrange (Z.to_nat k) 0).

Lemma found_app F k n : 0 <= k -> found F (k + Z.of_nat n) = found F k ++ filter (fun i => present F i = true) (zrange n k).
Proof.
  intros Hk. unfold found. rewrite Z2Nat.inj_add, Nat2Z.id by lia. rewrite zrange_app, list.filter_app.
  by rewrite Z2Nat.id, Z.add_0_l by done.
Qed.

Lemma found_succ F k : 0 <= k -> found F (k + 1) = found F k ++ (if present F k then [k] else []).
Proof.
  intros Hk. change 1 with (Z.of_nat 1). rewrite found_app by done. f_equal. cbn [zrange]. rewrite filter_cons, filter_nil.
  by destruct (present F k).
Qed.

Lemma found_mono F k k' : 0 <= k <= k' -> (length (found F k) <= length (found F k'))%nat.
Proof.
  intros Hk. replace k' with (k + Z.of_nat (Z.to_nat (k' - k))) by lia. rewrite found_app, length_app by lia. lia.
Qed.

(** The table after the functions below [k]. *)
Record scanned F (k : Z) t : Prop := {
  sc_funcs : funcs (the_bus t) = F;
  sc_count : nr_pci t = Z.of_nat (length (found F k));
  sc_length : length (entries t) = Z.to_nat MAX_PCI;
  sc_entries : take (length (found F k)) (entries t) = entry_of F <$> found F k
}.

Lemma probe_correct F w k t : scanned F k t -> where_ok w -> k = index w ->
  (length (found F (k + 1)) <= Z.to_nat MAX_PCI)%nat ->
  wp (probe (_bus w) (_device w) (_func w)) t (fun _ t' => scanned F (k + 1) t').
Proof.
  intros [Hf Hn Hl He] Hw Hk Hroom. assert (0 <= k) as Hk0 by (subst; destruct Hw as (?&?&?); unfold index; lia).
  assert (where_of k = w) as Hwk by (rewrite Hk; by apply where_of_index). rewrite found_succ in Hroom by done.
  unfold probe, on_bus. wp_steps. apply wp_read_word; [done|lia|]. wp_steps. cbn [the_bus].
  apply wp_read_word; [done|lia|]. wp_steps. cbn [the_bus funcs]. rewrite Hf, <- Hk.
  assert (present F k = negb (match F !! k with Some d => cfg_word d 0 | None => 65535 end =? 65535)) as Hp.
  { unfold present. by destruct (F !! k). }
  destruct (_ =? 65535) eqn:Heq; cbn [negb] in Hp; rewrite Hp in Hroom.
  - wp_steps. split; cbn [the_bus nr_pci entries funcs]; rewrite ?found_succ, ?Hp, ?app_nil_r by done; done.
  - unfold add_pci. wp_steps. cbn [nr_pci]. rewrite Hn. rewrite length_app in Hroom. cbn in Hroom.
    rewrite (proj2 (Z.ltb_lt _ MAX_PCI)) by (unfold MAX_PCI in *; lia). wp_steps.
    split; cbn [the_bus nr_pci entries funcs]; rewrite ?found_succ, ?Hp by done.
    + done.
    + rewrite length_app. cbn. lia.
    + by rewrite length_insert.
    + rewrite Nat2Z.id, length_app, fmap_app. cbn [length fmap list_fmap].
      rewrite Nat.add_1_r. erewrite take_S_r; [|apply list_lookup_insert_eq; unfold MAX_PCI in *; lia].
      rewrite take_insert_ge by lia. rewrite He. do 2 f_equal. unfold entry_of, present in *.
      destruct (F !! k); [rewrite Hwk; by destruct w|done].
Qed.

Lemma probe_functions_correct F n : forall b s f t, scanned F (index (Where b s f)) t ->
  0 <= b < 256 -> 0 <= s < 32 -> 0 <= f -> f + Z.of_nat n <= 8 -> (length (found F 65536) <= Z.to_nat MAX_PCI)%nat ->
  wp (probe_functions n b s f) t (fun _ t' => scanned F (index (Where b s f) + Z.of_nat n) t').
Proof.
  induction n as [|n IH]; intros b s f t Ht Hb Hs Hf Hn Hroom; cbn [probe_functions].
  - wp_steps. by rewrite Z.add_0_r.
  - wp_steps. eapply wp_mono; [apply (probe_correct F (Where b s f) _ t Ht)|].
    + unfold where_ok. cbn. lia.
    + done.
    + etransitivity; [apply (found_mono F _ 65536)|done]. unfold index. cbn. lia.
    + intros [] t1 H1. replace (index (Where b s f) + 1) with (index (Where b s (f + 1))) in H1 by (unfold index; cbn; lia).
      eapply wp_mono; [apply (IH b s (f + 1) t1 H1); lia|]. intros [] t2. cbn.
      by replace (index (Where b s (f + 1)) + Z.of_nat n) with (index (Where b s f) + Z.of_nat (S n)) by (unfold index; cbn; lia).
Qed.

Lemma probe_slots_correct F n : forall b s t, scanned F (index (Where b s 0)) t ->
  0 <= b < 256 -> 0 <= s -> s + Z.of_nat n <= 32 -> (length (found F 65536) <= Z.to_nat MAX_PCI)%nat ->
  wp (probe_slots n b s) t (fun _ t' => scanned F (index (Where b (s + Z.of_nat n) 0)) t').
Proof.
  induction n as [|n IH]; intros b s t Ht Hb Hs Hn Hroom; cbn [probe_slots].
  - wp_steps. by rewrite Z.add_0_r.
  - wp_steps. eapply wp_mono; [apply (probe_functions_correct F 8 b s 0 t Ht); lia|].
    intros [] t1 H1. cbn beta. replace (s + Z.of_nat (S n)) with (s + 1 + Z.of_nat n) by lia. apply IH; try lia.
    by replace (index (Where b (s + 1) 0)) with (index (Where b s 0) + Z.of_nat 8) by (unfold index; cbn; lia).
Qed.

Lemma probe_buses_correct F n : forall b t, scanned F (index (Where b 0 0)) t ->
  0 <= b -> b + Z.of_nat n <= 256 -> (length (found F 65536) <= Z.to_nat MAX_PCI)%nat ->
  wp (probe_buses n b) t (fun _ t' => scanned F (index (Where (b + Z.of_nat n) 0 0)) t').
Proof.
  induction n as [|n IH]; intros b t Ht Hb Hn Hroom; cbn [probe_buses].
  - wp_steps. by rewrite Z.add_0_r.
  - wp_steps. eapply wp_mono; [apply (probe_slots_correct F 32 b 0 t Ht); lia|].
    intros [] t1 H1. cbn beta. replace (b + Z.of_nat (S n)) with (b + 1 + Z.of_nat n) by lia. apply IH; try lia.
    by replace (index (Where (b + 1) 0 0)) with (index (Where b (0 + Z.of_nat 32) 0)) by (unfold index; cbn; lia).
Qed.

Lemma init_pci_scanned t : length (entries t) = Z.to_nat MAX_PCI ->
  (length (found (funcs (the_bus t)) 65536) <= Z.to_nat MAX_PCI)%nat ->
  wp init_pci t (fun _ t' => scanned (funcs (the_bus t)) 65536 t').
Proof.
  intros Hl Hroom. unfold init_pci. wp_steps.
  eapply wp_mono; [apply (probe_buses_correct (funcs (the_bus t)) 256 0); try lia; by split|]. done.
Qed.

(** A search whose test leaves the table alone and asks [h] of an entry. *)
Lemma find_loop_correct (hit : pci_bsf -> M (table D) bool) (h : pci_bsf -> bool) F p n : forall i t,
  (forall e t', funcs (the_bus t') = F -> e ∈ take n (drop i (entries t)) ->
    wp (hit e) t' (fun r t'' => r = h e /\ entries t'' = entries t' /\ funcs (the_bus t'') = F)) ->
  funcs (the_bus t) = F -> (i + n <= length (entries t))%nat ->
  wp (find_loop n (Z.of_nat i) hit p) t (fun r t' => funcs (the_bus t') = F /\
    r = match filter (fun e => h e = true) (take n (drop i (entries t))) with
        | e :: _ => (true, set_bdf (bsf e) p) | [] => (false, p) end).
Proof.
  induction n as [|n IH]; intros i t Hhit Ht Hn; cbn [find_loop].
  - wp_steps. by rewrite take_0.
  - destruct (lookup_lt_is_Some_2 (entries t) i ltac:(lia)) as [e He]. wp_steps. rewrite Nat2Z.id.
    eapply wp_deref_opt; [exact He|]. wp_steps. rewrite (drop_S _ _ _ He). cbn [take].
    rewrite (drop_S _ _ _ He) in Hhit. cbn [take] in Hhit.
    eapply wp_mono; [apply (Hhit e t Ht); by left|]. intros r t1 (-> & Hent & Hf).
    rewrite filter_cons. destruct (h e) eqn:Hh; [rewrite decide_True by done; wp_steps; done|rewrite decide_False by done].
    replace (Z.of_nat i + 1) with (Z.of_nat (S i)) by lia. rewrite <- Hent in *. apply IH; [|done|lia].
    intros e' t' Ht' He'. apply Hhit; [done|by right].
Qed.

Lemma filter_entries F (h : pci_bsf -> bool) (l : list Z) :
  filter (fun e => h e = true) (entry_of F <$> l) = entry_of F <$> filter (fun i => h (entry_of F i) = true) l.
Proof. induction l as [|i l IH]; [done|]. rewrite fmap_cons, !filter_cons. case_decide; by rewrite IH. Qed.

Lemma bsf_entry_of F i : bsf (entry_of F i) = where_of i.
Proof. unfold entry_of. by destruct (F !! i). Qed.

(** On a table the scan filled, a search answers the first function found that
    passes its test. *)
Lemma find_with_correct (hit : pci_bsf -> M (table D) bool) (h : pci_bsf -> bool) F p k t :
  k <= 65536 -> scanned F k t ->
  (forall i t', funcs (the_bus t') = F -> 0 <= i < k -> present F i = true ->
    wp (hit (entry_of F i)) t' (fun r t'' => r = h (entry_of F i) /\ entries t'' = entries t' /\ funcs (the_bus t'') = F)) ->
  wp (find_with hit p) t (fun r t' => funcs (the_bus t') = F /\
    r = match filter (fun i => h (entry_of F i) = true) (found F k) with
        | i :: _ => (true, set_bdf (where_of i) p) | [] => (false, p) end).
Proof.
  intros Hk Ht Hhit. destruct Ht as [Hf Hn Hl He]. assert (length (found F k) <= length (entries t))%nat as Hle.
  { apply (f_equal length) in He. rewrite length_take, length_fmap in He. lia. }
  unfold find_with. wp_steps. rewrite Hn, Nat2Z.id.
  eapply wp_mono; [apply (find_loop_correct hit h F p _ 0 t); [|done|done]|].
  - intros e t' Ht'. rewrite drop_0, He. intros [i [-> Hi]]%list_elem_of_fmap. apply list_elem_of_filter in Hi as [Hp Hi].
    apply elem_of_zrange in Hi. apply Hhit; [done| |done].
    destruct (decide (0 <= k)); [lia|]. rewrite Z2Nat.nonpos in Hi by lia. lia.
  - intros r t' [Hf' ->]. split; [done|]. rewrite drop_0, He, filter_entries.
    destruct (filter _ (found F k)) as [|i l]; cbn; [done|]. by rewrite bsf_entry_of.
Qed.

Definition has_ids F (p : pci_device) (i : Z) : bool :=
  (vid (entry_of F i) =? _vendor_id (ids p)) && (did (entry_of F i) =? _device_id (ids p)).
Definition has_class F (p : pci_device) (i : Z) : bool :=
  match F !! i with
  | Some d => (cfg_byte d PCI_CFG_CLASS_CODE0 =? _base_class_code (ids p)) && (cfg_byte d PCI_CFG_CLASS_CODE1 =? _sub_class_code (ids p))
  | None => false
  end.

(** C26: on a bus of at most [MAX_PCI] functions, [init_pci] followed by
    [find_pci] finds the first function, in the order of bus, slot and number,
    that answers with the vendor and device asked for, and leaves the structure
    alone when there is none; no function's registers change. *)
Theorem init_find_pci t p :
  length (entries t) = Z.to_nat MAX_PCI -> (length (found (funcs (the_bus t)) 65536) <= Z.to_nat MAX_PCI)%nat ->
  wp (init_pci ;;; find_pci p) t (fun r t' => funcs (the_bus t') = funcs (the_bus t) /\
    r = match filter (fun i => has_ids (funcs (the_bus t)) p i = true) (found (funcs (the_bus t)) 65536) with
        | i :: _ => (true, set_bdf (where_of i) p) | [] => (false, p) end).
Proof.
  intros Hl Hroom. wp_steps. eapply wp_mono; [by apply init_pci_scanned|]. intros [] t1 H1.
  apply (find_with_correct _ (fun e => (vid e =? _vendor_id (ids p)) && (did e =? _device_id (ids p))) _ p _ t1 ltac:(done) H1).
  intros i t' Ht' Hi Hp. by wp_steps.
Qed.

(** The search by class reads the class from the function itself. *)
Lemma init_find_pci_by_baseclass t p :
  length (entries t) = Z.to_nat MAX_PCI -> (length (found (funcs (the_bus t)) 65536) <= Z.to_nat MAX_PCI)%nat ->
  wp (init_pci ;;; find_pci_by_baseclass p) t (fun r t' => funcs (the_bus t') = funcs (the_bus t) /\
    r = match filter (fun i => has_class (funcs (the_bus t)) p i = true) (found (funcs (the_bus t)) 65536) with
        | i :: _ => (true, set_bdf (where_of i) p) | [] => (false, p) end).
Proof.
  intros Hl Hroom. wp_steps. eapply wp_mono; [by apply init_pci_scanned|]. intros [] t1 H1.
  set (F := funcs (the_bus t)) in *.
  set (h := fun e : pci_bsf => has_class F p (index (bsf e))).
  eapply wp_mono; [apply (find_with_correct _ h _ p _ t1 ltac:(done) H1)|].
  - intros i t' Ht' Hi Hp. unfold class_byte, on_bus. rewrite bsf_entry_of. pose proof (where_of_ok i Hi) as Hw.
    wp_steps. apply wp_read_byte; [done|unfold PCI_CFG_CLASS_CODE0; lia|]. wp_steps.
    apply wp_read_byte; [done|unfold PCI_CFG_CLASS_CODE1; lia|]. wp_steps. split; [|done].
    subst h. cbn. rewrite bsf_entry_of. rewrite index_where_of, Ht'. unfold has_class, present in *. by destruct (F !! i).
  - intros r t' [Hf ->]. split; [done|]. subst h. cbn.
    replace (filter (fun i => has_class F p (index (bsf (entry_of F i))) = true) (found F 65536))
      with (filter (fun i => has_class F p i = true) (found F 65536)); [done|].
    apply list_filter_iff. intros i. by rewrite bsf_entry_of, index_where_of.
Qed.
End scan.

(** ** Registers of a concrete function *)

(** Values and writable bits by register; a missing one reads as zero. *)
Abbreviation regfile := (gmap Z (Z * Z)).
Definition rf_get (d : regfile) (r : Z) : Z := Z.land (default 0 (fst <$> d !! r)) (Z.ones 32).
Definition rf_wmask (d : regfile) (r : Z) : Z := Z.land (default 0 (snd <$> d !! r)) (Z.ones 32).
Definition rf_put (d : regfile) (r v m : Z) : regfile :=
  let wm := Z.land (rf_wmask d r) m in
  <[r := (Z.lor (Z.ldiff (rf_get d r) wm) (Z.land v wm), rf_wmask d r)]> d.
#[export] Instance regfile_function : PciFunction regfile := {| cfg_get := rf_get; cfg_put := rf_put |}.

Lemma land_ones_range x n : 0 <= n -> 0 <= Z.land x (Z.ones n) < 2 ^ n.
Proof. intros Hn. rewrite Z.land_ones by done. apply Z.mod_pos_bound. lia. Qed.

#[export, refine] Instance regfile_registers : PciRegisters regfile := {| cfg_wmask := rf_wmask |}.
Proof.
  - intros d r. apply land_ones_range. lia.
  - intros d r. apply land_ones_range. lia.
  - intros d r v m q. cbn. destruct (Z.eqb_spec q r) as [->|Hne].
    2: { unfold rf_put, rf_get. cbv zeta. by rewrite lookup_insert_ne. }
    change (Z.land (default 0 (fst <$> rf_put d r v m !! r)) (Z.ones 32) =
      Z.lor (Z.ldiff (rf_get d r) (Z.land (rf_wmask d r) m)) (Z.land v (Z.land (rf_wmask d r) m))).
    unfold rf_put. cbv zeta. rewrite lookup_insert_eq. cbn. apply Z.bits_inj'. intros i Hi.
    rewrite !Z.land_spec, Z.lor_spec, !Z.ldiff_spec, !Z.land_spec.
    unfold rf_get, rf_wmask. rewrite !Z.land_spec, Z.testbit_ones_nonneg by lia.
    destruct (i <? 32); [by rewrite !andb_true_r|]. by rewrite !andb_false_r.
  - intros d r v m q. cbn. unfold rf_put, rf_wmask. cbv zeta. destruct (decide (q = r)) as [->|Hne]; [|by rewrite lookup_insert_ne].
    rewrite lookup_insert_eq. cbn. by rewrite <- Z.land_assoc, Z.land_diag.
Defined.

(** A host bridge, and a network card in slot 3. *)
Definition card_at (v d : Z) : regfile := {[0 := (v + d * 2 ^ 16, 0); 8 := (0x02000000, 0)]}.
Definition bus0 : bus regfile := Bus 0 {[0 := card_at 0x8086 0x1237; 24 := card_at 0x1af4 0x1000]}.
Definition table0 (u : bus regfile) : table regfile := Table u 0 (repeat (PciBsf 0 0 (Where 0 0 0)) 128).
Definition no_bar : pci_bar := PciBar false 0 0 0 0 0 0 false false false.
Definition pci0 (v d : Z) : pci_device :=
  Pci (Where 0 0 0) (Ids 0 0 2 0 0 d v 0 0) false (Msix 0 0 0 0 0 0 0) false false (Msi 0 0 0 false false) false (repeat no_bar 6).

Lemma found_bus0 : filter (fun i => has_ids (funcs bus0) (pci0 0x1af4 0x1000) i = true) (found (funcs bus0) 65536) = [24].
Proof. vm_compute. reflexivity. Qed.

Lemma init_find_pci_witness :
  wp (init_pci ;;; find_pci (pci0 0x1af4 0x1000)) (table0 bus0) (fun r t' => funcs (the_bus t') = funcs bus0 /\
    r = (true, set_bdf (Where 0 3 0) (pci0 0x1af4 0x1000))).
Proof.
  eapply wp_mono; [apply (init_find_pci (table0 bus0) (pci0 0x1af4 0x1000))|].
  - reflexivity.
  - apply Nat.leb_le. vm_compute. reflexivity.
  - intros r t' [Hf ->]. split; [exact Hf|]. cbn [table0 the_bus]. rewrite found_bus0. reflexivity.
Defined.

(** With 129 functions on the bus the scan writes behind [pci_bsf]. *)
Definition full_bus (n : nat) : bus regfile :=
  Bus 0 (list_to_map ((fun i => (i, card_at 0x1af4 i)) <$> zrange n 0)).
Definition outcome_ok {A} (o : outcome A) : bool := match o with Done _ => true | _ => false end.
Example init_pci_overflow :
  outcome_ok (init_pci (table0 (full_bus 128))) = true /\ init_pci (table0 (full_bus 129)) = Fault.
Proof. split; vm_compute; reflexivity. Qed.
