(* ===== verification/PciDev.v ===== *)
(** * PciDev: a device, its base address registers and its interrupts

    libs/libpci/pci_function.c and pci_device.c over the configuration space of
    Pci.v, arch/x86_64/msi.c and [register_irq_handler] of arch/x86_64/irq.c.
    The structure the functions work on is part of the state.  Registers of a
    mapped device are read and written through the processor's page tables
    (PgTable.v, PgWalk.v): an address they do not translate faults.  The debug
    prints are left out. *)
From Stdlib Require Import ZArith Lia.
From stdpp Require Import base tactics gmap list option.
From S2P Require Import Prelude Pages Layout PgTable PgWalk Pci.
#[export] Set Warnings "-clear-no-such-hyp".

Definition PCI_CAPABILITIES_PTR : Z := 0x34.
Definition PCI_CAP_OFF_ID : Z := 0.
Definition PCI_CAP_OFF_NEXT : Z := 1.
Definition PCI_CAP_MSI : Z := 5.
Definition PCI_CAP_MSIX : Z := 0x11.
Definition PCI_CFG_VENDOR_ID : Z := 0.
Definition PCI_CFG_DEVICE_ID : Z := 2.
Definition PCI_CFG_COMMAND : Z := 4.
Definition PCI_CFG_REVISION_ID : Z := 8.
Definition PCI_CFG_CLASS_CODE2 : Z := 9.
Definition PCI_CFG_HEADER_TYPE : Z := 0xE.
Definition PCI_CFG_BAR_1 : Z := 0x10.
Definition PCI_CFG_BAR_6 : Z := 0x24.
Definition PCI_CFG_SUBSYSTEM_VENDOR_ID : Z := 0x2C.
Definition PCI_CFG_SUBSYSTEM_ID : Z := 0x2E.
Definition PCI_COMMAND_INTX_DISABLE : Z := 0x400.
Definition PCI_COMMAND_BUS_MASTER : Z := 4.
Definition PCI_COMMAND_BAR_MEM_ENABLE : Z := 2.
Definition PCI_COMMAND_BAR_IO_ENABLE : Z := 1.
Definition PCI_BAR_MEM_ADDR_LO_MASK : Z := 0xFFFFFFF0.
Definition PCI_BAR_PIO_ADDR_MASK : Z := 0xFFFFFFFC.
Definition PCIR_MSI_CTRL : Z := 2.
Definition PCIR_MSI_CTRL_ME : Z := 1.
Definition PCIR_MSI_ADDR : Z := 4.
Definition PCIR_MSI_UADDR : Z := 8.
Definition PCIR_MSI_DATA_64 : Z := 0xC.
Definition PCIR_MSI_MASK_32 : Z := 0xC.
Definition PCIR_MSI_MASK_64 : Z := 0x10.
Definition PCIR_MSIX_CTRL : Z := 2.
Definition PCIM_MSIXCTRL_MSIX_ENABLE : Z := 0x8000.
Definition PCIM_MSIXCTRL_FUNCTION_MASK : Z := 0x4000.
Definition PCIM_MSIXCTRL_TABLE_SIZE : Z := 0x07FF.
Definition PCIR_MSIX_TABLE : Z := 4.
Definition PCIR_MSIX_PBA : Z := 8.
Definition PCIM_MSIX_BIR_MASK : Z := 7.
Definition MSIX_ENTRY_ADDR_LO : Z := 0.
Definition MSIX_ENTRY_ADDR_HI : Z := 4.
Definition MSIX_ENTRY_DATA : Z := 8.
Definition MSIX_ENTRY_CONTROL : Z := 12.
Definition MSIX_ENTRY_SIZE : Z := 16.
Definition MSIX_ENTRY_CONTROL_MASK_BIT : Z := 0.
(** [default_irq_handler], the entry of [irq_vectors] nobody has taken. *)
Definition default_irq_handler : Z := 0.

Record msi_msg := MsiMsg { address_lo : Z; address_hi : Z; data : Z }.

Section device.
Context {D : Type} `{PF : PciFunction D} {T : Type} `{FA : FrameAlloc T}.

(** The ports and functions, the structure, the registers of mapped devices by
    physical address, the page tables, [irq_vectors] and [spin_irq]. *)
Record pst := Pst {
  hw : bus D;
  pci : pci_device;
  io : Z -> Z;
  vmem : mm T;
  irq_vectors : list Z;
  spin_irq : bool
}.
Definition set_hw (u : bus D) (s : pst) : pst := Pst u (pci s) (io s) (vmem s) (irq_vectors s) (spin_irq s).
Definition set_pci (p : pci_device) (s : pst) : pst := Pst (hw s) p (io s) (vmem s) (irq_vectors s) (spin_irq s).
Definition set_io (m : Z -> Z) (s : pst) : pst := Pst (hw s) (pci s) m (vmem s) (irq_vectors s) (spin_irq s).
Definition set_vmem (m : mm T) (s : pst) : pst := Pst (hw s) (pci s) (io s) m (irq_vectors s) (spin_irq s).
Definition set_irq (l : list Z) (b : bool) (s : pst) : pst := Pst (hw s) (pci s) (io s) (vmem s) l b.
Definition on_hw {A} : M (bus D) A -> M pst A := zoom hw set_hw.

(** ** Configuration space of the device *)
Definition pci_readb (offset : Z) : M pst Z :=
  w <- gets (fun s => bdf (pci s)) ;; on_hw (read_pci_config_byte (_bus w) (_device w) (_func w) (wrap8 offset)).
Definition pci_readw (offset : Z) : M pst Z :=
  w <- gets (fun s => bdf (pci s)) ;; on_hw (read_pci_config_word (_bus w) (_device w) (_func w) (wrap8 offset)).
Definition pci_readl (offset : Z) : M pst Z :=
  w <- gets (fun s => bdf (pci s)) ;; on_hw (read_pci_config (_bus w) (_device w) (_func w) (wrap8 offset)).
Definition pci_writew (offset val : Z) : M pst unit :=
  w <- gets (fun s => bdf (pci s)) ;; on_hw (write_pci_config_word (_bus w) (_device w) (_func w) (wrap8 offset) (wrap16 val)).
Definition pci_writel (offset val : Z) : M pst unit :=
  w <- gets (fun s => bdf (pci s)) ;; on_hw (write_pci_config (_bus w) (_device w) (_func w) (wrap8 offset) (wrap32 val)).

Definition pci_get_command : M pst Z := pci_readw PCI_CFG_COMMAND.
Definition pci_set_command (command : Z) : M pst unit := pci_writew PCI_CFG_COMMAND command.
(** [u16 & ~mask] *)
Definition clear16 (v mask : Z) : Z := Z.ldiff v mask.

Definition set_pci_bus_master (master : bool) : M pst unit :=
  command <- pci_get_command ;;
  pci_set_command (if master then Z.lor command PCI_COMMAND_BUS_MASTER else clear16 command PCI_COMMAND_BUS_MASTER).
Definition set_pci_bars_enable (mem io : bool) : M pst unit :=
  command <- pci_get_command ;;
  let c1 := if mem then Z.lor command PCI_COMMAND_BAR_MEM_ENABLE else command in
  pci_set_command (if io then Z.lor c1 PCI_COMMAND_BAR_IO_ENABLE else c1).
Definition disable_intx : M pst unit :=
  command <- pci_get_command ;; pci_set_command (Z.lor command PCI_COMMAND_INTX_DISABLE).

(** ** Base address registers *)
Definition pci_bar_is_pio (p : pci_bar) : bool := negb (_is_mmio p).
Definition pci_bar_read_size (p : pci_bar) : M pst Z :=
  lo_orig <- pci_readl (_pos p) ;;
  pci_writel (_pos p) 0xFFFFFFFF ;;;
  lo <- pci_readl (_pos p) ;;
  pci_writel (_pos p) lo_orig ;;;
  let lo' := Z.land lo (if pci_bar_is_pio p then PCI_BAR_PIO_ADDR_MASK else PCI_BAR_MEM_ADDR_LO_MASK) in
  hi <- (if _is_64 p then
           hi_orig <- pci_readl (_pos p + 4) ;;
           pci_writel (_pos p + 4) 0xFFFFFFFF ;;;
           h <- pci_readl (_pos p + 4) ;;
           pci_writel (_pos p + 4) hi_orig ;;;
           ret h
         else ret 0xFFFFFFFF) ;;
  let bits := Z.lor (Z.shiftl hi 32) lo' in
  ret (wrap64 (lnot64 bits + 1)).

Definition pci_bar_init (p : pci_bar) (pos : Z) : M pst pci_bar :=
  let pos8 := wrap8 pos in
  val <- pci_readl pos8 ;;
  let mmio := Z.land val 1 =? 0 in
  let is64 := if mmio then Z.land val 6 =? 4 else _is_64 p in
  let pref := if mmio then Z.land val 8 =? 8 else _is_prefetchable p in
  let p1 := PciBar true pos8 (_addr_lo p) (_addr_hi p) (_addr_64 p) (_addr_size p) (_addr_mmio p) mmio is64 pref in
  size <- pci_bar_read_size p1 ;;
  let lo := Z.land val (if mmio then PCI_BAR_MEM_ADDR_LO_MASK else PCI_BAR_PIO_ADDR_MASK) in
  hi <- (if mmio && is64 then pci_readl (pos8 + 4) else ret (_addr_hi p)) ;;
  ret (PciBar true pos8 lo hi (Z.lor (Z.shiftl hi 32) lo) size (_addr_mmio p) mmio is64 pref).

(** [_bars[i]] as an lvalue. *)
Definition get_bar (i : Z) : M pst pci_bar :=
  l <- gets (fun s => _bars (pci s)) ;; if 0 <=? i then deref_opt (l !! Z.to_nat i) else fault.
Definition put_bar (i : Z) (b : pci_bar) : M pst unit :=
  modify (fun s => set_pci (set_bars (<[Z.to_nat i := b]> (_bars (pci s))) (pci s)) s).

(** [while (pos <= PCI_CFG_BAR_6)] *)
Fixpoint bars_loop (fuel : nat) (pos idx : Z) : M pst unit :=
  if pos <=? PCI_CFG_BAR_6 then
    match fuel with
    | O => out_of_fuel
    | S fuel' =>
        bar_v <- pci_readl pos ;;
        if bar_v =? 0 then bars_loop fuel' (pos + 4) (idx + 1)
        else
          kassert (idx <=? 7) ;;;
          pbar <- get_bar (idx - 1) ;;
          b <- pci_bar_init pbar pos ;;
          put_bar (idx - 1) b ;;;
          if _is_64 b then bars_loop fuel' (pos + 8) (idx + 2) else bars_loop fuel' (pos + 4) (idx + 1)
    end
  else ret tt.

(** [pci_get_bar]: the index of the register, or NULL. *)
Definition pci_get_bar (n : Z) : M pst (option Z) :=
  kassert (n <=? 6) ;;;
  b <- get_bar (n - 1) ;;
  ret (if _dev b then Some (n - 1) else None).
Definition pci_bar_map (i : Z) : M pst unit :=
  b <- get_bar i ;;
  if _is_mmio b then
    v <- zoom vmem set_vmem (ioremap_nocache (_addr_64 b) (_addr_size b)) ;;
    put_bar i (PciBar (_dev b) (_pos b) (_addr_lo b) (_addr_hi b) (_addr_64 b) (_addr_size b) v (_is_mmio b) (_is_64 b) (_is_prefetchable b))
  else ret tt.

(** ** Capabilities *)
Fixpoint cap_loop (fuel : nat) (off ctr cap_id : Z) : M pst Z :=
  if off =? 0 then ret 0xFF
  else
    match fuel with
    | O => out_of_fuel
    | S fuel' =>
        capability <- pci_readb (off + PCI_CAP_OFF_ID) ;;
        if capability =? cap_id then ret off
        else if 0xF0 <? wrap8 (ctr + 1) then ret 0xFF
        else next <- pci_readb (off + PCI_CAP_OFF_NEXT) ;; cap_loop fuel' next (wrap8 (ctr + 1)) cap_id
    end.
Definition find_capability (cap_id : Z) : M pst Z :=
  off <- pci_readb PCI_CAPABILITIES_PTR ;; cap_loop 241 off 0 cap_id.

Definition upd_msix (f : pci_device -> pci_device) : M pst unit := modify (fun s => set_pci (f (pci s)) s).
Definition msix_get_control : M pst Z :=
  l <- gets (fun s => msix_location (_msix (pci s))) ;; pci_readw (l + PCIR_MSIX_CTRL).
Definition msix_set_control (ctrl : Z) : M pst unit :=
  l <- gets (fun s => msix_location (_msix (pci s))) ;; pci_writew (l + PCIR_MSIX_CTRL) ctrl.
Definition msi_get_control : M pst Z :=
  l <- gets (fun s => msi_location (_msi (pci s))) ;; pci_readw (l + PCIR_MSI_CTRL).
Definition msi_set_control (ctrl : Z) : M pst unit :=
  l <- gets (fun s => msi_location (_msi (pci s))) ;; pci_writew (l + PCIR_MSI_CTRL) ctrl.

(** The control register is read and written before [msix_location] is set. *)
Definition parse_pci_msix (off : Z) : M pst bool :=
  ctrl <- msix_get_control ;;
  msix_set_control (clear16 ctrl PCIM_MSIXCTRL_MSIX_ENABLE) ;;;
  ctrl' <- pci_readw (off + PCIR_MSIX_CTRL) ;;
  let msgnum := Z.land ctrl' PCIM_MSIXCTRL_TABLE_SIZE + 1 in
  table <- pci_readl (off + PCIR_MSIX_TABLE) ;;
  pba <- pci_readl (off + PCIR_MSIX_PBA) ;;
  upd_msix (fun p => set_msix true (_msix_enabled p)
    (Msix ctrl' msgnum off (Z.land table PCIM_MSIX_BIR_MASK) (Z.land pba PCIM_MSIX_BIR_MASK)
       (Z.ldiff table PCIM_MSIX_BIR_MASK) (Z.ldiff pba PCIM_MSIX_BIR_MASK)) p) ;;;
  ret true.
Definition parse_pci_msi (off : Z) : M pst bool :=
  ctrl <- pci_readw (off + PCIR_MSI_CTRL) ;;
  upd_msix (fun p => set_msi true (_msi_enabled p)
    (Msi off ctrl 1 (Z.testbit ctrl 7) (Z.testbit ctrl 8)) p) ;;;
  ret true.
Definition parse_pci_capabilities : M pst bool :=
  off <- find_capability PCI_CAP_MSIX ;;
  if negb (off =? 0xFF) then parse_pci_msix off
  else
    off' <- find_capability PCI_CAP_MSI ;;
    if negb (off' =? 0xFF) then parse_pci_msi off' else ret true.

Definition upd_ids (f : pci_ids -> pci_ids) : M pst unit := modify (fun s => set_pci (set_ids (f (ids (pci s))) (pci s)) s).
Definition parse_pci_config : M pst bool :=
  device <- pci_readw PCI_CFG_DEVICE_ID ;;
  vendor <- pci_readw PCI_CFG_VENDOR_ID ;;
  revision <- pci_readb PCI_CFG_REVISION_ID ;;
  header <- pci_readb PCI_CFG_HEADER_TYPE ;;
  class0 <- pci_readb PCI_CFG_CLASS_CODE0 ;;
  class1 <- pci_readb PCI_CFG_CLASS_CODE1 ;;
  class2 <- pci_readb PCI_CFG_CLASS_CODE2 ;;
  upd_ids (fun i => Ids revision header class0 class1 class2 device vendor (_subsystem_vid i) (_subsystem_id i)) ;;;
  parse_pci_capabilities.

Definition clear_dev (b : pci_bar) : pci_bar :=
  PciBar false (_pos b) (_addr_lo b) (_addr_hi b) (_addr_64 b) (_addr_size b) (_addr_mmio b) (_is_mmio b) (_is_64 b) (_is_prefetchable b).
Definition pci_device_parse_config : M pst bool :=
  modify (fun s => set_pci (set_bars (clear_dev <$> _bars (pci s)) (pci s)) s) ;;;
  parse_pci_config ;;;
  svid <- pci_readw PCI_CFG_SUBSYSTEM_VENDOR_ID ;;
  sid <- pci_readw PCI_CFG_SUBSYSTEM_ID ;;
  upd_ids (fun i => Ids (_revision_id i) (_header_type i) (_base_class_code i) (_sub_class_code i)
    (_programming_interface i) (_device_id i) (_vendor_id i) svid sid) ;;;
  set_pci_bars_enable true true ;;;
  bars_loop 6 PCI_CFG_BAR_1 1 ;;;
  ret true.

(** ** MSI *)
Definition pci_is_msi : M pst bool := gets (fun s => _have_msi (pci s)).
Definition pci_is_msix : M pst bool := gets (fun s => _have_msix (pci s)).

(** [msi_mask_entry] and [msi_unmask_entry]: [f] is what they do to the mask. *)
Definition msi_change_mask (f : Z -> Z) (entry_id : Z) : M pst bool :=
  have <- pci_is_msi ;;
  x <- gets (fun s => _msi (pci s)) ;;
  if negb have then ret false
  else if msi_msgnum x <=? entry_id then ret false
  else
    (if is_vector_mask x then
       let reg := wrap8 (msi_location x + if is_64_address x then PCIR_MSI_MASK_64 else PCIR_MSI_MASK_32) in
       mask <- pci_readl reg ;;
       pci_writel reg (f mask)
     else ret tt) ;;;
    ret true.
Definition msi_mask_entry (entry_id : Z) : M pst bool :=
  msi_change_mask (fun mask => Z.lor mask (Z.shiftl 1 entry_id)) entry_id.
Definition msi_unmask_entry (entry_id : Z) : M pst bool :=
  msi_change_mask (fun mask => Z.ldiff mask (Z.shiftl 1 entry_id)) entry_id.

(** Both branches write the data register of the 64-bit layout. *)
Definition pci_msi_write_entry (entry_id : Z) (msg : msi_msg) : M pst bool :=
  have <- pci_is_msi ;;
  x <- gets (fun s => _msi (pci s)) ;;
  if negb have then ret false
  else if msi_msgnum x <=? entry_id then ret false
  else
    pci_writel (msi_location x + PCIR_MSI_ADDR) (address_lo msg) ;;;
    (if is_64_address x then pci_writel (msi_location x + PCIR_MSI_UADDR) (address_hi msg) else ret tt) ;;;
    pci_writel (msi_location x + PCIR_MSI_DATA_64) (data msg) ;;;
    ret true.

(** [for (i = 0; i < msgnum; i++) mask(i)] *)
Fixpoint mask_entries (mask : Z -> M pst bool) (n : nat) (i : Z) : M pst unit :=
  match n with O => ret tt | S n' => mask i ;;; mask_entries mask n' (i + 1) end.
Definition set_msi_enabled (b : bool) : M pst unit := upd_msix (fun p => set_msi (_have_msi p) b (_msi p) p).
Definition pci_msi_enable : M pst unit :=
  have <- pci_is_msi ;;
  if negb have then ret tt
  else
    disable_intx ;;;
    ctrl <- msi_get_control ;;
    n <- gets (fun s => msi_msgnum (_msi (pci s))) ;;
    mask_entries msi_mask_entry (Z.to_nat n) 0 ;;;
    msi_set_control (Z.lor ctrl PCIR_MSI_CTRL_ME) ;;;
    set_msi_enabled true.
Definition pci_msi_disable : M pst unit :=
  have <- pci_is_msi ;;
  if negb have then ret tt
  else
    ctrl <- msi_get_control ;;
    msi_set_control (clear16 ctrl PCIR_MSI_CTRL_ME) ;;;
    set_msi_enabled false.

(** ** MSI-X *)

(** [mmio_getl], [mmio_setl]: a register of a mapped device. *)
Definition mmio_getl (addr : Z) : M pst Z :=
  o <- gets (fun s => mmu (ram (vmem s)) (PgTable.pml4 (vmem s)) addr) ;;
  pa <- deref_opt o ;; gets (fun s => io s (fst pa)).
Definition mmio_setl (addr v : Z) : M pst unit :=
  o <- gets (fun s => mmu (ram (vmem s)) (PgTable.pml4 (vmem s)) addr) ;;
  pa <- deref_opt o ;; modify (fun s => set_io (upd (fst pa) (wrap32 v) (io s)) s).

Definition msix_get_table : M pst Z :=
  x <- gets (fun s => _msix (pci s)) ;;
  bar <- pci_get_bar (msix_table_bar x + 1) ;;
  match bar with
  | None => ret 0
  | Some i => b <- get_bar i ;; ret (wrap64 (_addr_mmio b + msix_table_offset x))
  end.

(** [msix_mask_entry] and [msix_unmask_entry]. *)
Definition msix_change_mask (f : Z -> Z) (entry_id : Z) : M pst bool :=
  have <- pci_is_msix ;;
  n <- gets (fun s => msix_msgnum (_msix (pci s))) ;;
  if negb have then ret false
  else if n <=? entry_id then ret false
  else
    table <- msix_get_table ;;
    let ctrl := wrap64 (wrap64 (table + entry_id * MSIX_ENTRY_SIZE) + MSIX_ENTRY_CONTROL) in
    ctrl_data <- mmio_getl ctrl ;;
    mmio_setl ctrl (f ctrl_data) ;;;
    ret true.
Definition msix_mask_entry (entry_id : Z) : M pst bool :=
  msix_change_mask (fun c => Z.lor c (Z.shiftl 1 MSIX_ENTRY_CONTROL_MASK_BIT)) entry_id.
Definition msix_unmask_entry (entry_id : Z) : M pst bool :=
  msix_change_mask (fun c => Z.ldiff c (Z.shiftl 1 MSIX_ENTRY_CONTROL_MASK_BIT)) entry_id.

Definition msix_unmask_all : M pst unit :=
  have <- pci_is_msix ;;
  if negb have then ret tt
  else ctrl <- msix_get_control ;; msix_set_control (clear16 ctrl PCIM_MSIXCTRL_FUNCTION_MASK).
Definition msix_mask_all : M pst unit :=
  have <- pci_is_msix ;;
  if negb have then ret tt
  else ctrl <- msix_get_control ;; msix_set_control (Z.lor ctrl PCIM_MSIXCTRL_FUNCTION_MASK).

Definition pci_msix_enable : M pst unit :=
  have <- pci_is_msix ;;
  if negb have then ret tt
  else
    x <- gets (fun s => _msix (pci s)) ;;
    bar <- pci_get_bar (msix_table_bar x + 1) ;;
    match bar with
    | None => ret tt
    | Some i =>
        pci_bar_map i ;;;
        disable_intx ;;;
        ctrl <- msix_get_control ;;
        msix_set_control (Z.lor (Z.lor ctrl PCIM_MSIXCTRL_MSIX_ENABLE) PCIM_MSIXCTRL_FUNCTION_MASK) ;;;
        ctrl' <- msix_get_control ;;
        mask_entries msix_mask_entry (Z.to_nat (msix_msgnum x)) 0 ;;;
        msix_set_control (clear16 ctrl' PCIM_MSIXCTRL_FUNCTION_MASK) ;;;
        upd_msix (fun p => set_msix (_have_msix p) true (_msix p) p)
    end.

Definition pci_msix_write_entry (entry : Z) (msg : msi_msg) : M pst bool :=
  have <- pci_is_msix ;;
  n <- gets (fun s => msix_msgnum (_msix (pci s))) ;;
  if negb have then ret false
  else if n <=? entry then ret false
  else
    table <- msix_get_table ;;
    let entryaddr := wrap64 (table + entry * MSIX_ENTRY_SIZE) in
    mmio_setl (wrap64 (entryaddr + MSIX_ENTRY_ADDR_LO)) (address_lo msg) ;;;
    mmio_setl (wrap64 (entryaddr + MSIX_ENTRY_ADDR_HI)) (address_hi msg) ;;;
    mmio_setl (wrap64 (entryaddr + MSIX_ENTRY_DATA)) (data msg) ;;;
    ret true.

(** ** Handlers and vectors *)

(** [for (i = 100; i < 256; i++)]: the first vector nobody has. *)
Fixpoint free_vector (n : nat) (i : Z) (l : list Z) : Z :=
  match n with
  | O => 0
  | S n' => if default 1 (l !! Z.to_nat i) =? default_irq_handler then i else free_vector n' (i + 1) l
  end.
Definition register_irq_handler (p : Z) : M pst Z :=
  b <- gets spin_irq ;;
  (if b : bool then deadlock else modify (fun s => set_irq (irq_vectors s) true s)) ;;;
  l <- gets irq_vectors ;;
  let i := free_vector 156 100 l in
  modify (fun s => set_irq (if i =? 0 then l else <[Z.to_nat i := p]> l) false s) ;;;
  ret i.

(** [x2apic_enabled()] is a bit of a model-specific register. *)
Context (x2apic_enabled : bool).
Definition msi_compose_msg (vector destid : Z) : msi_msg :=
  MsiMsg (Z.lor 0xfee00000 (Z.land (wrap32 (Z.shiftl destid 12)) 0x00ffff0))
    (if x2apic_enabled then Z.land destid 0xffffff00 else 0)
    (Z.lor 0x4000 (Z.land vector 0xff)).

Definition msi_program (i n destid : Z) : M pst unit :=
  let msg := msi_compose_msg n destid in
  have <- pci_is_msix ;;
  if have : bool then
    msix_mask_entry i ;;; pci_msix_write_entry i msg ;;; msix_unmask_entry i ;;; ret tt
  else
    msi_mask_entry i ;;; pci_msi_write_entry i msg ;;; msi_unmask_entry i ;;; ret tt.
Definition msi_enable : M pst unit :=
  have <- pci_is_msix ;; if have : bool then pci_msix_enable else pci_msi_enable.

Definition msi_register_one (destid p : Z) : M pst bool :=
  n <- register_irq_handler p ;;
  if n =? 0 then ret false
  else msi_enable ;;; msi_program 0 n destid ;;; ret true.
Fixpoint register_arr_loop (l : list Z) (i destid : Z) : M pst bool :=
  match l with
  | [] => ret true
  | p :: l' =>
      n <- register_irq_handler p ;;
      if n =? 0 then ret false else msi_program i n destid ;;; register_arr_loop l' (i + 1) destid
  end.
Definition msi_register_arr (destid : Z) (l : list Z) : M pst bool :=
  msi_enable ;;; register_arr_loop l 0 destid.
End device.
#[global] Arguments pst D T : clear implicits.
