(* ===== verification/PciBar.v ===== *)
(** * PciBar: what parsing a device's configuration finds

    Proofs about PciDev.v: accesses to the device's registers, the size and
    address of every kind of base address register, the loop over them, and the
    search for a capability. *)
From Stdlib Require Import ZArith Lia.
From stdpp Require Import base tactics gmap list option.
From S2P Require Import Prelude Pages Layout PhyMem PhyPage PgTable PgWalk PgMap Pci PciDev.
#[export] Set Warnings "-clear-no-such-hyp".

(** ** Words of bits *)

(** [x & mask] for a mask of the bits from [n] to [m]. *)
Lemma testbit_mask n m i : 0 <= n <= m -> 0 <= i -> Z.testbit (2 ^ m - 2 ^ n) i = (n <=? i) && (i <? m).
Proof.
  intros Hn Hi. replace (2 ^ m - 2 ^ n) with (Z.shiftl (Z.ones (m - n)) n).
  - rewrite Z.shiftl_spec by lia. destruct (Z.leb_spec n i); cbn [andb].
    + rewrite Z.testbit_ones_nonneg by lia. destruct (Z.ltb_spec (i - n) (m - n)), (Z.ltb_spec i m); lia || done.
    + by rewrite Z.testbit_neg_r by lia.
  - rewrite Z.shiftl_mul_pow2, Z.ones_equiv by lia. rewrite <- Z.sub_1_r, Z.mul_sub_distr_r, <- Z.pow_add_r by lia.
    replace (m - n + n) with m by lia. lia.
Qed.

Lemma land_mask x n m : 0 <= n <= m -> 0 <= x < 2 ^ m -> Z.land x (2 ^ m - 2 ^ n) = x - x mod 2 ^ n.
Proof.
  intros Hn Hx. transitivity (Z.ldiff x (Z.ones n)).
  - apply Z.bits_inj'. intros i Hi. rewrite Z.land_spec, Z.ldiff_spec, testbit_mask, Z.testbit_ones_nonneg by lia.
    destruct (Z.ltb_spec i m).
    + destruct (Z.leb_spec n i), (Z.ltb_spec i n); cbn; rewrite ?andb_true_r; lia || done.
    + rewrite (testbit_above x m i) by lia. done.
  - rewrite Z.ldiff_ones_r, Z.shiftl_mul_pow2, Z.shiftr_div_pow2 by lia.
    pose proof (Z.div_mod x (2 ^ n)). lia.
Qed.

Lemma testbit_mod_pow2 x n i : 0 <= n -> 0 <= i -> Z.testbit (x mod 2 ^ n) i = (i <? n) && Z.testbit x i.
Proof.
  intros Hn Hi. destruct (Z.ltb_spec i n); cbn [andb]; [by apply Z.mod_pow2_bits_low|apply Z.mod_pow2_bits_high; lia].
Qed.

(** A word whose bits below [k] are all below [n] has none between. *)
Lemma testbit_gap x n k i : 0 <= n <= i -> i < k -> x mod 2 ^ k < 2 ^ n -> Z.testbit x i = false.
Proof.
  intros Hi Hk Hx. pose proof (Z.mod_pos_bound x (2 ^ k) ltac:(lia)).
  rewrite <- (Z.mod_pow2_bits_low x k i) by lia. apply (testbit_above _ n); lia.
Qed.

(** ** Access to the device *)
Section access.
Context {D : Type} `{PR : PciRegisters D} {T : Type} `{FA : FrameAlloc T}.
Implicit Types (s : pst D T) (d : D).

(** Two functions nobody can tell apart. *)
Definition same_regs (d d' : D) : Prop := forall r, cfg_get d r = cfg_get d' r /\ cfg_wmask d r = cfg_wmask d' r.
#[export] Instance same_regs_equiv : Equivalence same_regs.
Proof.
  split; [done|by intros d d' Hs r; destruct (Hs r)|].
  intros d1 d2 d3 Hs Hs' r. destruct (Hs r), (Hs' r). split; congruence.
Qed.

(** The state [s0] with the address port moved and the device's registers [d]. *)
Record dev_at s0 d s : Prop := {
  da_bus : exists a, s = set_hw (Bus a (<[index (bdf (pci s0)) := d]> (funcs (hw s0)))) s0;
  da_where : where_ok (bdf (pci s0))
}.

Lemma dev_at_start s d : funcs (hw s) !! index (bdf (pci s)) = Some d -> where_ok (bdf (pci s)) -> dev_at s d s.
Proof.
  intros Hd Hw. split; [|done]. exists (config_address (hw s)). rewrite insert_id by done. by destruct s as [[]].
Qed.

(** A change of the state beside the bus, and of the structure. *)
Lemma dev_at_set s0 d s (f : pst D T -> pst D T) : dev_at s0 d s ->
  (forall u t, f (set_hw u t) = set_hw u (f t)) -> (forall t, hw (f t) = hw t) -> bdf (pci (f s0)) = bdf (pci s0) ->
  dev_at (f s0) d (f s).
Proof. intros [[a ->] Hw] Hc Hh Hb. split; rewrite ?Hb; [|done]. exists a. by rewrite Hc, Hh. Qed.

Lemma dev_at_pci s0 d s : dev_at s0 d s -> pci s = pci s0 /\ vmem s = vmem s0 /\ io s = io s0 /\
  irq_vectors s = irq_vectors s0 /\ spin_irq s = spin_irq s0.
Proof. by intros [[a ->] _]. Qed.

Lemma wp_read {A} (get : Z -> Z -> Z -> Z -> M (bus D) A) (v : D -> Z -> A) o s0 d s Q :
  (forall w u d, where_ok w -> funcs u !! index w = Some d ->
     get (_bus w) (_device w) (_func w) o u = Done (v d o, Bus (address_of w o) (funcs u))) ->
  dev_at s0 d s -> (forall s', dev_at s0 d s' -> Q (v d o) s') ->
  wp (w <- gets (fun s => bdf (pci s)) ;; on_hw (get (_bus w) (_device w) (_func w) o)) s Q.
Proof.
  intros Hget [[a ->] Hw] HQ. wp_steps. unfold on_hw. apply wp_zoom. unfold wp. cbn [pci hw set_hw bdf].
  rewrite (Hget _ _ d Hw) by (cbn; by rewrite lookup_insert_eq). apply HQ. split; [|done]. by exists (address_of (bdf (pci s0)) o).
Qed.

Lemma wp_pci_readl o s0 d s Q : 0 <= o < 256 -> dev_at s0 d s ->
  (forall s', dev_at s0 d s' -> Q (cfg_get d (o / 4 * 4)) s') -> wp (pci_readl o) s Q.
Proof.
  intros Ho Hd HQ. unfold pci_readl. unfold wrap8. rewrite (Z.mod_small o) by lia.
  apply (wp_read (fun b dv f o => read_pci_config b dv f o) (fun d o => cfg_get d (o / 4 * 4)) o s0 d); [|done|done].
  intros w u d' Hw Hd'. unfold read_pci_config. rewrite read_bits, Hd' by done. by rewrite cfg_bits_32.
Qed.
Lemma wp_pci_readw o s0 d s Q : 0 <= o < 256 -> dev_at s0 d s ->
  (forall s', dev_at s0 d s' -> Q (cfg_word d o) s') -> wp (pci_readw o) s Q.
Proof.
  intros Ho Hd HQ. unfold pci_readw. unfold wrap8. rewrite (Z.mod_small o) by lia.
  apply (wp_read (fun b dv f o => read_pci_config_word b dv f o) cfg_word o s0 d); [|done|done].
  intros w u d' Hw Hd'. unfold read_pci_config_word. by rewrite read_bits, Hd' by done.
Qed.
Lemma wp_pci_readb o s0 d s Q : dev_at s0 d s ->
  (forall s', dev_at s0 d s' -> Q (cfg_byte d (wrap8 o)) s') -> wp (pci_readb o) s Q.
Proof.
  intros Hd HQ. unfold pci_readb. assert (0 <= wrap8 o < 256) by (apply Z.mod_pos_bound; lia).
  apply (wp_read (fun b dv f o => read_pci_config_byte b dv f o) cfg_byte (wrap8 o) s0 d); [|done|done].
  intros w u d' Hw Hd'. unfold read_pci_config_byte. by rewrite read_bits, Hd' by done.
Qed.

(** Writes of a register and of half of one. *)
Definition put_word (d : D) (o v : Z) : D :=
  cfg_put d (o / 4 * 4) (Z.shiftl (wrap16 v) (8 * Z.land o 2)) (Z.shiftl (Z.ones 16) (8 * Z.land o 2)).
Lemma wp_pci_writel o v s0 d s Q : 0 <= o < 256 -> dev_at s0 d s ->
  (forall s', dev_at s0 (cfg_put d (o / 4 * 4) (wrap32 v) (Z.ones 32)) s' -> Q tt s') -> wp (pci_writel o v) s Q.
Proof.
  intros Ho [[a ->] Hw] HQ. unfold pci_writel. unfold wrap8. rewrite (Z.mod_small o) by lia. wp_steps.
  unfold on_hw. apply wp_zoom. unfold wp, write_pci_config. cbn [pci hw set_hw bdf].
  rewrite (write_bits 32 0 _ _ _ _ d Hw Ho) by (cbn; by rewrite lookup_insert_eq). apply HQ. split; [|done]. cbn [hw set_hw funcs].
  exists (address_of (bdf (pci s0)) o). by rewrite insert_insert_eq.
Qed.
Lemma wp_pci_writew o v s0 d s Q : 0 <= o < 256 -> dev_at s0 d s ->
  (forall s', dev_at s0 (put_word d o v) s' -> Q tt s') -> wp (pci_writew o v) s Q.
Proof.
  intros Ho [[a ->] Hw] HQ. unfold pci_writew. unfold wrap8. rewrite (Z.mod_small o) by lia. wp_steps.
  unfold on_hw. apply wp_zoom. unfold wp, write_pci_config_word. cbn [pci hw set_hw bdf].
  rewrite (write_bits 16 _ _ _ _ _ d Hw Ho) by (cbn; by rewrite lookup_insert_eq). apply HQ. split; [|done]. cbn [hw set_hw funcs].
  exists (address_of (bdf (pci s0)) o). by rewrite insert_insert_eq.
Qed.

(** All ones, the value read, and the old value again. *)
Lemma land_ones_mask x : 0 <= x < 2 ^ 32 -> Z.land x (Z.ones 32) = x.
Proof. intros Hx. by rewrite Z.land_ones, Z.mod_small by lia. Qed.

Lemma get_put_ones d r q : cfg_get (cfg_put d r 0xFFFFFFFF (Z.ones 32)) q =
  if q =? r then Z.lor (Z.ldiff (cfg_get d r) (cfg_wmask d r)) (cfg_wmask d r) else cfg_get d q.
Proof.
  rewrite cfg_put_get. change 0xFFFFFFFF with (Z.ones 32). rewrite (land_ones_mask (cfg_wmask d r)) by apply cfg_wmask_range.
  by rewrite (Z.land_comm (Z.ones 32)), land_ones_mask by apply cfg_wmask_range.
Qed.

Lemma put_restores d r :
  same_regs (cfg_put (cfg_put d r 0xFFFFFFFF (Z.ones 32)) r (wrap32 (cfg_get d r)) (Z.ones 32)) d.
Proof.
  intros q. rewrite !cfg_put_wmask. split; [|done]. rewrite cfg_put_get, cfg_put_wmask, !get_put_ones, Z.eqb_refl.
  rewrite land_ones_mask by apply cfg_wmask_range. destruct (Z.eqb_spec q r) as [->|]; [|done].
  unfold wrap32. rewrite Z.mod_small by apply cfg_get_range. apply Z.bits_inj'. intros i Hi.
  rewrite !Z.lor_spec, !Z.ldiff_spec, Z.lor_spec, Z.ldiff_spec, Z.land_spec.
  by destruct (Z.testbit (cfg_get d r) i), (Z.testbit (cfg_wmask d r) i).
Qed.
End access.

(** ** Base address registers *)

(** What a register asks for: memory below 4G, memory anywhere (two registers),
    or ports; a size of [2 ^ k] at [base]. *)
Inductive bar_kind := Mem32 | Mem64 | Io.
Record barspec := Spec { kind : bar_kind; prefetch : bool; order : Z; base : Z }.
Definition is_wide (b : barspec) : bool := match kind b with Mem64 => true | _ => false end.
Definition is_io (b : barspec) : bool := match kind b with Io => true | _ => false end.
(** The bits of the register that say what it is, and how many there are. *)
Definition type_bits (b : barspec) : Z :=
  match kind b with Mem32 => if prefetch b then 8 else 0 | Mem64 => if prefetch b then 12 else 4 | Io => 1 end.
Definition low_bits (b : barspec) : Z := if is_io b then 2 else 4.

Record spec_ok (b : barspec) : Prop := {
  so_order : low_bits b <= order b < (if is_wide b then 64 else 32);
  so_base : 0 <= base b < 2 ^ (if is_wide b then 64 else 32);
  so_aligned : base b mod 2 ^ order b = 0;
  so_used : base b + type_bits b <> 0;
  so_io : is_io b = true -> prefetch b = false
}.

Section bars.
Context {D : Type} `{PR : PciRegisters D} {T : Type} `{FA : FrameAlloc T}.
Implicit Types (s : pst D T) (d : D).

(** The registers of such a function, as the PCI specification has them: the
    low bits and those below the size are hard-wired, the others hold the
    address. *)
Record is_bar d (r : Z) (b : barspec) : Prop := {
  ib_ok : spec_ok b;
  ib_lo : cfg_get d r = (base b + type_bits b) mod 2 ^ 32;
  ib_lo_mask : cfg_wmask d r = (2 ^ 64 - 2 ^ order b) mod 2 ^ 32;
  ib_hi : is_wide b = true -> cfg_get d (r + 4) = (base b + type_bits b) / 2 ^ 32;
  ib_hi_mask : is_wide b = true -> cfg_wmask d (r + 4) = (2 ^ 64 - 2 ^ order b) / 2 ^ 32
}.

(** What the structure says of it. *)
Definition the_bar (b : barspec) (r : Z) (old : pci_bar) : pci_bar :=
  PciBar true r (base b mod 2 ^ 32) (base b / 2 ^ 32) (base b) (2 ^ order b) (_addr_mmio old)
    (negb (is_io b)) (is_wide b) (prefetch b).
(** A structure nobody has used. *)
Definition fresh_bar (p : pci_bar) : Prop :=
  _dev p = false /\ _addr_hi p = 0 /\ _is_64 p = false /\ _is_prefetchable p = false.

Lemma type_bits_range b : spec_ok b -> 0 <= type_bits b < 2 ^ low_bits b /\ 2 ^ low_bits b <= 2 ^ order b.
Proof.
  intros [[Ho _] _ _ _ _]. split; [|apply Z.pow_le_mono_r; unfold low_bits in *; destruct (is_io b); lia].
  unfold type_bits, low_bits, is_io. destruct (kind b), (prefetch b); cbn; lia.
Qed.

Lemma value_mod b : spec_ok b -> (base b + type_bits b) mod 2 ^ order b = type_bits b.
Proof.
  intros Hs. pose proof (type_bits_range b Hs) as [Ht Hle]. rewrite <- Zplus_mod_idemp_l, so_aligned by done.
  rewrite Z.add_0_l. apply Z.mod_small. lia.
Qed.

Lemma value_range b : spec_ok b -> 0 <= base b + type_bits b < 2 ^ (if is_wide b then 64 else 32).
Proof.
  intros Hs. pose proof (type_bits_range b Hs) as [Ht Hle]. destruct Hs as [Ho Hb Ha _ _].
  set (n := if is_wide b then 64 else 32) in *. assert (0 <= low_bits b) by (unfold low_bits; destruct (is_io b); lia).
  assert (2 ^ n mod 2 ^ order b = 0) as Hm.
  { replace n with ((n - order b) + order b) by lia. rewrite Z.pow_add_r by lia. apply Z.mod_mul. lia. }
  pose proof (Z.div_mod (base b) (2 ^ order b) ltac:(lia)). pose proof (Z.div_mod (2 ^ n) (2 ^ order b) ltac:(lia)).
  split; [lia|]. pose proof (Z.pow_pos_nonneg 2 (order b) ltac:(lia) ltac:(lia)).
  assert (base b / 2 ^ order b + 1 <= 2 ^ n / 2 ^ order b) as Hq.
  { enough (base b / 2 ^ order b < 2 ^ n / 2 ^ order b) by lia. apply (Z.mul_lt_mono_pos_l (2 ^ order b)); lia. }
  apply (Z.mul_le_mono_nonneg_l _ _ (2 ^ order b)) in Hq; lia.
Qed.

(** The two halves read back after writing all ones, with the low bits cut,
    are the bits that can be written: the size. *)
Lemma sized_bits b :
  spec_ok b ->
  let v := base b + type_bits b in
  let wm := 2 ^ 64 - 2 ^ order b in
  let lo := Z.lor (Z.ldiff (v mod 2 ^ 32) (wm mod 2 ^ 32)) (wm mod 2 ^ 32) in
  let hi := if is_wide b then Z.lor (Z.ldiff (v / 2 ^ 32) (wm / 2 ^ 32)) (wm / 2 ^ 32) else 0xFFFFFFFF in
  Z.lor (Z.shiftl hi 32) (Z.land lo (2 ^ 32 - 2 ^ low_bits b)) = wm.
Proof.
  intros Hs v wm lo hi. pose proof (value_range b Hs) as Hv. pose proof (value_mod b Hs) as Hm.
  pose proof (type_bits_range b Hs) as [Ht Hle]. fold v in Hv, Hm. pose proof (so_order b Hs) as Ho.
  assert (2 <= low_bits b <= 4) as Hlow by (unfold low_bits; destruct (is_io b); lia).
  set (k := order b) in *. set (n := low_bits b) in *. assert (n <= k < 64) as Hk by (destruct (is_wide b); lia).
  apply Z.bits_inj'. intros i Hi. rewrite Z.lor_spec, Z.shiftl_spec, Z.land_spec, testbit_mask by lia.
  subst lo wm. rewrite Z.lor_spec, Z.ldiff_spec, !testbit_mod_pow2, testbit_mask by lia.
  destruct (Z.ltb_spec i 32) as [Hi32|Hi32].
  - rewrite (Z.testbit_neg_r hi) by lia. cbn [orb]. rewrite (proj2 (Z.ltb_lt i 64)) by lia. rewrite !andb_true_r. cbn [andb].
    destruct (Z.leb_spec k i); [rewrite (proj2 (Z.leb_le n i)) by lia; by rewrite orb_true_r|].
    destruct (Z.leb_spec n i); [|by rewrite andb_false_r]. by rewrite (testbit_gap v n k i) by lia.
  - rewrite !andb_false_r, orb_false_r. subst hi. destruct (is_wide b).
    + rewrite Z.lor_spec, Z.ldiff_spec, <- !Z.shiftr_div_pow2, !Z.shiftr_spec, testbit_mask by lia.
      replace (i - 32 + 32) with i by lia. destruct (Z.ltb_spec i 64).
      * rewrite andb_true_r. destruct (Z.leb_spec k i); [by rewrite orb_true_r|].
        rewrite (testbit_gap v n k i) by lia. done.
      * rewrite andb_false_r. rewrite (testbit_above v 64 i) by lia. done.
    + change 0xFFFFFFFF with (Z.ones 32). rewrite Z.testbit_ones_nonneg, (proj2 (Z.leb_le k i)) by lia.
      destruct (Z.ltb_spec (i - 32) 32), (Z.ltb_spec i 64); lia || done.
Qed.

Lemma size_of_bits k : 0 <= k < 64 -> wrap64 (lnot64 (2 ^ 64 - 2 ^ k) + 1) = 2 ^ k.
Proof.
  intros Hk. pose proof (Z.pow_lt_mono_r 2 k 64 ltac:(lia) ltac:(lia) ltac:(lia)). pose proof (Z.pow_pos_nonneg 2 k ltac:(lia) ltac:(lia)).
  assert (lnot64 (2 ^ 64 - 2 ^ k) = 2 ^ k - 1) as ->.
  { unfold lnot64. change (2 ^ 64 - 1) with (Z.ones 64). replace (2 ^ k - 1) with (Z.ones k) by (rewrite Z.ones_equiv; lia).
    apply Z.bits_inj'. intros i Hi. rewrite Z.lxor_spec, testbit_mask, !Z.testbit_ones_nonneg by lia.
    destruct (Z.leb_spec k i), (Z.ltb_spec i 64), (Z.ltb_spec i k); lia || done. }
  rewrite wrap64_small; lia.
Qed.

Lemma pci_bar_read_size_ok b p r s0 d s : is_bar d r b -> dev_at s0 d s -> r mod 4 = 0 -> 0 <= r < 252 ->
  _pos p = r -> _is_mmio p = negb (is_io b) -> _is_64 p = is_wide b ->
  wp (pci_bar_read_size p) s (fun z s' => z = 2 ^ order b /\ exists d', same_regs d' d /\ dev_at s0 d' s').
Proof.
  intros [Hs Hlo Hlm Hhi Hhm] Hd Hr Hr2 Hpos Hmm H64. unfold pci_bar_read_size, pci_bar_is_pio. rewrite Hpos, Hmm, H64, negb_involutive.
  assert (r / 4 * 4 = r) as Hr4 by (Z.to_euclidean_division_equations; lia).
  assert ((r + 4) / 4 * 4 = r + 4) as Hr8 by (Z.to_euclidean_division_equations; lia).
  wp_steps. eapply wp_pci_readl; [lia|exact Hd|]. intros s1 Hd1. wp_steps. rewrite Hr4.
  eapply wp_pci_writel; [lia|exact Hd1|]. intros s2 Hd2. rewrite Hr4 in Hd2. change (wrap32 4294967295) with 0xFFFFFFFF in Hd2. wp_steps.
  eapply wp_pci_readl; [lia|exact Hd2|]. intros s3 Hd3. rewrite Hr4, get_put_ones, Z.eqb_refl. wp_steps.
  eapply wp_pci_writel; [lia|exact Hd3|]. intros s4 Hd4. rewrite Hr4 in Hd4. wp_steps.
  set (d1 := cfg_put _ r (wrap32 _) _) in Hd4. assert (same_regs d1 d) as Hd1' by apply put_restores.
  pose proof (sized_bits b Hs) as Hbits. cbv zeta in Hbits.
  assert ((if is_io b then PCI_BAR_PIO_ADDR_MASK else PCI_BAR_MEM_ADDR_LO_MASK) = 2 ^ 32 - 2 ^ low_bits b) as ->.
  { unfold low_bits. by destruct (is_io b). }
  rewrite Hlo, Hlm. assert (0 <= order b < 64) as Hord.
  { pose proof (so_order b Hs). unfold low_bits in *. destruct (is_io b), (is_wide b); lia. }
  destruct (is_wide b) eqn:Hw.
  - wp_steps. eapply wp_pci_readl; [lia|exact Hd4|]. intros s5 Hd5. wp_steps. rewrite Hr8.
    eapply wp_pci_writel; [lia|exact Hd5|]. intros s6 Hd6. rewrite Hr8 in Hd6. change (wrap32 4294967295) with 0xFFFFFFFF in Hd6. wp_steps.
    eapply wp_pci_readl; [lia|exact Hd6|]. intros s7 Hd7. rewrite Hr8, get_put_ones, Z.eqb_refl. wp_steps.
    eapply wp_pci_writel; [lia|exact Hd7|]. intros s8 Hd8. rewrite Hr8 in Hd8. wp_steps.
    destruct (Hd1' (r + 4)) as [-> ->]. rewrite Hhi, Hhm, Hbits by done. split; [by apply size_of_bits|].
    eexists. split; [|exact Hd8]. etransitivity; [apply put_restores|done].
  - wp_steps. rewrite Hbits. split; [by apply size_of_bits|]. by exists d1.
Qed.
End bars.

(** ** Reading the registers into the structure *)
Section parse.
Context {D : Type} `{PR : PciRegisters D} {T : Type} `{FA : FrameAlloc T}.
Implicit Types (s : pst D T) (d : D).

Lemma same_regs_bar d d' r b : same_regs d' d -> is_bar d r b -> is_bar d' r b.
Proof.
  intros Hs [? ? ? ? ?]. split; [done| | | |].
  - by rewrite (proj1 (Hs r)).
  - by rewrite (proj2 (Hs r)).
  - by rewrite (proj1 (Hs (r + 4))).
  - by rewrite (proj2 (Hs (r + 4))).
Qed.

(** The low bits of the first word say which kind of register it is. *)
Lemma value_low b n : spec_ok b -> 0 <= n <= low_bits b -> ((base b + type_bits b) mod 2 ^ 32) mod 2 ^ n = type_bits b mod 2 ^ n.
Proof.
  intros Hs Hn. pose proof (value_mod b Hs) as Hm. pose proof (type_bits_range b Hs) as [Ht Hle].
  pose proof (so_order b Hs) as Ho. assert (low_bits b <= 4) by (unfold low_bits; destruct (is_io b); lia).
  set (v := base b + type_bits b) in *. apply Z.bits_inj'. intros i Hi. rewrite !testbit_mod_pow2 by lia.
  destruct (Z.ltb_spec i n); [|done]. rewrite (proj2 (Z.ltb_lt i 32)) by lia. cbn [andb].
  rewrite <- Hm, testbit_mod_pow2, (proj2 (Z.ltb_lt i (order b))) by lia. done.
Qed.

Lemma value_land b m : spec_ok b -> 0 <= m < 2 ^ low_bits b ->
  Z.land ((base b + type_bits b) mod 2 ^ 32) m = Z.land (type_bits b) m.
Proof.
  intros Hs Hm. set (n := low_bits b) in *. assert (0 <= n) by (subst n; unfold low_bits; destruct (is_io b); lia).
  pose proof (value_low b n Hs ltac:(lia)) as Hv. apply Z.bits_inj'. intros i Hi. rewrite !Z.land_spec.
  destruct (Z.ltb_spec i n); [|by rewrite (testbit_above m n i), !andb_false_r by lia].
  f_equal. pose proof (f_equal (fun x => Z.testbit x i) Hv) as Hb. cbn beta in Hb.
  rewrite !testbit_mod_pow2, (proj2 (Z.ltb_lt i n)) in Hb by lia. by rewrite testbit_mod_pow2 by lia.
Qed.

Lemma value_halves b : spec_ok b ->
  Z.land ((base b + type_bits b) mod 2 ^ 32) (2 ^ 32 - 2 ^ low_bits b) = base b mod 2 ^ 32 /\
  (base b + type_bits b) / 2 ^ 32 = base b / 2 ^ 32 /\
  Z.lor (Z.shiftl (base b / 2 ^ 32) 32) (base b mod 2 ^ 32) = base b.
Proof.
  intros Hs. pose proof (value_range b Hs) as Hv. pose proof (value_low b (low_bits b) Hs) as Hlow.
  pose proof (type_bits_range b Hs) as [Ht Hle]. assert (2 <= low_bits b <= 4) as Hn by (unfold low_bits; destruct (is_io b); lia).
  specialize (Hlow ltac:(lia)). rewrite (Z.mod_small (type_bits b)) in Hlow by lia.
  set (v := base b + type_bits b) in *. pose proof (Z.mod_pos_bound v (2 ^ 32) ltac:(lia)) as Hvm.
  assert (2 ^ low_bits b <= 16) as Hn16 by (change 16 with (2 ^ 4); apply Z.pow_le_mono_r; lia).
  pose proof (Z.mod_le (v mod 2 ^ 32) (2 ^ low_bits b)) as Hml.
  pose proof (Z.div_mod v (2 ^ 32) ltac:(lia)) as Hd.
  assert (base b = 2 ^ 32 * (v / 2 ^ 32) + (v mod 2 ^ 32 - type_bits b)) as Hb by lia.
  assert (base b / 2 ^ 32 = v / 2 ^ 32 /\ base b mod 2 ^ 32 = v mod 2 ^ 32 - type_bits b) as [Hbd Hbm].
  { assert (0 <= v mod 2 ^ 32 - type_bits b < 2 ^ 32) by lia. split; [symmetry; by apply (Z.div_unique _ _ _ (v mod 2 ^ 32 - type_bits b)); [lia|]|].
    symmetry. apply (Z.mod_unique _ _ (v / 2 ^ 32)); [lia|done]. }
  split; [|split; [done|]].
  - rewrite land_mask, Hlow by lia. lia.
  - rewrite Z.shiftl_mul_pow2, lor_low_add by (try apply Z.mod_pos_bound; lia).
    pose proof (Z.div_mod (base b) (2 ^ 32) ltac:(lia)). lia.
Qed.

Lemma pci_bar_init_ok b old r s0 d s : is_bar d r b -> dev_at s0 d s -> r mod 4 = 0 -> 0 <= r < 252 -> fresh_bar old ->
  wp (pci_bar_init old r) s (fun p s' => p = the_bar b r old /\ exists d', same_regs d' d /\ dev_at s0 d' s').
Proof.
  intros Hb Hd Hr Hr2 (_ & Hhi0 & H640 & Hpf0). pose proof (ib_ok _ _ _ Hb) as Hs.
  assert (r / 4 * 4 = r) as Hr4 by (Z.to_euclidean_division_equations; lia).
  assert ((r + 4) / 4 * 4 = r + 4) as Hr8 by (Z.to_euclidean_division_equations; lia).
  unfold pci_bar_init. unfold wrap8. rewrite !(Z.mod_small r) by lia. wp_steps.
  eapply wp_pci_readl; [lia|exact Hd|]. intros s1 Hd1. wp_steps. rewrite Hr4, (ib_lo _ _ _ Hb).
  assert (Hlow1 : 1 < 2 ^ low_bits b) by (unfold low_bits; by destruct (is_io b)).
  rewrite (value_land b 1) by (done || lia). rewrite H640, Hpf0, Hhi0.
  assert ((Z.land (type_bits b) 1 =? 0) = negb (is_io b)) as ->.
  { unfold type_bits, is_io. by destruct (kind b), (prefetch b). }
  assert ((if negb (is_io b) then Z.land ((base b + type_bits b) mod 2 ^ 32) 6 =? 4 else false) = is_wide b) as ->.
  { destruct (is_io b) eqn:Hio; cbn [negb]; [unfold is_io, is_wide in *; by destruct (kind b)|].
    rewrite (value_land b 6) by (try done; unfold low_bits; rewrite Hio; lia).
    unfold type_bits, is_wide, is_io in *. by destruct (kind b), (prefetch b). }
  assert ((if negb (is_io b) then Z.land ((base b + type_bits b) mod 2 ^ 32) 8 =? 8 else false) = prefetch b) as ->.
  { destruct (is_io b) eqn:Hio; cbn [negb]; [symmetry; by apply Hs|].
    rewrite (value_land b 8) by (try done; unfold low_bits; rewrite Hio; lia).
    unfold type_bits, is_io in *. by destruct (kind b), (prefetch b). }
  eapply wp_mono; [by eapply (pci_bar_read_size_ok b _ r s0 d s1)|]. intros z s2 (-> & d2 & Hsame & Hd2). cbn beta.
  destruct (value_halves b Hs) as (Hl & Hh & Hwhole).
  assert ((if negb (is_io b) then PCI_BAR_MEM_ADDR_LO_MASK else PCI_BAR_PIO_ADDR_MASK) = 2 ^ 32 - 2 ^ low_bits b) as ->.
  { unfold low_bits. by destruct (is_io b). }
  rewrite Hl. assert (negb (is_io b) && is_wide b = is_wide b) as -> by (unfold is_io, is_wide; by destruct (kind b)).
  destruct (is_wide b) eqn:Hw.
  - wp_steps. eapply wp_pci_readl; [lia|exact Hd2|]. intros s3 Hd3. wp_steps.
    rewrite Hr8, (proj1 (Hsame (r + 4))), (ib_hi _ _ _ Hb Hw), Hh, Hwhole. split; [|by exists d2].
    unfold the_bar. by rewrite Hw.
  - wp_steps. assert (base b / 2 ^ 32 = 0) as Hz.
    { apply Z.div_small. pose proof (so_base b Hs) as Hsb. by rewrite Hw in Hsb. }
    rewrite Hz in Hwhole. change (Z.shiftl 0 32) with 0 in Hwhole |- *. rewrite Hwhole. split; [|by exists d2].
    unfold the_bar. by rewrite Hw, Hz.
Qed.
End parse.

(** ** All six registers *)
Section loop.
Context {D : Type} `{PR : PciRegisters D} {T : Type} `{FA : FrameAlloc T}.
Implicit Types (s : pst D T) (d : D) (l : list (option barspec)).

(** The registers from [pos] to the last, in order; one that reads as zero is
    not used, and a wide one takes two. *)
Fixpoint bars_at d (pos : Z) l : Prop :=
  match l with
  | [] => pos = PCI_CFG_BAR_6 + 4
  | None :: l' => cfg_get d pos = 0 /\ bars_at d (pos + 4) l'
  | Some b :: l' => is_bar d pos b /\ bars_at d (pos + if is_wide b then 8 else 4) l'
  end.
(** The array [_bars] afterwards; the entry behind a wide one is left alone. *)
Fixpoint bars_of (pos : Z) l (olds : list pci_bar) : list pci_bar :=
  match l, olds with
  | None :: l', o :: olds' => o :: bars_of (pos + 4) l' olds'
  | Some b :: l', o :: olds' =>
      the_bar b pos o ::
        (if is_wide b then match olds' with o' :: olds'' => o' :: bars_of (pos + 8) l' olds'' | [] => [] end
         else bars_of (pos + 4) l' olds')
  | _, _ => olds
  end.

(** Everything but the command register reads the same. *)
Definition same_but (r : Z) d d' : Prop := forall q, q <> r -> cfg_get d q = cfg_get d' q /\ cfg_wmask d q = cfg_wmask d' q.

Lemma is_bar_same_but d d' r b : same_but PCI_CFG_COMMAND d' d -> PCI_CFG_BAR_1 <= r -> is_bar d r b -> is_bar d' r b.
Proof.
  unfold PCI_CFG_COMMAND, PCI_CFG_BAR_1. intros Hs Hr [? ? ? ? ?]. split; [done| | | |].
  - by rewrite (proj1 (Hs r ltac:(lia))).
  - by rewrite (proj2 (Hs r ltac:(lia))).
  - by rewrite (proj1 (Hs (r + 4) ltac:(lia))).
  - by rewrite (proj2 (Hs (r + 4) ltac:(lia))).
Qed.

Lemma bars_at_same_but d d' l : forall pos, same_but PCI_CFG_COMMAND d' d -> PCI_CFG_BAR_1 <= pos -> bars_at d pos l -> bars_at d' pos l.
Proof.
  induction l as [|[b|] l IH]; intros pos Hs Hp; cbn [bars_at]; [done| |].
  - intros [Hb Hl]. split; [by eapply is_bar_same_but|]. apply IH; [done|destruct (is_wide b); lia|done].
  - intros [Hz Hl]. split; [|apply IH; [done|lia|done]]. rewrite (proj1 (Hs pos ltac:(unfold PCI_CFG_COMMAND, PCI_CFG_BAR_1 in *; lia))). done.
Qed.

Lemma bars_at_end d l : forall pos, bars_at d pos l -> pos <= PCI_CFG_BAR_6 + 4.
Proof.
  induction l as [|[b|] l IH]; intros pos; cbn [bars_at]; [lia| |]; intros [_ Hl]; apply IH in Hl; [destruct (is_wide b)|]; lia.
Qed.

Lemma value_nonzero b : spec_ok b -> (base b + type_bits b) mod 2 ^ 32 <> 0.
Proof.
  intros Hs Hz. pose proof (value_low b (low_bits b) Hs) as Hlow. pose proof (type_bits_range b Hs) as [Ht _].
  rewrite Hz, Z.mod_0_l, (Z.mod_small (type_bits b)) in Hlow by (try lia; unfold low_bits; by destruct (is_io b)).
  specialize (Hlow ltac:(unfold low_bits; destruct (is_io b); lia)).
  pose proof (value_range b Hs) as Hv. pose proof (so_used b Hs) as Hu. unfold type_bits, is_wide in *.
  destruct (kind b), (prefetch b); try lia; rewrite Z.mod_small in Hz; lia.
Qed.

Lemma same_regs_but d d' r : same_regs d d' -> same_but r d d'.
Proof. intros Hs q _. apply Hs. Qed.

(** [_bars] of the structure. *)
Definition with_bars s bs : pst D T := set_pci (set_bars bs (pci s)) s.
Lemma dev_at_bars s0 d s bs bs' : dev_at (with_bars s0 bs) d s -> dev_at (with_bars s0 bs') d (with_bars s bs').
Proof. intros [[a ->] Hw]. split; [by exists a|done]. Qed.

Lemma put_bar_ok i b s0 bs d s Q : dev_at (with_bars s0 bs) d s ->
  (forall s', dev_at (with_bars s0 (<[Z.to_nat i := b]> bs)) d s' -> Q tt s') -> wp (put_bar i b) s Q.
Proof.
  intros Hd HQ. unfold put_bar. wp_steps. apply HQ. destruct Hd as [[a ->] Hw]. split; [by exists a|done].
Qed.
Lemma get_bar_ok i b s0 bs d s Q : dev_at (with_bars s0 bs) d s -> 0 <= i -> bs !! Z.to_nat i = Some b -> Q b s -> wp (get_bar i) s Q.
Proof.
  intros Hd Hi Hb HQ. unfold get_bar. wp_steps. rewrite (proj2 (Z.leb_le 0 i)) by done.
  destruct (dev_at_pci _ _ _ Hd) as [-> _]. eapply wp_deref_opt; [exact Hb|done].
Qed.

Lemma bars_loop_ok l : forall fuel pre olds pos d s0 s, bars_at d pos l -> dev_at (with_bars s0 (pre ++ olds)) d s ->
  Forall fresh_bar olds -> pos = PCI_CFG_BAR_1 + 4 * Z.of_nat (length pre) -> length (pre ++ olds) = 6%nat -> (length olds <= fuel)%nat ->
  wp (bars_loop fuel pos (Z.of_nat (length pre) + 1)) s (fun _ s' => exists d', same_regs d' d /\
    dev_at (with_bars s0 (pre ++ bars_of pos l olds)) d' s').
Proof.
  induction l as [|e l IH]; intros fuel pre olds pos d s0 s Hl Hd Hf Hpos Hlen Hfuel.
  { cbn [bars_at] in Hl. rewrite length_app in Hlen. unfold PCI_CFG_BAR_1, PCI_CFG_BAR_6 in *. destruct olds as [|o olds]; [|cbn in Hlen; lia].
    destruct fuel as [|fuel]; cbn [bars_loop]; rewrite (proj2 (Z.leb_gt pos _)) by (unfold PCI_CFG_BAR_6; lia); wp_steps; by exists d. }
  assert (pos <= PCI_CFG_BAR_6) as Hle.
  { destruct e as [b|]; destruct Hl as [_ Hl]; apply bars_at_end in Hl; [destruct (is_wide b)|]; lia. }
  pose proof Hlen as Hlen'. rewrite length_app in Hlen'. unfold PCI_CFG_BAR_1, PCI_CFG_BAR_6 in Hpos, Hle. destruct olds as [|o olds]; [cbn in Hlen'; lia|].
  apply list.Forall_cons in Hf as [Ho Hf]. destruct fuel as [|fuel]; [cbn in Hfuel; lia|]. cbn [bars_loop].
  rewrite (proj2 (Z.leb_le pos _)) by (unfold PCI_CFG_BAR_6; lia). cbn [length] in Hlen', Hfuel.
  wp_steps. eapply wp_pci_readl; [lia|exact Hd|]. intros s1 Hd1. wp_steps.
  replace (pos / 4 * 4) with pos by (Z.to_euclidean_division_equations; lia).
  assert (forall (p : pci_bar) (l' : list pci_bar), pre ++ p :: l' = (pre ++ [p]) ++ l') as Hsnoc by (intros p l'; by rewrite <- app_assoc).
  assert (forall p : pci_bar, Z.of_nat (length pre) + 1 + 1 = Z.of_nat (length (pre ++ [p])) + 1) as Hnext.
  { intros p. rewrite length_app. cbn. lia. }
  destruct e as [b|]; destruct Hl as [Hb Hl].
  2: { rewrite Hb. cbn [Z.eqb bars_of]. rewrite (Hnext o), (Hsnoc o (bars_of _ _ _)). rewrite Hsnoc in Hd1.
       apply (IH fuel _ olds (pos + 4) d s0 s1 Hl Hd1 Hf); rewrite ?length_app; cbn; unfold PCI_CFG_BAR_1; lia. }
  rewrite (ib_lo _ _ _ Hb), (proj2 (Z.eqb_neq _ 0)) by (apply value_nonzero, Hb).
  rewrite (proj2 (Z.leb_le _ 7)) by lia. wp_steps.
  replace (Z.of_nat (length pre) + 1 - 1) with (Z.of_nat (length pre)) by lia.
  eapply get_bar_ok; [exact Hd1|lia|rewrite Nat2Z.id; by apply list_lookup_middle|]. wp_steps.
  eapply wp_mono; [apply (pci_bar_init_ok b o pos _ d s1 Hb Hd1); [Z.to_euclidean_division_equations; lia|lia|done]|].
  intros p s2 (-> & d2 & Hsame & Hd2). wp_steps. eapply put_bar_ok; [exact Hd2|].
  intros s3 Hd3. wp_steps. rewrite Nat2Z.id, insert_app_r_alt, Nat.sub_diag in Hd3 by lia. cbn [list_insert insert] in Hd3.
  assert (bars_at d2 (pos + (if is_wide b then 8 else 4)) l) as Hl2.
  { apply (bars_at_same_but d); [by apply same_regs_but|unfold PCI_CFG_BAR_1; destruct (is_wide b); lia|done]. }
  cbn [the_bar _is_64 bars_of]. destruct (is_wide b); cbn beta iota.
  - destruct olds as [|o' olds].
    { apply bars_at_end in Hl2. unfold PCI_CFG_BAR_6 in Hl2. cbn in Hlen'. lia. }
    apply list.Forall_cons in Hf as [Ho' Hf].
    assert (forall l' : list pci_bar, pre ++ the_bar b pos o :: o' :: l' = (pre ++ [the_bar b pos o; o']) ++ l') as Hsnoc2 by (intros l'; by rewrite <- app_assoc).
    replace (Z.of_nat (length pre) + 1 + 2) with (Z.of_nat (length (pre ++ [the_bar b pos o; o'])) + 1) by (rewrite length_app; cbn; lia).
    rewrite Hsnoc2 in Hd3. rewrite (Hsnoc2 (bars_of _ _ _)). eapply wp_mono; [apply (IH fuel _ olds (pos + 8) d2 s0 s3 Hl2 Hd3 Hf)|].
    + rewrite length_app. cbn. unfold PCI_CFG_BAR_1. lia.
    + rewrite !length_app in *. cbn in *. lia.
    + cbn in Hfuel. lia.
    + intros [] s4 (d4 & Hs4 & Hd4). exists d4. split; [by etransitivity|done].
  - rewrite (Hnext (the_bar b pos o)), (Hsnoc _ (bars_of _ _ _)). rewrite Hsnoc in Hd3.
    eapply wp_mono; [apply (IH fuel _ olds (pos + 4) d2 s0 s3 Hl2 Hd3 Hf)|].
    + rewrite length_app. cbn. unfold PCI_CFG_BAR_1. lia.
    + rewrite !length_app in *. cbn in *. lia.
    + lia.
    + intros [] s4 (d4 & Hs4 & Hd4). exists d4. split; [by etransitivity|done].
Qed.
End loop.

(** ** Capabilities *)
Section caps.
Context {D : Type} `{PR : PciRegisters D} {T : Type} `{FA : FrameAlloc T}.
Implicit Types (s : pst D T) (d : D) (caps : list (Z * Z)).

(** The list of capabilities that starts at [off]: where each lies and what it
    is. *)
Fixpoint chain d (off : Z) caps : Prop :=
  match caps with
  | [] => off = 0
  | (o, i) :: caps' => off = o /\ o <> 0 /\ cfg_byte d (wrap8 o) = i /\ chain d (cfg_byte d (wrap8 (o + 1))) caps'
  end.
Fixpoint first_cap (cap_id : Z) caps : Z :=
  match caps with [] => 0xFF | (o, i) :: caps' => if i =? cap_id then o else first_cap cap_id caps' end.

Lemma cap_loop_ok cap_id caps : forall fuel off ctr s0 d s, dev_at s0 d s -> chain d off caps ->
  0 <= ctr -> Z.of_nat fuel + ctr = 241 -> (length caps <= fuel)%nat ->
  wp (cap_loop fuel off ctr cap_id) s (fun r s' => r = first_cap cap_id caps /\ dev_at s0 d s').
Proof.
  induction caps as [|[o i] caps IH]; intros fuel off ctr s0 d s Hd Hc H0 Hf Hl; cbn [chain first_cap] in *.
  { subst off. by destruct fuel; cbn [cap_loop Z.eqb]; wp_steps. }
  destruct Hc as (-> & Ho & Hi & Hc). destruct fuel as [|fuel]; [cbn in Hl; lia|]. cbn [cap_loop].
  rewrite (proj2 (Z.eqb_neq o 0)) by done. wp_steps. eapply wp_pci_readb; [exact Hd|]. intros s1 Hd1. wp_steps.
  unfold PCI_CAP_OFF_ID, PCI_CAP_OFF_NEXT. rewrite Z.add_0_r, Hi. destruct (i =? cap_id); [by wp_steps|].
  assert (wrap8 (ctr + 1) = ctr + 1) as -> by (apply Z.mod_small; lia). destruct (Z.ltb_spec 240 (ctr + 1)).
  { wp_steps. split; [|done]. cbn in Hl. destruct caps; [done|cbn in Hl; lia]. }
  wp_steps. eapply wp_pci_readb; [exact Hd1|]. intros s2 Hd2. wp_steps.
  apply IH; try done; [lia|lia|cbn in Hl; lia].
Qed.

(** Whatever the device answers, the search ends. *)
Lemma cap_loop_ends cap_id : forall fuel off ctr s0 d s, dev_at s0 d s ->
  0 <= ctr -> Z.of_nat fuel + ctr = 241 -> (1 <= fuel)%nat ->
  wp (cap_loop fuel off ctr cap_id) s (fun _ s' => dev_at s0 d s').
Proof.
  induction fuel as [|fuel IH]; intros off ctr s0 d s Hd H0 Hf Hl; [lia|]. cbn [cap_loop].
  destruct (off =? 0); [by wp_steps|]. wp_steps. eapply wp_pci_readb; [exact Hd|]. intros s1 Hd1. wp_steps.
  destruct (_ =? cap_id); [by wp_steps|]. assert (wrap8 (ctr + 1) = ctr + 1) as -> by (apply Z.mod_small; lia).
  destruct (Z.ltb_spec 240 (ctr + 1)); [by wp_steps|]. wp_steps. eapply wp_pci_readb; [exact Hd1|]. intros s2 Hd2. wp_steps.
  apply IH; [done|lia|lia|lia].
Qed.

Lemma find_capability_ok cap_id caps s0 d s : dev_at s0 d s -> chain d (cfg_byte d PCI_CAPABILITIES_PTR) caps ->
  (length caps <= 241)%nat ->
  wp (find_capability cap_id) s (fun r s' => r = first_cap cap_id caps /\ dev_at s0 d s').
Proof.
  intros Hd Hc Hl. unfold find_capability. wp_steps. eapply wp_pci_readb; [exact Hd|]. intros s1 Hd1. wp_steps.
  by apply cap_loop_ok.
Qed.

(** [find_capability] ends on any device; a proper list of at most 241
    capabilities it walks to the first with the id asked for, and answers its
    place, or 0xFF when there is none. *)
Theorem find_capability_correct cap_id s d : funcs (hw s) !! index (bdf (pci s)) = Some d -> where_ok (bdf (pci s)) ->
  wp (find_capability cap_id) s (fun r s' => dev_at s d s' /\
    forall caps, chain d (cfg_byte d PCI_CAPABILITIES_PTR) caps -> (length caps <= 241)%nat -> r = first_cap cap_id caps).
Proof.
  intros Hd Hw. pose proof (dev_at_start s d Hd Hw) as Hat.
  assert (wp (find_capability cap_id) s (fun _ s' => dev_at s d s')) as Hend.
  { unfold find_capability. wp_steps. eapply wp_pci_readb; [exact Hat|]. intros s1 Hd1. wp_steps. apply cap_loop_ends; [done|lia|lia|lia]. }
  apply wp_run in Hend as (r & s' & Hrun & Hat'). unfold wp. rewrite Hrun. split; [done|].
  intros caps Hc Hl. pose proof (find_capability_ok cap_id caps s d s Hat Hc Hl) as Hwp. unfold wp in Hwp. rewrite Hrun in Hwp. apply Hwp.
Qed.

(** What the two parsers read. *)
Definition msix_at d (off : Z) : pcicfg_msix :=
  let ctrl := cfg_word d (wrap8 (off + PCIR_MSIX_CTRL)) in
  let table := cfg_get d (wrap8 (off + PCIR_MSIX_TABLE) / 4 * 4) in
  let pba := cfg_get d (wrap8 (off + PCIR_MSIX_PBA) / 4 * 4) in
  Msix ctrl (Z.land ctrl PCIM_MSIXCTRL_TABLE_SIZE + 1) off (Z.land table PCIM_MSIX_BIR_MASK) (Z.land pba PCIM_MSIX_BIR_MASK)
    (Z.ldiff table PCIM_MSIX_BIR_MASK) (Z.ldiff pba PCIM_MSIX_BIR_MASK).
Definition msi_at d (off : Z) : pcicfg_msi :=
  let ctrl := cfg_word d (wrap8 (off + PCIR_MSI_CTRL)) in Msi off ctrl 1 (Z.testbit ctrl 7) (Z.testbit ctrl 8).
Definition with_caps d caps (p : pci_device) : pci_device :=
  let x := first_cap PCI_CAP_MSIX caps in
  let m := first_cap PCI_CAP_MSI caps in
  if negb (x =? 0xFF) then set_msix true (_msix_enabled p) (msix_at d x) p
  else if negb (m =? 0xFF) then set_msi true (_msi_enabled p) (msi_at d m) p
  else p.

Lemma wrap8_wrap8 o : wrap8 (wrap8 o) = wrap8 o.
Proof. apply Z.mod_mod. lia. Qed.
Lemma wrap8_range o : 0 <= wrap8 o < 256.
Proof. apply Z.mod_pos_bound. lia. Qed.
Lemma wp_readl8 o s0 d s Q : dev_at s0 d s ->
  (forall s', dev_at s0 d s' -> Q (cfg_get d (wrap8 o / 4 * 4)) s') -> wp (pci_readl o) s Q.
Proof.
  intros Hd HQ. assert (pci_readl (D := D) (T := T) o = pci_readl (wrap8 o)) as -> by (unfold pci_readl; by rewrite wrap8_wrap8).
  eapply wp_pci_readl; [apply wrap8_range|exact Hd|exact HQ].
Qed.
Lemma wp_readw8 o s0 d s Q : dev_at s0 d s ->
  (forall s', dev_at s0 d s' -> Q (cfg_word d (wrap8 o)) s') -> wp (pci_readw o) s Q.
Proof.
  intros Hd HQ. assert (pci_readw (D := D) (T := T) o = pci_readw (wrap8 o)) as -> by (unfold pci_readw; by rewrite wrap8_wrap8).
  eapply wp_pci_readw; [apply wrap8_range|exact Hd|exact HQ].
Qed.

Lemma same_regs_bits d d' n lane o : same_regs d' d -> cfg_bits d' n lane o = cfg_bits d n lane o.
Proof. intros Hs. unfold cfg_bits. by rewrite (proj1 (Hs _)). Qed.
Lemma same_regs_msix d d' off : same_regs d' d -> msix_at d' off = msix_at d off.
Proof. intros Hs. unfold msix_at, cfg_word, cfg_bits. assert (forall r, cfg_get d' r = cfg_get d r) as Hg by apply Hs. by rewrite !Hg. Qed.

(** A write to registers that cannot be written. *)
Lemma put_word_hardwired d o v : cfg_wmask d (o / 4 * 4) = 0 -> same_regs (put_word d o v) d.
Proof.
  intros Hm r. unfold put_word. rewrite cfg_put_get, cfg_put_wmask, Hm, Z.land_0_l, Z.land_0_r, Z.ldiff_0_r, Z.lor_0_r.
  split; [|done]. by destruct (Z.eqb_spec r (o / 4 * 4)) as [->|].
Qed.

Lemma upd_pci_ok (g : pci_device -> pci_device) s0 d s Q : dev_at s0 d s -> (forall p, bdf (g p) = bdf p) ->
  (forall s', dev_at (set_pci (g (pci s0)) s0) d s' -> Q tt s') ->
  wp (upd_msix g) s Q.
Proof.
  intros [[a ->] Hw] Hg HQ. unfold upd_msix. wp_steps. apply HQ. split; cbn [pci set_pci set_hw hw]; rewrite Hg; [by exists a|done].
Qed.

Lemma parse_caps_ok caps s0 d s : dev_at s0 d s -> chain d (cfg_byte d PCI_CAPABILITIES_PTR) caps ->
  (length caps <= 241)%nat -> msix_location (_msix (pci s0)) = 0 -> cfg_wmask d 0 = 0 ->
  wp parse_pci_capabilities s (fun r s' => r = true /\ exists d', same_regs d' d /\
    dev_at (set_pci (with_caps d caps (pci s0)) s0) d' s').
Proof.
  intros Hd Hc Hl Hloc Hm. unfold parse_pci_capabilities, with_caps. wp_steps.
  eapply wp_mono; [by apply (find_capability_ok _ caps s0 d)|]. intros x s1 [-> Hd1]. cbn beta.
  destruct (negb (first_cap PCI_CAP_MSIX caps =? 255)).
  - unfold parse_pci_msix, msix_get_control, msix_set_control. wp_steps. destruct (dev_at_pci _ _ _ Hd1) as [-> _].
    rewrite Hloc. eapply wp_readw8; [exact Hd1|]. intros s2 Hd2. wp_steps. destruct (dev_at_pci _ _ _ Hd2) as [-> _]. rewrite Hloc.
    eapply wp_pci_writew; [unfold PCIR_MSIX_CTRL; lia|exact Hd2|]. intros s3 Hd3. wp_steps.
    set (d3 := put_word _ _ _) in Hd3. assert (same_regs d3 d) as Hs by (by apply put_word_hardwired).
    eapply wp_readw8; [exact Hd3|]. intros s4 Hd4. wp_steps. eapply wp_readl8; [exact Hd4|]. intros s5 Hd5. wp_steps.
    eapply wp_readl8; [exact Hd5|]. intros s6 Hd6. wp_steps.
    eapply (upd_pci_ok (fun p => set_msix true (_msix_enabled p) (msix_at d3 (first_cap PCI_CAP_MSIX caps)) p)); [exact Hd6|done|].
    intros s7 Hd7. rewrite (same_regs_msix d) in Hd7 by done. wp_steps. split; [done|]. by exists d3.
  - wp_steps. eapply wp_mono; [by apply (find_capability_ok _ caps s0 d)|]. intros m s2 [-> Hd2]. cbn beta.
    destruct (negb (first_cap PCI_CAP_MSI caps =? 255)).
    + unfold parse_pci_msi. wp_steps. eapply wp_readw8; [exact Hd2|]. intros s3 Hd3. wp_steps.
      eapply (upd_pci_ok (fun p => set_msi true (_msi_enabled p) (msi_at d (first_cap PCI_CAP_MSI caps)) p)); [exact Hd3|done|].
      intros s4 Hd4. wp_steps. split; [done|]. by exists d.
    + wp_steps. split; [done|]. exists d. split; [done|]. replace (set_pci (pci s0) s0) with s0; [done|by destruct s0].
Qed.
End caps.

(** ** The whole configuration *)
Section config.
Context {D : Type} `{PR : PciRegisters D} {T : Type} `{FA : FrameAlloc T}.
Implicit Types (s : pst D T) (d : D).

Definition ids_of d : pci_ids :=
  Ids (cfg_byte d PCI_CFG_REVISION_ID) (cfg_byte d PCI_CFG_HEADER_TYPE) (cfg_byte d PCI_CFG_CLASS_CODE0)
    (cfg_byte d PCI_CFG_CLASS_CODE1) (cfg_byte d PCI_CFG_CLASS_CODE2) (cfg_word d PCI_CFG_DEVICE_ID)
    (cfg_word d PCI_CFG_VENDOR_ID) (cfg_word d PCI_CFG_SUBSYSTEM_VENDOR_ID) (cfg_word d PCI_CFG_SUBSYSTEM_ID).
(** The command register with memory and ports enabled, as far as it can be
    written. *)
Definition enabled d : Z := Z.lor (cfg_get d PCI_CFG_COMMAND) (Z.land (cfg_wmask d PCI_CFG_COMMAND) 3).

Lemma enable_command d v : cfg_get (put_word d PCI_CFG_COMMAND (Z.lor (cfg_word d PCI_CFG_COMMAND) v)) PCI_CFG_COMMAND =
  Z.lor (cfg_get d PCI_CFG_COMMAND) (Z.land (cfg_wmask d PCI_CFG_COMMAND) (v mod 2 ^ 16)).
Proof.
  unfold put_word, cfg_word, cfg_bits, PCI_CFG_COMMAND. change (4 / 4 * 4) with 4. change (8 * Z.land 4 2) with 0.
  rewrite cfg_put_get, Z.eqb_refl, !Z.shiftl_0_r, Z.shiftr_0_r. unfold wrap16. apply Z.bits_inj'. intros i Hi.
  rewrite !Z.lor_spec, Z.ldiff_spec, !Z.land_spec, !testbit_mod_pow2, Z.lor_spec, Z.land_spec, Z.testbit_ones_nonneg by lia.
  destruct (i <? 16), (Z.testbit (cfg_get d 4) i), (Z.testbit (cfg_wmask d 4) i), (Z.testbit v i); done.
Qed.
Lemma put_command_same d v : same_but PCI_CFG_COMMAND (put_word d PCI_CFG_COMMAND v) d.
Proof.
  intros q Hq. unfold put_word. change (PCI_CFG_COMMAND / 4 * 4) with PCI_CFG_COMMAND.
  by rewrite cfg_put_get, cfg_put_wmask, (proj2 (Z.eqb_neq q _)) by done.
Qed.

Lemma clear_dev_fresh bs : Forall fresh_bar bs -> clear_dev <$> bs = bs.
Proof.
  induction 1 as [|b bs Hb _ IH]; [done|]. rewrite fmap_cons, IH. f_equal. destruct b, Hb as (Hdev & _). cbn in Hdev. by subst.
Qed.

Lemma same_but_regs_trans r d1 d2 d3 : same_regs d1 d2 -> same_but r d2 d3 -> same_but r d1 d3.
Proof. intros H12 H23 q Hq. destruct (H12 q), (H23 q Hq). split; congruence. Qed.

Lemma upd_ids_ok (f : pci_ids -> pci_ids) s0 d s Q : dev_at s0 d s ->
  (forall s', dev_at (set_pci (set_ids (f (ids (pci s0))) (pci s0)) s0) d s' -> Q tt s') -> wp (upd_ids f) s Q.
Proof. intros Hd HQ. by apply (upd_pci_ok (fun p => set_ids (f (ids p)) p) s0 d). Qed.

Lemma with_caps_keeps d caps p : _bars (with_caps d caps p) = _bars p /\ bdf (with_caps d caps p) = bdf p.
Proof. unfold with_caps. by destruct (negb _); [|destruct (negb _)]. Qed.

(** C25: parsing the configuration of a device with six unused registers in its
    structure, whose base address registers behave as the specification says
    and whose capabilities form a list of at most 241: it returns true, the
    structure holds the device's ids, its MSI-X or else MSI capability, and for
    each register in use the kind, address and size the device asks for, a
    64-bit one taking two entries; the device reads as before but for the
    enable bits of its command register. *)
Theorem pci_device_parse_config_correct s d l caps
    (Hd : funcs (hw s) !! index (bdf (pci s)) = Some d) (Hw : where_ok (bdf (pci s)))
    (Hfresh : Forall fresh_bar (_bars (pci s)) /\ length (_bars (pci s)) = 6%nat /\ msix_location (_msix (pci s)) = 0)
    (Hids : cfg_wmask d 0 = 0) (Hbars : bars_at d PCI_CFG_BAR_1 l)
    (Hcaps : chain d (cfg_byte d PCI_CAPABILITIES_PTR) caps /\ (length caps <= 241)%nat) :
  wp pci_device_parse_config s (fun r s' => r = true /\ exists a d',
    s' = set_hw (Bus a (<[index (bdf (pci s)) := d']> (funcs (hw s))))
           (set_pci (set_bars (bars_of PCI_CFG_BAR_1 l (_bars (pci s))) (set_ids (ids_of d) (with_caps d caps (pci s)))) s) /\
    same_but PCI_CFG_COMMAND d' d /\ cfg_get d' PCI_CFG_COMMAND = enabled d).
Proof.
  destruct Hfresh as (Hf & Hl6 & Hloc). destruct Hcaps as [Hc Hcl]. pose proof (dev_at_start s d Hd Hw) as Hat.
  unfold pci_device_parse_config. wp_steps. rewrite clear_dev_fresh by done.
  replace (set_pci (set_bars (_bars (pci s)) (pci s)) s) with s by (by destruct s as [? []]).
  unfold parse_pci_config. wp_steps.
  eapply wp_readw8; [exact Hat|]. intros s1 At1. wp_steps. eapply wp_readw8; [exact At1|]. intros s2 At2. wp_steps.
  do 5 (eapply wp_pci_readb; [eassumption|]; intros ? ?; wp_steps).
  eapply upd_ids_ok; [eassumption|]. intros s3 At3. wp_steps.
  eapply wp_mono; [by apply (parse_caps_ok caps _ d s3 At3)|]. intros r s4 (_ & d1 & Hs1 & At4). cbn beta. wp_steps.
  assert (forall o, cfg_word d1 o = cfg_word d o) as Hw1 by (intros o; by apply same_regs_bits).
  eapply wp_readw8; [exact At4|]. intros s5 At5. wp_steps. eapply wp_readw8; [exact At5|]. intros s6 At6. wp_steps.
  eapply upd_ids_ok; [exact At6|]. intros s7 At7. wp_steps. rewrite !Hw1 in At7.
  unfold set_pci_bars_enable, pci_get_command, pci_set_command. wp_steps.
  eapply wp_readw8; [exact At7|]. intros s8 At8. wp_steps. change (wrap8 PCI_CFG_COMMAND) with PCI_CFG_COMMAND.
  eapply wp_pci_writew; [unfold PCI_CFG_COMMAND; lia|exact At8|]. intros s9 At9. wp_steps.
  rewrite <- Z.lor_assoc in At9. change (Z.lor PCI_COMMAND_BAR_MEM_ENABLE PCI_COMMAND_BAR_IO_ENABLE) with 3 in At9.
  set (d2 := put_word d1 _ _) in At9.
  assert (same_but PCI_CFG_COMMAND d2 d) as Hs2.
  { intros q Hq. destruct (put_command_same d1 (Z.lor (cfg_word d1 PCI_CFG_COMMAND) 3) q Hq), (Hs1 q). split; etransitivity; eassumption. }
  assert (cfg_get d2 PCI_CFG_COMMAND = enabled d) as Hen.
  { subst d2. rewrite enable_command, (proj1 (Hs1 _)), (proj2 (Hs1 _)). done. }
  set (p := set_ids (ids_of d) (with_caps d caps (pci s))).
  assert (_bars p = _bars (pci s)) as Hbs by (subst p; apply with_caps_keeps).
  assert (dev_at (with_bars (set_pci p s) (_bars p)) d2 s9) as At9'.
  { match type of At9 with dev_at ?t _ _ => replace (with_bars (set_pci p s) (_bars p)) with t; [done|] end.
    subst p. unfold with_bars, with_caps. by destruct (negb _); [|destruct (negb _)]. }
  eapply wp_mono; [apply (bars_loop_ok l 6 [] (_bars p) PCI_CFG_BAR_1 d2 (set_pci p s) s9)|].
  - apply (bars_at_same_but d); [done|done|exact Hbars].
  - exact At9'.
  - by rewrite Hbs.
  - done.
  - rewrite app_nil_l. by rewrite Hbs.
  - rewrite Hbs. lia.
  - intros [] s10 (d3 & Hs3 & [[a ->] _]). wp_steps. split; [done|]. exists a, d3. rewrite Hbs.
    split; [|split; [by eapply same_but_regs_trans|by rewrite (proj1 (Hs3 _))]].
    cbn [app]. unfold with_bars. cbn [pci set_pci hw]. change (bdf (set_bars ?bs p)) with (bdf p).
    assert (bdf p = bdf (pci s)) as -> by (subst p; apply (with_caps_keeps d caps (pci s))). done.
Qed.
End config.

(** ** A network card *)

(** 32 ports, 4K of memory, an unused register, 16K of prefetchable memory above
    4G in a 64-bit register, another unused one; MSI-X behind a vendor
    capability. *)
Definition card : regfile := list_to_map
  [(0, (0x10001af4, 0)); (4, (0x00100000, 0x0407)); (8, (0x02000000, 0)); (0xC, (0, 0));
   (0x10, (0xC001, 0xFFFFFFE0)); (0x14, (0xFEBF1000, 0xFFFFF000)); (0x18, (0, 0)); (0x1C, (0x0000400C, 0xFFFFC000));
   (0x20, (0x18, 0xFFFFFFFF)); (0x24, (0, 0)); (0x2C, (0x00011af4, 0)); (0x34, (0x40, 0));
   (0x40, (0x00005009, 0)); (0x50, (0x00020011, 0xC0000000)); (0x54, (1, 0)); (0x58, (0x801, 0))].
Definition card_bars : list (option barspec) :=
  [Some (Spec Io false 5 0xC000); Some (Spec Mem32 false 12 0xFEBF1000); None; Some (Spec Mem64 true 14 0x1800004000); None].
Definition card_caps : list (Z * Z) := [(0x40, 9); (0x50, 0x11)].
Definition card_place : pci_where := Where 0 3 0.
Definition pst0 (d : regfile) (m : mm (phy_page phymem)) (p : pci_device) : pst regfile (phy_page phymem) :=
  Pst (Bus 0 {[index card_place := d]}) (set_bdf card_place p) (fun _ => 0) m (repeat 0 256) false.

Lemma is_bar_dec (d : regfile) r b :
  bool_decide (low_bits b <= order b < (if is_wide b then 64 else 32)) &&
  bool_decide (0 <= base b < 2 ^ (if is_wide b then 64 else 32)) &&
  (base b mod 2 ^ order b =? 0) && negb (base b + type_bits b =? 0) && negb (is_io b && prefetch b) &&
  (cfg_get d r =? (base b + type_bits b) mod 2 ^ 32) && (cfg_wmask d r =? (2 ^ 64 - 2 ^ order b) mod 2 ^ 32) &&
  (negb (is_wide b) || (cfg_get d (r + 4) =? (base b + type_bits b) / 2 ^ 32) &&
    (cfg_wmask d (r + 4) =? (2 ^ 64 - 2 ^ order b) / 2 ^ 32)) = true -> is_bar d r b.
Proof.
  rewrite !andb_true_iff, !bool_decide_eq_true, !negb_true_iff, !Z.eqb_eq, Z.eqb_neq, orb_true_iff, negb_true_iff, andb_true_iff, !Z.eqb_eq.
  intros [[[[[[[Ho Hb] Ha] Hu] Hio] Hlo] Hlm] Hw]. split; [split; try done| | | |]; try done.
  - intros H. by rewrite H in Hio.
  - intros H. rewrite H in Hw. destruct Hw as [?|[? _]]; done.
  - intros H. rewrite H in Hw. destruct Hw as [?|[_ ?]]; done.
Qed.

Lemma pci_device_parse_config_correct_witness :
  wp pci_device_parse_config (pst0 card boot_mm (pci0 0 0)) (fun r s' => r = true /\
    _have_msix (pci s') = true /\ msix_msgnum (_msix (pci s')) = 3 /\ msix_table_bar (_msix (pci s')) = 1 /\
    ((fun b => (_dev b, _addr_64 b, _addr_size b, _is_64 b)) <$> _bars (pci s')) =
      [(true, 0xC000, 32, false); (true, 0xFEBF1000, 4096, false); (false, 0, 0, false);
       (true, 0x1800004000, 16384, true); (false, 0, 0, false); (false, 0, 0, false)]).
Proof.
  eapply wp_mono; [apply (pci_device_parse_config_correct (pst0 card boot_mm (pci0 0 0)) card card_bars card_caps)|].
  - reflexivity.
  - unfold where_ok. cbn. lia.
  - split; [|done]. repeat (apply list.Forall_cons; split; [by unfold fresh_bar|]). constructor.
  - reflexivity.
  - cbn [bars_at card_bars is_wide kind].
    repeat match goal with
           | |- is_bar _ _ _ /\ _ => split; [apply is_bar_dec; vm_compute; reflexivity|]
           | |- cfg_get _ _ = 0 /\ _ => split; [vm_compute; reflexivity|]
           end. reflexivity.
  - split; [|cbn; lia]. cbn [chain card_caps]. repeat split; (lia || (vm_compute; reflexivity)).
  - intros r s' (-> & a & d' & -> & _). split; [done|]. vm_compute. repeat split.
Defined.

Lemma find_capability_correct_witness :
  wp (find_capability PCI_CAP_MSIX) (pst0 card boot_mm (pci0 0 0)) (fun r _ => r = 0x50).
Proof.
  eapply wp_mono; [apply (find_capability_correct PCI_CAP_MSIX (pst0 card boot_mm (pci0 0 0)) card)|].
  - reflexivity.
  - unfold where_ok. cbn. lia.
  - intros r s' [_ Hr]. rewrite (Hr card_caps); [reflexivity| |cbn; lia].
    cbn [chain card_caps]. repeat split; (lia || (vm_compute; reflexivity)).
Defined.

(** A register for ports whose upper half is hard-wired to zero, as the
    specification allows: the size comes out as 4G less 64K too large. *)
Definition narrow_ports : regfile := {[0x10 := (0xC001, 0xFFE0)]}.
Example narrow_ports_size :
  match pci_bar_init no_bar 0x10 (pst0 narrow_ports boot_mm (pci0 0 0)) with
  | Done (b, _) => _addr_64 b = 0xC000 /\ _addr_size b = 2 ^ 32 - 2 ^ 16 + 32
  | _ => False
  end.
Proof. vm_compute. split; reflexivity. Qed.
(** A list of capabilities that bites its tail: the search gives up. *)
Example find_capability_cycle :
  match find_capability PCI_CAP_MSI (pst0 {[0x34 := (0x40, 0); 0x40 := (0x4009, 0)]} boot_mm (pci0 0 0)) with
  | Done (r, _) => r = 0xFF | _ => False
  end.
Proof. vm_compute. reflexivity. Qed.
