(* ===== verification/PciMsi.v ===== *)
(** * PciMsi: interrupts of a device

    Proofs about the MSI and MSI-X half of PciDev.v: the vector a handler gets,
    the message the device is given, and the mask bits that keep every other
    entry quiet. *)
From Stdlib Require Import ZArith Lia.
From stdpp Require Import base tactics gmap list option.
From S2P Require Import Prelude Pages Layout PhyMem PhyPage PgTable PgWalk PgMap IoRemap Pci PciDev PciBar.
#[export] Set Warnings "-clear-no-such-hyp".

(** ** Vectors *)

(** The first of the [n] vectors from [i] on that has the default handler. *)
Lemma free_vector_ok n : forall i l, 0 < i -> i + Z.of_nat n <= Z.of_nat (length l) ->
  let r := free_vector n i l in
  (r = 0 /\ forall j, i <= j < i + Z.of_nat n -> l !! Z.to_nat j <> Some default_irq_handler) \/
  (i <= r < i + Z.of_nat n /\ l !! Z.to_nat r = Some default_irq_handler /\
   forall j, i <= j < r -> l !! Z.to_nat j <> Some default_irq_handler).
Proof.
  induction n as [|n IH]; intros i l Hi Hl; cbn [free_vector]; cbv zeta; [left; split; [done|lia]|].
  destruct (lookup_lt_is_Some_2 l (Z.to_nat i) ltac:(lia)) as [h Hh]. rewrite Hh. cbn [default from_option Datatypes.id].
  destruct (Z.eqb_spec h default_irq_handler) as [->|Hne].
  { right. split; [lia|]. split; [done|]. lia. }
  assert (l !! Z.to_nat i <> Some default_irq_handler) as Hi' by congruence.
  destruct (IH (i + 1) l ltac:(lia) ltac:(lia)) as [(-> & Hno)|(Hr & Hlr & Hno)].
  - left. split; [done|]. intros j Hj. destruct (decide (j = i)) as [->|]; [done|]. apply Hno. lia.
  - right. split; [lia|]. split; [done|]. intros j Hj. destruct (decide (j = i)) as [->|]; [done|]. apply Hno. lia.
Qed.

Section msi.
Context {D : Type} `{PR : PciRegisters D} {T : Type} `{FA : FrameAlloc T}.
Implicit Types (s : pst D T) (d : D).

(** With the lock free, [register_irq_handler] returns the first vector
    from 100 on that has the default handler and puts the new handler there, or
    returns 0 and changes no vector when there is none; the lock is released. *)
Theorem register_irq_handler_correct s p : spin_irq s = false -> length (irq_vectors s) = 256%nat ->
  exists r s', register_irq_handler p s = Done (r, s') /\ spin_irq s' = false /\
    ((r = 0 /\ irq_vectors s' = irq_vectors s /\ forall j, 100 <= j < 256 -> irq_vectors s !! Z.to_nat j <> Some default_irq_handler) \/
     (100 <= r < 256 /\ irq_vectors s !! Z.to_nat r = Some default_irq_handler /\
      irq_vectors s' = <[Z.to_nat r := p]> (irq_vectors s) /\
      forall j, 100 <= j < r -> irq_vectors s !! Z.to_nat j <> Some default_irq_handler)).
Proof.
  intros Hs Hl. unfold register_irq_handler, bind, gets, modify. rewrite Hs.
  eexists _, _. split; [reflexivity|]. cbn [irq_vectors set_irq spin_irq]. split; [done|].
  destruct (free_vector_ok 156 100 (irq_vectors s) ltac:(lia) ltac:(lia)) as [(Hr & Hno)|(Hr & Hlr & Hno)].
  - left. rewrite Hr. done.
  - right. rewrite (proj2 (Z.eqb_neq _ 0)) by lia. done.
Qed.

(** ** Half registers *)
Lemma put_word_bits d o v i : 0 <= o -> 0 <= i < 16 ->
  Z.testbit (cfg_word (put_word d o v) o) i =
  (if Z.testbit (cfg_wmask d (o / 4 * 4)) (i + 8 * Z.land o 2) then Z.testbit (wrap16 v) i else Z.testbit (cfg_word d o) i).
Proof.
  intros Ho Hi. unfold cfg_word, cfg_bits, put_word. assert (0 <= Z.land o 2) by (apply Z.land_nonneg; lia).
  rewrite cfg_put_get, Z.eqb_refl, !Z.land_spec, !Z.shiftr_spec, Z.lor_spec, Z.ldiff_spec, !Z.land_spec, !Z.shiftl_spec by lia.
  replace (i + 8 * Z.land o 2 - 8 * Z.land o 2) with i by lia. rewrite Z.testbit_ones_nonneg, (proj2 (Z.ltb_lt i 16)) by lia.
  by destruct (Z.testbit (cfg_wmask d (o / 4 * 4)) _), (Z.testbit (cfg_get d _) _), (Z.testbit (wrap16 v) i).
Qed.
Lemma put_word_same d o v : same_but (o / 4 * 4) (put_word d o v) d.
Proof. intros q Hq. unfold put_word. by rewrite cfg_put_get, cfg_put_wmask, (proj2 (Z.eqb_neq q _)) by done. Qed.
Lemma put_word_wmask d o v q : cfg_wmask (put_word d o v) q = cfg_wmask d q.
Proof. unfold put_word. apply cfg_put_wmask. Qed.
End msi.

(** ** The MSI-X table *)
Section msix.
Context {D : Type} `{PR : PciRegisters D} {T : Type} `{FA : FrameAlloc T}.
Implicit Types (s : pst D T) (d : D).

(** The [n] bytes from [va] on are the device's from [pa] on. *)
Record window (m : mm T) (va pa n : Z) : Prop := {
  wi_range : 0 <= va /\ va + n <= 2 ^ 64;
  wi_mapped o : 0 <= o < n -> exists fl, mmu (ram m) (PgTable.pml4 m) (va + o) = Some (pa + o, fl)
}.

(** The structure of a device with MSI-X whose table of [n] entries is mapped. *)
Record msix_table s (va pa n : Z) : Prop := {
  mt_have : _have_msix (pci s) = true;
  mt_count : msix_msgnum (_msix (pci s)) = n;
  mt_bar : 0 <= msix_table_bar (_msix (pci s)) <= 5 /\
    exists b, _bars (pci s) !! Z.to_nat (msix_table_bar (_msix (pci s))) = Some b /\ _dev b = true /\
      wrap64 (_addr_mmio b + msix_table_offset (_msix (pci s))) = va;
  mt_window : window (vmem s) va pa (16 * n)
}.

Lemma msix_table_io s va pa n m : msix_table s va pa n -> msix_table (set_io m s) va pa n.
Proof. by intros []; split. Qed.

Lemma dev_at_io s0 d s m : dev_at s0 d s -> dev_at (set_io m s0) d (set_io m s).
Proof. intros [[a ->] Hw]. split; [by exists a|done]. Qed.

Lemma wp_mmio_getl o va pa n s0 d s Q : dev_at s0 d s -> window (vmem s0) va pa n -> 0 <= o < n ->
  Q (io s0 (pa + o)) s -> wp (mmio_getl (va + o)) s Q.
Proof.
  intros Hd [_ Hm] Ho HQ. destruct (dev_at_pci _ _ _ Hd) as (_ & Hv & Hio & _). unfold mmio_getl. wp_steps. rewrite Hv.
  destruct (Hm o Ho) as [fl ->]. eapply wp_deref_opt; [done|]. wp_steps. by rewrite Hio.
Qed.
Lemma wp_mmio_setl o v va pa n s0 d s Q : dev_at s0 d s -> window (vmem s0) va pa n -> 0 <= o < n ->
  (forall s', dev_at (set_io (upd (pa + o) (wrap32 v) (io s0)) s0) d s' -> Q tt s') -> wp (mmio_setl (va + o) v) s Q.
Proof.
  intros Hd [_ Hm] Ho HQ. destruct (dev_at_pci _ _ _ Hd) as (_ & Hv & Hio & _). unfold mmio_setl. wp_steps. rewrite Hv.
  destruct (Hm o Ho) as [fl ->]. eapply wp_deref_opt; [done|]. wp_steps. rewrite Hio. by apply HQ, dev_at_io.
Qed.

Lemma msix_get_table_ok va pa n s0 d s Q : dev_at s0 d s -> msix_table s0 va pa n -> Q va s -> wp msix_get_table s Q.
Proof.
  intros Hd [_ _ [Hr (b & Hb & Hdev & Hva)] _] HQ. destruct (dev_at_pci _ _ _ Hd) as [Hp _].
  unfold msix_get_table, pci_get_bar, get_bar. wp_steps. rewrite Hp.
  set (i := msix_table_bar (_msix (pci s0))) in *. rewrite (proj2 (Z.leb_le (i + 1) 6)) by lia. wp_steps.
  replace (i + 1 - 1) with i by lia. rewrite (proj2 (Z.leb_le 0 i)) by lia. rewrite Hp. eapply wp_deref_opt; [exact Hb|]. rewrite Hdev.
  wp_steps. rewrite (proj2 (Z.leb_le 0 i)) by lia. rewrite Hp. eapply wp_deref_opt; [exact Hb|]. wp_steps. by rewrite Hva.
Qed.

(** Field [f] of entry [j]. *)
Definition entry_reg (pa j f : Z) : Z := pa + (16 * j + f).
Lemma entry_addr va pa n s0 j f : msix_table s0 va pa n -> 0 <= j < n -> 0 <= f < 16 ->
  wrap64 (wrap64 (va + j * MSIX_ENTRY_SIZE) + f) = va + (16 * j + f).
Proof.
  intros [_ _ _ [[H0 H1] _]] Hj Hf. unfold MSIX_ENTRY_SIZE. rewrite (wrap64_small (va + j * 16)) by lia. rewrite wrap64_small; lia.
Qed.

Lemma msix_change_mask_ok f j va pa n s0 d s : dev_at s0 d s -> msix_table s0 va pa n -> 0 <= j < n ->
  wp (msix_change_mask f j) s (fun r s' => r = true /\
    dev_at (set_io (upd (entry_reg pa j 12) (wrap32 (f (io s0 (entry_reg pa j 12)))) (io s0)) s0) d s').
Proof.
  intros Hd Ht Hj. destruct (dev_at_pci _ _ _ Hd) as [Hp _]. unfold msix_change_mask, pci_is_msix. wp_steps.
  rewrite Hp, (mt_have _ _ _ _ Ht), (mt_count _ _ _ _ Ht), (proj2 (Z.leb_gt n j)) by lia. cbn [negb]. wp_steps.
  eapply msix_get_table_ok; [exact Hd|exact Ht|]. wp_steps. unfold MSIX_ENTRY_CONTROL. rewrite (entry_addr va pa n s0) by (done || lia).
  eapply wp_mmio_getl; [exact Hd|apply Ht|lia|]. wp_steps. eapply wp_mmio_setl; [exact Hd|apply Ht|lia|].
  intros s' Hd'. wp_steps. by split.
Qed.

(** Masking entries [i] to [i + k - 1]. *)
Lemma mask_entries_ok k : forall i va pa n s0 d s, dev_at s0 d s -> msix_table s0 va pa n -> 0 <= i -> i + Z.of_nat k <= n ->
  wp (mask_entries msix_mask_entry k i) s (fun _ s' => exists m, dev_at (set_io m s0) d s' /\
    (forall j, i <= j < i + Z.of_nat k -> Z.testbit (m (entry_reg pa j 12)) 0 = true) /\
    (forall a, (forall j, i <= j < i + Z.of_nat k -> a <> entry_reg pa j 12) -> m a = io s0 a)).
Proof.
  induction k as [|k IH]; intros i va pa n s0 d s Hd Ht Hi Hk; cbn [mask_entries].
  { wp_steps. exists (io s0). split; [by destruct s0|]. split; [lia|done]. }
  wp_steps. eapply wp_mono; [apply (msix_change_mask_ok _ i va pa n s0 d s Hd Ht); lia|]. intros r s1 [_ Hd1]. cbn beta.
  eapply wp_mono; [apply (IH (i + 1) va pa n _ d s1 Hd1 (msix_table_io _ _ _ _ _ Ht)); lia|].
  intros [] s2 (m & Hd2 & Hin & Hout). exists m. split; [exact Hd2|]. cbn [io set_io] in Hout. unfold entry_reg in *. split.
  - intros j Hj. destruct (decide (j = i)) as [->|]; [|apply Hin; lia].
    rewrite Hout by (intros j' Hj'; lia). unfold upd. rewrite Z.eqb_refl. unfold wrap32.
    rewrite testbit_mod_pow2, Z.lor_spec by lia. cbn. by rewrite orb_true_r.
  - intros a Ha. rewrite Hout by (intros j Hj; apply Ha; lia). unfold upd. rewrite (proj2 (Z.eqb_neq a _)); [done|apply Ha; lia].
Qed.

Lemma msix_write_entry_ok msg va pa n s0 d s : dev_at s0 d s -> msix_table s0 va pa n -> 0 < n ->
  wp (pci_msix_write_entry 0 msg) s (fun r s' => r = true /\ exists m, dev_at (set_io m s0) d s' /\
    m pa = wrap32 (address_lo msg) /\ m (pa + 4) = wrap32 (address_hi msg) /\ m (pa + 8) = wrap32 (data msg) /\
    forall a, a <> pa -> a <> pa + 4 -> a <> pa + 8 -> m a = io s0 a).
Proof.
  intros Hd Ht Hn. destruct (dev_at_pci _ _ _ Hd) as [Hp _]. unfold pci_msix_write_entry, pci_is_msix. wp_steps.
  rewrite Hp, (mt_have _ _ _ _ Ht), (mt_count _ _ _ _ Ht), (proj2 (Z.leb_gt n 0)) by lia. cbn [negb]. wp_steps.
  eapply msix_get_table_ok; [exact Hd|exact Ht|]. wp_steps.
  rewrite !(entry_addr va pa n s0) by (done || lia || (unfold MSIX_ENTRY_ADDR_LO, MSIX_ENTRY_ADDR_HI, MSIX_ENTRY_DATA; lia)).
  unfold MSIX_ENTRY_ADDR_LO, MSIX_ENTRY_ADDR_HI, MSIX_ENTRY_DATA.
  eapply wp_mmio_setl; [exact Hd|apply Ht|lia|]. intros s1 Hd1. wp_steps.
  eapply wp_mmio_setl; [exact Hd1|apply Ht|lia|]. intros s2 Hd2. wp_steps.
  eapply wp_mmio_setl; [exact Hd2|apply Ht|lia|]. intros s3 Hd3. wp_steps. split; [done|].
  cbn [Z.mul Z.add] in Hd3. eexists. split; [exact Hd3|]. cbn [io set_io]. unfold upd. rewrite !Z.add_0_r.
  split; [|split; [|split]].
  - by rewrite Z.eqb_refl, !(proj2 (Z.eqb_neq pa _)) by lia.
  - by rewrite Z.eqb_refl, !(proj2 (Z.eqb_neq (pa + 4) _)) by lia.
  - by rewrite Z.eqb_refl.
  - intros a H0 H4 H8. by rewrite !(proj2 (Z.eqb_neq a _)) by lia.
Qed.
End msix.

(** ** Registering a handler on MSI-X *)
Section register.
Context {D : Type} `{PR : PciRegisters D} {T : Type} `{FA : FrameAlloc T}.
Implicit Types (s : pst D T) (d : D).

Definition mapped_bar (b : pci_bar) (v : Z) : pci_bar :=
  PciBar (_dev b) (_pos b) (_addr_lo b) (_addr_hi b) (_addr_64 b) (_addr_size b) v (_is_mmio b) (_is_64 b) (_is_prefetchable b).
Definition after_map s (i : Z) (b : pci_bar) (v : Z) (m : mm T) : pst D T :=
  set_pci (set_bars (<[Z.to_nat i := mapped_bar b v]> (_bars (pci s))) (pci s)) (set_vmem m s).

Lemma pci_bar_map_ok i b v m s0 d s : dev_at s0 d s -> 0 <= i -> _bars (pci s0) !! Z.to_nat i = Some b -> _is_mmio b = true ->
  ioremap_nocache (_addr_64 b) (_addr_size b) (vmem s0) = Done (v, m) ->
  wp (pci_bar_map i) s (fun _ s' => dev_at (after_map s0 i b v m) d s').
Proof.
  intros Hd Hi Hb Hm Hrun. destruct (dev_at_pci _ _ _ Hd) as (Hp & Hv & _). unfold pci_bar_map, get_bar, put_bar. wp_steps.
  rewrite Hp, (proj2 (Z.leb_le 0 i)) by done. eapply wp_deref_opt; [exact Hb|]. rewrite Hm. wp_steps.
  unfold wp. rewrite Hv, Hrun. cbn. destruct Hd as [[a ->] Hw]. unfold after_map, mapped_bar. rewrite Hm. split; [by exists a|done].
Qed.

(** A device with MSI-X before it is enabled: the entry of its table in
    [_bars], where its capability lies, and the bits of the control register
    the specification makes writable. *)
Record msix_device s d (i : Z) (b : pci_bar) (v : Z) (m : mm T) (va pa n : Z) : Prop := {
  md_have : _have_msix (pci s) = true;
  md_index : msix_table_bar (_msix (pci s)) = i /\ 0 <= i <= 5;
  md_bar : _bars (pci s) !! Z.to_nat i = Some b /\ _dev b = true /\ _is_mmio b = true;
  md_count : msix_msgnum (_msix (pci s)) = n /\ 0 < n;
  md_map : ioremap_nocache (_addr_64 b) (_addr_size b) (vmem s) = Done (v, m);
  md_table : wrap64 (v + msix_table_offset (_msix (pci s))) = va /\ window m va pa (16 * n);
  md_place : 0x40 <= msix_location (_msix (pci s)) < 252 /\ msix_location (_msix (pci s)) mod 4 = 0;
  md_ctrl : Z.testbit (cfg_wmask d (msix_location (_msix (pci s)))) 30 = true /\
    Z.testbit (cfg_wmask d (msix_location (_msix (pci s)))) 31 = true;
  md_intx : Z.testbit (cfg_wmask d PCI_CFG_COMMAND) 10 = true
}.

Lemma msix_table_mapped s d i b v m va pa n : msix_device s d i b v m va pa n -> msix_table (after_map s i b v m) va pa n.
Proof.
  intros [Hh [Hi Hi5] (Hb & Hdev & Hm) [Hn Hn0] _ [Hva Hwin] _ _ _]. split; [done|done| |done].
  cbn [pci after_map set_pci set_bars _msix _bars]. rewrite Hi. split; [done|]. exists (mapped_bar b v).
  rewrite list_lookup_insert_eq by (by eapply lookup_lt_Some). done.
Qed.

(** What enabling leaves in the device's registers. *)
Record msix_on d d' (loc : Z) : Prop := {
  mo_enabled : Z.testbit (cfg_word d' (loc + PCIR_MSIX_CTRL)) 15 = true;
  mo_unmasked : Z.testbit (cfg_word d' (loc + PCIR_MSIX_CTRL)) 14 = false;
  mo_intx : Z.testbit (cfg_word d' PCI_CFG_COMMAND) 10 = true;
  mo_same q : q <> PCI_CFG_COMMAND -> q <> loc -> cfg_get d' q = cfg_get d q
}.

Lemma ctrl_place loc : 0x40 <= loc < 252 -> loc mod 4 = 0 ->
  wrap8 (loc + PCIR_MSIX_CTRL) = loc + PCIR_MSIX_CTRL /\ (loc + PCIR_MSIX_CTRL) / 4 * 4 = loc /\ Z.land (loc + PCIR_MSIX_CTRL) 2 = 2.
Proof.
  intros Hl Hm. unfold PCIR_MSIX_CTRL. split; [apply Z.mod_small; lia|]. split; [Z.to_euclidean_division_equations; lia|].
  apply Z.bits_inj'. intros i Hi. rewrite Z.land_spec. destruct (decide (i = 1)) as [->|].
  - change (Z.testbit 2 1) with true. rewrite andb_true_r, Z.testbit_odd, Z.shiftr_div_pow2 by lia. change (2 ^ 1) with 2.
    replace ((loc + 2) / 2) with (2 * (loc / 4) + 1) by (Z.to_euclidean_division_equations; lia). rewrite Z.odd_add, Z.odd_mul. done.
  - change 2 with (2 ^ 1). rewrite Z.pow2_bits_eqb, (proj2 (Z.eqb_neq 1 i)) by lia. apply andb_false_r.
Qed.

Lemma msix_on_writes d loc : 0x40 <= loc < 252 -> loc mod 4 = 0 ->
  Z.testbit (cfg_wmask d loc) 30 = true -> Z.testbit (cfg_wmask d loc) 31 = true -> Z.testbit (cfg_wmask d PCI_CFG_COMMAND) 10 = true ->
  let o := loc + PCIR_MSIX_CTRL in
  let d1 := put_word d PCI_CFG_COMMAND (Z.lor (cfg_word d PCI_CFG_COMMAND) PCI_COMMAND_INTX_DISABLE) in
  let d2 := put_word d1 o (Z.lor (Z.lor (cfg_word d1 o) PCIM_MSIXCTRL_MSIX_ENABLE) PCIM_MSIXCTRL_FUNCTION_MASK) in
  let d3 := put_word d2 o (clear16 (cfg_word d2 o) PCIM_MSIXCTRL_FUNCTION_MASK) in
  msix_on d d3 loc.
Proof.
  intros Hl Hm H30 H31 H10 o d1 d2 d3. destruct (ctrl_place loc Hl Hm) as (_ & Ho4 & Ho2). fold o in Ho4, Ho2.
  assert (0 <= o) by (subst o; unfold PCIR_MSIX_CTRL; lia).
  assert (forall q, cfg_wmask d1 q = cfg_wmask d q) as Hw1 by (intros q; apply put_word_wmask).
  assert (forall q, cfg_wmask d2 q = cfg_wmask d q) as Hw2 by (intros q; unfold d2; by rewrite put_word_wmask).
  assert (forall d' v q, q <> loc -> cfg_get (put_word d' o v) q = cfg_get d' q) as Hsame.
  { intros d' v q Hq. apply put_word_same. by rewrite Ho4. }
  assert (Z.testbit (cfg_word d2 o) 15 = true) as H15.
  { unfold d2. rewrite put_word_bits, Ho4, Ho2, Hw1 by lia. change (15 + 8 * 2) with 31. rewrite H31.
    unfold wrap16. rewrite testbit_mod_pow2, !Z.lor_spec by lia. cbn. by rewrite orb_true_r. }
  split; fold o.
  - unfold d3. rewrite put_word_bits, Ho4, Ho2, Hw2 by lia. change (15 + 8 * 2) with 31. rewrite H31.
    unfold wrap16, clear16. rewrite testbit_mod_pow2, Z.ldiff_spec, H15 by lia. done.
  - unfold d3. rewrite put_word_bits, Ho4, Ho2, Hw2 by lia. change (14 + 8 * 2) with 30. rewrite H30.
    unfold wrap16, clear16. rewrite testbit_mod_pow2, Z.ldiff_spec by lia. change (Z.testbit PCIM_MSIXCTRL_FUNCTION_MASK 14) with true. apply andb_false_r.
  - assert (forall q, q <> loc -> cfg_get d3 q = cfg_get d1 q) as Hq.
    { intros q Hq. unfold d3, d2. by rewrite !Hsame. }
    unfold cfg_word, cfg_bits. change (PCI_CFG_COMMAND / 4 * 4) with PCI_CFG_COMMAND. rewrite Hq by (unfold PCI_CFG_COMMAND; lia).
    change (Z.testbit (cfg_word d1 PCI_CFG_COMMAND) 10 = true). unfold d1. rewrite put_word_bits by (unfold PCI_CFG_COMMAND; lia).
    change (PCI_CFG_COMMAND / 4 * 4) with PCI_CFG_COMMAND. change (10 + 8 * Z.land PCI_CFG_COMMAND 2) with 10. rewrite H10.
    unfold wrap16. rewrite testbit_mod_pow2, Z.lor_spec by lia. cbn. by rewrite orb_true_r.
  - intros q H4 Hql. unfold d3, d2. rewrite !Hsame by done. by apply put_word_same.
Qed.

Lemma pci_msix_enable_ok i b v m va pa n s0 d s : dev_at s0 d s -> msix_device s0 d i b v m va pa n ->
  wp pci_msix_enable s (fun _ s' => exists io' d',
    dev_at (set_pci (set_msix true true (_msix (pci s0)) (pci (after_map s0 i b v m))) (set_io io' (after_map s0 i b v m))) d' s' /\
    msix_on d d' (msix_location (_msix (pci s0))) /\
    (forall j, 0 <= j < n -> Z.testbit (io' (entry_reg pa j 12)) 0 = true) /\
    (forall a, (forall j, 0 <= j < n -> a <> entry_reg pa j 12) -> io' a = io s0 a)).
Proof.
  intros Hd Hm. pose proof Hm as [Hh [Hi Hi5] (Hb & Hdev & Hmm) [Hn Hn0] Hmap _ [Hl Hl4] [H30 H31] H10].
  destruct (dev_at_pci _ _ _ Hd) as (Hp & _). destruct (ctrl_place _ Hl Hl4) as (Ho8 & _ & _).
  unfold pci_msix_enable, pci_is_msix, pci_get_bar. wp_steps. rewrite Hp, Hh. cbn [negb]. wp_steps. rewrite ?Hp, Hi.
  rewrite (proj2 (Z.leb_le (i + 1) 6)) by lia. wp_steps. replace (i + 1 - 1) with i by lia. unfold get_bar at 1. wp_steps.
  rewrite Hp, (proj2 (Z.leb_le 0 i)) by lia. eapply wp_deref_opt; [exact Hb|]. rewrite Hdev. wp_steps.
  eapply wp_mono; [apply (pci_bar_map_ok i b v m s0 d s Hd); [lia|done|done|done]|]. intros [] s1 Hd1. cbn beta.
  unfold disable_intx, pci_get_command, pci_set_command, msix_get_control, msix_set_control. wp_steps.
  eapply wp_readw8; [exact Hd1|]. intros s2 Hd2. wp_steps. change (wrap8 PCI_CFG_COMMAND) with PCI_CFG_COMMAND.
  eapply wp_pci_writew; [unfold PCI_CFG_COMMAND; lia|exact Hd2|]. intros s3 Hd3. wp_steps.
  assert (forall t d0, dev_at (after_map s0 i b v m) d0 t -> msix_location (_msix (pci t)) = msix_location (_msix (pci s0))) as Hloc.
  { intros t d0 Ht. by rewrite (proj1 (dev_at_pci _ _ _ Ht)). }
  rewrite (Hloc _ _ Hd3). eapply wp_readw8; [exact Hd3|]. intros s4 Hd4. wp_steps. rewrite Ho8, (Hloc _ _ Hd4).
  eapply wp_pci_writew; [unfold PCIR_MSIX_CTRL; lia|exact Hd4|]. intros s5 Hd5. wp_steps. rewrite (Hloc _ _ Hd5).
  eapply wp_readw8; [exact Hd5|]. intros s6 Hd6. wp_steps. rewrite Ho8.
  eapply wp_mono; [apply (mask_entries_ok _ 0 va pa n _ _ s6 Hd6 (msix_table_mapped s0 d i b v m va pa n Hm)); lia|].
  intros [] s7 (io' & Hd7 & Hin & Hout). cbn beta. wp_steps.
  assert (msix_location (_msix (pci s7)) = msix_location (_msix (pci s0))) as -> by (by rewrite (proj1 (dev_at_pci _ _ _ Hd7))).
  eapply wp_pci_writew; [unfold PCIR_MSIX_CTRL; lia|exact Hd7|]. intros s8 Hd8. wp_steps.
  eapply (upd_pci_ok (fun p => set_msix (_have_msix p) true (_msix p) p)); [exact Hd8|done|]. intros s9 Hd9.
  cbn [pci set_io after_map set_pci set_bars _have_msix _msix] in Hd9. rewrite Hh in Hd9. eexists io', _. split; [exact Hd9|].
  split; [by apply msix_on_writes|]. split; [intros j Hj; apply Hin; lia|].
  intros a Ha. rewrite Hout by (intros j Hj; apply Ha; lia). done.
Qed.
End register.

(** ** The theorems *)
Section top.
Context {D : Type} `{PR : PciRegisters D} {T : Type} `{FA : FrameAlloc T}.
Implicit Types (s : pst D T) (d : D).

Lemma dev_at_irq s0 d s l : dev_at s0 d s -> dev_at (set_irq l false s0) d (set_irq l false s).
Proof. intros [[a ->] Hw]. split; [by exists a|done]. Qed.

Lemma register_ok s0 d s p Q : dev_at s0 d s -> spin_irq s0 = false ->
  (let n := free_vector 156 100 (irq_vectors s0) in
   forall s', dev_at (set_irq (if n =? 0 then irq_vectors s0 else <[Z.to_nat n := p]> (irq_vectors s0)) false s0) d s' -> Q n s') ->
  wp (register_irq_handler p) s Q.
Proof.
  intros Hd Hs HQ. destruct (dev_at_pci _ _ _ Hd) as (_ & _ & _ & Hv & Hsp). unfold register_irq_handler. wp_steps. rewrite Hsp, Hs.
  wp_steps. cbn [irq_vectors set_irq]. rewrite Hv. apply HQ.
  by pose proof (dev_at_irq s0 d s (if free_vector 156 100 (irq_vectors s0) =? 0 then irq_vectors s0
      else <[Z.to_nat (free_vector 156 100 (irq_vectors s0)) := p]> (irq_vectors s0)) Hd).
Qed.

(** Programming entry 0 and letting it through. *)
Lemma msi_program_msix_ok x2 n destid va pa k s0 d s : dev_at s0 d s -> msix_table s0 va pa k -> 0 < k ->
  wp (msi_program x2 0 n destid) s (fun _ s' => exists io', dev_at (set_io io' s0) d s' /\
    let msg := msi_compose_msg x2 n destid in
    io' pa = wrap32 (address_lo msg) /\ io' (pa + 4) = wrap32 (address_hi msg) /\ io' (pa + 8) = wrap32 (data msg) /\
    Z.testbit (io' (pa + 12)) 0 = false /\ forall a, a < pa \/ pa + 16 <= a -> io' a = io s0 a).
Proof.
  intros Hd Ht Hk. destruct (dev_at_pci _ _ _ Hd) as [Hp _]. unfold msi_program, pci_is_msix. wp_steps. rewrite Hp, (mt_have _ _ _ _ Ht). wp_steps.
  eapply wp_mono; [apply (msix_change_mask_ok _ 0 va pa k s0 d s Hd Ht); lia|]. intros r1 s1 [_ Hd1]. cbn beta. wp_steps.
  eapply wp_mono; [apply (msix_write_entry_ok (msi_compose_msg x2 n destid) va pa k _ d s1 Hd1 (msix_table_io _ _ _ _ _ Ht) Hk)|].
  intros r2 s2 (_ & io2 & Hd2 & Hlo & Hhi & Hdata & Hsame). cbn beta. wp_steps.
  eapply wp_mono; [apply (msix_change_mask_ok _ 0 va pa k _ d s2 Hd2); [by do 2 apply msix_table_io|lia]|].
  intros r3 s3 [_ Hd3]. cbn beta. wp_steps. eexists. split; [exact Hd3|]. cbn [io set_io] in *. unfold entry_reg in *.
  change (16 * 0 + 12) with 12 in *. unfold upd in *. cbv zeta. split; [|split; [|split; [|split]]].
  - by rewrite (proj2 (Z.eqb_neq pa _)) by lia.
  - by rewrite (proj2 (Z.eqb_neq (pa + 4) _)) by lia.
  - by rewrite (proj2 (Z.eqb_neq (pa + 8) _)) by lia.
  - rewrite Z.eqb_refl. unfold wrap32. rewrite testbit_mod_pow2, Z.ldiff_spec by lia. cbn. apply andb_false_r.
  - intros a Ha. rewrite (proj2 (Z.eqb_neq a _)) by lia. rewrite Hsame by lia. by rewrite (proj2 (Z.eqb_neq a _)) by lia.
Qed.

(** C24: [msi_register_one] on a device with MSI-X, a free vector and a table
    that [ioremap_nocache] maps: the handler is entered in the first free
    vector, entry 0 of the table holds the message for that vector and
    processor and lets it through, every other entry is masked, the rest of the
    device's memory is as before; MSI-X is enabled for the function as a whole
    and unmasked, its interrupt pin is off, and its other registers are
    unchanged. *)
Theorem msi_register_one_msix x2 destid p s d i b v m va pa n
    (Hd : funcs (hw s) !! index (bdf (pci s)) = Some d) (Hw : where_ok (bdf (pci s)))
    (Hdev : msix_device s d i b v m va pa n) (Hlock : spin_irq s = false)
    (Hvec : free_vector 156 100 (irq_vectors s) <> 0) :
  let vector := free_vector 156 100 (irq_vectors s) in
  let msg := msi_compose_msg x2 vector destid in
  wp (msi_register_one x2 destid p) s (fun r s' => r = true /\
    irq_vectors s' = <[Z.to_nat vector := p]> (irq_vectors s) /\ spin_irq s' = false /\
    io s' pa = wrap32 (address_lo msg) /\ io s' (pa + 4) = wrap32 (address_hi msg) /\ io s' (pa + 8) = wrap32 (data msg) /\
    Z.testbit (io s' (pa + 12)) 0 = false /\
    (forall j, 1 <= j < n -> Z.testbit (io s' (entry_reg pa j 12)) 0 = true) /\
    (forall a, a < pa \/ pa + 16 * n <= a -> io s' a = io s a) /\
    exists d', funcs (hw s') = <[index (bdf (pci s)) := d']> (funcs (hw s)) /\ msix_on d d' (msix_location (_msix (pci s)))).
Proof.
  intros vector msg. pose proof (dev_at_start s d Hd Hw) as Hat. destruct (md_count _ _ _ _ _ _ _ _ _ Hdev) as [_ Hn0].
  unfold msi_register_one. wp_steps. eapply register_ok; [exact Hat|exact Hlock|]. cbv zeta. fold vector.
  rewrite (proj2 (Z.eqb_neq vector 0)) by done. intros s1 Hd1. set (t1 := set_irq _ false s) in Hd1.
  assert (msix_device t1 d i b v m va pa n) as Hdev1 by (by destruct Hdev).
  unfold msi_enable, pci_is_msix. wp_steps. rewrite (proj1 (dev_at_pci _ _ _ Hd1)).
  change (_have_msix (pci t1)) with (_have_msix (pci s)). rewrite (md_have _ _ _ _ _ _ _ _ _ Hdev).
  eapply wp_mono; [by apply (pci_msix_enable_ok i b v m va pa n t1 d s1)|].
  intros [] s2 (io2 & d2 & Hd2 & Hon & Hin & Hout). cbn beta. wp_steps.
  eapply wp_mono; [apply (msi_program_msix_ok x2 vector destid va pa n _ d2 s2 Hd2)|].
  { pose proof (msix_table_mapped t1 d i b v m va pa n Hdev1) as Ht. apply (msix_table_io _ _ _ _ io2) in Ht. by destruct Ht. }
  { done. }
  intros [] s3 (io3 & Hd3 & Hlo & Hhi & Hdata & Hmask & Hsame). cbn beta. wp_steps. cbn [io set_io set_pci] in Hsame.
  destruct (dev_at_pci _ _ _ Hd3) as (_ & _ & -> & -> & ->). split; [done|]. split; [done|]. split; [done|]. cbn [io set_io].
  do 4 (split; [done|]). split; [|split].
  - intros j Hj. rewrite Hsame by (unfold entry_reg; lia). apply Hin. lia.
  - intros a Ha. rewrite Hsame by lia. rewrite Hout; [done|]. intros j Hj. unfold entry_reg. lia.
  - destruct Hd3 as [[a ->] _]. by exists d2.
Qed.
End top.

(** ** Registering a handler on MSI *)
Section msi_one.
Context {D : Type} `{PR : PciRegisters D} {T : Type} `{FA : FrameAlloc T}.
Implicit Types (s : pst D T) (d : D).

(** A device with MSI and the bits the specification makes writable. *)
Record msi_device s d (loc : Z) : Prop := {
  mi_have : _have_msi (pci s) = true /\ _have_msix (pci s) = false;
  mi_count : msi_msgnum (_msi (pci s)) = 1;
  mi_place : msi_location (_msi (pci s)) = loc /\ 0x40 <= loc <= 228 /\ loc mod 4 = 0;
  mi_ctrl : Z.testbit (cfg_wmask d loc) 16 = true;
  mi_intx : Z.testbit (cfg_wmask d PCI_CFG_COMMAND) 10 = true
}.
Definition mask_reg s (loc : Z) : Z := loc + if is_64_address (_msi (pci s)) then PCIR_MSI_MASK_64 else PCIR_MSI_MASK_32.

(** [v] as far as register [r] can be written. *)
Definition merged d (r v : Z) : Z := Z.lor (Z.ldiff (cfg_get d r) (cfg_wmask d r)) (Z.land v (cfg_wmask d r)).

(** The registers outside [R] read as before, and what can be written stays. *)
Definition outside (R : Z -> Prop) d d' : Prop :=
  (forall q, ~ R q -> cfg_get d' q = cfg_get d q) /\ forall q, cfg_wmask d' q = cfg_wmask d q.
Lemma outside_trans (R R' R'' : Z -> Prop) d1 d2 d3 : outside R d1 d2 -> outside R' d2 d3 ->
  (forall q, R q \/ R' q -> R'' q) -> outside R'' d1 d3.
Proof.
  intros [Hg Hm] [Hg' Hm'] HR. split; [intros q Hq|intros q; by rewrite Hm', Hm].
  rewrite Hg', Hg by (intros ?; apply Hq, HR; auto). done.
Qed.
Lemma outside_word d o v : outside (eq (o / 4 * 4)) d (put_word d o v).
Proof. split; intros q; [intros Hq; apply put_word_same; congruence|apply put_word_wmask]. Qed.
Lemma outside_long d r v : outside (eq r) d (cfg_put d r v (Z.ones 32)).
Proof.
  split; intros q; [|apply cfg_put_wmask]. intros Hq. rewrite cfg_put_get, (proj2 (Z.eqb_neq q r)); [done|congruence].
Qed.
Lemma get_long d r v : cfg_get (cfg_put d r v (Z.ones 32)) r = merged d r v.
Proof. rewrite cfg_put_get, Z.eqb_refl, land_ones_mask by apply cfg_wmask_range. done. Qed.

Lemma msi_change_mask_ok f loc s0 d s : dev_at s0 d s -> _have_msi (pci s0) = true -> msi_msgnum (_msi (pci s0)) = 1 ->
  msi_location (_msi (pci s0)) = loc -> 0x40 <= loc <= 228 -> loc mod 4 = 0 ->
  wp (msi_change_mask f 0) s (fun _ s' => exists d', dev_at s0 d' s' /\ outside (eq (mask_reg s0 loc)) d d').
Proof.
  intros Hd Hh Hn Hloc Hl Hl4. destruct (dev_at_pci _ _ _ Hd) as [Hp _]. unfold msi_change_mask, pci_is_msi. wp_steps.
  rewrite Hp, Hh, Hn, Hloc. cbn [negb Z.leb Z.compare]. fold (mask_reg s0 loc). destruct (is_vector_mask _); wp_steps; [|by exists d].
  assert (0 <= mask_reg s0 loc < 256 /\ mask_reg s0 loc / 4 * 4 = mask_reg s0 loc) as [Hr Hr4].
  { unfold mask_reg, PCIR_MSI_MASK_64, PCIR_MSI_MASK_32. destruct (is_64_address _); split; try lia; Z.to_euclidean_division_equations; lia. }
  unfold wrap8. rewrite (Z.mod_small (mask_reg s0 loc)) by done.
  eapply wp_pci_readl; [done|exact Hd|]. intros s1 Hd1. wp_steps.
  eapply wp_pci_writel; [done|exact Hd1|]. intros s2 Hd2. wp_steps. eexists. split; [exact Hd2|]. rewrite Hr4. apply outside_long.
Qed.

(** The place of the control register. *)
Lemma msi_ctrl_place loc : 0x40 <= loc <= 228 -> loc mod 4 = 0 ->
  wrap8 (loc + PCIR_MSI_CTRL) = loc + PCIR_MSI_CTRL /\ (loc + PCIR_MSI_CTRL) / 4 * 4 = loc /\ Z.land (loc + PCIR_MSI_CTRL) 2 = 2.
Proof. intros Hl Hm. apply (ctrl_place loc); [lia|done]. Qed.

Lemma word_outside (R : Z -> Prop) d d' o : outside R d d' -> ~ R (o / 4 * 4) -> cfg_word d' o = cfg_word d o.
Proof. intros [Hg _] Hn. unfold cfg_word, cfg_bits. by rewrite Hg. Qed.
Lemma merged_outside (R : Z -> Prop) d d' r v : outside R d d' -> ~ R r -> merged d' r v = merged d r v.
Proof. intros [Hg Hm] Hn. unfold merged. by rewrite Hg, Hm. Qed.

(** Where enabling and programming write. *)
Definition enable_regs s (loc q : Z) : Prop := q = PCI_CFG_COMMAND \/ q = loc \/ q = mask_reg s loc.
Definition message_regs s (loc q : Z) : Prop :=
  q = loc + PCIR_MSI_ADDR \/ (is_64_address (_msi (pci s)) = true /\ q = loc + PCIR_MSI_UADDR) \/
  q = loc + PCIR_MSI_DATA_64 \/ q = mask_reg s loc.

Lemma pci_msi_enable_ok loc s0 d s : dev_at s0 d s -> msi_device s0 d loc ->
  wp pci_msi_enable s (fun _ s' => exists d', dev_at (set_pci (set_msi true true (_msi (pci s0)) (pci s0)) s0) d' s' /\
    outside (enable_regs s0 loc) d d' /\ Z.testbit (cfg_word d' (loc + PCIR_MSI_CTRL)) 0 = true /\
    Z.testbit (cfg_word d' PCI_CFG_COMMAND) 10 = true).
Proof.
  intros Hd [[Hh _] Hn (Hloc & Hl & Hl4) H16 H10]. destruct (dev_at_pci _ _ _ Hd) as [Hp _].
  destruct (msi_ctrl_place loc Hl Hl4) as (Ho8 & Ho4 & Ho2).
  unfold pci_msi_enable, pci_is_msi, disable_intx, pci_get_command, pci_set_command, msi_get_control, msi_set_control. wp_steps.
  rewrite Hp, Hh. cbn [negb]. wp_steps.
  eapply wp_readw8; [exact Hd|]. intros s1 Hd1. wp_steps. change (wrap8 PCI_CFG_COMMAND) with PCI_CFG_COMMAND.
  eapply wp_pci_writew; [unfold PCI_CFG_COMMAND; lia|exact Hd1|]. intros s2 Hd2. wp_steps. set (d2 := put_word d _ _) in Hd2.
  destruct (dev_at_pci _ _ _ Hd2) as [-> _]. rewrite Hloc, ?Hn.
  eapply wp_readw8; [exact Hd2|]. intros s3 Hd3. wp_steps. destruct (dev_at_pci _ _ _ Hd3) as [-> _]. rewrite Hn.
  change (Z.to_nat 1) with 1%nat. cbn [mask_entries]. wp_steps.
  eapply wp_mono; [by apply (msi_change_mask_ok _ loc s0 d2 s3)|]. intros r s4 (d4 & Hd4 & Hout4). cbn beta. wp_steps.
  destruct (dev_at_pci _ _ _ Hd4) as [-> _]. rewrite Hloc, Ho8.
  eapply wp_pci_writew; [unfold PCIR_MSI_CTRL; lia|exact Hd4|]. intros s5 Hd5. wp_steps. unfold set_msi_enabled.
  eapply (upd_pci_ok (fun p => set_msi (_have_msi p) true (_msi p) p)); [exact Hd5|done|]. intros s6 Hd6.
  rewrite Hh in Hd6. eexists. split; [exact Hd6|].
  assert (outside (fun q => q = PCI_CFG_COMMAND \/ q = mask_reg s0 loc) d d4) as Hout.
  { eapply outside_trans; [apply outside_word|exact Hout4|]. intros q [<-|<-]; auto. }
  assert (mask_reg s0 loc <> loc /\ mask_reg s0 loc <> PCI_CFG_COMMAND /\ loc <> PCI_CFG_COMMAND) as (Hne1 & Hne2 & Hne3).
  { unfold mask_reg, PCIR_MSI_MASK_64, PCIR_MSI_MASK_32, PCI_CFG_COMMAND. destruct (is_64_address _); lia. }
  split; [|split].
  - eapply outside_trans; [exact Hout|apply outside_word|]. rewrite Ho4. unfold enable_regs. intros q [[?|?]|?]; auto.
  - rewrite put_word_bits, Ho4, Ho2 by (unfold PCIR_MSI_CTRL; lia). change (0 + 8 * 2) with 16. rewrite (proj2 Hout), H16.
    unfold wrap16. rewrite testbit_mod_pow2, Z.lor_spec by lia. cbn. by rewrite orb_true_r.
  - rewrite (word_outside (eq loc) d4); [|rewrite <- Ho4 at 1; apply outside_word|change (PCI_CFG_COMMAND / 4 * 4) with PCI_CFG_COMMAND; done].
    rewrite (word_outside (eq (mask_reg s0 loc)) d2); [|done|change (PCI_CFG_COMMAND / 4 * 4) with PCI_CFG_COMMAND; done].
    unfold d2. rewrite put_word_bits by (unfold PCI_CFG_COMMAND; lia). change (PCI_CFG_COMMAND / 4 * 4) with PCI_CFG_COMMAND.
    change (10 + 8 * Z.land PCI_CFG_COMMAND 2) with 10. rewrite H10. unfold wrap16. rewrite testbit_mod_pow2, Z.lor_spec by lia. cbn. by rewrite orb_true_r.
Qed.

Lemma pci_msi_write_ok msg loc s0 d s : dev_at s0 d s -> _have_msi (pci s0) = true -> msi_msgnum (_msi (pci s0)) = 1 ->
  msi_location (_msi (pci s0)) = loc -> 0x40 <= loc <= 228 -> loc mod 4 = 0 ->
  wp (pci_msi_write_entry 0 msg) s (fun _ s' => exists d', dev_at s0 d' s' /\ outside (message_regs s0 loc) d d' /\
    cfg_get d' (loc + PCIR_MSI_ADDR) = merged d (loc + PCIR_MSI_ADDR) (wrap32 (address_lo msg)) /\
    cfg_get d' (loc + PCIR_MSI_DATA_64) = merged d (loc + PCIR_MSI_DATA_64) (wrap32 (data msg)) /\
    (is_64_address (_msi (pci s0)) = true -> cfg_get d' (loc + PCIR_MSI_UADDR) = merged d (loc + PCIR_MSI_UADDR) (wrap32 (address_hi msg)))).
Proof.
  intros Hd Hh Hn Hloc Hl Hl4. destruct (dev_at_pci _ _ _ Hd) as [Hp _]. unfold pci_msi_write_entry, pci_is_msi. wp_steps.
  rewrite Hp, Hh, Hn, Hloc. cbn [negb Z.leb Z.compare]. wp_steps. unfold message_regs, PCIR_MSI_ADDR, PCIR_MSI_UADDR, PCIR_MSI_DATA_64.
  assert (forall k, k = 4 \/ k = 8 \/ k = 12 -> (loc + k) / 4 * 4 = loc + k) as H4 by (intros k Hk; Z.to_euclidean_division_equations; lia).
  eapply wp_pci_writel; [lia|exact Hd|]. rewrite (H4 4) by auto. intros s1 Hd1. wp_steps.
  set (d1 := cfg_put d _ _ _) in Hd1. pose proof (outside_long d (loc + 4) (wrap32 (address_lo msg))) as Hout1. fold d1 in Hout1.
  destruct (is_64_address (_msi (pci s0))).
  - wp_steps. eapply wp_pci_writel; [lia|exact Hd1|]. rewrite (H4 8) by auto. intros s2 Hd2. wp_steps.
    set (d2 := cfg_put d1 _ _ _) in Hd2. pose proof (outside_long d1 (loc + 8) (wrap32 (address_hi msg))) as Hout2. fold d2 in Hout2.
    eapply wp_pci_writel; [lia|exact Hd2|]. rewrite (H4 12) by auto. intros s3 Hd3. wp_steps. eexists. split; [exact Hd3|].
    pose proof (outside_long d2 (loc + 12) (wrap32 (data msg))) as Hout3. split; [|split; [|split]].
    + eapply outside_trans; [eapply outside_trans; [exact Hout1|exact Hout2|]|exact Hout3|]; [intros q Hq; exact Hq|].
      cbn. intros q [[<-|<-]|<-]; auto.
    + rewrite (proj1 Hout3), (proj1 Hout2) by lia. apply get_long.
    + rewrite get_long. rewrite (merged_outside _ _ _ _ _ Hout2), (merged_outside _ _ _ _ _ Hout1) by lia. done.
    + intros _. rewrite (proj1 Hout3) by lia. unfold d2. rewrite get_long, (merged_outside _ _ _ _ _ Hout1) by lia. done.
  - wp_steps. eapply wp_pci_writel; [lia|exact Hd1|]. rewrite (H4 12) by auto. intros s3 Hd3. wp_steps. eexists. split; [exact Hd3|].
    pose proof (outside_long d1 (loc + 12) (wrap32 (data msg))) as Hout3. split; [|split; [|split]].
    + eapply outside_trans; [exact Hout1|exact Hout3|]. intros q [<-|<-]; auto.
    + rewrite (proj1 Hout3) by lia. apply get_long.
    + rewrite get_long, (merged_outside _ _ _ _ _ Hout1) by lia. done.
    + done.
Qed.

(** C27: [msi_register_one] on a device with MSI and a free vector enters the
    handler in that vector, enables MSI, turns the interrupt pin off and gives
    the device the address of the message.  With a 64-bit message address its
    upper half and data follow in their registers; with a 32-bit one the data
    register, at offset 8, is never written, so the device does not learn its
    vector. *)
Theorem msi_register_one_msi x2 destid p s d loc
    (Hd : funcs (hw s) !! index (bdf (pci s)) = Some d) (Hw : where_ok (bdf (pci s)))
    (Hdev : msi_device s d loc) (Hlock : spin_irq s = false)
    (Hvec : free_vector 156 100 (irq_vectors s) <> 0) :
  let vector := free_vector 156 100 (irq_vectors s) in
  let msg := msi_compose_msg x2 vector destid in
  wp (msi_register_one x2 destid p) s (fun r s' => r = true /\
    irq_vectors s' = <[Z.to_nat vector := p]> (irq_vectors s) /\ spin_irq s' = false /\
    exists d', funcs (hw s') = <[index (bdf (pci s)) := d']> (funcs (hw s)) /\
      Z.testbit (cfg_word d' (loc + PCIR_MSI_CTRL)) 0 = true /\ Z.testbit (cfg_word d' PCI_CFG_COMMAND) 10 = true /\
      cfg_get d' (loc + PCIR_MSI_ADDR) = merged d (loc + PCIR_MSI_ADDR) (wrap32 (address_lo msg)) /\
      (if is_64_address (_msi (pci s)) then
         cfg_get d' (loc + PCIR_MSI_UADDR) = merged d (loc + PCIR_MSI_UADDR) (wrap32 (address_hi msg)) /\
         cfg_get d' (loc + PCIR_MSI_DATA_64) = merged d (loc + PCIR_MSI_DATA_64) (wrap32 (data msg))
       else cfg_get d' (loc + 8) = cfg_get d (loc + 8))).
Proof.
  intros vector msg. pose proof (dev_at_start s d Hd Hw) as Hat. pose proof Hdev as [[Hh Hx] Hn (Hloc & Hl & Hl4) _ _].
  unfold msi_register_one. wp_steps. eapply register_ok; [exact Hat|exact Hlock|]. cbv zeta. fold vector.
  rewrite (proj2 (Z.eqb_neq vector 0)) by done. intros s1 Hd1. set (t1 := set_irq _ false s) in Hd1.
  unfold msi_enable, msi_program, pci_is_msix. wp_steps. rewrite (proj1 (dev_at_pci _ _ _ Hd1)). change (_have_msix (pci t1)) with (_have_msix (pci s)). rewrite Hx.
  eapply wp_mono; [apply (pci_msi_enable_ok loc t1 d s1 Hd1); by destruct Hdev|]. intros [] s2 (d2 & Hd2 & Hout2 & Hen & Hintx). cbn beta. wp_steps.
  rewrite (proj1 (dev_at_pci _ _ _ Hd2)). cbn [pci set_pci set_msi _have_msix]. change (_have_msix (pci t1)) with (_have_msix (pci s)). rewrite Hx. wp_steps.
  set (t2 := set_pci _ t1) in Hd2.
  assert (mask_reg t2 loc = mask_reg s loc) as Hmr by done.
  eapply wp_mono; [by apply (msi_change_mask_ok _ loc t2 d2 s2)|]. intros r3 s3 (d3 & Hd3 & Hout3). cbn beta. wp_steps.
  eapply wp_mono; [by apply (pci_msi_write_ok msg loc t2 d3 s3)|]. intros r4 s4 (d4 & Hd4 & Hout4 & Hlo & Hdata & Hhi). cbn beta. wp_steps.
  eapply wp_mono; [by apply (msi_change_mask_ok _ loc t2 d4 s4)|]. intros r5 s5 (d5 & Hd5 & Hout5). cbn beta. wp_steps.
  destruct (dev_at_pci _ _ _ Hd5) as (_ & _ & _ & -> & ->). split; [done|]. split; [done|]. split; [done|]. exists d5.
  split; [by destruct Hd5 as [[a ->] _]|].
  assert (outside (fun q => q = loc + 4 \/ q = loc + 8 /\ is_64_address (_msi (pci s)) = true \/ q = loc + 12 \/ q = mask_reg s loc) d2 d5) as Hout.
  { eapply outside_trans; [eapply outside_trans; [exact Hout3|exact Hout4|intros q Hq; exact Hq]|exact Hout5|].
    cbn. rewrite Hmr. unfold message_regs, PCIR_MSI_ADDR, PCIR_MSI_UADDR, PCIR_MSI_DATA_64. rewrite Hmr.
    change (is_64_address (_msi (pci t2))) with (is_64_address (_msi (pci s))). intros q Hq. intuition congruence. }
  destruct (msi_ctrl_place loc Hl Hl4) as (_ & Ho4 & _). change (is_64_address (_msi (pci t2))) with (is_64_address (_msi (pci s))) in Hhi.
  assert (mask_reg s loc = loc + if is_64_address (_msi (pci s)) then 16 else 12) as Hmask by done.
  assert (forall r v, r = loc + 4 \/ r = loc + 8 \/ (r = loc + 12 /\ is_64_address (_msi (pci s)) = true) -> merged d3 r v = merged d r v) as Hm.
  { intros r v Hr. rewrite (merged_outside _ _ _ _ _ Hout3), (merged_outside _ _ _ _ _ Hout2); [done| |].
    - unfold enable_regs, PCI_CFG_COMMAND. change (mask_reg t1 loc) with (mask_reg s loc). rewrite Hmask. destruct (is_64_address _); intuition (lia || done).
    - rewrite Hmr, Hmask. destruct (is_64_address _); intuition (lia || done). }
  unfold PCIR_MSI_ADDR, PCIR_MSI_UADDR, PCIR_MSI_DATA_64 in *. split; [|split; [|split]].
  - erewrite word_outside; [exact Hen|exact Hout|]. rewrite Ho4, Hmask. destruct (is_64_address _); lia.
  - erewrite word_outside; [exact Hintx|exact Hout|]. change (PCI_CFG_COMMAND / 4 * 4) with 4. rewrite Hmask. destruct (is_64_address _); lia.
  - rewrite (proj1 Hout5), Hlo by (rewrite Hmr, Hmask; destruct (is_64_address _); lia). apply Hm. auto.
  - destruct (is_64_address (_msi (pci s))) eqn:H64.
    + rewrite !(proj1 Hout5), Hhi, Hdata by (try done; rewrite Hmr, Hmask; lia). split; apply Hm; auto.
    + rewrite (proj1 Hout) by (rewrite Hmask; intuition (lia || done)). apply Hout2.
      unfold enable_regs, PCI_CFG_COMMAND. change (mask_reg t1 loc) with (mask_reg s loc). rewrite Hmask. lia.
Qed.
End msi_one.

(** ** The card's interrupts *)

(** The card of PciBar.v with MSI-X, its table in the second register. *)
Definition msix_card : pci_device :=
  set_msix true false (Msix 2 3 0x50 1 1 0 0x800)
    (set_bars [no_bar; the_bar (Spec Mem32 false 12 0xFEBF1000) 0x14 no_bar; no_bar; no_bar; no_bar; no_bar] (pci0 0x1af4 0x1000)).

Lemma msi_register_one_msix_witness :
  wp (msi_register_one false 0 7) (pst0 (<[4 := (0, 0x0407)]> card) boot_mm msix_card) (fun r s' => r = true /\
    irq_vectors s' !! 100%nat = Some 7 /\ io s' 0xFEBF1000 = 0xFEE00000 /\ io s' 0xFEBF1004 = 0 /\ io s' 0xFEBF1008 = 0x4064 /\
    Z.testbit (io s' 0xFEBF100C) 0 = false /\ Z.testbit (io s' 0xFEBF101C) 0 = true).
Proof.
  destruct (ioremap_nocache_ok boot_mm root_only 0xFEBF1000 4096) as (m & Hrun & _ & Hin & _ & _).
  { exact boot_mm_ok. } { exact two_pages_can_alloc. }
  { split; [lia|]. split; [lia|]. apply (bool_decide_unpack _). vm_compute. exact I. }
  eapply wp_mono; [apply (msi_register_one_msix false 0 7 (pst0 (<[4 := (0, 0x0407)]> card) boot_mm msix_card) (<[4 := (0, 0x0407)]> card) 1
    (the_bar (Spec Mem32 false 12 0xFEBF1000) 0x14 no_bar) (0xFEBF1000 + IO_MEM_BASE) m (0xFEBF1000 + IO_MEM_BASE) 0xFEBF1000 3)|].
  - reflexivity.
  - unfold where_ok. cbn. lia.
  - split; [reflexivity|split; [reflexivity|lia]|repeat split|split; [reflexivity|lia]|exact Hrun| |split; [cbn; lia|reflexivity]|split; vm_compute; reflexivity|vm_compute; reflexivity].
    split; [reflexivity|]. split; [unfold IO_MEM_BASE; lia|]. intros o Ho. exists IO_FLAGS.
    replace (0xFEBF1000 + IO_MEM_BASE + o) with (0xFEBF1000 + o + IO_MEM_BASE) by lia. apply Hin. lia.
  - reflexivity.
  - vm_compute. discriminate.
  - intros r s' (-> & Hv & _ & Hlo & Hhi & Hdata & Hmask & Hothers & _). split; [done|]. split; [rewrite Hv; reflexivity|].
    split; [exact Hlo|]. split; [exact Hhi|]. split; [exact Hdata|]. split; [exact Hmask|]. apply (Hothers 1). lia.
Defined.

(** A device with MSI and a message address of 64 bits, and one of 32 bits. *)
Definition msi_card (wide : bool) : regfile :=
  list_to_map [(0, (0x10001af4, 0)); (4, (0x00100000, 0x0407)); (0x34, (0x40, 0));
    (0x40, ((if wide then 0x800000 else 0) + 5, 0x00010000)); (0x44, (0, 0xFFFFFFFC)); (0x48, (0, 0xFFFFFFFF));
    (0x4C, (0, 0xFFFF))].
Definition msi_device_of (wide : bool) : pci_device := set_msi true false (Msi 0x40 0 1 wide false) (pci0 0x1af4 0x1000).

Lemma msi_register_one_msi_witness :
  wp (msi_register_one false 0 7) (pst0 (msi_card true) boot_mm (msi_device_of true)) (fun r s' => r = true /\
    exists d', funcs (hw s') !! index card_place = Some d' /\
      cfg_get d' 0x44 = 0xFEE00000 /\ cfg_get d' 0x48 = 0 /\ cfg_get d' 0x4C = 0x4064).
Proof.
  eapply wp_mono; [apply (msi_register_one_msi false 0 7 (pst0 (msi_card true) boot_mm (msi_device_of true)) (msi_card true) 0x40)|].
  - reflexivity.
  - unfold where_ok. cbn. lia.
  - split; [split; reflexivity|reflexivity|split; [reflexivity|split; [lia|reflexivity]]|vm_compute; reflexivity|vm_compute; reflexivity].
  - reflexivity.
  - vm_compute. discriminate.
  - intros r s' (-> & _ & _ & d' & Hf & _ & _ & Hlo & Hhi & Hdata). split; [done|]. exists d'.
    split; [rewrite Hf; apply lookup_insert_eq|]. split; [exact Hlo|]. split; [exact Hhi|exact Hdata].
Defined.

(** The same with a 32-bit address: the vector ends up behind the capability. *)
Example msi_narrow_loses_vector :
  match msi_register_one false 0 7 (pst0 (msi_card false) boot_mm (msi_device_of false)) with
  | Done (r, s') => r = true /\
      match funcs (hw s') !! index card_place with
      | Some d' => cfg_get d' 0x48 = 0 /\ cfg_get d' 0x4C = 0x4064
      | None => False
      end
  | _ => False
  end.
Proof. vm_compute. repeat split. Qed.

(** Parsing clears the enable bit of MSI-X at the location the structure holds
    from before, zero, and not at the capability's: a device whose firmware left
    MSI-X on keeps it on. *)
Example msix_left_on :
  match pci_device_parse_config (pst0 (<[0x50 := (0x80020011, 0xC0000000)]> card) boot_mm (pci0 0 0)) with
  | Done (r, s') => r = true /\ msix_location (_msix (pci s')) = 0x50 /\ Z.testbit (msix_ctrl (_msix (pci s'))) 15 = true
  | _ => False
  end.
Proof. vm_compute. repeat split. Qed.

Lemma register_irq_handler_correct_witness :
  exists r s', register_irq_handler 7 (pst0 card boot_mm (pci0 0 0)) = Done (r, s') /\ spin_irq s' = false /\
    ((r = 0 /\ irq_vectors s' = repeat 0 256 /\ forall j, 100 <= j < 256 -> repeat 0 256 !! Z.to_nat j <> Some default_irq_handler) \/
     (100 <= r < 256 /\ repeat 0 256 !! Z.to_nat r = Some default_irq_handler /\
      irq_vectors s' = <[Z.to_nat r := 7]> (repeat 0 256) /\
      forall j, 100 <= j < r -> repeat 0 256 !! Z.to_nat j <> Some default_irq_handler)).
Proof. apply (register_irq_handler_correct (pst0 card boot_mm (pci0 0 0)) 7); reflexivity. Defined.
