(* ===== verification/InetSum.v ===== *)
(** * InetSum: checksums of IP and UDP packets (libs/net/ip.c, libs/net/udp.c)

    A packet is a list of bytes that starts with its Ethernet header
    ([struct udp_packet], [struct udp6_packet]); a field is read and written at
    its offset, in network order, and an access outside the packet faults.  The
    theorems say that a receiver who sums the packet as RFC 1071 prescribes
    accepts it. *)
From Stdlib Require Import ZArith Lia.
From stdpp Require Import base tactics list option.
From S2P Require Import Prelude Bytes.
#[export] Set Warnings "-clear-no-such-hyp".

(** Offsets from the start of [struct ip], [struct ipv6hdr] and
    [struct udphdr], and their sizes. *)
Definition ETH_HDR_SIZE : Z := 14.
Definition IP_LEN : Z := 2.
Definition IP_P : Z := 9.
Definition IP_SUM : Z := 10.
Definition IP_SRC : Z := 12.
Definition IP_DST : Z := 16.
Definition SIZE_IP : Z := 20.
Definition IP6_PAYLOAD_LEN : Z := 4.
Definition IP6_NEXTHDR : Z := 6.
Definition IP6_SADDR : Z := 8.
Definition SIZE_IP6 : Z := 40.
Definition UDP_LEN : Z := 4.
Definition UDP_CHECK : Z := 6.
Definition SIZE_UDP : Z := 8.

Abbreviation packet := (list Z).

Definition load8 (o : Z) : M packet Z := if 0 <=? o then (p <- gets id ;; deref_opt (p !! Z.to_nat o)) else fault.
(** [ntohs] of the 16 bits at [o], and a store of [htons v]. *)
Definition load16 (o : Z) : M packet Z := a <- load8 o ;; b <- load8 (o + 1) ;; ret (256 * a + b).
Definition store8 (o b : Z) : M packet unit :=
  p <- gets id ;;
  if (0 <=? o) && (o <? Z.of_nat (length p)) then modify (fun p => <[Z.to_nat o := b]> p) else fault.
Definition store16 (o v : Z) : M packet unit := store8 o (wrap16 v / 256) ;;; store8 (o + 1) (wrap16 v mod 256).

(** ** What a receiver computes

    The sum of RFC 1071, without reference to the code: 16-bit words in network
    order, a last odd byte padded with a zero byte, added with the carry out of
    the top brought back in at the bottom; a region with its checksum in place
    verifies when that sum is all ones. *)
Fixpoint words (l : list Z) : list Z :=
  match l with a :: b :: l' => 256 * a + b :: words l' | [a] => [256 * a] | [] => [] end.
Definition end_around (x y : Z) : Z := if x + y <? 2 ^ 16 then x + y else x + y - 2 ^ 16 + 1.
Definition inet_sum (l : list Z) : Z := fold_left end_around (words l) 0.
Definition verifies (l : list Z) : Prop := inet_sum l = 0xffff.

(** ** The checksum *)

(** [while (count > 1)] and the byte left over. *)
Fixpoint sum_loop (fuel : nat) (sum addr count : Z) : M packet Z :=
  if 1 <? count then
    match fuel with
    | O => out_of_fuel
    | S fuel' => w <- load16 addr ;; sum_loop fuel' (wrap32 (sum + w)) (addr + 2) (count - 2)
    end
  else if 0 <? count then b <- load8 addr ;; ret (wrap32 (sum + 256 * b))
  else ret sum.
(** [while (sum >> 16)] *)
Fixpoint fold_loop (fuel : nat) (sum : Z) : M packet Z :=
  if Z.shiftr sum 16 =? 0 then ret sum
  else
    match fuel with
    | O => out_of_fuel
    | S fuel' => fold_loop fuel' (Z.land sum 0xffff + Z.shiftr sum 16)
    end.
Definition checksum (init addr count : Z) : M packet Z :=
  sum <- sum_loop (Z.to_nat count) init addr count ;;
  s <- fold_loop 3 sum ;;
  ret (wrap16 (Z.lnot s)).

(** [iphdrp->ip_hl << 2] *)
Definition header_bytes (iph : Z) : M packet Z := b <- load8 iph ;; ret (4 * Z.land b 15).

Definition ip_set_checksum (iph : Z) : M packet unit :=
  store16 (iph + IP_SUM) 0 ;;;
  n <- header_bytes iph ;;
  c <- checksum 0 iph n ;;
  store16 (iph + IP_SUM) c.

(** The 32-bit sum of the pseudo-header. *)
Definition pseudo_sum (iph udplen : Z) : M packet Z :=
  a <- load16 (iph + IP_SRC) ;;
  b <- load16 (iph + IP_SRC + 2) ;;
  c <- load16 (iph + IP_DST) ;;
  d <- load16 (iph + IP_DST + 2) ;;
  p <- load8 (iph + IP_P) ;;
  ret (wrap32 (a + b + c + d + p + udplen)).
Definition ip_set_udp_checksum (iph : Z) : M packet unit :=
  n <- header_bytes iph ;;
  let udph := iph + n in
  store16 (udph + UDP_CHECK) 0 ;;;
  total <- load16 (iph + IP_LEN) ;;
  let udplen := wrap64 (total - n) in
  cksum <- pseudo_sum iph udplen ;;
  c <- checksum cksum udph udplen ;;
  store16 (udph + UDP_CHECK) c.

(** [for (i = 0; i < 16; i++) cksum += ntohs( *p16++)] *)
Fixpoint addr_sum (n : nat) (o cksum : Z) : M packet Z :=
  match n with
  | O => ret cksum
  | S n' => w <- load16 o ;; addr_sum n' (o + 2) (wrap32 (cksum + w))
  end.
Definition pseudo6_sum (iph udplen : Z) : M packet Z :=
  a <- addr_sum 16 (iph + IP6_SADDR) 0 ;;
  p <- load8 (iph + IP6_NEXTHDR) ;;
  ret (wrap32 (a + p + udplen)).
Definition ip_set_udp6_checksum (iph : Z) : M packet unit :=
  let udph := iph + SIZE_IP6 in
  store16 (udph + UDP_CHECK) 0 ;;;
  udplen <- load16 (iph + IP6_PAYLOAD_LEN) ;;
  cksum <- pseudo6_sum iph udplen ;;
  c <- checksum cksum udph udplen ;;
  store16 (udph + UDP_CHECK) c.

(** [memcpy(p->data, data, len)] *)
Fixpoint store_bytes (o : Z) (l : list Z) : M packet unit :=
  match l with [] => ret tt | b :: l' => store8 o b ;;; store_bytes (o + 1) l' end.

Definition udp_set_data (data : list Z) : M packet unit :=
  let iph := ETH_HDR_SIZE in
  let udph := iph + SIZE_IP in
  let len := Z.of_nat (length data) in
  store_bytes (udph + SIZE_UDP) data ;;;
  store16 (udph + UDP_LEN) (len + SIZE_UDP) ;;;
  n <- header_bytes iph ;;
  store16 (iph + IP_LEN) (len + SIZE_UDP + n) ;;;
  ip_set_checksum iph ;;;
  ip_set_udp_checksum iph.
Definition udp6_set_data (data : list Z) : M packet unit :=
  let iph := ETH_HDR_SIZE in
  let udph := iph + SIZE_IP6 in
  let len := Z.of_nat (length data) in
  store_bytes (udph + SIZE_UDP) data ;;;
  store16 (udph + UDP_LEN) (len + SIZE_UDP) ;;;
  l <- load16 (udph + UDP_LEN) ;;
  store16 (iph + IP6_PAYLOAD_LEN) l ;;;
  ip_set_udp6_checksum iph.

(** ** Accesses to a packet in pieces *)
Definition hi (v : Z) : Z := wrap16 v / 256.
Definition lo (v : Z) : Z := wrap16 v mod 256.

Lemma hi_lo v : 0 <= v < 2 ^ 16 -> 256 * hi v + lo v = v.
Proof. intros Hv. unfold hi, lo, wrap16. rewrite Z.mod_small by done. symmetry. apply Z.div_mod. lia. Qed.
Lemma hi_lo_bytes v : is_byte (hi v) /\ is_byte (lo v).
Proof.
  unfold hi, lo, is_byte, wrap16. pose proof (Z.mod_pos_bound v (2 ^ 16) ltac:(lia)).
  split; [Z.to_euclidean_division_equations; lia|apply Z.mod_pos_bound; lia].
Qed.

Lemma wp_load8 pre b post o p Q : p = pre ++ b :: post -> o = Z.of_nat (length pre) -> Q b p -> wp (load8 o) p Q.
Proof.
  intros Hp -> HQ. unfold load8. rewrite (proj2 (Z.leb_le 0 _)) by lia. wp_steps. rewrite Nat2Z.id.
  eapply wp_deref_opt; [|exact HQ]. rewrite Hp. by apply list_lookup_middle.
Qed.
Lemma wp_load16 pre a b post o p Q : p = pre ++ a :: b :: post -> o = Z.of_nat (length pre) ->
  Q (256 * a + b) p -> wp (load16 o) p Q.
Proof.
  intros Hp Ho HQ. unfold load16. wp_steps. eapply (wp_load8 pre); [exact Hp|exact Ho|]. wp_steps.
  eapply (wp_load8 (pre ++ [a])); [by rewrite <- app_assoc, Hp|rewrite length_app; cbn; lia|]. wp_steps. exact HQ.
Qed.
Lemma wp_store8 pre x post o b p Q : p = pre ++ x :: post -> o = Z.of_nat (length pre) ->
  Q tt (pre ++ b :: post) -> wp (store8 o b) p Q.
Proof.
  intros -> -> HQ. unfold store8. wp_steps. cbn [Datatypes.id]. rewrite length_app. cbn [length].
  rewrite (proj2 (Z.leb_le 0 _)), (proj2 (Z.ltb_lt _ _)) by lia. cbn [andb]. wp_steps. rewrite Nat2Z.id, insert_app_r_alt by lia.
  by rewrite Nat.sub_diag.
Qed.
Lemma wp_store16 pre x y post o v p Q : p = pre ++ x :: y :: post -> o = Z.of_nat (length pre) ->
  Q tt (pre ++ hi v :: lo v :: post) -> wp (store16 o v) p Q.
Proof.
  intros Hp Ho HQ. unfold store16. wp_steps. eapply (wp_store8 pre); [exact Hp|exact Ho|]. wp_steps.
  eapply (wp_store8 (pre ++ [hi v])); [by rewrite <- app_assoc|rewrite length_app; cbn; lia|]. rewrite <- app_assoc. exact HQ.
Qed.
Lemma wp_store_bytes l : forall pre old post o p Q, p = pre ++ old ++ post -> o = Z.of_nat (length pre) -> length old = length l ->
  Q tt (pre ++ l ++ post) -> wp (store_bytes o l) p Q.
Proof.
  induction l as [|b l IH]; intros pre old post o p Q Hp Ho Hl HQ; destruct old as [|x old]; try done; cbn [store_bytes].
  { wp_steps. by subst. }
  wp_steps. eapply (wp_store8 pre); [exact Hp|exact Ho|]. wp_steps.
  eapply (IH (pre ++ [b]) old post); [by rewrite <- app_assoc|rewrite length_app; cbn; lia|cbn in Hl; lia|]. by rewrite <- app_assoc.
Qed.

(** ** The sum of a list of bytes *)

(** Two bytes a word, a last one padded with zero. *)
Fixpoint wsum (l : list Z) : Z :=
  match l with a :: b :: l' => 256 * a + b + wsum l' | [a] => 256 * a | [] => 0 end.

Lemma pair_ind (P : list Z -> Prop) : P [] -> (forall a, P [a]) -> (forall a b l, P l -> P (a :: b :: l)) -> forall l, P l.
Proof.
  intros H0 H1 H2 l. enough (P l /\ forall a, P (a :: l)) by tauto. induction l as [|b l [IH1 IH2]]; auto.
Qed.

Lemma wsum_app l l' : Nat.even (length l) = true -> wsum (l ++ l') = wsum l + wsum l'.
Proof.
  revert l. refine (pair_ind _ _ _ _); [done|done|]. intros a b l IH He. cbn [app wsum]. rewrite IH by done. lia.
Qed.
Lemma wsum_range l : Forall is_byte l -> 0 <= wsum l <= 65535 * Z.of_nat (length l).
Proof.
  revert l. refine (pair_ind _ _ _ _); [cbn; lia|intros a [Ha _]%list.Forall_cons; unfold is_byte in Ha; cbn; lia|].
  intros a b l IH [Ha [Hb Hl]%list.Forall_cons]%list.Forall_cons. unfold is_byte in *. specialize (IH Hl). cbn [wsum length]. lia.
Qed.

Lemma sum_loop_ok l : forall fuel pre post sum addr count (p : packet), p = pre ++ l ++ post ->
  addr = Z.of_nat (length pre) -> count = Z.of_nat (length l) -> (length l <= fuel)%nat ->
  0 <= sum -> Forall is_byte l -> sum + wsum l < 2 ^ 32 ->
  sum_loop fuel sum addr count p = Done (sum + wsum l, p).
Proof.
  revert l. refine (pair_ind _ _ _ _).
  - intros [|fuel] pre post sum addr count p _ _ -> _ _ _ _; cbn; by rewrite Z.add_0_r.
  - intros a fuel pre post sum addr count p Hp Ha -> Hf H0 Hb Hs. assert (wp (sum_loop fuel sum addr (Z.of_nat (length [a]))) p
      (fun r p' => r = sum + wsum [a] /\ p' = p)) as Hwp; [|apply wp_run in Hwp as (? & ? & -> & -> & ->); done].
    apply list.Forall_cons in Hb as [Hb _]. unfold is_byte in Hb. cbn [wsum] in *.
    destruct fuel; cbn [sum_loop]; change (1 <? Z.of_nat (length [a])) with false; change (0 <? Z.of_nat (length [a])) with true; cbn beta iota;
      (wp_steps; eapply (wp_load8 pre); [exact Hp|exact Ha|]; wp_steps; split; [apply Z.mod_small; lia|done]).
  - intros a b l IH fuel pre post sum addr count p Hp Ha -> Hf H0 Hb Hs. destruct fuel as [|fuel]; [cbn in Hf; lia|]. cbn [sum_loop].
    rewrite (proj2 (Z.ltb_lt 1 _)) by (cbn; lia).
    apply list.Forall_cons in Hb as [Hba Hb]. apply list.Forall_cons in Hb as [Hbb Hb]. unfold is_byte in Hba, Hbb.
    pose proof (wsum_range l Hb) as Hw. cbn [wsum] in Hs.
    assert (wp (load16 addr) p (fun r p' => r = 256 * a + b /\ p' = p)) as Hwp.
    { eapply (wp_load16 pre); [exact Hp|exact Ha|done]. }
    apply wp_run in Hwp as (r & p' & Hrun & -> & ->). unfold bind. rewrite Hrun.
    unfold wrap32. rewrite Z.mod_small by lia. rewrite (IH fuel (pre ++ [a; b]) post); [cbn [wsum]; do 2 f_equal; lia| | | | | | |].
    + by rewrite <- app_assoc, Hp.
    + rewrite length_app. cbn. lia.
    + cbn. lia.
    + cbn in Hf. lia.
    + lia.
    + done.
    + lia.
Qed.

(** The sum in 16 bits with the carries added back in. *)
Definition ones (x : Z) : Z := if x =? 0 then 0 else (x - 1) mod 65535 + 1.
Lemma ones_small x : 0 <= x < 2 ^ 16 -> ones x = x.
Proof. intros Hx. unfold ones. destruct (Z.eqb_spec x 0); [done|]. rewrite Z.mod_small; lia. Qed.
Lemma ones_step x : 2 ^ 16 <= x -> ones (x mod 2 ^ 16 + x / 2 ^ 16) = ones x.
Proof.
  intros Hx. pose proof (Z.div_mod x (2 ^ 16) ltac:(lia)) as Hd. pose proof (Z.mod_pos_bound x (2 ^ 16) ltac:(lia)).
  assert (1 <= x / 2 ^ 16) by (apply Z.div_le_lower_bound; lia). unfold ones.
  rewrite (proj2 (Z.eqb_neq _ 0)), (proj2 (Z.eqb_neq x 0)) by lia. f_equal.
  rewrite Hd at 3. replace (2 ^ 16 * (x / 2 ^ 16) + x mod 2 ^ 16 - 1) with (x mod 2 ^ 16 + x / 2 ^ 16 - 1 + x / 2 ^ 16 * 65535) by lia.
  by rewrite Z.mod_add.
Qed.
Lemma ones_range x : 0 <= x -> 0 <= ones x < 2 ^ 16.
Proof. intros Hx. unfold ones. destruct (x =? 0); [lia|]. pose proof (Z.mod_pos_bound (x - 1) 65535). lia. Qed.

Lemma fold_loop_ok x (p : packet) : 0 <= x < 2 ^ 32 -> fold_loop 3 x p = Done (ones x, p).
Proof.
  assert (forall n y, 0 <= y -> fold_loop (S n) y p = if y <? 2 ^ 16 then Done (y, p) else fold_loop n (y mod 2 ^ 16 + y / 2 ^ 16) p) as Hstep.
  { intros n y Hy. cbn [fold_loop]. rewrite Z.shiftr_div_pow2 by lia. destruct (Z.ltb_spec y (2 ^ 16)).
    - by rewrite (Z.div_small y) by lia.
    - assert (1 <= y / 2 ^ 16) by (apply Z.div_le_lower_bound; lia). rewrite (proj2 (Z.eqb_neq _ 0)) by lia.
      change 0xffff with (Z.ones 16). by rewrite Z.land_ones by lia. }
  intros Hx. rewrite Hstep by lia. destruct (Z.ltb_spec x (2 ^ 16)); [by rewrite ones_small by lia|].
  rewrite <- (ones_step x) by lia. set (y := x mod 2 ^ 16 + x / 2 ^ 16).
  assert (0 <= y <= 131070) as Hy by (subst y; Z.to_euclidean_division_equations; lia).
  rewrite Hstep by lia. destruct (Z.ltb_spec y (2 ^ 16)); [by rewrite ones_small by lia|].
  rewrite <- (ones_step y) by lia. set (z := y mod 2 ^ 16 + y / 2 ^ 16).
  assert (0 <= z < 2 ^ 16) as Hz by (subst z; Z.to_euclidean_division_equations; lia).
  rewrite Hstep, (proj2 (Z.ltb_lt z _)), ones_small by lia. done.
Qed.

Lemma checksum_ok l pre post init addr count (p : packet) : p = pre ++ l ++ post -> addr = Z.of_nat (length pre) ->
  count = Z.of_nat (length l) -> 0 <= init -> Forall is_byte l -> init + wsum l < 2 ^ 32 ->
  checksum init addr count p = Done (65535 - ones (init + wsum l), p).
Proof.
  intros Hp Ha Hc Hi Hb Hs. pose proof (wsum_range l Hb) as Hw. unfold checksum, bind.
  rewrite (sum_loop_ok l _ pre post init addr count p Hp Ha Hc) by (done || lia). rewrite fold_loop_ok by lia.
  unfold ret. do 2 f_equal. pose proof (ones_range (init + wsum l) ltac:(lia)). unfold wrap16. rewrite <- (Z_mod_plus_full _ 1).
  rewrite Z.mod_small; unfold Z.lnot; lia.
Qed.

(** Putting the complement of the sum into a field that was zero makes the whole
    sum all ones, so the checksum of the region is zero. *)
Lemma ones_complement x : 0 <= x -> ones (x + (65535 - ones x)) = 65535.
Proof.
  intros Hx. unfold ones at 2. destruct (Z.eqb_spec x 0) as [->|Hne]; [done|].
  replace (x + (65535 - ((x - 1) mod 65535 + 1))) with (65535 * ((x - 1) / 65535 + 1)).
  2: { pose proof (Z.div_mod (x - 1) 65535 ltac:(lia)). lia. }
  assert (0 <= (x - 1) / 65535) by (apply Z.div_pos; lia). unfold ones. rewrite (proj2 (Z.eqb_neq _ 0)) by lia.
  replace (65535 * ((x - 1) / 65535 + 1) - 1) with (65534 + (x - 1) / 65535 * 65535) by lia. by rewrite Z.mod_add.
Qed.

(** ** A checksum field inside its region *)

Definition sealed (init : Z) (a b : list Z) : Z := 65535 - ones (init + wsum (a ++ 0 :: 0 :: b)).

Lemma wsum_field a x y b : Nat.even (length a) = true -> wsum (a ++ x :: y :: b) = wsum (a ++ 0 :: 0 :: b) + (256 * x + y).
Proof. intros Ha. rewrite !wsum_app by done. cbn [wsum]. lia. Qed.

Lemma field_bytes a x y b x' y' : Forall is_byte (a ++ x :: y :: b) -> is_byte x' -> is_byte y' -> Forall is_byte (a ++ x' :: y' :: b).
Proof.
  intros [Ha [_ [_ Hb]%list.Forall_cons]%list.Forall_cons]%list.Forall_app Hx Hy. apply list.Forall_app. split; [done|].
  apply list.Forall_cons. split; [done|]. by apply list.Forall_cons.
Qed.

Lemma sealed_range init a x y b : 0 <= init -> Forall is_byte (a ++ x :: y :: b) -> 0 <= sealed init a b < 2 ^ 16.
Proof.
  intros Hi Hb. apply (field_bytes _ _ _ _ 0 0) in Hb; [|done|done]. pose proof (wsum_range _ Hb).
  unfold sealed. pose proof (ones_range (init + wsum (a ++ 0 :: 0 :: b)) ltac:(lia)). lia.
Qed.

(** Zero the field, sum, store the complement: the region then sums to all
    ones. *)
Lemma checksum_zero pre a x y b post init addr count (p : packet) : p = pre ++ (a ++ 0 :: 0 :: b) ++ post ->
  addr = Z.of_nat (length pre) -> count = Z.of_nat (length (a ++ x :: y :: b)) -> 0 <= init -> Forall is_byte (a ++ x :: y :: b) ->
  init + 65535 * count < 2 ^ 32 -> checksum init addr count p = Done (sealed init a b, p).
Proof.
  intros Hp Ha Hc Hi Hb Hs. apply (field_bytes _ _ _ _ 0 0) in Hb; [|done|done]. pose proof (wsum_range _ Hb) as Hw.
  assert (length (a ++ x :: y :: b) = length (a ++ 0 :: 0 :: b)) as Hl by (by rewrite !length_app).
  rewrite Hl in Hc. rewrite (checksum_ok (a ++ 0 :: 0 :: b) pre post) by (done || lia). done.
Qed.
Lemma end_around_ones x w : 0 <= x -> 0 <= w < 2 ^ 16 -> end_around (ones x) w = ones (x + w).
Proof.
  intros Hx Hw. pose proof (ones_range x Hx) as Hr. unfold end_around.
  destruct (Z.ltb_spec (ones x + w) (2 ^ 16)) as [Hlt|Hge].
  - unfold ones in *. destruct (Z.eqb_spec x 0) as [->|Hne].
    + rewrite Z.add_0_l. destruct (Z.eqb_spec w 0); [done|]. rewrite Z.mod_small; lia.
    + rewrite (proj2 (Z.eqb_neq (x + w) 0)) by lia.
      replace (x + w - 1) with ((x - 1) mod 65535 + w + (x - 1) / 65535 * 65535)
        by (pose proof (Z.div_mod (x - 1) 65535); lia).
      rewrite Z.mod_add, (Z.mod_small ((x - 1) mod 65535 + w)) by (pose proof (Z.mod_pos_bound (x - 1) 65535); lia). lia.
  - unfold ones in *. destruct (Z.eqb_spec x 0) as [->|Hne]; [lia|].
    rewrite (proj2 (Z.eqb_neq (x + w) 0)) by lia.
    replace (x + w - 1) with ((x - 1) mod 65535 + w - 65535 + ((x - 1) / 65535 + 1) * 65535)
      by (pose proof (Z.div_mod (x - 1) 65535); lia).
    rewrite Z.mod_add, (Z.mod_small ((x - 1) mod 65535 + w - 65535)) by (pose proof (Z.mod_pos_bound (x - 1) 65535); lia). lia.
Qed.

(** Summing with carries brought back at each word or at the end is the same. *)
Lemma inet_sum_ones l : Forall is_byte l -> inet_sum l = ones (wsum l).
Proof.
  enough (forall x, 0 <= x -> Forall is_byte l -> fold_left end_around (words l) (ones x) = ones (x + wsum l)) as H
    by (by apply (H 0)).
  revert l. refine (pair_ind _ _ _ _).
  - intros x Hx _. cbn. by rewrite Z.add_0_r.
  - intros a x Hx [Ha _]%list.Forall_cons. unfold is_byte in Ha. cbn. apply end_around_ones; lia.
  - intros a b l IH x Hx [Ha [Hb Hl]%list.Forall_cons]%list.Forall_cons. unfold is_byte in Ha, Hb. cbn [words wsum fold_left].
    rewrite end_around_ones, IH by (done || lia). f_equal. lia.
Qed.

(** A region with the complement of its sum in the field verifies, behind a
    pseudo-header [ph] whose sum the code starts with. *)
Lemma region_verifies ph a x y b init : Nat.even (length a) = true -> Nat.even (length ph) = true ->
  init = wsum ph -> Forall is_byte ph -> Forall is_byte (a ++ x :: y :: b) ->
  verifies (ph ++ a ++ hi (sealed init a b) :: lo (sealed init a b) :: b).
Proof.
  intros He Hep -> Hph Hb. pose proof (wsum_range ph Hph) as Hi.
  pose proof (sealed_range (wsum ph) a x y b (proj1 Hi) Hb) as Hr. set (c := sealed (wsum ph) a b) in *.
  destruct (hi_lo_bytes c) as [Hh Hlo]. pose proof (field_bytes _ _ _ _ _ _ Hb Hh Hlo) as Hb'.
  unfold verifies. rewrite inet_sum_ones by (by apply list.Forall_app). rewrite wsum_app, wsum_field, hi_lo by done.
  rewrite Z.add_assoc. unfold c, sealed. apply ones_complement.
  apply (field_bytes _ _ _ _ 0 0) in Hb; [|done|done]. pose proof (wsum_range _ Hb). lia.
Qed.

Lemma wp_checksum_zero pre a x y b post init addr count (p : packet) Q : p = pre ++ (a ++ 0 :: 0 :: b) ++ post ->
  addr = Z.of_nat (length pre) -> count = Z.of_nat (length (a ++ x :: y :: b)) -> 0 <= init -> Forall is_byte (a ++ x :: y :: b) ->
  init + 65535 * count < 2 ^ 32 -> Q (sealed init a b) p -> wp (checksum init addr count) p Q.
Proof. intros. unfold wp. by rewrite (checksum_zero pre a x y b post). Qed.

(** The sum of the pseudo-header of IPv4. *)
Definition pseudo (pr m : Z) (addrs : list Z) : Z := wsum addrs + pr + m.
Lemma pseudo_sum_ok pre v0 v1 v2 v3 v4 v5 v6 v7 v8 pr x y a0 a1 a2 a3 a4 a5 a6 a7 post m iph (p : packet) :
  p = pre ++ [v0; v1; v2; v3; v4; v5; v6; v7; v8; pr; x; y; a0; a1; a2; a3; a4; a5; a6; a7] ++ post ->
  iph = Z.of_nat (length pre) -> Forall is_byte [pr; a0; a1; a2; a3; a4; a5; a6; a7] -> 0 <= m < 2 ^ 17 ->
  pseudo_sum iph m p = Done (pseudo pr m [a0; a1; a2; a3; a4; a5; a6; a7], p).
Proof.
  intros Hp Hi Hb Hm. enough (wp (pseudo_sum iph m) p (fun r p' => r = pseudo pr m [a0; a1; a2; a3; a4; a5; a6; a7] /\ p' = p)) as Hwp
    by (by apply wp_run in Hwp as (? & ? & -> & -> & ->)).
  unfold pseudo_sum, IP_SRC, IP_DST, IP_P. wp_steps. set (h := [v0; v1; v2; v3; v4; v5; v6; v7; v8; pr; x; y]).
  eapply (wp_load16 (pre ++ h) a0 a1); [by rewrite Hp, <- !app_assoc|rewrite length_app, Hi; cbn; lia|]. wp_steps.
  eapply (wp_load16 (pre ++ h ++ [a0; a1]) a2 a3); [by rewrite Hp, <- !app_assoc|rewrite !length_app, Hi; cbn; lia|]. wp_steps.
  eapply (wp_load16 (pre ++ h ++ [a0; a1; a2; a3]) a4 a5); [by rewrite Hp, <- !app_assoc|rewrite !length_app, Hi; cbn; lia|]. wp_steps.
  eapply (wp_load16 (pre ++ h ++ [a0; a1; a2; a3; a4; a5]) a6 a7); [by rewrite Hp, <- !app_assoc|rewrite !length_app, Hi; cbn; lia|]. wp_steps.
  eapply (wp_load8 (pre ++ [v0; v1; v2; v3; v4; v5; v6; v7; v8]) pr); [by rewrite Hp, <- !app_assoc|rewrite !length_app, Hi; cbn; lia|]. wp_steps.
  repeat (apply list.Forall_cons in Hb as [? Hb]). unfold is_byte in *. split; [|done].
  unfold pseudo, wrap32. cbn [wsum]. rewrite Z.mod_small; lia.
Qed.

(** ** The packets *)

(** C29: [udp_set_data] on a packet with a 20-byte IP header and room for the
    data (at most 65507 bytes) returns with the data and both lengths in place
    and nothing else changed but the two checksums; and a receiver that adds up
    16-bit words as RFC 1071 says gets all ones over the IP header, and over the
    pseudo-header (both addresses, the protocol and the UDP length), the UDP
    header and the data, whatever the data and its parity. *)
Theorem udp_set_data_correct eth vhl tos l0 l1 i0 i1 f0 f1 ttl pr c0 c1 a0 a1 a2 a3 a4 a5 a6 a7 s0 s1 d0 d1 u0 u1 k0 k1 old rest data :
  length eth = 14%nat -> Z.land vhl 15 = 5 -> length old = length data -> Z.of_nat (length data) <= 65507 ->
  Forall is_byte [vhl; tos; i0; i1; f0; f1; ttl; pr; a0; a1; a2; a3; a4; a5; a6; a7; s0; s1; d0; d1] -> Forall is_byte data ->
  let n := Z.of_nat (length data) in
  wp (udp_set_data data)
    (eth ++ [vhl; tos; l0; l1; i0; i1; f0; f1; ttl; pr; c0; c1; a0; a1; a2; a3; a4; a5; a6; a7] ++
     [s0; s1; d0; d1; u0; u1; k0; k1] ++ old ++ rest)
    (fun _ p' => exists c k,
       let ip := [vhl; tos; hi (n + 28); lo (n + 28); i0; i1; f0; f1; ttl; pr; hi c; lo c; a0; a1; a2; a3; a4; a5; a6; a7] in
       let udp := [s0; s1; d0; d1; hi (n + 8); lo (n + 8); hi k; lo k] ++ data in
       p' = eth ++ ip ++ udp ++ rest /\
       verifies ip /\
       verifies ([a0; a1; a2; a3; a4; a5; a6; a7; 0; pr; hi (n + 8); lo (n + 8)] ++ udp)).
Proof.
  intros He Hv Ho Hn Hb Hd n. unfold udp_set_data, ip_set_checksum, ip_set_udp_checksum, header_bytes.
  unfold ETH_HDR_SIZE, SIZE_IP, SIZE_UDP, UDP_LEN, IP_LEN, IP_SUM, UDP_CHECK. fold n. wp_steps.
  set (ip1 := [vhl; tos; l0; l1; i0; i1; f0; f1; ttl; pr; c0; c1; a0; a1; a2; a3; a4; a5; a6; a7]).
  eapply (wp_store_bytes data (eth ++ ip1 ++ [s0; s1; d0; d1; u0; u1; k0; k1]) old rest);
    [by rewrite <- !app_assoc|rewrite !length_app, He; reflexivity|done|]. wp_steps.
  eapply (wp_store16 (eth ++ ip1 ++ [s0; s1; d0; d1]) u0 u1); [by rewrite <- !app_assoc|rewrite !length_app, He; reflexivity|]. wp_steps.
  eapply (wp_load8 eth vhl); [by rewrite <- !app_assoc|by rewrite He|]. wp_steps. rewrite Hv.
  eapply (wp_store16 (eth ++ [vhl; tos]) l0 l1); [by rewrite <- !app_assoc|rewrite !length_app, He; reflexivity|]. wp_steps.
  replace (n + 8 + 4 * 5) with (n + 28) by lia.
  set (h1 := [vhl; tos; hi (n + 28); lo (n + 28); i0; i1; f0; f1; ttl; pr]). set (h2 := [a0; a1; a2; a3; a4; a5; a6; a7]).
  set (g1 := [s0; s1; d0; d1; hi (n + 8); lo (n + 8)]).
  assert (0 <= n) by lia.
  assert (Forall is_byte (h1 ++ 0 :: 0 :: h2) /\ Forall is_byte (g1 ++ 0 :: 0 :: data) /\ Forall is_byte [pr; a0; a1; a2; a3; a4; a5; a6; a7]) as (Hb1 & Hb2 & Hb3).
  { destruct (hi_lo_bytes (n + 28)), (hi_lo_bytes (n + 8)). repeat (apply list.Forall_cons in Hb as [? Hb]).
    split; [|split]; cbn; repeat (apply list.Forall_cons; split; [done|]); done. }
  assert (4 * 5 = Z.of_nat (length (h1 ++ 0 :: 0 :: h2))) as Hl1 by reflexivity.
  assert (n + 8 = Z.of_nat (length (g1 ++ 0 :: 0 :: data))) as Hl2 by (rewrite length_app; cbn; lia).
  eapply (wp_store16 (eth ++ h1) c0 c1); [by rewrite <- !app_assoc|rewrite !length_app, He; reflexivity|].
  change (hi 0) with 0. change (lo 0) with 0. wp_steps.
  eapply (wp_load8 eth vhl); [by rewrite <- !app_assoc|by rewrite He|]. wp_steps. rewrite Hv.
  eapply (wp_checksum_zero eth h1 0 0 h2); [by rewrite <- !app_assoc|by rewrite He|exact Hl1|lia|exact Hb1|lia|]. wp_steps.
  set (c := sealed 0 h1 h2).
  eapply (wp_store16 (eth ++ h1) 0 0); [by rewrite <- !app_assoc|rewrite !length_app, He; reflexivity|]. wp_steps.
  eapply (wp_load8 eth vhl); [by rewrite <- !app_assoc|by rewrite He|]. wp_steps. rewrite Hv.
  set (ip2 := h1 ++ hi c :: lo c :: h2).
  eapply (wp_store16 (eth ++ ip2 ++ g1) k0 k1); [by rewrite <- !app_assoc|rewrite !length_app, He; reflexivity|].
  change (hi 0) with 0. change (lo 0) with 0. wp_steps.
  eapply (wp_load16 (eth ++ [vhl; tos]) (hi (n + 28)) (lo (n + 28))); [by rewrite <- !app_assoc|rewrite !length_app, He; reflexivity|].
  rewrite hi_lo by lia. wp_steps. replace (wrap64 (n + 28 - 4 * 5)) with (n + 8) by (rewrite wrap64_small; lia).
  set (ps := pseudo pr (n + 8) h2).
  assert (0 <= ps /\ ps + 65535 * (n + 8) < 2 ^ 32) as [Hps Hps2].
  { subst ps. unfold pseudo. repeat (apply list.Forall_cons in Hb3 as [? Hb3]). unfold is_byte in *. cbn [wsum h2]. lia. }
  assert (forall k0' k1', pseudo_sum 14 (n + 8) (eth ++ ip2 ++ (g1 ++ k0' :: k1' :: data) ++ rest) = Done (ps, eth ++ ip2 ++ (g1 ++ k0' :: k1' :: data) ++ rest)) as Hpseudo.
  { intros k0' k1'. eapply pseudo_sum_ok; [reflexivity|by rewrite He|exact Hb3|lia]. }
  assert (forall k0' k1', (eth ++ ip2 ++ g1) ++ k0' :: k1' :: data ++ rest = eth ++ ip2 ++ (g1 ++ k0' :: k1' :: data) ++ rest) as Hassoc.
  { intros k0' k1'. by rewrite <- !app_assoc. }
  rewrite Hassoc. unfold wp at 1. rewrite Hpseudo. wp_steps.
  eapply (wp_checksum_zero (eth ++ ip2) g1 0 0 data); [by rewrite <- !app_assoc|rewrite !length_app, He; reflexivity|exact Hl2|done|exact Hb2|done|]. wp_steps.
  set (k := sealed ps g1 data).
  eapply (wp_store16 (eth ++ ip2 ++ g1) 0 0); [by rewrite <- !app_assoc|rewrite !length_app, He; reflexivity|]. rewrite Hassoc.
  exists c, k. split; [|split].
  - unfold ip2, h1, h2, g1. cbv zeta. by rewrite <- !app_assoc.
  - by apply (region_verifies [] h1 0 0 h2).
  - apply (region_verifies [a0; a1; a2; a3; a4; a5; a6; a7; 0; pr; hi (n + 8); lo (n + 8)] g1 0 0 data); try done.
    + unfold ps, pseudo. cbn [wsum h2]. rewrite <- (hi_lo (n + 8)) at 1 by lia. lia.
    + destruct (hi_lo_bytes (n + 8)). repeat (apply list.Forall_cons in Hb3 as [? Hb3]).
      repeat (apply list.Forall_cons; split; [done|]). done.
Qed.

(** A packet from 10.0.0.1 to 10.0.0.2. *)
Definition packet4 (room : nat) : packet :=
  repeat 0 14 ++ [0x45; 0; 9; 9; 0; 0; 0x40; 0; 0xff; 17; 7; 7; 10; 0; 0; 1; 10; 0; 0; 2] ++
  [0x14; 0xe9; 0x14; 0xe9; 9; 9; 9; 9] ++ repeat 0 room ++ [].
Lemma udp_set_data_correct_witness :
  wp (udp_set_data [104; 105; 33]) (packet4 3) (fun _ p' => exists u,
    verifies (take 20 (drop 14 p')) /\ verifies ([10; 0; 0; 1; 10; 0; 0; 2; 0; 17; 0; 11] ++ u ++ [104; 105; 33]) /\
    u ++ [104; 105; 33] = drop 34 p').
Proof.
  eapply wp_mono; [apply (udp_set_data_correct (repeat 0 14) 0x45 0 9 9 0 0 0x40 0 0xff 17 7 7 10 0 0 1 10 0 0 2
    0x14 0xe9 0x14 0xe9 9 9 9 9 (repeat 0 3) [] [104; 105; 33])|].
  - reflexivity.
  - reflexivity.
  - reflexivity.
  - cbn. lia.
  - repeat (apply list.Forall_cons; split; [unfold is_byte; lia|]). constructor.
  - repeat (apply list.Forall_cons; split; [unfold is_byte; lia|]). constructor.
  - intros [] p' (c & k & -> & H1 & H2). exists [0x14; 0xe9; 0x14; 0xe9; 0; 11; hi k; lo k].
    split; [exact H1|]. split; [exact H2|reflexivity].
Defined.

(** Data whose sum is all ones: the checksum stored is zero, which tells an IPv4
    receiver that there is none (and is not allowed in IPv6). *)
Definition check_of (data : list Z) : option Z :=
  match udp_set_data data (packet4 (length data)) with Done (_, p) => Some (256 * nth 40 p 0 + nth 41 p 0) | _ => None end.
Definition zero_data : list Z := match check_of [0; 0] with Some k => [k / 256; k mod 256] | None => [] end.
Example udp_checksum_zero : check_of zero_data = Some 0.
Proof. vm_compute. reflexivity. Qed.

(** The same for IPv6, whose pseudo-header has both addresses. *)
Lemma addr_sum_ok l : forall n pre post o c (p : packet), p = pre ++ l ++ post -> o = Z.of_nat (length pre) -> length l = (2 * n)%nat ->
  0 <= c -> Forall is_byte l -> c + wsum l < 2 ^ 32 -> addr_sum n o c p = Done (c + wsum l, p).
Proof.
  revert l. refine (pair_ind _ _ _ _).
  - intros [|n] pre post o c p _ _ Hl _ _ _; [|cbn in Hl; lia]. cbn. by rewrite Z.add_0_r.
  - intros a n pre post o c p _ _ Hl. cbn in Hl. lia.
  - intros a b l IH [|n] pre post o c p Hp Ho Hl Hc Hb Hs; [cbn in Hl; lia|]. cbn [addr_sum].
    apply list.Forall_cons in Hb as [Ha Hb]. apply list.Forall_cons in Hb as [Hb' Hb]. unfold is_byte in Ha, Hb'.
    pose proof (wsum_range l Hb). cbn [wsum] in Hs |- *.
    assert (wp (load16 o) p (fun r p' => r = 256 * a + b /\ p' = p)) as Hwp by (eapply (wp_load16 pre); [exact Hp|exact Ho|done]).
    apply wp_run in Hwp as (r & p' & Hrun & -> & ->). unfold bind. rewrite Hrun. unfold wrap32. rewrite Z.mod_small by lia.
    rewrite (IH n (pre ++ [a; b]) post); [do 2 f_equal; lia|by rewrite <- app_assoc, Hp|rewrite length_app; cbn; lia|cbn in Hl; lia|lia|done|lia].
Qed.

Lemma wsum_words l : Forall is_byte l -> Nat.even (length l) = true -> 2 * wsum l <= 65535 * Z.of_nat (length l).
Proof.
  revert l. refine (pair_ind _ _ _ _); [cbn; lia|done|].
  intros a b l IH [Ha [Hb Hl]%list.Forall_cons]%list.Forall_cons He. unfold is_byte in *. specialize (IH Hl He). cbn [wsum length]. lia.
Qed.

Lemma udp6_set_data_ok eth v f0 f1 f2 l0 l1 nh hl addrs s0 s1 d0 d1 u0 u1 k0 k1 old rest data :
  length eth = 14%nat -> length addrs = 32%nat -> length old = length data -> Z.of_nat (length data) <= 65507 ->
  Forall is_byte ([nh; s0; s1; d0; d1] ++ addrs) -> Forall is_byte data ->
  let n := Z.of_nat (length data) in
  wp (udp6_set_data data)
    (eth ++ ([v; f0; f1; f2; l0; l1; nh; hl] ++ addrs) ++ [s0; s1; d0; d1; u0; u1; k0; k1] ++ old ++ rest)
    (fun _ p' => exists k,
       let udp := [s0; s1; d0; d1; hi (n + 8); lo (n + 8); hi k; lo k] ++ data in
       p' = eth ++ ([v; f0; f1; f2; hi (n + 8); lo (n + 8); nh; hl] ++ addrs) ++ udp ++ rest /\
       verifies ((addrs ++ [0; 0; hi (n + 8); lo (n + 8); 0; 0; 0; nh]) ++ udp)).
Proof.
  intros He Ha Ho Hn Hb Hd n. unfold udp6_set_data, ip_set_udp6_checksum.
  unfold ETH_HDR_SIZE, SIZE_IP6, SIZE_UDP, UDP_LEN, UDP_CHECK, IP6_PAYLOAD_LEN. fold n. wp_steps. assert (0 <= n) by lia.
  apply list.Forall_app in Hb as [Hb Hba]. set (ip1 := [v; f0; f1; f2; l0; l1; nh; hl] ++ addrs).
  assert (length ip1 = 40%nat) as Hl1 by (subst ip1; rewrite length_app, Ha; done).
  eapply (wp_store_bytes data (eth ++ ip1 ++ [s0; s1; d0; d1; u0; u1; k0; k1]) old rest);
    [by rewrite <- !app_assoc|rewrite !length_app, He, Hl1; reflexivity|done|]. wp_steps.
  eapply (wp_store16 (eth ++ ip1 ++ [s0; s1; d0; d1]) u0 u1); [by rewrite <- !app_assoc|rewrite !length_app, He, Hl1; reflexivity|]. wp_steps.
  eapply (wp_load16 (eth ++ ip1 ++ [s0; s1; d0; d1]) (hi (n + 8)) (lo (n + 8))); [by rewrite <- !app_assoc|rewrite !length_app, He, Hl1; reflexivity|].
  rewrite hi_lo by lia. wp_steps.
  eapply (wp_store16 (eth ++ [v; f0; f1; f2]) l0 l1); [by rewrite <- !app_assoc|rewrite !length_app, He; reflexivity|]. wp_steps.
  set (ip2 := [v; f0; f1; f2; hi (n + 8); lo (n + 8); nh; hl] ++ addrs). set (g1 := [s0; s1; d0; d1; hi (n + 8); lo (n + 8)]).
  assert (length ip2 = 40%nat) as Hl2 by (subst ip2; rewrite length_app, Ha; done).
  assert (is_byte nh /\ Forall is_byte (g1 ++ 0 :: 0 :: data)) as [Hnh Hb2].
  { destruct (hi_lo_bytes (n + 8)). repeat (apply list.Forall_cons in Hb as [? Hb]). split; [done|].
    cbn. repeat (apply list.Forall_cons; split; [done|]). done. }
  assert (n + 8 = Z.of_nat (length (g1 ++ 0 :: 0 :: data))) as Hlen by (rewrite length_app; cbn; lia).
  eapply (wp_store16 (eth ++ ip2 ++ g1) k0 k1); [by unfold ip2, g1; rewrite <- !app_assoc|rewrite !length_app, He, Hl2; reflexivity|].
  change (hi 0) with 0. change (lo 0) with 0. wp_steps.
  eapply (wp_load16 (eth ++ [v; f0; f1; f2]) (hi (n + 8)) (lo (n + 8))); [by unfold ip2; rewrite <- !app_assoc|rewrite !length_app, He; reflexivity|].
  rewrite hi_lo by lia. wp_steps. pose proof (wsum_range addrs Hba) as Hw. pose proof (wsum_words addrs Hba) as Hw2. rewrite Ha in Hw, Hw2. specialize (Hw2 eq_refl). unfold is_byte in Hnh.
  set (ps := wsum addrs + nh + (n + 8)).
  assert (forall k0' k1', pseudo6_sum 14 (n + 8) (eth ++ ip2 ++ (g1 ++ k0' :: k1' :: data) ++ rest) = Done (ps, eth ++ ip2 ++ (g1 ++ k0' :: k1' :: data) ++ rest)) as Hpseudo.
  { intros k0' k1'. set (p := eth ++ _). enough (wp (pseudo6_sum 14 (n + 8)) p (fun r p' => r = ps /\ p' = p)) as Hwp
      by (by apply wp_run in Hwp as (? & ? & -> & -> & ->)).
    unfold pseudo6_sum, IP6_SADDR, IP6_NEXTHDR. wp_steps. unfold wp at 1.
    rewrite (addr_sum_ok addrs 16 (eth ++ [v; f0; f1; f2; hi (n + 8); lo (n + 8); nh; hl]) ((g1 ++ k0' :: k1' :: data) ++ rest));
      [|unfold p, ip2; by rewrite <- !app_assoc|rewrite !length_app, He; reflexivity|by rewrite Ha|lia|done|lia].
    wp_steps.
    eapply (wp_load8 (eth ++ [v; f0; f1; f2; hi (n + 8); lo (n + 8)]) nh); [unfold p, ip2; by rewrite <- !app_assoc|rewrite !length_app, He; reflexivity|].
    wp_steps. split; [|done]. unfold wrap32, ps. rewrite Z.mod_small; rewrite ?Z.add_0_l; lia. }
  assert (forall k0' k1', (eth ++ ip2 ++ g1) ++ k0' :: k1' :: data ++ rest = eth ++ ip2 ++ (g1 ++ k0' :: k1' :: data) ++ rest) as Hassoc.
  { intros k0' k1'. by rewrite <- !app_assoc. }
  rewrite Hassoc. unfold wp at 1. rewrite Hpseudo. assert (0 <= ps /\ ps + 65535 * (n + 8) < 2 ^ 32) as [Hps Hps2] by (subst ps; lia).
  wp_steps.
  eapply (wp_checksum_zero (eth ++ ip2) g1 0 0 data); [by rewrite <- !app_assoc|rewrite !length_app, He, Hl2; reflexivity|exact Hlen|done|exact Hb2|done|]. wp_steps.
  eapply (wp_store16 (eth ++ ip2 ++ g1) 0 0); [by rewrite <- !app_assoc|rewrite !length_app, He, Hl2; reflexivity|]. rewrite Hassoc.
  exists (sealed ps g1 data). split; [by rewrite <- !app_assoc|].
  apply (region_verifies (addrs ++ [0; 0; hi (n + 8); lo (n + 8); 0; 0; 0; nh]) g1 0 0 data); try done.
  - by rewrite length_app, Ha.
  - rewrite wsum_app by (by rewrite Ha). unfold ps. cbn [wsum]. rewrite <- (hi_lo (n + 8)) at 1 by lia. lia.
  - destruct (hi_lo_bytes (n + 8)). apply list.Forall_app. split; [done|].
    repeat (apply list.Forall_cons; split; [done|]). done.
Qed.
