(* ===== verification/Slub.v ===== *)
(** * Slub: the kernel's malloc (module/mm/slub.c)

    Per-size free lists threaded through the free objects themselves, one 4K
    page of objects at a time, and a table with four bits per physical page
    ([page_bits]) that tells, from an address, which cache its page belongs to
    or that it starts or continues a large block.  Pages come from the heap
    calls of include/yaoscall/page.h. *)
From Stdlib Require Import ZArith Lia.
From stdpp Require Import base tactics list option.
From S2P Require Import Prelude Pages Layout.
#[export] Set Warnings "-clear-no-such-hyp".

Definition PAGE_4K_MASK : Z := 0xfff.
Definition PAGE_4K_SHIFT : Z := 12.
Definition LARGE_IDX : nat := 15.
Definition LARGE_NEXT : nat := 14.
Definition ZERO_SIZE_PTR : Z := 16.
Definition KMALLOC_SHIFT_LOW : nat := 3.
Definition KMALLOC_SHIFT_HIGH : nat := 12.
Definition KMALLOC_MAX_SIZE : Z := Z.shiftl 1 23.
Definition KMALLOC_MAX_CACHE_SIZE : Z := Z.shiftl 1 12.

(** The table that maps [(size - 1) / 8] to a cache, for sizes up to 192. *)
Definition size_index : list nat :=
  [4; 4; 5; 5; 6; 6; 6; 6; 1; 1; 1; 1; 7; 7; 7; 7; 2; 2; 2; 2; 2; 2; 2; 2]%nat.
(** The sizes of [kmalloc_info], entries 0 to 15. *)
Definition kmalloc_info : list Z :=
  [0; 96; 192; 8; 16; 32; 64; 128; 256; 512; 1024; 2048; 4096; 8192; 16384; 32768].

(** [fls]: one more than the index of the highest set bit, 0 for 0. *)
Definition fls (x : Z) : nat := if x =? 0 then 0 else S (Z.to_nat (Z.log2 x)).

(** [struct kmem_cache]: the fields the allocator uses. *)
Record kmem_cache := KmemCache { c_idx : nat; c_size : Z; c_freehead : Z }.

(** The result of [kmalloc_slab]: NULL, [ZERO_SIZE_PTR] or a cache. *)
Inductive slab_ptr := NoSlab | ZeroSize | Slab (idx : nat).
#[export] Instance slab_ptr_eq_dec : EqDecision slab_ptr.
Proof. solve_decision. Defined.

Definition size_index_elem (bytes : Z) : nat := Z.to_nat ((bytes - 1) / 8).
Definition kmalloc_slab (size : Z) : slab_ptr :=
  if KMALLOC_MAX_SIZE <? size then NoSlab
  else if size <=? 192 then
    if size =? 0 then ZeroSize else Slab (nth (size_index_elem size) size_index 0%nat)
  else Slab (fls (size - 1)).

(** The comparison cascade of slub.h; [None] is its final [BUG()]. *)
Definition kmalloc_index (size : Z) : option nat :=
  if size =? 0 then Some 0%nat
  else if size <=? 8 then Some KMALLOC_SHIFT_LOW
  else if (64 <? size) && (size <=? 96) then Some 1%nat
  else if (128 <? size) && (size <=? 192) then Some 2%nat
  else if size <=? 8 then Some 3%nat
  else if size <=? 16 then Some 4%nat
  else if size <=? 32 then Some 5%nat
  else if size <=? 64 then Some 6%nat
  else if size <=? 128 then Some 7%nat
  else if size <=? 256 then Some 8%nat
  else if size <=? 512 then Some 9%nat
  else if size <=? 1024 then Some 10%nat
  else if size <=? 2 * 1024 then Some 11%nat
  else if size <=? 4 * 1024 then Some 12%nat
  else if size <=? 8 * 1024 then Some 13%nat
  else if size <=? 16 * 1024 then Some 14%nat
  else if size <=? 32 * 1024 then Some 15%nat
  else if size <=? 64 * 1024 then Some 16%nat
  else if size <=? 128 * 1024 then Some 17%nat
  else if size <=? 256 * 1024 then Some 18%nat
  else if size <=? 512 * 1024 then Some 19%nat
  else if size <=? 1024 * 1024 then Some 20%nat
  else if size <=? 2 * 1024 * 1024 then Some 21%nat
  else if size <=? 4 * 1024 * 1024 then Some 22%nat
  else if size <=? 8 * 1024 * 1024 then Some 23%nat
  else if size <=? 16 * 1024 * 1024 then Some 24%nat
  else if size <=? 32 * 1024 * 1024 then Some 25%nat
  else if size <=? 64 * 1024 * 1024 then Some 26%nat
  else None.

Section operations.
(** The heap behind [yaos_heap_alloc_4k] and [yaos_heap_free_4k]. *)
Context {H : Type} (heap_alloc_4k : Z -> M H Z) (heap_free_4k : Z -> Z -> M H unit).

Record slub := Slub {
  caches : list kmem_cache;       (* kmalloc_caches of this CPU *)
  page_bits : list Z;
  mem : Z -> Z;                   (* words at virtual addresses *)
  heap : H;
  installed : bool
}.
Definition set_caches (l : list kmem_cache) (s : slub) : slub :=
  Slub l (page_bits s) (mem s) (heap s) (installed s).
Definition set_bits (l : list Z) (s : slub) : slub :=
  Slub (caches s) l (mem s) (heap s) (installed s).
Definition set_mem (m : Z -> Z) (s : slub) : slub :=
  Slub (caches s) (page_bits s) m (heap s) (installed s).
Definition set_heap (h : H) (s : slub) : slub :=
  Slub (caches s) (page_bits s) (mem s) h (installed s).
Definition on_heap {A} : M H A -> M slub A := zoom heap set_heap.

Definition cache (i : nat) : M slub kmem_cache :=
  l <- gets caches ;; deref_opt (l !! i).
Definition set_freehead (i : nat) (p : Z) : M slub unit :=
  c <- cache i ;;
  modify (fun s => set_caches (<[i := KmemCache (c_idx c) (c_size c) p]> (caches s)) s).
(** [p->pnext] of a free object. *)
Definition get_next (p : Z) : M slub Z := gets (fun s => mem s p).
Definition put_next (p v : Z) : M slub unit :=
  modify (fun s => set_mem (fun x => if x =? p then v else mem s x) s).

(** The range checks of the allocator's ASSERTs. *)
Definition in_direct_map (p : Z) : bool := (PHYS_VIRT_START <? p) && (p <? PHYS_VIRT_END).

Definition new_kmalloc_cache (idx : nat) : M slub unit :=
  kassert (Nat.leb idx LARGE_IDX) ;;;
  modify (fun s => set_caches
    (<[idx := KmemCache idx (nth idx kmalloc_info 0) 0]> (caches s)) s).

(** [for (i = KMALLOC_SHIFT_LOW; i <= KMALLOC_SHIFT_HIGH; i++)] with the two
    odd sizes after 6 and 7 ([KMALLOC_MIN_SIZE] is 8). *)
Fixpoint create_loop (idxs : list nat) : M slub unit :=
  match idxs with
  | [] => ret tt
  | i :: idxs' =>
      new_kmalloc_cache i ;;;
      (if Nat.eqb i 6 then new_kmalloc_cache 1 else ret tt) ;;;
      (if Nat.eqb i 7 then new_kmalloc_cache 2 else ret tt) ;;;
      create_loop idxs'
  end.
Definition create_kmalloc_caches : M slub unit :=
  create_loop (seq KMALLOC_SHIFT_LOW (S KMALLOC_SHIFT_HIGH - KMALLOC_SHIFT_LOW)) ;;;
  new_kmalloc_cache LARGE_IDX ;;;
  new_kmalloc_cache LARGE_NEXT.

(** The four bits of page [offset]. *)
Definition read_bits (offset : Z) : M slub Z :=
  l <- gets page_bits ;;
  b <- deref_opt (l !! Z.to_nat (offset / 2)) ;;
  ret (if Z.land offset 1 =? 0 then Z.land b 15 else Z.land (Z.shiftr b 4) 15).
Definition page_offset (addr : Z) : M slub Z :=
  p <- V2P addr ;; ret (Z.shiftr p PAGE_4K_SHIFT).
Definition get_idx_from_addr (addr : Z) : M slub nat :=
  offset <- page_offset addr ;;
  b <- read_bits offset ;;
  ret (Z.to_nat b).
Definition set_idx_from_addr (addr : Z) (setidx : nat) : M slub unit :=
  offset <- page_offset addr ;;
  l <- gets page_bits ;;
  idx <- deref_opt (l !! Z.to_nat (offset / 2)) ;;
  let v := if Z.land offset 1 =? 0
           then Z.lor (Z.land idx 240) (Z.of_nat setidx)
           else wrap8 (Z.lor (Z.land idx 15) (Z.shiftl (Z.of_nat setidx) 4)) in
  modify (fun s => set_bits (<[Z.to_nat (offset / 2) := v]> (page_bits s)) s).

(** [do { size += 4K; offset++; idx = bits(offset); } while (idx == LARGE_NEXT);] *)
Fixpoint large_size (fuel : nat) (offset size : Z) : M slub Z :=
  match fuel with
  | O => out_of_fuel
  | S fuel' =>
      b <- read_bits (offset + 1) ;;
      if Nat.eqb (Z.to_nat b) LARGE_NEXT then large_size fuel' (offset + 1) (size + PAGE_4K_SIZE)
      else ret (size + PAGE_4K_SIZE)
  end.

Definition __kmfree (p : Z) : M slub unit :=
  if p =? ZERO_SIZE_PTR then ret tt
  else
    kassert (in_direct_map p) ;;;
    i <- get_idx_from_addr p ;;
    c <- cache i ;;
    if Nat.eqb (c_idx c) LARGE_IDX then
      offset <- page_offset p ;;
      fuel <- gets (fun s => S (2 * length (page_bits s))) ;;
      size <- large_size fuel offset 0 ;;
      on_heap (heap_free_4k p size)
    else
      kassert (Z.land p (c_size c - 1) =? 0) ;;;
      put_next p (c_freehead c) ;;;
      set_freehead i p ;;;
      kassert ((p =? 0) || in_direct_map p).

(** [while (pnext <= pend) {...}] of [slub_add_page]: links object after
    object; the result is the last one. *)
Fixpoint link_objects (fuel : nat) (size pend pfree : Z) : M slub Z :=
  let pnext := pfree + size in
  if pnext <=? pend then
    match fuel with
    | O => out_of_fuel
    | S fuel' => put_next pfree pnext ;;; link_objects fuel' size pend pnext
    end
  else ret pfree.

Definition slub_add_page (i : nat) : M slub bool :=
  addr <- on_heap (heap_alloc_4k PAGE_4K_SIZE) ;;
  kassert (in_direct_map addr) ;;;
  if addr =? 0 then ret false
  else
    c <- cache i ;;
    let pend := addr + PAGE_4K_SIZE - c_size c in
    last <- link_objects 4096 (c_size c) pend addr ;;
    put_next last (c_freehead c) ;;;
    set_freehead i addr ;;;
    kassert ((addr =? 0) || in_direct_map addr) ;;;
    kassert (Nat.ltb (c_idx c) 16) ;;;
    set_idx_from_addr addr (c_idx c) ;;;
    ret true.

Definition __kmalloc (size : Z) : M slub Z :=
  ok <- gets installed ;;
  kassert ok ;;;
  match kmalloc_slab size with
  | ZeroSize => ret ZERO_SIZE_PTR
  | NoSlab => ret 0
  | Slab i =>
      c <- cache i ;;
      ready <- (if c_freehead c =? 0 then slub_add_page i else ret true) ;;
      if (ready : bool) then
        c' <- cache i ;;
        let pfree := c_freehead c' in
        kassert (negb (pfree =? 0)) ;;;
        kassert (in_direct_map pfree) ;;;
        nx <- get_next pfree ;;
        set_freehead i nx ;;;
        kassert ((nx =? 0) || in_direct_map nx) ;;;
        kassert ((4096 <=? c_size c') || (Z.land pfree 4095 + c_size c' <=? 4096)) ;;;
        ret pfree
      else ret 0
  end.

(** [while (newaddr < addr + newsize) {...}] of [__kmalloc_large]. *)
Fixpoint mark_next (fuel : nat) (newaddr lim : Z) : M slub unit :=
  if newaddr <? lim then
    match fuel with
    | O => out_of_fuel
    | S fuel' =>
        set_idx_from_addr newaddr LARGE_NEXT ;;;
        mark_next fuel' (newaddr + PAGE_4K_SIZE) lim
    end
  else ret tt.

Definition __kmalloc_large (size : Z) : M slub Z :=
  let newsize := Z.land (wrap64 (size + PAGE_4K_MASK)) (lnot64 PAGE_4K_MASK) in
  addr <- on_heap (heap_alloc_4k newsize) ;;
  if addr =? 0 then ret 0
  else
    set_idx_from_addr addr LARGE_IDX ;;;
    mark_next (Z.to_nat (newsize / 4096)) (addr + PAGE_4K_SIZE) (addr + newsize) ;;;
    ret addr.

Definition slub_mfree (p : Z) : M slub unit := __kmfree p.
Definition slub_malloc (size : Z) : M slub Z :=
  if KMALLOC_MAX_CACHE_SIZE <? size then __kmalloc_large size else __kmalloc size.

(** The boot-processor initialisation; [maxaddr] is [yaos_max_physical_mem()]. *)
Definition page_bits_size (maxaddr : Z) : Z :=
  Z.land (Z.shiftr maxaddr PAGE_4K_SHIFT / 2 + 1 + (PAGE_4K_SIZE - 1)) (lnot64 PAGE_4K_MASK).
Definition init_slub_bp (maxaddr : Z) : M slub unit :=
  let size := page_bits_size maxaddr in
  on_heap (heap_alloc_4k size) ;;;
  modify (set_bits (replicate (Z.to_nat size) 0)).
Definition init_slub_ap : M slub unit :=
  create_kmalloc_caches ;;;
  modify (fun s => Slub (caches s) (page_bits s) (mem s) (heap s) true).
End operations.
#[global] Arguments slub H : clear implicits.

(** ** Size classes *)

(** The caches [create_kmalloc_caches] makes for objects. *)
Definition object_caches : list nat := [1; 2; 3; 4; 5; 6; 7; 8; 9; 10; 11; 12]%nat.
Definition cache_size (i : nat) : Z := nth i kmalloc_info 0.
#[global] Arguments cache_size : simpl never.

Definition slab_fits (size : Z) : bool :=
  match kmalloc_slab size with
  | Slab i => bool_decide (i ∈ object_caches) && (size <=? cache_size i) &&
      forallb (fun j => (cache_size j <? size) || (cache_size i <=? cache_size j) ||
                        (cache_size j <? 16)) object_caches
  | _ => false
  end.

Lemma slab_fits_all : forallb slab_fits (seqZ 1 4096) = true.
Proof. vm_compute. reflexivity. Qed.

Lemma kmalloc_slab_fits size :
  0 < size <= 4096 ->
  exists i, kmalloc_slab size = Slab i /\ i ∈ object_caches /\ size <= cache_size i /\
    forall j, j ∈ object_caches -> size <= cache_size j -> 16 <= cache_size j ->
      cache_size i <= cache_size j.
Proof.
  intros Hs. pose proof slab_fits_all as Hall. rewrite forallb_forall in Hall.
  specialize (Hall size). unfold slab_fits in Hall.
  assert (In size (seqZ 1 4096)) as Hin by (apply list_elem_of_In, elem_of_seqZ; lia).
  specialize (Hall Hin). destruct (kmalloc_slab size) as [| |i]; [done..|].
  apply andb_prop in Hall as [[Hi%bool_decide_eq_true Hle%Z.leb_le]%andb_prop Hmin].
  exists i. split; [done|]. split; [done|]. split; [done|]. intros j Hj Hsj H16.
  rewrite forallb_forall in Hmin. specialize (Hmin j ltac:(by apply list_elem_of_In)).
  lia.
Qed.

Lemma object_cache_size i :
  i ∈ object_caches -> 8 <= cache_size i <= 4096.
Proof. unfold object_caches. rewrite !elem_of_cons, elem_of_nil. intros Hi. destruct_or!; subst; done. Qed.

(** The cache [kmalloc_index] names; the smallest one for requests of 1 to 8. *)
Definition slab_of_index (size : Z) : slab_ptr :=
  match kmalloc_index size with Some 0%nat => ZeroSize | Some i => Slab i | None => NoSlab end.

Lemma index_table_small : forallb (fun size => bool_decide (kmalloc_slab size = slab_of_index size))
  (0 :: seqZ 9 248) = true.
Proof. vm_compute. reflexivity. Qed.

(** Above 192 bytes the table is the number of bits of [size - 1]. *)
Lemma kmalloc_slab_bits size (k : Z) :
  7 <= k <= 22 -> 192 < size -> 2 ^ k < size <= 2 ^ (k + 1) -> kmalloc_slab size = Slab (S (Z.to_nat k)).
Proof.
  intros Hk H1 H2. unfold kmalloc_slab, KMALLOC_MAX_SIZE. change (Z.shiftl 1 23) with (2 ^ 23).
  pose proof (Z.pow_le_mono_r 2 (k + 1) 23). rewrite (proj2 (Z.ltb_ge _ _)) by lia.
  rewrite (proj2 (Z.leb_gt _ _)) by lia. unfold fls. rewrite (proj2 (Z.eqb_neq _ _)) by lia.
  rewrite (Z.log2_unique (size - 1) k); [done|lia|]. rewrite Z.pow_succ_r by lia.
  rewrite Z.pow_add_r in H2 by lia. lia.
Qed.

(** ** Free lists as lists of objects *)

Fixpoint chain (m : Z -> Z) (p : Z) (l : list Z) (q : Z) : Prop :=
  match l with
  | [] => p = q
  | x :: l' => p = x /\ x <> 0 /\ chain m (m x) l' q
  end.

Lemma links_frame m m' p l q :
  chain m p l q -> (forall x, x ∈ l -> m' x = m x) -> chain m' p l q.
Proof.
  revert p. induction l as [|x l IH]; intros p; cbn; [done|].
  intros (-> & Hx & Hc) Hs. split; [done|]. split; [done|].
  rewrite Hs by left. apply IH; [done|]. intros y Hy. apply Hs. by right.
Qed.

Lemma links_app m p l1 l2 q r : chain m p l1 r -> chain m r l2 q -> chain m p (l1 ++ l2) q.
Proof.
  revert p. induction l1 as [|x l1 IH]; intros p; cbn; [intros ->; done|].
  intros (-> & Hx & Hc) Hl2. split; [done|]. split; [done|]. by apply IH.
Qed.

Section proofs.
Context {H : Type} (heap_alloc_4k : Z -> M H Z) (heap_free_4k : Z -> Z -> M H unit).
Implicit Types (s : slub H).

(** The tag of the page of an address. *)
Definition tag s (a : Z) : option Z :=
  b ← page_bits s !! Z.to_nat ((a - PHYS_VIRT_START) / 4096 / 2);
  Some (if Z.land ((a - PHYS_VIRT_START) / 4096) 1 =? 0 then Z.land b 15
        else Z.land (Z.shiftr b 4) 15).

(** [p] is an object of cache [i]: inside the direct map, at a multiple of
    the size in a page tagged [i], not crossing the page. *)
Record object s (i : nat) (p : Z) : Prop := {
  ob_range : in_direct_map p = true;
  ob_tag : tag s p = Some (Z.of_nat i);
  ob_off : exists n, 0 <= n /\ p mod 4096 = n * cache_size i /\ (n + 1) * cache_size i <= 4096
}.

(** The caches and their free lists [fl]. *)
Record slub_ok s (fl : nat -> list Z) : Prop := {
  so_installed : installed s = true;
  so_cache i : i ∈ object_caches -> exists c,
    caches s !! i = Some c /\ c_idx c = i /\ c_size c = cache_size i /\
    chain (mem s) (c_freehead c) (fl i) 0;
  so_objects i p : i ∈ object_caches -> p ∈ fl i -> object s i p;
  so_nodup i : i ∈ object_caches -> NoDup (fl i)
}.

Definition fl_set (i : nat) (l : list Z) (fl : nat -> list Z) : nat -> list Z :=
  fun j => if Nat.eqb j i then l else fl j.

Lemma wp_cache s i c Q : caches s !! i = Some c -> Q c s -> wp (cache i) s Q.
Proof. intros Hc HQ. unfold cache. wp_steps. by eapply wp_deref_opt. Qed.

Lemma wp_set_freehead s i c p Q :
  caches s !! i = Some c ->
  Q tt (set_caches (<[i := KmemCache (c_idx c) (c_size c) p]> (caches s)) s) ->
  wp (set_freehead i p) s Q.
Proof. intros Hc HQ. unfold set_freehead. wp_steps. eapply wp_cache; [exact Hc|]. by wp_steps. Qed.

Lemma direct_map_bounds p :
  in_direct_map p = true -> PHYS_VIRT_START < p < PHYS_VIRT_END /\ 0 < p < 2 ^ 64.
Proof.
  unfold in_direct_map. intros [H1%Z.ltb_lt H2%Z.ltb_lt]%andb_prop.
  assert (PHYS_VIRT_START = 0xFFFF820000000000 /\ PHYS_VIRT_END = 0xffffc7ffffffffff)
    as [He1 He2] by done. lia.
Qed.

Lemma wp_V2P s p Q :
  PHYS_VIRT_START <= p <= PHYS_VIRT_END -> Q (p - PHYS_VIRT_START) s -> wp (V2P p) s Q.
Proof.
  intros Hp HQ. unfold V2P. wp_steps. apply wp_kassert.
  - apply andb_true_intro. split; apply Z.leb_le; lia.
  - wp_steps. rewrite wrap64_small; [done|].
    assert (PHYS_VIRT_START = 0xFFFF820000000000 /\ PHYS_VIRT_END = 0xffffc7ffffffffff)
      as [He1 He2] by done. lia.
Qed.

Lemma wp_page_offset s p Q :
  PHYS_VIRT_START <= p <= PHYS_VIRT_END -> Q ((p - PHYS_VIRT_START) / 4096) s ->
  wp (page_offset p) s Q.
Proof.
  intros Hp HQ. unfold page_offset. wp_steps. apply wp_V2P; [done|]. wp_steps.
  unfold PAGE_4K_SHIFT. by rewrite Z.shiftr_div_pow2 by lia.
Qed.

Lemma wp_get_idx s p t Q :
  in_direct_map p = true -> tag s p = Some t -> Q (Z.to_nat t) s -> wp (get_idx_from_addr p) s Q.
Proof.
  intros Hp%direct_map_bounds Ht HQ. unfold get_idx_from_addr. wp_steps.
  apply wp_page_offset; [lia|]. unfold read_bits. wp_steps. unfold tag in Ht.
  destruct (page_bits s !! _) as [b|] eqn:Hb; [|done]. cbn in Ht. injection Ht as <-.
  eapply wp_deref_opt; [reflexivity|]. wp_steps. exact HQ.
Qed.

(** Taking the first object of a non-empty free list. *)
Lemma kmalloc_pop s fl i size p l :
  slub_ok s fl -> kmalloc_slab size = Slab i -> i ∈ object_caches -> fl i = p :: l ->
  wp (__kmalloc heap_alloc_4k size) s (fun r s' =>
    r = p /\ slub_ok s' (fl_set i l fl) /\ mem s' = mem s /\ page_bits s' = page_bits s /\
    heap s' = heap s).
Proof.
  intros Hok Hslab Hi Hfl. destruct (so_cache _ _ Hok _ Hi) as (c & Hc & Hidx & Hsize & Hch).
  rewrite Hfl in Hch. destruct Hch as (Hhead & Hp0 & Hch).
  assert (object s i p) as [Hr Ht (n & Hn & Hoff & Hfit)].
  { apply (so_objects _ _ Hok); [done|]. rewrite Hfl. left. }
  unfold __kmalloc. rewrite Hslab, (so_installed _ _ Hok) || rewrite Hslab. wp_steps.
  rewrite (so_installed _ _ Hok). wp_steps.
  eapply wp_cache; [exact Hc|]. rewrite Hhead, (proj2 (Z.eqb_neq p 0)) by done. wp_steps.
  eapply wp_cache; [exact Hc|]. rewrite Hhead, (proj2 (Z.eqb_neq p 0)), Hr by done.
  cbn [negb]. wp_steps. unfold get_next. wp_steps. eapply wp_set_freehead; [exact Hc|].
  assert ((mem s p =? 0) || in_direct_map (mem s p) = true) as ->.
  { destruct l as [|y l]; cbn in Hch; [by rewrite Hch|]. destruct Hch as (-> & _).
    rewrite (ob_range s i y); [apply orb_true_r|]. apply (so_objects _ _ Hok); [done|].
    rewrite Hfl. right. left. }
  wp_steps.
  assert ((4096 <=? c_size c) || (Z.land p 4095 + c_size c <=? 4096) = true) as ->.
  { apply orb_true_iff. right. apply Z.leb_le. change 4095 with (2 ^ 12 - 1).
    rewrite land_low_mod by lia. change (2 ^ 12) with 4096. rewrite Hoff, Hsize. lia. }
  wp_steps. split; [done|]. split; [|done].
  split; cbn.
  - apply Hok.
  - intros j Hj. unfold fl_set. destruct (Nat.eqb_spec j i) as [->|Hne].
    + eexists. rewrite list_lookup_insert_eq by (by eapply lookup_lt_Some). done.
    + rewrite list_lookup_insert_ne by done. by apply (so_cache _ _ Hok).
  - intros j q Hj Hq. unfold fl_set in Hq.
    enough (object s j q) as [] by (by split).
    apply (so_objects _ _ Hok); [done|]. destruct (Nat.eqb_spec j i) as [->|]; [|done].
    rewrite Hfl. by right.
  - intros j Hj. unfold fl_set. destruct (Nat.eqb_spec j i) as [->|]; [|by apply Hok].
    pose proof (so_nodup _ _ Hok i Hi) as Hnd. rewrite Hfl in Hnd. apply list.NoDup_cons in Hnd. apply Hnd.
Qed.

(** Returning an object that is not free to its cache. *)
Lemma kmfree_push s fl i p :
  slub_ok s fl -> i ∈ object_caches -> object s i p -> p ∉ fl i ->
  Z.land p (cache_size i - 1) = 0 ->
  (forall j, j ∈ object_caches -> j <> i -> p ∉ fl j) ->
  wp (__kmfree heap_free_4k p) s (fun _ s' =>
    slub_ok s' (fl_set i (p :: fl i) fl) /\ page_bits s' = page_bits s /\ heap s' = heap s).
Proof.
  intros Hok Hi Hob Hnew Hal Hother. pose proof Hob as [Hr Ht Hoff].
  destruct (so_cache _ _ Hok _ Hi) as (c & Hc & Hidx & Hsize & Hch).
  pose proof (direct_map_bounds _ Hr) as Hb.
  assert (PHYS_VIRT_START = 0xFFFF820000000000) as Hpvs by done.
  unfold __kmfree, ZERO_SIZE_PTR. rewrite (proj2 (Z.eqb_neq p 16)) by lia. rewrite Hr. wp_steps.
  eapply wp_get_idx; [done|exact Ht|]. rewrite Nat2Z.id. wp_steps.
  eapply wp_cache; [exact Hc|].
  assert (Nat.eqb (c_idx c) LARGE_IDX = false) as ->.
  { rewrite Hidx. apply Nat.eqb_neq. intros ->. clear - Hi. unfold object_caches in Hi.
    rewrite !elem_of_cons, elem_of_nil in Hi. unfold LARGE_IDX in Hi. lia. }
  rewrite Hsize, Hal. cbn [Z.eqb]. wp_steps. unfold put_next. wp_steps.
  eapply wp_set_freehead; [exact Hc|]. rewrite orb_true_r. wp_steps.
  split; [|done]. split; cbn.
  - apply Hok.
  - intros j Hj. unfold fl_set. destruct (Nat.eqb_spec j i) as [->|Hne].
    + eexists. rewrite list_lookup_insert_eq by (by eapply lookup_lt_Some).
      split; [done|]. split; [done|]. split; [done|]. cbn. rewrite Z.eqb_refl.
      split; [done|]. split; [lia|]. eapply links_frame; [exact Hch|].
      intros x Hx. destruct (Z.eqb_spec x p) as [->|]; done.
    + rewrite list_lookup_insert_ne by done.
      destruct (so_cache _ _ Hok _ Hj) as (c' & Hc' & Hi' & Hs' & Hch').
      exists c'. split; [done|]. split; [done|]. split; [done|].
      eapply links_frame; [exact Hch'|]. intros x Hx.
      destruct (Z.eqb_spec x p) as [->|]; [by destruct (Hother j Hj Hne)|done].
  - intros j q Hj Hq. unfold fl_set in Hq.
    enough (object s j q) as [] by (by split).
    destruct (Nat.eqb_spec j i) as [->|]; [|by apply (so_objects _ _ Hok)].
    apply elem_of_cons in Hq as [->|Hq]; [done|by apply (so_objects _ _ Hok)].
  - intros j Hj. unfold fl_set. destruct (Nat.eqb_spec j i) as [->|]; [|by apply Hok].
    apply list.NoDup_cons. split; [done|by apply Hok].
Qed.

(** ** Tags *)

Lemma nibble_bits x i : 0 <= i -> Z.testbit (Z.land x 15) i = Z.testbit x i && (i <? 4).
Proof.
  intros Hi. change 15 with (Z.ones 4). by rewrite Z.land_spec, Z.testbit_ones_nonneg by lia.
Qed.

Lemma nibble_even idx t :
  0 <= t < 16 ->
  Z.land (Z.lor (Z.land idx 240) t) 15 = t /\
  Z.land (Z.shiftr (Z.lor (Z.land idx 240) t) 4) 15 = Z.land (Z.shiftr idx 4) 15.
Proof.
  intros Ht. assert (Hh : forall j, 4 <= j -> Z.testbit t j = false).
  { intros j Hj. apply (testbit_above t 4); [exact Ht|lia]. }
  assert (H240 : forall j, 0 <= j -> Z.testbit 240 j = (4 <=? j) && (j <? 8)).
  { intros j Hj. change 240 with (Z.shiftl (Z.ones 4) 4). rewrite Z.shiftl_spec by done.
    destruct (Z.leb_spec 4 j); [|rewrite Z.testbit_neg_r by lia; done].
    rewrite Z.testbit_ones_nonneg by lia. destruct (Z.ltb_spec (j - 4) 4), (Z.ltb_spec j 8); lia || done. }
  split; apply Z.bits_inj'; intros j Hj; rewrite !nibble_bits by done.
  - rewrite Z.lor_spec, Z.land_spec, H240 by done.
    destruct (Z.leb_spec 4 j), (Z.ltb_spec j 4); try lia; cbn.
    + by rewrite andb_false_r, Hh by lia.
    + by rewrite andb_false_r, andb_true_r.
  - rewrite !Z.shiftr_spec by done. rewrite Z.lor_spec, Z.land_spec, H240, Hh by lia.
    destruct (Z.leb_spec 4 (j + 4)), (Z.ltb_spec j 4), (Z.ltb_spec (j + 4) 8); try lia; cbn;
      by rewrite ?andb_true_r, ?andb_false_r, ?orb_false_r.
Qed.

Lemma nibble_odd idx t :
  0 <= t < 16 ->
  Z.land (Z.shiftr (wrap8 (Z.lor (Z.land idx 15) (Z.shiftl t 4))) 4) 15 = t /\
  Z.land (wrap8 (Z.lor (Z.land idx 15) (Z.shiftl t 4))) 15 = Z.land idx 15.
Proof.
  intros Ht. assert (Hh : forall j, 4 <= j -> Z.testbit t j = false).
  { intros j Hj. apply (testbit_above t 4); [exact Ht|lia]. }
  unfold wrap8. split; apply Z.bits_inj'; intros j Hj; rewrite !nibble_bits by done.
  - rewrite Z.shiftr_spec by done. destruct (Z.ltb_spec j 4); [|by rewrite andb_false_r, Hh by lia].
    rewrite Z.mod_pow2_bits_low, Z.lor_spec, nibble_bits, Z.shiftl_spec by lia.
    replace (j + 4 - 4) with j by lia. destruct (Z.ltb_spec (j + 4) 4); [lia|].
    by rewrite andb_false_r, andb_true_r.
  - destruct (Z.ltb_spec j 4); [|by rewrite !andb_false_r].
    rewrite Z.mod_pow2_bits_low, Z.lor_spec, nibble_bits, Z.shiftl_spec by lia.
    rewrite (Z.testbit_neg_r t) by lia. rewrite (proj2 (Z.ltb_lt j 4)) by lia.
    by rewrite !andb_true_r, orb_false_r.
Qed.

Definition page_no (a : Z) : Z := (a - PHYS_VIRT_START) / 4096.

(** [set_idx_from_addr] tags one page and no other. *)
Lemma wp_set_idx s a i Q :
  PHYS_VIRT_START <= a <= PHYS_VIRT_END -> (i < 16)%nat ->
  (Z.to_nat (page_no a / 2) < length (page_bits s))%nat ->
  (forall l', length l' = length (page_bits s) ->
     (forall x, PHYS_VIRT_START <= x -> tag (set_bits l' s) x =
        if page_no x =? page_no a then Some (Z.of_nat i) else tag s x) -> Q tt (set_bits l' s)) ->
  wp (set_idx_from_addr a i) s Q.
Proof.
  intros Ha Hi Hlen HQ. unfold set_idx_from_addr. wp_steps. apply wp_page_offset; [done|].
  fold (page_no a). wp_steps. set (o := page_no a) in *.
  destruct (lookup_lt_is_Some_2 (page_bits s) (Z.to_nat (o / 2)) Hlen) as [b Hb].
  eapply wp_deref_opt; [exact Hb|]. wp_steps. apply HQ; [apply length_insert|].
  intros x Hx. unfold tag. cbn [page_bits set_bits]. fold (page_no x). set (ox := page_no x) in *.
  assert (0 <= ox) by (unfold ox, page_no; apply Z.div_pos; lia).
  assert (0 <= o) by (unfold o, page_no; apply Z.div_pos; lia).
  assert (Hodd : forall z, Z.land z 1 = z mod 2) by (intros z; apply (land_low_mod z 1); lia).
  rewrite !Hodd. pose proof (Z.div_mod ox 2). pose proof (Z.div_mod o 2).
  pose proof (Z.mod_pos_bound ox 2). pose proof (Z.mod_pos_bound o 2).
  destruct (decide (ox / 2 = o / 2)) as [He|Hne].
  - rewrite He, list_lookup_insert_eq by done. rewrite Hb. cbn.
    destruct (nibble_even b (Z.of_nat i)) as [E1 E2]; [lia|].
    destruct (nibble_odd b (Z.of_nat i)) as [O1 O2]; [lia|].
    destruct (Z.eqb_spec (o mod 2) 0), (Z.eqb_spec (ox mod 2) 0), (Z.eqb_spec ox o);
      try lia; by rewrite ?E1, ?E2, ?O1, ?O2.
  - rewrite list_lookup_insert_ne by lia. destruct (Z.eqb_spec ox o); [congruence|done].
Qed.

(** ** A fresh page *)

(** The objects of size [size] in the page at [a]. *)
Definition objects_of (size a : Z) : list Z :=
  map (fun n => a + n * size) (seqZ 0 (4096 / size)).

Lemma objects_step size p (n : nat) :
  map (fun k => p + k * size) (seqZ 0 (Z.of_nat (S n))) =
  p :: map (fun k => (p + size) + k * size) (seqZ 0 (Z.of_nat n)).
Proof.
  rewrite seqZ_cons by lia. cbn [map]. f_equal; [lia|].
  replace (Z.pred (Z.of_nat (S n))) with (Z.of_nat n) by lia.
  change (Z.succ 0) with 1. unfold seqZ. rewrite Nat2Z.id, <- !list_fmap_compose.
  apply list_fmap_ext. intros i x _. unfold compose. lia.
Qed.

Lemma link_objects_spec (n : nat) fuel size pend p s :
  0 < size -> 0 < p -> pend = p + Z.of_nat n * size -> (n <= fuel)%nat ->
  wp (link_objects fuel size pend p) s (fun last s' =>
    last = pend /\ caches s' = caches s /\ page_bits s' = page_bits s /\ heap s' = heap s /\
    installed s' = installed s /\
    (forall x, ~ p <= x < pend -> mem s' x = mem s x) /\
    forall v m', (forall x, x <> pend -> m' x = mem s' x) -> m' pend = v ->
      chain m' p (map (fun k => p + k * size) (seqZ 0 (Z.of_nat (S n)))) v).
Proof.
  intros Hsz. revert p fuel s. induction n as [|n IH]; intros p fuel s Hp Hpend Hfuel.
  - destruct fuel; cbn [link_objects]; rewrite (proj2 (Z.leb_gt _ _)) by lia; apply wp_ret;
      (split; [lia|]); do 5 (split; [done|]); intros v m' Hm Hv; cbn; split; try lia;
      (split; [lia|]); (rewrite <- Hv; f_equal; lia).
  - destruct fuel as [|fuel]; [lia|]. cbn [link_objects].
    rewrite (proj2 (Z.leb_le _ _)) by nia. unfold put_next. wp_steps.
    eapply wp_mono; [apply (IH (p + size)); [lia|lia|lia]|].
    cbn. intros last s' (-> & Hc & Hb & Hh & Hin & Hmem & Hch).
    split; [done|]. do 4 (split; [done|]). split.
    + intros x Hx. rewrite Hmem by lia. destruct (Z.eqb_spec x p); [nia|done].
    + intros v m' Hm Hv. rewrite objects_step. cbn [chain]. split; [done|]. split; [lia|].
      rewrite Hm by nia. rewrite Hmem by lia. rewrite Z.eqb_refl. apply Hch; done.
Qed.

(** An object ends inside the page exactly when its number is below the count. *)
Lemma fits_page size a k :
  0 < size ->
  (a + k * size + size <=? a + 4096 - size) =
  (a + k * size + size <=? a + (4096 / size - 1) * size).
Proof.
  intros Hs. apply eq_bool_prop_intro. rewrite !Is_true_true, !Z.leb_le.
  pose proof (Z.mul_div_le 4096 size). split; intros Hle; [|nia].
  enough (k + 2 <= 4096 / size) by nia. apply Z.div_le_lower_bound; lia.
Qed.

(** Slicing a page the heap just gave. *)
Lemma slub_add_page_ok s fl i a h' :
  slub_ok s fl -> i ∈ object_caches -> fl i = [] ->
  heap_alloc_4k PAGE_4K_SIZE (heap s) = Done (a, h') ->
  PHYS_VIRT_START < a -> a + 4096 <= PHYS_VIRT_END -> a mod 4096 = 0 ->
  (Z.to_nat (page_no a / 2) < length (page_bits s))%nat ->
  (forall j p, j ∈ object_caches -> p ∈ fl j -> page_no p <> page_no a) ->
  wp (slub_add_page heap_alloc_4k i) s (fun r s' =>
    r = true /\ slub_ok s' (fl_set i (objects_of (cache_size i) a) fl) /\ heap s' = h').
Proof.
  intros Hok Hi Hempty Halloc Ha1 Ha2 Ham Hlen Hfresh.
  destruct (so_cache _ _ Hok _ Hi) as (c & Hc & Hidx & Hsize & Hch).
  rewrite Hempty in Hch. cbn in Hch. pose proof (object_cache_size _ Hi) as Hcs.
  assert (PHYS_VIRT_START = 0xFFFF820000000000) as Hpvs by done.
  assert (in_direct_map a = true) as Hdm.
  { unfold in_direct_map. apply andb_true_intro. split; apply Z.ltb_lt; lia. }
  unfold slub_add_page, on_heap. wp_steps. unfold wp at 1. rewrite Halloc. wp_steps.
  rewrite Hdm. wp_steps. rewrite (proj2 (Z.eqb_neq a 0)) by lia. wp_steps.
  eapply wp_cache; [exact Hc|]. rewrite Hsize. set (size := cache_size i) in *. wp_steps.
  set (cnt := 4096 / size).
  assert (1 <= cnt <= 512) as Hcnt.
  { unfold cnt. split; [apply Z.div_le_lower_bound; lia|].
    change 512 with (4096 / 8). apply Z.div_le_compat_l; lia. }
  assert (4096 = size * cnt + 4096 mod size) as Hdm2 by (apply Z.div_mod; lia).
  pose proof (Z.mod_pos_bound 4096 size) as Hmp.
  (* the last object that fits starts at a + (cnt - 1) * size *)
  assert (Hlink : forall Q, wp (link_objects 4096 size (a + (cnt - 1) * size) a) (set_heap h' s) Q ->
    wp (link_objects 4096 size (a + PAGE_4K_SIZE - size) a) (set_heap h' s) Q).
  { intros Q. generalize (set_heap h' s). unfold PAGE_4K_SIZE.
    assert (forall fuel p t, (exists k, p = a + k * size /\ 0 <= k) ->
      link_objects (H := H) fuel size (a + 4096 - size) p t =
      link_objects fuel size (a + (cnt - 1) * size) p t) as Heq.
    { intros fuel. induction fuel as [|fuel IH]; intros p t (k & -> & Hk); cbn [link_objects].
      - rewrite (fits_page size a k) by lia. fold cnt. done.
      - rewrite (fits_page size a k) by lia. fold cnt.
        destruct (_ <=? _); [|done]. unfold bind. destruct (put_next _ _ t) as [[[] t']| | | |]; try done.
        apply IH. exists (k + 1). split; [lia|lia]. }
    intros t. unfold wp. rewrite Heq; [done|]. exists 0. lia. }
  apply Hlink. eapply wp_mono.
  { apply (link_objects_spec (Z.to_nat (cnt - 1))); [lia|lia|by rewrite Z2Nat.id by lia|lia]. }
  cbn. intros last s1 (-> & Hc1 & Hb1 & Hh1 & Hin1 & Hmem1 & Hch1).
  set (pend := a + (cnt - 1) * size) in *.
  unfold put_next. wp_steps. eapply wp_set_freehead; [cbn; rewrite Hc1; exact Hc|].
  wp_steps. rewrite Hidx. clear Hlink.
  assert (i < 16)%nat as Hi16.
  { clear - Hi. unfold object_caches in Hi. rewrite !elem_of_cons, elem_of_nil in Hi. lia. }
  rewrite (proj2 (Nat.leb_le i 15)) by lia. wp_steps.
  apply wp_set_idx; [lia|done|cbn; by rewrite Hb1|]. cbn [page_bits set_caches set_mem set_heap].
  intros l' Hl' Htag. wp_steps. split; [done|]. split; [|cbn; by rewrite Hh1].
  assert (Htag' : forall x, PHYS_VIRT_START <= x -> page_no x <> page_no a ->
    l' !! Z.to_nat (page_no x / 2) = l' !! Z.to_nat (page_no x / 2)) by done.
  clear Htag'. split.
  - cbn. rewrite Hin1. apply Hok.
  - intros j Hj. unfold fl_set. cbn [caches mem set_caches set_bits set_mem]. rewrite Hc1.
    destruct (Nat.eqb_spec j i) as [->|Hne].
    + eexists. rewrite list_lookup_insert_eq by (eapply lookup_lt_Some; exact Hc).
      split; [done|]. split; [done|]. split; [done|]. cbn [c_freehead]. unfold objects_of. fold size cnt.
      replace cnt with (Z.of_nat (S (Z.to_nat (cnt - 1)))) by lia.
      apply Hch1; [|by rewrite Z.eqb_refl, Hch].
      intros x Hx. by rewrite (proj2 (Z.eqb_neq _ _)) by done.
    + rewrite list_lookup_insert_ne by done.
      destruct (so_cache _ _ Hok _ Hj) as (c' & Hc' & Hi' & Hs' & Hch').
      exists c'. split; [done|]. split; [done|]. split; [done|].
      eapply links_frame; [exact Hch'|]. intros x Hx.
      pose proof (Hfresh j x Hj Hx) as Hpg.
      assert (~ a <= x < a + 4096) as Hout.
      { intros Hr. apply Hpg. unfold page_no.
        pose proof (Z.div_mod a 4096). rewrite Hpvs.
        replace (a - 0xFFFF820000000000) with ((a / 4096 - 0xFFFF820000000) * 4096) by lia.
        rewrite Z_div_mult by lia. symmetry. apply (Z.div_unique _ _ _ (x - a)); lia. }
      rewrite (proj2 (Z.eqb_neq x pend)) by nia. apply Hmem1. nia.
  - intros j p Hj Hp. unfold fl_set in Hp. destruct (Nat.eqb_spec j i) as [->|Hne].
    + unfold objects_of in Hp. fold size cnt in Hp.
      apply list_elem_of_fmap in Hp as (k & -> & Hk%elem_of_seqZ).
      assert (0 <= k * size /\ k * size + size <= 4096) as [Hk1 Hk2] by nia.
      split.
      * unfold in_direct_map. apply andb_true_intro. split; apply Z.ltb_lt; lia.
      * rewrite Htag by lia.
        assert (page_no (a + k * size) = page_no a) as ->; [|by rewrite Z.eqb_refl].
        unfold page_no. pose proof (Z.div_mod a 4096). rewrite Hpvs.
        replace (a - 0xFFFF820000000000) with ((a / 4096 - 0xFFFF820000000) * 4096) by lia.
        rewrite Z_div_mult by lia. symmetry. apply (Z.div_unique _ _ _ (k * size)); lia.
      * exists k. fold size. split; [lia|]. split; [|lia].
        rewrite Z.add_mod, Ham by lia. rewrite Z.add_0_l, Z.mod_mod by lia.
        apply Z.mod_small. lia.
    + destruct (so_objects _ _ Hok _ _ Hj Hp) as [Hr Ht Hoff]. split; [done| |done].
      rewrite Htag by (apply direct_map_bounds in Hr; lia).
      rewrite (proj2 (Z.eqb_neq _ _)) by (by apply (Hfresh j)).
      unfold tag in *. cbn. by rewrite Hb1.
  - intros j Hj. unfold fl_set. destruct (Nat.eqb_spec j i) as [->|]; [|by apply Hok].
    unfold objects_of. apply NoDup_fmap_2_strong; [|apply NoDup_seqZ].
    intros x y _ _ Heq. fold size in Heq. nia.
Qed.
End proofs.

Section properties.
Context {H : Type} (heap_alloc_4k : Z -> M H Z) (heap_free_4k : Z -> Z -> M H unit).
Implicit Types (s : slub H).

Lemma object_frame s s' i p : page_bits s' = page_bits s -> object s i p -> object s' i p.
Proof. intros Hb [Hr Ht Ho]. split; [done| |done]. unfold tag in *. by rewrite Hb. Qed.

Lemma objects_disjoint s fl i j p :
  slub_ok s fl -> i ∈ object_caches -> j ∈ object_caches -> j <> i -> object s i p -> p ∉ fl j.
Proof.
  intros Hok Hi Hj Hne Hob Hin. pose proof (ob_tag _ _ _ (so_objects _ _ Hok _ _ Hj Hin)) as Ht.
  rewrite (ob_tag _ _ _ Hob) in Ht. injection Ht as Ht. lia.
Qed.

(** The caches only depend on the free lists pointwise. *)
Lemma fl_set_twice s fl i l l' :
  slub_ok s (fl_set i l' (fl_set i l fl)) -> slub_ok s (fl_set i l' fl).
Proof.
  intros [H1 H2 H3 H4]. split; [done|..]; unfold fl_set in *.
  - intros j Hj. specialize (H2 j Hj). by destruct (Nat.eqb j i).
  - intros j q Hj Hq. apply H3; [done|]. by destruct (Nat.eqb j i).
  - intros j Hj. specialize (H4 j Hj). by destruct (Nat.eqb j i).
Qed.

(** With an empty free list, an allocation is the allocation after the refill. *)
Lemma kmalloc_refill s s1 i size c c1 :
  installed s = true -> installed s1 = true -> kmalloc_slab size = Slab i ->
  caches s !! i = Some c -> c_freehead c = 0 ->
  slub_add_page heap_alloc_4k i s = Done (true, s1) ->
  caches s1 !! i = Some c1 -> c_freehead c1 <> 0 ->
  __kmalloc heap_alloc_4k size s = __kmalloc heap_alloc_4k size s1.
Proof.
  intros Hins Hins1 Hslab Hc Hf Hadd Hc1 Hf1. unfold __kmalloc. rewrite Hslab.
  unfold cache, bind, gets, kassert, deref_opt. rewrite Hins, Hins1. unfold ret. cbn beta iota.
  rewrite Hc, Hc1. cbn beta iota. rewrite Hf, Z.eqb_refl, Hadd, (proj2 (Z.eqb_neq _ _) Hf1).
  cbn beta iota. by rewrite Hc1.
Qed.

(** The heap can serve one more page, outside every cache page. *)
Definition page_available s (fl : nat -> list Z) : Prop :=
  exists a h', heap_alloc_4k PAGE_4K_SIZE (heap s) = Done (a, h') /\
    PHYS_VIRT_START < a /\ a + 4096 <= PHYS_VIRT_END /\ a mod 4096 = 0 /\
    (Z.to_nat (page_no a / 2) < length (page_bits s))%nat /\
    forall j p, j ∈ object_caches -> p ∈ fl j -> page_no p <> page_no a.

Lemma objects_of_cons i a :
  i ∈ object_caches -> exists l, objects_of (cache_size i) a = a :: l.
Proof.
  intros Hi. pose proof (object_cache_size _ Hi) as Hs. unfold objects_of.
  assert (1 <= 4096 / cache_size i) by (apply Z.div_le_lower_bound; lia).
  replace (4096 / cache_size i) with (Z.of_nat (S (Z.to_nat (4096 / cache_size i - 1)))) by lia.
  rewrite objects_step. by eexists.
Qed.

(** One allocation from cache [i], refilled when empty. *)
Lemma kmalloc_step s fl i size :
  slub_ok s fl -> kmalloc_slab size = Slab i -> i ∈ object_caches ->
  (fl i = [] -> page_available s fl) ->
  wp (__kmalloc heap_alloc_4k size) s (fun p s' => exists l,
    slub_ok s' (fl_set i l fl) /\ object s' i p /\ (p ∉ l) /\
    (fl i <> [] -> fl i = p :: l /\ heap s' = heap s)).
Proof.
  intros Hok Hslab Hi Hav. destruct (fl i) as [|p l] eqn:Hfl.
  - destruct (Hav eq_refl) as (a & h' & Ha & Ha1 & Ha2 & Ham & Hlen & Hfresh).
    pose proof (slub_add_page_ok heap_alloc_4k s fl i a h' Hok Hi Hfl Ha Ha1 Ha2 Ham Hlen Hfresh) as Hadd.
    apply wp_run in Hadd as (r & s1 & Hrun & -> & Hok1 & Hh1).
    destruct (objects_of_cons i a Hi) as [l Hl].
    destruct (so_cache _ _ Hok _ Hi) as (c & Hc & _ & _ & Hch). rewrite Hfl in Hch.
    destruct (so_cache _ _ Hok1 _ Hi) as (c1 & Hc1 & _ & _ & Hch1).
    assert (Hfl1 : fl_set i (objects_of (cache_size i) a) fl i = a :: l).
    { unfold fl_set. by rewrite Nat.eqb_refl, Hl. }
    rewrite Hfl1 in Hch1. destruct Hch1 as (Hhead & Hne & _).
    assert (Heq : __kmalloc heap_alloc_4k size s = __kmalloc heap_alloc_4k size s1).
    { apply (kmalloc_refill s s1 i size c c1); try done; [apply Hok|apply Hok1|by rewrite Hhead]. }
    unfold wp. rewrite Heq. eapply wp_mono; [apply (kmalloc_pop heap_alloc_4k s1 _ i size a l Hok1 Hslab Hi Hfl1)|].
    cbn. intros r s' (-> & Hok' & _ & Hb & _). exists l. split; [|split; [|split; [|done]]].
    + by eapply fl_set_twice.
    + apply (object_frame s1); [done|]. apply (so_objects _ _ Hok1); [done|]. rewrite Hfl1. left.
    + pose proof (so_nodup _ _ Hok1 i Hi) as Hnd. rewrite Hfl1 in Hnd. by apply list.NoDup_cons in Hnd as [? _].
  - eapply wp_mono; [apply (kmalloc_pop heap_alloc_4k s fl i size p l Hok Hslab Hi Hfl)|].
    cbn. intros r s' (-> & Hok' & _ & Hb & Hh). exists l. split; [done|]. split; [|split; [|done]].
    + apply (object_frame s); [done|]. apply (so_objects _ _ Hok); [done|]. rewrite Hfl. left.
    + pose proof (so_nodup _ _ Hok i Hi) as Hnd. rewrite Hfl in Hnd. by apply list.NoDup_cons in Hnd as [? _].
Qed.

(** C20: a request of 1 to 4096 bytes is served from the smallest cache that
    fits (of those of at least 16 bytes), by an object of that cache's page
    that no free list holds afterwards; the caches stay well formed. *)
Theorem slub_malloc_correct s fl size :
  slub_ok s fl -> 0 < size <= 4096 ->
  (forall i, kmalloc_slab size = Slab i -> fl i = [] -> page_available s fl) ->
  exists i p s' l,
    slub_malloc heap_alloc_4k size s = Done (p, s') /\
    slub_ok s' (fl_set i l fl) /\ object s' i p /\ size <= cache_size i /\
    (forall j, j ∈ object_caches -> size <= cache_size j -> 16 <= cache_size j ->
       cache_size i <= cache_size j) /\
    (forall j, j ∈ object_caches -> p ∉ fl_set i l fl j).
Proof.
  intros Hok Hsz Hav. destruct (kmalloc_slab_fits size Hsz) as (i & Hslab & Hi & Hle & Hmin).
  pose proof (kmalloc_step s fl i size Hok Hslab Hi (Hav i Hslab)) as Hw.
  apply wp_run in Hw as (p & s' & Hrun & l & Hok' & Hob & Hnew & _).
  exists i, p, s', l. split; [|do 4 (split; [done|])].
  - unfold slub_malloc. change KMALLOC_MAX_CACHE_SIZE with 4096.
    by rewrite (proj2 (Z.ltb_ge 4096 size)) by lia.
  - intros j Hj. destruct (decide (j = i)) as [->|Hne].
    + unfold fl_set. by rewrite Nat.eqb_refl.
    + by apply (objects_disjoint s' _ i j).
Qed.

(** Objects of a power-of-two cache are aligned to its size. *)
Lemma object_aligned s i p :
  i ∈ object_caches -> i <> 1%nat -> i <> 2%nat -> object s i p ->
  Z.land p (cache_size i - 1) = 0.
Proof.
  intros Hi H1 H2 [_ _ (n & Hn & Hoff & _)].
  assert (exists k, cache_size i = 2 ^ k /\ 0 <= k <= 12) as (k & Hk & Hk12).
  { unfold object_caches in Hi. rewrite !elem_of_cons, elem_of_nil in Hi.
    destruct_or!; subst; try done; unfold cache_size, kmalloc_info; cbn [nth];
      [exists 3|exists 4|exists 5|exists 6|exists 7|exists 8|exists 9|exists 10|exists 11|exists 12];
      (split; [done|lia]). }
  rewrite Hk in *. rewrite land_low_mod by lia.
  assert (4096 = 2 ^ (12 - k) * 2 ^ k) as H4096 by (rewrite <- Z.pow_add_r by lia; by replace (12 - k + k) with 12 by lia).
  pose proof (Z.div_mod p 4096 ltac:(lia)) as Hd. rewrite Hoff in Hd.
  assert (p = (2 ^ (12 - k) * (p / 4096) + n) * 2 ^ k) as ->.
  { etransitivity; [exact Hd|]. rewrite H4096 at 1. ring. }
  apply Z.mod_mul. lia.
Qed.

(** Freeing an object of a power-of-two cache puts it back at the head:
    malloc, free and malloc again gives the same address, and every call
    returns with well-formed caches. *)
Theorem slub_malloc_free_malloc s fl size :
  slub_ok s fl -> 0 < size <= 4096 ->
  kmalloc_slab size <> Slab 1 -> kmalloc_slab size <> Slab 2 ->
  (forall i, kmalloc_slab size = Slab i -> fl i = [] -> page_available s fl) ->
  exists i p s1 s2 s3 l,
    slub_malloc heap_alloc_4k size s = Done (p, s1) /\
    slub_mfree heap_free_4k p s1 = Done (tt, s2) /\
    slub_malloc heap_alloc_4k size s2 = Done (p, s3) /\
    slub_ok s2 (fl_set i (p :: l) fl) /\ slub_ok s3 (fl_set i l fl) /\
    heap s3 = heap s1 /\ (fl i <> [] -> fl i = p :: l).
Proof.
  intros Hok Hsz H1 H2 Hav. destruct (kmalloc_slab_fits size Hsz) as (i & Hslab & Hi & Hle & Hmin).
  assert (Hm : forall t, slub_malloc heap_alloc_4k size t = __kmalloc heap_alloc_4k size t).
  { intros t. unfold slub_malloc. change KMALLOC_MAX_CACHE_SIZE with 4096.
    by rewrite (proj2 (Z.ltb_ge 4096 size)) by lia. }
  pose proof (kmalloc_step s fl i size Hok Hslab Hi (Hav i Hslab)) as Hw.
  apply wp_run in Hw as (p & s1 & Hrun & l & Hok1 & Hob & Hnew & Hhd).
  assert (Hfl1 : fl_set i l fl i = l) by (unfold fl_set; by rewrite Nat.eqb_refl).
  assert (Hal : Z.land p (cache_size i - 1) = 0).
  { apply (object_aligned s1); try done; intros ->; congruence. }
  pose proof (kmfree_push heap_free_4k s1 _ i p Hok1 Hi Hob ltac:(by rewrite Hfl1) Hal
    ltac:(intros j Hj Hne; by apply (objects_disjoint s1 _ i j))) as Hf.
  apply wp_run in Hf as ([] & s2 & Hrun2 & Hok2 & Hb2 & Hh2). rewrite Hfl1 in Hok2.
  pose proof (kmalloc_pop heap_alloc_4k s2 _ i size p l Hok2 Hslab Hi
    ltac:(unfold fl_set; by rewrite Nat.eqb_refl)) as Hp.
  apply wp_run in Hp as (r & s3 & Hrun3 & -> & Hok3 & _ & _ & Hh3).
  exists i, p, s1, s2, s3, l. rewrite !Hm. split; [done|]. split; [done|]. split; [done|].
  split; [|split; [|split; [by rewrite Hh3, Hh2|]]].
  - by apply (fl_set_twice s2 fl i l (p :: l)).
  - by apply (fl_set_twice s3 fl i l l), (fl_set_twice s3 (fl_set i l fl) i (p :: l) l).
  - intros Hne. by apply Hhd.
Qed.
End properties.

(** ** Large blocks *)
Section large.
Context {H : Type} (heap_alloc_4k : Z -> M H Z) (heap_free_4k : Z -> Z -> M H unit).
Implicit Types (s : slub H).

(** Slots of the caches of 96 and 192 bytes whose address passes the mask test
    [p & (size - 1)] of [__kmfree]. *)
Definition slot_passes (n : Z) : bool := (n mod 4 =? 0) || (n mod 4 =? 3).

Lemma slots_masked :
  forallb (fun n => Bool.eqb (Z.land (n * 96) 95 =? 0) (slot_passes n)) (seqZ 0 43) = true /\
  forallb (fun n => Bool.eqb (Z.land (n * 192) 191 =? 0) (slot_passes n)) (seqZ 0 22) = true.
Proof. split; vm_compute; reflexivity. Qed.

Lemma object_slot_masked s i p :
  i = 1%nat \/ i = 2%nat -> object s i p ->
  (Z.land p (cache_size i - 1) =? 0) = slot_passes (p mod 4096 / cache_size i).
Proof.
  intros Hi [_ _ (n & Hn & Hoff & Hfit)].
  assert (Hland : Z.land p (cache_size i - 1) = Z.land (p mod 4096) (cache_size i - 1)).
  { change 4096 with (2 ^ 12). rewrite <- land_low_mod, <- Z.land_assoc by lia. f_equal.
    by destruct Hi as [-> | ->]. }
  rewrite Hland, Hoff. destruct slots_masked as [H96 H192]. rewrite !forallb_forall in *.
  destruct Hi as [-> | ->]; unfold cache_size, kmalloc_info in *; cbn [nth] in *;
    rewrite Z.div_mul by lia; apply eqb_prop; [apply H96|apply H192];
    apply list_elem_of_In, elem_of_seqZ; lia.
Qed.

(** Freeing an object of the caches of 96 and 192 bytes: the mask test
    of line 308 takes the size for a power of two, so that the objects in
    slots 1 and 2 modulo 4 of their page panic the kernel and only the others
    go back to the free list. *)
Theorem slub_free_odd_sizes s fl i p :
  slub_ok s fl -> i = 1%nat \/ i = 2%nat -> object s i p -> p ∉ fl i ->
  if slot_passes (p mod 4096 / cache_size i)
  then exists s', slub_mfree heap_free_4k p s = Done (tt, s') /\ slub_ok s' (fl_set i (p :: fl i) fl)
  else slub_mfree heap_free_4k p s = Panic.
Proof.
  intros Hok Hi Hob Hnew. pose proof (object_slot_masked s i p Hi Hob) as Hmask.
  assert (i ∈ object_caches) as Hic by (unfold object_caches; rewrite !elem_of_cons; lia).
  destruct (slot_passes _); [apply Z.eqb_eq in Hmask|].
  - pose proof (kmfree_push heap_free_4k s fl i p Hok Hic Hob Hnew Hmask
      ltac:(intros j Hj Hne; by apply (objects_disjoint s fl i j))) as Hf.
    apply wp_run in Hf as ([] & s' & Hrun & Hok' & _). by exists s'.
  - destruct (so_cache _ _ Hok _ Hic) as (c & Hc & Hidx & Hsize & _).
    pose proof Hob as [Hr Ht _]. pose proof (direct_map_bounds _ Hr) as Hb.
    assert (wp (get_idx_from_addr p) s (fun j s' => j = i /\ s' = s)) as Hw.
    { eapply wp_get_idx; [done|exact Ht|]. by rewrite Nat2Z.id. }
    apply wp_run in Hw as (j & s' & Hrun & -> & ->).
    assert (PHYS_VIRT_START = 0xFFFF820000000000) as Hpvs by done.
    unfold slub_mfree, __kmfree. rewrite (proj2 (Z.eqb_neq p ZERO_SIZE_PTR)) by (unfold ZERO_SIZE_PTR; lia).
    rewrite Hr. unfold bind at 1. cbn [kassert ret]. unfold bind at 1. rewrite Hrun.
    unfold cache, bind, gets, deref_opt. rewrite Hc. unfold ret. rewrite Hidx, Hsize, Hmask.
    by destruct Hi as [-> | ->].
Qed.

(** ** Tags of consecutive pages *)

(** Page number [n] carries tag [t]. *)
Definition page_tag s (n : Z) : option Z :=
  b ← page_bits s !! Z.to_nat (n / 2);
  Some (if Z.land n 1 =? 0 then Z.land b 15 else Z.land (Z.shiftr b 4) 15).

Lemma tag_page s a : tag s a = page_tag s (page_no a).
Proof. done. Qed.

Lemma page_no_add a k : page_no (a + k * 4096) = page_no a + k.
Proof. unfold page_no. replace (a + k * 4096 - PHYS_VIRT_START) with (a - PHYS_VIRT_START + k * 4096) by lia.
  by rewrite Z.div_add by lia. Qed.

Lemma wp_read_bits s n t Q : page_tag s n = Some t -> Q t s -> wp (read_bits n) s Q.
Proof.
  unfold page_tag, read_bits. intros Ht HQ. wp_steps.
  destruct (page_bits s !! _) as [b|]; [|done]. cbn in Ht. injection Ht as <-.
  eapply wp_deref_opt; [reflexivity|]. by wp_steps.
Qed.

(** [n] pages from [a] marked as the continuation of a block. *)
Lemma mark_next_ok (n : nat) fuel a s :
  PHYS_VIRT_START <= a -> a + Z.of_nat n * 4096 <= PHYS_VIRT_END -> (n <= fuel)%nat ->
  (Z.to_nat ((page_no a + Z.of_nat n) / 2) < length (page_bits s))%nat ->
  wp (mark_next fuel a (a + Z.of_nat n * 4096)) s (fun _ s' => exists l',
    s' = set_bits l' s /\ length l' = length (page_bits s) /\
    forall x, PHYS_VIRT_START <= x -> tag s' x =
      if (page_no a <=? page_no x) && (page_no x <? page_no a + Z.of_nat n) then Some 14 else tag s x).
Proof.
  revert fuel a s. induction n as [|n IH]; intros fuel a s Ha1 Ha2 Hfuel Hlen.
  - destruct fuel; cbn [mark_next]; rewrite (proj2 (Z.ltb_ge _ _)) by lia; apply wp_ret;
      exists (page_bits s); (split; [by destruct s|]); (split; [done|]); intros x Hx;
      destruct (Z.leb_spec (page_no a) (page_no x)), (Z.ltb_spec (page_no x) (page_no a + Z.of_nat 0));
      cbn; done || lia.
  - destruct fuel as [|fuel]; [lia|]. cbn [mark_next]. rewrite (proj2 (Z.ltb_lt _ _)) by lia. wp_steps.
    assert (0 <= page_no a) by (apply Z.div_pos; lia).
    apply wp_set_idx; [lia|unfold LARGE_NEXT; lia| |].
    { eapply Nat.le_lt_trans; [|exact Hlen]. apply Z2Nat.inj_le; [apply Z.div_pos; lia|apply Z.div_pos; lia|].
      apply Z.div_le_mono; lia. }
    intros l1 Hl1 Htag1.
    pose proof (page_no_add a 1) as Hnext. rewrite Z.mul_1_l in Hnext.
    replace (a + Z.of_nat (S n) * 4096) with (a + PAGE_4K_SIZE + Z.of_nat n * 4096) by (unfold PAGE_4K_SIZE; lia).
    unfold PAGE_4K_SIZE in *. eapply wp_mono.
    { apply (IH fuel (a + 4096)); [lia|lia|lia|]. cbn. rewrite Hnext, Hl1. by replace (page_no a + 1 + Z.of_nat n) with (page_no a + Z.of_nat (S n)) by lia. }
    cbn. intros _ s' (l2 & -> & Hl2 & Htag2). exists l2. split; [done|]. split; [by rewrite Hl2|].
    intros x Hx. rewrite Htag2, Htag1 by done. rewrite Hnext.
    destruct (Z.leb_spec (page_no a + 1) (page_no x)), (Z.ltb_spec (page_no x) (page_no a + 1 + Z.of_nat n)),
      (Z.eqb_spec (page_no x) (page_no a)), (Z.leb_spec (page_no a) (page_no x)),
      (Z.ltb_spec (page_no x) (page_no a + Z.of_nat (S n))); cbn; try done; lia.
Qed.

(** The free of a large block measures it by its tags. *)
Lemma large_size_ok s (n : nat) fuel o size :
  (n < fuel)%nat ->
  (forall k, 0 < k <= Z.of_nat n -> page_tag s (o + k) = Some 14) ->
  (exists t, page_tag s (o + Z.of_nat n + 1) = Some t /\ t <> 14) ->
  (forall m t, page_tag s m = Some t -> 0 <= t) ->
  wp (large_size fuel o size) s (fun r s' => r = size + (Z.of_nat n + 1) * 4096 /\ s' = s).
Proof.
  intros Hfuel Hin (t & Ht & Hne) Hpos. revert fuel o size Hfuel Hin Ht.
  induction n as [|n IH]; intros fuel o size Hfuel Hin Ht; (destruct fuel as [|fuel]; [lia|]); cbn [large_size];
    wp_steps.
  - eapply wp_read_bits; [by replace (o + 1) with (o + Z.of_nat 0 + 1) by lia|].
    pose proof (Hpos _ _ Ht). rewrite (proj2 (Nat.eqb_neq _ _)) by (unfold LARGE_NEXT; lia).
    wp_steps. unfold PAGE_4K_SIZE. split; [lia|done].
  - eapply wp_read_bits; [apply Hin; lia|]. cbn [Nat.eqb LARGE_NEXT Z.to_nat].
    change (Nat.eqb (Z.to_nat 14) LARGE_NEXT) with true. cbn iota.
    eapply wp_mono; [apply IH; [lia| |]|].
    + intros k Hk. replace (o + 1 + k) with (o + (k + 1)) by lia. apply Hin. lia.
    + by replace (o + 1 + Z.of_nat n + 1) with (o + Z.of_nat (S n) + 1) by lia.
    + cbn. intros r s' [-> ->]. split; [unfold PAGE_4K_SIZE; lia|done].
Qed.

Lemma page_tag_range s m t : page_tag s m = Some t -> 0 <= t < 16.
Proof.
  unfold page_tag. destruct (page_bits s !! _) as [b|]; [|done]. cbn. intros [= <-].
  change 15 with (2 ^ 4 - 1). destruct (_ =? 0); rewrite land_low_mod by lia; apply Z.mod_pos_bound; lia.
Qed.
End large.

Section large_properties.
Context {H : Type} (heap_alloc_4k : Z -> M H Z) (heap_free_4k : Z -> Z -> M H unit).
Implicit Types (s : slub H).

Definition pages_of (size : Z) : Z := (size + 4095) / 4096.

Lemma newsize_eq size :
  0 <= size -> size + 4095 < 2 ^ 64 ->
  Z.land (wrap64 (size + PAGE_4K_MASK)) (lnot64 PAGE_4K_MASK) = pages_of size * 4096.
Proof.
  intros H1 H2. unfold PAGE_4K_MASK. rewrite wrap64_small by lia.
  change 4095 with (2 ^ 12 - 1) at 2. rewrite land_high by lia. change (2 ^ 12) with 4096.
  unfold pages_of. pose proof (Z.div_mod (size + 4095) 4096). lia.
Qed.

(** The block [a .. a + size) can be taken: inside the direct map and the tag
    table, and on no page of a cache. *)
Record block_fits s (fl : nat -> list Z) (a n : Z) : Prop := {
  bf_low : PHYS_VIRT_START < a;
  bf_high : a + n * 4096 <= PHYS_VIRT_END;
  bf_table : (Z.to_nat ((page_no a + n) / 2) < length (page_bits s))%nat;
  bf_fresh : forall j p, j ∈ object_caches -> p ∈ fl j ->
    ~ page_no a <= page_no p < page_no a + n
}.

(** Tagging a block: LARGE_IDX on its first page, LARGE_NEXT on the others. *)
Lemma kmalloc_large_ok s fl size a h' :
  slub_ok s fl -> 4096 < size -> size + 4095 < 2 ^ 64 ->
  heap_alloc_4k (pages_of size * 4096) (heap s) = Done (a, h') ->
  block_fits s fl a (pages_of size) ->
  wp (slub_malloc heap_alloc_4k size) s (fun r s' =>
    r = a /\ slub_ok s' fl /\ heap s' = h' /\ caches s' = caches s /\
    length (page_bits s') = length (page_bits s) /\
    forall x, PHYS_VIRT_START <= x -> tag s' x =
      if page_no x =? page_no a then Some 15
      else if (page_no a <? page_no x) && (page_no x <? page_no a + pages_of size) then Some 14
      else tag s x).
Proof.
  intros Hok Hsz Hmax Halloc [Hlow Hhigh Htab Hfresh].
  assert (PHYS_VIRT_START = 0xFFFF820000000000) as Hpvs by done.
  assert (1 <= page_no a + 1) as Hpa by (unfold page_no; pose proof (Z.div_pos (a - PHYS_VIRT_START) 4096); lia).
  assert (2 <= pages_of size) as Hn by (unfold pages_of; apply Z.div_le_lower_bound; lia).
  unfold slub_malloc. change KMALLOC_MAX_CACHE_SIZE with 4096.
  rewrite (proj2 (Z.ltb_lt 4096 size)) by lia. unfold __kmalloc_large.
  rewrite newsize_eq by lia. unfold on_heap. wp_steps. unfold wp at 1. rewrite Halloc.
  rewrite (proj2 (Z.eqb_neq a 0)) by lia. wp_steps.
  set (n := pages_of size) in *.
  apply wp_set_idx; [lia|unfold LARGE_IDX; lia| |].
  { cbn. eapply Nat.le_lt_trans; [|exact Htab]. apply Z2Nat.inj_le;
      [apply Z.div_pos; lia|apply Z.div_pos; lia|apply Z.div_le_mono; lia]. }
  cbn [page_bits set_heap]. intros l1 Hl1 Htag1.
  pose proof (page_no_add a 1) as Hnext. rewrite Z.mul_1_l in Hnext.
  pose proof (mark_next_ok (Z.to_nat (n - 1)) (Z.to_nat (n * 4096 / 4096)) (a + 4096)
    (set_bits l1 (set_heap h' s))) as Hm.
  rewrite Z.div_mul in * by lia. rewrite !Z2Nat.id in Hm by lia.
  replace (a + 4096 + (n - 1) * 4096) with (a + n * 4096) in Hm by lia.
  unfold PAGE_4K_SIZE. apply wp_bind. eapply wp_mono.
  { apply Hm; [lia|lia|lia|]. cbn. rewrite Hnext, Hl1.
    by replace (page_no a + 1 + (n - 1)) with (page_no a + n) by lia. }
  cbn. intros _ s' (l2 & -> & Hl2 & Htag2). wp_steps. cbn in Hl2.
  assert (Htags : forall x, PHYS_VIRT_START <= x -> tag (set_bits l2 (set_bits l1 (set_heap h' s))) x =
      if page_no x =? page_no a then Some 15
      else if (page_no a <? page_no x) && (page_no x <? page_no a + n) then Some 14
      else tag s x).
  { intros x Hx. rewrite Htag2, Htag1 by done. rewrite Hnext.
    destruct (Z.leb_spec (page_no a + 1) (page_no x)), (Z.ltb_spec (page_no x) (page_no a + 1 + (n - 1))),
      (Z.eqb_spec (page_no x) (page_no a)), (Z.ltb_spec (page_no a) (page_no x)),
      (Z.ltb_spec (page_no x) (page_no a + n)); cbn; try done; lia. }
  split; [done|]. split; [|split; [done|split; [done|split; [by rewrite <- Hl1|exact Htags]]]].
  destruct Hok as [H1 H2 H3 H4]. split; [done|done| |done].
  intros j p Hj Hp. destruct (H3 j p Hj Hp) as [Hr Ht Ho]. split; [done| |done].
  pose proof (direct_map_bounds _ Hr) as Hb. pose proof (Hfresh j p Hj Hp) as Hf.
  rewrite Htags by lia.
  destruct (Z.eqb_spec (page_no p) (page_no a)), (Z.ltb_spec (page_no a) (page_no p)),
    (Z.ltb_spec (page_no p) (page_no a + n)); cbn; try done; lia.
Qed.

(** A request above 4096 bytes gets the heap's block, tagged so that the
    matching free hands the heap the same address and the same size, as long
    as the page after the block does not carry the tag of a continuation. *)
Theorem slub_large_roundtrip s fl size a h' c t :
  slub_ok s fl -> 4096 < size -> size + 4095 < 2 ^ 64 ->
  heap_alloc_4k (pages_of size * 4096) (heap s) = Done (a, h') ->
  block_fits s fl a (pages_of size) ->
  caches s !! LARGE_IDX = Some c -> c_idx c = LARGE_IDX ->
  page_tag s (page_no a + pages_of size) = Some t -> t <> 14 ->
  exists s1,
    slub_malloc heap_alloc_4k size s = Done (a, s1) /\ slub_ok s1 fl /\ heap s1 = h' /\
    slub_mfree heap_free_4k a s1 = on_heap (heap_free_4k a (pages_of size * 4096)) s1.
Proof.
  intros Hok Hsz Hmax Halloc Hfits Hc Hidx Ht Hne.
  pose proof (kmalloc_large_ok s fl size a h' Hok Hsz Hmax Halloc Hfits) as Hw.
  apply wp_run in Hw as (r & s1 & Hrun & -> & Hok1 & Hh1 & Hcs & Hl1 & Htags).
  exists s1. split; [done|]. split; [done|]. split; [done|].
  destruct Hfits as [Hlow Hhigh Htab _]. set (n := pages_of size) in *.
  assert (2 <= n) as Hn by (unfold n, pages_of; apply Z.div_le_lower_bound; lia).
  assert (Hdm : in_direct_map a = true) by (apply andb_true_intro; split; apply Z.ltb_lt; lia).
  assert (PHYS_VIRT_START = 0xFFFF820000000000) as Hpvs by done.
  assert (Htag : forall k, 0 <= k <= n -> page_tag s1 (page_no a + k) =
    if k =? 0 then Some 15 else if k <? n then Some 14 else page_tag s (page_no a + k)).
  { intros k Hk. rewrite <- !page_no_add, <- !tag_page, Htags by lia. rewrite page_no_add.
    destruct (Z.eqb_spec (page_no a + k) (page_no a)), (Z.eqb_spec k 0), (Z.ltb_spec (page_no a) (page_no a + k)),
      (Z.ltb_spec (page_no a + k) (page_no a + n)), (Z.ltb_spec k n); cbn; done || lia. }
  assert (wp (get_idx_from_addr a) s1 (fun i s' => i = LARGE_IDX /\ s' = s1)) as Hg.
  { apply (wp_get_idx _ _ 15); [done| |by split]. rewrite tag_page, <- (Z.add_0_r (page_no a)), Htag by lia. done. }
  apply wp_run in Hg as (i & s' & Hrun1 & -> & ->).
  assert (wp (page_offset a) s1 (fun o s' => o = page_no a /\ s' = s1)) as Hp.
  { apply wp_page_offset; [lia|by split]. }
  apply wp_run in Hp as (o & s' & Hrun2 & -> & ->).
  assert (wp (large_size (S (2 * length (page_bits s1))) (page_no a) 0) s1
            (fun r s' => r = n * 4096 /\ s' = s1)) as Hl.
  { assert (0 <= page_no a) by (apply Z.div_pos; lia).
    eapply wp_mono; [apply (large_size_ok s1 (Z.to_nat (n - 1)))|].
    - rewrite Hl1. pose proof (Z.div_mod (page_no a + n) 2). pose proof (Z.mod_pos_bound (page_no a + n) 2). lia.
    - intros k Hk. rewrite Htag by lia. rewrite (proj2 (Z.eqb_neq k 0)), (proj2 (Z.ltb_lt k n)) by lia. done.
    - exists t. split; [|done]. replace (page_no a + Z.of_nat (Z.to_nat (n - 1)) + 1) with (page_no a + n) by lia.
      rewrite Htag by lia. rewrite (proj2 (Z.eqb_neq n 0)), (proj2 (Z.ltb_ge n n)) by lia. exact Ht.
    - intros m u Hu. apply page_tag_range in Hu. lia.
    - cbn. intros r s' [-> ->]. split; [lia|done]. }
  apply wp_run in Hl as (z & s' & Hrun3 & -> & ->).
  unfold slub_mfree, __kmfree. rewrite (proj2 (Z.eqb_neq a ZERO_SIZE_PTR)) by (unfold ZERO_SIZE_PTR; lia).
  rewrite Hdm. unfold bind at 1. cbn [kassert ret]. unfold bind at 1. rewrite Hrun1.
  unfold cache, bind, gets, deref_opt. rewrite Hcs, Hc. unfold ret. rewrite Hidx, Nat.eqb_refl.
  rewrite Hrun2, Hrun3. done.
Qed.
End large_properties.

(** The lookup table of [kmalloc_slab] agrees with the comparison cascade of
    [kmalloc_index] on every size up to the maximum of 8M, except for requests of
    1 to 8 bytes: the table sends them to the 16-byte cache, so the 8-byte one
    is never used. *)
Theorem kmalloc_slab_index size :
  0 <= size <= KMALLOC_MAX_SIZE ->
  kmalloc_slab size =
    if (0 <? size) && (size <=? 8) then Slab 4 else slab_of_index size.
Proof.
  intros Hs. change KMALLOC_MAX_SIZE with 8388608 in Hs.
  destruct (decide (size <= 256)).
  - pose proof index_table_small as Hall. rewrite forallb_forall in Hall.
    destruct (Z.ltb_spec 0 size), (Z.leb_spec size 8); cbn [andb].
    + assert (size = 1 \/ size = 2 \/ size = 3 \/ size = 4 \/ size = 5 \/ size = 6 \/ size = 7 \/ size = 8)
        as Hc by lia. by destruct_or!; subst.
    + eapply bool_decide_eq_true_1, Hall. right. apply list_elem_of_In, elem_of_seqZ. lia.
    + eapply bool_decide_eq_true_1, Hall. left. lia.
    + lia.
  - rewrite (proj2 (Z.leb_gt size 8)), andb_false_r by lia. unfold slab_of_index, kmalloc_index.
    rewrite (proj2 (Z.eqb_neq size 0)), !(proj2 (Z.leb_gt size _)) by lia. rewrite !andb_false_r.
    repeat match goal with
    | |- context [size <=? ?b] =>
        destruct (Z.leb_spec size b);
          [first [apply (kmalloc_slab_bits size 8)|apply (kmalloc_slab_bits size 9)
                 |apply (kmalloc_slab_bits size 10)|apply (kmalloc_slab_bits size 11)
                 |apply (kmalloc_slab_bits size 12)|apply (kmalloc_slab_bits size 13)
                 |apply (kmalloc_slab_bits size 14)|apply (kmalloc_slab_bits size 15)
                 |apply (kmalloc_slab_bits size 16)|apply (kmalloc_slab_bits size 17)
                 |apply (kmalloc_slab_bits size 18)|apply (kmalloc_slab_bits size 19)
                 |apply (kmalloc_slab_bits size 20)|apply (kmalloc_slab_bits size 21)
                 |apply (kmalloc_slab_bits size 22)]; lia|]
    end. lia.
Qed.

Lemma kmalloc_slab_index_witness : kmalloc_slab 5000 = Slab 13.
Proof. rewrite (kmalloc_slab_index 5000); [reflexivity|split; [lia|vm_compute; discriminate]]. Defined.

(** ** Boot *)
Section boot.
Context {H : Type} (heap_alloc_4k : Z -> M H Z).
Implicit Types (s : slub H).

(** After the boot-processor and the per-CPU initialisation every cache is
    empty and no page is tagged. *)
Lemma init_slub_ok s maxaddr a h' :
  length (caches s) = 16%nat -> heap_alloc_4k (page_bits_size maxaddr) (heap s) = Done (a, h') ->
  wp (init_slub_bp heap_alloc_4k maxaddr ;;; init_slub_ap) s (fun _ s' =>
    slub_ok s' (fun _ => []) /\ caches s' !! LARGE_IDX = Some (KmemCache LARGE_IDX 32768 0) /\
    page_bits s' = replicate (Z.to_nat (page_bits_size maxaddr)) 0 /\ heap s' = h').
Proof.
  destruct s as [l b m h ok]. cbn. intros Hlen Halloc.
  do 16 (destruct l as [|? l]; [discriminate Hlen|]). destruct l; [|discriminate Hlen].
  unfold init_slub_bp, on_heap. wp_steps. unfold wp at 1. cbn [heap]. rewrite Halloc. wp_steps.
  unfold init_slub_ap. wp_steps. unfold set_heap, set_bits. cbn.
  set (bits := replicate _ 0). unfold wp. cbn. split; [|done].
  split; cbn; [done| |by intros i p _ ?%not_elem_of_nil|by intros i _; constructor].
  intros i Hi. unfold object_caches in Hi. rewrite !elem_of_cons, elem_of_nil in Hi.
  destruct_or!; subst; try done; by eexists.
Qed.
End boot.

(** A heap that hands out consecutive blocks and records what it gets back. *)
Definition bump : Type := Z * list (Z * Z).
Definition bump_alloc (size : Z) : M bump Z :=
  h <- gets (fun h => h) ;; modify (fun h => (fst h + size, snd h)) ;;; ret (fst h).
Definition bump_free (p size : Z) : M bump unit := modify (fun h => (fst h, (p, size) :: snd h)).

(** The allocator booted with 16M of memory over such a heap. *)
Definition unbooted : slub bump :=
  Slub (replicate 16 (KmemCache 0 0 0)) [] (fun _ => 0) (PHYS_VIRT_START + 0x100000, []) false.
Definition booted : M (slub bump) unit := init_slub_bp bump_alloc 0x1000000 ;;; init_slub_ap.

Lemma booted_ok : exists s,
  booted unbooted = Done (tt, s) /\ slub_ok s (fun _ => []) /\
  page_available bump_alloc s (fun _ => []) /\
  caches s !! LARGE_IDX = Some (KmemCache LARGE_IDX 32768 0) /\ page_bits s = replicate 4096 0 /\
  heap s = (PHYS_VIRT_START + 0x101000, []).
Proof.
  pose proof (init_slub_ok bump_alloc unbooted 0x1000000 (PHYS_VIRT_START + 0x100000)
    (PHYS_VIRT_START + 0x101000, []) eq_refl eq_refl) as Hw.
  apply wp_run in Hw as ([] & s & Hrun & Hok & Hc & Hb & Hh).
  exists s. split; [done|]. split; [done|]. split; [|split; [done|split; [exact Hb|done]]].
  exists (PHYS_VIRT_START + 0x101000), (PHYS_VIRT_START + 0x102000, []).
  rewrite Hh. split; [done|]. split; [done|]. split; [done|]. split; [done|].
  split; [rewrite Hb, length_replicate; vm_compute; lia|by intros j p _ ?%not_elem_of_nil].
Qed.

Lemma slub_malloc_correct_witness : exists s i p s' l,
  booted unbooted = Done (tt, s) /\ slub_malloc bump_alloc 100 s = Done (p, s') /\
  slub_ok s' (fl_set i l (fun _ => [])) /\ object s' i p /\ 100 <= cache_size i.
Proof.
  destruct booted_ok as (s & Hrun & Hok & Hav & _).
  destruct (slub_malloc_correct bump_alloc s (fun _ => []) 100 Hok) as (i & p & s' & l & Hm & Hok' & Hob & Hle & _).
  - lia.
  - intros i _ _. exact Hav.
  - exists s, i, p, s', l. split; [exact Hrun|]. split; [exact Hm|]. split; [exact Hok'|]. split; [exact Hob|exact Hle].
Defined.

Lemma slub_malloc_free_malloc_witness : exists s p s1 s2 s3,
  booted unbooted = Done (tt, s) /\ slub_malloc bump_alloc 100 s = Done (p, s1) /\
  slub_mfree bump_free p s1 = Done (tt, s2) /\ slub_malloc bump_alloc 100 s2 = Done (p, s3).
Proof.
  destruct booted_ok as (s & Hrun & Hok & Hav & _).
  destruct (slub_malloc_free_malloc bump_alloc bump_free s (fun _ => []) 100 Hok)
    as (i & p & s1 & s2 & s3 & l & Hm & Hf & Hm2 & _).
  - lia.
  - discriminate.
  - discriminate.
  - intros i _ _. exact Hav.
  - exists s, p, s1, s2, s3. split; [exact Hrun|]. split; [exact Hm|]. split; [exact Hf|exact Hm2].
Defined.

(** The first page of the 96-byte cache, its first two objects taken. *)
Lemma two_objects_taken : exists (s : slub bump) fl,
  slub_ok s fl /\ object s 1%nat (PHYS_VIRT_START + 0x101060) /\ (PHYS_VIRT_START + 0x101060 ∉ fl 1%nat).
Proof.
  destruct booted_ok as (s & Hrun & Hok & (a & h' & Ha & Ha1 & Ha2 & Ham & Hlen & Hfresh) & _ & _ & Hh).
  assert (a = PHYS_VIRT_START + 0x101000) as Hae by (rewrite Hh in Ha; by injection Ha as <- _).
  assert (1%nat ∈ object_caches) as H1 by (unfold object_caches; left).
  pose proof (slub_add_page_ok bump_alloc s _ 1 a h' Hok H1 eq_refl Ha Ha1 Ha2 Ham Hlen Hfresh) as Hw.
  assert (exists l, objects_of (cache_size 1) a = a :: PHYS_VIRT_START + 0x101060 :: l) as [l Hl].
  { rewrite Hae. eexists. vm_compute. reflexivity. }
  rewrite Hl in Hw. apply wp_run in Hw as (r & s1 & _ & _ & Hok1 & _).
  pose proof (kmalloc_pop bump_alloc s1 _ 1 90 a _ Hok1 eq_refl H1 eq_refl) as Hw.
  apply wp_run in Hw as (r2 & s2 & _ & _ & Hok2 & _ & Hb2 & _). apply fl_set_twice in Hok2.
  pose proof (kmalloc_pop bump_alloc s2 _ 1 90 _ _ Hok2 eq_refl H1 eq_refl) as Hw.
  apply wp_run in Hw as (r3 & s3 & _ & _ & Hok3 & _ & Hb3 & _). apply fl_set_twice in Hok3.
  exists s3, (fl_set 1 l (fun _ => [])). split; [done|]. split.
  - apply (object_frame s2); [done|]. apply (so_objects _ _ Hok2); [done|]. unfold fl_set. cbn. left.
  - pose proof (so_nodup _ _ Hok2 1%nat H1) as Hnd. by apply list.NoDup_cons in Hnd as [Hn _].
Qed.

Lemma slub_free_odd_sizes_witness :
  exists (s : slub bump) p, object s 1%nat p /\ slub_mfree bump_free p s = Panic.
Proof.
  destruct two_objects_taken as (s & fl & Hok & Hob & Hn).
  pose proof (slub_free_odd_sizes bump_free s fl 1 _ Hok (or_introl eq_refl) Hob Hn) as Hf.
  exists s, (PHYS_VIRT_START + 0x101060). split; [exact Hob|exact Hf].
Defined.

Lemma slub_large_roundtrip_witness : exists s a s1,
  booted unbooted = Done (tt, s) /\ slub_malloc bump_alloc 5000 s = Done (a, s1) /\
  slub_mfree bump_free a s1 = on_heap (bump_free a 8192) s1.
Proof.
  destruct booted_ok as (s & Hrun & Hok & _ & Hc & Hb & Hh).
  destruct (slub_large_roundtrip bump_alloc bump_free s (fun _ => []) 5000 (PHYS_VIRT_START + 0x101000)
    (PHYS_VIRT_START + 0x103000, []) (KmemCache LARGE_IDX 32768 0) 0 Hok) as (s1 & Hm & _ & _ & Hf).
  - lia.
  - lia.
  - rewrite Hh. vm_compute. reflexivity.
  - split; [vm_compute; reflexivity|vm_compute; discriminate|rewrite Hb, length_replicate; vm_compute; lia|].
    intros j p _ Hp. by apply not_elem_of_nil in Hp.
  - exact Hc.
  - reflexivity.
  - unfold page_tag. rewrite Hb, lookup_replicate_2; [vm_compute; reflexivity|vm_compute; lia].
  - lia.
  - exists s, (PHYS_VIRT_START + 0x101000), s1. split; [exact Hrun|]. split; [exact Hm|exact Hf].
Defined.

(** A heap that reuses the first block it gets back. *)
Definition reuse_alloc (size : Z) : M bump Z :=
  h <- gets (fun h => h) ;;
  match snd h with
  | [] => bump_alloc size
  | (p, z) :: l => modify (fun h => (fst h, l)) ;;; ret p
  end.

(** Three pages, freed; two pages, which the heap places at the same address;
    the free of the two pages then hands three back. *)
Definition stale_tag_run : M (slub bump) (Z * Z * list (Z * Z)) :=
  init_slub_bp reuse_alloc 0x1000000 ;;; init_slub_ap ;;;
  p <- slub_malloc reuse_alloc 8193 ;;
  slub_mfree bump_free p ;;;
  q <- slub_malloc reuse_alloc 4097 ;;
  slub_mfree bump_free q ;;;
  h <- gets heap ;;
  ret (p, q, snd h).

(** The tags of a freed large block stay in the table; a smaller block
    placed at the same address is measured with them, so its free gives the heap
    back more than was allocated (12288 bytes for a block of 8192). *)
Theorem slub_stale_tags_overfree :
  match stale_tag_run unbooted with
  | Done ((p, q, freed), _) => p = q /\ freed = [(q, 12288)] /\ pages_of 4097 * 4096 = 8192
  | _ => False
  end.
Proof. vm_compute. done. Qed.
