(* ===== verification/VirtQueue.v ===== *)
(** * VirtQueue: the virtio split ring driver (libs/libvirtio/virtio.c)

    A queue is a table of descriptors; the free ones form a circular chain
    from [free_head] to [free_tail].  [virtio_to_queue] turns the first of
    them into a buffer chain and publishes its head in the available ring; the
    device answers through the used ring, which [virtio_read_queue] empties,
    giving every chain back to the tail of the free chain.  Memory barriers
    have no effect in this sequential model.  The device registers and the
    callbacks of the client are parameters. *)
From Stdlib Require Import ZArith Lia.
From stdpp Require Import base tactics list option sorting.
From S2P Require Import Prelude Pages.

Definition VRING_DESC_F_NEXT : Z := 1.
Definition VRING_DESC_F_WRITE : Z := 2.
Definition VRING_DESC_F_INDIRECT : Z := 4.
Definition VRING_AVAIL_F_NO_INTERRUPT : Z := 1.
Definition MAPVEC_NR : Z := 64.
Definition PAGE_SIZE_4K : Z := 0x1000.
Definition max_virtqueues_nr : Z := 64.
Definition EAGAIN : Z := 11.
Definition EINVAL : Z := 22.
Definition ENOMEM : Z := 12.
Definition VIRTIO_PCI_QUEUE_PFN : Z := 8.
Definition VIRTIO_PCI_QUEUE_NUM : Z := 12.
Definition VIRTIO_PCI_QUEUE_SEL : Z := 14.
Definition VIRTIO_PCI_QUEUE_NOTIFY : Z := 16.
Definition VIRTIO_PCI_STATUS : Z := 18.
Definition VIRTIO_PCI_ISR : Z := 19.
Definition VIRTIO_MSI_QUEUE_VECTOR : Z := 22.
Definition VIRTIO_PCI_HOST_FEATURES : Z := 0.
Definition VIRTIO_PCI_GUEST_FEATURES : Z := 4.
Definition VIRTIO_CONFIG_S_DRIVER_OK : Z := 4.

(** [struct vring_desc], [struct addr_size], [struct indirect_desc_table]. *)
Record vring_desc := Desc { d_addr : Z; d_len : Z; d_flags : Z; d_next : Z }.
Record addr_size := AddrSize { vp_addr : Z; vp_size : Z; vp_flags : Z }.
Record indirect_desc_table := Indirect {
  in_use : bool; descs : list vring_desc; i_paddr : Z; i_len : Z
}.

(** [struct vring]: what the driver and the device share. *)
Record vring := Vring {
  v_desc : list vring_desc;
  avail_flags : Z; avail_idx : Z; avail_ring : list Z; used_event : Z;
  used_idx : Z; used_ring : list (Z * Z)
}.
(** [struct virtio_queue]: the driver's side ([q_data] holds the callers'
    pointers, 0 for NULL). *)
Record virtio_queue := VQueue {
  q_vaddr : Z; q_paddr : Z; q_page : Z; q_num : Z; q_index : Z; q_ring_size : Z;
  last_used_idx : Z;
  free_num : Z; free_head : Z; free_tail : Z; last_used : Z;
  q_vring : vring; q_data : list Z
}.

Definition set_desc (l : list vring_desc) (v : vring) : vring :=
  Vring l (avail_flags v) (avail_idx v) (avail_ring v) (used_event v) (used_idx v) (used_ring v).
Definition set_avail_flags (f : Z) (v : vring) : vring :=
  Vring (v_desc v) f (avail_idx v) (avail_ring v) (used_event v) (used_idx v) (used_ring v).
Definition set_avail (i : Z) (l : list Z) (v : vring) : vring :=
  Vring (v_desc v) (avail_flags v) i l (used_event v) (used_idx v) (used_ring v).
Definition set_used_event (e : Z) (v : vring) : vring :=
  Vring (v_desc v) (avail_flags v) (avail_idx v) (avail_ring v) e (used_idx v) (used_ring v).
Definition set_used (i : Z) (l : list (Z * Z)) (v : vring) : vring :=
  Vring (v_desc v) (avail_flags v) (avail_idx v) (avail_ring v) (used_event v) i l.

Definition set_vring (v : vring) (q : virtio_queue) : virtio_queue :=
  VQueue (q_vaddr q) (q_paddr q) (q_page q) (q_num q) (q_index q) (q_ring_size q) (last_used_idx q)
    (free_num q) (free_head q) (free_tail q) (last_used q) v (q_data q).
Definition set_free (n h t : Z) (q : virtio_queue) : virtio_queue :=
  VQueue (q_vaddr q) (q_paddr q) (q_page q) (q_num q) (q_index q) (q_ring_size q) (last_used_idx q)
    n h t (last_used q) (q_vring q) (q_data q).
Definition set_last_used (n i : Z) (q : virtio_queue) : virtio_queue :=
  VQueue (q_vaddr q) (q_paddr q) (q_page q) (q_num q) (q_index q) (q_ring_size q) i
    (free_num q) (free_head q) (free_tail q) n (q_vring q) (q_data q).
Definition set_data (l : list Z) (q : virtio_queue) : virtio_queue :=
  VQueue (q_vaddr q) (q_paddr q) (q_page q) (q_num q) (q_index q) (q_ring_size q) (last_used_idx q)
    (free_num q) (free_head q) (free_tail q) (last_used q) (q_vring q) l.

(** ** One queue and the device's indirect tables *)
Record qctx := QCtx { vq : virtio_queue; ind : list indirect_desc_table }.

Definition on_vring (f : vring -> vring) : M qctx unit :=
  modify (fun s => QCtx (set_vring (f (q_vring (vq s))) (vq s)) (ind s)).
Definition on_vq (f : virtio_queue -> virtio_queue) : M qctx unit :=
  modify (fun s => QCtx (f (vq s)) (ind s)).
Definition get_vq {A} (f : virtio_queue -> A) : M qctx A := gets (fun s => f (vq s)).

Definition get_desc (i : Z) : M qctx vring_desc :=
  l <- get_vq (fun q => v_desc (q_vring q)) ;; deref_opt (l !! Z.to_nat i).
Definition put_desc (i : Z) (d : vring_desc) : M qctx unit :=
  on_vring (fun v => set_desc (<[Z.to_nat i := d]> (v_desc v)) v).
Definition flag (d : vring_desc) (f : Z) : bool := negb (Z.land (d_flags d) f =? 0).
Definition clear_flag (d : vring_desc) (f : Z) : vring_desc :=
  Desc (d_addr d) (d_len d) (Z.land (d_flags d) (Z.lxor f 65535)) (d_next d).
Definition with_next (d : vring_desc) (n : Z) : vring_desc := Desc (d_addr d) (d_len d) (d_flags d) n.
Definition with_flags (d : vring_desc) (f : Z) : vring_desc := Desc (d_addr d) (d_len d) f (d_next d).

(** [for (i = 0; i < dev->num_indirect; i++)] of [clear_indirect_table]: [None]
    when no table has the address, [Some None] when its [ASSERT(in_use)] fails. *)
Fixpoint release_table (addr : Z) (l : list indirect_desc_table) : option (option (list indirect_desc_table)) :=
  match l with
  | [] => None
  | t :: l' =>
      if i_paddr t =? addr then
        Some (if in_use t then Some (Indirect false (descs t) (i_paddr t) (i_len t) :: l') else None)
      else fmap (M := option) (fmap (M := option) (cons t)) (release_table addr l')
  end.
Definition clear_indirect_table (i : Z) : M qctx unit :=
  vd <- get_desc i ;;
  kassert (0 <? d_len vd) ;;;
  kassert (flag vd VRING_DESC_F_INDIRECT) ;;;
  put_desc i (Desc (d_addr vd) 0 (d_flags (clear_flag vd VRING_DESC_F_INDIRECT)) (d_next vd)) ;;;
  l <- gets ind ;;
  match release_table (d_addr vd) l with
  | Some (Some l') => modify (fun s => QCtx (vq s) l')
  | _ => panic
  end.

(** [use_vring_desc]: fills a descriptor, keeping its [next]. *)
Definition use_vring_desc (d : vring_desc) (b : addr_size) : vring_desc :=
  Desc (vp_addr b) (vp_size b)
    (if Z.land (vp_flags b) VRING_DESC_F_WRITE =? 0 then VRING_DESC_F_NEXT
     else Z.lor VRING_DESC_F_NEXT VRING_DESC_F_WRITE) (d_next d).

(** [for (i = q->free_head, count = 0; count < num; count++)] of
    [set_direct_descriptors]: the next index and the last descriptor used. *)
Fixpoint use_descs (bufs : list addr_size) (i : Z) (last : option Z) : M qctx (Z * option Z) :=
  match bufs with
  | [] => ret (i, last)
  | b :: bufs' =>
      vd <- get_desc i ;;
      kassert (flag vd VRING_DESC_F_NEXT) ;;;
      put_desc i (use_vring_desc vd b) ;;;
      use_descs bufs' (d_next vd) (Some i)
  end.
Definition set_direct_descriptors (bufs : list addr_size) : M qctx unit :=
  kassert (negb (Nat.eqb (length bufs) 0)) ;;;
  h <- get_vq free_head ;;
  r <- use_descs bufs h None ;;
  match snd r with
  | None => panic
  | Some last =>
      vd <- get_desc last ;;
      put_desc last (clear_flag vd VRING_DESC_F_NEXT) ;;;
      on_vq (fun q => set_free (wrap16 (free_num q - Z.of_nat (length bufs))) (fst r) (free_tail q) q)
  end.

(** The first unused indirect table, marked as used. *)
Fixpoint take_table (k : nat) (l : list indirect_desc_table) : option (nat * indirect_desc_table) :=
  match l with
  | [] => None
  | t :: l' => if in_use t then take_table (S k) l' else Some (k, t)
  end.
(** [ivd->next = i + 1] for every entry, the last one without the next flag. *)
Fixpoint fill_table (i : Z) (bufs : list addr_size) (l : list vring_desc) : list vring_desc :=
  match bufs, l with
  | [], _ => l
  | b :: bufs', d :: l' =>
      let d' := with_next (use_vring_desc d b) (i + 1) in
      match bufs' with
      | [] => clear_flag d' VRING_DESC_F_NEXT :: l'
      | _ => d' :: fill_table (i + 1) bufs' l'
      end
  | _, [] => []
  end.
Definition set_indirect_descriptors (bufs : list addr_size) : M qctx unit :=
  l <- gets ind ;;
  match take_table 0 l with
  | None => panic
  | Some (k, t) =>
      h <- get_vq free_head ;;
      vd <- get_desc h ;;
      put_desc h (Desc (i_paddr t) (wrap32 (Z.of_nat (length bufs) * 16)) VRING_DESC_F_INDIRECT (d_next vd)) ;;;
      (if Nat.leb (length bufs) (length (descs t)) then ret tt else fault) ;;;
      kassert (negb (Nat.eqb (length bufs) 0)) ;;;
      modify (fun s => QCtx (vq s)
        (<[k := Indirect true (fill_table 0 bufs (descs t)) (i_paddr t) (i_len t)]> (ind s))) ;;;
      on_vq (fun q => set_free (wrap16 (free_num q - 1)) (d_next vd) (free_tail q) q)
  end.

Definition virtio_queue_disable_intr : M qctx unit := on_vring (set_avail_flags VRING_AVAIL_F_NO_INTERRUPT).
Definition virtio_queue_enable_intr : M qctx unit := on_vring (set_avail_flags 0).

(** [x % q->num]: a queue of size 0 divides by zero. *)
Definition mod_num (x n : Z) : M qctx Z := if n =? 0 then fault else ret (x mod n).

(** [while (vd->flags & VRING_DESC_F_NEXT)] of [virtio_from_queue]: the last
    index of the chain and the count.  A chain visits a descriptor at most once
    unless it is circular, in which case the code loops for ever. *)
Fixpoint chain_end (fuel : nat) (idx count : Z) : M qctx (Z * Z) :=
  vd <- get_desc idx ;;
  if flag vd VRING_DESC_F_NEXT then
    match fuel with
    | O => out_of_fuel
    | S fuel' =>
        (if flag vd VRING_DESC_F_INDIRECT then clear_indirect_table idx else ret tt) ;;;
        vd' <- get_desc idx ;;
        chain_end fuel' (d_next vd') (count + 1)
    end
  else ret (idx, count).

(** The chain that starts at [idx] goes back to the free chain. *)
Definition free_chain (idx : Z) : M qctx unit :=
  tail <- get_vq free_tail ;;
  td <- get_desc tail ;;
  kassert (flag td VRING_DESC_F_NEXT) ;;;
  put_desc tail (with_next td idx) ;;;
  n <- get_vq q_num ;;
  r <- chain_end (Z.to_nat n) idx 0 ;;
  let idx' := fst r in
  let count := snd r + 1 in
  vd <- get_desc idx' ;;
  (if flag vd VRING_DESC_F_INDIRECT then clear_indirect_table idx' else ret tt) ;;;
  on_vq (fun q => set_free (free_num q) (free_head q) idx' q) ;;;
  vd' <- get_desc idx' ;;
  kassert (negb (flag vd' VRING_DESC_F_NEXT)) ;;;
  h <- get_vq free_head ;;
  put_desc idx' (Desc (d_addr vd') (d_len vd') VRING_DESC_F_NEXT h) ;;;
  on_vq (fun q => set_free (wrap16 (free_num q + count)) (free_head q) (free_tail q) q) ;;;
  fn <- get_vq free_num ;;
  kassert (fn <=? n).

(** [virtio_from_queue]: [None] for its -1. *)
Definition virtio_from_queue : M qctx (option (Z * Z)) :=
  n <- get_vq q_num ;;
  ui <- get_vq (fun q => used_idx (q_vring q)) ;;
  used <- mod_num ui n ;;
  lu <- get_vq last_used ;;
  if lu =? used then ret None
  else
    ring <- get_vq (fun q => used_ring (q_vring q)) ;;
    uel <- deref_opt (ring !! Z.to_nat lu) ;;
    lu' <- mod_num (lu + 1) n ;;
    on_vq (fun q => set_last_used lu' (last_used_idx q) q) ;;;
    idx <- mod_num (fst uel) n ;;
    dl <- get_vq q_data ;;
    p <- deref_opt (dl !! Z.to_nat idx) ;;
    kassert (negb (p =? 0)) ;;;
    free_chain idx ;;;
    data <- deref_opt (dl !! Z.to_nat (fst uel)) ;;
    on_vq (fun q => set_data (<[Z.to_nat (fst uel) := 0]> (q_data q)) q) ;;;
    on_vq (fun q => set_last_used (last_used q) (wrap32 (last_used_idx q + 1)) q) ;;;
    virtio_queue_enable_intr ;;;
    af <- get_vq (fun q => avail_flags (q_vring q)) ;;
    lui <- get_vq last_used_idx ;;
    (if Z.land af VRING_AVAIL_F_NO_INTERRUPT =? 0 then on_vring (set_used_event (wrap16 lui)) else ret tt) ;;;
    ret (Some (data, snd uel)).

(** The part of [virtio_to_queue] after its early return: the buffers are put
    in descriptors and published. *)
Definition publish (threads : Z) (bufs : list addr_size) (data : Z) : M qctx unit :=
  first <- get_vq free_head ;;
  fn <- get_vq free_num ;;
  let left := fn - Z.of_nat (length bufs) in
  (if (1 <? Z.of_nat (length bufs)) && (left <? threads)
   then set_indirect_descriptors bufs else set_direct_descriptors bufs) ;;;
  n <- get_vq q_num ;;
  ai <- get_vq (fun q => avail_idx (q_vring q)) ;;
  slot <- mod_num ai n ;;
  on_vring (fun v => set_avail (avail_idx v) (<[Z.to_nat slot := first]> (avail_ring v)) v) ;;;
  on_vq (fun q => set_data (<[Z.to_nat first := data]> (q_data q)) q) ;;;
  on_vring (fun v => set_avail (wrap16 (avail_idx v + 1)) (avail_ring v) v).

(** ** The device *)
Section device.
(** The client of the queues, its callback, and the device registers. *)
Context {C : Type} (callback : nat -> Z -> Z -> M C unit).
Context {D : Type} (conf_readw conf_readl conf_readb : Z -> M D Z) (conf_write : Z -> Z -> M D unit).
(** The heap: 4K blocks and their physical address, and [yaos_malloc] of an
    array of that many elements. *)
Context {H : Type} (heap_alloc_4k : Z -> M H Z) (v2p : Z -> Z) (malloc : Z -> M H Z) (mfree : Z -> M H unit).
Context (pci_is_msix : bool).

(** [struct virtio_device]; [None] for a NULL [queues]. *)
Record virtio_device := VDev {
  queues : option (list virtio_queue); num_queues : Z;
  threads : Z; indirect : list indirect_desc_table; num_indirect : Z;
  enabled_features : Z; driver_features : Z; cap_indirect_buf : bool; cap_event_idx : bool;
  showTcp : bool;
  client : C; regs : D; heap : H
}.
Definition set_queues (l : option (list virtio_queue)) (n : Z) s : virtio_device :=
  VDev l n (threads s) (indirect s) (num_indirect s) (enabled_features s) (driver_features s)
    (cap_indirect_buf s) (cap_event_idx s) (showTcp s) (client s) (regs s) (heap s).
Definition set_indirect (l : list indirect_desc_table) (n : Z) s : virtio_device :=
  VDev (queues s) (num_queues s) (threads s) l n (enabled_features s) (driver_features s)
    (cap_indirect_buf s) (cap_event_idx s) (showTcp s) (client s) (regs s) (heap s).
Definition set_features (e : Z) (ci ce : bool) s : virtio_device :=
  VDev (queues s) (num_queues s) (threads s) (indirect s) (num_indirect s) e (driver_features s)
    ci ce (showTcp s) (client s) (regs s) (heap s).
Definition set_show (b : bool) s : virtio_device :=
  VDev (queues s) (num_queues s) (threads s) (indirect s) (num_indirect s) (enabled_features s)
    (driver_features s) (cap_indirect_buf s) (cap_event_idx s) b (client s) (regs s) (heap s).
Definition set_client (c : C) s : virtio_device :=
  VDev (queues s) (num_queues s) (threads s) (indirect s) (num_indirect s) (enabled_features s)
    (driver_features s) (cap_indirect_buf s) (cap_event_idx s) (showTcp s) c (regs s) (heap s).
Definition set_regs (d : D) s : virtio_device :=
  VDev (queues s) (num_queues s) (threads s) (indirect s) (num_indirect s) (enabled_features s)
    (driver_features s) (cap_indirect_buf s) (cap_event_idx s) (showTcp s) (client s) d (heap s).
Definition set_heap (h : H) s : virtio_device :=
  VDev (queues s) (num_queues s) (threads s) (indirect s) (num_indirect s) (enabled_features s)
    (driver_features s) (cap_indirect_buf s) (cap_event_idx s) (showTcp s) (client s) (regs s) h.
Definition on_regs {A} : M D A -> M virtio_device A := zoom regs set_regs.
Definition on_client {A} : M C A -> M virtio_device A := zoom client set_client.
Definition on_heap {A} : M H A -> M virtio_device A := zoom heap set_heap.

(** Queue [i] of the device ([&dev->queues[qidx]]) and the indirect tables. *)
Definition on_queue {A} (i : nat) (m : M qctx A) : M virtio_device A := fun s =>
  match queues s with
  | None => Fault
  | Some l =>
      match l !! i with
      | None => Fault
      | Some q =>
          match m (QCtx q (indirect s)) with
          | Done (a, c) =>
              Done (a, set_indirect (ind c) (num_indirect s) (set_queues (Some (<[i := vq c]> l)) (num_queues s) s))
          | Panic => Panic
          | Deadlock => Deadlock
          | Fault => Fault
          | OutOfFuel => OutOfFuel
          end
      end
  end.

(** [wants_kick] always answers true; it records whether the device lags. *)
Definition wants_kick (i : nat) : M virtio_device bool :=
  b <- on_queue i (gets (fun s => used_idx (q_vring (vq s)) + 5 <? avail_idx (q_vring (vq s)))) ;;
  modify (set_show b) ;;;
  ret true.
Definition kick_queue (i : nat) : M virtio_device unit :=
  n <- gets num_queues ;;
  kassert (Z.of_nat i <? n) ;;;
  k <- wants_kick i ;;
  if (k : bool) then on_regs (conf_write VIRTIO_PCI_QUEUE_NOTIFY (Z.of_nat i)) else ret tt.

(** Each completion goes to the client's callback until none is left. *)
Fixpoint read_loop (fuel : nat) (i : nat) : M virtio_device unit :=
  r <- on_queue i virtio_from_queue ;;
  match r with
  | None => ret tt
  | Some (data, len) =>
      on_client (callback i data len) ;;;
      match fuel with
      | O => out_of_fuel
      | S fuel' => read_loop fuel' i
      end
  end.
Definition virtio_read_queue (i : nat) : M virtio_device Z :=
  n <- gets num_queues ;;
  kassert (Z.of_nat i <? n) ;;;
  num <- on_queue i (get_vq q_num) ;;
  read_loop (Z.to_nat num) i ;;;
  ret 0.

Definition virtio_to_queue (i : nat) (bufs : list addr_size) (data : Z) : M virtio_device Z :=
  n <- gets num_queues ;;
  kassert (Z.of_nat i <=? n) ;;;
  kassert (negb (data =? 0)) ;;;
  lag <- on_queue i (gets (fun s => free_num (vq s) + 4 <? q_num (vq s))) ;;
  (if (lag : bool) then virtio_read_queue i else ret 0) ;;;
  left <- on_queue i (gets (fun s => free_num (vq s) - Z.of_nat (length bufs))) ;;
  if left <=? 0 then ret EAGAIN
  else
    t <- gets threads ;;
    on_queue i (publish t bufs data) ;;;
    kick_queue i ;;;
    ret 0.

Definition virtio_had_irq : M virtio_device bool :=
  b <- on_regs (conf_readb VIRTIO_PCI_ISR) ;; ret (negb (Z.land b 1 =? 0)).
Definition get_dev_status : M virtio_device Z := on_regs (conf_readb VIRTIO_PCI_STATUS).
Definition set_dev_status (status : Z) : M virtio_device unit :=
  on_regs (conf_write VIRTIO_PCI_STATUS (wrap8 status)).
Definition add_dev_status (status : Z) : M virtio_device unit :=
  b <- get_dev_status ;; set_dev_status (Z.lor b status).
Definition del_dev_status (status : Z) : M virtio_device unit :=
  b <- get_dev_status ;; set_dev_status (Z.land b (Z.lxor status (2 ^ 32 - 1))).
Definition virtio_device_ready : M virtio_device unit := add_dev_status VIRTIO_CONFIG_S_DRIVER_OK.

(** The features both sides have. *)
Definition virtio_setup_features : M virtio_device unit :=
  dev_features <- on_regs (conf_readl VIRTIO_PCI_HOST_FEATURES) ;;
  drv_features <- gets driver_features ;;
  let subset := Z.land dev_features drv_features in
  ci <- gets cap_indirect_buf ;;
  ce <- gets cap_event_idx ;;
  on_regs (conf_write VIRTIO_PCI_GUEST_FEATURES (wrap32 subset)) ;;;
  modify (set_features subset (ci || Z.testbit subset 28) (ce || Z.testbit subset 29)).

(** ** Setting the queues up *)

(** [vring_size] with its argument types: [unsigned] results. *)
Definition vring_size (num : Z) : Z :=
  wrap32 (Z.land (16 * num + 2 * (3 + num) + PAGE_SIZE_4K - 1) (lnot64 (PAGE_SIZE_4K - 1)) + 2 * 3 + 8 * num).

(** [init_phys_queue]: everything free. *)
Definition free_desc (num : Z) (i : nat) : vring_desc :=
  Desc 0 0 VRING_DESC_F_NEXT (Z.land (Z.of_nat i + 1) (num - 1)).
Definition init_phys_queue (q : virtio_queue) : virtio_queue :=
  let n := Z.to_nat (q_num q) in
  VQueue (q_vaddr q) (q_paddr q) (wrap32 (q_paddr q / PAGE_SIZE_4K)) (q_num q) (q_index q) (q_ring_size q) 0
    (q_num q) 0 (wrap16 (q_num q - 1)) 0
    (Vring (map (free_desc (q_num q)) (seq 0 n)) 0 0 (replicate n 0) 0 0 (replicate n (0, 0)))
    (replicate n 0).

Definition update_queue (i : nat) (f : virtio_queue -> virtio_queue) : M virtio_device unit :=
  on_queue i (on_vq f).

Definition alloc_phys_queue (i : nat) : M virtio_device Z :=
  num <- on_queue i (get_vq q_num) ;;
  let rs := vring_size num in
  va <- on_heap (heap_alloc_4k (Z.land (rs + PAGE_SIZE_4K - 1) (lnot64 (PAGE_SIZE_4K - 1)))) ;;
  update_queue i (fun q => VQueue va (q_paddr q) (q_page q) (q_num q) (q_index q) rs (last_used_idx q)
    (free_num q) (free_head q) (free_tail q) (last_used q) (q_vring q) (q_data q)) ;;;
  if va =? 0 then ret ENOMEM
  else
    update_queue i (fun q => VQueue va (v2p va) (q_page q) (q_num q) (q_index q) rs (last_used_idx q)
      (free_num q) (free_head q) (free_tail q) (last_used q) (q_vring q) (q_data q)) ;;;
    da <- on_heap (heap_alloc_4k PAGE_SIZE_4K) ;;
    kassert (8 * num <? PAGE_SIZE_4K) ;;;
    kassert (negb (da =? 0)) ;;;
    ret 0.

Definition setup_queue (i : nat) : M virtio_device unit :=
  idx <- on_queue i (get_vq q_index) ;;
  pa <- on_queue i (get_vq q_paddr) ;;
  (if pci_is_msix then
     on_regs (conf_write VIRTIO_MSI_QUEUE_VECTOR idx) ;;;
     v <- on_regs (conf_readw VIRTIO_MSI_QUEUE_VECTOR) ;;
     kassert (v =? idx)
   else ret tt) ;;;
  on_regs (conf_write VIRTIO_PCI_QUEUE_PFN (wrap32 (Z.shiftr pa 12))).

(** A freed queue: its [vaddr] must not be NULL. *)
Definition free_phys_queue (i : nat) : M virtio_device unit :=
  va <- on_queue i (get_vq q_vaddr) ;;
  kassert (negb (va =? 0)) ;;;
  update_queue i (fun q => VQueue 0 0 (q_page q) 0 (q_index q) (q_ring_size q) (last_used_idx q)
    (free_num q) (free_head q) (free_tail q) (last_used q) (q_vring q) []).
Fixpoint free_queues (l : list nat) : M virtio_device unit :=
  match l with [] => ret tt | i :: l' => free_phys_queue i ;;; free_queues l' end.
Definition virtio_free_queues : M virtio_device unit :=
  l <- gets queues ;;
  kassert (match l with Some _ => true | None => false end) ;;;
  n <- gets num_queues ;;
  kassert (0 <? n) ;;;
  free_queues (seq 0 (Z.to_nat n)) ;;;
  modify (set_queues None 0).

(** One queue of [init_phys_queues]. *)
Definition init_one_queue (i : nat) : M virtio_device Z :=
  on_regs (conf_write VIRTIO_PCI_QUEUE_SEL (Z.of_nat i)) ;;;
  num <- on_regs (conf_readw VIRTIO_PCI_QUEUE_NUM) ;;
  update_queue i (fun q => VQueue (q_vaddr q) (q_paddr q) (q_page q) num (Z.of_nat i) (q_ring_size q)
    (last_used_idx q) (free_num q) (free_head q) (free_tail q) (last_used q) (q_vring q) (q_data q)) ;;;
  if negb (Z.land num (num - 1) =? 0) then ret EINVAL
  else
    r <- alloc_phys_queue i ;;
    if negb (r =? 0) then ret r
    else
      update_queue i init_phys_queue ;;;
      setup_queue i ;;;
      ret 0.
(** The loop with its error path: [for (j = 0; j < i; j++)] frees queue [i],
    [i] times. *)
Fixpoint init_queues_loop (l : list nat) : M virtio_device Z :=
  match l with
  | [] => ret 0
  | i :: l' =>
      r <- init_one_queue i ;;
      if r =? 0 then init_queues_loop l'
      else free_queues (replicate i i) ;;; ret r
  end.
Definition init_phys_queues : M virtio_device Z :=
  n <- gets num_queues ;; init_queues_loop (seq 0 (Z.to_nat n)).

Definition zero_queue : virtio_queue :=
  VQueue 0 0 0 0 0 0 0 0 0 0 0 (Vring [] 0 0 [] 0 0 []) [].
(** [r = init_phys_queues(dev) != OK]: the error is replaced by 1. *)
Definition virtio_alloc_queues (n : Z) : M virtio_device Z :=
  if (n <? 0) || (256 <? n) then ret EINVAL
  else
    modify (set_queues None n) ;;;
    p <- on_heap (malloc n) ;;
    if p =? 0 then ret ENOMEM
    else
      modify (set_queues (Some (replicate (Z.to_nat n) zero_queue)) n) ;;;
      e <- init_phys_queues ;;
      let r := if e =? 0 then 0 else 1 in
      (if r =? 0 then ret tt else on_heap (mfree p) ;;; modify (set_queues None n)) ;;;
      ret r.

Definition zero_desc : vring_desc := Desc 0 0 0 0.
Definition init_indirect_desc_table : M virtio_device (option indirect_desc_table) :=
  p <- on_heap (heap_alloc_4k PAGE_SIZE_4K) ;;
  if p =? 0 then ret None
  else ret (Some (Indirect false (replicate (Z.to_nat (MAPVEC_NR + MAPVEC_NR / 2)) zero_desc) (v2p p)
                    ((MAPVEC_NR + MAPVEC_NR / 2) * 16))).
Fixpoint init_tables (n : nat) : M virtio_device (list indirect_desc_table) :=
  match n with
  | O => ret []
  | S n' =>
      t <- init_indirect_desc_table ;;
      match t with
      | None => panic
      | Some t => l <- init_tables n' ;; ret (t :: l)
      end
  end.
Definition init_indirect_desc_tables : M virtio_device Z :=
  n <- gets num_indirect ;;
  p <- on_heap (malloc n) ;;
  kassert (negb (p =? 0)) ;;;
  l <- init_tables (Z.to_nat n) ;;
  modify (set_indirect l n) ;;;
  ret 0.

(** [virtio_probe_queues]: queues are numbered until one has size 0. *)
Fixpoint probe_loop (fuel : nat) (n : Z) : M virtio_device Z :=
  match fuel with
  | O => out_of_fuel
  | S fuel' =>
      if max_virtqueues_nr <=? n then ret n
      else
        on_regs (conf_write VIRTIO_PCI_QUEUE_SEL n) ;;;
        z <- on_regs (conf_readw VIRTIO_PCI_QUEUE_NUM) ;;
        if z =? 0 then ret n else probe_loop fuel' (n + 1)
  end.
Definition virtio_probe_queues : M virtio_device unit :=
  n <- probe_loop 65 0 ;;
  modify (fun s => set_queues (queues s) n s).

(** [virtio_setup_device] after the PCI part: [threads] of the device itself
    is not set. *)
Definition virtio_setup_queues (nthreads : Z) : M virtio_device unit :=
  virtio_setup_features ;;;
  virtio_probe_queues ;;;
  n <- gets num_queues ;;
  virtio_alloc_queues n ;;;
  modify (fun s => set_indirect (indirect s) nthreads s) ;;;
  init_indirect_desc_tables ;;;
  ret tt.
End device.

(** ** Chains of descriptors *)

(** The free chain: every descriptor has the next flag and links to the one
    after it; the link of the last one is not used. *)
Fixpoint fchain (D : list vring_desc) (l : list nat) : Prop :=
  match l with
  | [] => True
  | i :: l' => exists d, D !! i = Some d /\ flag d VRING_DESC_F_NEXT = true /\
      (match l' with [] => True | j :: _ => d_next d = Z.of_nat j end) /\ fchain D l'
  end.

(** The direction bit of a buffer. *)
Definition wbit (b : addr_size) : Z := if Z.land (vp_flags b) VRING_DESC_F_WRITE =? 0 then 0 else VRING_DESC_F_WRITE.

(** Descriptors filled from [bufs], all of them linked, the last one to [j]. *)
Fixpoint uchain (D : list vring_desc) (l : list nat) (j : nat) (bufs : list addr_size) : Prop :=
  match l, bufs with
  | [], [] => True
  | i :: l', b :: bufs' =>
      D !! i = Some (Desc (vp_addr b) (vp_size b) (Z.lor VRING_DESC_F_NEXT (wbit b)) (Z.of_nat (default j (head l')))) /\
      uchain D l' j bufs'
  | _, _ => False
  end.

(** A published chain: linked up to the last descriptor, which has no next. *)
Fixpoint bchain (D : list vring_desc) (l : list nat) (bufs : list addr_size) : Prop :=
  match l, bufs with
  | [i], [b] => exists nx, D !! i = Some (Desc (vp_addr b) (vp_size b) (wbit b) nx)
  | i :: ((j :: _) as l'), b :: bufs' =>
      D !! i = Some (Desc (vp_addr b) (vp_size b) (Z.lor VRING_DESC_F_NEXT (wbit b)) (Z.of_nat j)) /\
      bchain D l' bufs'
  | _, _ => False
  end.

Lemma fchain_frame D D' l : fchain D l -> (forall i, i ∈ l -> D' !! i = D !! i) -> fchain D' l.
Proof.
  induction l as [|i l IH]; cbn; [done|]. intros (d & Hd & Hf & Hn & Hc) Hs. exists d.
  rewrite Hs by left. repeat (split; [done|]). apply IH; [done|]. intros j Hj. apply Hs. by right.
Qed.

Lemma bchain_frame D D' l bufs :
  bchain D l bufs -> (forall i, i ∈ l -> D' !! i = D !! i) -> bchain D' l bufs.
Proof.
  revert bufs. induction l as [|i [|j l] IH]; intros [|b [|b' bufs]]; cbn; try done.
  - intros (nx & Hd) Hs. exists nx. rewrite Hs by left. done.
  - intros [_ Hc]. by destruct l.
  - intros [Hd Hc] Hs. split; [by rewrite Hs by left|]. apply (IH (b' :: bufs)); [done|]. intros k Hk. apply Hs. by right.
Qed.

Lemma fchain_app D l1 l2 : fchain D (l1 ++ l2) -> fchain D l1 /\ fchain D l2.
Proof.
  induction l1 as [|i l1 IH]; cbn; [done|]. intros (d & Hd & Hf & Hn & Hc). apply IH in Hc as [Hc1 Hc2].
  split; [|done]. exists d. repeat (split; [done|]). split; [|done]. by destruct l1.
Qed.

Lemma wbit_values b : wbit b = 0 \/ wbit b = VRING_DESC_F_WRITE.
Proof. unfold wbit. destruct (_ =? 0); [by left|by right]. Qed.

Lemma use_vring_desc_eq d b :
  use_vring_desc d b = Desc (vp_addr b) (vp_size b) (Z.lor VRING_DESC_F_NEXT (wbit b)) (d_next d).
Proof. unfold use_vring_desc, wbit. by destruct (_ =? 0). Qed.

(** The state with another descriptor table. *)
Definition with_desc (D : list vring_desc) (s : qctx) : qctx :=
  QCtx (set_vring (set_desc D (q_vring (vq s))) (vq s)) (ind s).
Abbreviation table s := (v_desc (q_vring (vq s))).

Lemma with_desc_id s : with_desc (table s) s = s.
Proof. destruct s as [[? ? ? ? ? ? ? ? ? ? ? [] ?] ?]. done. Qed.

Lemma wp_get_desc s i d Q : table s !! i = Some d -> Q d s -> wp (get_desc (Z.of_nat i)) s Q.
Proof.
  intros Hd HQ. unfold get_desc, get_vq. wp_steps. rewrite Nat2Z.id. by eapply wp_deref_opt.
Qed.

Lemma wp_put_desc s i d Q : Q tt (with_desc (<[i := d]> (table s)) s) -> wp (put_desc (Z.of_nat i) d) s Q.
Proof. intros HQ. unfold put_desc, on_vring. wp_steps. by rewrite Nat2Z.id. Qed.

(** Filling descriptors from the free chain. *)
Lemma use_descs_ok bufs l1 j l2 last s :
  fchain (table s) (l1 ++ j :: l2) -> length l1 = length bufs -> NoDup (l1 ++ j :: l2) ->
  wp (use_descs bufs (Z.of_nat (default j (head l1))) last) s (fun r s' => exists D',
    r = (Z.of_nat j, match list.last l1 with Some e => Some (Z.of_nat e) | None => last end) /\
    s' = with_desc D' s /\ length D' = length (table s) /\
    (forall i, i ∉ l1 -> D' !! i = table s !! i) /\ uchain D' l1 j bufs).
Proof.
  revert l1 last s. induction bufs as [|b bufs IH]; intros [|i l1] last s Hf Hlen Hnd; try discriminate Hlen.
  - cbn. exists (table s). split; [done|]. by rewrite with_desc_id.
  - rewrite <- app_comm_cons in Hf, Hnd. destruct Hf as (d & Hd & Hfl & Hn & Hf).
    apply list.NoDup_cons in Hnd as [Hni Hnd]. cbn [use_descs head default]. wp_steps. eapply wp_get_desc; [exact Hd|].
    rewrite Hfl. wp_steps. apply wp_put_desc.
    match goal with |- wp _ (with_desc ?D _) _ => set (D1 := D) end.
    assert (d_next d = Z.of_nat (default j (head l1))) as ->.
    { destruct l1; cbn in *; exact Hn. }
    eapply wp_mono; [apply (IH l1)|].
    + cbn. apply (fchain_frame (table s)); [exact Hf|]. intros k Hk. unfold D1.
      rewrite list_lookup_insert_ne; [done|]. intros ->. done.
    + cbn in Hlen. lia.
    + done.
    + cbn. intros r s' (D' & -> & -> & HlenD & Hout & Hu). exists D'.
      assert (HD1 : forall k, k ≠ i -> D1 !! k = table s !! k).
      { intros k Hk. unfold D1. by rewrite list_lookup_insert_ne. }
      split; [|split; [done|split; [by rewrite HlenD; unfold D1; rewrite length_insert|split]]].
      * destruct l1 as [|i' l1]; [done|]. rewrite last_cons_cons.
        destruct (list.last (i' :: l1)) eqn:Hl; [done|]. by apply last_None in Hl.
      * intros k Hk. rewrite Hout by (intros ?; apply Hk; by right). apply HD1. intros ->. apply Hk. left.
      * split; [|done]. rewrite Hout.
        -- unfold D1. rewrite list_lookup_insert_eq by (by eapply lookup_lt_Some).
           rewrite use_vring_desc_eq. f_equal. f_equal. destruct l1; cbn in *; exact Hn.
        -- intros Hin. apply Hni, elem_of_app. by left.
Qed.

(** Cutting the link of the last descriptor publishes the chain. *)
Lemma uchain_cut D l e j bufs :
  uchain D (l ++ [e]) j bufs -> NoDup (l ++ [e]) ->
  exists d, D !! e = Some d /\ bchain (<[e := clear_flag d VRING_DESC_F_NEXT]> D) (l ++ [e]) bufs.
Proof.
  revert bufs. induction l as [|i l IH]; intros [|b bufs]; try done.
  - cbn. intros [Hd Hu] _. destruct bufs; [|done]. eexists. split; [exact Hd|]. cbn.
    eexists. rewrite list_lookup_insert_eq by (by eapply lookup_lt_Some). unfold clear_flag. cbn.
    by destruct (wbit_values b) as [-> | ->].
  - cbn [app uchain]. intros [Hd Hu] [Hni Hnd]%list.NoDup_cons.
    destruct (IH _ Hu Hnd) as (d & He & Hb). exists d. split; [done|].
    assert (i <> e) by (intros ->; apply Hni, elem_of_app; right; left).
    destruct l as [|i' l]; cbn in Hd, Hb |- *; rewrite list_lookup_insert_ne by done; done.
Qed.

Lemma bchain_length D l bufs : bchain D l bufs -> length l = length bufs /\ l <> [].
Proof.
  revert bufs. induction l as [|i [|j l] IH]; intros [|b [|b' bufs]]; cbn; try done.
  - intros [_ Hc]. by destruct l.
  - intros [_ Hc]. destruct (IH (b' :: bufs) Hc) as [Hl _]. split; [cbn in Hl; lia|done].
Qed.

(** ** The invariant of a queue *)

(** A request the device may see: the descriptors it uses, its buffers and the
    caller's pointer. *)
Record request := Request { r_idxs : list nat; r_bufs : list addr_size; r_data : Z }.
Definition r_head (r : request) : nat := default 0%nat (head (r_idxs r)).

(** The driver's side: [fl] is the free chain, [out] the requests it has given
    away; together they hold every descriptor exactly once. *)
Record ring_ok (q : virtio_queue) (fl : list nat) (out : list request) : Prop := {
  ro_num : exists k, q_num q = 2 ^ k /\ 0 <= k <= 15;
  ro_desc : length (v_desc (q_vring q)) = Z.to_nat (q_num q);
  ro_avail : length (avail_ring (q_vring q)) = Z.to_nat (q_num q);
  ro_used : length (used_ring (q_vring q)) = Z.to_nat (q_num q);
  ro_data : length (q_data q) = Z.to_nat (q_num q);
  ro_perm : fl ++ concat (map r_idxs out) ≡ₚ seq 0 (Z.to_nat (q_num q));
  ro_free : fchain (v_desc (q_vring q)) fl;
  ro_head : exists h, head fl = Some h /\ free_head q = Z.of_nat h;
  ro_tail : exists t, list.last fl = Some t /\ free_tail q = Z.of_nat t;
  ro_free_num : free_num q = Z.of_nat (length fl);
  ro_out : Forall (fun r => bchain (v_desc (q_vring q)) (r_idxs r) (r_bufs r) /\ r_data r <> 0 /\
                            q_data q !! r_head r = Some (r_data r)) out;
  ro_last : 0 <= last_used q < q_num q
}.

(** What the two sides have told each other: the device has taken entries up
    to [a] of the available ring, [pend] are published and not taken, [held] are
    taken and not answered, [don] are answered and not read. *)
Record comm_ok (q : virtio_queue) (out : list request) (a : Z) (pend held : list nat)
    (don : list (nat * Z)) : Prop := {
  co_heads : pend ++ held ++ map fst don ≡ₚ map r_head out;
  co_a : 0 <= a;
  co_avail_idx : avail_idx (q_vring q) = wrap16 (a + Z.of_nat (length pend));
  co_avail (j : nat) h : pend !! j = Some h ->
    avail_ring (q_vring q) !! Z.to_nat ((a + Z.of_nat j) mod q_num q) = Some (Z.of_nat h);
  co_used_idx : 0 <= used_idx (q_vring q) < 2 ^ 16 /\
    used_idx (q_vring q) mod q_num q = (last_used q + Z.of_nat (length don)) mod q_num q;
  co_used (j : nat) h len : don !! j = Some (h, len) ->
    used_ring (q_vring q) !! Z.to_nat ((last_used q + Z.of_nat j) mod q_num q) = Some (Z.of_nat h, len)
}.

Section ring_facts.
Context (q : virtio_queue) (fl : list nat) (out : list request) (Hok : ring_ok q fl out).

Lemma num_pos : 0 < q_num q.
Proof. destruct (ro_num _ _ _ Hok) as (k & -> & Hk). apply Z.pow_pos_nonneg; lia. Qed.

Lemma num_bound : q_num q <= 2 ^ 15.
Proof. destruct (ro_num _ _ _ Hok) as (k & -> & Hk). apply Z.pow_le_mono_r; lia. Qed.

(** The ring indices wrap at 2^16, a multiple of the size. *)
Lemma mod_wrap16 x : wrap16 x mod q_num q = x mod q_num q.
Proof.
  pose proof num_pos. destruct (ro_num _ _ _ Hok) as (k & Hn & Hk). unfold wrap16.
  apply Z.mod_mod_divide. rewrite Hn. exists (2 ^ (16 - k)).
  rewrite <- Z.pow_add_r by lia. f_equal. lia.
Qed.

Lemma ring_nodup : NoDup (fl ++ concat (map r_idxs out)).
Proof. rewrite (ro_perm _ _ _ Hok). apply NoDup_seq. Qed.

Lemma ring_length : (length fl + length (concat (map r_idxs out)) = Z.to_nat (q_num q))%nat.
Proof. rewrite <- length_app, (ro_perm _ _ _ Hok). apply length_seq. Qed.

Lemma ring_bound i : i ∈ fl ++ concat (map r_idxs out) -> (i < Z.to_nat (q_num q))%nat.
Proof. rewrite (ro_perm _ _ _ Hok), elem_of_seq. lia. Qed.

Lemma request_nonempty r : r ∈ out -> exists l, r_idxs r = r_head r :: l.
Proof.
  intros Hr. pose proof (ro_out _ _ _ Hok) as Hall. rewrite list.Forall_forall in Hall.
  destruct (Hall r Hr) as (Hb & _). apply bchain_length in Hb as [_ Hne]. unfold r_head.
  destruct (r_idxs r); [done|]. by eexists.
Qed.

Lemma out_length : (length out <= length (concat (map r_idxs out)))%nat.
Proof.
  assert (Hne : forall r, r ∈ out -> r_idxs r <> []).
  { intros r Hr. destruct (request_nonempty r Hr) as [l ->]. done. }
  clear - Hne. induction out as [|r o IH]; cbn; [lia|]. rewrite length_app.
  assert (length o <= length (concat (map r_idxs o)))%nat by (apply IH; intros x Hx; apply Hne; by right).
  assert (r_idxs r <> []) by (apply Hne; left). destruct (r_idxs r); [done|]. cbn. lia.
Qed.

(** One descriptor always stays free, so fewer requests than descriptors. *)
Lemma out_bound : (length out < Z.to_nat (q_num q))%nat.
Proof.
  pose proof out_length. pose proof ring_length. destruct (ro_head _ _ _ Hok) as (h & Hh & _).
  destruct fl; [done|]. cbn in *. lia.
Qed.

Lemma elem_of_concat_idxs r i : r ∈ out -> i ∈ r_idxs r -> i ∈ concat (map r_idxs out).
Proof.
  intros Hr Hi. apply list_elem_of_In, in_concat. exists (r_idxs r). rewrite <- !list_elem_of_In.
  split; [|done]. by apply list_elem_of_fmap_2.
Qed.

Lemma comm_bound a pend held don :
  comm_ok q out a pend held don ->
  (length pend + length held + length don < Z.to_nat (q_num q))%nat.
Proof.
  intros Hc. pose proof out_bound. pose proof (Permutation_length (co_heads _ _ _ _ _ _ Hc)) as Hl.
  rewrite !length_app, !length_map in Hl. lia.
Qed.
End ring_facts.

(** Two indices less than a size apart have the same remainder only if equal. *)
Lemma mod_inj a i j n : 0 <= i < n -> 0 <= j < n -> (a + i) mod n = (a + j) mod n -> i = j.
Proof.
  intros Hi Hj Heq. pose proof (Z.div_mod (a + i) n ltac:(lia)) as H1. pose proof (Z.div_mod (a + j) n ltac:(lia)) as H2.
  rewrite Heq in H1. assert (i - j = n * ((a + i) / n - (a + j) / n)) as Hd by lia.
  destruct (Z.lt_trichotomy ((a + i) / n - (a + j) / n) 0) as [Hlt|[H0|Hgt]]; [nia|lia|nia].
Qed.

(** ** Publishing a request *)

Lemma last_split {A} (l : list A) : l <> [] -> exists l0 e, l = l0 ++ [e].
Proof.
  intros Hl. destruct (list.last l) as [e|] eqn:He; [|by apply last_None in He].
  apply last_Some in He as [l0 ->]. by eexists _, _.
Qed.

Lemma set_direct_ok bufs l1 j l2 s :
  fchain (table s) (l1 ++ j :: l2) -> length l1 = length bufs -> bufs <> [] -> NoDup (l1 ++ j :: l2) ->
  free_head (vq s) = Z.of_nat (default j (head l1)) ->
  wp (set_direct_descriptors bufs) s (fun _ s' => exists D',
    s' = QCtx (set_free (wrap16 (free_num (vq s) - Z.of_nat (length bufs))) (Z.of_nat j) (free_tail (vq s))
                (set_vring (set_desc D' (q_vring (vq s))) (vq s))) (ind s) /\
    length D' = length (table s) /\ (forall i, i ∉ l1 -> D' !! i = table s !! i) /\ bchain D' l1 bufs).
Proof.
  intros Hf Hlen Hne Hnd Hh. unfold set_direct_descriptors.
  assert (l1 <> []) as Hl1 by (intros ->; by destruct bufs).
  assert (Nat.eqb (length bufs) 0 = false) as -> by (destruct bufs; done). cbn [negb]. wp_steps.
  unfold get_vq. wp_steps. rewrite Hh.
  eapply wp_mono; [by apply (use_descs_ok bufs l1 j l2)|]. cbn. intros r s' (D' & -> & -> & HD & Hout & Hu).
  destruct (last_split l1 Hl1) as (l0 & e & ->). rewrite last_snoc in *. cbn.
  destruct (uchain_cut D' l0 e j bufs Hu) as (d & Hd & Hb).
  { by apply list.NoDup_app in Hnd as [? _]. }
  wp_steps. eapply wp_get_desc; [exact Hd|]. wp_steps. apply wp_put_desc.
  unfold on_vq. wp_steps. eexists. split; [done|]. rewrite length_insert. split; [done|].
  split; [|exact Hb]. intros i Hi. rewrite list_lookup_insert_ne; [by apply Hout|].
  intros ->. apply Hi, elem_of_app. right. left.
Qed.

(** The requests whose descriptors are not touched stay published. *)
Lemma out_frame (D D' : list vring_desc) (dt dt' : list Z) out :
  Forall (fun r => bchain D (r_idxs r) (r_bufs r) /\ r_data r <> 0 /\ dt !! r_head r = Some (r_data r)) out ->
  (forall r i, r ∈ out -> i ∈ r_idxs r -> D' !! i = D !! i) ->
  (forall r, r ∈ out -> dt' !! r_head r = dt !! r_head r) ->
  Forall (fun r => bchain D' (r_idxs r) (r_bufs r) /\ r_data r <> 0 /\ dt' !! r_head r = Some (r_data r)) out.
Proof.
  rewrite !list.Forall_forall. intros Hall Hd Hdata r Hr. destruct (Hall r Hr) as (Hb & Hnz & Hp).
  split; [|split; [done|by rewrite Hdata]]. eapply bchain_frame; [exact Hb|]. intros i Hi. by apply (Hd r).
Qed.

Lemma wp_mod_num x n s Q : 0 < n -> Q (x mod n) s -> wp (mod_num x n) s Q.
Proof. intros Hn HQ. unfold mod_num. rewrite (proj2 (Z.eqb_neq n 0)) by lia. exact HQ. Qed.

(** The driver's side after a request is published. *)
Lemma publish_ring q q' fl1 fl2 out bufs data D' j :
  ring_ok q (fl1 ++ j :: fl2) out -> bchain D' fl1 bufs -> data <> 0 ->
  length D' = length (v_desc (q_vring q)) ->
  (forall i, i ∉ fl1 -> D' !! i = v_desc (q_vring q) !! i) ->
  q_num q' = q_num q -> v_desc (q_vring q') = D' ->
  length (avail_ring (q_vring q')) = length (avail_ring (q_vring q)) ->
  used_ring (q_vring q') = used_ring (q_vring q) ->
  q_data q' = <[default 0%nat (head fl1) := data]> (q_data q) ->
  free_head q' = Z.of_nat j -> free_tail q' = free_tail q ->
  free_num q' = Z.of_nat (length (j :: fl2)) -> last_used q' = last_used q ->
  ring_ok q' (j :: fl2) (out ++ [Request fl1 bufs data]).
Proof.
  intros Hok Hb Hdata HD Hframe Hn Hdesc Ha Hu Hdat Hh Ht Hfn Hlu.
  pose proof (ring_nodup _ _ _ Hok) as Hnd. pose proof Hok as [Hnum H1 H2 H3 H4 H5 H6 H7 H8 H9 H10 H11].
  destruct (bchain_length _ _ _ Hb) as [Hlen Hne].
  assert (Hdis : forall r i, r ∈ out -> i ∈ r_idxs r -> i ∉ fl1).
  { intros r i Hr Hi Hin. apply list.NoDup_app in Hnd as (_ & Hd & _).
    apply (Hd i); [apply elem_of_app; by left|]. by eapply elem_of_concat_idxs. }
  destruct fl1 as [|i0 fl1]; [done|]. cbn in Hdat.
  split; rewrite ?Hn, ?Ha, ?Hu, ?Hlu; try done; try lia.
  - by rewrite Hdesc, HD.
  - rewrite Hdat, length_insert. done.
  - rewrite map_app, concat_app. cbn [map concat r_idxs]. rewrite app_nil_r, <- H5. solve_Permutation.
  - rewrite Hdesc. apply fchain_app in H6 as [_ H6]. eapply fchain_frame; [exact H6|]. intros i Hi. apply Hframe.
    intros Hin. apply list.NoDup_app in Hnd as (Hnd & _ & _). apply list.NoDup_app in Hnd as (_ & Hd & _). by apply (Hd i).
  - exists j. done.
  - destruct H8 as (t & Hlast & Htail). exists t. split; [|by rewrite Ht].
    rewrite <- Hlast. rewrite last_app. by destruct (list.last (j :: fl2)) eqn:E; [|apply last_None in E].
  - apply list.Forall_app. split.
    + apply (out_frame _ _ _ _ _ H10).
      * intros r i Hr Hi. rewrite Hdesc. by apply Hframe, (Hdis r).
      * intros r Hr. rewrite Hdat. apply list_lookup_insert_ne. intros Heq.
        destruct (request_nonempty _ _ _ Hok r Hr) as [l Hl].
        apply (Hdis r (r_head r) Hr); [rewrite Hl; left|rewrite <- Heq; left].
    + apply list.Forall_singleton. cbn. split; [by rewrite Hdesc|]. split; [done|].
      rewrite Hdat. unfold r_head. cbn. apply list_lookup_insert_eq. rewrite H4.
      apply (ring_bound _ _ _ Hok). apply elem_of_app. left. left.
Qed.

Lemma publish_ok s fl out a pend held don threads bufs data :
  ring_ok (vq s) fl out -> comm_ok (vq s) out a pend held don ->
  bufs <> [] -> Z.of_nat (length bufs) < free_num (vq s) -> data <> 0 ->
  (1 <? Z.of_nat (length bufs)) && (free_num (vq s) - Z.of_nat (length bufs) <? threads) = false ->
  wp (publish threads bufs data) s (fun _ s' => exists fl1 fl2,
    fl = fl1 ++ fl2 /\ length fl1 = length bufs /\ ind s' = ind s /\
    ring_ok (vq s') fl2 (out ++ [Request fl1 bufs data]) /\
    comm_ok (vq s') (out ++ [Request fl1 bufs data]) a (pend ++ [r_head (Request fl1 bufs data)]) held don).
Proof.
  intros Hok Hcomm Hne Hroom Hdata Hdirect.
  pose proof (num_pos _ _ _ Hok) as Hnpos. pose proof (num_bound _ _ _ Hok) as Hnb.
  pose proof (comm_bound _ _ _ Hok _ _ _ _ Hcomm) as Hcb. pose proof (ring_length _ _ _ Hok) as Hrl.
  rewrite (ro_free_num _ _ _ Hok) in *.
  assert (exists fl1 j fl2, fl = fl1 ++ j :: fl2 /\ length fl1 = length bufs) as (fl1 & j & fl2 & -> & Hl1).
  { exists (take (length bufs) fl). destruct (drop (length bufs) fl) as [|j fl2] eqn:Hd.
    - apply (f_equal length) in Hd. rewrite length_drop in Hd. cbn in Hd. lia.
    - exists j, fl2. rewrite <- Hd, take_drop. split; [done|]. rewrite length_take. lia. }
  assert (fl1 <> []) as Hfl1 by (intros ->; by destruct bufs).
  assert (exists i0 fl1', fl1 = i0 :: fl1') as (i0 & fl1' & Hfl1') by (destruct fl1; [done|by eexists _, _]).
  assert (Hhead : free_head (vq s) = Z.of_nat i0).
  { destruct (ro_head _ _ _ Hok) as (h & Hh & ->). rewrite Hfl1' in Hh. cbn in Hh. by injection Hh as ->. }
  pose proof (ring_nodup _ _ _ Hok) as Hnd. apply list.NoDup_app in Hnd as (Hnd & _ & _).
  unfold publish, get_vq. wp_steps. rewrite (ro_free_num _ _ _ Hok), Hdirect.
  eapply wp_mono; [apply (set_direct_ok bufs fl1 j fl2); [apply Hok|done|done|done|by rewrite Hhead, Hfl1']|].
  cbn. intros _ s' (D' & -> & HD & Hframe & Hb). wp_steps. cbn.
  apply wp_mod_num; [done|]. unfold on_vring, on_vq. wp_steps. cbn.
  rewrite Hhead, Nat2Z.id. exists fl1, (j :: fl2). split; [done|]. split; [done|]. split; [done|]. split.
  - eapply (publish_ring (vq s) _ fl1 fl2 out bufs data D' j Hok Hb); try done; cbn.
    + by rewrite length_insert.
    + by rewrite Hfl1'.
    + rewrite (ro_free_num _ _ _ Hok). unfold wrap16. rewrite length_app in *. cbn in *. rewrite Z.mod_small; lia.
  - destruct Hcomm as [C1 C2 C3 C4 C5 C6]. split; cbn; try done.
    + rewrite map_app, <- C1. cbn. solve_Permutation.
    + rewrite length_app, C3. cbn. unfold wrap16. rewrite Zplus_mod_idemp_l. f_equal. lia.
    + intros k h Hk. rewrite C3, (mod_wrap16 _ _ _ Hok).
      apply lookup_app_Some in Hk as [Hk|[Hge Hk]].
      * pose proof (lookup_lt_Some _ _ _ Hk). rewrite list_lookup_insert_ne; [by apply C4|].
        intros Heq. apply Z2Nat.inj in Heq; [|apply Z.mod_pos_bound; lia|apply Z.mod_pos_bound; lia].
        apply mod_inj in Heq; lia.
      * apply list_lookup_singleton_Some in Hk as [Hk0 <-]. replace k with (length pend) by lia.
        rewrite list_lookup_insert_eq; [by rewrite Hfl1'|].
        rewrite (ro_avail _ _ _ Hok). pose proof (Z.mod_pos_bound (a + Z.of_nat (length pend)) (q_num (vq s))). lia.
Qed.

(** ** Taking a request back *)

Lemma flags_linked b a z n : 
  flag (Desc a z (Z.lor VRING_DESC_F_NEXT (wbit b)) n) VRING_DESC_F_NEXT = true /\
  flag (Desc a z (Z.lor VRING_DESC_F_NEXT (wbit b)) n) VRING_DESC_F_INDIRECT = false.
Proof. by destruct (wbit_values b) as [-> | ->]. Qed.

Lemma flags_last b a z n :
  flag (Desc a z (wbit b) n) VRING_DESC_F_NEXT = false /\ flag (Desc a z (wbit b) n) VRING_DESC_F_INDIRECT = false.
Proof. by destruct (wbit_values b) as [-> | ->]. Qed.

(** The walk along a published chain stops at its last descriptor. *)
Lemma chain_end_ok l e bufs fuel count s :
  bchain (table s) (l ++ [e]) bufs -> (length l <= fuel)%nat ->
  wp (chain_end fuel (Z.of_nat (default e (head l))) count) s (fun r s' =>
    r = (Z.of_nat e, count + Z.of_nat (length l)) /\ s' = s).
Proof.
  revert bufs fuel count. induction l as [|i l IH]; intros bufs fuel count Hb Hfuel.
  - cbn in *. destruct bufs as [|b [|b' bufs]]; try done. destruct Hb as (nx & Hd).
    destruct fuel; cbn [chain_end]; wp_steps; (eapply wp_get_desc; [exact Hd|]);
      rewrite (proj1 (flags_last _ _ _ _)); wp_steps; (split; [|done]); f_equal; lia.
  - destruct fuel as [|fuel]; [cbn in Hfuel; lia|].
    assert (exists b bufs', bufs = b :: bufs' /\ table s !! i = Some (Desc (vp_addr b) (vp_size b)
      (Z.lor VRING_DESC_F_NEXT (wbit b)) (Z.of_nat (default e (head l)))) /\ bchain (table s) (l ++ [e]) bufs')
      as (b & bufs' & -> & Hd & Hb').
    { destruct bufs as [|b bufs]; [by destruct l|]. exists b, bufs. split; [done|].
      destruct l as [|i' l]; exact Hb. }
    cbn [chain_end head default]. wp_steps. eapply wp_get_desc; [exact Hd|].
    destruct (flags_linked b (vp_addr b) (vp_size b) (Z.of_nat (default e (head l)))) as [-> ->]. wp_steps.
    eapply wp_get_desc; [exact Hd|]. cbn [d_next].
    eapply wp_mono; [apply (IH bufs'); [done|cbn in Hfuel; lia]|].
    cbn. intros r s' [-> ->]. split; [|done]. f_equal. lia.
Qed.

Lemma fchain_link D l1 l2 :
  fchain D l1 -> fchain D l2 ->
  (forall t h, list.last l1 = Some t -> head l2 = Some h -> exists d, D !! t = Some d /\ d_next d = Z.of_nat h) ->
  fchain D (l1 ++ l2).
Proof.
  induction l1 as [|i l1 IH]; cbn [app fchain]; [done|]. intros (d & Hd & Hf & Hn & Hc) H2 Hlink.
  exists d. split; [done|]. split; [done|]. split.
  - destruct l1 as [|j l1]; [|done]. destruct l2 as [|h l2]; [done|].
    destruct (Hlink i h eq_refl eq_refl) as (d' & Hd' & Hn'). rewrite Hd in Hd'. by injection Hd' as <-.
  - apply IH; [done|done|]. intros t h Ht Hh. apply Hlink; [|done]. rewrite last_cons. by rewrite Ht.
Qed.

(** Only the link of the last free descriptor changes: still a free chain. *)
Lemma fchain_retarget D l t td x :
  fchain D (l ++ [t]) -> NoDup (l ++ [t]) -> D !! t = Some td -> flag td VRING_DESC_F_NEXT = true ->
  fchain (<[t := with_next td x]> D) (l ++ [t]).
Proof.
  intros Hf Hnd Hd Hfl. induction l as [|i l IH].
  - cbn. exists (with_next td x). rewrite list_lookup_insert_eq by (by eapply lookup_lt_Some). done.
  - cbn [app fchain] in *. destruct Hf as (d & Hi & Hfi & Hn & Hc). apply list.NoDup_cons in Hnd as [Hni Hnd].
    exists d. rewrite list_lookup_insert_ne; [by auto|]. intros ->. apply Hni, elem_of_app. right. left.
Qed.

(** A published chain whose last descriptor gets the next flag is a free chain. *)
Lemma bchain_free D l e bufs d' :
  bchain D (l ++ [e]) bufs -> NoDup (l ++ [e]) -> flag d' VRING_DESC_F_NEXT = true ->
  fchain (<[e := d']> D) (l ++ [e]).
Proof.
  revert bufs. induction l as [|i l IH]; intros bufs Hb Hnd Hfl.
  - destruct bufs as [|b [|b' bufs]]; try done. destruct Hb as (nx & Hd).
    exists d'. rewrite list_lookup_insert_eq by (by eapply lookup_lt_Some). done.
  - apply list.NoDup_cons in Hnd as [Hni Hnd].
    assert (i <> e) by (intros ->; apply Hni, elem_of_app; right; left).
    destruct bufs as [|b bufs]; [by destruct l|].
    destruct l as [|i' l]; destruct Hb as [Hd Hb]; (eexists; rewrite list_lookup_insert_ne by done);
      (split; [exact Hd|]); (split; [apply flags_linked|]); (split; [done|]); by eapply IH.
Qed.

Lemma in_split_out (out : list request) h :
  h ∈ map r_head out -> exists o1 r o2, out = o1 ++ r :: o2 /\ r_head r = h.
Proof.
  intros Hin. apply list_elem_of_fmap in Hin as (r & -> & Hr). apply list_elem_of_split in Hr as (o1 & o2 & ->).
  by eexists _, _, _.
Qed.

(** The descriptors of a request, of the free chain and of the other requests
    are apart. *)
Record parted (fl : list nat) (o : list request) (r : request) : Prop := {
  pt_free i : i ∈ r_idxs r -> i ∉ fl;
  pt_other x i : x ∈ o -> i ∈ r_idxs x -> i ∉ r_idxs r;
  pt_other_free x i : x ∈ o -> i ∈ r_idxs x -> i ∉ fl;
  pt_nodup : NoDup (r_idxs r);
  pt_nodup_free : NoDup fl
}.

Lemma ring_parted q fl o1 r o2 : ring_ok q fl (o1 ++ r :: o2) -> parted fl (o1 ++ o2) r.
Proof.
  intros Hok. pose proof (ring_nodup _ _ _ Hok) as Hnd.
  assert (Hmove : fl ++ concat (map r_idxs (o1 ++ r :: o2)) ≡ₚ fl ++ r_idxs r ++ concat (map r_idxs (o1 ++ o2))).
  { rewrite !map_app, !concat_app. cbn [map concat]. solve_Permutation. }
  rewrite Hmove in Hnd. apply list.NoDup_app in Hnd as (Hf & Hd1 & Hnd). apply list.NoDup_app in Hnd as (Hr & Hd2 & _).
  split; try done.
  - intros i Hi Hin. apply (Hd1 i Hin), elem_of_app. by left.
  - intros x i Hx Hi Hin. apply (Hd2 i Hin). by eapply elem_of_concat_idxs.
  - intros x i Hx Hi Hin. apply (Hd1 i Hin), elem_of_app. right. by eapply elem_of_concat_idxs.
Qed.

Lemma bchain_last D l e bufs :
  bchain D (l ++ [e]) bufs ->
  exists d, D !! e = Some d /\ flag d VRING_DESC_F_NEXT = false /\ flag d VRING_DESC_F_INDIRECT = false.
Proof.
  revert bufs. induction l as [|i l IH]; intros [|b bufs]; try done.
  - destruct bufs; [|done]. intros (nx & Hd). eexists. split; [exact Hd|]. apply flags_last.
  - by destruct l.
  - destruct l; intros [_ Hb]; by eapply IH.
Qed.

(** The driver's side with the request [r] put back behind the last free
    descriptor [t]. *)
Lemma refree_ring q fl o1 r o2 fl0 t td l e d' D2 :
  ring_ok q fl (o1 ++ r :: o2) -> fl = fl0 ++ [t] -> r_idxs r = l ++ [e] ->
  v_desc (q_vring q) !! t = Some td -> flag d' VRING_DESC_F_NEXT = true ->
  D2 = <[e := d']> (<[t := with_next td (Z.of_nat (r_head r))]> (v_desc (q_vring q))) ->
  ring_ok (set_free (free_num q + Z.of_nat (length (r_idxs r))) (free_head q) (Z.of_nat e)
             (set_vring (set_desc D2 (q_vring q)) q)) (fl ++ r_idxs r) (o1 ++ o2).
Proof.
  intros Hok Hfl He Htd Hd' ->. destruct (ring_parted _ _ _ _ _ Hok) as [P1 P2 P3 P4 P5].
  destruct Hok as [Hnum H1 H2 H3 H4 H5 H6 H7 H8 H9 H10 H11]. rewrite list.Forall_forall in H10.
  assert (t ∈ fl) as Htin by (rewrite Hfl; apply elem_of_app; right; left).
  assert (e ∈ r_idxs r) as Hein by (rewrite He; apply elem_of_app; right; left).
  assert (e <> t) as Het by (intros ->; by apply (P1 t)).
  assert (flag td VRING_DESC_F_NEXT = true) as Htf.
  { rewrite Hfl in H6. apply fchain_app in H6 as [_ (td' & Htd' & Htf & _)]. rewrite Htd in Htd'. by injection Htd' as <-. }
  split; cbn; try done.
  - by rewrite !length_insert.
  - rewrite <- H5. rewrite !map_app, !concat_app. cbn [map concat]. solve_Permutation.
  - apply fchain_link.
    + apply (fchain_frame (<[t := with_next td (Z.of_nat (r_head r))]> (v_desc (q_vring q)))).
      * rewrite Hfl in *. by apply fchain_retarget.
      * intros i Hi. apply list_lookup_insert_ne. intros <-. by apply (P1 e).
    + rewrite He in *. apply (bchain_free _ l e (r_bufs r)); [|done|done].
      eapply bchain_frame; [destruct (H10 r) as (Hb & _); [apply elem_of_app; right; left|rewrite He in Hb; exact Hb]|].
      intros i Hi. apply list_lookup_insert_ne. intros <-. by apply (P1 t).
    + intros t' h Ht' Hh. rewrite Hfl, last_snoc in Ht'. injection Ht' as <-.
      exists (with_next td (Z.of_nat (r_head r))). unfold r_head. rewrite Hh. split; [|done].
      rewrite list_lookup_insert_ne by done. by rewrite list_lookup_insert_eq by (by eapply lookup_lt_Some).
  - destruct H7 as (h & Hh & Hhd). exists h. split; [|done]. by destruct fl.
  - exists e. split; [|done]. by rewrite He, app_assoc, last_snoc.
  - rewrite H9, length_app. lia.
  - eapply out_frame; [| |done].
    + apply list.Forall_forall. intros x Hx. apply H10. apply elem_of_app in Hx as [Hx|Hx];
        apply elem_of_app; [by left|right; by right].
    + intros x i Hx Hi. rewrite !list_lookup_insert_ne; [done| |].
      * intros <-. by apply (P3 x t).
      * intros <-. by apply (P2 x e).
Qed.

Lemma free_chain_ok s fl o1 r o2 :
  ring_ok (vq s) fl (o1 ++ r :: o2) ->
  wp (free_chain (Z.of_nat (r_head r))) s (fun _ s' => exists D' t,
    s' = QCtx (set_free (free_num (vq s) + Z.of_nat (length (r_idxs r))) (free_head (vq s)) t
                (set_vring (set_desc D' (q_vring (vq s))) (vq s))) (ind s) /\
    ring_ok (vq s') (fl ++ r_idxs r) (o1 ++ o2)).
Proof.
  intros Hok. pose proof Hok as [Hnum H1 H2 H3 H4 H5 H6 H7 (t & Hlast & Htail) H9 H10 H11].
  pose proof (ring_length _ _ _ Hok) as Hrl. pose proof (num_bound _ _ _ Hok) as Hnb.
  destruct (ring_parted _ _ _ _ _ Hok) as [P1 _ _ _ _].
  rewrite list.Forall_forall in H10. destruct (H10 r) as (Hb & _ & _); [apply elem_of_app; right; left|].
  destruct (bchain_length _ _ _ Hb) as [_ Hne]. destruct (last_split _ Hne) as (l & e & He).
  apply last_Some in Hlast as [fl0 Hfl]. rewrite map_app, concat_app in Hrl. cbn [map concat] in Hrl.
  rewrite !length_app in Hrl.
  assert (Hlen : (length l + 1 = length (r_idxs r))%nat) by (rewrite He, length_app; cbn; lia).
  assert (exists td, table s !! t = Some td /\ flag td VRING_DESC_F_NEXT = true) as (td & Htd & Htf).
  { rewrite Hfl in H6. apply fchain_app in H6 as [_ (td & Htd & Htf & _)]. by exists td. }
  assert (r_head r = default e (head l)) as Hrh by (unfold r_head; rewrite He; by destruct l).
  set (D1 := <[t := with_next td (Z.of_nat (r_head r))]> (table s)).
  assert (bchain D1 (l ++ [e]) (r_bufs r)) as Hb1.
  { rewrite <- He. eapply bchain_frame; [exact Hb|]. intros i Hi. unfold D1. apply list_lookup_insert_ne.
    intros <-. apply (P1 t Hi). rewrite Hfl. apply elem_of_app. right. left. }
  destruct (bchain_last _ _ _ _ Hb1) as (d & Hd & Hd1 & Hd2).
  unfold free_chain, get_vq, on_vq. wp_steps. rewrite Htail. eapply wp_get_desc; [exact Htd|].
  rewrite Htf. wp_steps. apply wp_put_desc. fold D1. wp_steps. cbn [vq with_desc set_vring q_num].
  rewrite Hrh. eapply wp_mono; [apply (chain_end_ok l e (r_bufs r)); [exact Hb1|lia]|].
  cbn. intros _ s' [-> ->]. cbn. wp_steps. eapply wp_get_desc; [exact Hd|]. rewrite Hd2. wp_steps.
  eapply wp_get_desc; [exact Hd|]. rewrite Hd1. wp_steps. apply wp_kassert; [done|]. wp_steps.
  apply wp_put_desc. wp_steps. cbn.
  assert (Hfn : wrap16 (free_num (vq s) + (0 + Z.of_nat (length l) + 1)) = free_num (vq s) + Z.of_nat (length (r_idxs r))).
  { unfold wrap16. rewrite H9, Z.mod_small; lia. }
  apply wp_kassert; [apply Z.leb_le; rewrite Hfn, H9; lia|].
  wp_steps. eexists _, (Z.of_nat e). split; [rewrite <- Hfn; done|].
  cbn [vq]. rewrite Hfn.
  exact (refree_ring (vq s) fl o1 r o2 fl0 t td l e
    (Desc (d_addr d) (d_len d) VRING_DESC_F_NEXT (free_head (vq s))) _ Hok Hfl He Htd eq_refl eq_refl).
Qed.

Lemma ring_set_last q fl out n i :
  ring_ok q fl out -> 0 <= n < q_num q -> ring_ok (set_last_used n i q) fl out.
Proof. intros [] Hn. by split. Qed.

Lemma from_queue_empty s fl out a pend held :
  ring_ok (vq s) fl out -> comm_ok (vq s) out a pend held [] ->
  wp virtio_from_queue s (fun r s' => r = None /\ s' = s).
Proof.
  intros Hok Hc. pose proof (num_pos _ _ _ Hok) as Hn. unfold virtio_from_queue, get_vq. wp_steps.
  apply wp_mod_num; [done|]. wp_steps. destruct (co_used_idx _ _ _ _ _ _ Hc) as [_ Heq].
  cbn in Heq. rewrite Heq, Z.add_0_r, Z.mod_small by apply (ro_last _ _ _ Hok). rewrite Z.eqb_refl. by wp_steps.
Qed.

(** A pending answer: the data stored with the request comes back and its
    descriptors go to the end of the free chain. *)
Lemma from_queue_some s fl out a pend held h len don :
  ring_ok (vq s) fl out -> comm_ok (vq s) out a pend held ((h, len) :: don) ->
  wp virtio_from_queue s (fun x s' => exists o1 r o2,
    out = o1 ++ r :: o2 /\ r_head r = h /\ x = Some (r_data r, len) /\
    ring_ok (vq s') (fl ++ r_idxs r) (o1 ++ o2) /\ comm_ok (vq s') (o1 ++ o2) a pend held don /\
    ind s' = ind s /\ q_num (vq s') = q_num (vq s)).
Proof.
  intros Hok Hc. pose proof (num_pos _ _ _ Hok) as Hn. pose proof (ro_last _ _ _ Hok) as Hlast.
  pose proof (comm_bound _ _ _ Hok _ _ _ _ Hc) as Hcb. cbn in Hcb. pose proof Hc as [C1 C2 C3 C4 [C5 C5'] C6].
  cbn [length] in C5'. pose proof (C6 0%nat h len eq_refl) as Hu. rewrite Z.add_0_r, Z.mod_small in Hu by lia.
  assert (h ∈ map r_head out) as Hin.
  { rewrite <- C1. apply elem_of_app. right. apply elem_of_app. right. left. }
  destruct (in_split_out _ _ Hin) as (o1 & r & o2 & -> & Hr).
  pose proof (ro_out _ _ _ Hok) as Hall. rewrite list.Forall_forall in Hall.
  destruct (Hall r) as (_ & Hnz & Hdat); [apply elem_of_app; right; left|]. rewrite Hr in Hdat.
  assert (0 <= Z.of_nat h < q_num (vq s)) as Hh.
  { split; [lia|]. apply lookup_lt_Some in Hdat. rewrite (ro_data _ _ _ Hok) in Hdat. lia. }
  unfold virtio_from_queue, get_vq. wp_steps. apply wp_mod_num; [done|]. wp_steps.
  assert (last_used (vq s) <> (last_used (vq s) + Z.of_nat (S (length don))) mod q_num (vq s)) as Hne.
  { intros Heq. pose proof (mod_inj (last_used (vq s)) 0 (Z.of_nat (S (length don))) (q_num (vq s))) as Hi.
    rewrite Z.add_0_r, (Z.mod_small (last_used (vq s))) in Hi by lia. specialize (Hi ltac:(lia) ltac:(lia) Heq). lia. }
  rewrite C5', (proj2 (Z.eqb_neq _ _) Hne). wp_steps. eapply wp_deref_opt; [exact Hu|]. wp_steps.
  apply wp_mod_num; [done|]. unfold on_vq. wp_steps. cbn [fst]. apply wp_mod_num; [done|]. wp_steps.
  cbn [vq set_last_used q_data]. rewrite (Z.mod_small (Z.of_nat h)), Nat2Z.id by lia.
  eapply wp_deref_opt; [exact Hdat|]. rewrite (proj2 (Z.eqb_neq _ _) Hnz). cbn [negb]. wp_steps.
  set (lu' := (last_used (vq s) + 1) mod q_num (vq s)).
  assert (0 <= lu' < q_num (vq s)) as Hlu by (apply Z.mod_pos_bound; lia).
  eapply wp_mono; [rewrite <- Hr; apply (free_chain_ok _ fl o1 r o2)|].
  { cbn. by apply ring_set_last. }
  intros _ s' (D' & t & -> & Hok'). cbn in Hok'. wp_steps. eapply wp_deref_opt; [exact Hdat|].
  wp_steps. unfold virtio_queue_enable_intr, on_vring. wp_steps. cbn. wp_steps. cbn.
  exists o1, r, o2. split; [done|]. split; [done|]. split; [done|].
  assert (Hother : forall x, x ∈ o1 ++ o2 -> r_head x <> h).
  { intros x Hx Heq. pose proof (ring_parted _ _ _ _ _ Hok) as [_ P2 _ _ _].
    destruct (request_nonempty _ _ _ Hok x) as [lx Hlx].
    { apply elem_of_app in Hx as [Hx|Hx]; apply elem_of_app; [by left|right; by right]. }
    destruct (request_nonempty _ _ _ Hok r) as [lr Hlr]; [apply elem_of_app; right; left|].
    apply (P2 x h Hx); [rewrite Hlx, Heq; left|rewrite Hlr, Hr; left]. }
  split; [|split; [|done]].
  - destruct Hok' as [K0 K1 K2 K3 K4 K5 K6 K7 K8 K9 K10 K11]. split; cbn in *; try done.
    + by rewrite length_insert.
    + eapply out_frame; [exact K10|done|]. intros x Hx. apply list_lookup_insert_ne. intros Heq. by apply (Hother x).
  - split; cbn; try done.
    + apply (Permutation_cons_inv (a := h)). transitivity (map r_head (o1 ++ r :: o2)).
      * rewrite <- C1. cbn. solve_Permutation.
      * rewrite !map_app. cbn. rewrite Hr. solve_Permutation.
    + split; [done|]. rewrite C5'. unfold lu'. rewrite Zplus_mod_idemp_l. f_equal. lia.
    + intros j h' len' Hj. unfold lu'. rewrite Zplus_mod_idemp_l.
      replace (last_used (vq s) + 1 + Z.of_nat j) with (last_used (vq s) + Z.of_nat (S j)) by lia.
      by apply C6.
Qed.

(** ** A queue after [init_phys_queue] *)

Lemma fchain_init num i n (m : nat) :
  0 <= num -> (exists k, num = 2 ^ k /\ 0 <= k <= 15) -> (i + n <= m)%nat -> m = Z.to_nat num ->
  fchain (map (free_desc num) (seq 0 m)) (seq i n).
Proof.
  intros Hnum Hk Hm Heq. revert i Hm. induction n as [|n IH]; intros i Hm; cbn; [done|].
  exists (free_desc num i). split.
  { rewrite list_lookup_fmap, lookup_seq_lt by lia. done. }
  split; [done|]. split; [|apply IH; lia]. destruct n as [|n]; [done|]. cbn.
  destruct Hk as (k & -> & Hk). rewrite land_low_mod by lia. rewrite Z.mod_small by lia. lia.
Qed.

Lemma init_ring_ok q :
  (exists k, q_num q = 2 ^ k /\ 0 <= k <= 15) ->
  ring_ok (init_phys_queue q) (seq 0 (Z.to_nat (q_num q))) [] /\
  comm_ok (init_phys_queue q) [] 0 [] [] [].
Proof.
  intros Hk. assert (0 < q_num q) as Hpos by (destruct Hk as (k & -> & Hk); apply Z.pow_pos_nonneg; lia).
  assert (q_num q <= 2 ^ 15) as Hb by (destruct Hk as (k & -> & Hk); apply Z.pow_le_mono_r; lia).
  split; split; cbn; try done; rewrite ?length_map, ?length_seq, ?length_replicate, ?app_nil_r; try done; try lia.
  - apply fchain_init; [lia|done|lia|done].
  - exists 0%nat. split; [|done]. by destruct (Z.to_nat (q_num q)) eqn:E; [lia|].
  - exists (Z.to_nat (q_num q) - 1)%nat. split.
    + destruct (Z.to_nat (q_num q)) as [|m] eqn:E; [lia|]. rewrite seq_S, last_snoc. f_equal. lia.
    + unfold wrap16. rewrite Z.mod_small; lia.
Qed.

(** Requests are known by their heads. *)
Lemma head_inj q fl out r r' :
  ring_ok q fl out -> r ∈ out -> r' ∈ out -> r_head r = r_head r' -> r = r'.
Proof.
  intros Hok Hr Hr' Heq. apply list_elem_of_split in Hr as (o1 & o2 & ->).
  destruct (ring_parted _ _ _ _ _ Hok) as [_ P2 _ _ _].
  destruct (request_nonempty _ _ _ Hok r) as [l Hl]; [apply elem_of_app; right; left|].
  destruct (request_nonempty _ _ _ Hok r' Hr') as [l' Hl'].
  apply elem_of_app in Hr' as [Hr'|[->|Hr']%elem_of_cons]; [|done|].
  - exfalso. apply (P2 r' (r_head r')); [apply elem_of_app; by left|rewrite Hl'; left|rewrite Hl, Heq; left].
  - exfalso. apply (P2 r' (r_head r')); [apply elem_of_app; by right|rewrite Hl'; left|rewrite Hl, Heq; left].
Qed.

(** The number of free descriptors, from the sizes of the requests. *)
Definition held_descs (out : list request) : nat := sum_list_with (fun r => length (r_bufs r)) out.

Lemma free_count q fl out :
  ring_ok q fl out -> free_num q = q_num q - Z.of_nat (held_descs out).
Proof.
  intros Hok. rewrite (ro_free_num _ _ _ Hok). pose proof (ring_length _ _ _ Hok) as Hl.
  pose proof (num_pos _ _ _ Hok). enough (held_descs out = length (concat (map r_idxs out))) by lia.
  pose proof (ro_out _ _ _ Hok) as Hall. clear - Hall. unfold held_descs.
  induction Hall as [|r out (Hb & _) Hall IH]; [done|]. cbn. rewrite length_app, IH.
  by destruct (bchain_length _ _ _ Hb) as [-> _].
Qed.

Lemma held_descs_perm o1 o2 : o1 ≡ₚ o2 -> held_descs o1 = held_descs o2.
Proof. unfold held_descs. induction 1; cbn; lia. Qed.

(** ** The contract of a queue *)

(** What a queue is for its users: requests wait until the device takes them,
    are answered in any order, and the answers are delivered in their order. *)
Record queue_spec := QSpec {
  s_size : Z;
  waiting : list (list addr_size * Z);
  taken : list (list addr_size * Z);
  answered : list (list addr_size * Z * Z);
  delivered : list (Z * Z)
}.
Definition spec_descs (A : queue_spec) : nat :=
  sum_list_with (fun r => length (fst r)) (waiting A ++ taken A ++ map fst (answered A)).
Definition spec_free (A : queue_spec) : Z := s_size A - Z.of_nat (spec_descs A).

Inductive label :=
  | Submit (bufs : list addr_size) (data r : Z)
  | Poll
  | Take (seen : list (Z * Z * bool))
  | Answer (n : nat) (len : Z).

Definition spec_poll (A : queue_spec) : queue_spec :=
  QSpec (s_size A) (waiting A) (taken A) [] (delivered A ++ map (fun x => (snd (fst x), snd x)) (answered A)).
Definition spec_submit (bufs : list addr_size) (data : Z) (A : queue_spec) : Z * queue_spec :=
  let A' := if spec_free A + 4 <? s_size A then spec_poll A else A in
  if spec_free A' - Z.of_nat (length bufs) <=? 0 then (EAGAIN, A')
  else (0, QSpec (s_size A') (waiting A' ++ [(bufs, data)]) (taken A') (answered A') (delivered A')).
(** What the device sees of a buffer: address, length, writable. *)
Definition seen_of (b : addr_size) : Z * Z * bool :=
  (vp_addr b, vp_size b, negb (Z.land (vp_flags b) VRING_DESC_F_WRITE =? 0)).

Inductive spec_step : queue_spec -> label -> queue_spec -> Prop :=
  | spec_step_submit A A' bufs data r :
      spec_submit bufs data A = (r, A') -> spec_step A (Submit bufs data r) A'
  | spec_step_poll A : spec_step A Poll (spec_poll A)
  | spec_step_take A bufs data w :
      waiting A = (bufs, data) :: w ->
      spec_step A (Take (map seen_of bufs))
        (QSpec (s_size A) w (taken A ++ [(bufs, data)]) (answered A) (delivered A))
  | spec_step_answer A n len r :
      taken A !! n = Some r ->
      spec_step A (Answer n len)
        (QSpec (s_size A) (waiting A) (delete n (taken A)) (answered A ++ [(r, len)]) (delivered A)).

(** The device of the virtio specification: it takes the entries of the
    available ring in order, reading the chain of descriptors of each, and
    answers, in any order, with used elements. *)
Inductive reads (T : list vring_desc) : nat -> list (Z * Z * bool) -> Prop :=
  | reads_last k d :
      T !! k = Some d -> flag d VRING_DESC_F_NEXT = false ->
      reads T k [(d_addr d, d_len d, flag d VRING_DESC_F_WRITE)]
  | reads_next k d l :
      T !! k = Some d -> flag d VRING_DESC_F_NEXT = true -> reads T (Z.to_nat (d_next d)) l ->
      reads T k ((d_addr d, d_len d, flag d VRING_DESC_F_WRITE) :: l).

(** ** A queue of a device with any client *)
Section clients.
Context {C : Type} (callback : nat -> Z -> Z -> M C unit).
Context {D : Type} (conf_write : Z -> Z -> M D unit).
Context (Hwrite : forall r v d, exists d', conf_write r v d = Done (tt, d')).
Context {H : Type} (i : nat).
Local Abbreviation vdev := (@virtio_device C D H).

Definition with_queue (q : virtio_queue) (s : vdev) : vdev :=
  set_queues (fmap (M := option) (fun l => <[i := q]> l) (queues s)) (num_queues s) s.
Definition the_queue (s : vdev) : option virtio_queue := l ← queues s; l !! i.

Lemma ring_ok_perm q fl o1 o2 : ring_ok q fl o1 -> o1 ≡ₚ o2 -> ring_ok q fl o2.
Proof. intros [] Hp. split; try done; [by rewrite <- Hp|by rewrite <- Hp]. Qed.

Lemma comm_ok_perm q o1 o2 a w t d : comm_ok q o1 a w t d -> o1 ≡ₚ o2 -> comm_ok q o2 a w t d.
Proof. intros [] Hp. split; try done. by rewrite <- Hp. Qed.

Definition view (r : request) : list addr_size * Z := (r_bufs r, r_data r).

(** The driver and the device implement the contract's state: [w], [t] and [d]
    are the requests that wait, are with the device, and are answered. *)
Record sim_with (s : vdev) (a : Z) (q : virtio_queue) (fl : list nat) (w t : list request)
    (d : list (request * Z)) : Prop := {
  sw_queue : the_queue s = Some q;
  sw_index : Z.of_nat i < num_queues s;
  sw_threads : threads s <= 1;
  sw_ring : ring_ok q fl (w ++ t ++ map fst d);
  sw_comm : comm_ok q (w ++ t ++ map fst d) a (map r_head w) (map r_head t)
              (map (fun x => (r_head (fst x), snd x)) d)
}.
(** What the callback is to be given for the answers [d]. *)
Definition answers (d : list (request * Z)) : list (Z * Z) := map (fun x => (r_data (fst x), snd x)) d.

Lemma wp_on_queue {A} (m : M qctx A) s q Q :
  the_queue s = Some q ->
  wp m (QCtx q (indirect s)) (fun a c => Q a (set_indirect (ind c) (num_indirect s) (with_queue (vq c) s))) ->
  wp (on_queue i m) s Q.
Proof.
  unfold the_queue, on_queue, with_queue. destruct (queues s) as [l|] eqn:Hl; [|done]. cbn. intros Hq Hwp.
  unfold wp in *. rewrite Hl, Hq. by destruct (m _) as [[a c]| | | |].
Qed.

Lemma the_queue_with q q' s : the_queue s = Some q -> the_queue (with_queue q' s) = Some q'.
Proof.
  unfold the_queue, with_queue. cbn. destruct (queues s) as [l|]; [|done]. cbn. intros Hq.
  apply list_lookup_insert_eq. by eapply lookup_lt_Some.
Qed.

Lemma with_queue_same q s : the_queue s = Some q -> set_indirect (indirect s) (num_indirect s) (with_queue q s) = s.
Proof.
  unfold the_queue, with_queue. destruct s as [[l|] ? ? ? ? ? ? ? ? ? ? ? ?]; [|done]. cbn. intros Hq.
  unfold set_indirect, set_queues. cbn. by rewrite list_insert_id.
Qed.

Lemma wp_get_queue {A} (f : qctx -> A) s q Q :
  the_queue s = Some q -> Q (f (QCtx q (indirect s))) s -> wp (on_queue i (gets f)) s Q.
Proof.
  intros Hq HQ. eapply wp_on_queue; [exact Hq|]. wp_steps. cbn. by rewrite with_queue_same.
Qed.

(** What the client's callback does with the answers, one after the other: [P l]
    holds when [l] is still to be delivered. *)
Context (P : list (Z * Z) -> C -> Prop).
Context (Hcallback : forall data len l c, P ((data, len) :: l) c -> wp (callback i data len) c (fun _ c' => P l c')).

(** Emptying the used ring delivers every answer, in order. *)
Lemma read_loop_gen fuel s a q fl w t d :
  sim_with s a q fl w t d -> P (answers d) (client s) -> (length d <= fuel)%nat ->
  wp (read_loop callback fuel i) s (fun _ s' => exists q' fl',
    sim_with s' a q' fl' w t [] /\ q_num q' = q_num q /\ P [] (client s')).
Proof.
  revert fuel s q fl. induction d as [|[r0 len] d IH]; intros fuel s q fl [Hq Hi Ht Hring Hcomm] HP Hfuel.
  - assert (wp (on_queue i virtio_from_queue) s (fun r s' => r = None /\ s' = s)) as Hw.
    { eapply wp_on_queue; [exact Hq|]. eapply wp_mono; [by eapply from_queue_empty|].
      cbn. intros r c [-> ->]. split; [done|]. by apply with_queue_same. }
    destruct fuel; cbn [read_loop]; wp_steps; (eapply wp_mono; [exact Hw|]); cbn; intros r s' [-> ->]; wp_steps;
      by exists q, fl.
  - destruct fuel as [|fuel]; [cbn in Hfuel; lia|]. cbn [read_loop]. wp_steps.
    cbn [map fst snd] in Hring, Hcomm.
    eapply wp_on_queue; [exact Hq|]. eapply wp_mono.
    { eapply (from_queue_some (QCtx q (indirect s))); [exact Hring|exact Hcomm]. }
    cbn. intros x c (o1 & r & o2 & Hout & Hr & -> & Hring' & Hcomm' & Hind & Hnum).
    assert (r = r0) as ->.
    { apply (head_inj _ _ _ _ _ Hring); [rewrite Hout; apply elem_of_app; right; left| |done].
      cbn. rewrite !elem_of_app. right. right. left. }
    assert (o1 ++ o2 ≡ₚ w ++ t ++ map fst d) as Hperm.
    { apply (Permutation_cons_inv (a := r0)). transitivity (o1 ++ r0 :: o2); [solve_Permutation|].
      rewrite <- Hout. cbn. rewrite !app_assoc. symmetry. apply Permutation_middle. }
    unfold on_client. wp_steps. cbn [client set_indirect with_queue set_queues].
    eapply wp_mono; [by apply Hcallback|]. cbn beta. intros _ c1 HP1. wp_steps. eapply wp_mono.
    { apply (IH fuel _ (vq c) (fl ++ r_idxs r0)); [|exact HP1|cbn in Hfuel; lia]. split; cbn; try done.
      - change (the_queue (with_queue (vq c) s) = Some (vq c)). by eapply the_queue_with.
      - by eapply ring_ok_perm.
      - by eapply comm_ok_perm. }
    cbn. intros _ s' (q' & fl' & Hsim & Hn & HP'). exists q', fl'. split; [done|]. split; [congruence|done].
Qed.

(** Nothing the contract talks about depends on the registers. *)
Lemma kick_ok s q Q :
  the_queue s = Some q -> Z.of_nat i < num_queues s ->
  (forall d' b, Q tt (set_regs d' (set_show b s))) -> wp (kick_queue conf_write i) s Q.
Proof.
  intros Hq Hi HQ. unfold kick_queue, wants_kick. wp_steps. apply wp_kassert; [by apply Z.ltb_lt|]. wp_steps.
  eapply wp_get_queue; [exact Hq|]. unfold on_regs. wp_steps.
  destruct (Hwrite VIRTIO_PCI_QUEUE_NOTIFY (Z.of_nat i) (regs (set_show (used_idx (q_vring q) + 5 <? avail_idx (q_vring q)) s)))
    as (d' & Hd'). unfold wp. cbn [vq] in *. rewrite Hd'. apply HQ.
Qed.

Lemma sim_regs s a q fl w t d d' b :
  sim_with s a q fl w t d -> sim_with (set_regs d' (set_show b s)) a q fl w t d.
Proof. by intros []. Qed.

Lemma read_queue_gen s a q fl w t d :
  sim_with s a q fl w t d -> P (answers d) (client s) ->
  wp (virtio_read_queue callback i) s (fun r s' => r = 0 /\ exists q' fl',
    sim_with s' a q' fl' w t [] /\ q_num q' = q_num q /\ P [] (client s')).
Proof.
  intros Hsim HP. pose proof Hsim as [Hq Hi Ht Hring Hcomm]. unfold virtio_read_queue. wp_steps.
  apply wp_kassert; [by apply Z.ltb_lt|]. wp_steps. unfold get_vq. eapply wp_get_queue; [exact Hq|]. cbn [vq]. wp_steps.
  eapply wp_mono; [apply (read_loop_gen _ s a q fl w t d Hsim HP)|].
  - pose proof (comm_bound _ _ _ Hring _ _ _ _ Hcomm) as Hb. rewrite !length_map in Hb. lia.
  - cbn. intros _ s' Hs'. wp_steps. by split.
Qed.

(** The part of [virtio_to_queue] after the used ring is emptied. *)
Lemma submit_ok s a q fl w t d bufs data :
  sim_with s a q fl w t d -> bufs <> [] -> data <> 0 -> Z.of_nat (length bufs) < free_num q ->
  wp (th <- gets threads ;; on_queue i (publish th bufs data) ;;; kick_queue conf_write i ;;; ret 0) s
    (fun r s' => r = 0 /\ exists q' fl' r0, sim_with s' a q' fl' (w ++ [r0]) t d /\ view r0 = (bufs, data) /\
       q_num q' = q_num q /\ client s' = client s).
Proof.
  intros [Hq Hi Ht Hring Hcomm] Hne Hdata Hroom. wp_steps. eapply wp_on_queue; [exact Hq|].
  pose proof (Hring) as Hring0. eapply wp_mono.
  { apply (publish_ok (QCtx q (indirect s)) fl (w ++ t ++ map fst d) a _ _ _ (threads s) bufs data Hring Hcomm
      Hne Hroom Hdata). cbn. apply andb_false_iff. right. apply Z.ltb_ge. lia. }
  cbn. intros _ c (fl1 & fl2 & -> & Hlen & Hind & Hring' & Hcomm'). wp_steps.
  assert (Hperm : (w ++ t ++ map fst d) ++ [Request fl1 bufs data] ≡ₚ (w ++ [Request fl1 bufs data]) ++ t ++ map fst d)
    by solve_Permutation.
  eapply kick_ok; [by eapply the_queue_with|done|]. intros d' b. wp_steps. split; [done|].
  exists (vq c), fl2, (Request fl1 bufs data). split; [|split; [done|split; [|done]]].
  - apply sim_regs. split; cbn; try done; [by eapply (the_queue_with q (vq c) s)|by eapply ring_ok_perm|].
    rewrite map_app. by eapply comm_ok_perm.
  - pose proof (ring_length _ _ _ Hring') as L1. pose proof (ring_length _ _ _ Hring0) as L2.
    rewrite map_app, concat_app, !length_app in L1. cbn in L1. rewrite !length_app in L1, L2. cbn in L1.
    pose proof (num_pos _ _ _ Hring'). pose proof (num_pos _ _ _ Hring0). lia.
Qed.

(** [virtio_to_queue]: the used ring is emptied when more than four descriptors
    are in use, and the request then waits unless descriptors are short. *)
Lemma to_queue_gen s a q fl w t d bufs data :
  sim_with s a q fl w t d -> P (answers d) (client s) -> bufs <> [] -> data <> 0 ->
  wp (virtio_to_queue callback conf_write i bufs data) s (fun r s' => exists q1 fl1,
    let d' := if free_num q + 4 <? q_num q then [] else d in
    ring_ok q1 fl1 (w ++ t ++ map fst d') /\ q_num q1 = q_num q /\
    (if free_num q1 - Z.of_nat (length bufs) <=? 0
     then r = EAGAIN /\ sim_with s' a q1 fl1 w t d' /\ P (answers d') (client s')
     else r = 0 /\ exists q' fl' r0, sim_with s' a q' fl' (w ++ [r0]) t d' /\ view r0 = (bufs, data) /\
       P (answers d') (client s') /\ q_num q' = q_num q)).
Proof.
  intros Hsim HP Hne Hdata. pose proof Hsim as [Hq Hi Ht Hring Hcomm]. unfold virtio_to_queue. wp_steps.
  apply wp_kassert; [apply Z.leb_le; lia|]. rewrite (proj2 (Z.eqb_neq data 0)) by done. cbn [negb]. wp_steps.
  eapply wp_get_queue; [exact Hq|]. cbn [vq]. wp_steps.
  set (d' := if _ <? _ then [] else d).
  assert (wp (if free_num q + 4 <? q_num q then virtio_read_queue callback i else ret 0) s (fun _ s1 =>
    exists q1 fl1, sim_with s1 a q1 fl1 w t d' /\ P (answers d') (client s1) /\ q_num q1 = q_num q)) as Hread.
  { subst d'. destruct (_ <? _).
    - eapply wp_mono; [by apply (read_queue_gen s a q fl w t d)|]. cbn. intros _ s1 (_ & q1 & fl1 & Hs1 & Hn & HP1).
      by exists q1, fl1.
    - apply wp_ret. by exists q, fl. }
  eapply wp_mono; [exact Hread|]. cbn beta. intros _ s1 (q1 & fl1 & Hsim1 & HP1 & Hn1). wp_steps.
  eapply wp_get_queue; [apply Hsim1|]. cbn [vq]. destruct (Z.leb_spec (free_num q1 - Z.of_nat (length bufs)) 0) as [Hfull|Hroom].
  - wp_steps. exists q1, fl1. split; [apply Hsim1|]. split; [done|]. rewrite (proj2 (Z.leb_le _ _)) by lia. done.
  - eapply wp_mono; [apply (submit_ok s1 a q1 fl1 w t d' bufs data Hsim1 Hne Hdata); lia|].
    cbn beta. intros r s' (-> & q' & fl' & r0 & Hsim' & Hv & Hn & Hcl). exists q1, fl1. split; [apply Hsim1|].
    split; [done|]. rewrite (proj2 (Z.leb_gt _ _)) by lia. split; [done|]. exists q', fl', r0. rewrite Hcl, Hn. done.
Qed.
(** ** The device's moves *)

Lemma flag_write b x z n :
  flag (Desc x z (wbit b) n) VRING_DESC_F_WRITE = negb (Z.land (vp_flags b) VRING_DESC_F_WRITE =? 0) /\
  flag (Desc x z (Z.lor VRING_DESC_F_NEXT (wbit b)) n) VRING_DESC_F_WRITE =
    negb (Z.land (vp_flags b) VRING_DESC_F_WRITE =? 0).
Proof. unfold flag, wbit. cbn [d_flags]. by destruct (Z.land (vp_flags b) VRING_DESC_F_WRITE =? 0). Qed.

Lemma bchain_reads T k l bufs seen : bchain T (k :: l) bufs -> reads T k seen -> seen = map seen_of bufs.
Proof.
  intros Hb Hr. revert l bufs Hb. induction Hr as [k d Hd Hf|k d seen Hd Hf Hr IH]; intros l bufs Hb.
  - destruct l as [|j l], bufs as [|b bufs]; try done.
    + destruct bufs; [|done]. destruct Hb as (nx & Hd'). rewrite Hd in Hd'. injection Hd' as ->.
      cbn [d_addr d_len map]. by rewrite (proj1 (flag_write _ _ _ _)).
    + destruct Hb as [Hd' _]. rewrite Hd in Hd'. injection Hd' as ->.
      by rewrite (proj1 (flags_linked _ _ _ _)) in Hf.
  - destruct l as [|j l], bufs as [|b bufs]; try done.
    + destruct bufs; [|done]. destruct Hb as (nx & Hd'). rewrite Hd in Hd'. injection Hd' as ->.
      by rewrite (proj1 (flags_last _ _ _ _)) in Hf.
    + destruct Hb as [Hd' Hb]. rewrite Hd in Hd'. injection Hd' as ->. cbn [d_next] in *. rewrite Nat2Z.id in *.
      cbn. f_equal; [|by eapply IH].
      by rewrite (proj2 (flag_write _ _ _ _)).
Qed.

Lemma take_ok s a q fl w t d k seen :
  sim_with s a q fl w t d -> avail_idx (q_vring q) <> wrap16 a ->
  avail_ring (q_vring q) !! Z.to_nat (a mod q_num q) = Some (Z.of_nat k) ->
  reads (v_desc (q_vring q)) k seen ->
  exists r w', w = r :: w' /\ k = r_head r /\ seen = map seen_of (r_bufs r) /\
    sim_with s (a + 1) q fl w' (t ++ [r]) d.
Proof.
  intros [Hq Hi Ht Hring Hcomm] Hne Hk Hr. destruct Hcomm as [C1 C2 C3 C4 C5 C6].
  destruct w as [|r w]; [by rewrite C3, Z.add_0_r in Hne|].
  pose proof (C4 0%nat (r_head r) eq_refl) as Hh. rewrite Z.add_0_r, Hk in Hh. injection Hh as Hh.
  apply Nat2Z.inj in Hh as ->. exists r, w. split; [done|]. split; [done|].
  assert (r ∈ (r :: w) ++ t ++ map fst d) as Hin by left.
  pose proof (ro_out _ _ _ Hring) as Hall. rewrite list.Forall_forall in Hall.
  destruct (Hall r Hin) as (Hb & _). destruct (request_nonempty _ _ _ Hring r Hin) as [l Hl]. rewrite Hl in Hb.
  split; [by eapply bchain_reads|].
  assert ((r :: w) ++ t ++ map fst d ≡ₚ w ++ (t ++ [r]) ++ map fst d) as Hp by solve_Permutation.
  split; try done; [by eapply ring_ok_perm|]. split; try done.
  - rewrite <- Hp, <- C1. rewrite map_app. cbn. solve_Permutation.
  - lia.
  - rewrite C3. cbn. f_equal. lia.
  - intros j h Hj. replace (a + 1 + Z.of_nat j) with (a + Z.of_nat (S j)) by lia. by apply C4.
Qed.

Lemma answer_ok s a q fl w t d n r len :
  sim_with s a q fl w t d -> t !! n = Some r ->
  sim_with (with_queue (set_vring (set_used (wrap16 (used_idx (q_vring q) + 1))
     (<[Z.to_nat (used_idx (q_vring q) mod q_num q) := (Z.of_nat (r_head r), len)]> (used_ring (q_vring q)))
     (q_vring q)) q) s) a
    (set_vring (set_used (wrap16 (used_idx (q_vring q) + 1))
     (<[Z.to_nat (used_idx (q_vring q) mod q_num q) := (Z.of_nat (r_head r), len)]> (used_ring (q_vring q)))
     (q_vring q)) q) fl w (delete n t) (d ++ [(r, len)]).
Proof.
  intros [Hq Hi Ht Hring Hcomm] Hn. pose proof (num_pos _ _ _ Hring) as Hpos.
  pose proof (comm_bound _ _ _ Hring _ _ _ _ Hcomm) as Hcb. rewrite !length_map in Hcb.
  pose proof (lookup_lt_Some _ _ _ Hn) as Hnl.
  pose proof (delete_Permutation t n r Hn) as Hp1.
  assert (w ++ t ++ map fst d ≡ₚ w ++ delete n t ++ map fst (d ++ [(r, len)])) as Hp.
  { rewrite map_app. cbn. rewrite Hp1 at 1. solve_Permutation. }
  split; cbn; try done; [by eapply the_queue_with| |].
  - apply (ring_ok_perm _ _ (w ++ t ++ map fst d)); [|done].
    destruct Hring as [K0 K1 K2 K3 K4 K5 K6 K7 K8 K9 K10 K11]. split; try done. cbn. by rewrite length_insert.
  - destruct Hcomm as [C1 C2 C3 C4 [C5 C5'] C6]. rewrite length_map in C5'. split; cbn; try done.
    + rewrite <- Hp, <- C1, !map_app. cbn. rewrite map_map. apply (fmap_Permutation r_head) in Hp1.
      cbn in Hp1. change (r_head <$> t) with (map r_head t) in Hp1. rewrite Hp1 at 1.
      cbn. change (r_head <$> delete n t) with (map r_head (delete n t)). solve_Permutation.
    + split; [apply Z.mod_pos_bound; lia|]. rewrite (mod_wrap16 _ _ _ Hring), <- Zplus_mod_idemp_l, C5', Zplus_mod_idemp_l.
      rewrite length_map, length_app. cbn. f_equal. lia.
    + intros j h z Hj. rewrite map_app in Hj. apply lookup_app_Some in Hj as [Hj|[Hge Hj]].
      * pose proof (lookup_lt_Some _ _ _ Hj) as Hjl. rewrite length_map in Hjl.
        rewrite list_lookup_insert_ne; [by apply C6|]. rewrite C5'. intros Heq.
        apply Z2Nat.inj in Heq; [|apply Z.mod_pos_bound; lia|apply Z.mod_pos_bound; lia]. apply mod_inj in Heq; lia.
      * rewrite length_map in Hge, Hj. apply list_lookup_singleton_Some in Hj as [Hj0 [= <- <-]].
        replace j with (length d) by lia. rewrite C5'. apply list_lookup_insert_eq. rewrite (ro_used _ _ _ Hring).
        pose proof (Z.mod_pos_bound (last_used q + Z.of_nat (length d)) (q_num q)). lia.
Qed.

End clients.

(** ** The protocol, with a client that records *)
Section protocol.
Context {D : Type} (conf_write : Z -> Z -> M D unit).
Context (Hwrite : forall r v d, exists d', conf_write r v d = Done (tt, d')).
Context {H : Type} (i : nat).

(** A client that records what its callback is given. *)
Definition recording (_ : nat) (data len : Z) : M (list (Z * Z)) unit := modify (fun c => c ++ [(data, len)]).
Local Abbreviation vdev := (@virtio_device (list (Z * Z)) D H).
Local Abbreviation the_queue := (the_queue i).
Local Abbreviation with_queue := (with_queue i).
Local Abbreviation sim_with := (sim_with i).

Record config := Config { driver : vdev; cursor : Z; heads : list nat }.

Inductive step : config -> label -> config -> Prop :=
  | step_submit s s' a h bufs data r :
      bufs <> [] -> data <> 0 ->
      virtio_to_queue recording conf_write i bufs data s = Done (r, s') ->
      step (Config s a h) (Submit bufs data r) (Config s' a h)
  | step_poll s s' a h r :
      virtio_read_queue recording i s = Done (r, s') ->
      step (Config s a h) Poll (Config s' a h)
  | step_take s q a h k seen :
      the_queue s = Some q -> avail_idx (q_vring q) <> wrap16 a ->
      avail_ring (q_vring q) !! Z.to_nat (a mod q_num q) = Some (Z.of_nat k) ->
      reads (v_desc (q_vring q)) k seen ->
      step (Config s a h) (Take seen) (Config s (a + 1) (h ++ [k]))
  | step_answer s q a h n k len :
      the_queue s = Some q -> h !! n = Some k ->
      step (Config s a h) (Answer n len)
        (Config (with_queue (set_vring (set_used (wrap16 (used_idx (q_vring q) + 1))
           (<[Z.to_nat (used_idx (q_vring q) mod q_num q) := (Z.of_nat k, len)]> (used_ring (q_vring q)))
           (q_vring q)) q) s) a (delete n h)).

Definition spec_of (s : vdev) (q : virtio_queue) (w t : list request) (d : list (request * Z)) : queue_spec :=
  QSpec (q_num q) (map view w) (map view t) (map (fun x => (view (fst x), snd x)) d) (client s).
Definition sim (c : config) (A : queue_spec) : Prop :=
  exists q fl w t d, sim_with (driver c) (cursor c) q fl w t d /\ heads c = map r_head t /\
    A = spec_of (driver c) q w t d.

Lemma recording_gen c0 data len l c : c ++ (data, len) :: l = c0 -> wp (recording i data len) c (fun _ c' => c' ++ l = c0).
Proof. intros Hc. unfold recording. wp_steps. by rewrite <- app_assoc. Qed.

Lemma spec_free_held s q w t d : spec_free (spec_of s q w t d) = q_num q - Z.of_nat (held_descs (w ++ t ++ map fst d)).
Proof.
  unfold spec_free, spec_descs, held_descs. cbn. f_equal. f_equal. rewrite map_map.
  assert (forall l : list request, sum_list_with (fun r => length r.1) (map view l) =
    sum_list_with (fun r => length (r_bufs r)) l) as Hv.
  { intros l. induction l as [|x l IH]; cbn; [done|by rewrite IH]. }
  rewrite !sum_list_with_app, !Hv. do 2 f_equal. rewrite <- Hv, map_map. done.
Qed.
Lemma spec_free_of s a q fl w t d :
  sim_with s a q fl w t d -> spec_free (spec_of s q w t d) = free_num q.
Proof. intros [_ _ _ Hring _]. by rewrite (free_count _ _ _ Hring), spec_free_held. Qed.

Lemma read_queue_ok s a q fl w t d :
  sim_with s a q fl w t d ->
  wp (virtio_read_queue recording i) s (fun r s' => r = 0 /\ exists q' fl',
    sim_with s' a q' fl' w t [] /\ spec_of s' q' w t [] = spec_poll (spec_of s q w t d)).
Proof.
  intros Hsim. eapply wp_mono.
  { apply (read_queue_gen recording i _ (recording_gen (client s ++ answers d)) s a q fl w t d Hsim). done. }
  cbn. intros r s' (-> & q' & fl' & Hsim' & Hn & Hcl). rewrite app_nil_r in Hcl. split; [done|]. exists q', fl'. split; [done|].
  unfold spec_of, spec_poll. cbn. rewrite Hn, Hcl, map_map. done.
Qed.

Lemma to_queue_ok s a q fl w t d bufs data :
  sim_with s a q fl w t d -> bufs <> [] -> data <> 0 ->
  wp (virtio_to_queue recording conf_write i bufs data) s (fun r s' => exists q' fl' w' d',
    sim_with s' a q' fl' w' t d' /\
    spec_submit bufs data (spec_of s q w t d) = (r, spec_of s' q' w' t d')).
Proof.
  intros Hsim Hne Hdata. eapply wp_mono.
  { apply (to_queue_gen recording conf_write Hwrite i _ (recording_gen (client s ++ answers d)) s a q fl w t d bufs data Hsim); done. }
  cbn beta. intros r s' (q1 & fl1 & Hring1 & Hn1 & Hs'). unfold spec_submit. rewrite (spec_free_of _ _ _ _ _ _ _ Hsim).
  cbn [s_size spec_of]. set (d' := if _ <? _ then [] else d) in *.
  assert (forall q' s'', client s'' ++ answers d' = client s ++ answers d -> q_num q' = q_num q ->
    (if free_num q + 4 <? q_num q then spec_poll (spec_of s q w t d) else spec_of s q w t d) = spec_of s'' q' w t d') as Hpoll.
  { intros q' s'' Hc Hn. subst d'. unfold spec_of, spec_poll. destruct (_ <? _); cbn in *; rewrite Hn.
    - rewrite app_nil_r in Hc. by rewrite Hc, map_map.
    - apply app_inv_tail in Hc. by rewrite Hc. }
  pose proof (free_count _ _ _ Hring1) as Hfree1.
  destruct (Z.leb_spec (free_num q1 - Z.of_nat (length bufs)) 0) as [Hfull|Hroom].
  - destruct Hs' as (-> & Hsim1 & Hcl). rewrite (Hpoll q1 s' Hcl Hn1), (spec_free_of _ _ _ _ _ _ _ Hsim1).
    rewrite (proj2 (Z.leb_le _ _)) by lia. by exists q1, fl1, w, d'.
  - destruct Hs' as (-> & q' & fl' & r0 & Hsim1 & Hv & Hcl & Hn). rewrite (Hpoll q' s' Hcl Hn).
    assert (spec_free (spec_of s' q' w t d') = free_num q1) as Hf.
    { rewrite spec_free_held, Hfree1. congruence. }
    rewrite Hf, (proj2 (Z.leb_gt _ _)) by lia. exists q', fl', (w ++ [r0]), d'. split; [done|].
    unfold spec_of. cbn. rewrite map_app. cbn. by rewrite Hv.
Qed.

(** Every step of the driver or the device is a step of the contract. *)
Lemma sim_step c A l c' :
  sim c A -> step c l c' -> exists A', spec_step A l A' /\ sim c' A'.
Proof.
  intros (q & fl & w & t & d & Hsim & Hh & ->) Hstep.
  destruct Hstep as [s s' a h bufs data r Hne Hdata Hrun|s s' a h r Hrun|s q0 a h k seen Hq Hidx Hk Hr|s q0 a h n k len Hq Hn];
    cbn in Hsim, Hh.
  - pose proof (to_queue_ok s a q fl w t d bufs data Hsim Hne Hdata) as Hw. unfold wp in Hw. rewrite Hrun in Hw.
    destruct Hw as (q' & fl' & w' & d' & Hsim' & Hspec). eexists. split; [by apply spec_step_submit|].
    by exists q', fl', w', t, d'.
  - pose proof (read_queue_ok s a q fl w t d Hsim) as Hw. unfold wp in Hw. rewrite Hrun in Hw.
    destruct Hw as (_ & q' & fl' & Hsim' & Hspec). eexists. split; [apply spec_step_poll|].
    exists q', fl', w, t, []. split; [done|]. split; [done|]. symmetry. exact Hspec.
  - assert (q0 = q) as -> by (rewrite (sw_queue _ _ _ _ _ _ _ _ Hsim) in Hq; by injection Hq as <-).
    destruct (take_ok i s a q fl w t d k seen Hsim Hidx Hk Hr) as (r & w' & -> & -> & -> & Hsim').
    eexists. split; [by apply (spec_step_take _ (r_bufs r) (r_data r) (map view w'))|].
    exists q, fl, w', (t ++ [r]), d. cbn. rewrite Hh, !map_app. split; [done|]. split; [done|].
    unfold spec_of. by rewrite map_app.
  - assert (q0 = q) as -> by (rewrite (sw_queue _ _ _ _ _ _ _ _ Hsim) in Hq; by injection Hq as <-).
    rewrite Hh in Hn. apply list_lookup_fmap_Some in Hn as (r & -> & Hn).
    eexists. split; [apply (spec_step_answer _ n len (view r)); apply (list_lookup_fmap_Some view); by exists r|].
    eexists _, fl, w, (delete n t), (d ++ [(r, len)]). split; [by apply answer_ok|].
    cbn. rewrite Hh. split; [symmetry; apply (list_fmap_delete r_head)|]. unfold spec_of. cbn.
    rewrite map_app. cbn. f_equal. symmetry. apply (list_fmap_delete view).
Qed.

(** Runs of the queue and of the contract. *)
Inductive run : config -> list label -> config -> Prop :=
  | run_nil c : run c [] c
  | run_cons c1 c2 c3 l ls : step c1 l c2 -> run c2 ls c3 -> run c1 (l :: ls) c3.
Inductive spec_run : queue_spec -> list label -> queue_spec -> Prop :=
  | spec_run_nil A : spec_run A [] A
  | spec_run_cons A1 A2 A3 l ls : spec_step A1 l A2 -> spec_run A2 ls A3 -> spec_run A1 (l :: ls) A3.

Lemma sim_run c ls c' A : run c ls c' -> sim c A -> exists A', spec_run A ls A' /\ sim c' A'.
Proof.
  intros Hrun. revert A. induction Hrun as [c|c1 c2 c3 l ls Hs Hr IH]; intros A Hsim.
  - exists A. split; [constructor|done].
  - destruct (sim_step _ _ _ _ Hsim Hs) as (A2 & HA2 & Hsim2).
    destruct (IH A2 Hsim2) as (A3 & HA3 & Hsim3). exists A3. split; [by econstructor|done].
Qed.

(** A freshly initialised queue is the empty contract. *)
Lemma init_sim s q :
  the_queue s = Some (init_phys_queue q) -> (exists k, q_num q = 2 ^ k /\ 0 <= k <= 15) ->
  Z.of_nat i < num_queues s -> threads s <= 1 -> client s = [] ->
  sim (Config s 0 []) (QSpec (q_num q) [] [] [] []).
Proof.
  intros Hq Hk Hi Ht Hc. destruct (init_ring_ok q Hk) as [Hring Hcomm].
  exists (init_phys_queue q), (seq 0 (Z.to_nat (q_num q))), [], [], []. split; [by split|]. split; [done|].
  unfold spec_of. cbn. by rewrite Hc.
Qed.

(** C21: a virtio queue of 2^k descriptors implements its contract.  From a
    freshly initialised queue, whatever the driver submits and polls and
    whatever a device that follows the virtio protocol takes and answers: the
    run is a run of the contract (a request is refused only when descriptors
    are short, the device sees exactly the buffers submitted, each answer is
    delivered once, in order, with the pointer of its request); and at its
    end no driver call panics, faults or loops for ever. *)
Theorem virtio_queue_refines s q ls c :
  the_queue s = Some (init_phys_queue q) -> (exists k, q_num q = 2 ^ k /\ 0 <= k <= 15) ->
  Z.of_nat i < num_queues s -> threads s <= 1 -> client s = [] ->
  run (Config s 0 []) ls c ->
  (exists A, spec_run (QSpec (q_num q) [] [] [] []) ls A /\ delivered A = client (driver c)) /\
  (forall bufs data, bufs <> [] -> data <> 0 ->
     exists r s', virtio_to_queue recording conf_write i bufs data (driver c) = Done (r, s')) /\
  (exists s', virtio_read_queue recording i (driver c) = Done (0, s')).
Proof.
  intros Hq Hk Hi Ht Hc Hrun. pose proof (init_sim s q Hq Hk Hi Ht Hc) as Hsim.
  destruct (sim_run _ _ _ _ Hrun Hsim) as (A & HA & q' & fl & w & t & d & Hs & _ & ->).
  split; [|split].
  - by exists (spec_of (driver c) q' w t d).
  - intros bufs data Hne Hdata. pose proof (to_queue_ok _ _ _ _ _ _ _ bufs data Hs Hne Hdata) as Hw.
    apply wp_run in Hw as (r & s' & Hr & _). by exists r, s'.
  - pose proof (read_queue_ok _ _ _ _ _ _ _ Hs) as Hw. apply wp_run in Hw as (r & s' & Hr & -> & _). by exists s'.
Qed.
End protocol.

(** ** Concrete devices *)

Definition null_write (_ _ : Z) : M unit unit := ret tt.
Definition small_queue : virtio_queue := VQueue 4096 4096 1 4 0 0 0 0 0 0 0 (Vring [] 0 0 [] 0 0 []) [].
Definition small_device : @virtio_device (list (Z * Z)) unit unit :=
  VDev (Some [init_phys_queue small_queue]) 1 0 [] 0 0 0 false false false [] tt tt.
Definition two_bufs : list addr_size := [AddrSize 100 10 0; AddrSize 200 20 2].
(** The device after [two_bufs] are submitted with pointer 7. *)
Definition submitted : @virtio_device (list (Z * Z)) unit unit :=
  match virtio_to_queue recording null_write 0 two_bufs 7 small_device with Done (_, s) => s | _ => small_device end.

Definition small_end : config := Config submitted (0 + 1) ([] ++ [0%nat]).

Lemma small_run :
  run null_write 0 (Config small_device 0 []) [Submit two_bufs 7 0; Take [(100, 10, false); (200, 20, true)]] small_end.
Proof.
  unfold small_end.
  eapply run_cons; [apply (step_submit _ _ _ submitted); [done|done|vm_compute; reflexivity]|].
  eapply run_cons; [|constructor].
  destruct (the_queue 0 submitted) as [q|] eqn:Hq; [|discriminate Hq].
  assert (Some q = the_queue 0 submitted) as Hq' by (by symmetry). vm_compute in Hq'. injection Hq' as Hqe.
  eapply step_take; [exact Hq|rewrite Hqe; vm_compute; discriminate|rewrite Hqe; reflexivity|].
  rewrite Hqe. cbn [v_desc q_vring].
  apply (reads_next _ 0 (Desc 100 10 1 1)); [reflexivity|reflexivity|].
  apply (reads_last _ 1 (Desc 200 20 2 2)); reflexivity.
Qed.

Lemma virtio_queue_refines_witness :
  exists A s', spec_run (QSpec 4 [] [] [] []) [Submit two_bufs 7 0; Take [(100, 10, false); (200, 20, true)]] A /\
    virtio_read_queue recording 0 (driver small_end) = Done (0, s').
Proof.
  destruct (virtio_queue_refines null_write (fun _ _ d => ex_intro _ tt (f_equal (fun u => Done (tt, u)) (match d with tt => eq_refl end)))
    0 small_device small_queue [Submit two_bufs 7 0; Take [(100, 10, false); (200, 20, true)]]
    small_end eq_refl) as ((A & HA & _) & _ & (s' & Hs)).
  - exists 2. split; [reflexivity|lia].
  - reflexivity.
  - simpl. lia.
  - reflexivity.
  - exact small_run.
  - exists A, s'. split; [exact HA|exact Hs].
Defined.

(** Registers with a queue selector and the queue sizes of the device. *)
Definition sized_regs : Type := Z * list Z.
Definition sized_read (r : Z) : M sized_regs Z :=
  d <- gets (fun d => d) ;;
  ret (if r =? VIRTIO_PCI_QUEUE_NUM then nth (Z.to_nat (fst d)) (snd d) 0 else 0).
Definition sized_write (r v : Z) : M sized_regs unit :=
  modify (fun d => if r =? VIRTIO_PCI_QUEUE_SEL then (v, snd d) else d).
Definition next_block (size : Z) : M Z Z := h <- gets (fun h => h) ;; modify (fun h => h + size) ;;; ret h.
Definition sized_device (sizes : list Z) : @virtio_device unit sized_regs Z :=
  VDev None 0 0 [] 0 0 0 false false false tt (0, sizes) 0x100000.
Definition alloc_sized (sizes : list Z) : outcome (Z * @virtio_device unit sized_regs Z) :=
  virtio_alloc_queues sized_read sized_write next_block (fun v => v) (fun _ => ret 1) (fun _ => ret tt) false
    (Z.of_nat (length sizes)) (sized_device sizes).

(** A device whose queue size is not a power of two: when it is the first
    queue, [virtio_alloc_queues] answers 1 in place of EINVAL
    ([(r = f() != OK)] assigns the comparison); when it is a later one, the
    error path frees the failed queue in place of those before it and its
    assertion panics. *)
Theorem virtio_alloc_queues_bad_size :
  match alloc_sized [3], alloc_sized [4; 3], alloc_sized [4; 8] with
  | Done (r1, _), Panic, Done (r3, _) => r1 = 1 /\ r1 <> EINVAL /\ r3 = 0
  | _, _, _ => False
  end.
Proof. vm_compute. split; [done|]. split; [done|done]. Qed.
