(* ===== verification/Stailq.v ===== *)
(** * Stailq: singly linked tail queues (include/yaos/queue.h)

    The macros STAILQ_* that the network driver uses, over a store of heads
    and links.  A head keeps the address of the last link so that an element is
    appended in one step; [is_q] relates head and links to a plain list, and
    each macro is shown to be the list operation it stands for and to leave
    every other queue alone. *)
From Stdlib Require Import ZArith Lia.
From stdpp Require Import base tactics gmap list option.
From S2P Require Import Prelude.

(** An address of a pointer to an element: [&head->stqh_first] or
    [&elm->field.stqe_next]. *)
Inductive slot := FirstOf (h : nat) | NextOf (e : nat).
(** [STAILQ_HEAD]: [stqh_first] and [stqh_last]. *)
Record tq_head := TqHead { stqh_first : option nat; stqh_last : slot }.
Record tqs := Tqs { tq_heads : gmap nat tq_head; tq_next : gmap nat (option nat) }.

Definition get_head (h : nat) : M tqs tq_head := T <- gets tq_heads ;; deref_opt (T !! h).
Definition put_head (h : nat) (x : tq_head) : M tqs unit := modify (fun T => Tqs (<[h := x]> (tq_heads T)) (tq_next T)).
Definition STAILQ_NEXT (e : nat) : M tqs (option nat) := T <- gets tq_next ;; deref_opt (T !! e).
Definition put_next (e : nat) (p : option nat) : M tqs unit :=
  STAILQ_NEXT e ;;; modify (fun T => Tqs (tq_heads T) (<[e := p]> (tq_next T))).
Definition set_first (h : nat) (p : option nat) : M tqs unit := x <- get_head h ;; put_head h (TqHead p (stqh_last x)).
Definition set_last (h : nat) (a : slot) : M tqs unit := x <- get_head h ;; put_head h (TqHead (stqh_first x) a).
(** [*a = p] *)
Definition store_slot (a : slot) (p : option nat) : M tqs unit :=
  match a with FirstOf h => set_first h p | NextOf e => put_next e p end.

Definition STAILQ_FIRST (h : nat) : M tqs (option nat) := x <- get_head h ;; ret (stqh_first x).
Definition STAILQ_EMPTY (h : nat) : M tqs bool := p <- STAILQ_FIRST h ;; ret (match p with None => true | Some _ => false end).
Definition STAILQ_INIT (h : nat) : M tqs unit := set_first h None ;;; set_last h (FirstOf h).
Definition STAILQ_INSERT_HEAD (h e : nat) : M tqs unit :=
  p <- STAILQ_FIRST h ;;
  put_next e p ;;;
  (match p with None => set_last h (NextOf e) | Some _ => ret tt end) ;;;
  set_first h (Some e).
Definition STAILQ_INSERT_TAIL (h e : nat) : M tqs unit :=
  put_next e None ;;;
  x <- get_head h ;;
  store_slot (stqh_last x) (Some e) ;;;
  set_last h (NextOf e).
Definition STAILQ_REMOVE_HEAD (h : nat) : M tqs unit :=
  p <- STAILQ_FIRST h ;;
  match p with
  | None => fault
  | Some e =>
      n <- STAILQ_NEXT e ;;
      set_first h n ;;;
      match n with None => set_last h (FirstOf h) | Some _ => ret tt end
  end.
(** [memcpy(&to, &from, sizeof(from))] of two heads. *)
Definition copy_head (to from : nat) : M tqs unit := x <- get_head from ;; put_head to x.

(** ** Queues as lists *)
Definition last_slot (h : nat) (l : list nat) : slot := match list.last l with Some e => NextOf e | None => FirstOf h end.
Definition linked (N : gmap nat (option nat)) (l : list nat) : Prop := forall k e, l !! k = Some e -> N !! e = Some (l !! S k).
Record is_q (T : tqs) (h : nat) (l : list nat) : Prop := {
  iq_head : tq_heads T !! h = Some (TqHead (head l) (last_slot h l));
  iq_linked : linked (tq_next T) l;
  iq_nodup : NoDup l
}.

Lemma linked_frame (N N' : gmap nat (option nat)) l : linked N l -> (forall e, e ∈ l -> N' !! e = N !! e) -> linked N' l.
Proof. intros Hl Hf k e He. rewrite Hf by (eapply list_elem_of_lookup_2; exact He). by apply Hl. Qed.
Lemma linked_cons N e l : linked N (e :: l) <-> N !! e = Some (head l) /\ linked N l.
Proof.
  rewrite head_lookup. split.
  - intros Hl. split; [by apply (Hl 0%nat)|]. intros k x Hk. by apply (Hl (S k)).
  - intros [He Hl] [|k] x Hx; cbn in Hx; [by injection Hx as <-|]. by apply Hl.
Qed.

(** Another queue whose head and elements are not touched stays as it is. *)
Lemma is_q_frame T T' h l : is_q T h l -> tq_heads T' !! h = tq_heads T !! h ->
  (forall e, e ∈ l -> tq_next T' !! e = tq_next T !! e) -> is_q T' h l.
Proof. intros [Hh Hl Hn] Eh El. split; [congruence|by eapply linked_frame|done]. Qed.

(** What an operation on queue [h] and the elements [touched] leaves alone. *)
Definition others (h : nat) (touched : list nat) (T T' : tqs) : Prop :=
  (forall h', h' <> h -> tq_heads T' !! h' = tq_heads T !! h') /\
  (forall e, e ∉ touched -> tq_next T' !! e = tq_next T !! e) /\
  forall e, is_Some (tq_next T' !! e) <-> is_Some (tq_next T !! e).
Lemma others_q h touched T T' h' l : others h touched T T' -> h' <> h -> is_q T h' l -> (forall e, e ∈ l -> e ∉ touched) -> is_q T' h' l.
Proof. intros (Hh & Hn & _) Hne Hq Hd. eapply is_q_frame; [exact Hq|by apply Hh|]. intros e He. by apply Hn, Hd. Qed.

Lemma wp_get_head h x T (Q : tq_head -> tqs -> Prop) : tq_heads T !! h = Some x -> Q x T -> wp (get_head h) T Q.
Proof. intros Hx HQ. unfold get_head. wp_steps. by eapply wp_deref_opt. Qed.
Lemma wp_next e p T (Q : option nat -> tqs -> Prop) : tq_next T !! e = Some p -> Q p T -> wp (STAILQ_NEXT e) T Q.
Proof. intros Hx HQ. unfold STAILQ_NEXT. wp_steps. by eapply wp_deref_opt. Qed.
Lemma wp_put_next e p T (Q : unit -> tqs -> Prop) : is_Some (tq_next T !! e) -> Q tt (Tqs (tq_heads T) (<[e := p]> (tq_next T))) -> wp (put_next e p) T Q.
Proof. intros [x Hx] HQ. unfold put_next. wp_steps. eapply wp_next; [exact Hx|]. wp_steps. exact HQ. Qed.
Lemma wp_set_first h x p T (Q : unit -> tqs -> Prop) : tq_heads T !! h = Some x ->
  Q tt (Tqs (<[h := TqHead p (stqh_last x)]> (tq_heads T)) (tq_next T)) -> wp (set_first h p) T Q.
Proof. intros Hx HQ. unfold set_first, put_head. wp_steps. eapply wp_get_head; [exact Hx|]. wp_steps. exact HQ. Qed.
Lemma wp_set_last h x a T (Q : unit -> tqs -> Prop) : tq_heads T !! h = Some x ->
  Q tt (Tqs (<[h := TqHead (stqh_first x) a]> (tq_heads T)) (tq_next T)) -> wp (set_last h a) T Q.
Proof. intros Hx HQ. unfold set_last, put_head. wp_steps. eapply wp_get_head; [exact Hx|]. wp_steps. exact HQ. Qed.

Lemma first_ok T h l : is_q T h l -> STAILQ_FIRST h T = Done (head l, T).
Proof. intros [Hh _ _]. unfold STAILQ_FIRST, get_head, bind, gets, deref_opt. by rewrite Hh. Qed.
Lemma empty_ok T h l : is_q T h l -> STAILQ_EMPTY h T = Done (match l with [] => true | _ => false end, T).
Proof. intros Hq. unfold STAILQ_EMPTY, bind. rewrite (first_ok T h l Hq). by destruct l. Qed.

Lemma init_ok T h x : tq_heads T !! h = Some x -> wp (STAILQ_INIT h) T (fun _ T' => is_q T' h [] /\ others h [] T T').
Proof.
  intros Hx. unfold STAILQ_INIT. wp_steps. eapply wp_set_first; [exact Hx|]. wp_steps.
  eapply wp_set_last; [apply lookup_insert_eq|]. cbn. rewrite insert_insert_eq. split.
  - split; cbn; [apply lookup_insert_eq|by intros k e|constructor].
  - split; [|split]; cbn; try done. intros h' Hne. by rewrite lookup_insert_ne.
Qed.

Lemma insert_head_ok T h l e : is_q T h l -> is_Some (tq_next T !! e) -> e ∉ l ->
  wp (STAILQ_INSERT_HEAD h e) T (fun _ T' => is_q T' h (e :: l) /\ others h [e] T T').
Proof.
  intros Hq He Hne. pose proof Hq as [Hh Hl Hn]. unfold STAILQ_INSERT_HEAD. wp_steps. unfold wp at 1. rewrite (first_ok T h l Hq). wp_steps.
  apply wp_put_next; [done|]. wp_steps.
  assert (forall T', tq_heads T' !! h = Some (TqHead (Some e) (last_slot h (e :: l))) -> (forall h', h' <> h -> tq_heads T' !! h' = tq_heads T !! h') ->
    tq_next T' = <[e := head l]> (tq_next T) -> is_q T' h (e :: l) /\ others h [e] T T') as Hend.
  { intros T' H1 H2 H3. split.
    - split; [done| |by constructor]. rewrite H3. apply linked_cons. split; [apply lookup_insert_eq|].
      eapply linked_frame; [exact Hl|]. intros x Hx. apply lookup_insert_ne. by intros ->.
    - split; [done|]. rewrite H3. split.
      + intros x Hx. apply lookup_insert_ne. intros ->. apply Hx. left.
      + intros x. destruct (decide (x = e)) as [->|Hxe]; [rewrite lookup_insert_eq|by rewrite lookup_insert_ne].
        split; [done|]. intros _. by eexists. }
  destruct l as [|x l]; cbn [head].
  - eapply wp_set_last; [exact Hh|]. wp_steps. eapply wp_set_first; [apply lookup_insert_eq|]. apply Hend; cbn; [by rewrite insert_insert_eq, lookup_insert_eq| |done].
    intros h' Hh'. by rewrite !lookup_insert_ne.
  - wp_steps. eapply wp_set_first; [exact Hh|]. apply Hend; cbn; [by rewrite lookup_insert_eq| |done]. intros h' Hh'. by rewrite lookup_insert_ne.
Qed.

Lemma linked_snoc N l e : linked N l -> NoDup l -> e ∉ l -> is_Some (N !! e) ->
  linked (match list.last l with Some x => <[x := Some e]> (<[e := None]> N) | None => <[e := None]> N end) (l ++ [e]).
Proof.
  intros Hl Hn He Hs. assert (match list.last l with Some x => x ∈ l | None => l = [] end) as Hlast.
  { destruct (list.last l) eqn:E; [by apply last_Some_elem_of|by apply last_None]. }
  induction l as [|a l IH]; cbn [app].
  { cbn. apply linked_cons. split; [by rewrite lookup_insert_eq|by intros k x]. }
  apply linked_cons in Hl as [Ha Hl]. apply list.NoDup_cons in Hn as [Hal Hn]. rewrite not_elem_of_cons in He. destruct He as [Hea He].
  destruct l as [|b l].
  - cbn in *. apply linked_cons. split; [by rewrite lookup_insert_eq|]. apply linked_cons. split; [|by intros k x].
    rewrite lookup_insert_ne by done. by rewrite lookup_insert_eq.
  - cbn [list.last] in IH |- *. change (list.last (a :: b :: l)) with (list.last (b :: l)) in *. destruct (list.last (b :: l)) as [x|] eqn:Ex; [|by apply last_None in Ex].
    pose proof (last_Some_elem_of _ _ Ex) as Hx. specialize (IH Hl Hn He Hx).
    apply linked_cons. split; [|exact IH].
    rewrite !lookup_insert_ne; [by rewrite Ha|by intros ->|by intros <-].
Qed.

Lemma insert_tail_ok T h l e : is_q T h l -> is_Some (tq_next T !! e) -> e ∉ l ->
  wp (STAILQ_INSERT_TAIL h e) T (fun _ T' => is_q T' h (l ++ [e]) /\ others h (e :: l) T T').
Proof.
  intros [Hh Hl Hn] He Hne. unfold STAILQ_INSERT_TAIL. wp_steps. apply wp_put_next; [done|]. wp_steps.
  eapply wp_get_head; [exact Hh|]. wp_steps. cbn [stqh_last]. pose proof (linked_snoc _ l e Hl Hn Hne He) as Hls.
  assert (NoDup (l ++ [e])) as Hnd.
  { apply list.NoDup_app. split; [done|]. split; [|by apply NoDup_singleton]. intros x Hx ->%list_elem_of_singleton. done. }
  unfold last_slot. destruct (list.last l) as [x|] eqn:El; cbn [store_slot].
  - pose proof (last_Some_elem_of _ _ El) as Hx. apply wp_put_next.
    { cbn. destruct (decide (x = e)) as [->|]; [rewrite lookup_insert_eq; by eexists|rewrite lookup_insert_ne by done].
      apply list_elem_of_lookup in Hx as [k Hk]. rewrite (Hl k x Hk). by eexists. }
    wp_steps. eapply wp_set_last; [exact Hh|]. cbn. split.
    + split; cbn; [|done|done]. rewrite lookup_insert_eq. unfold last_slot. rewrite last_snoc. f_equal. f_equal. by destruct l.
    + split; [|split]; cbn.
      * intros h' Hh'. by rewrite lookup_insert_ne.
      * intros y Hy. rewrite not_elem_of_cons in Hy. destruct Hy as [Hye Hyl]. rewrite !lookup_insert_ne; [done|done|by intros ->].
      * intros y. destruct (decide (y = x)) as [->|Hyx].
        { rewrite lookup_insert_eq. split; [|by eexists]. intros _. apply list_elem_of_lookup in Hx as [k Hk]. rewrite (Hl k x Hk). by eexists. }
        rewrite lookup_insert_ne by done. destruct (decide (y = e)) as [->|Hye]; [rewrite lookup_insert_eq|by rewrite lookup_insert_ne].
        split; [done|by eexists].
  - apply last_None in El as ->. eapply wp_set_first; [exact Hh|]. wp_steps. eapply wp_set_last; [apply lookup_insert_eq|]. cbn. rewrite insert_insert_eq. split.
    + split; cbn; [by rewrite lookup_insert_eq|done|done].
    + split; [|split]; cbn.
      * intros h' Hh'. by rewrite lookup_insert_ne.
      * intros y Hy. rewrite lookup_insert_ne; [done|]. intros ->. apply Hy. left.
      * intros y. destruct (decide (y = e)) as [->|Hye]; [rewrite lookup_insert_eq|by rewrite lookup_insert_ne]. split; [done|by eexists].
Qed.

Lemma remove_head_ok T h e l : is_q T h (e :: l) ->
  wp (STAILQ_REMOVE_HEAD h) T (fun _ T' => is_q T' h l /\ others h [] T T').
Proof.
  intros Hq. pose proof Hq as [Hh Hl Hn]. unfold STAILQ_REMOVE_HEAD. wp_steps. unfold wp at 1. rewrite (first_ok T h _ Hq). cbn [head].
  apply linked_cons in Hl as [He Hl]. apply list.NoDup_cons in Hn as [_ Hn]. wp_steps. eapply wp_next; [exact He|]. wp_steps.
  assert (forall T', tq_heads T' !! h = Some (TqHead (head l) (last_slot h l)) -> (forall h', h' <> h -> tq_heads T' !! h' = tq_heads T !! h') ->
    tq_next T' = tq_next T -> is_q T' h l /\ others h [] T T') as Hend.
  { intros T' H1 H2 H3. split; [split; [done|by rewrite H3|done]|]. split; [done|]. by rewrite H3. }
  eapply wp_set_first; [exact Hh|]. destruct l as [|b l]; cbn [head].
  - wp_steps. eapply wp_set_last; [apply lookup_insert_eq|]. apply Hend; cbn; [by rewrite insert_insert_eq, lookup_insert_eq| |done].
    intros h' Hne. by rewrite !lookup_insert_ne.
  - wp_steps. apply Hend; cbn; [by rewrite lookup_insert_eq| |done]. intros h' Hne. by rewrite !lookup_insert_ne.
Qed.

(** The copy of a non-empty head is a queue under its own name, as long as the
    original is not used. *)
Lemma copy_head_ok T to from l : is_q T from l -> l <> [] -> to <> from ->
  wp (copy_head to from) T (fun _ T' => is_q T' to l /\ is_q T' from l /\ others to [] T T').
Proof.
  intros [Hh Hl Hn] Hne Hd. unfold copy_head, put_head. wp_steps. eapply wp_get_head; [exact Hh|]. wp_steps. split; [|split].
  - split; cbn; [|done|done]. rewrite lookup_insert_eq. unfold last_slot. destruct (list.last l) eqn:E; [done|]. by apply last_None in E.
  - split; cbn; [|done|done]. by rewrite lookup_insert_ne.
  - split; [|by split]. intros h' Hh'. cbn. by rewrite lookup_insert_ne.
Qed.
