(* ===== verification/VirtNet.v ===== *)
(** * VirtNet: the network driver (module/net/virtio/virtio_net.c)

    64 packets move between the free list, the receive queue of the device, the
    list of received packets and the list a poll works on.  The driver's
    variables are the client of the device of VirtQueue.v, so that its callbacks
    run where the queue calls them.  The lists are those of Stailq.v.  The
    network stack (lwIP), the poll lists of the thread, and the memory allocator
    are parameters.  Contents of packets are not modelled. *)
From Stdlib Require Import ZArith Lia.
From stdpp Require Import base tactics gmap list option sorting.
From S2P Require Import Prelude Stailq VirtQueue.

Definition BUF_PACKETS : nat := 64.
Definition MAX_PACK_SIZE : Z := 1514.
Definition PACKET_BUF_SZ : Z := Z.of_nat BUF_PACKETS * MAX_PACK_SIZE.
Definition VRING_DESC_F_READ : Z := 0.
Definition SIZE_PACKET : Z := 48.
Definition SIZE_MRG_HDR : Z := 12.
(** [enum queue] and the levels of the polls. *)
Definition RX_Q : nat := 0.
Definition TX_Q : nat := 1.
Definition CTRL_Q : nat := 2.
Definition POLL_LVL_HIGH : nat := 0.
Definition POLL_LVL_NET_TX : nat := 2.
Definition POLL_LVL_NET_RX : nat := 3.
(** The three heads. *)
Definition FREE : nat := 0.
Definition RECV : nat := 1.
Definition POLLED : nat := 2.

Inductive poll_cb := vn_poll | fill_rx_poll | rx_poll | tx_poll.

(** [struct packet]; its link is in [tq]. *)
Record packet := Packet { vmhdr : Z; phdr : Z; vdata : Z; pdata : Z; len : Z }.

(** The variables of the driver, and [K], what it calls in the kernel. *)
Record net {K : Type} := Net {
  packets_vir : Z; packets : list packet;
  data_vir : Z; data_phys : Z; hdrs_vir : Z; hdrs_phys : Z;
  tq : tqs; in_rx : Z; spin_free : bool; spin_recv : bool;
  ets_packetR : Z; ets_packetT : Z; ets_fifoUnder : Z;
  hdr_size : Z; has_receiver : bool;
  calls : list (Z * Z);
  kern : K
}.
Arguments net K : clear implicits.

Section setters.
Context {K : Type}.
Implicit Types n : net K.
Definition set_packets (l : list packet) n : net K :=
  Net K (packets_vir n) l (data_vir n) (data_phys n) (hdrs_vir n) (hdrs_phys n) (tq n) (in_rx n) (spin_free n) (spin_recv n)
    (ets_packetR n) (ets_packetT n) (ets_fifoUnder n) (hdr_size n) (has_receiver n) (calls n) (kern n).
Definition set_areas (pv dv dp hv hp : Z) n : net K :=
  Net K pv (packets n) dv dp hv hp (tq n) (in_rx n) (spin_free n) (spin_recv n)
    (ets_packetR n) (ets_packetT n) (ets_fifoUnder n) (hdr_size n) (has_receiver n) (calls n) (kern n).
Definition set_tq (T : tqs) n : net K :=
  Net K (packets_vir n) (packets n) (data_vir n) (data_phys n) (hdrs_vir n) (hdrs_phys n) T (in_rx n) (spin_free n) (spin_recv n)
    (ets_packetR n) (ets_packetT n) (ets_fifoUnder n) (hdr_size n) (has_receiver n) (calls n) (kern n).
Definition set_in_rx (i : Z) n : net K :=
  Net K (packets_vir n) (packets n) (data_vir n) (data_phys n) (hdrs_vir n) (hdrs_phys n) (tq n) i (spin_free n) (spin_recv n)
    (ets_packetR n) (ets_packetT n) (ets_fifoUnder n) (hdr_size n) (has_receiver n) (calls n) (kern n).
Definition set_spins (f r : bool) n : net K :=
  Net K (packets_vir n) (packets n) (data_vir n) (data_phys n) (hdrs_vir n) (hdrs_phys n) (tq n) (in_rx n) f r
    (ets_packetR n) (ets_packetT n) (ets_fifoUnder n) (hdr_size n) (has_receiver n) (calls n) (kern n).
Definition set_stats (r t u : Z) n : net K :=
  Net K (packets_vir n) (packets n) (data_vir n) (data_phys n) (hdrs_vir n) (hdrs_phys n) (tq n) (in_rx n) (spin_free n) (spin_recv n)
    r t u (hdr_size n) (has_receiver n) (calls n) (kern n).
Definition set_calls (l : list (Z * Z)) n : net K :=
  Net K (packets_vir n) (packets n) (data_vir n) (data_phys n) (hdrs_vir n) (hdrs_phys n) (tq n) (in_rx n) (spin_free n) (spin_recv n)
    (ets_packetR n) (ets_packetT n) (ets_fifoUnder n) (hdr_size n) (has_receiver n) l (kern n).
Definition set_kern (k : K) n : net K :=
  Net K (packets_vir n) (packets n) (data_vir n) (data_phys n) (hdrs_vir n) (hdrs_phys n) (tq n) (in_rx n) (spin_free n) (spin_recv n)
    (ets_packetR n) (ets_packetT n) (ets_fifoUnder n) (hdr_size n) (has_receiver n) (calls n) k.

Definition on_tq {A} : M tqs A -> M (net K) A := zoom tq set_tq.
Definition on_kern {A} : M K A -> M (net K) A := zoom kern set_kern.

(** [WITH_SPIN_LOCK(spin_free)], [WITH_SPIN_LOCK(spin_recv)]: the lock is taken,
    the body runs, the lock is released. *)
Definition lock_free : M (net K) unit := fun n => if spin_free n then Deadlock else Done (tt, set_spins true (spin_recv n) n).
Definition unlock_free : M (net K) unit := modify (fun n => set_spins false (spin_recv n) n).
Definition lock_recv : M (net K) unit := fun n => if spin_recv n then Deadlock else Done (tt, set_spins (spin_free n) true n).
Definition unlock_recv : M (net K) unit := modify (fun n => set_spins (spin_free n) false n).
Definition with_free {A} (m : M (net K) A) : M (net K) A := lock_free ;;; a <- m ;; unlock_free ;;; ret a.
Definition with_recv {A} (m : M (net K) A) : M (net K) A := lock_recv ;;; a <- m ;; unlock_recv ;;; ret a.

(** A pointer to a packet, and back: [&packets[i]] and [(struct packet * )data]. *)
Definition ptr (n : net K) (i : nat) : Z := packets_vir n + SIZE_PACKET * Z.of_nat i.
Definition packet_at (p : Z) : M (net K) nat :=
  base <- gets packets_vir ;;
  if (base <=? p) && ((p - base) mod SIZE_PACKET =? 0) then ret (Z.to_nat ((p - base) / SIZE_PACKET)) else fault.
Definition get_packet (i : nat) : M (net K) packet := l <- gets packets ;; deref_opt (l !! i).
Definition put_packet (i : nat) (p : packet) : M (net K) unit :=
  get_packet i ;;; modify (fun n => set_packets (<[i := p]> (packets n)) n).
End setters.

Section driver.
Context {K : Type} (thread_add_poll : poll_cb -> nat -> M K unit) (pbuf_free pbuf_ref : Z -> M K unit).
Context (ack_lapic_irq run_net_rx run_net_tx : M K unit).
Context {D : Type} (conf_readb : Z -> M D Z) (conf_write : Z -> Z -> M D unit).
Context {H : Type} (malloc : Z -> M H Z) (mfree : Z -> M H unit) (v2p : Z -> Z).
Local Abbreviation dev := (@virtio_device (net K) D H).
(** The stack's receiver, and its [tx_done]. *)
Context (receiver : Z -> Z -> M dev unit) (tx_done : Z -> M K unit).

Definition on_net {A} : M (net K) A -> M dev A := on_client.

(** ** Callbacks of the queues *)
Definition rx_queue_callback (data l : Z) : M (net K) unit :=
  i <- packet_at data ;;
  p <- get_packet i ;;
  put_packet i (Packet (vmhdr p) (phdr p) (vdata p) (pdata p) l) ;;;
  with_recv (on_tq (STAILQ_INSERT_TAIL RECV i)) ;;;
  on_kern (thread_add_poll vn_poll POLL_LVL_NET_RX) ;;;
  modify (fun n => set_in_rx (in_rx n - 1) n) ;;;
  modify (fun n => set_stats (wrap64 (ets_packetR n + 1)) (ets_packetT n) (ets_fifoUnder n) n).
Definition tx_queue_callback (data l : Z) : M (net K) unit :=
  on_kern (tx_done data) ;;;
  modify (fun n => set_stats (ets_packetR n) (wrap64 (ets_packetT n + 1)) (ets_fifoUnder n) n).
Definition net_callback (q : nat) (data l : Z) : M (net K) unit :=
  if (q =? RX_Q)%nat then rx_queue_callback data l
  else if (q =? TX_Q)%nat then tx_queue_callback data l else fault.

(** ** Interrupts *)
Definition irq_handler (q : nat) (run : M K unit) : M dev unit :=
  on_regs (conf_readb VIRTIO_PCI_ISR) ;;;
  on_net (on_kern ack_lapic_irq) ;;;
  on_queue q virtio_queue_disable_intr ;;;
  on_net (on_kern run).
Definition irq_handler_receive : M dev unit := irq_handler RX_Q run_net_rx.
Definition irq_handler_send : M dev unit := irq_handler TX_Q run_net_tx.
Definition irq_handler_control : M dev unit := irq_handler CTRL_Q (ret tt).

(** ** Receiving *)

(** [while (cnt < max && !STAILQ_EMPTY(&free_list))]: [n] is [max - cnt]; the
    arrays [phys] and [arr] have 32 entries. *)
Fixpoint take_free (n cnt : nat) : M (net K) (list nat) :=
  match n with
  | O => ret []
  | S n' =>
      e <- on_tq (STAILQ_EMPTY FREE) ;;
      if e : bool then ret []
      else
        f <- on_tq (STAILQ_FIRST FREE) ;;
        i <- deref_opt f ;;
        on_tq (STAILQ_REMOVE_HEAD FREE) ;;;
        (if (cnt <? BUF_PACKETS / 2)%nat then ret tt else fault) ;;;
        l <- take_free n' (S cnt) ;;
        ret (i :: l)
  end.
Definition give (i : nat) : M dev unit :=
  p <- on_net (get_packet i) ;;
  data <- on_net (gets (fun n => ptr n i)) ;;
  virtio_to_queue net_callback conf_write RX_Q [AddrSize (pdata p) MAX_PACK_SIZE VRING_DESC_F_WRITE] data ;;;
  on_net (modify (fun n => set_in_rx (in_rx n + 1) n)).
Fixpoint give_all (l : list nat) : M dev unit :=
  match l with [] => ret tt | i :: l' => give i ;;; give_all l' end.
Definition virtio_net_refill_rx_queue : M dev unit :=
  have <- on_net (gets in_rx) ;;
  let max := Z.of_nat (BUF_PACKETS / 2) - have in
  l <- on_net (with_free (take_free (Z.to_nat max) 0)) ;;
  give_all l ;;;
  e <- on_net (on_tq (STAILQ_EMPTY FREE)) ;;
  have' <- on_net (gets in_rx) ;;
  if (have' =? 0) && (e : bool)
  then on_net (modify (fun n => set_stats (ets_packetR n) (ets_packetT n) (wrap64 (ets_fifoUnder n + 1)) n))
  else ret tt.
Definition fill_recv_callback : M dev Z := virtio_net_refill_rx_queue ;;; ret 0.

Definition rx_poll_callback : M dev Z :=
  virtio_read_queue net_callback RX_Q ;;;
  have <- on_net (gets in_rx) ;;
  (if have <? Z.of_nat (BUF_PACKETS / 4) then on_net (on_kern (thread_add_poll fill_rx_poll POLL_LVL_HIGH)) else ret tt) ;;;
  ret 0.

(** [while (!STAILQ_EMPTY(&poll_list))]; [calls] records what the receiver is
    called with. *)
Fixpoint poll_loop (fuel : nat) : M dev unit :=
  e <- on_net (on_tq (STAILQ_EMPTY POLLED)) ;;
  if e : bool then ret tt
  else
    match fuel with
    | O => out_of_fuel
    | S fuel' =>
        f <- on_net (on_tq (STAILQ_FIRST POLLED)) ;;
        i <- deref_opt f ;;
        on_net (on_tq (STAILQ_REMOVE_HEAD POLLED)) ;;;
        have <- on_net (gets has_receiver) ;;
        (if have : bool then
           p <- on_net (get_packet i) ;;
           h <- on_net (gets hdr_size) ;;
           on_net (modify (fun n => set_calls (calls n ++ [(vdata p + h, wrap64 (len p - h))]) n)) ;;;
           receiver (vdata p + h) (wrap64 (len p - h))
         else ret tt) ;;;
        on_net (with_free (on_tq (STAILQ_INSERT_TAIL FREE i))) ;;;
        poll_loop fuel'
    end.
Definition poll_callback : M dev Z :=
  on_net (with_recv (on_tq (copy_head POLLED RECV ;;; STAILQ_INIT RECV))) ;;;
  poll_loop BUF_PACKETS ;;;
  ret 0.
Definition tx_poll_callback : M dev Z := virtio_read_queue net_callback TX_Q ;;; ret 0.

(** Called by the softirqs. *)
Definition rx_callback : M (net K) unit := on_kern (thread_add_poll rx_poll POLL_LVL_NET_RX).
Definition tx_callback : M (net K) unit := on_kern (thread_add_poll tx_poll POLL_LVL_NET_TX).

(** ** Sending *)
Record iovec := IoVec { iov_base : Z; iov_len : Z }.
(** [mhdr] is the address of the header on the stack. *)
Definition send_vecs (mhdr : Z) (vecs : list iovec) : M dev (list addr_size) :=
  h <- on_net (gets hdr_size) ;;
  ret (AddrSize (v2p mhdr) h VRING_DESC_F_READ :: map (fun v => AddrSize (v2p (iov_base v)) (iov_len v) VRING_DESC_F_READ) vecs).
Definition virtio_net_send_packets (mhdr : Z) (vecs : list iovec) (data : Z) : M dev Z :=
  on_queue RX_Q virtio_queue_enable_intr ;;;
  phys <- send_vecs mhdr vecs ;;
  virtio_to_queue net_callback conf_write TX_Q phys data.
Definition virtio_net_send_packet (mhdr buf size data : Z) : M dev Z :=
  on_queue RX_Q virtio_queue_enable_intr ;;;
  phys <- send_vecs mhdr [IoVec buf size] ;;
  virtio_to_queue net_callback conf_write TX_Q phys data.

(** ** The stack's output (module/net/virtio/main.c) *)

Definition MAX_VECS : nat := 10.
Definition push (v : iovec) (vecs : list iovec) : M dev (list iovec) :=
  if (length vecs <? MAX_VECS)%nat then ret (vecs ++ [v]) else fault.
(** [for (q = p; q != NULL; q = q->next)]: a chain of buffers is the list of
    their payloads and lengths. *)
Fixpoint tx_vecs (chain : list (Z * Z)) (vecs : list iovec) : M dev (list iovec) :=
  match chain with
  | [] => ret vecs
  | (payload, l) :: chain' =>
      let pageend := Z.land (wrap64 (payload + l)) (lnot64 0xfff) in
      if Z.land payload (lnot64 0xfff) =? pageend then
        vecs1 <- push (IoVec payload l) vecs ;;
        kassert (length vecs1 <? MAX_VECS)%nat ;;;
        tx_vecs chain' vecs1
      else
        vecs1 <- push (IoVec payload (wrap64 (pageend - payload))) vecs ;;
        vecs2 <- push (IoVec pageend (Z.land (wrap64 (payload + l)) 0xfff)) vecs1 ;;
        tx_vecs chain' vecs2
  end.
Definition lwip_tx_func (mhdr p : Z) (chain : list (Z * Z)) : M dev Z :=
  on_net (on_kern (pbuf_ref p)) ;;;
  vecs <- tx_vecs chain [] ;;
  if (length vecs =? 0)%nat then ret 0
  else r <- virtio_net_send_packets mhdr vecs p ;; ret (if r =? 0 then 0 else 1).
Definition lwip_tx_done (data : Z) : M K unit := pbuf_free data.

(** ** Setting up *)

Definition alloc (size : Z) : M dev Z := on_heap (malloc size).
Definition set_data (d : Z) : M dev unit :=
  on_net (modify (fun n => set_areas (packets_vir n) d (v2p d) (hdrs_vir n) (hdrs_phys n) n)).
Definition virtio_net_alloc_bufs : M dev Z :=
  d0 <- alloc PACKET_BUF_SZ ;;
  set_data d0 ;;;
  on_heap (mfree d0) ;;;
  d <- alloc PACKET_BUF_SZ ;;
  set_data d ;;;
  if d =? 0 then ret ENOMEM
  else
    h <- alloc (Z.of_nat BUF_PACKETS * SIZE_MRG_HDR) ;;
    on_net (modify (fun n => set_areas (packets_vir n) (data_vir n) (data_phys n) h (v2p h) n)) ;;;
    if h =? 0 then on_heap (mfree d) ;;; ret ENOMEM
    else
      p <- alloc (Z.of_nat BUF_PACKETS * SIZE_PACKET) ;;
      on_net (modify (fun n => set_areas p (data_vir n) (data_phys n) (hdrs_vir n) (hdrs_phys n) n)) ;;;
      if p =? 0 then on_heap (mfree d) ;;; on_heap (mfree h) ;;; ret ENOMEM
      else
        on_net (modify (fun n => set_packets (repeat (Packet 0 0 0 0 0) BUF_PACKETS)
          (set_tq (Tqs (tq_heads (tq n)) (list_to_map (map (fun i => (i, None)) (seq 0 BUF_PACKETS)))) n))) ;;;
        ret 0.
Fixpoint init_packets (n i : nat) : M (net K) unit :=
  match n with
  | O => ret tt
  | S n' =>
      s <- gets (fun s => s) ;;
      p <- get_packet i ;;
      put_packet i (Packet (hdrs_vir s + SIZE_MRG_HDR * Z.of_nat i) (hdrs_phys s + Z.of_nat i * SIZE_MRG_HDR)
        (data_vir s + Z.of_nat i * MAX_PACK_SIZE) (data_phys s + Z.of_nat i * MAX_PACK_SIZE) (len p)) ;;;
      on_tq (STAILQ_INSERT_HEAD FREE i) ;;;
      init_packets n' (S i)
  end.
Definition virtio_net_init_queues : M (net K) unit :=
  on_tq (STAILQ_INIT FREE) ;;;
  on_tq (STAILQ_INIT RECV) ;;;
  init_packets BUF_PACKETS 0.

(** ** Where the packets are *)

(** [free], [got] and [inq] are the packets of the free list, of the list of
    received ones (with their lengths) and of the queue, [ans] those answered by
    the device and not yet read from the queue, [hold] those in the hands of the
    code that runs. *)
Record rx_ok (n : net K) (free : list nat) (got ans : list (nat * Z)) (inq hold : list nat) : Prop := {
  rk_count : length (packets n) = BUF_PACKETS;
  rk_layout : forall i p, packets n !! i = Some p ->
    vdata p = data_vir n + Z.of_nat i * MAX_PACK_SIZE /\ pdata p = data_phys n + Z.of_nat i * MAX_PACK_SIZE;
  rk_free : is_q (tq n) FREE free;
  rk_recv : is_q (tq n) RECV (map fst got);
  rk_poll : is_Some (tq_heads (tq n) !! POLLED);
  rk_links : forall i, (i < BUF_PACKETS)%nat -> is_Some (tq_next (tq n) !! i);
  rk_split : free ++ map fst got ++ map fst ans ++ inq ++ hold ≡ₚ seq 0 BUF_PACKETS;
  rk_got : Forall (fun x => exists p, packets n !! x.1 = Some p /\ len p = x.2) got;
  rk_in : in_rx n = Z.of_nat (length ans + length inq);
  rk_base : 0 < packets_vir n
}.

(** What the operations on received packets leave alone. *)
Record same_net (n n' : net K) : Prop := {
  sn_areas : packets_vir n' = packets_vir n /\ data_vir n' = data_vir n /\ data_phys n' = data_phys n;
  sn_setup : hdr_size n' = hdr_size n /\ has_receiver n' = has_receiver n;
  sn_calls : calls n' = calls n;
  sn_locks : spin_free n' = spin_free n /\ spin_recv n' = spin_recv n
}.
#[local] Instance same_net_preorder : PreOrder same_net.
Proof.
  split; [by split|]. intros a b c [(? & ? & ?) [? ?] ? [? ?]] [(? & ? & ?) [? ?] ? [? ?]]. split; [split; [|split]|split| |split]; congruence.
Qed.

Lemma wp_packet_at n i (Q : nat -> net K -> Prop) : Q i n -> wp (packet_at (ptr n i)) n Q.
Proof.
  intros HQ. unfold packet_at, ptr. wp_steps. rewrite (proj2 (Z.leb_le _ _)) by (unfold SIZE_PACKET; lia). cbn [andb].
  replace (packets_vir n + SIZE_PACKET * Z.of_nat i - packets_vir n) with (Z.of_nat i * SIZE_PACKET) by lia.
  rewrite Z.mod_mul, Z.div_mul by done. cbn [Z.eqb]. wp_steps. by rewrite Nat2Z.id.
Qed.
Lemma wp_get_packet n i p (Q : packet -> net K -> Prop) : packets n !! i = Some p -> Q p n -> wp (get_packet i) n Q.
Proof. intros Hp HQ. unfold get_packet. wp_steps. by eapply wp_deref_opt. Qed.
Lemma wp_with_recv {A} (m : M (net K) A) n (Q : A -> net K -> Prop) : spin_recv n = false ->
  wp m (set_spins (spin_free n) true n) (fun a n' => Q a (set_spins (spin_free n') false n')) -> wp (with_recv m) n Q.
Proof.
  intros Hl HQ. unfold with_recv, lock_recv, unlock_recv. wp_steps. unfold wp at 1. rewrite Hl. wp_steps.
  eapply wp_mono; [exact HQ|]. intros a n' Ha. wp_steps. exact Ha.
Qed.
Lemma wp_with_free {A} (m : M (net K) A) n (Q : A -> net K -> Prop) : spin_free n = false ->
  wp m (set_spins true (spin_recv n) n) (fun a n' => Q a (set_spins false (spin_recv n') n')) -> wp (with_free m) n Q.
Proof.
  intros Hl HQ. unfold with_free, lock_free, unlock_free. wp_steps. unfold wp at 1. rewrite Hl. wp_steps.
  eapply wp_mono; [exact HQ|]. intros a n' Ha. wp_steps. exact Ha.
Qed.

Lemma rx_split_nodup n free got ans inq hold : rx_ok n free got ans inq hold -> NoDup (free ++ map fst got ++ map fst ans ++ inq ++ hold).
Proof. intros Hok. rewrite (rk_split _ _ _ _ _ _ Hok). apply NoDup_seq. Qed.
Lemma rx_split_bound n free got ans inq hold i : rx_ok n free got ans inq hold -> i ∈ free ++ map fst got ++ map fst ans ++ inq ++ hold ->
  (i < BUF_PACKETS)%nat /\ exists p, packets n !! i = Some p.
Proof.
  intros Hok Hi. rewrite (rk_split _ _ _ _ _ _ Hok) in Hi. apply elem_of_seq in Hi. split; [lia|]. apply lookup_lt_is_Some_2.
  rewrite (rk_count _ _ _ _ _ _ Hok). lia.
Qed.

Context (Hpoll : forall p l k, exists k', thread_add_poll p l k = Done (tt, k')).

Lemma wp_add_poll p l (n : net K) (Q : unit -> net K -> Prop) : (forall k, Q tt (set_kern k n)) -> wp (on_kern (thread_add_poll p l)) n Q.
Proof. intros HQ. unfold on_kern. apply wp_zoom. destruct (Hpoll p l (kern n)) as (k' & Hk). unfold wp. rewrite Hk. apply HQ. Qed.

(** A completed packet goes to the end of the list of received ones. *)
Lemma rx_queue_callback_ok n free got i l ans inq hold : rx_ok n free got ((i, l) :: ans) inq hold -> spin_recv n = false ->
  wp (rx_queue_callback (ptr n i) l) n (fun _ n' => rx_ok n' free (got ++ [(i, l)]) ans inq hold /\ same_net n n').
Proof.
  intros Hok Hlock. pose proof (rx_split_nodup _ _ _ _ _ _ Hok) as Hnd.
  destruct (rx_split_bound _ _ _ _ _ _ i Hok) as [Hi (p & Hp)]; [rewrite !elem_of_app; right; right; left; left|].
  pose proof Hok as [O1 O2 O3 O4 O5 O6 O7 O8 O9 O11].
  assert ((i ∉ free) /\ (i ∉ map fst got)) as [Hif Hig].
  { cbn [map fst app] in Hnd. rewrite app_assoc in Hnd. apply list.NoDup_app in Hnd as (_ & Hd & _).
    split; intros Hin; apply (Hd i); try (by left); apply elem_of_app; auto. }
  unfold rx_queue_callback. wp_steps. apply wp_packet_at. wp_steps. eapply wp_get_packet; [exact Hp|]. wp_steps.
  unfold put_packet. wp_steps. eapply wp_get_packet; [exact Hp|]. wp_steps. apply wp_with_recv; [done|]. unfold on_tq. wp_steps.
  cbn [tq set_spins set_packets]. eapply wp_mono; [apply (insert_tail_ok _ _ _ i O4); [by apply O6|exact Hig]|].
  intros _ T (HT & Hoth). wp_steps. apply wp_add_poll. intros k. wp_steps. split; [|by split; cbn; auto].
  split; cbn; try done.
  - by rewrite length_insert.
  - intros j q Hq. apply list_lookup_insert_Some in Hq as [(<- & <- & _)|[_ Hq]]; [by destruct (O2 i p Hp)|by apply (O2 j)].
  - eapply others_q; [exact Hoth|done|exact O3|]. intros e He [->|Hg]%elem_of_cons; [done|].
    apply list.NoDup_app in Hnd as (_ & Hd & _). apply (Hd e He). apply elem_of_app. by left.
  - by rewrite map_app.
  - destruct Hoth as (Hh & _). by rewrite Hh.
  - intros j Hj. by apply Hoth, O6.
  - rewrite <- O7, map_app. cbn. solve_Permutation.
  - apply list.Forall_app. split.
    + apply list.Forall_forall. intros [j lj] Hj. rewrite list.Forall_forall in O8. destruct (O8 _ Hj) as (q & Hq & Hl).
      exists q. split; [|done]. cbn in *. rewrite list_lookup_insert_ne; [done|]. intros <-. apply Hig.
      apply list_elem_of_fmap. by exists (i, lj).
    + apply list.Forall_cons. split; [|by constructor]. cbn. eexists. rewrite list_lookup_insert_eq; [done|]. rewrite O1. lia.
  - rewrite O9. cbn. lia.
Qed.

Lemma rx_ok_spins n free got ans inq hold f r : rx_ok (set_spins f r n) free got ans inq hold <-> rx_ok n free got ans inq hold.
Proof. split; intros [O1 O2 O3 O4 O5 O6 O7 O8 O9 O11]; by split. Qed.
Lemma rx_ok_perm n free got ans inq hold inq' hold' : rx_ok n free got ans inq hold -> inq ≡ₚ inq' -> hold ≡ₚ hold' -> rx_ok n free got ans inq' hold'.
Proof. intros [O1 O2 O3 O4 O5 O6 O7 O8 O9 O11] P1 P2. split; try done; [by rewrite <- P1, <- P2|by rewrite <- P1]. Qed.

(** Changing only the lists: the invariant follows from what holds of them. *)
Lemma rx_ok_lists n free got ans inq hold T free' got' hold' : rx_ok n free got ans inq hold ->
  is_q T FREE free' -> is_q T RECV (map fst got') -> is_Some (tq_heads T !! POLLED) ->
  (forall i, is_Some (tq_next T !! i) <-> is_Some (tq_next (tq n) !! i)) ->
  free' ++ map fst got' ++ map fst ans ++ inq ++ hold' ≡ₚ free ++ map fst got ++ map fst ans ++ inq ++ hold ->
  (forall x, x ∈ got' -> x ∈ got) ->
  rx_ok (set_tq T n) free' got' ans inq hold'.
Proof.
  intros [O1 O2 O3 O4 O5 O6 O7 O8 O9 O11] H3 H4 H5 H6 H7 H8. split; cbn; try done.
  - intros i Hi. by apply H6, O6.
  - by rewrite H7.
  - rewrite list.Forall_forall in O8 |- *. auto.
Qed.

Lemma set_tq_id (n : net K) : set_tq (tq n) n = n.
Proof. by destruct n. Qed.

Lemma take_free_ok k : forall cnt n free got ans inq hold, rx_ok n free got ans inq hold -> (k + cnt <= BUF_PACKETS / 2)%nat ->
  wp (take_free k cnt) n (fun l n' => l = take k free /\ rx_ok n' (drop k free) got ans inq (l ++ hold) /\ same_net n n').
Proof.
  induction k as [|k IH]; intros cnt n free got ans inq hold Hok Hk; cbn [take_free]; [by wp_steps|].
  unfold on_tq. wp_steps. unfold wp at 1. rewrite (empty_ok _ _ _ (rk_free _ _ _ _ _ _ Hok)). rewrite set_tq_id. destruct free as [|i free]; cbn beta iota.
  { wp_steps. rewrite drop_nil. split; [done|]. by split. }
  wp_steps. unfold wp at 1. rewrite (first_ok _ _ _ (rk_free _ _ _ _ _ _ Hok)). cbn [head]. wp_steps. eapply wp_deref_opt; [reflexivity|]. wp_steps.
  rewrite set_tq_id. eapply wp_mono; [apply (remove_head_ok _ _ _ _ (rk_free _ _ _ _ _ _ Hok))|]. intros _ T (HT & Hoth).
  rewrite (proj2 (Nat.ltb_lt _ _)) by lia. wp_steps.
  assert (rx_ok (set_tq T n) free got ans inq (i :: hold)) as Hok1.
  { eapply rx_ok_lists; [exact Hok|exact HT| | | |solve_Permutation|done].
    - eapply others_q; [exact Hoth|done|apply Hok|]. intros e _. apply not_elem_of_nil.
    - destruct Hoth as (Hh & _). rewrite Hh by done. apply Hok.
    - apply Hoth. }
  eapply wp_mono; [apply (IH (S cnt) _ _ _ _ _ _ Hok1); lia|]. cbn beta. intros l n' (-> & Hok' & Hsame). wp_steps. split; [done|].
  split; [|etransitivity; [|exact Hsame]; by split; cbn; auto]. eapply rx_ok_perm; [exact Hok'|done|]. cbn. solve_Permutation.
Qed.

(** ** Packets and the requests of the queue *)
Context (Hwrite : forall r v d, exists d', conf_write r v d = Done (tt, d')).

Definition is_req (n : net K) (r : request) (i : nat) : Prop :=
  r_data r = ptr n i /\ r_bufs r = [AddrSize (data_phys n + Z.of_nat i * MAX_PACK_SIZE) MAX_PACK_SIZE VRING_DESC_F_WRITE].
Definition tag (n : net K) (x : nat * Z) : Z * Z := (ptr n x.1, x.2).

(** The driver and its receive queue: the requests that wait, [t] that the
    device has and those answered are the packets [wi], [ti], [ans]; [hist] are
    the completed packets that no poll has taken yet, oldest first. *)
Definition inv_with (s : dev) (a : Z) (t : list request) (hold free : list nat) (hist : list (nat * Z))
    (q : virtio_queue) (fl : list nat) (w : list request) (d : list (request * Z)) (wi ti : list nat) (got ans : list (nat * Z)) : Prop :=
  sim_with RX_Q s a q fl w t d /\ 64 <= q_num q /\
  Forall2 (is_req (client s)) w wi /\ Forall2 (is_req (client s)) t ti /\
  Forall2 (fun x y => is_req (client s) x.1 y.1 /\ x.2 = y.2) d ans /\
  rx_ok (client s) free got ans (wi ++ ti) hold /\
  (spin_free (client s) = false /\ spin_recv (client s) = false) /\
  hist = got ++ ans.
Definition inv s a t hold free hist : Prop :=
  exists q fl w d wi ti got ans, inv_with s a t hold free hist q fl w d wi ti got ans.

Implicit Types n : net K.
Lemma set_client_id (s : dev) : set_client (client s) s = s.
Proof. by destruct s. Qed.
Lemma sim_client (s : dev) c a q fl w t d : sim_with RX_Q s a q fl w t d -> sim_with RX_Q (set_client c s) a q fl w t d.
Proof. by intros []. Qed.
Lemma is_req_areas n n' r i : packets_vir n' = packets_vir n -> data_phys n' = data_phys n -> is_req n r i -> is_req n' r i.
Proof. intros Hp Hd [Hr Hb]. unfold is_req, ptr. by rewrite Hp, Hd. Qed.
Lemma ptr_same n n' i : same_net n n' -> ptr n' i = ptr n i.
Proof. intros [(Hp & _) _ _ _]. unfold ptr. by rewrite Hp. Qed.
Lemma ptr_inj n i j : ptr n i = ptr n j -> i = j.
Proof. unfold ptr, SIZE_PACKET. lia. Qed.
Lemma is_req_same n n' r i : same_net n n' -> is_req n r i -> is_req n' r i.
Proof. intros [(Hp & _ & Hd) _ _ _]. by apply is_req_areas. Qed.
Lemma reqs_same n n' l il : same_net n n' -> Forall2 (is_req n) l il -> Forall2 (is_req n') l il.
Proof. intros Hs Hl. eapply list.Forall2_impl; [exact Hl|]. intros r i. by apply is_req_same. Qed.
Lemma answers_tag n d ans : Forall2 (fun x y => is_req n x.1 y.1 /\ x.2 = y.2) d ans -> answers d = map (tag n) ans.
Proof. induction 1 as [|x y d ans [[Hd _] Hl] _ IH]; [done|]. unfold answers in *. cbn. rewrite IH. unfold tag. by rewrite Hd, Hl. Qed.
Lemma tag_inj n l l' : map (tag n) l = map (tag n) l' -> l = l'.
Proof.
  revert l'. induction l as [|[i x] l IH]; intros [|[j y] l'] Heq; try done. cbn in Heq. unfold tag in Heq at 1 3. cbn in Heq.
  injection Heq as Hp -> Hl. rewrite (ptr_inj _ _ _ Hp), (IH _ Hl). done.
Qed.

(** What is left to be said while answers are delivered. *)
Definition delivering (n0 : net K) (free : list nat) (inq hold : list nat) (hist : list (nat * Z)) (l : list (Z * Z)) (n : net K) : Prop :=
  exists got ans, l = map (tag n) ans /\ hist = got ++ ans /\ rx_ok n free got ans inq hold /\ same_net n0 n.
Lemma delivering_step n0 free inq hold hist data l0 l n : spin_recv n0 = false ->
  delivering n0 free inq hold hist ((data, l0) :: l) n ->
  wp (net_callback RX_Q data l0) n (fun _ => delivering n0 free inq hold hist l).
Proof.
  intros Hlock (got & [|[i x] ans] & Hl & Hh & Hok & Hsame); [done|]. cbn in Hl. injection Hl as -> -> Hl. unfold net_callback. cbn [Nat.eqb RX_Q].
  eapply wp_mono; [eapply rx_queue_callback_ok; [exact Hok|destruct Hsame as [_ _ _ [_ ->]]; exact Hlock]|].
  intros _ n' (Hok' & Hsame'). exists (got ++ [(i, x)]), ans. split.
  - rewrite Hl. apply map_ext. intros y. unfold tag. by rewrite (ptr_same n n').
  - split; [by rewrite <- app_assoc|]. split; [exact Hok'|]. by transitivity n.
Qed.
Lemma delivering_start n free inq hold got ans d : rx_ok n free got ans inq hold ->
  Forall2 (fun x y => is_req n x.1 y.1 /\ x.2 = y.2) d ans -> delivering n free inq hold (got ++ ans) (answers d) n.
Proof. intros Hok Hd. exists got, ans. split; [by apply answers_tag|]. split; [done|]. split; [done|reflexivity]. Qed.

Lemma queued n free got ans inq hold w t d wi ti : rx_ok n free got ans inq hold -> inq = wi ++ ti ->
  Forall2 (is_req n) w wi -> Forall2 (is_req n) t ti -> Forall2 (fun x y => is_req n x.1 y.1 /\ x.2 = y.2) d ans ->
  Z.of_nat (held_descs (w ++ t ++ map fst d)) = in_rx n.
Proof.
  intros Hok -> Hw Ht Hd. rewrite (rk_in _ _ _ _ _ _ Hok). unfold held_descs. rewrite !sum_list_with_app, !length_app.
  assert (forall l il, Forall2 (is_req n) l il -> sum_list_with (fun r => length (r_bufs r)) l = length il) as Hlen.
  { induction 1 as [|r i l il [_ Hb] _ IH]; [done|]. cbn. by rewrite Hb, IH. }
  rewrite (Hlen _ _ Hw), (Hlen _ _ Ht), (Hlen (map fst d) (map fst ans)); [rewrite length_map; lia|].
  apply list.Forall2_fmap. eapply list.Forall2_impl; [exact Hd|]. by intros x y [Hx _].
Qed.

(** A packet in hand is given to the queue. *)
Lemma give_packet_ok s a t i hold free hist : inv s a t (i :: hold) free hist -> in_rx (client s) < Z.of_nat (BUF_PACKETS / 2) ->
  wp (give i) s
    (fun _ s' => inv s' a t hold free hist /\ same_net (client s) (client s') /\ in_rx (client s') <= in_rx (client s) + 1).
Proof.
  intros (q & fl & w & d & wi & ti & got & ans & Hsim & Hnum & Hw & Ht & Hd & Hok & Hlocks & ->) Hfew.
  destruct (rx_split_bound _ _ _ _ _ _ i Hok) as [Hi (p & Hp)]; [rewrite !elem_of_app; do 4 right; left|].
  unfold give, on_net, on_client. wp_steps. eapply wp_get_packet; [exact Hp|]. rewrite set_client_id. wp_steps. rewrite set_client_id.
  rewrite (proj2 (rk_layout _ _ _ _ _ _ Hok i p Hp)).
  assert (ptr (client s) i <> 0) as Hptr.
  { unfold ptr, SIZE_PACKET. pose proof (rk_base _ _ _ _ _ _ Hok). lia. }
  pose proof (queued _ _ _ _ _ _ _ _ _ _ _ Hok eq_refl Hw Ht Hd) as Hheld.
  eapply wp_mono.
  { apply (to_queue_gen net_callback conf_write Hwrite RX_Q
      (delivering (client s) free (wi ++ ti) (i :: hold) (got ++ ans))
      (fun data l0 l c => delivering_step (client s) free (wi ++ ti) (i :: hold) (got ++ ans) data l0 l c (proj2 Hlocks))
      s a q fl w t d [AddrSize (data_phys (client s) + Z.of_nat i * MAX_PACK_SIZE) MAX_PACK_SIZE VRING_DESC_F_WRITE]
      (ptr (client s) i) Hsim); [|done|done]. by apply delivering_start. }
  cbn beta. intros r s' (q1 & fl1 & Hring & Hnum1 & Hs'). set (d' := if _ <? _ then [] else d) in *.
  assert (held_descs (w ++ t ++ map fst d') <= held_descs (w ++ t ++ map fst d))%nat as Hle.
  { subst d'. destruct (_ <? _); [|done]. unfold held_descs. rewrite !sum_list_with_app. cbn. lia. }
  pose proof (free_count _ _ _ Hring) as Hfree. change (Z.of_nat (BUF_PACKETS / 2)) with 32 in Hfew. cbn [length] in Hs'.
  rewrite (proj2 (Z.leb_gt _ _)) in Hs' by lia. destruct Hs' as (_ & q' & fl' & r0 & Hsim' & Hview & (got' & ans' & Hans' & Hhist & Hok' & Hsame) & Hnum').
  assert (Forall2 (fun x y => is_req (client s) x.1 y.1 /\ x.2 = y.2) d' ans') as Hd'.
  { subst d'. destruct (_ <? _); [by destruct ans'|]. rewrite (answers_tag _ _ _ Hd) in Hans'.
    rewrite (map_ext (tag (client s')) (tag (client s))) in Hans' by (intros x; unfold tag; by rewrite (ptr_same (client s) (client s'))).
    apply tag_inj in Hans' as <-. done. }
  wp_steps. cbn [client set_client]. split; [|split; [etransitivity; [exact Hsame|by split]|]].
  - exists q', fl', (w ++ [r0]), d', (wi ++ [i]), ti, got', ans'. unfold view in Hview. injection Hview as Hb Hda.
    assert (same_net (client s) (set_in_rx (in_rx (client s') + 1) (client s'))) as Hsame' by (etransitivity; [exact Hsame|by split]).
    split; [by apply sim_client|]. split; [lia|]. split; [|split; [by eapply reqs_same|split; [|split; [|split]]]].
    + apply List.Forall2_app; [by eapply reqs_same|]. constructor; [|constructor]. eapply is_req_same; [exact Hsame'|]. done.
    + eapply list.Forall2_impl; [exact Hd'|]. intros x y [Hx Hy]. split; [by eapply is_req_same|done].
    + assert (rx_ok (client s') free got' ans' (wi ++ ti) (i :: hold)) as Hok2 by exact Hok'. clear Hok'.
      destruct Hok2 as [O1 O2 O3 O4 O5 O6 O7 O8 O9 O11]. split; cbn; try done.
      * rewrite <- O7. solve_Permutation.
      * rewrite O9, !length_app. cbn. lia.
    + cbn. destruct Hsame as [_ _ _ [-> ->]]. done.
    + done.
  - cbn. rewrite (rk_in _ _ _ _ _ _ Hok'), (rk_in _ _ _ _ _ _ Hok). apply (f_equal length) in Hans'. unfold answers in Hans'.
    rewrite !length_map in Hans'. pose proof (Forall2_length _ _ _ Hd). assert (length d' <= length d)%nat by (subst d'; destruct (_ <? _); cbn; lia). lia.
Qed.

Lemma give_all_ok l : forall s a t hold free hist, inv s a t (l ++ hold) free hist ->
  in_rx (client s) + Z.of_nat (length l) <= Z.of_nat (BUF_PACKETS / 2) ->
  wp (give_all l) s (fun _ s' => inv s' a t hold free hist /\ same_net (client s) (client s') /\ in_rx (client s') <= Z.of_nat (BUF_PACKETS / 2)).
Proof.
  induction l as [|i l IH]; intros s a t hold free hist Hinv Hfew; cbn [give_all].
  { wp_steps. split; [done|]. split; [reflexivity|]. cbn [length] in Hfew. lia. }
  cbn [length app] in *. pose proof (give_packet_ok s a t i (l ++ hold) free hist Hinv ltac:(lia)) as Hgive.
  wp_steps. eapply wp_mono; [exact Hgive|]. cbn beta. intros _ s1 (Hinv1 & Hsame1 & Hin1).
  eapply wp_mono; [apply (IH s1 a t hold free hist Hinv1); lia|]. cbn beta. intros _ s2 (Hinv2 & Hsame2 & Hin2).
  split; [done|]. split; [by etransitivity|done].
Qed.

(** The driver's variables may change as long as the packets stay accounted for. *)
Lemma inv_with_set_client s a t hold free hist q fl w d wi ti got ans c free' got' hold' :
  inv_with s a t hold free hist q fl w d wi ti got ans ->
  packets_vir c = packets_vir (client s) -> data_phys c = data_phys (client s) -> spin_free c = false /\ spin_recv c = false ->
  rx_ok c free' got' ans (wi ++ ti) hold' ->
  inv_with (set_client c s) a t hold' free' (got' ++ ans) q fl w d wi ti got' ans.
Proof.
  intros (Hsim & Hnum & Hw & Ht & Hd & _) Hp Hdp Hl Hok.
  split; [by apply sim_client|]. split; [done|].
  assert (forall l il, Forall2 (is_req (client s)) l il -> Forall2 (is_req c) l il) as Hreqs.
  { intros l il Hlil. eapply list.Forall2_impl; [exact Hlil|]. intros r i. by apply is_req_areas. }
  split; [by apply Hreqs|]. split; [by apply Hreqs|]. split; [|by split].
  eapply list.Forall2_impl; [exact Hd|]. intros x y [Hx Hy]. split; [by eapply is_req_areas|done].
Qed.
Lemma inv_set_client s a t hold free hist q fl w d wi ti got ans c free' got' hold' :
  inv_with s a t hold free hist q fl w d wi ti got ans ->
  packets_vir c = packets_vir (client s) -> data_phys c = data_phys (client s) -> spin_free c = false /\ spin_recv c = false ->
  rx_ok c free' got' ans (wi ++ ti) hold' ->
  inv (set_client c s) a t hold' free' (got' ++ ans).
Proof. intros. eexists _, _, _, _, _, _, _, _. by eapply inv_with_set_client. Qed.

Lemma refill_ok s a t free hist : inv s a t [] free hist -> in_rx (client s) <= Z.of_nat (BUF_PACKETS / 2) ->
  wp virtio_net_refill_rx_queue s (fun _ s' => exists k, inv s' a t [] (drop k free) hist /\ same_net (client s) (client s') /\
    in_rx (client s') <= Z.of_nat (BUF_PACKETS / 2)).
Proof.
  intros (q & fl & w & d & wi & ti & got & ans & Hinv) Hle. pose proof Hinv as (_ & _ & _ & _ & _ & Hok & [Hl1 Hl2] & ->).
  assert (0 <= in_rx (client s)) as H0 by (rewrite (rk_in _ _ _ _ _ _ Hok); lia).
  unfold virtio_net_refill_rx_queue, on_net, on_client. wp_steps. set (k := Z.to_nat _). rewrite set_client_id.
  apply wp_with_free; [done|]. eapply wp_mono; [apply (take_free_ok k 0 _ free got ans (wi ++ ti) [])|].
  { by apply rx_ok_spins. }
  { subst k. change (Z.of_nat (BUF_PACKETS / 2)) with 32 in *. change (BUF_PACKETS / 2)%nat with 32%nat. lia. }
  cbn beta. intros l n' (-> & Hok' & Hsame'). wp_steps. set (c := set_spins false (spin_recv n') n').
  assert (same_net (client s) c) as Hsame.
  { destruct Hsame' as [A1 A2 A3 [A4 A5]]. by split. }
  assert (inv (set_client c s) a t (take k free ++ []) (drop k free) (got ++ ans)) as Hinv1.
  { destruct Hsame as [(A1 & A1' & A1'') A2 A3 [A4 A5]]. eapply inv_set_client; [exact Hinv|done|done|split; congruence|].
    by apply rx_ok_spins. }
  eapply wp_mono; [apply (give_all_ok (take k free) _ a t [] (drop k free) (got ++ ans) Hinv1)|].
  { cbn [client set_client]. change (in_rx c) with (in_rx n'). rewrite (rk_in _ _ _ _ _ _ Hok'), <- (rk_in _ _ _ _ _ _ Hok).
    rewrite length_take. subst k. lia. }
  cbn beta. intros _ s2 (Hinv2 & Hsame2 & Hin2). wp_steps.
  pose proof Hinv2 as (q2 & fl2 & w2 & d2 & wi2 & ti2 & got2 & ans2 & Hinv2'). pose proof Hinv2' as (_ & _ & _ & _ & _ & Hok2 & [Hl3 Hl4] & Hh2).
  unfold on_tq. wp_steps. unfold wp at 1. rewrite (empty_ok _ _ _ (rk_free _ _ _ _ _ _ Hok2)). wp_steps. rewrite set_tq_id, !set_client_id.
  assert (same_net (client s) (client s2)) as Hs2 by (by transitivity c).
  destruct (_ && _); wp_steps.
  - exists k. cbn. split; [|split; [|done]].
    + rewrite Hh2. eapply inv_set_client; [exact Hinv2'|done|done|done|]. destruct Hok2. by split.
    + etransitivity; [exact Hs2|]. by split.
  - by exists k.
Qed.

Lemma rx_poll_ok s a t free hist : inv s a t [] free hist ->
  wp rx_poll_callback s (fun r s' => r = 0 /\ (exists q fl w wi ti, inv_with s' a t [] free hist q fl w [] wi ti hist []) /\ same_net (client s) (client s') /\
    in_rx (client s') <= in_rx (client s)).
Proof.
  intros (q & fl & w & d & wi & ti & got & ans & Hsim & Hnum & Hw & Ht & Hd & Hok & Hlocks & ->).
  unfold rx_poll_callback, on_net, on_client. wp_steps. eapply wp_mono.
  { apply (read_queue_gen net_callback RX_Q (delivering (client s) free (wi ++ ti) [] (got ++ ans))
      (fun data l0 l c => delivering_step (client s) free (wi ++ ti) [] (got ++ ans) data l0 l c (proj2 Hlocks))
      s a q fl w t d Hsim). by apply delivering_start. }
  cbn beta. intros _ s1 (_ & q1 & fl1 & Hsim1 & Hn1 & got1 & [|? ?] & Hans1 & Hh1 & Hok1 & Hsame1); [|done].
  assert (inv_with s1 a t [] free (got ++ ans) q1 fl1 w [] wi ti got1 []) as Hinv1.
  { split; [done|]. split; [lia|]. split; [by eapply reqs_same|]. split; [by eapply reqs_same|]. split; [constructor|]. split; [done|].
    split; [|done]. destruct Hsame1 as [_ _ _ [-> ->]]. done. }
  assert (in_rx (client s1) <= in_rx (client s)) as Hin by (rewrite (rk_in _ _ _ _ _ _ Hok1), (rk_in _ _ _ _ _ _ Hok); cbn; lia).
  wp_steps. destruct (_ <? _); wp_steps.
  - apply wp_add_poll. intros k. wp_steps. rewrite set_client_id. split; [done|]. split; [|split; [|done]].
    + exists q1, fl1, w, wi, ti. rewrite Hh1 in *. rewrite app_nil_r in *.
      pose proof (inv_with_set_client _ _ _ _ _ _ _ _ _ _ _ _ _ _ (set_kern k (client s1)) free got1 [] Hinv1) as Hk. rewrite app_nil_r in Hk.
      apply Hk; [done|done|apply Hinv1|]. destruct Hok1. by split.
    + etransitivity; [exact Hsame1|]. by split.
  - rewrite set_client_id. split; [done|]. split; [|by split]. exists q1, fl1, w, wi, ti. rewrite Hh1 in *. by rewrite app_nil_r in *.
Qed.

(** What the network stack may do while it takes a packet: anything but touch
    the receive side of the driver. *)
Record keeps_rx (s s' : dev) : Prop := {
  kr_net : same_net (client s) (client s');
  kr_packets : packets (client s') = packets (client s) /\ tq (client s') = tq (client s) /\ in_rx (client s') = in_rx (client s);
  kr_queue : forall a q fl w t d, sim_with RX_Q s a q fl w t d -> exists q', q_num q' = q_num q /\ sim_with RX_Q s' a q' fl w t d
}.
Class NetReceiver : Prop := receiver_keeps : forall b l s, wp (receiver b l) s (fun _ s' => keeps_rx s s').
Context {HRecv : NetReceiver}.

(** What the receiver is given of a packet: its data behind the virtio header. *)
Definition frame (n : net K) (x : nat * Z) : Z * Z :=
  (data_vir n + Z.of_nat x.1 * MAX_PACK_SIZE + hdr_size n, wrap64 (x.2 - hdr_size n)).

Lemma keeps_inv s s' a t hold free hist : keeps_rx s s' -> inv s a t hold free hist -> inv s' a t hold free hist.
Proof.
  intros [Hnet (Hpk & Htq & Hin) Hq] (q & fl & w & d & wi & ti & got & ans & Hsim & Hnum & Hw & Ht & Hd & Hok & Hl & ->).
  destruct (Hq _ _ _ _ _ _ Hsim) as (q' & Hn & Hsim'). exists q', fl, w, d, wi, ti, got, ans. split; [done|]. split; [lia|].
  split; [by eapply reqs_same|]. split; [by eapply reqs_same|]. split; [|split; [|split; [|done]]].
  - eapply list.Forall2_impl; [exact Hd|]. intros x y [Hx Hy]. split; [by eapply is_req_same|done].
  - destruct Hok as [O1 O2 O3 O4 O5 O6 O7 O8 O9 O11], Hnet as [(A1 & A2 & A3) _ _ _].
    split; rewrite ?Hpk, ?Htq, ?Hin, ?A1, ?A2, ?A3; done.
  - destruct Hnet as [_ _ _ [-> ->]]. done.
Qed.

Lemma set_client_twice c c' (s : dev) : set_client c (set_client c' s) = set_client c s.
Proof. done. Qed.

(** The list a poll works on: its head may still name the other list when it is
    empty. *)
Definition polled (T : tqs) (l : list nat) : Prop :=
  match l with [] => exists x, tq_heads T !! POLLED = Some x /\ stqh_first x = None | _ => is_q T POLLED l end.
Lemma polled_of_q T l : is_q T POLLED l -> polled T l.
Proof. intros Hq. destruct l; [|done]. by eexists; split; [apply Hq|]. Qed.
Lemma polled_empty T l : polled T l -> STAILQ_EMPTY POLLED T = Done (match l with [] => true | _ => false end, T).
Proof.
  destruct l; [|by apply (empty_ok T POLLED)]. intros (x & Hx & Hf). unfold STAILQ_EMPTY, STAILQ_FIRST, get_head, bind, gets, deref_opt.
  rewrite Hx. cbn. by rewrite Hf.
Qed.
Definition lengths (n : net K) (l : list (nat * Z)) : Prop := Forall (fun x => exists p, packets n !! x.1 = Some p /\ len p = x.2) l.

Lemma rx_apart n free got ans inq i hold : rx_ok n free got ans inq (i :: hold) ->
  (i < BUF_PACKETS)%nat /\ (i ∉ free) /\ (forall e, e ∈ hold -> e ∉ i :: free) /\ (forall e, e ∈ map fst got -> e ∉ i :: free).
Proof.
  intros Hok. destruct (rx_split_bound _ _ _ _ _ _ i Hok) as [Hi _]; [rewrite !elem_of_app; do 4 right; left|].
  pose proof (rx_split_nodup _ _ _ _ _ _ Hok) as Hnd. pose proof Hnd as (_ & Hd & Hnd')%list.NoDup_app.
  pose proof Hnd' as (_ & Hd2 & Hnd2)%list.NoDup_app. rewrite app_assoc in Hnd2.
  apply list.NoDup_app in Hnd2 as (_ & _ & [Hih _]%list.NoDup_cons). split; [done|]. split; [|split].
  - intros Hf. apply (Hd i Hf). rewrite !elem_of_app. do 3 right. left.
  - intros e He [->|Hf]%elem_of_cons; [done|]. apply (Hd e Hf). rewrite !elem_of_app. do 3 right. by right.
  - intros e He [->|Hf]%elem_of_cons; [|apply (Hd e Hf); rewrite !elem_of_app; by left].
    apply (Hd2 i He). rewrite !elem_of_app. do 2 right. left.
Qed.

Lemma poll_loop_ok l : forall fuel s a t free hist, inv s a t (map fst l) free hist -> polled (tq (client s)) (map fst l) ->
  lengths (client s) l -> (length l <= fuel)%nat -> has_receiver (client s) = true ->
  wp (poll_loop fuel) s (fun _ s' => inv s' a t [] (free ++ map fst l) hist /\
    calls (client s') = calls (client s) ++ map (frame (client s)) l /\ same_net (set_calls [] (client s)) (set_calls [] (client s')) /\
    in_rx (client s') = in_rx (client s)).
Proof.
  induction l as [|[i x] l IH]; intros fuel s a t free hist Hinv Hpolled Hlens Hfuel Hrec.
  - assert (forall k : M dev unit, wp (e <- on_net (on_tq (STAILQ_EMPTY POLLED)) ;; if e : bool then ret tt else k) s (fun _ s' => s' = s)) as Hend.
    { intros k. unfold on_net, on_client, on_tq. wp_steps. unfold wp at 1. rewrite (polled_empty _ [] Hpolled), set_tq_id, set_client_id. by wp_steps. }
    destruct fuel; cbn [poll_loop]; (eapply wp_mono; [apply Hend|]); intros _ s' ->; rewrite !app_nil_r;
      (split; [done|]; split; [done|]; split; [reflexivity|done]).
  - destruct fuel as [|fuel]; [cbn in Hfuel; lia|]. cbn [map fst] in *. cbn [poll_loop]. unfold on_net, on_client, on_tq.
    wp_steps. unfold wp at 1. rewrite (polled_empty _ (i :: map fst l) Hpolled), set_tq_id, set_client_id. wp_steps.
    unfold wp at 1. rewrite (first_ok _ _ _ Hpolled), set_tq_id, set_client_id. cbn [head]. wp_steps. eapply wp_deref_opt; [reflexivity|]. wp_steps.
    eapply wp_mono; [apply (remove_head_ok _ _ _ _ Hpolled)|]. intros _ T (HT & Hoth). wp_steps. rewrite !set_client_id. cbn [client set_client].
    destruct Hinv as (q & fl & w & d & wi & ti & got & ans & Hinv). pose proof Hinv as (_ & _ & _ & _ & _ & Hok & Hlocks & ->).
    assert (rx_ok (set_tq T (client s)) free got ans (wi ++ ti) (i :: map fst l)) as Hok1.
    { eapply rx_ok_lists; [exact Hok| | | |apply Hoth|done|done].
      - eapply others_q; [exact Hoth|done|apply Hok|]. intros e _. apply not_elem_of_nil.
      - eapply others_q; [exact Hoth|done|apply Hok|]. intros e _. apply not_elem_of_nil.
      - eexists. apply HT. }
    apply list.Forall_cons in Hlens as [(p & Hp & Hlen) Hlens]. cbn [fst snd] in Hp, Hlen.
    cbn [has_receiver set_tq]. rewrite Hrec. wp_steps. eapply wp_get_packet; [exact Hp|]. rewrite set_client_id. wp_steps. rewrite set_client_id. cbn [client set_client hdr_size set_tq calls].
    rewrite Hlen, (proj1 (rk_layout _ _ _ _ _ _ Hok i p Hp)).
    set (s1 := set_client _ _).
    assert (inv s1 a t (i :: map fst l) free (got ++ ans)) as Hinv1.
    { subst s1. rewrite set_client_twice. eapply inv_set_client; [exact Hinv|done|done|done|]. destruct Hok1. by split. }
    eapply wp_mono; [apply receiver_keeps|]. cbn beta. intros _ s2 Hkeep. wp_steps. pose proof (keeps_inv _ _ _ _ _ _ _ Hkeep Hinv1) as Hinv2.
    destruct Hkeep as [Hnet (Hpk & Htq & Hin) _].
    destruct Hinv2 as (q2 & fl2 & w2 & d2 & wi2 & ti2 & got2 & ans2 & Hinv2). pose proof Hinv2 as (_ & _ & _ & _ & _ & Hok2 & Hlocks2 & Hh2).
    apply wp_with_free; [apply Hlocks2|]. unfold on_tq. wp_steps. cbn [tq set_spins].
    destruct (rx_apart _ _ _ _ _ _ _ Hok2) as (Hi & Hif & Hlf & Hgf).
    eapply wp_mono; [apply (insert_tail_ok _ _ _ i (rk_free _ _ _ _ _ _ Hok2)); [by apply Hok2, Hi|exact Hif]|].
    intros _ T2 (HT2 & Hoth2).
    assert (polled (tq (client s2)) (map fst l)) as Hpol2.
    { rewrite Htq. by apply polled_of_q. }
    eapply wp_mono; [apply (IH fuel _ a t (free ++ [i]) (got ++ ans))|].
    + rewrite Hh2. eapply inv_set_client; [exact Hinv2|done|done|split; [done|apply Hlocks2]|]. apply rx_ok_spins.
      apply (rx_ok_lists (set_spins true (spin_recv (client s2)) (client s2)) free got2 ans2 (wi2 ++ ti2) (i :: map fst l)); [by apply rx_ok_spins|exact HT2| | |apply Hoth2|solve_Permutation|done].
      * eapply others_q; [exact Hoth2|done|apply Hok2|]. exact Hgf.
      * destruct Hoth2 as (Hh & _). rewrite Hh by done. apply Hok2.
    + cbn [client set_client tq set_tq set_spins]. destruct (map fst l) as [|b l'] eqn:El.
      * destruct Hpol2 as (y & Hy & Hy'). exists y. destruct Hoth2 as (Hh & _). rewrite Hh by done. done.
      * eapply others_q; [exact Hoth2|done|exact Hpol2|]. exact Hlf.
    + cbn [client set_client]. unfold lengths. cbn [packets set_tq set_spins]. rewrite Hpk. exact Hlens.
    + cbn in Hfuel. lia.
    + cbn. destruct Hnet as [_ [_ ->] _ _]. exact Hrec.
    + cbn beta. intros _ s3 (Hinv3 & Hcalls & Hsame & Hin3).
      destruct Hnet as [(A1 & A2 & A3) [A4 A5] A6 [A7 A8]], Hsame as [(B1 & B2 & B3) [B4 B5] _ [B7 B8]], Hlocks2 as [L1 L2]. cbn in *.
      rewrite <- app_assoc in Hinv3. split; [done|]. split; [|split; [|congruence]].
      * rewrite Hcalls, A6, <- app_assoc. unfold frame. cbn. by rewrite A2, A4.
      * split; cbn; [split; [|split]; congruence|split; congruence|done|split; congruence].
Qed.

(** [poll_callback] takes the whole list of received packets. *)
Lemma take_received T l : is_q T RECV l -> is_Some (tq_heads T !! POLLED) ->
  wp (copy_head POLLED RECV ;;; STAILQ_INIT RECV) T (fun _ T' => polled T' l /\ is_q T' RECV [] /\
    tq_heads T' !! FREE = tq_heads T !! FREE /\ is_Some (tq_heads T' !! POLLED) /\ tq_next T' = tq_next T).
Proof.
  intros [Hh Hl Hn] Hp. unfold copy_head, put_head, STAILQ_INIT. wp_steps. eapply wp_get_head; [exact Hh|]. wp_steps.
  eapply wp_set_first; [cbn; rewrite lookup_insert_ne by done; exact Hh|]. wp_steps. eapply wp_set_last; [apply lookup_insert_eq|]. cbn.
  assert (forall h, h <> RECV -> <[RECV := TqHead None (FirstOf RECV)]> (<[RECV := TqHead None (last_slot RECV l)]>
    (<[POLLED := TqHead (head l) (last_slot RECV l)]> (tq_heads T))) !! h = <[POLLED := TqHead (head l) (last_slot RECV l)]> (tq_heads T) !! h) as Hother.
  { intros h Hne. by rewrite 2!lookup_insert_ne by congruence. }
  split; [|split; [|split; [|split; [|done]]]].
  - destruct l as [|b l]; [eexists; split; [rewrite Hother by done; apply lookup_insert_eq|done]|].
    split; cbn; [rewrite Hother, lookup_insert_eq by done|done|done]. unfold last_slot.
    destruct (list.last (b :: l)) eqn:E; [done|by apply last_None in E].
  - split; cbn; [by rewrite lookup_insert_eq|by intros k e|constructor].
  - rewrite Hother by done. by rewrite lookup_insert_ne.
  - rewrite Hother, lookup_insert_eq by done. by eexists.
Qed.

Lemma poll_callback_ok s a t free hist q fl w d wi ti got ans :
  inv_with s a t [] free hist q fl w d wi ti got ans -> has_receiver (client s) = true ->
  wp poll_callback s (fun r s' => r = 0 /\ inv s' a t [] (free ++ map fst got) ans /\
    calls (client s') = calls (client s) ++ map (frame (client s)) got /\ same_net (set_calls [] (client s)) (set_calls [] (client s')) /\
    in_rx (client s') = in_rx (client s)).
Proof.
  intros Hinv Hrec. pose proof Hinv as (_ & _ & _ & _ & _ & Hok & Hlocks & _).
  unfold poll_callback, on_net, on_client. wp_steps. apply wp_with_recv; [apply Hlocks|]. unfold on_tq. apply wp_zoom. cbn [tq set_spins].
  eapply wp_mono; [apply (take_received _ _ (rk_recv _ _ _ _ _ _ Hok) (rk_poll _ _ _ _ _ _ Hok))|].
  cbn beta. intros _ T (HT & HTr & HTf & HTp & HTn). wp_steps. set (c := set_spins _ _ _).
  assert (inv (set_client c s) a t (map fst got) free ([] ++ ans)) as Hinv1.
  { eapply inv_set_client; [exact Hinv|done|done|split; [apply Hlocks|done]|]. subst c. apply rx_ok_spins.
    destruct Hok as [O1 O2 O3 O4 O5 O6 O7 O8 O9 O11]. split; cbn; try done.
    - eapply is_q_frame; [exact O3|done|]. intros e _. by rewrite HTn.
    - intros i Hi. rewrite HTn. by apply O6.
    - rewrite <- O7, app_nil_r. solve_Permutation. }
  eapply wp_mono; [apply (poll_loop_ok got BUF_PACKETS (set_client c s) a t free ans Hinv1 HT)|].
  - exact (rk_got _ _ _ _ _ _ Hok).
  - pose proof (Permutation_length (rk_split _ _ _ _ _ _ Hok)) as Hlen. rewrite length_seq, !length_app, !length_map in Hlen. lia.
  - exact Hrec.
  - cbn beta. intros _ s' (Hinv' & Hcalls & Hsame & Hin). wp_steps. split; [done|]. split; [done|].
    split; [exact Hcalls|]. split; [etransitivity; [|exact Hsame]|done]. split; cbn; try done. destruct Hlocks as [_ ->]. done.
Qed.

(** ** Runs of driver and device *)

Definition answered (q : virtio_queue) (k : nat) (l : Z) : virtio_queue :=
  set_vring (set_used (wrap16 (used_idx (q_vring q) + 1))
    (<[Z.to_nat (used_idx (q_vring q) mod q_num q) := (Z.of_nat k, l)]> (used_ring (q_vring q))) (q_vring q)) q.

(** The driver, the device's place in the available ring and the heads it has
    taken, and what it has completed: the pointer of the request and its
    length. *)
Record conf := Conf { drv : dev; place : Z; taking : list nat; completed : list (Z * Z) }.
Inductive net_step : conf -> conf -> Prop :=
  | net_fill s s' r a h l : fill_recv_callback s = Done (r, s') -> net_step (Conf s a h l) (Conf s' a h l)
  | net_read s s' r a h l : rx_poll_callback s = Done (r, s') -> net_step (Conf s a h l) (Conf s' a h l)
  | net_poll s s' r a h l : poll_callback s = Done (r, s') -> net_step (Conf s a h l) (Conf s' a h l)
  | net_take s q a h l k seen :
      the_queue RX_Q s = Some q -> avail_idx (q_vring q) <> wrap16 a ->
      avail_ring (q_vring q) !! Z.to_nat (a mod q_num q) = Some (Z.of_nat k) -> reads (v_desc (q_vring q)) k seen ->
      net_step (Conf s a h l) (Conf s (a + 1) (h ++ [k]) l)
  | net_answer s q a h l (j k : nat) x data :
      the_queue RX_Q s = Some q -> h !! j = Some k -> q_data q !! k = Some data ->
      net_step (Conf s a h l) (Conf (with_queue RX_Q (answered q k x) s) a (delete j h) (l ++ [(data, x)])).
Inductive net_run : conf -> conf -> Prop :=
  | net_run_nil c : net_run c c
  | net_run_step c1 c2 c3 : net_run c1 c2 -> net_step c2 c3 -> net_run c1 c3.

(** What a completed request is for the receiver. *)
Definition frame_of (n : net K) (x : Z * Z) : Z * Z :=
  (data_vir n + (x.1 - packets_vir n) / SIZE_PACKET * MAX_PACK_SIZE + hdr_size n, wrap64 (x.2 - hdr_size n)).
Lemma frame_tag n x : frame_of n (tag n x) = frame n x.
Proof.
  unfold frame_of, tag, frame, ptr. cbn. do 2 f_equal. f_equal. f_equal.
  replace (packets_vir n + SIZE_PACKET * Z.of_nat x.1 - packets_vir n) with (Z.of_nat x.1 * SIZE_PACKET) by lia. by apply Z.div_mul.
Qed.

(** [done] are the packets the receiver was given, [hist] those still to come. *)
Record running (n0 : net K) (c : conf) (t : list request) (free : list nat) (given hist : list (nat * Z)) : Prop := {
  rn_inv : inv (drv c) (place c) t [] free hist;
  rn_taking : taking c = map r_head t;
  rn_same : same_net (set_calls [] n0) (set_calls [] (client (drv c)));
  rn_rec : has_receiver n0 = true;
  rn_few : in_rx (client (drv c)) <= Z.of_nat (BUF_PACKETS / 2);
  rn_calls : calls (client (drv c)) = calls n0 ++ map (frame n0) given;
  rn_completed : completed c = map (tag n0) (given ++ hist)
}.

Lemma frame_areas n n' x : data_vir n' = data_vir n -> hdr_size n' = hdr_size n -> frame n' x = frame n x.
Proof. intros H1 H2. unfold frame. by rewrite H1, H2. Qed.
Lemma same_calls n n' : same_net n n' -> same_net (set_calls [] n) (set_calls [] n').
Proof. intros [A1 A2 A3 A4]. by split. Qed.

Lemma fill_step n0 s s' r a h l t free given hist : running n0 (Conf s a h l) t free given hist -> fill_recv_callback s = Done (r, s') ->
  exists free', running n0 (Conf s' a h l) t free' given hist.
Proof.
  intros [R1 R2 R3 R4 R5 R6 R7] Hrun. cbn in *. pose proof (refill_ok s a t free hist R1 R5) as Hwp.
  unfold fill_recv_callback in Hrun. assert (wp (virtio_net_refill_rx_queue ;;; ret 0) s (fun _ s' => exists k, inv s' a t [] (drop k free) hist /\
    same_net (client s) (client s') /\ in_rx (client s') <= Z.of_nat (BUF_PACKETS / 2))) as Hw by (wp_steps; exact Hwp).
  unfold wp in Hw. rewrite Hrun in Hw. destruct Hw as (k & Hinv & Hsame & Hin). exists (drop k free). split; cbn; try done.
  - etransitivity; [exact R3|by apply same_calls].
  - by rewrite (sn_calls _ _ Hsame).
Qed.
Lemma read_step n0 s s' r a h l t free given hist : running n0 (Conf s a h l) t free given hist -> rx_poll_callback s = Done (r, s') ->
  running n0 (Conf s' a h l) t free given hist.
Proof.
  intros [R1 R2 R3 R4 R5 R6 R7] Hrun. cbn in *. pose proof (rx_poll_ok s a t free hist R1) as Hw. unfold wp in Hw. rewrite Hrun in Hw.
  destruct Hw as (_ & (q & fl & w & wi & ti & Hinv) & Hsame & Hin). split; cbn; try done; [by exists q, fl, w, [], wi, ti, hist, []| |lia|by rewrite (sn_calls _ _ Hsame)].
  etransitivity; [exact R3|by apply same_calls].
Qed.
Lemma poll_step n0 s s' r a h l t free given hist : running n0 (Conf s a h l) t free given hist -> poll_callback s = Done (r, s') ->
  exists free' given' hist', running n0 (Conf s' a h l) t free' given' hist'.
Proof.
  intros [R1 R2 R3 R4 R5 R6 R7] Hrun. cbn in *. assert (has_receiver (client s) = true) as Hrec by (destruct R3 as [_ [_ E] _ _]; cbn in E; congruence).
  destruct R1 as (q & fl & w & d & wi & ti & got & ans & R1). pose proof R1 as (_ & _ & _ & _ & _ & _ & _ & ->).
  pose proof (poll_callback_ok _ _ _ _ _ _ _ _ _ _ _ _ _ R1 Hrec) as Hw. unfold wp in Hw. rewrite Hrun in Hw.
  destruct Hw as (_ & Hinv & Hcalls & Hsame & Hin). exists (free ++ map fst got), (given ++ got), ans.
  split; cbn; try done; [by etransitivity|lia| |by rewrite <- app_assoc].
  rewrite Hcalls, R6, map_app, <- app_assoc. do 2 f_equal. apply map_ext. intros x.
  destruct R3 as [(_ & E1 & _) [E2 _] _ _]. by apply frame_areas.
Qed.
Lemma take_step n0 s q a h l k seen t free given hist : running n0 (Conf s a h l) t free given hist ->
  the_queue RX_Q s = Some q -> avail_idx (q_vring q) <> wrap16 a ->
  avail_ring (q_vring q) !! Z.to_nat (a mod q_num q) = Some (Z.of_nat k) -> reads (v_desc (q_vring q)) k seen ->
  exists t', running n0 (Conf s (a + 1) (h ++ [k]) l) t' free given hist.
Proof.
  intros [R1 R2 R3 R4 R5 R6 R7] Hq Hidx Hk Hreads. cbn in *.
  destruct R1 as (q1 & fl & w & d & wi & ti & got & ans & Hsim & Hnum & Hw & Ht & Hd & Hok & Hl & ->).
  assert (q1 = q) as -> by (rewrite (sw_queue _ _ _ _ _ _ _ _ Hsim) in Hq; by injection Hq).
  destruct (take_ok RX_Q s a q fl w t d k seen Hsim Hidx Hk Hreads) as (r & w' & -> & -> & _ & Hsim').
  apply list.Forall2_cons_inv_l in Hw as (i & wi' & Hr & Hw & ->). exists (t ++ [r]). split; cbn; try done; [|by rewrite map_app, R2].
  exists q, fl, w', d, wi', (ti ++ [i]), got, ans. split; [done|]. split; [done|]. split; [done|].
  split; [apply List.Forall2_app; [done|by constructor]|]. split; [done|]. split; [|done].
  eapply rx_ok_perm; [exact Hok| |done]. solve_Permutation.
Qed.
Lemma answer_step n0 s q a h l j k x data t free given hist : running n0 (Conf s a h l) t free given hist ->
  the_queue RX_Q s = Some q -> h !! j = Some k -> q_data q !! k = Some data ->
  exists i, running n0 (Conf (with_queue RX_Q (answered q k x) s) a (delete j h) (l ++ [(data, x)])) (delete j t) free given (hist ++ [(i, x)]).
Proof.
  intros [R1 R2 R3 R4 R5 R6 R7] Hq Hj Hdata. cbn in *.
  destruct R1 as (q1 & fl & w & d & wi & ti & got & ans & Hsim & Hnum & Hw & Ht & Hd & Hok & Hl & ->).
  assert (q1 = q) as -> by (rewrite (sw_queue _ _ _ _ _ _ _ _ Hsim) in Hq; by injection Hq).
  rewrite R2 in Hj. apply list_lookup_fmap_Some in Hj as (r & -> & Hr).
  pose proof (answer_ok RX_Q s a q fl w t d j r x Hsim Hr) as Hsim'.
  destruct (Forall2_lookup_l _ _ _ _ _ Ht Hr) as (i & Hi & Hri). exists i.
  assert (data = ptr n0 i) as ->.
  { pose proof (ro_out _ _ _ (sw_ring _ _ _ _ _ _ _ _ Hsim)) as Hall. rewrite list.Forall_forall in Hall.
    destruct (Hall r) as (_ & _ & Hda); [rewrite !elem_of_app; right; left; by eapply list_elem_of_lookup_2|].
    rewrite Hdata in Hda. injection Hda as ->. rewrite (proj1 Hri). destruct R3 as [(E & _) _ _ _]. unfold ptr. cbn in E. by rewrite E. }
  split; cbn; try done.
  - exists (answered q (r_head r) x), fl, w, (d ++ [(r, x)]), wi, (delete j ti), got, (ans ++ [(i, x)]).
    split; [exact Hsim'|]. split; [done|]. split; [done|]. split; [by apply Forall2_delete|].
    split; [apply List.Forall2_app; [done|by constructor]|]. split; [|split; [done|by rewrite app_assoc]].
    pose proof (delete_Permutation ti j i Hi) as Hp. destruct Hok as [O1 O2 O3 O4 O5 O6 O7 O8 O9 O11].
    split; cbn; try done.
    + rewrite <- O7, map_app. cbn. rewrite Hp at 2. solve_Permutation.
    + rewrite O9, !length_app. apply Permutation_length in Hp. rewrite Hp. cbn. lia.
  - rewrite R2. symmetry. apply (list_fmap_delete r_head).
  - rewrite R7. rewrite !map_app. cbn. by rewrite <- app_assoc.
Qed.

Lemma running_run n0 c c' : net_run c c' -> (exists t free given hist, running n0 c t free given hist) ->
  exists t free given hist, running n0 c' t free given hist.
Proof.
  intros Hrun Hc. induction Hrun as [|c1 c2 c3 _ IH Hstep]; [done|]. destruct (IH Hc) as (t & free & given & hist & HR).
  destruct Hstep as [s s' r a h l Hr|s s' r a h l Hr|s s' r a h l Hr|s q a h l k seen Hq Hi Hk Hs|s q a h l j k x data Hq Hj Hd].
  - destruct (fill_step _ _ _ _ _ _ _ _ _ _ _ HR Hr) as (free' & HR'). by exists t, free', given, hist.
  - pose proof (read_step _ _ _ _ _ _ _ _ _ _ _ HR Hr). by exists t, free, given, hist.
  - destruct (poll_step _ _ _ _ _ _ _ _ _ _ _ HR Hr) as (free' & given' & hist' & HR'). by exists t, free', given', hist'.
  - destruct (take_step _ _ _ _ _ _ _ _ _ _ _ _ HR Hq Hi Hk Hs) as (t' & HR'). by exists t', free, given, hist.
  - destruct (answer_step n0 s q a h l j k x data t free given hist HR Hq Hj Hd) as (i & HR'). by exists (delete j t), free, given, (hist ++ [(i, x)]).
Qed.

(** ** Setting up *)

(** What [virtio_net_alloc_bufs] leaves, and the state at boot. *)
Record fresh (n : net K) : Prop := {
  fr_packets : length (packets n) = BUF_PACKETS;
  fr_heads : forall h, (h < 3)%nat -> is_Some (tq_heads (tq n) !! h);
  fr_links : forall i, (i < BUF_PACKETS)%nat -> is_Some (tq_next (tq n) !! i);
  fr_counts : in_rx n = 0 /\ calls n = [];
  fr_locks : spin_free n = false /\ spin_recv n = false;
  fr_base : 0 < packets_vir n
}.

Lemma init_packets_ok k : forall i n, (i + k = BUF_PACKETS)%nat -> length (packets n) = BUF_PACKETS ->
  (forall j p, (j < i)%nat -> packets n !! j = Some p ->
    vdata p = data_vir n + Z.of_nat j * MAX_PACK_SIZE /\ pdata p = data_phys n + Z.of_nat j * MAX_PACK_SIZE) ->
  is_q (tq n) FREE (rev (seq 0 i)) -> is_q (tq n) RECV [] -> is_Some (tq_heads (tq n) !! POLLED) ->
  (forall j, (j < BUF_PACKETS)%nat -> is_Some (tq_next (tq n) !! j)) -> in_rx n = 0 -> 0 < packets_vir n ->
  wp (init_packets k i) n (fun _ n' => rx_ok n' (rev (seq 0 BUF_PACKETS)) [] [] [] [] /\ same_net n n' /\ in_rx n' = 0).
Proof.
  induction k as [|k IH]; intros i n Hik Hlen Hlay Hf Hr Hp Hl Hin Hb; cbn [init_packets].
  - wp_steps. replace i with BUF_PACKETS in * by lia. split; [|split; [reflexivity|done]]. split; try done.
    + intros j p Hj. apply Hlay; [|done]. apply lookup_lt_Some in Hj. by rewrite Hlen in Hj.
    + rewrite !app_nil_r. cbn [map app]. symmetry. apply Permutation_rev.
  - wp_steps. destruct (lookup_lt_is_Some_2 (packets n) i) as [p Hpi]; [lia|]. eapply wp_get_packet; [exact Hpi|]. unfold put_packet. wp_steps.
    eapply wp_get_packet; [exact Hpi|]. wp_steps. unfold on_tq. wp_steps. cbn [tq set_packets].
    assert (i ∉ rev (seq 0 i)) as Hni by (rewrite <- Permutation_rev, elem_of_seq; lia).
    eapply wp_mono; [apply (insert_head_ok _ _ _ i Hf); [apply Hl; lia|exact Hni]|]. intros _ T (HT & Hoth).
    eapply wp_mono; [apply IH|].
    + lia.
    + cbn. by rewrite length_insert.
    + cbn. intros j p' Hj Hp'. apply list_lookup_insert_Some in Hp' as [(<- & <- & _)|[Hne Hp']]; [done|]. apply Hlay; [lia|done].
    + rewrite seq_S, rev_app_distr. exact HT.
    + eapply others_q; [exact Hoth|done|exact Hr|]. intros e He. by apply elem_of_nil in He.
    + destruct Hoth as (Hh & _). cbn. by rewrite Hh.
    + intros j Hj. by apply Hoth, Hl.
    + exact Hin.
    + exact Hb.
    + cbn beta. intros _ n' (Hok & Hsame & Hin'). split; [done|]. split; [|done]. etransitivity; [|exact Hsame]. by split.
Qed.

Lemma init_queues_ok n : fresh n ->
  wp virtio_net_init_queues n (fun _ n' => rx_ok n' (rev (seq 0 BUF_PACKETS)) [] [] [] [] /\ same_net n n' /\ in_rx n' = 0).
Proof.
  intros [F1 F2 F3 [F4 F5] [F6 F7] F8]. unfold virtio_net_init_queues, on_tq. wp_steps.
  destruct (F2 FREE ltac:(unfold FREE; lia)) as [x Hx]. eapply wp_mono; [by apply (init_ok _ FREE x)|].
  intros _ T1 (HT1 & Hoth1). wp_steps. destruct (F2 RECV ltac:(unfold RECV; lia)) as [y Hy]. cbn [tq set_tq].
  eapply wp_mono; [apply (init_ok _ RECV y); destruct Hoth1 as (Hh & _); by rewrite Hh|].
  intros _ T2 (HT2 & Hoth2). wp_steps. eapply wp_mono; [apply init_packets_ok; cbn; try done|].
  - intros j p Hj. lia.
  - eapply others_q; [exact Hoth2|done|exact HT1|]. intros e He. by apply elem_of_nil in He.
  - destruct Hoth1 as (Hh1 & _), Hoth2 as (Hh2 & _). rewrite Hh2, Hh1 by done. apply F2. unfold POLLED. lia.
  - intros j Hj. apply Hoth2, Hoth1, F3, Hj.
  - cbn beta. intros _ n' (Hok & Hsame & Hin). split; [done|]. split; [|done]. etransitivity; [|exact Hsame]. by split.
Qed.

(** With the allocator's addresses non-zero, [virtio_net_alloc_bufs] returns 0
    and leaves the packets in the state the rest needs. *)
Lemma alloc_bufs_fresh (s : dev) :
  (forall size h, exists p h', malloc size h = Done (p, h') /\ 0 < p) -> (forall p h, exists h', mfree p h = Done (tt, h')) ->
  (forall h, (h < 3)%nat -> is_Some (tq_heads (tq (client s)) !! h)) -> in_rx (client s) = 0 -> calls (client s) = [] ->
  spin_free (client s) = false /\ spin_recv (client s) = false ->
  wp virtio_net_alloc_bufs s (fun r s' => r = 0 /\ fresh (client s') /\ queues s' = queues s).
Proof.
  intros Hm Hf Hh Hin Hc Hl. unfold virtio_net_alloc_bufs, alloc, set_data, on_heap, on_net, on_client.
  assert (forall size h (Q : Z -> H -> Prop), (forall p h', 0 < p -> Q p h') -> wp (malloc size) h Q) as Hmalloc.
  { intros size h Q HQ. destruct (Hm size h) as (p & h' & Hp & Hpos). unfold wp. rewrite Hp. by apply HQ. }
  assert (forall p h (Q : unit -> H -> Prop), (forall h', Q tt h') -> wp (mfree p) h Q) as Hmfree.
  { intros p h Q HQ. destruct (Hf p h) as (h' & Hp). unfold wp. rewrite Hp. by apply HQ. }
  wp_steps. apply Hmalloc. intros d0 h0 Hd0. wp_steps. apply Hmfree. intros h1. wp_steps. apply Hmalloc. intros d1 h2 Hd1. wp_steps.
  rewrite (proj2 (Z.eqb_neq d1 0)) by lia. wp_steps. apply Hmalloc. intros d2 h3 Hd2. wp_steps.
  rewrite (proj2 (Z.eqb_neq d2 0)) by lia. wp_steps. apply Hmalloc. intros d3 h4 Hd3. wp_steps.
  rewrite (proj2 (Z.eqb_neq d3 0)) by lia. wp_steps. split; [done|]. split; [|done]. split; cbn [client set_client packets set_packets set_tq tq tq_heads tq_next in_rx set_areas calls spin_free spin_recv packets_vir VirtQueue.set_heap]; try done.
  intros i Hi. exists None. apply elem_of_list_to_map_1.
  - rewrite map_map, (map_ext _ (fun i => i)), map_id by done. apply NoDup_seq.
  - apply list_elem_of_fmap. exists i. split; [done|]. apply elem_of_seq. lia.
Qed.

(** C22: From the initialised driver, with a ring of at least 64 entries and
    any network stack that leaves the driver's receive side alone, whatever the
    driver's polls and a device that follows the protocol do: what the stack
    has been called with is, in order, what the device has completed first; one
    more read and poll hand over all the rest, each packet once; every packet
    is in exactly one of the free list, the list of received ones and the
    queue; [in_rx] counts those of the queue and never exceeds 32; and no call
    of the driver fails. *)
Theorem virtio_net_delivers s q :
  fresh (client s) -> has_receiver (client s) = true ->
  the_queue RX_Q s = Some (init_phys_queue q) -> (exists k, q_num q = 2 ^ k /\ 6 <= k <= 15) ->
  0 < num_queues s -> threads s <= 1 ->
  exists s0, on_net virtio_net_init_queues s = Done (tt, s0) /\ forall c, net_run (Conf s0 0 [] []) c ->
    let frames := map (frame_of (client s0)) (completed c) in
    (exists m, calls (client (drv c)) = take m frames) /\
    (exists s1 s2, rx_poll_callback (drv c) = Done (0, s1) /\ poll_callback s1 = Done (0, s2) /\ calls (client s2) = frames) /\
    (exists free recv inq, is_q (tq (client (drv c))) FREE free /\ is_q (tq (client (drv c))) RECV recv /\
      free ++ recv ++ inq ≡ₚ seq 0 BUF_PACKETS /\ in_rx (client (drv c)) = Z.of_nat (length inq) /\ in_rx (client (drv c)) <= 32) /\
    exists s3, fill_recv_callback (drv c) = Done (0, s3).
Proof.
  intros Hfresh Hrec Hq (k & Hk & Hkr) Hnq Hth. pose proof (init_queues_ok _ Hfresh) as (? & n1 & Hn1 & Hok & Hsame & Hin)%wp_run.
  exists (set_client n1 s). split; [unfold on_net, on_client, zoom; by rewrite Hn1; destruct x|]. intros c Hrun frames.
  assert (exists t free given hist, running n1 c t free given hist) as (t & free & given & hist & [R1 R2 R3 R4 R5 R6 R7]).
  { eapply running_run; [exact Hrun|]. exists [], (rev (seq 0 BUF_PACKETS)), [], [].
    destruct (init_ring_ok q) as [Hring Hcomm]; [exists k; split; [done|lia]|].
    split; cbn; try done.
    - exists (init_phys_queue q), (seq 0 (Z.to_nat (q_num q))), [], [], [], [], [], [].
      split; [by split|]. split; [cbn; rewrite Hk; change 64 with (2 ^ 6); apply Z.pow_le_mono_r; lia|].
      do 3 (split; [constructor|]). split; [done|]. split; [|done]. cbn [client set_client]. destruct Hsame as [_ _ _ [-> ->]]. apply Hfresh.
    - by destruct Hsame as [_ [_ ->] _ _].
    - rewrite Hin. lia.
    - by rewrite app_nil_r. }
  assert (frames = map (frame n1) (given ++ hist)) as Hframes.
  { unfold frames. rewrite R7, map_map. apply map_ext. apply frame_tag. }
  assert (calls n1 = []) as Hc1 by (rewrite (sn_calls _ _ Hsame); apply Hfresh). rewrite Hc1 in R6. cbn [app] in R6.
  split; [|split; [|split]].
  - exists (length given). rewrite R6, Hframes, map_app, take_app_length'; [done|by rewrite length_map].
  - pose proof (rx_poll_ok _ _ _ _ _ R1) as (r1 & s1 & Hs1 & -> & (q1 & fl1 & w1 & wi1 & ti1 & Hinv1) & Hsame1 & _)%wp_run.
    assert (has_receiver (client s1) = true) as Hrec1.
    { destruct R3 as [_ [_ E1] _ _], Hsame1 as [_ [_ E2] _ _]. cbn in E1. congruence. }
    pose proof (poll_callback_ok _ _ _ _ _ _ _ _ _ _ _ _ _ Hinv1 Hrec1) as (r2 & s2 & Hs2 & -> & _ & Hcalls & _)%wp_run.
    exists s1, s2. split; [done|]. split; [done|]. rewrite Hcalls, (sn_calls _ _ Hsame1), R6, Hframes, map_app. f_equal. apply map_ext. intros y.
    destruct R3 as [(_ & E1 & _) [E2 _] _ _], Hsame1 as [(_ & E3 & _) [E4 _] _ _]. cbn in *. apply frame_areas; congruence.
  - destruct R1 as (q1 & fl & w & d & wi & ti & got & ans & _ & _ & _ & _ & _ & Hok1 & _ & _).
    exists free, (map fst got), (map fst ans ++ wi ++ ti). split; [apply Hok1|]. split; [apply Hok1|]. split; [|split; [|exact R5]].
    + rewrite <- (rk_split _ _ _ _ _ _ Hok1). by rewrite app_nil_r.
    + rewrite (rk_in _ _ _ _ _ _ Hok1), !length_app, length_map. lia.
  - pose proof (refill_ok _ _ _ _ _ R1 R5) as ([] & s3 & Hs3 & _)%wp_run. exists s3. unfold fill_recv_callback, bind. by rewrite Hs3.
Qed.

(** ** Sending *)

(** The addresses of a piece of memory, and of what the device reads. *)
Definition bytes_of (x : Z * Z) : list Z := map (fun k => x.1 + Z.of_nat k) (seq 0 (Z.to_nat x.2)).
Definition phys_of (b : addr_size) : list Z := bytes_of (vp_addr b, vp_size b).

(** A piece that lies in one page, or in two without ending at the end of the
    first. *)
Definition in_page (p l : Z) : Prop := p / 4096 = (p + l) / 4096.
Definition in_two (p l : Z) : Prop := (p + l) / 4096 = p / 4096 + 1 /\ (p + l) mod 4096 <> 0.
Definition piece_ok (x : Z * Z) : Prop := 0 <= x.1 /\ 0 < x.2 /\ x.1 + x.2 < 2 ^ 64 /\ (in_page x.1 x.2 \/ in_two x.1 x.2).
Definition vecs_of (x : Z * Z) : list iovec :=
  if x.1 / 4096 =? (x.1 + x.2) / 4096 then [IoVec x.1 x.2]
  else let e := 4096 * ((x.1 + x.2) / 4096) in [IoVec x.1 (e - x.1); IoVec e (x.1 + x.2 - e)].
Definition read_buf (v : iovec) : addr_size := AddrSize (v2p (iov_base v)) (iov_len v) VRING_DESC_F_READ.
(** Memory is physically contiguous within a page. *)
Context (Hv2p : forall p k, 0 <= k -> p / 4096 = (p + k) / 4096 -> v2p (p + k) = v2p p + k).

Lemma bytes_cut p k l : 0 <= k -> 0 <= l -> bytes_of (p, k + l) = bytes_of (p, k) ++ bytes_of (p + k, l).
Proof.
  intros Hk Hl. unfold bytes_of. cbn [fst snd]. rewrite Z2Nat.inj_add, seq_app, map_app by done. f_equal. cbn [Nat.add].
  rewrite <- (Nat.add_0_r (Z.to_nat k)) at 1. rewrite <- fmap_add_seq. change (Nat.add (Z.to_nat k) <$> seq 0 (Z.to_nat l)) with (map (Nat.add (Z.to_nat k)) (seq 0 (Z.to_nat l))). rewrite map_map. apply map_ext. intros j. lia.
Qed.

Lemma phys_in_page p l : 0 <= l -> (forall k, 0 <= k < l -> p / 4096 = (p + k) / 4096) ->
  bytes_of (v2p p, l) = map v2p (bytes_of (p, l)).
Proof.
  intros Hl Hp. unfold bytes_of. cbn [fst snd]. rewrite map_map. apply map_ext_in. intros k [_ Hk]%in_seq. rewrite Hv2p; [done|lia|apply Hp; lia].
Qed.

Lemma vecs_of_phys x : piece_ok x -> concat (map phys_of (map read_buf (vecs_of x))) = map v2p (bytes_of x) /\
  Forall (fun v => 0 < iov_len v) (vecs_of x).
Proof.
  destruct x as [p l]. intros (Hp & Hl & Hb & Hpage). cbn [fst snd] in *. unfold vecs_of. cbn [fst snd].
  pose proof (Z.div_mod p 4096 ltac:(lia)) as Dp. pose proof (Z.mod_pos_bound p 4096 ltac:(lia)) as Mp.
  pose proof (Z.div_mod (p + l) 4096 ltac:(lia)) as De. pose proof (Z.mod_pos_bound (p + l) 4096 ltac:(lia)) as Me.
  destruct (Z.eqb_spec (p / 4096) ((p + l) / 4096)) as [Heq|Hne].
  - cbn [map concat]. rewrite app_nil_r. split; [|repeat constructor; cbn; lia]. apply phys_in_page; [lia|].
    intros k Hk. apply Z.div_unique with (p mod 4096 + k); lia.
  - destruct Hpage as [Hpage|[Hpage Hend]]; [done|]. set (e := 4096 * ((p + l) / 4096)) in *. cbn [map concat]. rewrite app_nil_r.
    split; [|repeat constructor; cbn; lia]. unfold phys_of, read_buf. cbn [vp_addr vp_size iov_base iov_len].
    rewrite (phys_in_page p), (phys_in_page e), <- map_app; [|lia| |lia|].
    + f_equal. replace l with ((e - p) + (p + l - e)) at 2 by lia. rewrite bytes_cut by lia. by replace (p + (e - p)) with e by lia.
    + intros k Hk. assert (e / 4096 = (p + l) / 4096) as -> by (unfold e; by rewrite Z.mul_comm, Z.div_mul). apply Z.div_unique with k; lia.
    + intros k Hk. apply Z.div_unique with (p mod 4096 + k); lia.
Qed.

Lemma tx_vecs_ok chain : forall vecs (s : dev), Forall piece_ok chain ->
  (length vecs + length (concat (map vecs_of chain)) < MAX_VECS)%nat ->
  tx_vecs chain vecs s = Done (vecs ++ concat (map vecs_of chain), s).
Proof.
  induction chain as [|[p l] chain IH]; intros vecs s Hok Hlen; cbn [tx_vecs map concat].
  { by rewrite app_nil_r. }
  apply list.Forall_cons in Hok as [(Hp & Hl & Hb & Hpage) Hok]. cbn [fst snd] in *. cbn [map concat] in Hlen. rewrite length_app in Hlen.
  pose proof (Z.div_mod p 4096 ltac:(lia)) as Dp. pose proof (Z.mod_pos_bound p 4096 ltac:(lia)) as Mp.
  pose proof (Z.div_mod (p + l) 4096 ltac:(lia)) as De. pose proof (Z.mod_pos_bound (p + l) 4096 ltac:(lia)) as Me.
  rewrite (wrap64_small (p + l)) by lia. change 0xfff with (2 ^ 12 - 1). rewrite !land_high, land_low_mod by lia. change (2 ^ 12) with 4096.
  replace (p - p mod 4096) with (4096 * (p / 4096)) by lia. replace (p + l - (p + l) mod 4096) with (4096 * ((p + l) / 4096)) by lia.
  unfold vecs_of in *. cbn [fst snd] in *. unfold push, kassert, bind, ret.
  destruct (Z.eqb_spec (p / 4096) ((p + l) / 4096)) as [Heq|Hne].
  - rewrite Heq, Z.eqb_refl. cbn [length] in Hlen. rewrite (proj2 (Nat.ltb_lt _ _)) by lia. rewrite length_app. cbn [length].
    rewrite (proj2 (Nat.ltb_lt _ _)) by lia. rewrite IH; [by rewrite <- app_assoc|done|rewrite length_app; cbn [length]; lia].
  - rewrite (proj2 (Z.eqb_neq _ _)) by lia. cbn [length] in Hlen. rewrite (proj2 (Nat.ltb_lt _ _)) by lia. rewrite length_app. cbn [length].
    rewrite (proj2 (Nat.ltb_lt _ _)) by lia. rewrite IH; [|done|rewrite !length_app; cbn [length]; lia].
    rewrite wrap64_small by (destruct Hpage as [?|[? ?]]; [done|lia]). replace (p + l - 4096 * ((p + l) / 4096)) with ((p + l) mod 4096) by lia.
    by rewrite <- !app_assoc.
Qed.

Lemma chain_phys chain : Forall piece_ok chain ->
  concat (map phys_of (map read_buf (concat (map vecs_of chain)))) = map v2p (concat (map bytes_of chain)) /\
  Forall (fun v => 0 < iov_len v) (concat (map vecs_of chain)).
Proof.
  induction 1 as [|x chain Hx _ [IH1 IH2]]; [by split|]. cbn [map concat]. destruct (vecs_of_phys x Hx) as [P1 P2].
  rewrite !map_app, concat_app, P1, IH1. split; [done|]. by apply list.Forall_app.
Qed.

(** A queue is not affected by what happens to another. *)
Lemma sim_other (s : dev) q0 q1 a q fl w t d : the_queue RX_Q s = Some q0 -> sim_with TX_Q s a q fl w t d ->
  sim_with TX_Q (VirtQueue.set_indirect (indirect s) (num_indirect s) (with_queue RX_Q q1 s)) a q fl w t d.
Proof.
  intros Hq0 [S1 S2 S3 S4 S5]. split; try done. revert S1. unfold the_queue, with_queue. cbn. destruct (queues s) as [l|]; [|done]. cbn.
  by rewrite list_lookup_insert_ne.
Qed.
Context (Hbuf : forall p k, exists k', pbuf_ref p k = Done (tt, k')) (Hdone : forall p k, exists k', tx_done p k = Done (tt, k')).

(** C23: [lwip_tx_func] on a chain of buffers whose pieces are cut at page
    ends, with fewer than ten pieces and descriptors for them: it returns 0,
    and the send queue holds one more request, with the chain's address, whose
    buffers are the virtio header and then, piece by piece and none empty,
    exactly the physical addresses of the chain's bytes in their order. *)
Theorem lwip_tx_func_correct mhdr p chain (s : dev) q0 a q fl w t d :
  the_queue RX_Q s = Some q0 -> sim_with TX_Q s a q fl w t d ->
  Forall piece_ok chain -> chain <> [] -> p <> 0 ->
  let pieces := length (concat (map vecs_of chain)) in
  (pieces < MAX_VECS)%nat -> Z.of_nat (S pieces) < free_num q ->
  wp (lwip_tx_func mhdr p chain) s (fun r s' => r = 0 /\ exists q' fl' d' req bufs,
    sim_with TX_Q s' a q' fl' (w ++ [req]) t d' /\ (d' = d \/ d' = []) /\
    r_data req = p /\ r_bufs req = AddrSize (v2p mhdr) (hdr_size (client s)) VRING_DESC_F_READ :: bufs /\
    concat (map phys_of bufs) = map v2p (concat (map bytes_of chain)) /\
    Forall (fun b => vp_flags b = VRING_DESC_F_READ /\ 0 < vp_size b) bufs).
Proof.
  intros Hq0 Hsim Hchain Hne Hp pieces Hfew Hroom. unfold lwip_tx_func, on_net, on_client, on_kern. wp_steps.
  destruct (Hbuf p (kern (client s))) as (k & Hk). unfold wp at 1. rewrite Hk. wp_steps. set (s1 := set_client _ s).
  unfold wp at 1. rewrite tx_vecs_ok by done. cbn [app]. assert (pieces <> 0)%nat as Hpieces.
  { destruct chain as [|x chain]; [done|]. unfold pieces. cbn [map concat]. rewrite length_app. unfold vecs_of. destruct (_ =? _); cbn; lia. }
  rewrite (proj2 (Nat.eqb_neq _ _)) by done. unfold virtio_net_send_packets, send_vecs, on_net, on_client. wp_steps.
  eapply wp_on_queue; [exact Hq0|]. unfold virtio_queue_enable_intr, on_vring. wp_steps. cbn [vq ind].
  set (q0' := set_vring _ q0). set (s2 := VirtQueue.set_indirect _ _ _). rewrite set_client_id.
  assert (sim_with TX_Q s2 a q fl w t d) as Hsim2.
  { apply (sim_other s1 q0 q0'); [done|]. destruct Hsim. by split. }
  destruct (chain_phys chain Hchain) as [Hphys Hlens]. set (bufs := map read_buf (concat (map vecs_of chain))) in *.
  change (map (fun v => AddrSize (v2p (iov_base v)) (iov_len v) VRING_DESC_F_READ) (concat (map vecs_of chain))) with bufs.
  change (hdr_size (client s2)) with (hdr_size (client s)).
  eapply wp_mono.
  { apply (to_queue_gen net_callback conf_write Hwrite TX_Q (fun _ _ => True)) with (s := s2) (a := a) (q := q) (fl := fl) (w := w) (t := t) (d := d); try done.
    intros data l0 l c _. unfold net_callback. cbn [Nat.eqb TX_Q RX_Q]. unfold tx_queue_callback, on_kern. wp_steps.
    destruct (Hdone data (kern c)) as (k' & Hk'). unfold wp at 1. rewrite Hk'. by wp_steps. }
  cbn beta. intros r s' (q1 & fl1 & Hring & Hn & Hs'). set (d' := if _ <? _ then [] else d) in *.
  assert (held_descs (w ++ t ++ map fst d') <= held_descs (w ++ t ++ map fst d))%nat as Hle.
  { subst d'. destruct (_ <? _); [|done]. unfold held_descs. rewrite !sum_list_with_app. cbn. lia. }
  pose proof (free_count _ _ _ Hring) as Hf1. pose proof (free_count _ _ _ (sw_ring _ _ _ _ _ _ _ _ Hsim)) as Hf.
  cbn [length] in Hs'. assert (length bufs = pieces) as Hlb by (unfold bufs; by rewrite length_map).
  rewrite (proj2 (Z.leb_gt _ _)) in Hs' by lia. destruct Hs' as (-> & q' & fl' & r0 & Hsim' & Hview & _ & _). wp_steps. split; [done|].
  unfold view in Hview. injection Hview as Hb Hd. exists q', fl', d', r0, bufs. split; [done|]. split; [subst d'; destruct (_ <? _); auto|].
  split; [done|]. split; [done|]. split; [done|]. unfold bufs. apply list.Forall_fmap. eapply list.Forall_impl; [exact Hlens|]. done.
Qed.
End driver.

(** ** Concrete drivers *)

(** The polls posted and the buffers freed. *)
Definition log : Type := list Z.
Definition log_poll (p : poll_cb) (lvl : nat) : M log unit := modify (cons (Z.of_nat lvl)).
Definition log_buf (p : Z) : M log unit := modify (cons p).
Definition no_write (r v : Z) : M unit unit := ret tt.
Local Abbreviation ldev := (@virtio_device (net log) unit unit).
Definition idle_receiver (b l : Z) : M ldev unit := ret tt.
#[export] Instance idle_keeps : NetReceiver idle_receiver.
Proof. intros b l s. apply wp_ret. split; [by split|done|]. intros a q fl w t d Hsim. by exists q. Qed.

Definition empty_tqs : tqs :=
  Tqs (list_to_map (map (fun h => (h, TqHead None (FirstOf h))) (seq 0 3))) (list_to_map (map (fun i => (i, None)) (seq 0 BUF_PACKETS))).
Definition boot_net : net log :=
  Net log 0x1000 (repeat (Packet 0 0 0 0 0) BUF_PACKETS) 0x100000 0x300000 0x2000 0x302000 empty_tqs 0 false false 0 0 0 12 true [] [].
Definition ring (num : Z) : virtio_queue := VQueue 4096 4096 1 num 0 0 0 0 0 0 0 (Vring [] 0 0 [] 0 0 []) [].
Definition boot_dev (num : Z) : ldev :=
  VDev (Some [init_phys_queue (ring num); init_phys_queue (ring num)]) 2 1 [] 0 0 0 false false false boot_net tt tt.
Definition state_of {A St} (o : outcome (A * St)) (s : St) : St := match o with Done (_, s') => s' | _ => s end.
Definition ready (num : Z) : ldev := state_of (on_net virtio_net_init_queues (boot_dev num)) (boot_dev num).
Definition filled (num : Z) : ldev :=
  state_of (fill_recv_callback log_poll no_write log_buf (ready num)) (ready num).

Lemma boot_fresh : fresh boot_net.
Proof.
  split; try done.
  - intros h Hh. destruct h as [|[|[|h]]]; [by eexists..|lia].
  - intros i Hi. exists None. apply elem_of_list_to_map_1.
    + rewrite map_map, (map_ext _ (fun i => i)), map_id by done. apply NoDup_seq.
    + apply list_elem_of_fmap. exists i. split; [done|]. apply elem_of_seq. lia.
Qed.

(** The device takes the first request and answers it with 112 bytes. *)
Lemma first_frame :
  exists q, net_run log_poll no_write idle_receiver log_buf (Conf (ready 64) 0 [] [])
    (Conf (with_queue RX_Q (answered q 0 112) (filled 64)) 1 [] [(0x1000 + 48 * 63, 112)]).
Proof.
  set (q := match the_queue RX_Q (filled 64) with Some q => q | None => ring 64 end). exists q.
  assert (the_queue RX_Q (filled 64) = Some q) as Hq by (vm_compute; reflexivity).
  eapply net_run_step; [eapply net_run_step; [eapply net_run_step; [apply net_run_nil|]|]|].
  - eapply net_fill with (s' := filled 64) (r := 0). vm_compute. reflexivity.
  - apply (net_take _ _ _ _ _ q 0 [] [] 0 [(0x300000 + 63 * 1514, 1514, true)] Hq); [vm_compute; discriminate|vm_compute; reflexivity|].
    apply (reads_last _ _ (Desc (0x300000 + 63 * 1514) 1514 2 1)); [vm_compute; reflexivity|reflexivity].
  - apply (net_answer _ _ _ _ _ q 1 [0%nat] [] 0 0 112 (0x1000 + 48 * 63) Hq); vm_compute; reflexivity.
Qed.
Lemma virtio_net_delivers_witness : exists c s1 s2,
  net_run log_poll no_write idle_receiver log_buf (Conf (ready 64) 0 [] []) c /\
  rx_poll_callback log_poll log_buf (drv c) = Done (0, s1) /\ poll_callback idle_receiver s1 = Done (0, s2) /\
  calls (client s2) = [(0x100000 + 63 * 1514 + 12, 100)].
Proof.
  destruct (virtio_net_delivers log_poll no_write idle_receiver log_buf (fun p l k => ex_intro _ (Z.of_nat l :: k) eq_refl)
    (fun r v d => ex_intro _ d eq_refl) (boot_dev 64) (ring 64) boot_fresh) as (s0 & Hs0 & Hrun).
  - reflexivity.
  - reflexivity.
  - exists 6. split; [reflexivity|lia].
  - done.
  - done.
  - assert (s0 = ready 64) as -> by (unfold ready; rewrite Hs0; reflexivity).
    destruct first_frame as (q & Hc). destruct (Hrun _ Hc) as (_ & (s1 & s2 & H1 & H2 & H3) & _).
    eexists _, s1, s2. split; [exact Hc|]. split; [exact H1|]. split; [exact H2|]. rewrite H3. vm_compute. reflexivity.
Defined.

(** With a ring of 32 entries the last of the 32 requests is refused, which the
    refill does not notice: the packet is on no list any more, and [in_rx] counts
    it for ever. *)
Example refill_small_ring :
  in_rx (client (filled 32)) = 32 /\
  option_map (fun q => avail_idx (q_vring q)) (the_queue RX_Q (filled 32)) = Some 31.
Proof. vm_compute. done. Qed.

(** Pages in reverse order in memory. *)
Definition page_map (p : Z) : Z := 4096 * (1000000 - p / 4096) + p mod 4096.
Lemma page_map_ok p k : 0 <= k -> p / 4096 = (p + k) / 4096 -> page_map (p + k) = page_map p + k.
Proof.
  intros Hk Hp. unfold page_map. rewrite <- Hp. pose proof (Z.div_mod p 4096 ltac:(lia)). pose proof (Z.div_mod (p + k) 4096 ltac:(lia)). lia.
Qed.
Lemma boot_tx num k : num = 2 ^ k -> 0 <= k <= 15 ->
  sim_with TX_Q (boot_dev num) 0 (init_phys_queue (ring num)) (seq 0 (Z.to_nat num)) [] [] [].
Proof. intros Hk Hkr. destruct (init_ring_ok (ring num)) as [Hring Hcomm]; [by exists k|]. by split. Qed.

(** A buffer across a page end and one within a page. *)
Lemma lwip_tx_func_correct_witness :
  wp (lwip_tx_func log_poll log_buf no_write page_map log_buf 0x9000 0x7000 [(0x5ff0, 0x20); (0x6100, 4)]) (boot_dev 64)
    (fun r s' => r = 0 /\ exists a q fl w t d, sim_with TX_Q s' a q fl w t d /\ map r_data w = [0x7000]).
Proof.
  eapply wp_mono; [apply (lwip_tx_func_correct log_poll log_buf no_write page_map log_buf (fun r v d => ex_intro _ d eq_refl) page_map_ok
    (fun p k => ex_intro _ (p :: k) eq_refl) (fun p k => ex_intro _ (p :: k) eq_refl)
    0x9000 0x7000 [(0x5ff0, 0x20); (0x6100, 4)] (boot_dev 64) (init_phys_queue (ring 64)) 0 (init_phys_queue (ring 64)) (seq 0 64) [] [] [])|].
  - reflexivity.
  - apply (boot_tx 64 6); [reflexivity|lia].
  - apply list.Forall_cons. split; [|apply list.Forall_cons; split; [|constructor]]; (split; [done|split; [done|split; [done|]]]); [right; split; done|left; done].
  - done.
  - done.
  - apply Nat.ltb_lt. reflexivity.
  - reflexivity.
  - intros r s' (-> & q' & fl' & d' & req & bufs & Hsim & _ & Hd & _). split; [done|].
    exists 0, q', fl', ([] ++ [req]), [], d'. split; [exact Hsim|]. cbn. by rewrite Hd.
Defined.

(** A buffer that ends at the end of a page is followed by one of length 0. *)
Example tx_page_end : tx_vecs [(0x5ff0, 0x10)] [] (boot_dev 64) = Done ([IoVec 0x5ff0 0x10; IoVec 0x6000 0], boot_dev 64).
Proof. reflexivity. Qed.
(** Ten pieces are too many for the assertion, and a tenth and eleventh piece
    that come together are written behind the array without it. *)
Example tx_ten_pieces : tx_vecs (repeat (0x5000, 4) 10) [] (boot_dev 64) = Panic.
Proof. reflexivity. Qed.
Example tx_eleven_pieces : tx_vecs (repeat (0x5000, 4) 9 ++ [(0x5ff0, 0x20)]) [] (boot_dev 64) = Fault.
Proof. reflexivity. Qed.
