(* ===== verification/Printk.v ===== *)
(** * Printk: formatted output (kernel/printk.c)

    Characters are their codes; a C string is the list of its characters
    before the NUL.  [vsprintf] appends to a buffer whose size it does not
    know; [printk] gives it one of 1024 bytes. *)
From Stdlib Require Import ZArith Lia Ascii String.
From stdpp Require Import base tactics list option.
From S2P Require Import Prelude Bytes.

(** The characters of a literal. *)
Definition chars (s : string) : list Z := map (fun a => Z.of_N (N_of_ascii a)) (list_ascii_of_string s).

Definition ZEROPAD : Z := 1.
Definition SIGN : Z := 2.
Definition PLUS : Z := 4.
Definition SPACE : Z := 8.
Definition LEFT : Z := 16.
Definition SMALL : Z := 32.
Definition SPECIAL : Z := 64.
Definition PRINTF_BUF : Z := 1024.

Definition has (t f : Z) : bool := negb (Z.land t f =? 0).
Definition isdigit (c : Z) : bool := (48 <=? c) && (c <=? 57).

(** [skip_atoi]: the value (an [int]) and the rest of the format. *)
Fixpoint skip_atoi (i : Z) (s : list Z) : Z * list Z :=
  match s with
  | c :: s' => if isdigit c then skip_atoi (to_int (i * 10 + c - 48)) s' else (i, s)
  | [] => (i, [])
  end.

(** [strnlen]: a negative bound counts down from below zero, so it never ends
    the loop. *)
Fixpoint strnlen (s : list Z) (maxlen : Z) : Z :=
  match s with
  | [] => 0
  | _ :: s' => if maxlen =? 0 then 0 else 1 + strnlen s' (maxlen - 1)
  end.

(** [static const char digits[16]], a digit OR-ed with the case bit. *)
Definition digits : list Z := chars "0123456789ABCDEF".
Definition digit (d locase : Z) : Z := Z.lor (nth (Z.to_nat d) digits 0) locase.

(** [while (num != 0) tmp[i++] = digits[__do_div(num, base)] | locase;]: the
    digits, least significant first; [num] is divided as an unsigned long. *)
Fixpoint tmp_digits (fuel : nat) (num base locase : Z) : list Z :=
  match fuel with
  | O => []
  | S fuel' => if num =? 0 then [] else digit (num mod base) locase :: tmp_digits fuel' (num / base) base locase
  end.

(** [while (n-- > 0) *str++ = c;]: the characters written, and what the [int]
    [n] holds afterwards. *)
Definition pad (n c : Z) : list Z := replicate (Z.to_nat n) c.
Definition counted (n : Z) : Z := to_int (Z.min n 0 - 1).

(** [number]: [num] is a signed long, [size] and [precision] are [int]s and wrap
    around; [None] for a base it refuses. *)
Definition number (num base size0 precision0 type0 : Z) : option (list Z) :=
  let locase := Z.land type0 SMALL in
  let type := if has type0 LEFT then Z.land type0 (lnot64 ZEROPAD) else type0 in
  if (base <? 2) || (16 <? base) then None
  else
    let c := if has type ZEROPAD then 48 else 32 in
    let neg := has type SIGN && (num <? 0) in
    let sign := if has type SIGN then
                  if num <? 0 then chars "-"
                  else if has type PLUS then chars "+"
                  else if has type SPACE then chars " " else []
                else [] in
    let num1 := wrap64 (if neg then - num else num) in
    let size1 := to_int (size0 - Z.of_nat (length sign)) in
    let size2 := if has type SPECIAL then
                   if base =? 16 then to_int (size1 - 2) else if base =? 8 then to_int (size1 - 1) else size1
                 else size1 in
    let tmp := if num1 =? 0 then [48] else tmp_digits 64 num1 base locase in
    let i := Z.of_nat (length tmp) in
    let precision := if precision0 <? i then i else precision0 in
    let size := to_int (size2 - precision) in
    let prefix := if has type SPECIAL then
                    if base =? 8 then chars "0"
                    else if base =? 16 then chars "0" ++ [Z.lor 88 locase] else []
                  else [] in
    let lead := if has type (ZEROPAD + LEFT) then [] else pad size 32 in
    let size3 := if has type (ZEROPAD + LEFT) then size else counted size in
    let fill := if has type LEFT then [] else pad size3 c in
    let size4 := if has type LEFT then size3 else counted size3 in
    Some (lead ++ sign ++ prefix ++ fill ++ pad (precision - i) 48 ++ rev tmp ++ pad size4 32).

(** ** [vsprintf] *)

(** A variadic argument: an integer register or a string. *)
Inductive arg := AWord (w : Z) | AStr (s : list Z).

(** The characters written so far, the arguments left and the stores of [%n]. *)
Record vs := VS { out : list Z; args : list arg; stores : list (Z * Z) }.

Definition emit (l : list Z) : M vs unit := modify (fun s => VS (out s ++ l) (args s) (stores s)).
Definition va_word : M vs Z :=
  l <- gets args ;;
  match l with
  | AWord w :: l' => modify (fun s => VS (out s) l' (stores s)) ;;; ret w
  | _ => fault
  end.
Definition va_int : M vs Z := w <- va_word ;; ret (to_int w).
Definition va_str : M vs (list Z) :=
  l <- gets args ;;
  match l with
  | AStr t :: l' => modify (fun s => VS (out s) l' (stores s)) ;;; ret t
  | _ => fault
  end.

(** The flags after a per cent sign ([repeat:]). *)
Fixpoint parse_flags (fmt : list Z) (flags : Z) : Z * list Z :=
  match fmt with
  | c :: f' =>
      if c =? 45 then parse_flags f' (Z.lor flags LEFT)
      else if c =? 43 then parse_flags f' (Z.lor flags PLUS)
      else if c =? 32 then parse_flags f' (Z.lor flags SPACE)
      else if c =? 35 then parse_flags f' (Z.lor flags SPECIAL)
      else if c =? 48 then parse_flags f' (Z.lor flags ZEROPAD)
      else (flags, fmt)
  | [] => (flags, [])
  end.

Definition parse_width (fmt : list Z) (flags : Z) : M vs (Z * Z * list Z) :=
  match fmt with
  | c :: f' =>
      if isdigit c then ret (fst (skip_atoi 0 fmt), flags, snd (skip_atoi 0 fmt))
      else if c =? 42 then
        w <- va_int ;;
        if w <? 0 then ret (to_int (- w), Z.lor flags LEFT, f') else ret (w, flags, f')
      else ret (-1, flags, fmt)
  | [] => ret (-1, flags, [])
  end.

Definition parse_precision (fmt : list Z) : M vs (Z * list Z) :=
  match fmt with
  | 46 :: f' =>
      r <- match f' with
           | c :: f'' =>
               if isdigit c then ret (skip_atoi 0 f')
               else if c =? 42 then p <- va_int ;; ret (p, f'')
               else ret (-1, f')
           | [] => ret (-1, [])
           end ;;
      ret (Z.max 0 (fst r), snd r)
  | _ => ret (-1, fmt)
  end.

(** 104, 108 and 76 are [h], [l] and [L]; -1 for none. *)
Definition parse_qualifier (fmt : list Z) : Z * list Z :=
  match fmt with
  | c :: f' => if (c =? 104) || (c =? 108) || (c =? 76) then (c, f') else (-1, fmt)
  | [] => (-1, [])
  end.

(** The integer conversions: the argument as [number] gets it. *)
Definition int_arg (qualifier flags : Z) : M vs Z :=
  if qualifier =? 108 then w <- va_word ;; ret ((w + 2 ^ 63) mod 2 ^ 64 - 2 ^ 63)
  else if qualifier =? 104 then
    w <- va_int ;;
    let h := wrap16 w in
    ret (if has flags SIGN then (h + 2 ^ 15) mod 2 ^ 16 - 2 ^ 15 else h)
  else if has flags SIGN then va_int
  else w <- va_int ;; ret (wrap32 w).

Definition emit_number (num base width precision flags : Z) : M vs unit :=
  l <- deref_opt (number num base width precision flags) ;; emit l.

Definition conversion (c width precision qualifier flags : Z) : M vs unit :=
  if c =? 99 then (* c: the loops are [while (--field_width > 0)] *)
    let width1 := to_int (width - 1) in
    (if has flags LEFT then ret tt else emit (pad width1 32)) ;;;
    w <- va_int ;;
    emit [wrap8 w] ;;;
    let width2 := if has flags LEFT then width else Z.min width1 0 in
    emit (pad (to_int (width2 - 1)) 32)
  else if c =? 115 then (* s: the loops are [while (len < field_width--)] *)
    t <- va_str ;;
    let len := strnlen t precision in
    (if has flags LEFT then ret tt else emit (pad (width - len) 32)) ;;;
    emit (take (Z.to_nat len) t) ;;;
    let width2 := if has flags LEFT then width else to_int (Z.min width len - 1) in
    emit (pad (width2 - len) 32)
  else if c =? 112 then (* p *)
    w <- va_word ;;
    let num := (w + 2 ^ 63) mod 2 ^ 64 - 2 ^ 63 in
    if width =? -1 then emit_number num 16 16 precision (Z.lor flags ZEROPAD)
    else emit_number num 16 width precision flags
  else if c =? 110 then (* n *)
    p <- va_word ;;
    modify (fun s => VS (out s) (args s) (stores s ++ [(p, Z.of_nat (length (out s)))]))
  else if c =? 37 then emit [37]
  else if c =? 111 then (* o *)
    n <- int_arg qualifier flags ;; emit_number n 8 width precision flags
  else if c =? 120 then (* x *)
    n <- int_arg qualifier (Z.lor flags SMALL) ;; emit_number n 16 width precision (Z.lor flags SMALL)
  else if c =? 88 then (* X *)
    n <- int_arg qualifier flags ;; emit_number n 16 width precision flags
  else if (c =? 100) || (c =? 105) then (* d, i *)
    n <- int_arg qualifier (Z.lor flags SIGN) ;; emit_number n 10 width precision (Z.lor flags SIGN)
  else if c =? 117 then (* u *)
    n <- int_arg qualifier flags ;; emit_number n 10 width precision flags
  else emit [37; c].

(** One directive, after its per cent sign: the rest of the format. *)
Definition directive (fmt : list Z) : M vs (list Z) :=
  let '(flags, f1) := parse_flags fmt 0 in
  r <- parse_width f1 flags ;;
  let '(width, flags', f2) := r in
  r' <- parse_precision f2 ;;
  let '(precision, f3) := r' in
  let '(qualifier, f4) := parse_qualifier f3 in
  match f4 with
  | c :: f5 => conversion c width precision qualifier flags' ;;; ret f5
  | [] => emit [37] ;;; ret []
  end.

(** The loop over the format. *)
Fixpoint format_loop (fuel : nat) (fmt : list Z) : M vs unit :=
  match fmt with
  | [] => ret tt
  | c :: f' =>
      match fuel with
      | O => out_of_fuel
      | S fuel' =>
          if c =? 37 then f'' <- directive f' ;; format_loop fuel' f''
          else emit [c] ;;; format_loop fuel' f'
      end
  end.
Definition vsprintf (fmt : list Z) : M vs Z :=
  format_loop (length fmt) fmt ;;;
  gets (fun s => Z.of_nat (length (out s))).

(** [sprintf] into a large enough buffer: its characters and their number. *)
Definition sprintf (fmt : list Z) (l : list arg) : outcome (list Z * Z) :=
  match vsprintf fmt (VS [] l []) with
  | Done (n, s) => Done (out s, n)
  | Panic => Panic | Deadlock => Deadlock | Fault => Fault | OutOfFuel => OutOfFuel
  end.

(** The screen, and the stack: [printf_buf] holds 1024 bytes with the NUL, and
    writing past it destroys the frame. *)
Record console := Console { shown : list Z }.
Definition printk (fmt : list Z) (l : list arg) : M console Z := fun s =>
  match sprintf fmt l with
  | Done (t, n) => if n + 1 <=? PRINTF_BUF then Done (n, Console (shown s ++ t)) else Fault
  | Panic => Panic | Deadlock => Deadlock | Fault => Fault | OutOfFuel => OutOfFuel
  end.
(** [printf] is the same function; [printk_color] differs only in the colours
    of the characters it shows, which the screen of the model does not have. *)
Definition printf (fmt : list Z) (l : list arg) : M console Z := printk fmt l.
Definition printk_color (back fore : Z) (fmt : list Z) (l : list arg) : M console Z := printk fmt l.
(** [panic] prints and never returns. *)
Definition panic (fmt : list Z) (l : list arg) : M console unit := printk fmt l ;;; (fun _ => Panic).

(** ** Memory dumps *)

(** A character as [%c] shows it when printable, a dot otherwise. *)
Definition printable (c : Z) : Z := if (33 <? c) && (c <=? 126) then c else 46.

(** [sprintf(binstr, "%s<fmt>", binstr, ...)]: the buffer printed onto itself. *)
Definition append (fmt : list Z) (l : list arg) (b : list Z) : outcome (list Z) :=
  match sprintf (chars "%s" ++ fmt) (AStr b :: l) with
  | Done (t, _) => if Z.of_nat (length t) + 1 <=? 80 then Done t else Fault
  | Panic => Panic | Deadlock => Deadlock | Fault => Fault | OutOfFuel => OutOfFuel
  end.

Definition lift {A} (o : outcome A) : M console A := fun s =>
  match o with
  | Done a => Done (a, s)
  | Panic => Panic | Deadlock => Deadlock | Fault => Fault | OutOfFuel => OutOfFuel
  end.
Definition append_m (fmt : list Z) (l : list arg) (b : list Z) : M console (list Z) := lift (append fmt l b).

(** The characters of the last bytes of a line. *)
Fixpoint append_text (bytes : list Z) (b : list Z) : M console (list Z) :=
  match bytes with
  | [] => ret b
  | c :: bytes' => b' <- append_m (chars "%c") [AWord (printable c)] b ;; append_text bytes' b'
  end.
Fixpoint append_blanks (n : nat) (b : list Z) : M console (list Z) :=
  match n with
  | O => ret b
  | S n' => b' <- append_m (chars " ") [] b ;; append_blanks n' b'
  end.
Definition print_line (b : list Z) : M console unit := printk (chars "%s" ++ [10]) [AStr b] ;;; ret tt.

(** Byte [i] of the dump; [line] holds the bytes of its line up to it. *)
Definition dump_byte (addr i c : Z) (line b : list Z) : M console (list Z) :=
  if i mod 16 =? 0 then
    b1 <- lift (match sprintf (chars "~%08x -") [AWord (Z.land (i + addr) 0xffffffff)] with
                | Done (t, _) => if Z.of_nat (length t) + 1 <=? 80 then Done t else Fault
                | Panic => Panic | Deadlock => Deadlock | Fault => Fault | OutOfFuel => OutOfFuel
                end) ;;
    append_m (chars " %02x") [AWord c] b1
  else if i mod 16 =? 15 then
    b1 <- append_m (chars " %02x") [AWord c] b ;;
    b2 <- append_m (chars " ") [] b1 ;;
    b3 <- append_text line b2 ;;
    print_line b3 ;;;
    ret b3
  else append_m (chars " %02x") [AWord c] b.

Fixpoint dump_loop (bytes : list Z) (addr i : Z) (line b : list Z) : M console (Z * list Z * list Z) :=
  match bytes with
  | [] => ret (i, line, b)
  | c :: bytes' =>
      let line' := if i mod 16 =? 0 then [c] else line ++ [c] in
      b' <- dump_byte addr i c line' b ;;
      dump_loop bytes' addr (i + 1) line' b'
  end.
Definition dump_mem (addr : Z) (bytes : list Z) : M console unit :=
  (if 0xffffffff <? addr then printk (chars "addr:%016lx:" ++ [10]) [AWord addr] ;;; ret tt else ret tt) ;;;
  r <- dump_loop bytes addr 0 [] [] ;;
  let '(i, line, b) := r in
  if i mod 16 =? 0 then ret tt
  else
    b1 <- append_blanks (Z.to_nat (16 - i mod 16)) b ;;
    b2 <- append_m (chars " ") [] b1 ;;
    b3 <- append_text line b2 ;;
    print_line b3.

(** [buf[i]] of an [unsigned long *]: [bytes] is the memory that can be read. *)
Definition word_at (bytes : list Z) (o : nat) : M console Z :=
  let w := take 8 (drop o bytes) in
  if Nat.eqb (length w) 8 then ret (le_word w) else fault.
Definition byte_at (bytes : list Z) (o : nat) : M console Z := deref_opt (bytes !! o).

(** [temp]: for a printable [ptr[j]] the code takes [buf[j]], the [j]-th word. *)
Fixpoint text64 (bytes : list Z) (o : nat) (js : list nat) : M console (list Z) :=
  match js with
  | [] => ret []
  | j :: js' =>
      c <- byte_at bytes (o + j) ;;
      t <- (if (33 <? c) && (c <=? 126) then w <- word_at bytes (o + 8 * j) ;; ret (wrap8 w) else ret 46) ;;
      l <- text64 bytes o js' ;;
      ret (t :: l)
  end.
(** What [%s] shows of [temp]. *)
Fixpoint c_string (l : list Z) : list Z :=
  match l with [] => [] | c :: l' => if c =? 0 then [] else c :: c_string l' end.

(** [n] rounds from offset [o]. *)
Fixpoint dump64_loop (n : nat) (p : Z) (bytes : list Z) (o : nat) : M console unit :=
  match n with
  | O => ret tt
  | S n' =>
      temp <- text64 bytes o (seq 0 16) ;;
      w0 <- word_at bytes o ;;
      w1 <- word_at bytes (o + 8) ;;
      printf (chars "%016lx - %016lx %016lx %s" ++ [10])
        [AWord (wrap64 (p + Z.of_nat o)); AWord w0; AWord w1; AStr (c_string temp)] ;;;
      dump64_loop n' p bytes (o + 16)
  end.
(** [for (i = 0; i < len / 8; i += 2)] *)
Definition dump_mem64 (p : Z) (bytes : list Z) (len : nat) : M console unit :=
  dump64_loop ((len / 8 + 1) / 2) p bytes 0.

(** ** Numbers *)

(** The value of a digit character and of a string of them. *)
Definition digit_value (c : Z) : Z := if c <=? 57 then c - 48 else Z.lor c 32 - 87.
Definition value (base : Z) (l : list Z) : Z := fold_left (fun a c => a * base + digit_value c) l 0.

Lemma value_snoc base l c : value base (l ++ [c]) = value base l * base + digit_value c.
Proof. unfold value. by rewrite fold_left_app. Qed.

Definition locases : list Z := [0; 32].
Lemma digit_value_all :
  forallb (fun d => forallb (fun k => (digit_value (digit d k) =? d) && negb (digit d k =? 32)
    && (negb (d <? 10) || isdigit (digit d k))) locases) (seqZ 0 16) = true.
Proof. vm_compute. reflexivity. Qed.

Lemma digit_ok d k :
  0 <= d < 16 -> k = 0 \/ k = 32 ->
  digit_value (digit d k) = d /\ digit d k <> 32 /\ (d < 10 -> isdigit (digit d k) = true).
Proof.
  intros Hd Hk. pose proof digit_value_all as Hall. rewrite forallb_forall in Hall.
  specialize (Hall d ltac:(by apply list_elem_of_In, elem_of_seqZ)). rewrite forallb_forall in Hall.
  specialize (Hall k ltac:(destruct Hk as [-> | ->]; cbn; tauto)).
  apply andb_prop in Hall as [[H1%Z.eqb_eq H2%negb_true_iff%Z.eqb_neq]%andb_prop H3].
  split; [done|]. split; [done|]. intros Hlt. apply orb_prop in H3 as [H3|H3]; [|done].
  rewrite (proj2 (Z.ltb_lt d 10) Hlt) in H3. done.
Qed.

Lemma tmp_digits_ok fuel n base k :
  2 <= base <= 16 -> k = 0 \/ k = 32 -> 0 <= n < base ^ Z.of_nat fuel ->
  value base (rev (tmp_digits fuel n base k)) = n /\ (length (tmp_digits fuel n base k) <= fuel)%nat /\
  Forall (fun c => c <> 32 /\ (base <= 10 -> isdigit c = true)) (tmp_digits fuel n base k).
Proof.
  intros Hb Hk. revert n. induction fuel as [|fuel IH]; intros n Hn.
  - cbn in *. split; [lia|]. split; [lia|constructor].
  - cbn [tmp_digits]. destruct (Z.eqb_spec n 0) as [->|Hnz]; [split; [done|split; [cbn; lia|constructor]]|].
    rewrite Nat2Z.inj_succ, Z.pow_succ_r in Hn by lia.
    destruct (IH (n / base)) as (Hv & Hl & Hf).
    { split; [apply Z.div_pos; lia|]. apply Z.div_lt_upper_bound; lia. }
    pose proof (Z.mod_pos_bound n base). destruct (digit_ok (n mod base) k) as (D1 & D2 & D3); [lia|done|].
    split; [|split; [cbn; lia|]].
    + cbn [rev]. rewrite value_snoc, Hv, D1. pose proof (Z.div_mod n base). lia.
    + constructor; [|done]. split; [done|]. intros Hb10. apply D3. lia.
Qed.

(** The parts of what [number] prints. *)
Definition sign_of (num type : Z) : list Z :=
  if has type SIGN then
    if num <? 0 then chars "-" else if has type PLUS then chars "+" else if has type SPACE then chars " " else []
  else [].
Definition magnitude (num type : Z) : Z := if has type SIGN then Z.abs num else num mod 2 ^ 64.
Definition prefix_of (base type : Z) : list Z :=
  if has type SPECIAL then
    if base =? 8 then chars "0" else if base =? 16 then chars "0" ++ [Z.lor 88 (Z.land type SMALL)] else []
  else [].

Lemma length_pad n c : Z.of_nat (length (pad n c)) = Z.max 0 n.
Proof. unfold pad. rewrite length_replicate. lia. Qed.

Lemma small_bit type : Z.land type SMALL = 0 \/ Z.land type SMALL = 32.
Proof.
  unfold SMALL. change 32 with (2 ^ 5). destruct (Z.testbit type 5) eqn:Ht; [right|left].
  - apply Z.bits_inj'. intros i Hi. rewrite Z.land_spec, Z.pow2_bits_eqb by lia.
    destruct (Z.eqb_spec 5 i) as [<-|]; [by rewrite Ht|apply andb_false_r].
  - apply Z.bits_inj'. intros i Hi. rewrite Z.land_spec, Z.pow2_bits_eqb, Z.bits_0 by lia.
    destruct (Z.eqb_spec 5 i) as [<-|]; [by rewrite Ht|apply andb_false_r].
Qed.

(** Clearing the zero-padding flag leaves the others. *)
Lemma has_clear_zeropad type f :
  f = SIGN \/ f = PLUS \/ f = SPACE \/ f = SPECIAL \/ f = LEFT ->
  has (Z.land type (lnot64 ZEROPAD)) f = has type f.
Proof.
  intros Hf. unfold has. f_equal. f_equal. rewrite <- Z.land_assoc. f_equal.
  by destruct Hf as [->|[->|[->|[->| ->]]]].
Qed.

Definition eff_flags (type : Z) : Z := if has type LEFT then Z.land type (lnot64 ZEROPAD) else type.

Lemma eff_flags_has type f :
  f = SIGN \/ f = PLUS \/ f = SPACE \/ f = SPECIAL \/ f = LEFT -> has (eff_flags type) f = has type f.
Proof. intros Hf. unfold eff_flags. destruct (has type LEFT) eqn:E; [by apply has_clear_zeropad|done]. Qed.

(** The two flag tests that decide where the blanks and zeros go. *)
Lemma eff_pad type :
  has (eff_flags type) (ZEROPAD + LEFT) = has type LEFT || has type ZEROPAD /\
  (has type LEFT = false -> has (eff_flags type) ZEROPAD = has type ZEROPAD).
Proof.
  assert (Hlor : forall t, has t (ZEROPAD + LEFT) = has t LEFT || has t ZEROPAD).
  { intros t. unfold has, ZEROPAD, LEFT. change (1 + 16) with (Z.lor 16 1). rewrite Z.land_lor_distr_r.
    destruct (Z.eqb_spec (Z.land t 16) 0) as [->|H1]; [done|].
    destruct (Z.eqb_spec (Z.lor (Z.land t 16) (Z.land t 1)) 0) as [H0|]; [|done].
    apply Z.lor_eq_0_iff in H0 as [H0 _]. done. }
  split.
  - rewrite Hlor, eff_flags_has by tauto. unfold eff_flags. by destruct (has type LEFT).
  - intros HL. unfold eff_flags. by rewrite HL.
Qed.

(** The width left over once sign, prefix and digits are placed. *)
Definition gap (num base size precision type : Z) (ds : list Z) : Z :=
  size - Z.of_nat (length (sign_of num type) + length (prefix_of base type))
    - Z.max precision (Z.of_nat (length ds)).
(** Where it goes: blanks on the left, zeros before the digits (after those of
    the precision), or blanks on the right. *)
Definition lead_of (g type : Z) : Z := if has type LEFT || has type ZEROPAD then 0 else g.
Definition zeros_of (g precision type : Z) (ds : list Z) : Z :=
  (if has type ZEROPAD && negb (has type LEFT) then Z.max 0 g else 0)
    + Z.max 0 (precision - Z.of_nat (length ds)).
Definition trail_of (g type : Z) : Z := if has type LEFT then g else 0.

(** No [int] of [number] wraps around: sign and prefix take at most three
    characters, the digits at most 64, and the loops two more. *)
Definition width_ok (size precision : Z) : Prop :=
  size < 2 ^ 31 /\ precision < 2 ^ 31 /\ - 2 ^ 31 + 5 <= size - Z.max precision 64.

Lemma counted_small n : - 2 ^ 31 < n -> counted n = Z.min n 0 - 1.
Proof. intros Hn. apply to_int_small. lia. Qed.

Lemma sign_length num type : (length (sign_of num type) <= 1)%nat.
Proof. unfold sign_of. repeat case_match; cbn; lia. Qed.

(** The characters around the digits, by the flags. *)
Lemma number_layout num base size precision type tmp :
  base = 8 \/ base = 10 \/ base = 16 -> - 2 ^ 63 <= num < 2 ^ 63 -> width_ok size precision ->
  (length tmp <= 64)%nat ->
  tmp = (if magnitude num type =? 0 then [48] else tmp_digits 64 (magnitude num type) base (Z.land type SMALL)) ->
  let g := gap num base size precision type (rev tmp) in
  number num base size precision type =
    Some (pad (lead_of g type) 32 ++ sign_of num type ++ prefix_of base type ++
          pad (zeros_of g precision type (rev tmp)) 48 ++ rev tmp ++ pad (trail_of g type) 32).
Proof.
  intros Hbase Hnum (Hs31 & Hp31 & Hroom) Hlen Htmp.
  assert (2 <= base <= 16) as Hb by (destruct_or!; lia).
  unfold number. rewrite (proj2 (Z.ltb_ge base 2)), (proj2 (Z.ltb_ge 16 base)) by lia. cbn [orb].
  fold (eff_flags type). destruct (eff_pad type) as [-> Hzp].
  rewrite !(eff_flags_has type SIGN), !(eff_flags_has type PLUS), !(eff_flags_has type SPACE),
    !(eff_flags_has type SPECIAL), !(eff_flags_has type LEFT) by tauto.
  fold (sign_of num type).
  assert (wrap64 (if has type SIGN && (num <? 0) then - num else num) = magnitude num type) as ->.
  { unfold wrap64, magnitude. destruct (has type SIGN); cbn [andb]; [|done].
    destruct (Z.ltb_spec num 0); rewrite Z.mod_small by lia; lia. }
  rewrite <- Htmp. set (sg := sign_of num type).
  pose proof (sign_length num type) as Hsg. fold sg in Hsg.
  rewrite (to_int_small (size - Z.of_nat (length sg))) by lia.
  assert (Hsz : (if has type SPECIAL then if base =? 16 then to_int (size - Z.of_nat (length sg) - 2)
                  else if base =? 8 then to_int (size - Z.of_nat (length sg) - 1) else size - Z.of_nat (length sg)
                 else size - Z.of_nat (length sg)) = size - Z.of_nat (length sg + length (prefix_of base type)) /\
                (length (prefix_of base type) <= 2)%nat).
  { unfold prefix_of. destruct (has type SPECIAL); [|cbn; lia].
    destruct Hbase as [->|[->| ->]]; cbn; rewrite ?to_int_small by lia; lia. }
  destruct Hsz as [-> Hpf]. fold (prefix_of base type). set (pf := prefix_of base type) in *.
  unfold gap, lead_of, zeros_of, trail_of. rewrite !length_rev. fold sg pf.
  set (i := Z.of_nat (length tmp)). replace (if precision <? i then i else precision) with (Z.max precision i)
    by (destruct (Z.ltb_spec precision i); lia).
  assert (0 <= i <= 64) as Hi by lia.
  clearbody sg pf i. clear Htmp Hnum Hbase Hb num base.
  rewrite to_int_small by lia.
  set (sz := size - Z.of_nat (length sg + length pf) - Z.max precision i).
  rewrite (counted_small sz) by lia. rewrite !counted_small by (destruct (has _ LEFT || has _ ZEROPAD); lia). f_equal.
  assert (Hnil : forall n c, n <= 0 -> pad n c = []) by (intros n c Hn; unfold pad; by replace (Z.to_nat n) with 0%nat by lia).
  destruct (has type LEFT) eqn:HL; cbn [orb andb negb].
  - rewrite andb_false_r, Z.add_0_l, (Hnil 0) by lia. cbn [app]. do 3 f_equal. unfold pad. f_equal. lia.
  - destruct (has type ZEROPAD) eqn:HZ; rewrite Hzp by done; cbn [andb].
    + rewrite (Hnil 0 32), (Hnil (Z.min sz 0 - 1) 32) by lia.
      cbn [app]. do 2 f_equal. rewrite app_assoc. f_equal.
      unfold pad. rewrite <- replicate_add. f_equal. lia.
    + do 3 f_equal. rewrite (Hnil (Z.min sz 0 - 1)), (Hnil (Z.min (Z.min sz 0 - 1) 0 - 1)), (Hnil 0) by lia.
      cbn [app]. f_equal. unfold pad. f_equal. lia.
Qed.

(** The digits [number] computes, most significant first. *)
Lemma number_digits num base type :
  base = 8 \/ base = 10 \/ base = 16 -> - 2 ^ 63 <= num < 2 ^ 63 ->
  exists ds,
    rev ds = (if magnitude num type =? 0 then [48] else tmp_digits 64 (magnitude num type) base (Z.land type SMALL)) /\
    value base ds = magnitude num type /\ ds <> [] /\ (length ds <= 64)%nat /\
    Forall (fun c => c <> 32 /\ (base <= 10 -> isdigit c = true)) ds.
Proof.
  intros Hbase Hnum.
  assert (2 <= base <= 16) as Hb by (destruct_or!; lia).
  set (m := magnitude num type).
  assert (0 <= m < 2 ^ 64) as Hm.
  { unfold m, magnitude. destruct (has type SIGN); [lia|apply Z.mod_pos_bound; lia]. }
  set (tmp := if m =? 0 then [48] else tmp_digits 64 m base (Z.land type SMALL)).
  assert (value base (rev tmp) = m /\ tmp <> [] /\ (length tmp <= 64)%nat /\
    Forall (fun c => c <> 32 /\ (base <= 10 -> isdigit c = true)) tmp) as (Hv & Hne & Hlen & Hall).
  { unfold tmp. destruct (Z.eqb_spec m 0) as [->|Hnz].
    - split; [done|]. split; [done|]. split; [cbn; lia|]. by repeat constructor.
    - destruct (tmp_digits_ok 64 m base (Z.land type SMALL)) as (H1 & H2 & H3); [done|apply small_bit| |].
      { split; [lia|]. apply Z.lt_le_trans with (2 ^ 64); [lia|]. apply Z.pow_le_mono_l. lia. }
      split; [done|]. split; [|done]. change 64%nat with (S 63). cbn [tmp_digits].
      by rewrite (proj2 (Z.eqb_neq m 0)). }
  exists (rev tmp). split; [by rewrite rev_involutive|]. split; [done|].
  split; [|split; [by rewrite length_rev|by apply List.Forall_rev]].
  intros H0. apply Hne. by rewrite <- (rev_involutive tmp), H0.
Qed.

(** C32: [number] prints, for every flag word and every width and precision
    that [width_ok] admits (all [int]s but those within 69 of the smallest width,
    and such that the width less the precision stays that far above it: beyond
    them [size] wraps around, see [number_wraps]): the sign,
    the prefix, zeros and then digits whose value is the magnitude of the
    number (its unsigned reading without the sign flag), at most 64 of them, so
    that [tmp] is never overrun; the width left over
    goes to blanks on the left, to zeros, or to blanks on the right, as the
    flags say. *)
Theorem number_correct num base size precision type :
  base = 8 \/ base = 10 \/ base = 16 -> - 2 ^ 63 <= num < 2 ^ 63 -> width_ok size precision ->
  exists ds, let g := gap num base size precision type ds in
    number num base size precision type =
      Some (pad (lead_of g type) 32 ++ sign_of num type ++ prefix_of base type ++
            pad (zeros_of g precision type ds) 48 ++ ds ++ pad (trail_of g type) 32) /\
    value base ds = magnitude num type /\ ds <> [] /\ (length ds <= 64)%nat /\
    Forall (fun c => c <> 32 /\ (base <= 10 -> isdigit c = true)) ds.
Proof.
  intros Hbase Hnum Hsize. destruct (number_digits num base type Hbase Hnum) as (ds & Hds & Hv & Hne & Hlen & Hall).
  pose proof (number_layout num base size precision type (rev ds)) as Hlay.
  rewrite length_rev, rev_involutive in Hlay. exists ds. split; [by apply Hlay|done].
Qed.

Lemma number_correct_witness : exists ds, let g := gap (-42) 10 8 4 SIGN ds in
  number (-42) 10 8 4 SIGN =
    Some (pad (lead_of g SIGN) 32 ++ chars "-" ++ [] ++ pad (zeros_of g 4 SIGN ds) 48 ++ ds ++ []) /\
  value 10 ds = 42.
Proof.
  destruct (number_correct (-42) 10 8 4 SIGN) as (ds & Heq & Hv & _).
  - right. left. reflexivity.
  - lia.
  - unfold width_ok. lia.
  - exists ds. split; [exact Heq|exact Hv].
Defined.

(** Beyond [width_ok] the width wraps around: [%2147483648d], whose width is read
    as the smallest [int], prints two thousand million blanks. *)
Lemma number_wraps num :
  - 2 ^ 63 <= num < 2 ^ 63 ->
  skip_atoi 0 (chars "2147483648d") = (- 2 ^ 31, chars "d") /\
  exists l, number num 10 (- 2 ^ 31) (-1) SIGN = Some l /\ 2 ^ 31 - 65 <= Z.of_nat (length l).
Proof.
  intros Hnum. split; [reflexivity|].
  destruct (number_digits num 10 SIGN) as (ds & Hds & _ & Hne & Hlen & _); [tauto|done|].
  assert (1 <= length ds)%nat as Hd1 by (destruct ds; [done|cbn; lia]). rewrite <- length_rev in Hlen, Hd1.
  eexists. split; [reflexivity|].
  fold (eff_flags SIGN). change (eff_flags SIGN) with SIGN. fold (sign_of num SIGN).
  change (has SIGN SIGN) with true. change (has SIGN SPECIAL) with false. change (has SIGN (ZEROPAD + LEFT)) with false. cbn [andb].
  assert (wrap64 (if num <? 0 then - num else num) = magnitude num SIGN) as ->.
  { unfold wrap64, magnitude. change (has SIGN SIGN) with true. cbn iota.
    destruct (Z.ltb_spec num 0); rewrite Z.mod_small by lia; lia. }
  rewrite <- Hds. set (i := Z.of_nat (length (rev ds))).
  pose proof (sign_length num SIGN) as Hsg. set (sg := sign_of num SIGN) in *.
  rewrite (proj2 (Z.ltb_lt (-1) i)) by lia. rewrite length_app, Nat2Z.inj_add, length_pad.
  assert (to_int (to_int (- 2 ^ 31 - Z.of_nat (length sg)) - i) = 2 ^ 31 - Z.of_nat (length sg) - i) as ->; [|lia].
  unfold to_int. assert (length sg = 0 \/ length sg = 1)%nat as [-> | ->] by lia.
  - replace ((- 2 ^ 31 - Z.of_nat 0 + 2 ^ 31) mod 2 ^ 32) with 0 by reflexivity.
    rewrite <- (Z_mod_plus_full _ 1), Z.mod_small; lia.
  - replace ((- 2 ^ 31 - Z.of_nat 1 + 2 ^ 31) mod 2 ^ 32) with (2 ^ 32 - 1) by reflexivity.
    rewrite Z.mod_small; lia.
Qed.

(** ** Reading a number back *)

Lemma skip_atoi_digits (l rest : list Z) i :
  Forall (fun c => isdigit c = true) l -> 0 <= i ->
  fold_left (fun a c => a * 10 + digit_value c) l i < 2 ^ 31 ->
  (match rest with c :: _ => isdigit c = false | [] => True end) ->
  skip_atoi i (l ++ rest) = (fold_left (fun a c => a * 10 + digit_value c) l i, rest).
Proof.
  intros Hl. revert i. induction Hl as [|c l Hc Hl IH]; intros i Hi Hlt Hrest; cbn.
  - destruct rest as [|c rest]; [done|]. cbn. by rewrite Hrest.
  - rewrite Hc. cbn in Hlt. unfold isdigit in Hc. apply andb_prop in Hc as [H1%Z.leb_le H2%Z.leb_le].
    assert (digit_value c = c - 48) as Hd by (unfold digit_value; by rewrite (proj2 (Z.leb_le c 57))).
    assert (Hmono : forall l i, Forall (fun c => isdigit c = true) l -> 0 <= i ->
      i <= fold_left (fun a c => a * 10 + digit_value c) l i).
    { clear. intros l i Hl. revert i. induction Hl as [|c l Hc Hl IH]; intros i Hi; cbn; [lia|].
      unfold isdigit in Hc. apply andb_prop in Hc as [H1%Z.leb_le H2%Z.leb_le].
      assert (digit_value c = c - 48) as -> by (unfold digit_value; by rewrite (proj2 (Z.leb_le c 57))).
      etransitivity; [|apply IH; lia]. lia. }
    pose proof (Hmono l (i * 10 + digit_value c) Hl ltac:(lia)). rewrite to_int_small by lia.
    replace (i * 10 + c - 48) with (i * 10 + digit_value c) by lia. apply IH; [lia|done|done].
Qed.

(** A non-negative [int] printed in decimal is what the kernel's own
    [skip_atoi] reads back, up to the first character that is no digit. *)
Theorem number_skip_atoi n precision rest :
  0 <= n < 2 ^ 31 -> precision <= 2 ^ 31 - 6 -> (match rest with c :: _ => isdigit c = false | [] => True end) ->
  exists l, number n 10 (-1) precision SIGN = Some l /\ skip_atoi 0 (l ++ rest) = (n, rest).
Proof.
  intros Hn Hpr Hrest.
  assert (width_ok (-1) precision) as Hok by (unfold width_ok; lia).
  destruct (number_digits n 10 SIGN) as (ds & Hds & Hv & Hne & Hlen & Hall); [tauto|lia|].
  pose proof (number_layout n 10 (-1) precision SIGN (rev ds) ltac:(tauto) ltac:(lia) Hok) as Heq.
  rewrite length_rev, rev_involutive in Heq. specialize (Heq Hlen Hds). cbv zeta in Heq.
  assert (sign_of n SIGN = []) as Hs by (unfold sign_of; cbn; by rewrite (proj2 (Z.ltb_ge n 0)) by lia).
  assert (gap n 10 (-1) precision SIGN ds < 0) as Hg by (unfold gap; lia).
  set (g := gap n 10 (-1) precision SIGN ds) in *. set (zeros := zeros_of g precision SIGN ds) in *.
  assert (pad (lead_of g SIGN) 32 = []) as Hpl.
  { unfold pad, lead_of. change (has SIGN LEFT || has SIGN ZEROPAD) with false. cbn iota.
    by replace (Z.to_nat g) with 0%nat by lia. }
  rewrite Hpl, Hs in Heq.
  change (prefix_of 10 SIGN) with (@nil Z) in Heq. change (pad (trail_of g SIGN) 32) with (@nil Z) in Heq.
  cbn [app] in Heq. rewrite app_nil_r in Heq.
  exists (pad zeros 48 ++ ds). split; [done|].
  assert (Hval : fold_left (fun a c => a * 10 + digit_value c) (pad zeros 48 ++ ds) 0 = n).
  { assert (forall k, fold_left (fun a c => a * 10 + digit_value c) (replicate k 48) 0 = 0) as Hz
      by (induction k; done).
    rewrite fold_left_app. unfold pad. rewrite Hz. unfold value in Hv. rewrite Hv.
    unfold magnitude. change (has SIGN SIGN) with true. cbn iota. lia. }
  rewrite skip_atoi_digits; [by rewrite Hval| |lia|rewrite Hval; lia|done].
  apply list.Forall_app. split; [|eapply list.Forall_impl; [exact Hall|]; intros c [_ Hc]; apply Hc; lia].
  unfold pad. by apply list.Forall_replicate.
Qed.

Lemma number_skip_atoi_witness : exists l, number 2024 10 (-1) 6 SIGN = Some l /\ skip_atoi 0 (l ++ chars " x") = (2024, chars " x").
Proof. apply (number_skip_atoi 2024 6 (chars " x")); [lia|lia|reflexivity]. Defined.

(** ** The format loop *)

Lemma parse_flags_len f fl : (length (snd (parse_flags f fl)) <= length f)%nat.
Proof.
  revert fl. induction f as [|c f IH]; intros fl; cbn; [lia|].
  repeat (destruct (_ =? _); [etransitivity; [apply IH|lia]|]). done.
Qed.

Lemma skip_atoi_len i f : (length (snd (skip_atoi i f)) <= length f)%nat.
Proof. revert i. induction f as [|c f IH]; intros i; cbn; [lia|]. destruct (isdigit c); [etransitivity; [apply IH|lia]|done]. Qed.

(** Runs that do not end in the model's fuel: the result, when there is one,
    satisfies [Q]. *)
Definition returns {St A} (m : M St A) (s : St) (Q : A -> St -> Prop) : Prop :=
  match m s with Done (a, s') => Q a s' | OutOfFuel => False | _ => True end.

Lemma returns_bind {St A B} (m : M St A) (k : A -> M St B) s Q :
  returns m s (fun a s' => returns (k a) s' Q) -> returns (bind m k) s Q.
Proof. unfold returns, bind. destruct (m s) as [[a s']| | | |]; done. Qed.

Lemma returns_mono {St A} (m : M St A) s (Q Q' : A -> St -> Prop) :
  returns m s Q -> (forall a s', Q a s' -> Q' a s') -> returns m s Q'.
Proof. unfold returns. destruct (m s) as [[a s']| | | |]; naive_solver. Qed.

Lemma returns_ret {St A} (a : A) (s : St) (Q : A -> St -> Prop) : Q a s -> returns (ret a) s Q.
Proof. exact id. Qed.

Lemma returns_modify {St} (f : St -> St) s (Q : unit -> St -> Prop) : Q tt (f s) -> returns (modify f) s Q.
Proof. exact id. Qed.

Lemma va_word_returns s : returns va_word s (fun _ _ => True).
Proof. unfold returns, va_word, bind, gets. destruct (args s) as [|[w|t] l]; done. Qed.

Lemma va_str_returns s : returns va_str s (fun _ _ => True).
Proof. unfold returns, va_str, bind, gets. destruct (args s) as [|[w|t] l]; done. Qed.

Lemma number_returns num base w p f (s : vs) (Q : list Z -> vs -> Prop) : (forall l s', Q l s') -> returns (deref_opt (number num base w p f)) s Q.
Proof. intros HQ. unfold returns, deref_opt. destruct (number num base w p f); [apply HQ|done]. Qed.

(** Steps of the conversions: none of them loops. *)
Ltac returns_step :=
  lazymatch goal with
  | |- returns (bind _ _) _ _ => apply returns_bind
  | |- returns (if ?b then _ else _) _ _ => destruct b
  | |- returns va_word _ _ => eapply returns_mono; [apply va_word_returns|]; intros
  | |- returns va_str _ _ => eapply returns_mono; [apply va_str_returns|]; intros
  | |- returns (deref_opt (number _ _ _ _ _)) _ _ => apply number_returns; intros
  | |- returns (ret _) _ _ => apply returns_ret
  | |- returns (emit _) _ _ => apply returns_modify
  | |- returns (modify _) _ _ => apply returns_modify
  end; cbn beta iota zeta.

Lemma conversion_returns c w p q f s : returns (conversion c w p q f) s (fun _ _ => True).
Proof. unfold conversion, emit_number, int_arg, va_int. repeat returns_step; done. Qed.

(** A directive consumes at least its conversion character, if there is one. *)
Lemma directive_returns f s : returns (directive f) s (fun f' _ => (length f' <= length f)%nat).
Proof.
  unfold directive. destruct (parse_flags f 0) as [flags f1] eqn:Hfl.
  pose proof (parse_flags_len f 0) as H1. rewrite Hfl in H1. cbn in H1. apply returns_bind.
  assert (returns (parse_width f1 flags) s (fun r _ => (length (snd r) <= length f1)%nat)) as Hw.
  { unfold parse_width. destruct f1 as [|c f1']; [by repeat returns_step|].
    pose proof (skip_atoi_len 0 (c :: f1')) as Hs. unfold va_int. repeat returns_step; cbn in *; lia. }
  eapply returns_mono; [exact Hw|]. clear Hw. intros [[w fl'] f2] s2 H2. cbn in H2. apply returns_bind.
  assert (returns (parse_precision f2) s2 (fun r _ => (length (snd r) <= length f2)%nat)) as Hp.
  { unfold parse_precision. destruct f2 as [|c f2']; [by repeat returns_step|].
    destruct (decide (c = 46)) as [->|Hne].
    - apply returns_bind. eapply (returns_mono _ _ (fun r _ => (length (snd r) <= length f2')%nat)).
      + destruct f2' as [|c' f2'']; [by repeat returns_step|].
        pose proof (skip_atoi_len 0 (c' :: f2'')) as Hs. unfold va_int. repeat returns_step; cbn in *; lia.
      + intros [pr f3] s3 H3. unfold returns, ret. cbn in *. lia.
    - destruct c as [|c|c]; try (by repeat returns_step). do 6 (destruct c as [c|c|]; try (by repeat returns_step)). }
  eapply returns_mono; [exact Hp|]. clear Hp. intros [pr f3] s3 H3. cbn in H3.
  assert (length (snd (parse_qualifier f3)) <= length f3)%nat as H4.
  { unfold parse_qualifier. destruct f3 as [|c f3']; [cbn; lia|]. destruct (_ || _); cbn; lia. }
  destruct (parse_qualifier f3) as [q f4]. cbn in H4. destruct f4 as [|c f5].
  - repeat returns_step. cbn. lia.
  - apply returns_bind. eapply returns_mono; [apply conversion_returns|]. intros _ s4 _.
    unfold returns, ret. cbn in H4. lia.
Qed.

Lemma format_loop_returns fuel f s : (length f <= fuel)%nat -> returns (format_loop fuel f) s (fun _ _ => True).
Proof.
  revert f s. induction fuel as [|fuel IH]; intros [|c f] s Hl; cbn in Hl;
    [by apply returns_ret|lia|by apply returns_ret|].
  cbn [format_loop]. destruct (c =? 37).
  - apply returns_bind. eapply returns_mono; [apply directive_returns|]. intros f' s' Hf'. cbn in Hf'. apply IH. lia.
  - apply returns_bind. unfold returns at 1, emit, modify. apply IH. lia.
Qed.

(** Text without a per cent sign is copied. *)
Lemma format_loop_literal text fuel f s :
  (length text + length f <= fuel)%nat -> Forall (fun c => c <> 37) text ->
  format_loop fuel (text ++ f) s = format_loop (fuel - length text) f (VS (out s ++ text) (args s) (stores s)).
Proof.
  revert fuel s. induction text as [|c text IH]; intros fuel s Hl Ht.
  - cbn. rewrite app_nil_r, Nat.sub_0_r. by destruct s.
  - inversion Ht as [|? ? Hc Ht']; subst. destruct fuel as [|fuel]; [cbn in Hl; lia|].
    cbn [format_loop app]. rewrite (proj2 (Z.eqb_neq c 37)) by done. unfold bind at 1, emit, modify.
    cbn in Hl. rewrite IH; [|lia|done]. cbn. by rewrite <- app_assoc.
Qed.

(** C33: [vsprintf] ends on every format and every list of arguments (its loop
    of the length of the format is enough), and copies text without per cent
    signs, returning its length. *)
Theorem vsprintf_terminates fmt s :
  vsprintf fmt s <> OutOfFuel /\
  (Forall (fun c => c <> 37) fmt ->
   vsprintf fmt s = Done (Z.of_nat (length (out s ++ fmt)), VS (out s ++ fmt) (args s) (stores s))).
Proof.
  split.
  - pose proof (format_loop_returns (length fmt) fmt s ltac:(lia)) as Hr. unfold returns in Hr.
    unfold vsprintf, bind. by destruct (format_loop _ _ _) as [[[] s']| | | |].
  - intros Ht. pose proof (format_loop_literal fmt (length fmt) [] s ltac:(cbn; lia) Ht) as Hl.
    rewrite app_nil_r in Hl. unfold vsprintf, bind. rewrite Hl, Nat.sub_diag. done.
Qed.

Lemma vsprintf_terminates_witness : vsprintf (chars "ok") (VS [] [] []) = Done (2, VS (chars "ok") [] []).
Proof.
  apply (proj2 (vsprintf_terminates (chars "ok") (VS [] [] []))).
  apply list.Forall_cons. split; [discriminate|]. apply list.Forall_cons. split; [discriminate|constructor].
Defined.

(** ** The buffer of [printk] *)

Lemma wp_va_word s w l Q : args s = AWord w :: l -> Q w (VS (out s) l (stores s)) -> wp va_word s Q.
Proof. intros Ha HQ. unfold va_word. wp_steps. rewrite Ha. by wp_steps. Qed.

Lemma wp_va_str s t l Q : args s = AStr t :: l -> Q t (VS (out s) l (stores s)) -> wp va_str s Q.
Proof. intros Ha HQ. unfold va_str. wp_steps. rewrite Ha. by wp_steps. Qed.

Lemma wp_emit s t Q : Q tt (VS (out s ++ t) (args s) (stores s)) -> wp (emit t) s Q.
Proof. exact id. Qed.

Lemma wp_emit_number s n base w p f l Q :
  number n base w p f = Some l -> Q tt (VS (out s ++ l) (args s) (stores s)) -> wp (emit_number n base w p f) s Q.
Proof. intros Hn HQ. unfold emit_number. wp_steps. eapply wp_deref_opt; [exact Hn|]. by apply wp_emit. Qed.

(** Running a format whose characters are known: the comparisons compute. *)
Ltac fmt_bool :=
  match goal with
  | |- context [?a =? ?b] =>
      let r := eval vm_compute in (a =? b) in
      match r with true => idtac | false => idtac end; change (a =? b) with r
  | |- context [isdigit ?a] =>
      let r := eval vm_compute in (isdigit a) in
      match r with true => idtac | false => idtac end; change (isdigit a) with r
  | |- context [has ?a ?b] =>
      let r := eval vm_compute in (has a b) in
      match r with true => idtac | false => idtac end; change (has a b) with r
  | |- context [skip_atoi 0 ?l] =>
      let r := eval vm_compute in (skip_atoi 0 l) in change (skip_atoi 0 l) with r
  | |- context [parse_flags ?l ?f] =>
      let r := eval vm_compute in (parse_flags l f) in change (parse_flags l f) with r
  end.
Ltac fmt_step :=
  lazymatch goal with
  | |- wp (format_loop _ []) _ _ => unfold format_loop; apply wp_ret
  | |- wp (format_loop ?n (_ :: _)) _ _ =>
      let n' := eval vm_compute in n in change n with n'; cbn [format_loop]
  | |- wp (directive _) _ _ => unfold directive
  | |- wp (parse_width _ _) _ _ => unfold parse_width
  | |- wp (parse_precision _) _ _ => unfold parse_precision
  | |- wp (conversion _ _ _ _ _) _ _ => unfold conversion
  | |- wp (int_arg _ _) _ _ => unfold int_arg
  | |- wp va_int _ _ => unfold va_int
  | |- wp va_word _ _ => eapply wp_va_word; [reflexivity|]
  | |- wp va_str _ _ => eapply wp_va_str; [reflexivity|]
  | |- wp (emit _) _ _ => apply wp_emit
  | |- _ => wp_step
  end; cbn beta iota zeta delta [fst snd parse_qualifier orb andb]; repeat fmt_bool; cbn beta iota zeta delta [fst snd orb andb].

(** A number in a width taken from the arguments. *)
Lemma vsprintf_star w n s0 l l' :
  0 <= w < 2 ^ 31 -> args s0 = AWord w :: AWord n :: l' -> number (to_int n) 10 w (-1) SIGN = Some l ->
  wp (vsprintf [37; 42; 100]) s0 (fun r s => r = Z.of_nat (length (out s)) /\ out s = out s0 ++ l).
Proof.
  intros Hw Ha Hn. destruct s0 as [o a st]. cbn in Ha. subst a.
  unfold vsprintf. apply wp_bind. do 10 fmt_step.
  rewrite (to_int_small w), (proj2 (Z.ltb_ge w 0)) by lia. repeat fmt_step.
  eapply wp_emit_number; [exact Hn|]. repeat fmt_step. done.
Qed.

Lemma length_pad_nat n c : length (pad n c) = Z.to_nat n.
Proof. apply length_replicate. Qed.

(** Nothing bounds what [printk] writes to its 1024 bytes of stack: with a
    width [w] from the arguments it returns for [w] up to 1023 and overruns
    the buffer for every larger one. *)
Theorem printk_width_overflow w n s :
  0 <= w < 2 ^ 31 ->
  if w <? PRINTF_BUF
  then exists t, printk (chars "%*d") [AWord w; AWord n] s = Done (Z.of_nat (length t), Console (shown s ++ t)) /\
         w <= Z.of_nat (length t) < PRINTF_BUF
  else printk (chars "%*d") [AWord w; AWord n] s = Fault.
Proof.
  intros Hw. pose proof (to_int_range n) as Hn.
  assert (width_ok w (-1)) as Hok by (unfold width_ok; lia).
  destruct (number_digits (to_int n) 10 SIGN) as (ds & Hdg & _ & Hne & Hds & _); [tauto|lia|].
  pose proof (number_layout (to_int n) 10 w (-1) SIGN (rev ds) ltac:(tauto) ltac:(lia) Hok) as Heq.
  rewrite length_rev, rev_involutive in Heq. specialize (Heq Hds Hdg). cbv zeta in Heq.
  assert (1 <= length ds)%nat as Hd1 by (destruct ds; [done|cbn; lia]).
  assert (length (sign_of (to_int n) SIGN) <= 1)%nat as Hsg.
  { unfold sign_of. change (has SIGN SIGN) with true. change (has SIGN PLUS) with false.
    change (has SIGN SPACE) with false. cbn iota. destruct (_ <? 0); cbn; lia. }
  set (l := pad (lead_of (gap (to_int n) 10 w (-1) SIGN ds) SIGN) 32 ++ sign_of (to_int n) SIGN ++ prefix_of 10 SIGN
    ++ pad (zeros_of (gap (to_int n) 10 w (-1) SIGN ds) (-1) SIGN ds) 48 ++ ds
    ++ pad (trail_of (gap (to_int n) 10 w (-1) SIGN ds) SIGN) 32) in *.
  assert (Hl : Z.of_nat (length l) = Z.max w (Z.of_nat (length (sign_of (to_int n) SIGN)) + Z.of_nat (length ds))).
  { unfold l. rewrite !length_app, !length_pad_nat. change (prefix_of 10 SIGN) with (@nil Z).
    unfold gap, lead_of, zeros_of, trail_of. change (has SIGN LEFT) with false. change (has SIGN ZEROPAD) with false.
    change (prefix_of 10 SIGN) with (@nil Z). cbn [orb andb length]. lia. }
  pose proof (vsprintf_star w n (VS [] [AWord w; AWord n] []) l [] Hw eq_refl Heq) as Hp.
  apply wp_run in Hp as (r & s' & Hrun & -> & Hout). cbn in Hout.
  unfold printk, sprintf. change (chars "%*d") with [37; 42; 100]. rewrite Hrun, Hout.
  unfold PRINTF_BUF in *. destruct (Z.ltb_spec w 1024).
  - exists l. rewrite (proj2 (Z.leb_le _ _)) by lia. split; [done|lia].
  - by rewrite (proj2 (Z.leb_gt _ _)) by lia.
Qed.

Lemma printk_width_overflow_witness : printk (chars "%*d") [AWord 1024; AWord 7] (Console []) = Fault.
Proof. apply (printk_width_overflow 1024 7 (Console [])). lia. Defined.

(** ** The lines of a dump *)

Lemma strnlen_all t n : n < 0 -> strnlen t n = Z.of_nat (length t).
Proof.
  revert n. induction t as [|c t IH]; intros n Hn; [done|]. cbn [strnlen].
  rewrite (proj2 (Z.eqb_neq n 0)), IH by lia. cbn. lia.
Qed.

Lemma tmp_digits_len fuel (k : nat) n base locase :
  2 <= base -> 0 <= n < base ^ Z.of_nat k -> (length (tmp_digits fuel n base locase) <= k)%nat.
Proof.
  intros Hb. revert k n. induction fuel as [|fuel IH]; intros k n Hn; cbn [tmp_digits]; [cbn; lia|].
  destruct (Z.eqb_spec n 0) as [->|Hnz]; [cbn; lia|]. destruct k as [|k]; [cbn in Hn; lia|].
  rewrite Nat2Z.inj_succ, Z.pow_succ_r in Hn by lia. cbn [length]. apply le_n_S, IH.
  split; [apply Z.div_pos; lia|apply Z.div_lt_upper_bound; lia].
Qed.

(** Zero-padded lower-case hexadecimal of a number that fits the width. *)
Lemma number_hex n (k : nat) :
  - 2 ^ 63 <= n < 2 ^ 63 -> n mod 2 ^ 64 < 16 ^ Z.of_nat k -> (1 <= k <= 16)%nat ->
  exists l, number n 16 (Z.of_nat k) (-1) (Z.lor ZEROPAD SMALL) = Some l /\ length l = k.
Proof.
  intros Hn Hlt Hk. pose proof (Z.mod_pos_bound n (2 ^ 64) ltac:(lia)) as Hpos.
  assert (magnitude n (Z.lor ZEROPAD SMALL) = n mod 2 ^ 64) as Hm by done.
  set (tmp := if magnitude n (Z.lor ZEROPAD SMALL) =? 0 then [48]
              else tmp_digits 64 (magnitude n (Z.lor ZEROPAD SMALL)) 16 (Z.land (Z.lor ZEROPAD SMALL) SMALL)).
  assert (1 <= length tmp <= k)%nat as Ht.
  { unfold tmp. rewrite Hm. destruct (Z.eqb_spec (n mod 2 ^ 64) 0) as [H0|H0]; [cbn; lia|]. split.
    - change 64%nat with (S 63). cbn [tmp_digits]. rewrite (proj2 (Z.eqb_neq (n mod 2 ^ 64) 0)) by done. cbn. lia.
    - apply tmp_digits_len; lia. }
  eexists. split; [apply (number_layout n 16 _ _ _ tmp); [tauto|lia|unfold width_ok; lia|lia|reflexivity]|].
  rewrite !length_app, !length_pad_nat, length_rev. unfold gap, lead_of, zeros_of, trail_of.
  change (has (Z.lor ZEROPAD SMALL) LEFT) with false. change (has (Z.lor ZEROPAD SMALL) ZEROPAD) with true.
  change (sign_of n (Z.lor ZEROPAD SMALL)) with (@nil Z). change (prefix_of 16 (Z.lor ZEROPAD SMALL)) with (@nil Z).
  cbn [orb andb negb length]. rewrite !length_rev. lia.
Qed.

(** Appending to the line buffer, by the text appended. *)
Lemma wp_append fmt l b t (s : console) Q :
  wp (vsprintf (chars "%s" ++ fmt)) (VS [] (AStr b :: l) []) (fun _ s' => out s' = b ++ t) ->
  (length b + length t <= 79)%nat -> Q (b ++ t) s -> wp (append_m fmt l b) s Q.
Proof.
  intros Hw Hlen HQ. apply wp_run in Hw as (r & s' & Hrun & Hout).
  unfold append_m, lift, append, sprintf, wp. rewrite Hrun, Hout. rewrite (proj2 (Z.leb_le _ _)); [done|].
  rewrite length_app. lia.
Qed.

(** The directive that prints the buffer itself. *)
Lemma wp_self b l fmt Q :
  wp (format_loop (S (length fmt)) fmt) (VS b l []) (fun _ s' => Q s') ->
  wp (vsprintf (chars "%s" ++ fmt)) (VS [] (AStr b :: l) []) (fun _ s' => Q s').
Proof.
  intros HQ. change (chars "%s" ++ fmt) with (37 :: 115 :: fmt). unfold vsprintf. apply wp_bind.
  cbn [length]. generalize dependent (S (length fmt)). intros m HQ. cbn [format_loop]. change (37 =? 37) with true. cbn iota. apply wp_bind. unfold directive.
  change (parse_flags (115 :: fmt) 0) with (0, 115 :: fmt). cbn iota beta. apply wp_bind.
  unfold parse_width. change (isdigit 115) with false. change (115 =? 42) with false. cbn iota. wp_steps.
  unfold parse_precision. wp_steps. cbn [parse_qualifier fst snd]. change ((115 =? 104) || (115 =? 108) || (115 =? 76)) with false.
  cbn iota beta. wp_steps. unfold conversion. change (115 =? 99) with false. change (115 =? 115) with true. cbn iota.
  wp_steps. eapply wp_va_str; [reflexivity|]. change (has 0 LEFT) with false. cbn iota. rewrite strnlen_all by lia.
  rewrite Nat2Z.id, firstn_all. wp_steps. apply wp_emit. wp_steps. apply wp_emit. wp_steps.
  assert (pad (-1 - Z.of_nat (length b)) 32 = []) as -> by (unfold pad; by replace (Z.to_nat _) with 0%nat by lia).
  replace (Z.min (-1) (Z.of_nat (length b)) - 1) with (-2) by lia. change (to_int (-2)) with (-2).
  assert (pad (-2 - Z.of_nat (length b)) 32 = []) as -> by (unfold pad; by replace (Z.to_nat _) with 0%nat by lia).
  apply wp_emit. wp_steps. rewrite app_nil_r.
  cbn [out args stores app]. eapply wp_mono; [apply HQ|]. cbn. intros _ s' HQ'. by wp_steps.
Qed.

Lemma wp_append_hex c b (s : console) Q :
  is_byte c -> (length b <= 76)%nat ->
  (forall t, length t = 3%nat -> Q (b ++ t) s) -> wp (append_m (chars " %02x") [AWord c] b) s Q.
Proof.
  intros Hc Hb HQ. unfold is_byte in Hc. destruct (number_hex c 2) as (h & Hh & Hlen); [lia|rewrite Z.mod_small by lia; cbn; lia|lia|].
  apply (wp_append _ _ _ ([32] ++ h)); [|rewrite length_app, Hlen; cbn; lia|apply HQ; rewrite length_app, Hlen; done].
  apply wp_self. change (chars " %02x") with [32; 37; 48; 50; 120].
  repeat fmt_step. unfold wrap32, to_int. replace (((c + 2 ^ 31) mod 2 ^ 32 - 2 ^ 31) mod 2 ^ 32) with c.
  - eapply wp_emit_number; [exact Hh|]. repeat fmt_step. cbn [out]. by rewrite <- app_assoc.
  - rewrite (Z.mod_small (c + 2 ^ 31)) by lia. rewrite Z.mod_small; lia.
Qed.

Lemma wp_append_blank b (s : console) Q :
  (length b <= 78)%nat -> Q (b ++ [32]) s -> wp (append_m (chars " ") [] b) s Q.
Proof.
  intros Hb HQ. apply (wp_append _ _ _ [32]); [|cbn; lia|done].
  apply wp_self. change (chars " ") with [32]. repeat fmt_step. done.
Qed.

Lemma wp_append_char c b (s : console) Q :
  is_byte c -> (length b <= 78)%nat -> Q (b ++ [c]) s -> wp (append_m (chars "%c") [AWord c] b) s Q.
Proof.
  intros Hc Hb HQ. apply (wp_append _ _ _ [c]); [|cbn; lia|done].
  apply wp_self. change (chars "%c") with [37; 99]. unfold is_byte in Hc. repeat fmt_step.
  cbn [out]. unfold wrap8. rewrite (to_int_small c) by lia. rewrite Z.mod_small by lia.
  rewrite (to_int_small (-1 - 1)), (to_int_small (Z.min (-1 - 1) 0 - 1)) by lia.
  change (pad _ 32) with (@nil Z). change (pad _ 32) with (@nil Z). by rewrite !app_nil_r.
Qed.

Lemma printable_byte c : is_byte (printable c).
Proof.
  unfold is_byte, printable. destruct (Z.ltb_spec 33 c), (Z.leb_spec c 126); cbn [andb]; lia.
Qed.

Lemma wp_append_text l b (s : console) Q :
  (length b + length l <= 79)%nat ->
  (forall b', length b' = (length b + length l)%nat -> Q b' s) -> wp (append_text l b) s Q.
Proof.
  revert b. induction l as [|c l IH]; intros b Hlen HQ; cbn [append_text length] in *.
  - wp_steps. apply HQ. lia.
  - wp_steps. apply wp_append_char; [apply printable_byte|lia|]. apply IH; rewrite length_app; cbn; [lia|].
    intros b' Hb'. apply HQ. lia.
Qed.

Lemma wp_append_blanks n b (s : console) Q :
  (length b + n <= 79)%nat ->
  (forall b', length b' = (length b + n)%nat -> Q b' s) -> wp (append_blanks n b) s Q.
Proof.
  revert b. induction n as [|n IH]; intros b Hlen HQ; cbn [append_blanks].
  - wp_steps. apply HQ. lia.
  - wp_steps. apply wp_append_blank; [lia|]. apply IH; rewrite length_app; cbn; [lia|].
    intros b' Hb'. apply HQ. lia.
Qed.

Lemma wp_print_line b s (Q : unit -> console -> Prop) :
  (length b <= 79)%nat -> (forall s', Q tt s') -> wp (print_line b) s Q.
Proof.
  intros Hb HQ. unfold print_line. wp_steps.
  assert (wp (vsprintf (chars "%s" ++ [10])) (VS [] [AStr b] []) (fun _ s' => out s' = b ++ [10])) as Hw.
  { apply wp_self. repeat fmt_step. done. }
  apply wp_run in Hw as (r & s' & Hrun & Hout). unfold wp, printk, sprintf. rewrite Hrun, Hout.
  assert (r = Z.of_nat (length (out s'))) as Hr.
  { unfold vsprintf, bind, gets in Hrun. destruct (format_loop _ _ _) as [[[] s2]| | | |]; try done. by injection Hrun as <- <-. }
  rewrite Hr, Hout, length_app. unfold PRINTF_BUF. rewrite (proj2 (Z.leb_le _ _)) by (cbn; lia). apply HQ.
Qed.

(** The state of the line buffer before byte [i]. *)
Definition line_ok (i : Z) (line b : list Z) : Prop :=
  i mod 16 <> 0 -> Z.of_nat (length line) = i mod 16 /\ Z.of_nat (length b) = 11 + 3 * (i mod 16).

Lemma next_mod i : 0 <= i -> (i + 1) mod 16 = if i mod 16 =? 15 then 0 else i mod 16 + 1.
Proof.
  intros Hi. pose proof (Z.mod_pos_bound i 16). pose proof (Z.div_mod i 16).
  destruct (Z.eqb_spec (i mod 16) 15).
  - symmetry. apply (Z.mod_unique _ _ (i / 16 + 1)); lia.
  - symmetry. apply (Z.mod_unique _ _ (i / 16)); lia.
Qed.

Lemma dump_byte_ok addr i c line b s Q :
  0 <= i -> is_byte c -> line_ok i line b ->
  (forall b' s', line_ok (i + 1) (if i mod 16 =? 0 then [c] else line ++ [c]) b' -> Q b' s') ->
  wp (dump_byte addr i c (if i mod 16 =? 0 then [c] else line ++ [c]) b) s Q.
Proof.
  intros Hi Hc Hok HQ. pose proof (Z.mod_pos_bound i 16) as Hm. pose proof (next_mod i Hi) as Hn.
  unfold dump_byte, line_ok in *. rewrite Hn in HQ. clear Hn.
  destruct (Z.eqb_spec (i mod 16) 0) as [H0|H0].
  - rewrite H0 in *. cbn [Z.eqb] in HQ. wp_steps.
    set (a := Z.land (i + addr) 0xffffffff).
    assert (0 <= a < 16 ^ Z.of_nat 8) as Ha.
    { unfold a. change 0xffffffff with (2 ^ 32 - 1). rewrite land_low_mod by lia. apply Z.mod_pos_bound. lia. }
    change (16 ^ Z.of_nat 8) with (2 ^ 32) in Ha.
    destruct (number_hex a 8) as (h & Hh & Hlen); [lia|rewrite Z.mod_small by lia; apply Ha|lia|].
    assert (wp (vsprintf (chars "~%08x -")) (VS [] [AWord a] []) (fun r s' => out s' = [126] ++ h ++ [32; 45])) as Hw.
    { change (chars "~%08x -") with [126; 37; 48; 56; 120; 32; 45]. unfold vsprintf. apply wp_bind. repeat fmt_step. unfold wrap32, to_int.
      replace (((a + 2 ^ 31) mod 2 ^ 32 - 2 ^ 31) mod 2 ^ 32) with a.
      - eapply wp_emit_number; [exact Hh|]. repeat fmt_step. cbn [out]. by rewrite <- !app_assoc.
      - rewrite Zminus_mod_idemp_l. rewrite Z.mod_small; lia. }
    apply wp_run in Hw as (r & s' & Hrun & Hout). unfold lift at 1, sprintf. unfold wp at 1. rewrite Hrun, Hout.
    rewrite (proj2 (Z.leb_le _ _)) by (rewrite !length_app, Hlen; cbn; lia).
    apply wp_append_hex; [done|rewrite !length_app, Hlen; cbn; lia|].
    intros t Ht. apply HQ. intros _. rewrite !length_app, Hlen, Ht. cbn. lia.
  - destruct (Hok H0) as [Hl Hb]. destruct (Z.eqb_spec (i mod 16) 15) as [H15|H15].
    + wp_steps. apply wp_append_hex; [done|lia|]. intros t Ht. wp_steps.
      apply wp_append_blank; [rewrite length_app; lia|]. wp_steps.
      apply wp_append_text; [rewrite !length_app; cbn; lia|]. intros b' Hb'. wp_steps.
      apply wp_print_line; [rewrite Hb', !length_app; cbn; lia|]. intros s'. wp_steps. apply HQ. done.
    + apply wp_append_hex; [done|lia|]. intros t Ht. apply HQ. intros _. rewrite !length_app, Ht. cbn. lia.
Qed.

Lemma dump_loop_ok bytes addr i line b s Q :
  0 <= i -> Forall is_byte bytes -> line_ok i line b ->
  (forall i' line' b' s', 0 <= i' -> line_ok i' line' b' -> Q (i', line', b') s') ->
  wp (dump_loop bytes addr i line b) s Q.
Proof.
  revert i line b s. induction bytes as [|c bytes IH]; intros i line b s Hi Hall Hok HQ; cbn [dump_loop].
  - wp_steps. by apply HQ.
  - inversion Hall as [|? ? Hc Hall']; subst. wp_steps. apply dump_byte_ok; [done|done|done|].
    intros b' s' Hok'. apply IH; [lia|done|done|done].
Qed.

(** The 64-bit address at the head of a dump. *)
Lemma print_address_ok addr s (Q : unit -> console -> Prop) :
  0 <= addr < 2 ^ 64 -> (forall s', Q tt s') ->
  wp (printk (chars "addr:%016lx:" ++ [10]) [AWord addr] ;;; ret tt) s Q.
Proof.
  intros Ha HQ. set (num := (addr + 2 ^ 63) mod 2 ^ 64 - 2 ^ 63).
  assert (num mod 2 ^ 64 = addr) as Hnum.
  { unfold num. rewrite Zminus_mod_idemp_l. rewrite Z.mod_small; lia. }
  assert (- 2 ^ 63 <= num < 2 ^ 63) as Hr.
  { unfold num. pose proof (Z.mod_pos_bound (addr + 2 ^ 63) (2 ^ 64)). lia. }
  destruct (number_hex num 16 Hr) as (h & Hh & Hlen); [rewrite Hnum; apply Ha|lia|].
  assert (wp (vsprintf (chars "addr:%016lx:" ++ [10])) (VS [] [AWord addr] [])
            (fun r s' => r = Z.of_nat (length (out s')) /\ length (out s') = 23%nat)) as Hw.
  { change (chars "addr:%016lx:" ++ [10]) with [97; 100; 100; 114; 58; 37; 48; 49; 54; 108; 120; 58; 10].
    unfold vsprintf. apply wp_bind. repeat fmt_step. eapply wp_emit_number; [exact Hh|]. repeat fmt_step.
    split; [done|]. cbn [out]. rewrite !length_app, Hlen. done. }
  apply wp_run in Hw as (r & s' & Hrun & Hr' & Hout). wp_steps.
  unfold printk, sprintf, wp. rewrite Hrun, Hr', Hout. apply HQ.
Qed.

(** A memory dump of any address and any bytes fits its buffers: no line
    overruns [binstr[80]] nor what [printf] copies it to, and the dump ends. *)
Theorem dump_mem_fits addr bytes s :
  0 <= addr < 2 ^ 64 -> Forall is_byte bytes -> exists s', dump_mem addr bytes s = Done (tt, s').
Proof.
  intros Ha Hall. enough (wp (dump_mem addr bytes) s (fun _ _ => True)) as Hw.
  { apply wp_run in Hw as ([] & s' & Hrun & _). by exists s'. }
  unfold dump_mem. wp_steps.
  assert (wp (if 0xffffffff <? addr then printk (chars "addr:%016lx:" ++ [10]) [AWord addr] ;;; ret tt else ret tt) s
            (fun _ _ => True)) as Hhead by (destruct (_ <? _); [by apply print_address_ok|done]).
  eapply wp_mono; [exact Hhead|]. intros _ s1 _. wp_steps. apply dump_loop_ok; [lia|done|done|].
  intros i line b s2 Hi Hok. pose proof (Z.mod_pos_bound i 16).
  destruct (Z.eqb_spec (i mod 16) 0) as [H0|H0]; [by wp_steps|]. destruct (Hok H0) as [Hl Hb]. wp_steps.
  apply wp_append_blanks; [lia|]. intros b1 Hb1. wp_steps. apply wp_append_blank; [lia|]. wp_steps.
  apply wp_append_text; [rewrite length_app; cbn; lia|]. intros b2 Hb2.
  apply wp_print_line; [rewrite Hb2, length_app; cbn; lia|done].
Qed.

Lemma dump_mem_fits_witness : exists s', dump_mem 0xffffffff80000000 [1; 2; 65] (Console []) = Done (tt, s').
Proof.
  apply dump_mem_fits; [lia|].
  apply list.Forall_cons. split; [split; lia|]. apply list.Forall_cons. split; [split; lia|].
  apply list.Forall_cons. split; [split; lia|constructor].
Defined.

(** ** [dump_mem64] *)

Lemma text64_faults bytes o js j c s : j ∈ js -> bytes !! (o + j)%nat = Some c -> 33 < c <= 126 ->
  (length bytes < o + 8 * j + 8)%nat -> (forall i, i ∈ js -> (o + i < length bytes)%nat) ->
  text64 bytes o js s = Fault.
Proof.
  intros Hj Hc Hp Hout. revert s. induction js as [|i js IH]; intros s Hin; [by inversion Hj|]. cbn [text64].
  destruct (lookup_lt_is_Some_2 bytes (o + i)) as [d Hd]; [apply Hin; left|].
  unfold bind at 1, byte_at. rewrite Hd. cbn [deref_opt ret].
  assert (forall k, (length bytes < o + 8 * k + 8)%nat -> word_at bytes (o + 8 * k) s = Fault) as Hword.
  { intros k Hk. unfold word_at. rewrite length_take, length_drop.
    destruct (Nat.eqb_spec (Nat.min 8 (length bytes - (o + 8 * k))) 8); [lia|done]. }
  destruct (decide (i = j)) as [->|Hne].
  - rewrite Hc in Hd. injection Hd as <-. rewrite (proj2 (Z.ltb_lt 33 c)), (proj2 (Z.leb_le c 126)) by lia.
    cbn [andb]. unfold bind at 1 2. by rewrite Hword.
  - assert (j ∈ js) as Hj' by (apply elem_of_cons in Hj as [?|?]; [congruence|done]).
    assert (forall s', text64 bytes o js s' = Fault) as Hrest by (intros s'; apply IH; [done|]; intros k Hk; apply Hin; by right).
    destruct ((33 <? d) && (d <=? 126)).
    + unfold bind at 1 2. unfold word_at. destruct (Nat.eqb _ 8); [|done]. cbn [ret]. unfold bind. by rewrite Hrest.
    + unfold bind at 1. cbn [ret]. unfold bind. by rewrite Hrest.
Qed.

(** Dumping 16 bytes of which nothing behind can be read fails as soon as one
    of the last fourteen is printable: its column shows word [j], not byte
    [j]. *)
Lemma dump_mem64_reads_past p bytes s j c :
  length bytes = 16%nat -> (2 <= j < 16)%nat -> bytes !! j = Some c -> 33 < c <= 126 ->
  dump_mem64 p bytes 16 s = Fault.
Proof.
  intros Hl Hj Hc Hp. unfold dump_mem64. change ((16 / 8 + 1) / 2)%nat with 1%nat. cbn [dump64_loop]. unfold bind at 1.
  rewrite (text64_faults bytes 0 (seq 0 16) j c); try done.
  - apply elem_of_seq. lia.
  - lia.
  - intros i Hi. apply elem_of_seq in Hi. lia.
Qed.
