(* ===== verification/Chain.v ===== *)
(** * Chain: singly linked lists of structures

    The per-CPU managers of the kernel (timers, tasklets) link their structures through a first field [pnext] and hand
    unused ones out from a free list.  This file models such a structure as a
    link and a payload, the pointer accesses on any state that holds a heap of
    them, and relates chains of pointers to plain lists. *)
From Stdlib Require Import ZArith Lia.
From stdpp Require Import base tactics gmap list option.
From S2P Require Import Prelude.

Lemma filter_none {A} (P : A -> Prop) `{!forall x, Decision (P x)} (l : list A) :
  (forall x, x ∈ l -> ~ P x) -> filter P l = [].
Proof.
  induction l as [|x l IH]; intros Hl; [done|].
  rewrite filter_cons_False by (apply Hl; left). apply IH. intros y Hy. apply Hl. by right.
Qed.

(** ** Structures with a link *)
Record link (P : Type) := Link { pnext : option nat; val : P }.
Arguments Link {P} pnext val.
Arguments pnext {P} l.
Arguments val {P} l.

(** A state that holds a heap of linked structures. *)
Class HasHeap (St P : Type) := {
  heap : St -> gmap nat (link P);
  set_heap : gmap nat (link P) -> St -> St;
  heap_set : forall h s, heap (set_heap h s) = h
}.

Section accesses.
Context {St P : Type} `{HasHeap St P}.

(** [*p], and a write through [p]. *)
Definition get (p : option nat) : M St (link P) := fun s =>
  match p with
  | None => Fault
  | Some i => match heap s !! i with Some n => Done (n, s) | None => Fault end
  end.
Definition put (p : option nat) (f : link P -> link P) : M St unit :=
  n <- get p ;;
  match p with
  | Some i => modify (fun s => set_heap (<[i := f n]> (heap s)) s)
  | None => fault
  end.
Definition put_pnext (p q : option nat) : M St unit := put p (fun n => Link q (val n)).
Definition put_val (p : option nat) (f : P -> P) : M St unit :=
  put p (fun n => Link (pnext n) (f (val n))).

Lemma wp_get s i n Q : heap s !! i = Some n -> Q n s -> wp (get (Some i)) s Q.
Proof. unfold wp, get. by intros ->. Qed.

Lemma wp_put s i n f Q :
  heap s !! i = Some n -> Q tt (set_heap (<[i := f n]> (heap s)) s) -> wp (put (Some i) f) s Q.
Proof. intros Hi HQ. apply wp_bind. eapply wp_get; [exact Hi|]. exact HQ. Qed.

Lemma wp_put_pnext s i q n Q :
  heap s !! i = Some n ->
  Q tt (set_heap (<[i := Link q (val n)]> (heap s)) s) -> wp (put_pnext (Some i) q) s Q.
Proof. apply (wp_put s i n (fun n => Link q (val n))). Qed.

Lemma wp_put_val s i f n Q :
  heap s !! i = Some n ->
  Q tt (set_heap (<[i := Link (pnext n) (f (val n))]> (heap s)) s) -> wp (put_val (Some i) f) s Q.
Proof. apply (wp_put s i n (fun n => Link (pnext n) (f (val n)))). Qed.
End accesses.

(** ** Chains *)
Section chains.
Context {P : Type}.
Implicit Types (h : gmap nat (link P)) (l : list (nat * P)) (p q : option nat).

Fixpoint chain h p l q : Prop :=
  match l with
  | [] => p = q
  | (i, x) :: l' => p = Some i /\ exists nx, h !! i = Some (Link nx x) /\ chain h nx l' q
  end.

Lemma chain_app h p l1 l2 q :
  chain h p (l1 ++ l2) q <-> exists r, chain h p l1 r /\ chain h r l2 q.
Proof.
  revert p. induction l1 as [|[i x] l1 IH]; intros p; cbn; [naive_solver|].
  setoid_rewrite IH. naive_solver.
Qed.

Lemma chain_frame h h' p l q :
  chain h p l q -> (forall i, i ∈ l.*1 -> h' !! i = h !! i) -> chain h' p l q.
Proof.
  revert p. induction l as [|[i x] l IH]; intros p; cbn; [done|].
  intros (-> & nx & Hi & Hl) Hfr. split; [done|]. exists nx.
  split; [rewrite Hfr by set_solver; done|].
  apply IH; [done|]. intros j Hj. apply Hfr. set_solver.
Qed.

Lemma chain_insert_ne h p l q i n : i ∉ l.*1 -> chain h p l q -> chain (<[i := n]> h) p l q.
Proof.
  intros Hi Hl. eapply chain_frame; [exact Hl|].
  intros j Hj. apply lookup_insert_ne. set_solver.
Qed.

Lemma chain_cons h i n x l q :
  i ∉ l.*1 -> chain h n l q -> chain (<[i := Link n x]> h) (Some i) ((i, x) :: l) q.
Proof.
  intros Hi Hl. split; [done|]. exists n. rewrite lookup_insert_eq.
  split; [done|]. by apply chain_insert_ne.
Qed.

Lemma chain_lookup h p l1 i x l2 q :
  chain h p (l1 ++ (i, x) :: l2) q ->
  exists nx, h !! i = Some (Link nx x) /\ chain h p l1 (Some i) /\ chain h nx l2 q.
Proof. rewrite chain_app. cbn. naive_solver. Qed.

Lemma chain_elem h p l q i : chain h p l q -> i ∈ l.*1 -> is_Some (h !! i).
Proof.
  intros Hl Hi. apply list_elem_of_fmap in Hi as ([j x] & -> & Hi).
  apply list_elem_of_split in Hi as (l1 & l2 & ->).
  apply chain_lookup in Hl as (nx & Hi & _). by eexists.
Qed.

(** Linking [i] behind the cell [d]. *)
Lemma chain_link h p l1 d xd l2 q i x nd :
  chain h p (l1 ++ (d, xd) :: l2) q -> NoDup (l1 ++ (d, xd) :: l2).*1 ->
  i ∉ (l1 ++ (d, xd) :: l2).*1 -> h !! d = Some nd ->
  chain (<[d := Link (Some i) xd]> (<[i := Link (pnext nd) x]> h)) p
    (l1 ++ (d, xd) :: (i, x) :: l2) q.
Proof.
  intros Hl Hnd Hi Hd. rewrite fmap_app in Hnd, Hi. cbn in Hnd, Hi.
  apply chain_lookup in Hl as (nk & Hk & Hl1 & Hl2). rewrite Hk in Hd. injection Hd as <-. cbn.
  apply list.NoDup_app in Hnd as (_ & Hdis & [Hd2 _]%list.NoDup_cons).
  apply chain_app. exists (Some d).
  rewrite elem_of_app, elem_of_cons in Hi. split.
  - apply chain_insert_ne; [intros Hin; eapply Hdis; [exact Hin|left]|].
    apply chain_insert_ne; [naive_solver|done].
  - split; [done|]. exists (Some i). rewrite lookup_insert_eq. split; [done|].
    split; [done|]. exists nk. rewrite lookup_insert_ne, lookup_insert_eq by naive_solver.
    split; [done|]. do 2 (apply chain_insert_ne; [naive_solver|]). done.
Qed.

Lemma chain_det h p l1 l2 q : chain h p l1 None -> chain h p l2 None -> l1 = l2.
Proof.
  revert p l2. induction l1 as [|[i x] l1 IH]; intros p l2; cbn.
  - intros ->. destruct l2 as [|[j y] l2]; cbn; naive_solver.
  - intros (-> & nx & Hi & Hl1). destruct l2 as [|[j y] l2]; cbn; [done|].
    intros ([= <-] & ny & Hj & Hl2). rewrite Hi in Hj. injection Hj as -> ->.
    f_equal. by eapply IH.
Qed.

Lemma chain_length h p l q : chain h p l q -> NoDup l.*1 -> (length l <= size h)%nat.
Proof.
  intros Hl Hnd. rewrite <- (length_fmap fst l), <- size_dom.
  rewrite <- (size_list_to_set (C := gset nat) _ Hnd). apply subseteq_size.
  intros i Hi%elem_of_list_to_set. apply elem_of_dom. by eapply chain_elem.
Qed.

(** ** The loops that thread an array into a free list *)
Definition links (x0 : P) (k : nat) : gmap nat (link P) :=
  list_to_map ((fun i => (i, Link (if Nat.ltb (S i) k then Some (S i) else None) x0)) <$> seq 0 k).

Lemma links_lookup x0 k i :
  (i < k)%nat -> links x0 k !! i = Some (Link (if Nat.ltb (S i) k then Some (S i) else None) x0).
Proof.
  intros Hi. apply elem_of_list_to_map_1'.
  - intros y (j & [= <- ->] & _)%list_elem_of_fmap. done.
  - apply list_elem_of_fmap. exists i. split; [done|]. apply elem_of_seq. lia.
Qed.

Lemma links_chain x0 k :
  (0 < k)%nat -> chain (links x0 k) (Some 0%nat) ((fun i => (i, x0)) <$> seq 0 k) None.
Proof.
  intros Hk. enough (forall n j, (j + n = k)%nat -> (0 < n)%nat ->
    chain (links x0 k) (Some j) ((fun i => (i, x0)) <$> seq j n) None) as H by (apply H; lia).
  induction n as [|n IH]; intros j Hj Hn; [lia|]. cbn. split; [done|].
  eexists. rewrite links_lookup by lia. split; [done|].
  destruct (Nat.ltb_spec (S j) k); [apply IH; lia|].
  assert (n = 0)%nat as -> by lia. done.
Qed.
End chains.

(** ** Ownership

    Which list a structure is on is a tag per structure, so that lists with
    different tags are disjoint. *)
Section ownership.
Context {P O : Type}.
Implicit Types (own : nat -> O) (l : list (nat * P)).

Definition owned own (o : O) l : Prop :=
  NoDup l.*1 /\ Forall (fun i => own i = o) l.*1.
Definition give (i : nat) (o : O) own : nat -> O := fun j => if decide (j = i) then o else own j.

Lemma give_eq i o own : give i o own i = o.
Proof. unfold give. by rewrite decide_True. Qed.

Lemma give_ne i j o own : j <> i -> give i o own j = own j.
Proof. intros Hj. unfold give. by rewrite decide_False. Qed.

Lemma owned_nil own o : owned own o [].
Proof. split; constructor. Qed.

Lemma owned_not own o o' l i : owned own o l -> own i = o' -> o' <> o -> i ∉ l.*1.
Proof. intros [_ Hf] Hi Hne Hin. rewrite list.Forall_forall in Hf. naive_solver. Qed.

Lemma owned_elem own o l i : owned own o l -> i ∈ l.*1 -> own i = o.
Proof. intros [_ Hf]. rewrite list.Forall_forall in Hf. apply Hf. Qed.

Lemma owned_disjoint own o o' l l' i :
  owned own o l -> owned own o' l' -> o <> o' -> i ∈ l.*1 -> i ∉ l'.*1.
Proof.
  intros Hl Hl' Hne Hi Hi'. apply (owned_elem _ _ _ _ Hl) in Hi. apply (owned_elem _ _ _ _ Hl') in Hi'. congruence.
Qed.

Lemma owned_cons own o i x l :
  owned own o ((i, x) :: l) <-> own i = o /\ (i ∉ l.*1) /\ owned own o l.
Proof. unfold owned. cbn. rewrite list.NoDup_cons, list.Forall_cons. naive_solver. Qed.

Lemma owned_app own o l1 l2 :
  owned own o (l1 ++ l2) <-> owned own o l1 /\ owned own o l2 /\ (forall i, i ∈ l1.*1 -> i ∉ l2.*1).
Proof.
  unfold owned. rewrite fmap_app, list.NoDup_app, list.Forall_app. naive_solver.
Qed.

Lemma owned_perm own o l l' : l ≡ₚ l' -> owned own o l -> owned own o l'.
Proof. unfold owned. intros Hp. by rewrite Hp. Qed.

Lemma owned_give own o o' l i : i ∉ l.*1 -> owned own o l -> owned (give i o' own) o l.
Proof.
  intros Hi [Hnd Hf]. split; [done|]. rewrite list.Forall_forall in Hf |- *.
  intros j Hj. rewrite give_ne by set_solver. by apply Hf.
Qed.

Lemma owned_give_cons own o i x l : i ∉ l.*1 -> owned own o l -> owned (give i o own) o ((i, x) :: l).
Proof. intros Hi Hl. apply owned_cons. rewrite give_eq. split; [done|]. split; [done|]. by apply owned_give. Qed.
End ownership.
#[global] Arguments give : simpl never.
Create HintDb chains.
#[export] Hint Resolve owned_nil owned_give owned_give_cons : chains.
