(* ===== verification/Timer.v ===== *)
(** * Timer: timeouts and poll callbacks

    kernel/timer.c keeps, per CPU, a free list of timeout structures and a list
    of armed ones sorted by deadline; the timer softirq takes those that are
    due off the list and calls them back, or queues them on a thread's poll
    list (kernel/kthread.c).  The callbacks are code of the clients: they are
    the parameter [body], which may use the interface of this file. *)
From Stdlib Require Import ZArith Lia Sorted.
From stdpp Require Import base tactics gmap list option.
From S2P Require Import Prelude Chain.

Definition ENOMEM : Z := 12.
Definition NR_TIMER_BUF : nat := 64.
Definition NR_POLL_LVL : nat := 7.
Definition POLL_LVL_TIMER : nat := 1.
Definition HRTIMER_SOFTIRQ : Z := 8.
Definition TIMER_SOFTIRQ : Z := 1.

(** ** State *)

(** The values the field [handle] takes. *)
Inductive poll_handle := no_handle | err_poll | timeout_poll_handle.

(** [struct timeout_callback], behind its link. *)
Record timeout_callback := Timeout {
  handle : poll_handle;
  thread : Z;
  param : Z;
  deadline : Z;
  callback : Z;
  count : Z
}.
Definition set_handle (h : poll_handle) (t : timeout_callback) : timeout_callback :=
  Timeout h (thread t) (param t) (deadline t) (callback t) (count t).
Definition set_count (c : Z) (t : timeout_callback) : timeout_callback :=
  Timeout (handle t) (thread t) (param t) (deadline t) (callback t) c.
Definition zero_timeout : timeout_callback := Timeout no_handle 0 0 0 0 0.

(** The fields of [struct thread_struct] that polling uses. *)
Record thread_polls := ThreadPolls { polls : list (option nat); poll_pending : Z }.

(** [struct timer_manager] with the heap its structures live in, the threads,
    the current one, the requests made of the clock event device (newest
    first), [hrt_uptime()], the interrupt flag, the pending softirqs and the
    calls made of timer callbacks. *)
Record timers := Timers {
  nodes : gmap nat (link timeout_callback);
  pfree : option nat;
  ptimer : option nat;
  threads : gmap Z thread_polls;
  current : Z;
  armed : list Z;
  uptime : Z;
  irqs : bool;
  pending : Z;
  calls : list (Z * Z * Z)
}.
Definition set_nodes (h : gmap nat (link timeout_callback)) (s : timers) : timers :=
  Timers h (pfree s) (ptimer s) (threads s) (current s) (armed s) (uptime s) (irqs s) (pending s) (calls s).
Definition set_pfree (p : option nat) (s : timers) : timers :=
  Timers (nodes s) p (ptimer s) (threads s) (current s) (armed s) (uptime s) (irqs s) (pending s) (calls s).
Definition set_ptimer (p : option nat) (s : timers) : timers :=
  Timers (nodes s) (pfree s) p (threads s) (current s) (armed s) (uptime s) (irqs s) (pending s) (calls s).
Definition set_threads (t : gmap Z thread_polls) (s : timers) : timers :=
  Timers (nodes s) (pfree s) (ptimer s) t (current s) (armed s) (uptime s) (irqs s) (pending s) (calls s).
Definition set_armed (l : list Z) (s : timers) : timers :=
  Timers (nodes s) (pfree s) (ptimer s) (threads s) (current s) l (uptime s) (irqs s) (pending s) (calls s).
Definition set_irqs (b : bool) (s : timers) : timers :=
  Timers (nodes s) (pfree s) (ptimer s) (threads s) (current s) (armed s) (uptime s) b (pending s) (calls s).
Definition set_pending (b : Z) (s : timers) : timers :=
  Timers (nodes s) (pfree s) (ptimer s) (threads s) (current s) (armed s) (uptime s) (irqs s) b (calls s).
Definition set_calls (l : list (Z * Z * Z)) (s : timers) : timers :=
  Timers (nodes s) (pfree s) (ptimer s) (threads s) (current s) (armed s) (uptime s) (irqs s) (pending s) l.

#[export] Instance timers_heap : HasHeap timers timeout_callback :=
  {| heap := nodes; set_heap := set_nodes; heap_set := fun _ _ => eq_refl |}.

Definition local_irq_disable : M timers unit := modify (set_irqs false).
Definition local_irq_enable : M timers unit := modify (set_irqs true).
Definition local_irq_save : M timers bool := b <- gets irqs ;; local_irq_disable ;;; ret b.
Definition local_irq_restore (b : bool) : M timers unit := modify (set_irqs b).
Definition hrt_uptime : M timers Z := gets uptime.
Definition set_next_event (nsec : Z) : M timers unit := modify (fun s => set_armed (nsec :: armed s) s).
Definition raise_softirq (nr : Z) : M timers unit :=
  modify (fun s => set_pending (Z.lor (pending s) (Z.shiftl 1 nr)) s).

Section timer.
(** The code of the callbacks, by function, deadline and parameter, and the
    allocator that [yaos_malloc] reaches when the free list is empty. *)
Context (body : Z -> Z -> Z -> M timers unit).
Context (yaos_malloc : gmap nat (link timeout_callback) -> option nat).

(** [( *p->callback)(p->deadline, p->param)] *)
Definition call (t : timeout_callback) : M timers unit :=
  modify (fun s => set_calls (calls s ++ [(callback t, deadline t, param t)]) s) ;;;
  body (callback t) (deadline t) (param t).

Definition free_poll (p : option nat) : M timers unit :=
  put_val p (set_handle err_poll) ;;;
  f <- gets pfree ;;
  put_pnext p f ;;;
  modify (set_pfree p).

Definition timeout_poll (p : option nat) : M timers Z :=
  t <- get p ;;
  call (val t) ;;;
  free_poll p ;;;
  ret 0.

(** [while (ptr->pnext && ptr->pnext->deadline < p->deadline) ptr = ptr->pnext;] *)
Fixpoint find_slot (fuel : nat) (d : Z) (ptr : option nat) : M timers (option nat) :=
  match fuel with
  | O => out_of_fuel
  | S fuel' =>
      n <- get ptr ;;
      match pnext n with
      | None => ret ptr
      | Some _ =>
          n' <- get (pnext n) ;;
          if deadline (val n') <? d then find_slot fuel' d (pnext n) else ret ptr
      end
  end.

(** Enough fuel for any walk over distinct structures. *)
Definition list_fuel : M timers nat := gets (fun s => S (size (nodes s))).

Definition add_timer (nsec : Z) (p : option nat) : M timers unit :=
  put_val p (set_count 1) ;;;
  flag <- local_irq_save ;;
  head <- gets ptimer ;;
  np <- get p ;;
  first <- match head with
           | None => ret true
           | Some _ => nh <- get head ;; ret (deadline (val np) <? deadline (val nh))
           end ;;
  (if (first : bool) then
     put_pnext p head ;;;
     modify (set_ptimer p) ;;;
     set_next_event nsec
   else
     fuel <- list_fuel ;;
     ptr <- find_slot fuel (deadline (val np)) head ;;
     n <- get ptr ;;
     put_pnext p (pnext n) ;;;
     put_pnext ptr p) ;;;
  local_irq_restore flag.

Definition is_poll (t : timeout_callback) : bool := negb (thread t =? 0).

Definition get_thread (t : Z) : M timers thread_polls :=
  fun s => match threads s !! t with Some th => Done (th, s) | None => Fault end.
Definition put_thread (t : Z) (th : thread_polls) : M timers unit :=
  modify (fun s => set_threads (<[t := th]> (threads s)) s).

(** The assertions on read-only addresses hold of any heap structure. *)
Definition thread_add_poll (p : option nat) (lvl : nat) : M timers unit :=
  n <- get p ;;
  kassert (lvl <? NR_POLL_LVL)%nat ;;;
  local_irq_disable ;;;
  th <- get_thread (thread (val n)) ;;
  let head := nth lvl (polls th) None in
  (if bool_decide (p = head) then ret tt
   else
     put_pnext p head ;;;
     put_thread (thread (val n)) (ThreadPolls (<[lvl := p]> (polls th)) (poll_pending th))) ;;;
  local_irq_enable ;;;
  c <- gets current ;;
  cur <- get_thread c ;;
  put_thread c (ThreadPolls (polls cur) (Z.lor (poll_pending cur) (Z.shiftl 1 (Z.of_nat lvl)))).

(** A count other than 1 is dumped and then fails the assertion. *)
Definition timer_cb (p : option nat) : M timers unit :=
  put_val p (fun t => set_count (count t - 1) t) ;;;
  n <- get p ;;
  kassert (count (val n) =? 0) ;;;
  if is_poll (val n) then thread_add_poll p POLL_LVL_TIMER
  else
    call (val n) ;;;
    free_poll p.

(** The structure a new timeout uses: the first free one, or a fresh one. *)
Definition take_timeout : M timers (option nat) :=
  p <- gets pfree ;;
  match p with
  | None =>
      i <- gets (fun s => yaos_malloc (nodes s)) ;;
      match i with
      | None => ret None
      | Some i =>
          modify (fun s => set_nodes (<[i := Link None zero_timeout]> (nodes s)) s) ;;;
          ret (Some i)
      end
  | Some _ =>
      n <- get p ;;
      modify (set_pfree (pnext n)) ;;;
      ret p
  end.

Definition set_timeout (h : poll_handle) (th : Z) (nsec pfunc prm : Z) : M timers Z :=
  p <- take_timeout ;;
  match p with
  | None => ret ENOMEM
  | Some _ =>
      now <- hrt_uptime ;;
      put_val p (fun t => Timeout h th prm (wrap64 (nsec + now)) pfunc (count t)) ;;;
      add_timer nsec p ;;;
      ret 0
  end.
Definition set_timeout_nsec_cb (nsec pfunc prm : Z) : M timers Z :=
  set_timeout no_handle 0 nsec pfunc prm.
Definition set_timeout_nsec_poll (nsec pfunc prm : Z) : M timers Z :=
  c <- gets current ;; set_timeout timeout_poll_handle c nsec pfunc prm.

Definition run_local_timers : M timers unit := raise_softirq TIMER_SOFTIRQ.
Definition run_hrt_timers : M timers unit := raise_softirq HRTIMER_SOFTIRQ.
Definition run_timer_softirq : M timers unit := ret tt.

(** The loop that fills [paramarr]: at most [callnr] structures behind [ptr]
    that are due; the last one taken, and all of them in order. *)
Fixpoint take_due (callnr : nat) (now : Z) (ptr : option nat) : M timers (option nat * list (option nat)) :=
  n <- get ptr ;;
  match pnext n with
  | None => ret (ptr, [])
  | Some _ =>
      n' <- get (pnext n) ;;
      match callnr with
      | O => ret (ptr, [])
      | S callnr' =>
          if deadline (val n') <=? now then
            r <- take_due callnr' now (pnext n) ;;
            ret (fst r, pnext n :: snd r)
          else ret (ptr, [])
      end
  end.
Fixpoint run_all (l : list (option nat)) : M timers unit :=
  match l with
  | [] => ret tt
  | p :: l' => timer_cb p ;;; run_all l'
  end.

Definition run_hrtimer_softirq : M timers unit :=
  now <- hrt_uptime ;;
  p <- gets ptimer ;;
  match p with
  | None => ret tt
  | Some _ =>
      n <- get p ;;
      if now <? deadline (val n) then ret tt
      else
        local_irq_disable ;;;
        r <- take_due 19 now p ;;
        last <- get (fst r) ;;
        modify (set_ptimer (pnext last)) ;;;
        (match pnext last with
         | None => ret tt
         | Some _ => nx <- get (pnext last) ;; set_next_event (wrap64 (deadline (val nx) - now))
         end) ;;;
        local_irq_enable ;;;
        run_all (p :: snd r)
  end.

(** ** The poll side: a thread runs what is queued on it *)
Definition call_handle (p : option nat) : M timers Z :=
  n <- get p ;;
  match handle (val n) with
  | timeout_poll_handle => timeout_poll p
  | err_poll => panic
  | no_handle => fault
  end.
Fixpoint poll_list (fuel : nat) (phead : option nat) : M timers unit :=
  match phead with
  | None => ret tt
  | Some _ =>
      match fuel with
      | O => out_of_fuel
      | S fuel' =>
          n <- get phead ;;
          put_pnext phead None ;;;
          call_handle phead ;;;
          poll_list fuel' (pnext n)
      end
  end.
Definition do_poll_head (phead : option nat) : M timers bool :=
  fuel <- list_fuel ;;
  poll_list fuel phead ;;;
  ret true.
Fixpoint poll_levels (pheads : list (option nat)) (r : bool) : M timers bool :=
  match pheads with
  | [] => ret r
  | h :: pheads' =>
      b <- (match h with None => ret false | Some _ => do_poll_head h end) ;;
      poll_levels pheads' (b || r)
  end.
Definition can_main_run (t : Z) : M timers bool :=
  local_irq_disable ;;;
  th <- get_thread t ;;
  put_thread t (ThreadPolls (replicate NR_POLL_LVL None) 0) ;;;
  local_irq_enable ;;;
  poll_levels (polls th) false.
End timer.

Definition init_hrtimer (th : gmap Z thread_polls) (cur now : Z) : timers :=
  Timers (links zero_timeout NR_TIMER_BUF) (Some 0%nat) None th cur [] now true 0 [].

(** ** Sorted lists of timeouts *)
Abbreviation tcell := (nat * timeout_callback)%type.
Definition dl (c : tcell) : Z := deadline (snd c).
Definition before (c d : tcell) : Prop := dl c <= dl d.

Fixpoint ins_after (c : tcell) (l : list tcell) : list tcell :=
  match l with
  | [] => [c]
  | d :: l' => if dl d <? dl c then d :: ins_after c l' else c :: d :: l'
  end.
Definition ins (c : tcell) (l : list tcell) : list tcell :=
  match l with
  | [] => [c]
  | d :: l' => if dl c <? dl d then c :: d :: l' else d :: ins_after c l'
  end.

Lemma ins_after_perm c l : ins_after c l ≡ₚ c :: l.
Proof.
  induction l as [|d l IH]; cbn; [done|]. destruct (_ <? _); [|done].
  rewrite IH. apply Permutation_swap.
Qed.

Lemma timer_ins_perm c l : ins c l ≡ₚ c :: l.
Proof.
  destruct l as [|d l]; cbn; [done|]. destruct (_ <? _); [done|].
  rewrite ins_after_perm. apply Permutation_swap.
Qed.

Lemma ins_after_sorted c l : StronglySorted before l -> StronglySorted before (ins_after c l).
Proof.
  induction l as [|d l IH]; intros Hs; cbn; [by repeat constructor|].
  pose proof (StronglySorted_inv Hs) as [Hs' Hd].
  destruct (Z.ltb_spec (dl d) (dl c)).
  - constructor; [by apply IH|]. rewrite ins_after_perm. constructor; [unfold before; lia|done].
  - constructor; [done|]. constructor; [unfold before; lia|].
    eapply list.Forall_impl; [exact Hd|]. unfold before. lia.
Qed.

Lemma ins_sorted c l : StronglySorted before l -> StronglySorted before (ins c l).
Proof.
  destruct l as [|d l]; intros Hs; cbn; [by repeat constructor|].
  pose proof (StronglySorted_inv Hs) as [Hs' Hd].
  destruct (Z.ltb_spec (dl c) (dl d)).
  - constructor; [done|]. constructor; [unfold before; lia|].
    eapply list.Forall_impl; [exact Hd|]. unfold before. lia.
  - constructor; [by apply ins_after_sorted|]. rewrite ins_after_perm.
    constructor; [unfold before; lia|done].
Qed.

Lemma ins_after_sublist c l : sublist l (ins_after c l).
Proof. induction l as [|d l IH]; cbn; [repeat constructor|]. destruct (_ <? _); by repeat constructor. Qed.

Lemma ins_sublist c l : sublist l (ins c l).
Proof.
  destruct l as [|d l]; cbn; [repeat constructor|].
  destruct (_ <? _); [by repeat constructor|]. constructor. apply ins_after_sublist.
Qed.

(** ** Who owns a structure *)
Inductive owner := Free | Armed | Flight | Polled (t : Z) | Unused.

Record timers_ok (own : nat -> owner) (s : timers) (lf lt : list tcell) : Prop := {
  ok_free : chain (nodes s) (pfree s) lf None;
  ok_freeo : owned own Free lf;
  ok_timer : chain (nodes s) (ptimer s) lt None;
  ok_timero : owned own Armed lt;
  ok_sorted : StronglySorted before lt;
  ok_count : Forall (fun c => count (snd c) = 1) lt;
  ok_dom : forall i, nodes s !! i = None -> own i = Unused
}.

(** What the users of this file may rely on: structures in flight or on a poll
    list stay as they are, and so do the threads. *)
Definition held (o : owner) : bool := match o with Flight | Polled _ => true | _ => false end.
Record keeps (own : nat -> owner) (s : timers) (own' : nat -> owner) (s' : timers) : Prop := {
  kp_own : forall i, held (own i) = true -> own' i = own i /\ nodes s' !! i = nodes s !! i;
  kp_new : forall i, held (own i) = false -> held (own' i) = false;
  kp_threads : threads s' = threads s;
  kp_current : current s' = current s;
  kp_armed : exists a, armed s' = a ++ armed s;
  kp_calls : calls s' = calls s
}.

Lemma keeps_refl own s : keeps own s own s.
Proof. split; try done. by exists []. Qed.

Lemma find_slot_spec fuel d s c l :
  chain (nodes s) (Some (fst c)) (c :: l) None -> (length l < fuel)%nat ->
  exists l1 e l2,
    find_slot fuel d (Some (fst c)) s = Done (Some (fst e), s) /\ c :: l = l1 ++ e :: l2 /\
    forall n, dl n = d -> c :: ins_after n l = l1 ++ e :: n :: l2.
Proof.
  revert c l. induction fuel as [|fuel IH]; intros [i x] l Hl Hlen; [lia|].
  destruct Hl as (_ & nx & Hi & Hl). cbn. unfold bind, get. cbn. rewrite Hi. cbn.
  destruct l as [|[j y] l].
  - cbn in Hl. subst nx. by exists [], (i, x), [].
  - pose proof Hl as (-> & nx' & Hj & Hl'). cbn. rewrite Hj. cbn.
    destruct (deadline y <? d) eqn:Hlt.
    + destruct (IH (j, y) l) as (l1 & e & l2 & Hw & Hsp & Hins); [done|cbn in *; lia|].
      exists ((i, x) :: l1), e, l2. split; [exact Hw|]. split; [cbn; f_equal; exact Hsp|].
      intros n <-. cbn [app ins_after]. unfold dl at 1. cbn [snd]. rewrite Hlt. f_equal. by apply Hins.
    + exists [], (i, x), ((j, y) :: l). split; [done|]. split; [done|].
      intros n <-. cbn [app ins_after]. unfold dl at 1. cbn [snd]. by rewrite Hlt.
Qed.

#[global] Arguments find_slot : simpl never.

Lemma ok_is_Some own s lf lt i : timers_ok own s lf lt -> own i <> Unused -> is_Some (nodes s !! i).
Proof. intros Hok Hi. destruct (nodes s !! i) eqn:He; [done|]. by apply (ok_dom _ _ _ _ Hok) in He. Qed.

(** The state after [i] was linked into the list of armed timers. *)
Lemma linked_ok own s lf lt i x s' :
  timers_ok own s lf lt -> own i = Flight -> count x = 1 ->
  chain (nodes s') (ptimer s') (ins (i, x) lt) None -> pfree s' = pfree s ->
  (forall j, j <> i -> j ∉ lt.*1 -> nodes s' !! j = nodes s !! j) ->
  (forall j, is_Some (nodes s !! j) -> is_Some (nodes s' !! j)) ->
  timers_ok (give i Armed own) s' lf (ins (i, x) lt) /\
  (forall j, held (own j) = true -> j <> i -> nodes s' !! j = nodes s !! j).
Proof.
  intros Hok Hi Hx Hch Hpf Hfr Hdom. pose proof Hok as [Hf Hfo Ht Hto Hs Hc Hd].
  assert (Hif : i ∉ lf.*1) by (eapply owned_not; [exact Hfo|exact Hi|done]).
  assert (Hit : i ∉ lt.*1) by (eapply owned_not; [exact Hto|exact Hi|done]).
  split; [split|].
  - rewrite Hpf. eapply chain_frame; [exact Hf|]. intros j Hj. apply Hfr; [set_solver|].
    intros Hjt. apply (owned_elem _ _ _ _ Hto) in Hjt. apply (owned_elem _ _ _ _ Hfo) in Hj. congruence.
  - by apply owned_give.
  - done.
  - eapply owned_perm; [by rewrite timer_ins_perm|]. by apply owned_give_cons.
  - by apply ins_sorted.
  - rewrite timer_ins_perm. by constructor.
  - intros j Hj. assert (~ is_Some (nodes s !! j)) as Hn.
    { intros Hs'. apply Hdom in Hs'. rewrite Hj in Hs'. by destruct Hs'. }
    rewrite give_ne; [by apply Hd, eq_None_not_Some|].
    intros ->. apply Hn. eapply ok_is_Some; [exact Hok|congruence].
  - intros j Hj Hji. apply Hfr; [done|]. intros Hjt.
    apply (owned_elem _ _ _ _ Hto) in Hjt. by rewrite Hjt in Hj.
Qed.

(** Linking an unlinked structure into the list of armed timers. *)
Lemma add_timer_ok own s lf lt nsec i n :
  timers_ok own s lf lt -> own i = Flight -> nodes s !! i = Some n ->
  let c := (i, set_count 1 (val n)) in
  wp (add_timer nsec (Some i)) s (fun _ s' =>
    (timers_ok (give i Armed own) s' lf (ins c lt) /\
     forall j, held (own j) = true -> j <> i -> nodes s' !! j = nodes s !! j) /\
    threads s' = threads s /\ current s' = current s /\ calls s' = calls s /\
    irqs s' = irqs s /\ uptime s' = uptime s /\
    armed s' = (if match lt with [] => true | d :: _ => dl c <? dl d end then [nsec] else []) ++ armed s).
Proof.
  intros Hok Hi Hn c. pose proof Hok as [_ _ Ht Hto _ _ _].
  assert (Hit : i ∉ lt.*1) by (eapply owned_not; [exact Hto|exact Hi|done]).
  unfold add_timer. wp_steps. eapply wp_put_val; [exact Hn|].
  unfold local_irq_save, local_irq_disable. wp_steps. cbn -[ins].
  eapply wp_get; [apply lookup_insert_eq|]. wp_steps. cbn -[ins].
  destruct lt as [|[j y] lt].
  { cbn in Ht. rewrite Ht. wp_steps. eapply wp_put_pnext; [apply lookup_insert_eq|]. cbn -[ins].
    unfold set_next_event, local_irq_restore. wp_steps. cbn -[ins]. rewrite insert_insert_eq.
    split; [|done]. apply (linked_ok _ s); try done; cbn -[ins].
    - by apply chain_cons.
    - intros k Hk _. by rewrite lookup_insert_ne.
    - intros k Hk. by apply lookup_insert_is_Some'; right. }
  pose proof Ht as (Hp & nj & Hj & Ht'). rewrite Hp. wp_steps.
  assert (i <> j) as Hij by set_solver.
  eapply wp_get; [cbn; rewrite lookup_insert_ne by done; exact Hj|]. wp_steps. cbn -[ins].
  change (dl (j, y)) with (deadline y).
  destruct (deadline (val n) <? deadline y) eqn:Hlt.
  { wp_steps. eapply wp_put_pnext; [apply lookup_insert_eq|]. cbn -[ins].
    unfold set_next_event, local_irq_restore. wp_steps. cbn -[ins]. rewrite insert_insert_eq.
    split; [|done]. apply (linked_ok _ s); try done; cbn -[ins].
    - cbn [ins]. unfold dl. cbn [snd set_count deadline]. rewrite Hlt.
      apply chain_cons; [done|]. rewrite <- Hp. exact Ht.
    - intros k Hk _. by rewrite lookup_insert_ne.
    - intros k Hk. by apply lookup_insert_is_Some'; right. }
  wp_steps. unfold list_fuel. wp_steps. set (s1 := set_irqs _ _).
  assert (Hch1 : chain (nodes s1) (Some (fst (j, y))) ((j, y) :: lt) None).
  { cbn [s1 nodes set_irqs set_nodes]. apply chain_insert_ne; [done|]. cbn [fst]. rewrite <- Hp. exact Ht. }
  destruct (find_slot_spec (S (size (nodes s1))) (deadline (val n)) s1 (j, y) lt Hch1)
    as (l1 & [e xe] & l2 & Hw & Hsp & Hins).
  { pose proof (chain_length _ _ _ _ Hch1 (proj1 Hto)) as Hl. cbn [length] in Hl. lia. }
  specialize (Hins c eq_refl). cbn [fst] in Hw, Hch1. unfold wp at 1. rewrite Hw. cbv beta iota. wp_steps.
  rewrite Hsp in Hch1. pose proof (chain_lookup _ _ _ _ _ _ _ Hch1) as (ne & He & _).
  assert (e ∈ ((j, y) :: lt).*1) as Hein by (rewrite Hsp, fmap_app; apply elem_of_app; right; left).
  assert (i <> e) as Hie by (by intros ->).
  eapply wp_get; [exact He|]. wp_steps. eapply wp_put_pnext; [cbn; apply lookup_insert_eq|]. wp_steps.
  eapply wp_put_pnext; [cbn; rewrite lookup_insert_ne by done; exact He|]. cbn -[ins].
  unfold local_irq_restore. wp_steps. cbn -[ins]. rewrite insert_insert_eq.
  split; [|done]. apply (linked_ok _ s); try done; cbn -[ins].
  - assert (ins c ((j, y) :: lt) = l1 ++ (e, xe) :: c :: l2) as Hc'.
    { rewrite <- Hins. cbn [ins]. change (dl c) with (deadline (val n)).
      change (dl (j, y)) with (deadline y). by rewrite Hlt. }
    unfold c in Hc'. rewrite Hc'.
    cbn in He. rewrite lookup_insert_ne in He by done. rewrite Hsp in Ht, Hto, Hit.
    apply (chain_link _ _ l1 e xe l2 None i (set_count 1 (val n)) (Link ne xe)); try done.
    by destruct Hto.
  - intros k Hk Hkt. rewrite !lookup_insert_ne by set_solver. done.
  - intros k Hk. apply lookup_insert_is_Some'. right. by apply lookup_insert_is_Some'; right.
Qed.

(** Writing a structure that is on neither list of the manager. *)
Lemma put_ok own s lf lt i n :
  timers_ok own s lf lt -> own i <> Free -> own i <> Armed -> own i <> Unused ->
  timers_ok own (set_nodes (<[i := n]> (nodes s)) s) lf lt.
Proof.
  intros [Hf Hfo Ht Hto Hs Hc Hd] H1 H2 H3. split; cbn; try done.
  - apply chain_insert_ne; [|done]. by eapply owned_not; [exact Hfo|reflexivity|].
  - apply chain_insert_ne; [|done]. by eapply owned_not; [exact Hto|reflexivity|].
  - intros j [Hj _]%lookup_insert_None. by apply Hd.
Qed.

Lemma put_val_ok own s lf lt i f (Q : unit -> timers -> Prop) :
  timers_ok own s lf lt -> own i = Flight ->
  (forall nx x, nodes s !! i = Some (Link nx x) ->
     timers_ok own (set_nodes (<[i := Link nx (f x)]> (nodes s)) s) lf lt ->
     Q tt (set_nodes (<[i := Link nx (f x)]> (nodes s)) s)) ->
  wp (put_val (Some i) f) s Q.
Proof.
  intros Hok Hi HQ. destruct (ok_is_Some _ _ _ _ i Hok) as [[nx x] Hn]; [congruence|].
  eapply wp_put_val; [exact Hn|]. apply (HQ nx x Hn). apply put_ok; [done|congruence..].
Qed.

Class Malloc (f : gmap nat (link timeout_callback) -> option nat) : Prop :=
  malloc_fresh : forall h i, f h = Some i -> h !! i = None.

(** What a callback may do: leave the timers well formed, arm more of them,
    and touch nothing that is in flight. *)
Class TimerClient (body : Z -> Z -> Z -> M timers unit) : Prop :=
  client_ok : forall f d x own s lf lt, timers_ok own s lf lt ->
    wp (body f d x) s (fun _ s' => exists own' lf' lt',
      timers_ok own' s' lf' lt' /\ keeps own s own' s' /\ sublist lt lt').

#[export] Instance idle_client : TimerClient (fun _ _ _ => ret tt).
Proof. intros f d x own s lf lt Hok. apply wp_ret. exists own, lf, lt. split; [done|]. split; [apply keeps_refl|done]. Qed.

Section set_timeout.
Context (yaos_malloc : gmap nat (link timeout_callback) -> option nat) `{!Malloc yaos_malloc}.

Lemma take_timeout_ok own s lf lt :
  timers_ok own s lf lt ->
  wp (take_timeout yaos_malloc) s (fun p s' =>
    match p with
    | None => s' = s /\ lf = [] /\ yaos_malloc (nodes s) = None
    | Some i => exists h pf lf', s' = set_pfree pf (set_nodes h s) /\
        held (own i) = false /\ timers_ok (give i Flight own) s' lf' lt /\
        forall j, j <> i -> h !! j = nodes s !! j
    end).
Proof.
  intros Hok. pose proof Hok as [Hf Hfo Ht Hto Hs Hc Hd]. unfold take_timeout. wp_steps.
  destruct lf as [|[i x] lf].
  - cbn in Hf. rewrite Hf. wp_steps. destruct (yaos_malloc (nodes s)) as [i|] eqn:He; wp_steps; [|done].
    pose proof (malloc_fresh _ _ He) as Hi. pose proof (Hd _ Hi) as Hui.
    eexists _, None, []. split; [unfold set_pfree, set_nodes; cbn; by rewrite Hf|].
    split; [by rewrite Hui|]. split; [split; cbn; try done|].
    + apply owned_nil.
    + apply chain_insert_ne; [|done]. by eapply owned_not.
    + apply owned_give; [|done]. by eapply owned_not.
    + intros j [Hj Hji]%lookup_insert_None. rewrite give_ne by congruence. by apply Hd.
    + intros j Hj. by rewrite lookup_insert_ne.
  - destruct Hf as (Hp & nx & Hi & Hf). rewrite Hp. apply owned_cons in Hfo as (Hio & Hif & Hfo).
    wp_steps. eapply wp_get; [exact Hi|]. wp_steps. cbn.
    exists (nodes s), nx, lf. split; [done|]. split; [by rewrite Hio|]. split; [|done]. split; cbn; try done.
    + by apply owned_give.
    + apply owned_give; [|done]. eapply owned_not; [exact Hto|exact Hio|done].
    + intros j Hj. rewrite give_ne; [by apply Hd|]. intros ->. congruence.
Qed.

Definition arms (c : tcell) (lt : list tcell) : bool :=
  match lt with [] => true | d :: _ => dl c <? dl d end.

Lemma set_timeout_ok own s lf lt h th nsec pfunc prm :
  timers_ok own s lf lt ->
  wp (set_timeout yaos_malloc h th nsec pfunc prm) s (fun r s' =>
    (r = ENOMEM /\ s' = s /\ lf = [] /\ yaos_malloc (nodes s) = None) \/
    (r = 0 /\ exists own' lf' i, let c := (i, Timeout h th prm (wrap64 (nsec + uptime s)) pfunc 1) in
       timers_ok own' s' lf' (ins c lt) /\ keeps own s own' s' /\ (i ∉ lt.*1) /\
       irqs s' = irqs s /\ uptime s' = uptime s /\
       armed s' = (if arms c lt then [nsec] else []) ++ armed s)).
Proof.
  intros Hok. unfold set_timeout, hrt_uptime. wp_steps. eapply wp_mono; [by eapply take_timeout_ok|].
  cbn beta. intros [i|] s1 Hp; cbn beta iota; [|wp_steps; by left]. wp_steps.
  destruct Hp as (h1 & pf & lf1 & Hs1 & Hi & Hok1 & Hfr).
  eapply put_val_ok; [exact Hok1|apply give_eq|]. intros nx x Hn Hok2. wp_steps.
  eapply wp_mono; [eapply add_timer_ok; [exact Hok2|apply give_eq|apply lookup_insert_eq]|].
  cbn -[ins set_count]. intros _ s3 ((Hok3 & Hfr3) & Hth & Hcu & Hca & Hir & Hup & Har). wp_steps.
  right. split; [done|]. subst s1. cbn in *.
  eexists _, lf1, i. split; [exact Hok3|]. split; [|split; [|split; [done|split; [done|exact Har]]]].
  - split; try done; [|..|by eexists].
    + intros j Hj. assert (j <> i) as Hji by (intros ->; congruence). rewrite !give_ne by done.
      split; [done|]. rewrite Hfr3; [|by rewrite give_ne|done]. by rewrite lookup_insert_ne, Hfr.
    + intros j Hj. destruct (decide (j = i)) as [->|]; [by rewrite give_eq|by rewrite !give_ne].
  - eapply owned_not; [apply (ok_timero _ _ _ _ Hok1)|apply give_eq|done].
Qed.

(** A callback that arms itself again is a client. *)
#[export] Instance periodic_client : TimerClient (fun f d x => set_timeout_nsec_cb yaos_malloc x f x ;;; ret tt).
Proof.
  intros f d x own s lf lt Hok. wp_steps. eapply wp_mono; [by eapply set_timeout_ok|].
  cbn beta. intros _ s' [(_ & -> & _)|(_ & own' & lf' & i & Hok' & Hk & _)]; wp_steps.
  - exists own, lf, lt. split; [done|]. split; [apply keeps_refl|done].
  - eexists own', lf', _. split; [exact Hok'|]. split; [done|apply ins_sublist].
Qed.
End set_timeout.

(** ** Calling back what is due *)
Definition call_of (c : tcell) : Z * Z * Z := (callback (snd c), deadline (snd c), param (snd c)).
Definition called (l : list tcell) : list (Z * Z * Z) :=
  call_of <$> filter (fun c => is_poll (snd c) = false) l.
(** What is queued on thread [t]; queueing has counted the timeout down. *)
Definition queued (t : Z) (l : list tcell) : list tcell :=
  (fun c => (fst c, set_count 0 (snd c))) <$>
    filter (fun c => is_poll (snd c) = true /\ thread (snd c) = t) l.

(** The timer polls of the threads. *)
Definition poll_lists (own : nat -> owner) (s : timers) (lp : Z -> list tcell) : Prop :=
  forall t th, threads s !! t = Some th ->
    length (polls th) = NR_POLL_LVL /\
    chain (nodes s) (nth POLL_LVL_TIMER (polls th) None) (lp t) None /\ owned own (Polled t) (lp t).

(** Structures taken off a list and not yet called back, with count [k]. *)
Definition flying (k : Z) (own : nat -> owner) (s : timers) (l : list tcell) : Prop :=
  NoDup l.*1 /\ Forall (fun c => own (fst c) = Flight /\ count (snd c) = k /\
    exists nx, nodes s !! fst c = Some (Link nx (snd c))) l.

Definition threads_ok (s : timers) (l : list tcell) : Prop :=
  is_Some (threads s !! current s) /\
  Forall (fun c => is_poll (snd c) = true -> is_Some (threads s !! thread (snd c))) l.

Lemma free_poll_ok own s lf lt i (Q : unit -> timers -> Prop) :
  timers_ok own s lf lt -> own i = Flight ->
  (forall h x, timers_ok (give i Free own) (set_pfree (Some i) (set_nodes h s)) ((i, x) :: lf) lt ->
     (forall j, j <> i -> h !! j = nodes s !! j) -> Q tt (set_pfree (Some i) (set_nodes h s))) ->
  wp (free_poll (Some i)) s Q.
Proof.
  intros Hok Hi HQ. unfold free_poll. wp_steps.
  eapply put_val_ok; [exact Hok|done|]. intros nx x Hn [Hf Hfo Ht Hto Hs Hc Hd]. cbn in Hf, Ht, Hd. wp_steps.
  eapply wp_put_pnext; [apply lookup_insert_eq|]. cbn. rewrite insert_insert_eq. wp_steps.
  assert (Hif : i ∉ lf.*1) by (eapply owned_not; [exact Hfo|exact Hi|done]).
  assert (Hit : i ∉ lt.*1) by (eapply owned_not; [exact Hto|exact Hi|done]).
  match goal with |- Q tt (set_pfree _ (set_nodes ?h' _)) =>
    apply (HQ h' (set_handle err_poll x)) end.
  - split; cbn; try done.
    + split; [done|]. eexists. rewrite lookup_insert_eq. split; [done|].
      rewrite <- (insert_insert_eq _ i _ (Link nx (set_handle err_poll x))). by apply chain_insert_ne.
    + by apply owned_give_cons.
    + rewrite <- (insert_insert_eq _ i _ (Link nx (set_handle err_poll x))). by apply chain_insert_ne.
    + by apply owned_give.
    + intros j [Hj Hji]%lookup_insert_None. rewrite give_ne by congruence.
      apply Hd. by rewrite lookup_insert_ne.
  - intros j Hj. by rewrite lookup_insert_ne.
Qed.

Lemma nth_insert_eq {A} (l : list A) n x d : (n < length l)%nat -> nth n (<[n := x]> l) d = x.
Proof.
  intros Hn. rewrite (nth_lookup_Some _ n d x); [done|]. by apply list_lookup_insert_eq.
Qed.

Lemma wp_get_thread t th s Q : threads s !! t = Some th -> Q th s -> wp (get_thread t) s Q.
Proof. unfold wp, get_thread. by intros ->. Qed.

(** Queueing a timeout in flight on its thread. *)
Lemma thread_add_poll_ok own s lf lt lp i nx x :
  timers_ok own s lf lt -> own i = Flight -> nodes s !! i = Some (Link nx x) ->
  poll_lists own s lp -> is_Some (threads s !! current s) -> is_Some (threads s !! thread x) ->
  wp (thread_add_poll (Some i) POLL_LVL_TIMER) s (fun _ s' =>
    timers_ok (give i (Polled (thread x)) own) s' lf lt /\
    poll_lists (give i (Polled (thread x)) own) s'
      (fun t => if decide (t = thread x) then (i, x) :: lp t else lp t) /\
    (forall j, j <> i -> nodes s' !! j = nodes s !! j) /\
    calls s' = calls s /\ armed s' = armed s /\ current s' = current s /\
    forall t, is_Some (threads s !! t) -> is_Some (threads s' !! t)).
Proof.
  intros Hok Hi Hn Hlp [cur Hcur] [th Hth]. destruct (Hlp _ _ Hth) as (Hlen & Hch & Hown).
  unfold thread_add_poll, local_irq_disable, local_irq_enable, put_thread. wp_steps.
  eapply wp_get; [exact Hn|]. wp_steps. apply wp_kassert; [done|]. wp_steps.
  eapply wp_get_thread; [exact Hth|]. wp_steps.
  rewrite bool_decide_false.
  2:{ destruct (lp (thread x)) as [|[j y] l]; cbn in Hch.
      - by rewrite Hch.
      - destruct Hch as (-> & _). intros [= <-]. apply owned_cons in Hown as [Ho _]. congruence. }
  wp_steps. eapply wp_put_pnext; [exact Hn|]. cbn [val]. wp_steps.
  set (th' := ThreadPolls _ (poll_pending th)).
  assert (exists c', <[thread x := th']> (threads s) !! current s = Some c' /\
    polls c' = if decide (current s = thread x) then polls th' else polls cur) as (c' & Hc' & Hpc).
  { case_decide as Hd; [rewrite Hd, lookup_insert_eq|rewrite lookup_insert_ne by congruence; rewrite Hcur];
      by eexists. }
  eapply wp_get_thread; [exact Hc'|]. wp_steps. split; [|split; [|split; [|split; [done|split; [done|split; [done|]]]]]].
  - destruct (put_ok own s lf lt i (Link (nth POLL_LVL_TIMER (polls th) None) x)) as [Hf Hfo Ht Hto Hs Hc Hd];
      [done|congruence..|]. cbn in Hf, Ht, Hd. split; cbn -[POLL_LVL_TIMER]; try done.
    + apply owned_give; [|done]. by eapply owned_not; [exact Hfo|exact Hi|].
    + apply owned_give; [|done]. by eapply owned_not; [exact Hto|exact Hi|].
    + intros j Hj. rewrite give_ne; [by apply Hd|]. intros ->. by rewrite lookup_insert_eq in Hj.
  - intros t tt' Ht'. cbn -[POLL_LVL_TIMER NR_POLL_LVL] in Ht' |- *.
    assert (Ho : forall l : list tcell, owned own (Polled t) l -> i ∉ l.*1).
    { intros l Hl. eapply owned_not; [exact Hl|exact Hi|done]. }
    assert (polls tt' = (if decide (t = thread x) then polls th' else
              match threads s !! t with Some q => polls q | None => [] end) /\ is_Some (threads s !! t)) as [Hpt [q Hq]].
    { destruct (decide (t = current s)) as [->|Hne].
      - rewrite lookup_insert_eq in Ht'. injection Ht' as <-. cbn [polls]. rewrite Hpc, Hcur. split; [done|by eexists].
      - rewrite lookup_insert_ne in Ht' by congruence. destruct (decide (t = thread x)) as [->|Hd].
        + rewrite lookup_insert_eq in Ht'. injection Ht' as <-. split; [done|by eexists].
        + rewrite lookup_insert_ne in Ht' by congruence. rewrite Ht'. split; [done|by eexists]. }
    destruct (Hlp _ _ Hq) as (Hlq & Hchq & Hoq). rewrite Hpt. destruct (decide (t = thread x)) as [->|Hd].
    + rewrite Hth in Hq. injection Hq as <-. cbn [polls th'].
      split; [by rewrite length_insert|]. rewrite nth_insert_eq by (rewrite Hlen; unfold POLL_LVL_TIMER, NR_POLL_LVL; lia).
      split; [apply chain_cons; [by apply Ho|done]|apply owned_give_cons; [by apply Ho|done]].
    + rewrite Hq. split; [done|]. split; [apply chain_insert_ne; [by apply Ho|done]|apply owned_give; [by apply Ho|done]].
  - intros j Hj. cbn -[POLL_LVL_TIMER]. by rewrite lookup_insert_ne.
  - intros t Ht. cbn -[POLL_LVL_TIMER]. apply lookup_insert_is_Some'. right. by apply lookup_insert_is_Some'; right.
Qed.

(** Poll lists and structures in flight, other than [i], survive what leaves
    the other held structures alone. *)
Definition frames (i : nat) (own : nat -> owner) (s : timers) (own' : nat -> owner) (s' : timers) : Prop :=
  forall j, held (own j) = true -> j <> i -> own' j = own j /\ nodes s' !! j = nodes s !! j.

Lemma keeps_frames i own s own' s' : keeps own s own' s' -> frames i own s own' s'.
Proof. intros Hk j Hj _. by apply Hk. Qed.

Lemma frames_put i own s n : frames i own s own (set_nodes (<[i := n]> (nodes s)) s).
Proof. intros j _ Hj. cbn. by rewrite lookup_insert_ne. Qed.

Lemma poll_lists_frame i own s own' s' lp :
  poll_lists own s lp -> own i = Flight -> frames i own s own' s' -> threads s' = threads s ->
  poll_lists own' s' lp.
Proof.
  intros Hlp Hi Hfr Hth t th Ht. rewrite Hth in Ht. destruct (Hlp _ _ Ht) as (Hlen & Hch & Hown).
  assert (Hj : forall j, j ∈ (lp t).*1 -> own' j = own j /\ nodes s' !! j = nodes s !! j).
  { intros j Hj. pose proof (owned_elem _ _ _ _ Hown Hj) as Ho. apply Hfr; [by rewrite Ho|congruence]. }
  split; [done|]. split; [eapply chain_frame; [exact Hch|]; intros j ?; by apply Hj|].
  destruct Hown as [Hnd Hf]. split; [done|]. rewrite list.Forall_forall in Hf |- *.
  intros j Hjl. destruct (Hj j Hjl) as [-> _]. by apply Hf.
Qed.

Lemma flying_frame k i own s own' s' fl :
  flying k own s fl -> i ∉ fl.*1 -> frames i own s own' s' -> flying k own' s' fl.
Proof.
  intros [Hnd Hf] Hi Hfr. split; [done|]. rewrite list.Forall_forall in Hf |- *.
  intros c Hc. destruct (Hf c Hc) as (Ho & Hco & Hn).
  destruct (Hfr (fst c)) as [-> ->]; [by rewrite Ho| |done].
  intros <-. apply Hi. by apply list_elem_of_fmap_2.
Qed.

Lemma poll_lists_ext own s lp lp' : poll_lists own s lp -> (forall t, lp t = lp' t) -> poll_lists own s lp'.
Proof. intros Hlp He t th Ht. rewrite <- He. by apply Hlp. Qed.

Section run.
Context (body : Z -> Z -> Z -> M timers unit) `{!TimerClient body}.

(** Everything that holds of the state while the softirq calls back [fl]. *)
Record running (k : Z) (own : nat -> owner) (s : timers) (lf lt : list tcell) (lp : Z -> list tcell)
    (fl : list tcell) : Prop := {
  rn_ok : timers_ok own s lf lt;
  rn_fly : flying k own s fl;
  rn_polls : poll_lists own s lp;
  rn_threads : threads_ok s fl
}.

(** Running a callback on a structure in flight and freeing the structure. *)
Lemma call_free_ok k own s lf lt lp i nx x fl :
  running k own s lf lt lp fl -> own i = Flight -> i ∉ fl.*1 -> nodes s !! i = Some (Link nx x) ->
  wp (call body x ;;; free_poll (Some i)) s (fun _ s' => exists own' lf' lt',
    running k own' s' lf' lt' lp fl /\ sublist lt lt' /\
    calls s' = calls s ++ [(callback x, deadline x, param x)] /\ current s' = current s /\
    (exists a, armed s' = a ++ armed s) /\ own' i = Free /\ frames i own s own' s' /\ threads s' = threads s).
Proof.
  intros [Hok Hfly Hlp Hth] Hi Hif Hn. unfold call. wp_steps.
  eapply wp_mono; [apply (client_ok _ _ _ own _ lf lt); by destruct Hok|].
  cbn beta. intros _ s1 (own1 & lf1 & lt1 & Hok1 & [Ko Kn Kt Kc Ka Kl] & Hsub).
  cbn in Ko, Kt, Kc, Ka, Kl.
  assert (Hi1 : own1 i = Flight).
  { destruct (Ko i) as [-> _]; [by rewrite Hi|done]. }
  eapply free_poll_ok; [exact Hok1|done|]. intros h y Hok2 Hh.
  assert (Hfr : frames i own s (give i Free own1) (set_pfree (Some i) (set_nodes h s1))).
  { intros j Hj Hji. rewrite give_ne by done. cbn. rewrite Hh by done. by apply Ko. }
  exists (give i Free own1), ((i, y) :: lf1), lt1. split; [split|].
  - done.
  - by eapply flying_frame.
  - by eapply poll_lists_frame.
  - unfold threads_ok. cbn. by rewrite Kt, Kc.
  - cbn. rewrite give_eq. done.
Qed.

Lemma timer_cb_ok own s lf lt lp c fl :
  running 1 own s lf lt lp (c :: fl) ->
  wp (timer_cb body (Some (fst c))) s (fun _ s' => exists own' lf' lt',
    running 1 own' s' lf' lt' (fun t => queued t [c] ++ lp t) fl /\ sublist lt lt' /\
    calls s' = calls s ++ called [c] /\ exists a, armed s' = a ++ armed s).
Proof.
  destruct c as [i x]. intros [Hok [Hnd Hfl] Hlp [Hcur Hth]]. cbn [fst snd].
  cbn in Hnd. apply list.NoDup_cons in Hnd as [Hif Hnd].
  apply list.Forall_cons in Hfl as [(Hi & Hx & nx & Hn) Hfl]. cbn in Hi, Hx, Hn.
  apply list.Forall_cons in Hth as [Htx Hth].
  unfold timer_cb. wp_steps. eapply put_val_ok; [exact Hok|done|].
  intros nx' x' Hn'. rewrite Hn in Hn'. injection Hn' as <- <-. intros Hok1.
  set (s1 := set_nodes _ s) in *. set (x1 := set_count (count x - 1) x) in *.
  assert (Hn1 : nodes s1 !! i = Some (Link nx x1)) by (apply lookup_insert_eq).
  assert (Hlp1 : poll_lists own s1 lp) by (eapply poll_lists_frame; [done|done|apply frames_put|done]).
  assert (Hfl1 : flying 1 own s1 fl) by (eapply flying_frame; [by split|done|apply frames_put]).
  wp_steps. eapply wp_get; [exact Hn1|]. wp_steps. apply wp_kassert; [cbn; lia|]. cbn [val].
  change (is_poll x1) with (is_poll x). unfold called, queued. destruct (is_poll x) eqn:Hp.
  - eapply wp_mono; [eapply thread_add_poll_ok; [exact Hok1|exact Hi|exact Hn1|exact Hlp1|done|by apply Htx]|].
    cbn beta. intros _ s2 (Hok2 & Hlp2 & Hfr & Hca & Har & Hcu & Hts).
    assert (Hfr' : frames i own s1 (give i (Polled (thread x1)) own) s2).
    { intros j Hj Hji. rewrite give_ne by done. split; [done|]. by apply Hfr. }
    eexists _, lf, lt. split; [split; [exact Hok2|by eapply flying_frame| |]|].
    + eapply poll_lists_ext; [exact Hlp2|]. intros t.
      unfold x1. cbn [thread set_count].
      destruct (decide (t = thread x)) as [->|Hne].
      * rewrite filter_cons_True by done. cbn. by rewrite Hx.
      * rewrite filter_cons_False by (cbn; naive_solver). done.
    + split; [rewrite Hcu; by apply Hts|]. eapply list.Forall_impl; [exact Hth|]. intros d Hd Hpd. by apply Hts, Hd.
    + split; [done|]. split; [|exists []; by rewrite Har].
      rewrite filter_cons_False by (cbn; congruence). cbn. by rewrite app_nil_r, Hca.
  - eapply wp_mono; [eapply (call_free_ok 1 own s1 lf lt lp i nx x1 fl); [split; try done|done|done|done]|].
    cbn beta. intros _ s2 (own2 & lf2 & lt2 & [Hok2 Hfl2 Hlp2 Hth2] & Hsub & Hca & Hcu & Har & _).
    exists own2, lf2, lt2. split; [split; [done|done| |done]|].
    + eapply poll_lists_ext; [exact Hlp2|]. intros t. rewrite filter_cons_False by (cbn; naive_solver congruence). done.
    + split; [done|]. split; [|done]. rewrite filter_cons_True by done. cbn. exact Hca.
Qed.

Lemma called_app l1 l2 : called (l1 ++ l2) = called l1 ++ called l2.
Proof. unfold called. by rewrite list.filter_app, fmap_app. Qed.
Lemma queued_app t l1 l2 : queued t (l1 ++ l2) = queued t l1 ++ queued t l2.
Proof. unfold queued. by rewrite list.filter_app, fmap_app. Qed.
Lemma queued_one_rev t c : rev (queued t [c]) = queued t [c].
Proof.
  unfold queued. destruct (decide (is_poll (snd c) = true /\ thread (snd c) = t)).
  - by rewrite filter_cons_True.
  - by rewrite filter_cons_False.
Qed.

Lemma run_all_ok own s lf lt lp fl :
  running 1 own s lf lt lp fl ->
  wp (run_all body ((fun c => Some (fst c)) <$> fl)) s (fun _ s' => exists own' lf' lt',
    running 1 own' s' lf' lt' (fun t => rev (queued t fl) ++ lp t) [] /\ sublist lt lt' /\
    calls s' = calls s ++ called fl /\ exists a, armed s' = a ++ armed s).
Proof.
  revert own s lf lt lp. induction fl as [|c fl IH]; intros own s lf lt lp Hr; cbn [fmap list_fmap run_all].
  - apply wp_ret. exists own, lf, lt. split; [done|]. split; [done|]. split; [by rewrite app_nil_r|by exists []].
  - wp_steps. eapply wp_mono; [by eapply timer_cb_ok|]. cbn beta.
    intros _ s1 (own1 & lf1 & lt1 & Hr1 & Hsub1 & Hca1 & a1 & Har1).
    eapply wp_mono; [eapply IH; exact Hr1|]. cbn beta.
    intros _ s2 (own2 & lf2 & lt2 & Hr2 & Hsub2 & Hca2 & a2 & Har2).
    exists own2, lf2, lt2. split; [|split; [by etrans|split]].
    + destruct Hr2 as [? ? Hlp2 ?]. split; try done. eapply poll_lists_ext; [exact Hlp2|].
      intros t. cbn beta. change (c :: fl) with ([c] ++ fl). by rewrite queued_app, rev_app_distr, queued_one_rev, assoc by apply _.
    + rewrite Hca2, Hca1. change (c :: fl) with ([c] ++ fl). by rewrite called_app, assoc by apply _.
    + exists (a2 ++ a1). by rewrite Har2, Har1, assoc by apply _.
Qed.
End run.

(** ** The softirq *)

(** At most [k] due timeouts from the front of the list. *)
Fixpoint due_of (k : nat) (now : Z) (l : list tcell) : list tcell :=
  match k, l with
  | S k', c :: l' => if dl c <=? now then c :: due_of k' now l' else []
  | _, _ => []
  end.
Definition not_due (k : nat) (now : Z) (l : list tcell) : list tcell := drop (length (due_of k now l)) l.

Lemma due_of_app k now l : l = due_of k now l ++ not_due k now l.
Proof.
  unfold not_due. revert l. induction k as [|k IH]; intros [|c l]; cbn; try done.
  destruct (_ <=? _); cbn; [|done]. f_equal. apply IH.
Qed.

Lemma due_of_due k now l : Forall (fun c => dl c <= now) (due_of k now l).
Proof.
  revert l. induction k as [|k IH]; intros [|c l]; cbn; try constructor.
  destruct (Z.leb_spec (dl c) now); [|done]. by constructor.
Qed.

Lemma not_due_later k now l :
  StronglySorted before l -> (length (due_of k now l) < k)%nat -> Forall (fun c => now < dl c) (not_due k now l).
Proof.
  unfold not_due. revert k. induction l as [|c l IH]; intros [|k] Hs; cbn; [lia|constructor|lia|].
  apply StronglySorted_inv in Hs as [Hs Hc].
  destruct (Z.leb_spec (dl c) now); cbn; intros Hk; [apply IH; [done|lia]|].
  constructor; [done|]. eapply list.Forall_impl; [exact Hc|]. unfold before. lia.
Qed.

Lemma take_due_spec k now s i x l :
  chain (nodes s) (Some i) ((i, x) :: l) None ->
  exists e ne, take_due k now (Some i) s = Done ((Some e, (fun c => Some (fst c)) <$> due_of k now l), s) /\
    nodes s !! e = Some ne /\ chain (nodes s) (pnext ne) (not_due k now l) None.
Proof.
  unfold not_due. revert i x l. induction k as [|k IH]; intros i x l (_ & nx & Hi & Hl); cbn;
    unfold bind, get; cbn; rewrite Hi; cbn.
  - exists i, (Link nx x). destruct l as [|[j y] l]; [cbn in Hl; by subst nx|].
    pose proof Hl as (-> & nj & Hj & _). by rewrite Hj.
  - destruct l as [|[j y] l]; [exists i, (Link nx x); cbn in Hl; by subst nx|].
    pose proof Hl as (-> & nj & Hj & Hl'). rewrite Hj. cbn. unfold dl. cbn.
    destruct (deadline y <=? now) eqn:Hd; [|by exists i, (Link (Some j) x)].
    destruct (IH j y l Hl) as (e & ne & -> & He & Hch). exists e, ne. by split.
Qed.

(** The owner function after [l] was taken off its list. *)
Definition fly (l : list tcell) (own : nat -> owner) : nat -> owner :=
  fun i => if decide (i ∈ l.*1) then Flight else own i.

Lemma fly_eq l own i : i ∈ l.*1 -> fly l own i = Flight.
Proof. intros Hi. unfold fly. by rewrite decide_True. Qed.
Lemma fly_ne l own i : i ∉ l.*1 -> fly l own i = own i.
Proof. intros Hi. unfold fly. by rewrite decide_False. Qed.

Lemma owned_fly own o (l l' : list tcell) : owned own o l -> (forall i, i ∈ l.*1 -> i ∉ l'.*1) -> owned (fly l' own) o l.
Proof.
  intros [Hnd Hf] Hd. split; [done|]. rewrite list.Forall_forall in Hf |- *.
  intros i Hi. rewrite fly_ne by by apply Hd. by apply Hf.
Qed.

Lemma chain_flying h p l q k own s :
  chain h p l q -> nodes s = h -> NoDup l.*1 -> Forall (fun c => count (snd c) = k) l ->
  flying k (fly l own) s l.
Proof.
  intros Hch <- Hnd Hc. split; [done|]. rewrite list.Forall_forall in Hc |- *.
  intros [i x] Hin. split; [apply fly_eq; by apply (list_elem_of_fmap_2 fst) in Hin|]. split; [by apply Hc|].
  apply list_elem_of_split in Hin as (l1 & l2 & ->). apply chain_lookup in Hch as (nx & Hi & _). by exists nx.
Qed.

(** Taking the due timeouts off the list. *)
Lemma taken_ok own s lf l1 l2 lp p a (b : bool) :
  timers_ok own s lf (l1 ++ l2) -> poll_lists own s lp -> threads_ok s (l1 ++ l2) ->
  chain (nodes s) p l2 None ->
  running 1 (fly l1 own) (set_irqs b (set_armed a (set_ptimer p s))) lf l2 lp l1.
Proof.
  intros [Hf Hfo Ht Hto Hs Hc Hd] Hlp [Hcu Hth] Hp.
  pose proof Hto as [Hto1 [Hto2 Hdis]]%owned_app. apply list.Forall_app in Hc as [Hc1 Hc2].
  split; [split; cbn| | |]; try done.
  - apply owned_fly; [done|]. intros i. by eapply (owned_disjoint own Free Armed).
  - apply owned_fly; [done|]. intros i Hi Hi'. by apply (Hdis i).
  - clear -Hs. induction l1 as [|c l1 IH]; [done|]. apply StronglySorted_inv in Hs as [Hs _]. by apply IH.
  - intros i Hi. rewrite fly_ne; [by apply Hd|]. intros Hin.
    apply chain_app in Ht as (r & Ht & _). destruct (chain_elem _ _ _ _ _ Ht Hin) as [? Hi']. congruence.
  - apply chain_app in Ht as (r & Ht & _).
    eapply chain_flying; [exact Ht|done|by destruct Hto1|done].
  - intros t th Htt. cbn in Htt. destruct (Hlp _ _ Htt) as (Hlen & Hch & Hown). split; [done|]. split; [done|].
    apply owned_fly; [done|]. intros i. by eapply (owned_disjoint own (Polled t) Armed).
  - split; [done|]. by apply list.Forall_app in Hth as [Hth _].
Qed.

Section softirq.
Context (body : Z -> Z -> Z -> M timers unit) `{!TimerClient body}.

Lemma run_hrtimer_softirq_ok own s lf lt lp :
  timers_ok own s lf lt -> poll_lists own s lp -> threads_ok s lt ->
  wp (run_hrtimer_softirq body) s (fun _ s' => exists own' lf' lt',
    let due := due_of 20 (uptime s) lt in let rest := not_due 20 (uptime s) lt in
    timers_ok own' s' lf' lt' /\ sublist rest lt' /\ calls s' = calls s ++ called due /\
    poll_lists own' s' (fun t => rev (queued t due) ++ lp t) /\
    exists a, armed s' = a ++ match due, rest with _ :: _, d :: _ => [wrap64 (dl d - uptime s)] | _, _ => [] end ++ armed s).
Proof.
  intros Hok Hlp Hth. unfold run_hrtimer_softirq, hrt_uptime. wp_steps.
  assert (Hnone : forall rest : list tcell, due_of 20 (uptime s) lt = [] -> wp (ret tt) s (fun _ s' => exists own' lf' lt',
    let due := due_of 20 (uptime s) lt in let rest := not_due 20 (uptime s) lt in
    timers_ok own' s' lf' lt' /\ sublist rest lt' /\ calls s' = calls s ++ called due /\
    poll_lists own' s' (fun t => rev (queued t due) ++ lp t) /\
    exists a, armed s' = a ++ match due, rest with _ :: _, d :: _ => [wrap64 (dl d - uptime s)] | _, _ => [] end ++ armed s)).
  { intros _ He. apply wp_ret. exists own, lf, lt. unfold not_due. rewrite He. cbn.
    split; [done|]. split; [done|]. split; [by rewrite app_nil_r|]. split; [done|by exists []]. }
  pose proof (ok_timer _ _ _ _ Hok) as Ht. destruct lt as [|[i x] lt].
  { cbn in Ht. rewrite Ht. by apply (Hnone []). }
  pose proof Ht as (Hp & nx & Hi & Ht'). rewrite Hp. wp_steps. eapply wp_get; [exact Hi|]. cbn [val].
  destruct (Z.ltb_spec (uptime s) (deadline x)) as [Hlt|Hle].
  { apply (Hnone []). cbn. unfold dl. cbn. destruct (Z.leb_spec (deadline x) (uptime s)); [lia|done]. }
  assert (Hdue : due_of 20 (uptime s) ((i, x) :: lt) = (i, x) :: due_of 19 (uptime s) lt).
  { cbn. unfold dl at 1. cbn. destruct (Z.leb_spec (deadline x) (uptime s)); [done|lia]. }
  assert (Hnd : not_due 20 (uptime s) ((i, x) :: lt) = not_due 19 (uptime s) lt).
  { unfold not_due. by rewrite Hdue. }
  pose proof (due_of_app 20 (uptime s) ((i, x) :: lt)) as Hsp. rewrite Hnd, Hdue in *. clear Hnone.
  unfold local_irq_disable, local_irq_enable, set_next_event. wp_steps. rewrite Hp in Ht.
  destruct (take_due_spec 19 (uptime s) (set_irqs false s) i x lt Ht) as (e & ne & Htk & He & Hch).
  unfold wp at 1. rewrite Htk. cbv beta iota. wp_steps. cbn [fst snd]. eapply wp_get; [exact He|]. wp_steps.
  rewrite Hsp in Hok, Hth. set (rest := not_due 19 (uptime s) lt) in *.
  set (due := (i, x) :: due_of 19 (uptime s) lt) in *.
  set (ar := match rest with d :: _ => [wrap64 (dl d - uptime s)] | _ => [] end ++ armed s).
  assert (Hrun : wp (run_all body ((fun c => Some (fst c)) <$> due))
    (set_irqs true (set_armed ar (set_ptimer (pnext ne) s))) (fun _ s' => exists own' lf' lt',
    timers_ok own' s' lf' lt' /\ sublist rest lt' /\ calls s' = calls s ++ called due /\
    poll_lists own' s' (fun t => rev (queued t due) ++ lp t) /\ exists a, armed s' = a ++ ar)).
  { eapply wp_mono; [apply (run_all_ok body (fly due own) _ lf rest lp due), (taken_ok own s lf due rest lp); done|]. cbn beta.
    intros _ s' (own' & lf' & lt' & [Hok' _ Hlp' _] & Hsub & Hca & Har). by exists own', lf', lt'. }
  destruct rest as [|[j y] rest'] eqn:Hrest.
  - cbn in Hch. rewrite Hch. wp_steps. rewrite Hch in Hrun. exact Hrun.
  - destruct Hch as (Hne & nj & Hj & _). rewrite Hne. wp_steps. eapply wp_get; [exact Hj|]. wp_steps.
    rewrite Hne in Hrun. exact Hrun.
Qed.
End softirq.

(** ** A thread runs its polls *)
Section polls.
Context (body : Z -> Z -> Z -> M timers unit) `{!TimerClient body}.

Lemma poll_list_ok k fl : forall fuel own s lf lt lp p,
  running k own s lf lt lp fl -> chain (nodes s) p fl None ->
  Forall (fun c => handle (snd c) = timeout_poll_handle) fl -> (length fl <= fuel)%nat ->
  wp (poll_list body fuel p) s (fun _ s' => exists own' lf' lt',
    running k own' s' lf' lt' lp [] /\ sublist lt lt' /\
    calls s' = calls s ++ (call_of <$> fl) /\ exists a, armed s' = a ++ armed s).
Proof.
  induction fl as [|[i x] fl IH]; intros fuel own s lf lt lp p Hr Hch Hh Hf.
  { cbn in Hch. subst p. destruct fuel; apply wp_ret; exists own, lf, lt;
      (split; [done|]); (split; [done|]); (split; [by rewrite app_nil_r|by exists []]). }
  destruct fuel as [|fuel]; [cbn in Hf; lia|].
  destruct Hch as (-> & nx & Hi & Hch). apply list.Forall_cons in Hh as [Hhx Hh]. cbn in Hhx.
  destruct Hr as [Hok [Hnd Hfl] Hlp [Hcu Hth]]. cbn in Hnd. apply list.NoDup_cons in Hnd as [Hif Hnd].
  apply list.Forall_cons in Hfl as [(Ho & Hx & _) Hfl]. cbn in Ho, Hx. apply list.Forall_cons in Hth as [_ Hth].
  cbn [poll_list]. wp_steps. eapply wp_get; [exact Hi|]. wp_steps. eapply wp_put_pnext; [exact Hi|]. wp_steps. cbn [val pnext].
  set (s1 := set_heap _ s). assert (Hi1 : nodes s1 !! i = Some (Link None x)) by apply lookup_insert_eq.
  assert (Hr1 : running k own s1 lf lt lp fl).
  { split; [by apply put_ok; congruence| | |done].
    - eapply flying_frame; [by split|done|apply frames_put].
    - eapply poll_lists_frame; [done|done|apply frames_put|done]. }
  unfold call_handle. wp_steps. eapply wp_get; [exact Hi1|]. wp_steps. cbn [val]. rewrite Hhx.
  unfold timeout_poll. wp_steps. eapply wp_get; [exact Hi1|]. cbn [val]. apply wp_bind_assoc.
  eapply wp_mono; [eapply (call_free_ok body k own s1 lf lt lp i None x fl); done|]. cbn beta.
  intros _ s2 (own2 & lf2 & lt2 & Hr2 & Hsub & Hca & _ & [a Har] & _ & Hfr & _). wp_steps.
  eapply wp_mono; [eapply (IH fuel own2 s2); [exact Hr2| |done|cbn in Hf; lia]|].
  { eapply chain_frame; [exact Hch|]. intros j Hj. assert (j <> i) as Hji by (by intros ->).
    destruct (Hfr j) as [_ ->]; [|done|cbn; by rewrite lookup_insert_ne].
    apply list_elem_of_fmap in Hj as (c & -> & Hc). rewrite list.Forall_forall in Hfl.
    by destruct (Hfl c Hc) as [-> _]. }
  cbn beta. intros _ s3 (own3 & lf3 & lt3 & Hr3 & Hsub3 & Hca3 & a3 & Har3). exists own3, lf3, lt3.
  split; [done|]. split; [by etrans|]. split; [|exists (a3 ++ a)].
  - rewrite Hca3, Hca. cbn [fmap list_fmap]. by rewrite <- (assoc_L (++)).
  - rewrite Har3, Har. by rewrite assoc by apply _.
Qed.

(** What is queued on thread [t] by this file. *)
Definition timeouts_of (t : Z) (l : list tcell) : Prop :=
  Forall (fun c => handle (snd c) = timeout_poll_handle /\ count (snd c) = 0 /\ thread (snd c) = t) l.

Lemma polls_taken own s lf lt lp t th :
  timers_ok own s lf lt -> poll_lists own s lp -> is_Some (threads s !! current s) ->
  threads s !! t = Some th -> timeouts_of t (lp t) ->
  running 0 (fly (lp t) own)
    (set_irqs true (set_threads (<[t := ThreadPolls (replicate NR_POLL_LVL None) 0]> (threads s)) (set_irqs false s)))
    lf lt (fun u => if decide (u = t) then [] else lp u) (lp t).
Proof.
  intros [Hf Hfo Ht Hto Hs Hc Hd] Hlp Hcu Hth Ho. destruct (Hlp _ _ Hth) as (Hlen & Hch & Hown).
  split; [split; cbn -[NR_POLL_LVL]; try done| | |].
  - apply owned_fly; [done|]. intros i. by eapply (owned_disjoint own Free (Polled t)).
  - apply owned_fly; [done|]. intros i. by eapply (owned_disjoint own Armed (Polled t)).
  - intros i Hi. rewrite fly_ne; [by apply Hd|]. intros Hin.
    destruct (chain_elem _ _ _ _ _ Hch Hin) as [? Hi']. congruence.
  - eapply chain_flying; [exact Hch|done|by destruct Hown|]. eapply list.Forall_impl; [exact Ho|]. naive_solver.
  - intros u thu Hu. cbn -[NR_POLL_LVL] in Hu |- *. destruct (decide (u = t)) as [->|Hne].
    + rewrite lookup_insert_eq in Hu. injection Hu as <-. split; [done|]. split; [done|]. apply owned_nil.
    + rewrite lookup_insert_ne in Hu by done. destruct (Hlp _ _ Hu) as (? & ? & Hou). split; [done|]. split; [done|].
      apply owned_fly; [done|]. intros i. eapply (owned_disjoint own (Polled u) (Polled t)); [done|done|congruence].
  - split; cbn -[NR_POLL_LVL]; [by apply lookup_insert_is_Some'; right|].
    eapply list.Forall_impl; [exact Ho|]. intros c (_ & _ & ->) _. rewrite lookup_insert_eq. by eexists.
Qed.

Lemma can_main_run_ok own s lf lt lp t h pend :
  timers_ok own s lf lt -> poll_lists own s lp -> is_Some (threads s !! current s) ->
  threads s !! t = Some (ThreadPolls (<[POLL_LVL_TIMER := h]> (replicate NR_POLL_LVL None)) pend) ->
  timeouts_of t (lp t) ->
  wp (can_main_run body t) s (fun r s' => exists own' lf' lt',
    r = bool_decide (lp t <> []) /\ timers_ok own' s' lf' lt' /\ sublist lt lt' /\
    calls s' = calls s ++ (call_of <$> lp t) /\
    poll_lists own' s' (fun u => if decide (u = t) then [] else lp u)).
Proof.
  intros Hok Hlp Hcu Hth Ho. pose proof (polls_taken _ _ _ _ _ _ _ Hok Hlp Hcu Hth Ho) as Hr.
  destruct (Hlp _ _ Hth) as (_ & Hch & Hown). cbn [polls] in Hch. rewrite nth_insert_eq in Hch by (unfold POLL_LVL_TIMER, NR_POLL_LVL; cbn; lia).
  unfold can_main_run, local_irq_disable, local_irq_enable, put_thread. wp_steps.
  eapply wp_get_thread; [exact Hth|]. wp_steps. revert Hr. set (s1 := set_irqs true _). intros Hr.
  cbn [polls NR_POLL_LVL replicate POLL_LVL_TIMER insert list_insert poll_levels]. wp_steps.
  destruct (lp t) as [|[i x] l] eqn:Hl.
  { cbn in Hch. subst h. wp_steps. exists (fly [] own), lf, lt. destruct Hr as [Hok' _ Hlp' _].
    split; [done|]. split; [exact Hok'|]. split; [done|]. split; [cbn; by rewrite app_nil_r|exact Hlp']. }
  pose proof Hch as (-> & _). unfold do_poll_head, list_fuel. wp_steps.
  eapply wp_mono; [eapply (poll_list_ok 0 ((i, x) :: l)); [exact Hr|exact Hch| |]|].
  - eapply list.Forall_impl; [exact Ho|]. naive_solver.
  - pose proof (chain_length _ _ _ _ Hch (proj1 Hown)). change (nodes s1) with (nodes s). lia.
  - cbn beta. intros _ s2 (own2 & lf2 & lt2 & [Hok2 _ Hlp2 _] & Hsub & Hca & _). wp_steps.
    exists own2, lf2, lt2. split; [done|]. split; [done|]. split; [done|]. split; [exact Hca|exact Hlp2].
Qed.
End polls.

(** ** The theorems *)

(** The owners at start-up, and the initial state. *)
Definition own_init (i : nat) : owner := if (i <? NR_TIMER_BUF)%nat then Free else Unused.
Definition free_init : list tcell := (fun i => (i, zero_timeout)) <$> seq 0 NR_TIMER_BUF.

Lemma init_hrtimer_ok th cur now : timers_ok own_init (init_hrtimer th cur now) free_init [].
Proof.
  assert (Hids : free_init.*1 = seq 0 NR_TIMER_BUF).
  { unfold free_init. rewrite <- list_fmap_compose. apply list_fmap_id. }
  split; cbn -[NR_TIMER_BUF free_init links]; try done.
  - apply links_chain. unfold NR_TIMER_BUF. lia.
  - split; rewrite Hids; [apply NoDup_seq|]. apply list.Forall_forall. intros i Hi%elem_of_seq.
    unfold own_init. destruct (Nat.ltb_spec i NR_TIMER_BUF); [done|lia].
  - apply owned_nil.
  - constructor.
  - intros i Hi. unfold own_init. destruct (Nat.ltb_spec i NR_TIMER_BUF) as [Hlt|]; [|done].
    rewrite links_lookup in Hi by done. done.
Qed.

(** [set_timeout_nsec_cb] either finds no structure, answers ENOMEM and
    changes nothing, or answers 0 and puts one timeout with deadline
    [nsec + hrt_uptime()] in its place in the sorted list; the clock is
    programmed exactly when the new deadline is the earliest, and the interrupt
    flag is restored. *)
Theorem set_timeout_nsec_cb_correct yaos_malloc `{!Malloc yaos_malloc} own s lf lt nsec pfunc prm :
  timers_ok own s lf lt ->
  exists r s', set_timeout_nsec_cb yaos_malloc nsec pfunc prm s = Done (r, s') /\
    ((r = ENOMEM /\ s' = s /\ lf = [] /\ yaos_malloc (nodes s) = None) \/
     (r = 0 /\ exists own' lf' i, let c := (i, Timeout no_handle 0 prm (wrap64 (nsec + uptime s)) pfunc 1) in
       timers_ok own' s' lf' (ins c lt) /\ keeps own s own' s' /\ (i ∉ lt.*1) /\
       irqs s' = irqs s /\ uptime s' = uptime s /\
       armed s' = (if arms c lt then [nsec] else []) ++ armed s)).
Proof.
  intros Hok. pose proof (set_timeout_ok yaos_malloc own s lf lt no_handle 0 nsec pfunc prm Hok) as Hw.
  apply wp_run in Hw as (r & s' & Hrun & HQ). by exists r, s'.
Qed.

Lemma set_timeout_nsec_cb_correct_witness : exists s', 
  set_timeout_nsec_cb (fun _ => None) 5 7 9 (init_hrtimer ∅ 1 100) = Done (0, s') /\ armed s' = [5].
Proof.
  assert (Malloc (fun _ => None)) as Hm by done.
  destruct (set_timeout_nsec_cb_correct (fun _ => None) own_init _ free_init [] 5 7 9 (init_hrtimer_ok ∅ 1 100))
    as (r & s' & Hrun & [(_ & _ & Hl & _)|(-> & own' & lf' & i & _ & _ & _ & _ & _ & Har)]); [done|].
  exists s'. split; [exact Hrun|exact Har].
Defined.

(** C34: the timer softirq calls back, once each and in order of deadline, the
    first 20 timeouts that are due (those of threads are queued on their
    thread's poll list instead, last deadline first); it leaves the others
    armed, whatever the callbacks arm meanwhile, and then programs the clock
    with the distance to the next deadline.  That distance wraps to almost
    2^64 when more than 20 timeouts were due. *)
Theorem run_hrtimer_softirq_correct body `{!TimerClient body} own s lf lt lp :
  timers_ok own s lf lt -> poll_lists own s lp -> threads_ok s lt ->
  let due := due_of 20 (uptime s) lt in
  let rest := not_due 20 (uptime s) lt in
  (exists s' own' lf' lt', run_hrtimer_softirq body s = Done (tt, s') /\
    timers_ok own' s' lf' lt' /\ sublist rest lt' /\ calls s' = calls s ++ called due /\
    poll_lists own' s' (fun t => rev (queued t due) ++ lp t) /\
    exists a, armed s' = a ++ match due, rest with _ :: _, d :: _ => [wrap64 (dl d - uptime s)] | _, _ => [] end ++ armed s) /\
  lt = due ++ rest /\ Forall (fun c => dl c <= uptime s) due /\
  ((length due < 20)%nat -> Forall (fun c => uptime s < dl c) rest).
Proof.
  intros Hok Hlp Hth due rest. split; [|split; [apply due_of_app|split; [apply due_of_due|]]].
  - pose proof (run_hrtimer_softirq_ok body own s lf lt lp Hok Hlp Hth) as Hw.
    apply wp_run in Hw as ([] & s' & Hrun & own' & lf' & lt' & HQ). by exists s', own', lf', lt'.
  - apply not_due_later, Hok.
Qed.

(** One thread without polls. *)
Definition one_thread : gmap Z thread_polls := {[ 1 := ThreadPolls (replicate NR_POLL_LVL None) 0 ]}.

Lemma one_thread_polls own s : threads s = one_thread -> poll_lists own s (fun _ => []).
Proof.
  intros Hs t th Ht. rewrite Hs in Ht. unfold one_thread in Ht. apply lookup_singleton_Some in Ht as [<- <-].
  split; [done|]. split; [done|]. apply owned_nil.
Qed.

Lemma run_hrtimer_softirq_correct_witness : exists s s',
  set_timeout_nsec_cb (fun _ => None) 0 7 9 (init_hrtimer one_thread 1 100) = Done (0, s) /\
  run_hrtimer_softirq (fun _ _ _ => ret tt) s = Done (tt, s') /\ calls s' = [(7, 100, 9)].
Proof.
  assert (Malloc (fun _ => None)) as Hm by done.
  pose proof (set_timeout_ok (fun _ => None) own_init _ free_init [] no_handle 0 0 7 9 (init_hrtimer_ok one_thread 1 100)) as Hw.
  apply wp_run in Hw as (r & s & Hrun & [(_ & _ & Hl & _)|(-> & own' & lf' & i & Hok & Hk & _ & _ & Hup & _)]); [done|].
  destruct (run_hrtimer_softirq_correct (fun _ _ _ => ret tt) own' s lf' _ (fun _ => []) Hok) as [(s' & _ & _ & _ & Hr & _ & _ & Hca & _) _].
  - apply one_thread_polls. by rewrite (kp_threads _ _ _ _ Hk).
  - split; [rewrite (kp_threads _ _ _ _ Hk), (kp_current _ _ _ _ Hk); by eexists|]. by constructor.
  - exists s, s'. split; [exact Hrun|]. split; [exact Hr|]. rewrite Hca, (kp_calls _ _ _ _ Hk), Hup. reflexivity.
Defined.

(** A thread that runs its polls calls every timeout queued on it exactly
    once, in the order of the queue, gives the structures back, leaves its own
    queue empty and those of the other threads as they were, and answers
    whether there was one. *)
Theorem can_main_run_correct body `{!TimerClient body} own s lf lt lp t h pend :
  timers_ok own s lf lt -> poll_lists own s lp -> is_Some (threads s !! current s) ->
  threads s !! t = Some (ThreadPolls (<[POLL_LVL_TIMER := h]> (replicate NR_POLL_LVL None)) pend) ->
  timeouts_of t (lp t) ->
  exists s' own' lf' lt', can_main_run body t s = Done (bool_decide (lp t <> []), s') /\
    timers_ok own' s' lf' lt' /\ sublist lt lt' /\ calls s' = calls s ++ (call_of <$> lp t) /\
    poll_lists own' s' (fun u => if decide (u = t) then [] else lp u).
Proof.
  intros Hok Hlp Hcu Hth Ho. pose proof (can_main_run_ok body own s lf lt lp t h pend Hok Hlp Hcu Hth Ho) as Hw.
  apply wp_run in Hw as (r & s' & Hrun & own' & lf' & lt' & -> & HQ). by exists s', own', lf', lt'.
Qed.

(** A state in which timeout 0 is queued on thread 1. *)
Definition queued_timeout : timeout_callback := Timeout timeout_poll_handle 1 9 100 7 0.
Definition one_queued : timers :=
  Timers {[ 0%nat := Link None queued_timeout ]} None None
    {[ 1 := ThreadPolls (<[POLL_LVL_TIMER := Some 0%nat]> (replicate NR_POLL_LVL None)) 2 ]} 1 [] 100 true 0 [].

Lemma can_main_run_correct_witness : exists s',
  can_main_run (fun _ _ _ => ret tt) 1 one_queued = Done (true, s') /\ calls s' = [(7, 100, 9)].
Proof.
  set (lp := fun t : Z => if decide (t = 1) then [(0%nat, queued_timeout)] else []).
  destruct (can_main_run_correct (fun _ _ _ => ret tt) (fun i => if decide (i = 0)%nat then Polled 1 else Unused)
    one_queued [] [] lp 1 (Some 0%nat) 2) as (s' & _ & _ & _ & Hrun & _ & _ & Hca & _).
  - split; try done; [apply owned_nil|apply owned_nil|constructor|].
    intros i Hi. cbn [nodes one_queued] in Hi. apply lookup_singleton_None in Hi. by rewrite decide_False.
  - intros t th Ht. cbn [threads one_queued] in Ht. apply lookup_singleton_Some in Ht as [<- <-]. split; [done|].
    split; [split; [done|]; by eexists|]. apply owned_cons. split; [done|]. split; [apply not_elem_of_nil|apply owned_nil].
  - by eexists.
  - done.
  - by repeat constructor.
  - by exists s'.
Defined.

(** With more than 20 timeouts due, the clock is programmed centuries ahead:
    the next one waits for somebody else to program it again. *)
Lemma hrtimer_backlog_misarms body `{!TimerClient body} own s lf lt lp d rest :
  timers_ok own s lf lt -> poll_lists own s lp -> threads_ok s lt ->
  due_of 20 (uptime s) lt <> [] -> not_due 20 (uptime s) lt = d :: rest ->
  0 <= dl d < uptime s -> uptime s < 2 ^ 64 ->
  exists s' a, run_hrtimer_softirq body s = Done (tt, s') /\
    armed s' = a ++ [2 ^ 64 - (uptime s - dl d)] ++ armed s.
Proof.
  intros Hok Hlp Hth Hne Hr Hd Hu. pose proof (run_hrtimer_softirq_ok body own s lf lt lp Hok Hlp Hth) as Hw.
  apply wp_run in Hw as ([] & s' & Hrun & own' & lf' & lt' & _ & _ & _ & _ & a & Har). exists s', a.
  split; [done|]. rewrite Hr in Har. destruct (due_of 20 (uptime s) lt); [done|]. rewrite Har.
  do 3 f_equal. unfold wrap64. symmetry. apply (Z.mod_unique _ _ (-1)); lia.
Qed.
