(* ===== verification/Calendar.v ===== *)
(** * Calendar: [mktime64] of kernel/timer.c

    A date of the real-time clock becomes seconds since 1970 by a closed
    formula on unsigned 32-bit words; the specification counts the days year by
    year and month by month. *)
From Stdlib Require Import ZArith Lia.
From stdpp Require Import base tactics.
From S2P Require Import Prelude.

(** ** [mktime64]: a date as seconds since 1970 *)
Definition mktime64 (year0 mon0 day hour min sec : Z) : Z :=
  let mon := wrap32 (mon0 - 2) in
  let '(mon, year) := if to_int mon <=? 0 then (wrap32 (mon + 12), wrap32 (year0 - 1)) else (mon, year0) in
  let days := wrap32 (wrap32 (wrap32 (wrap32 (year / 4 - year / 100) + year / 400) + wrap32 (367 * mon) / 12) + day) in
  wrap64 ((wrap64 (wrap64 (wrap64 (days + wrap32 (year * 365) - 719499) * 24 + hour) * 60 + min)) * 60 + sec).

(** ** The calendar *)
Definition leap (y : Z) : bool := (y mod 4 =? 0) && (negb (y mod 100 =? 0) || (y mod 400 =? 0)).
Definition year_days (y : Z) : Z := if leap y then 366 else 365.
Definition month_days (y m : Z) : Z :=
  if m =? 2 then if leap y then 29 else 28
  else if (m =? 4) || (m =? 6) || (m =? 9) || (m =? 11) then 30 else 31.
Fixpoint sum_days (f : Z -> Z) (from : Z) (n : nat) : Z :=
  match n with O => 0 | S n' => sum_days f from n' + f (from + Z.of_nat n') end.
(** Days from 1 January 1970 to a date, counted year by year and month by month. *)
Definition date_days (y m d : Z) : Z :=
  sum_days year_days 1970 (Z.to_nat (y - 1970)) + sum_days (month_days y) 1 (Z.to_nat (m - 1)) + (d - 1).

Definition leaps (y : Z) : Z := y / 4 - y / 100 + y / 400.

Lemma div_pred y n : 0 < n -> y / n = (y - 1) / n + (if y mod n =? 0 then 1 else 0).
Proof.
  intros Hn. pose proof (Z.div_mod y n ltac:(lia)) as E1. pose proof (Z.mod_pos_bound y n Hn).
  destruct (Z.eqb_spec (y mod n) 0) as [H0|H0].
  - enough ((y - 1) / n = y / n - 1) by lia. symmetry. apply (Z.div_unique _ _ _ (n - 1)); lia.
  - enough ((y - 1) / n = y / n) by lia. symmetry. apply (Z.div_unique _ _ _ (y mod n - 1)); lia.
Qed.

Lemma leaps_pred y : leaps y = leaps (y - 1) + (if leap y then 1 else 0).
Proof.
  unfold leaps, leap. rewrite (div_pred y 4), (div_pred y 100), (div_pred y 400) by lia.
  assert (y mod 400 = 0 -> y mod 100 = 0) by (intros; Z.to_euclidean_division_equations; lia).
  assert (y mod 100 = 0 -> y mod 4 = 0) by (intros; Z.to_euclidean_division_equations; lia).
  destruct (Z.eqb_spec (y mod 4) 0), (Z.eqb_spec (y mod 100) 0), (Z.eqb_spec (y mod 400) 0); cbn; lia.
Qed.

Lemma sum_year_days y : 1970 <= y ->
  sum_days year_days 1970 (Z.to_nat (y - 1970)) = 365 * (y - 1970) + leaps (y - 1) - leaps 1969.
Proof.
  intros Hy. replace y with (1970 + Z.of_nat (Z.to_nat (y - 1970))) at 2 3 by lia.
  induction (Z.to_nat (y - 1970)) as [|n IH]; [done|]. cbn [sum_days]. rewrite IH. unfold year_days.
  replace (1970 + Z.of_nat (S n) - 1) with (1970 + Z.of_nat n) by lia.
  rewrite (leaps_pred (1970 + Z.of_nat n)). destruct (leap _); lia.
Qed.

Definition day_number (y m d : Z) : Z := if m <=? 2
  then leaps (y - 1) + 367 * (m + 10) / 12 + d + (y - 1) * 365 - 719499
  else leaps y + 367 * (m - 2) / 12 + d + y * 365 - 719499.

Lemma sum_month_days y m : 1 <= m <= 12 ->
  sum_days (month_days y) 1 (Z.to_nat (m - 1)) =
    if m <=? 2 then 367 * (m + 10) / 12 - 336 else 367 * (m - 2) / 12 + 29 + (if leap y then 1 else 0).
Proof.
  intros Hm. unfold month_days. destruct (leap y).
  all: assert (m = 1 \/ m = 2 \/ m = 3 \/ m = 4 \/ m = 5 \/ m = 6 \/ m = 7 \/ m = 8 \/ m = 9 \/ m = 10 \/
    m = 11 \/ m = 12) as Hc by lia; repeat destruct Hc as [->|Hc]; try subst m; reflexivity.
Qed.

Lemma day_number_ok y m d : 1970 <= y -> 1 <= m <= 12 -> day_number y m d = date_days y m d.
Proof.
  intros Hy Hm. unfold date_days, day_number. rewrite sum_year_days, sum_month_days by done.
  pose proof (leaps_pred y) as Hl. change (leaps 1969) with 477. destruct (m <=? 2), (leap y); lia.
Qed.

Lemma mktime64_days y m d : 1970 <= y < 2 ^ 23 -> 1 <= m <= 12 -> 1 <= d <= 31 ->
  forall h mi s, 0 <= h < 24 -> 0 <= mi < 60 -> 0 <= s < 60 ->
  mktime64 y m d h mi s = ((day_number y m d * 24 + h) * 60 + mi) * 60 + s.
Proof.
  intros Hy Hm Hd h mi s Hh Hmi Hs. unfold mktime64.
  assert (Hn : forall y', 1969 <= y' < 2 ^ 23 -> forall m', 1 <= m' <= 12 -> 1970 <= y' \/ 11 <= m' ->
    let days := wrap32 (wrap32 (wrap32 (wrap32 (y' / 4 - y' / 100) + y' / 400) + wrap32 (367 * m') / 12) + d) in
    wrap64 (wrap64 (wrap64 (wrap64 (days + wrap32 (y' * 365) - 719499) * 24 + h) * 60 + mi) * 60 + s) =
    (((leaps y' + 367 * m' / 12 + d + y' * 365 - 719499) * 24 + h) * 60 + mi) * 60 + s).
  { intros y' Hy' m' Hm' Hor. unfold leaps, wrap32, wrap64.
    assert (0 <= y' / 100 <= y' / 4) by (Z.to_euclidean_division_equations; lia).
    assert (0 <= y' / 4 <= y') by (Z.to_euclidean_division_equations; lia).
    assert (0 <= y' / 400 <= y') by (Z.to_euclidean_division_equations; lia).
    assert (0 <= 367 * m' / 12 <= 400) by (Z.to_euclidean_division_equations; lia).
    assert (30 <= 367 * m' / 12 /\ (11 <= m' -> 336 <= 367 * m' / 12)) by (Z.to_euclidean_division_equations; lia).
    assert (477 <= y' / 4 - y' / 100 + y' / 400) by (Z.to_euclidean_division_equations; lia).
    rewrite (Z.mod_small (y' / 4 - y' / 100)) by lia. rewrite (Z.mod_small (367 * m')) by lia.
    rewrite (Z.mod_small (_ + y' / 400)) by lia. rewrite (Z.mod_small (_ + 367 * m' / 12)) by lia.
    rewrite (Z.mod_small (_ + d)) by lia. rewrite (Z.mod_small (y' * 365)) by lia.
    rewrite (Z.mod_small (_ - 719499)) by lia. rewrite (Z.mod_small (_ * 24 + h)) by lia.
    rewrite (Z.mod_small (_ * 60 + mi)) by lia. by rewrite Z.mod_small by lia. }
  unfold day_number. destruct (Z.leb_spec m 2).
  - assert (m = 1 \/ m = 2) as [-> | ->] by lia.
    + change (to_int (wrap32 (1 - 2)) <=? 0) with true. cbv iota beta. 
      replace (wrap32 (wrap32 (1 - 2) + 12)) with 11 by reflexivity.
      replace (wrap32 (y - 1)) with (y - 1) by (symmetry; apply Z.mod_small; lia). apply (Hn (y - 1)); lia.
    + change (to_int (wrap32 (2 - 2)) <=? 0) with true. cbv iota beta. 
      replace (wrap32 (wrap32 (2 - 2) + 12)) with 12 by reflexivity.
      replace (wrap32 (y - 1)) with (y - 1) by (symmetry; apply Z.mod_small; lia). apply (Hn (y - 1)); lia.
  - replace (wrap32 (m - 2)) with (m - 2) by (symmetry; apply Z.mod_small; lia).
    rewrite to_int_small by lia. destruct (Z.leb_spec (m - 2) 0); [lia|]. cbv iota beta. apply Hn; lia.
Qed.

(** C35: for every date from 1970 on (years up to 2^23, so that no 32-bit
    product wraps) [mktime64] is the number of seconds since 1 January 1970,
    with the days counted year by year and month by month. *)
Theorem mktime64_correct y m d h mi s :
  1970 <= y < 2 ^ 23 -> 1 <= m <= 12 -> 1 <= d <= 31 ->
  0 <= h < 24 -> 0 <= mi < 60 -> 0 <= s < 60 ->
  mktime64 y m d h mi s = ((date_days y m d * 24 + h) * 60 + mi) * 60 + s.
Proof. intros. rewrite <- day_number_ok by lia. by apply mktime64_days. Qed.

Lemma mktime64_correct_witness : mktime64 2000 2 29 12 30 15 = 951827415.
Proof. rewrite mktime64_correct by lia. reflexivity. Defined.
