(* ===== verification/Softirq.v ===== *)
(** * Softirq: deferred work, kernel/softirq.c and kernel/tasklet.c

    A word of pending softirqs per CPU, the loop that runs them lowest first
    with a bound on restarts, and the two FIFO lists of tasklets that two of
    the softirqs run.  The handlers that other files register and the
    functions of tasklets are the parameters [action] and [tfunc]. *)
From Stdlib Require Import ZArith Lia.
From stdpp Require Import base tactics gmap list option.
From S2P Require Import Prelude Chain PhyMem.

Definition HI_SOFTIRQ : Z := 0.
Definition TASKLET_SOFTIRQ : Z := 6.
Definition NR_SOFTIRQS : nat := 11.
Definition MAX_SOFTIRQ_TIME : Z := 2.
Definition MAX_SOFTIRQ_RESTART : nat := 10.
Definition TASKLET_STATE_SCHED : Z := 0.
Definition TASKLET_STATE_RUN : Z := 1.

(** ** State *)

(** [struct tasklet_struct], behind its link. *)
Record tasklet_struct := Tasklet { state : Z; count : Z; func : Z; data : Z }.
Definition set_state (z : Z) (t : tasklet_struct) : tasklet_struct := Tasklet z (count t) (func t) (data t).

(** [struct tasklet_head]; the tail points at a [next] field, or at the head
    itself ([None]). *)
Record tasklet_head := Head { head : option nat; tail : option nat }.
Inductive which := Lo | Hi.

(** The per-CPU data of both files: the tasklets and their lists, the handler
    table, the pending word, [tasklet_count], the interrupt flag, [msec_count],
    whether the tasklet thread is suspended, and what was called so far. *)
Record percpu := PerCpu {
  tasklets : gmap nat (link tasklet_struct);
  vec : which -> tasklet_head;
  softirq_vec : list (option Z);
  pending : Z;
  tasklet_count : Z;
  irqs : bool;
  msec_count : Z;
  suspended : bool;
  ran : list Z;
  called : list (Z * Z)
}.
Definition set_tasklets (h : gmap nat (link tasklet_struct)) (s : percpu) : percpu :=
  PerCpu h (vec s) (softirq_vec s) (pending s) (tasklet_count s) (irqs s) (msec_count s) (suspended s) (ran s) (called s).
Definition set_vec (w : which) (h : tasklet_head) (s : percpu) : percpu :=
  PerCpu (tasklets s) (fun w' => match w, w' with Lo, Lo | Hi, Hi => h | _, _ => vec s w' end)
    (softirq_vec s) (pending s) (tasklet_count s) (irqs s) (msec_count s) (suspended s) (ran s) (called s).
Definition set_softirq_vec (l : list (option Z)) (s : percpu) : percpu :=
  PerCpu (tasklets s) (vec s) l (pending s) (tasklet_count s) (irqs s) (msec_count s) (suspended s) (ran s) (called s).
Definition set_pending (z : Z) (s : percpu) : percpu :=
  PerCpu (tasklets s) (vec s) (softirq_vec s) z (tasklet_count s) (irqs s) (msec_count s) (suspended s) (ran s) (called s).
Definition set_tasklet_count (z : Z) (s : percpu) : percpu :=
  PerCpu (tasklets s) (vec s) (softirq_vec s) (pending s) z (irqs s) (msec_count s) (suspended s) (ran s) (called s).
Definition set_irqs (b : bool) (s : percpu) : percpu :=
  PerCpu (tasklets s) (vec s) (softirq_vec s) (pending s) (tasklet_count s) b (msec_count s) (suspended s) (ran s) (called s).
Definition set_suspended (b : bool) (s : percpu) : percpu :=
  PerCpu (tasklets s) (vec s) (softirq_vec s) (pending s) (tasklet_count s) (irqs s) (msec_count s) b (ran s) (called s).
Definition set_ran (l : list Z) (s : percpu) : percpu :=
  PerCpu (tasklets s) (vec s) (softirq_vec s) (pending s) (tasklet_count s) (irqs s) (msec_count s) (suspended s) l (called s).
Definition set_called (l : list (Z * Z)) (s : percpu) : percpu :=
  PerCpu (tasklets s) (vec s) (softirq_vec s) (pending s) (tasklet_count s) (irqs s) (msec_count s) (suspended s) (ran s) l.

#[export] Instance percpu_heap : HasHeap percpu tasklet_struct :=
  {| heap := tasklets; set_heap := set_tasklets; heap_set := fun _ _ => eq_refl |}.

Definition local_irq_disable : M percpu unit := modify (set_irqs false).
Definition local_irq_enable : M percpu unit := modify (set_irqs true).
Definition local_irq_save : M percpu bool := b <- gets irqs ;; local_irq_disable ;;; ret b.
Definition local_irq_restore (b : bool) : M percpu unit := modify (set_irqs b).

(** ** Raising *)
Definition local_softirq_pending : M percpu Z := gets pending.
Definition set_softirq_pending (x : Z) : M percpu unit := modify (set_pending x).
Definition or_softirq_pending (x : Z) : M percpu unit := modify (fun s => set_pending (Z.lor (pending s) x) s).
Definition __raise_softirq_irqoff (nr : Z) : M percpu unit := or_softirq_pending (Z.shiftl 1 nr).
Definition raise_softirq_irqoff (nr : Z) : M percpu unit := __raise_softirq_irqoff nr.
Definition raise_softirq (nr : Z) : M percpu unit :=
  flags <- local_irq_save ;;
  raise_softirq_irqoff nr ;;;
  local_irq_restore flags.
Definition open_softirq (nr : nat) (action : Z) : M percpu unit :=
  modify (fun s => set_softirq_vec (<[nr := Some action]> (softirq_vec s)) s).

(** [tasklet_count] starts at -1. *)
Definition in_tasklet : M percpu bool := gets (fun s => 0 <=? tasklet_count s).
Definition disable_tasklet : M percpu unit := modify (fun s => set_tasklet_count (tasklet_count s + 1) s).
Definition enable_tasklet : M percpu unit := modify (fun s => set_tasklet_count (tasklet_count s - 1) s).

(** [wake_up_thread] on a suspended thread clears its flag; when and how it
    runs is the scheduler's. *)
Definition wakeup_taskletd : M percpu unit :=
  b <- gets suspended ;;
  if (b : bool) then modify (set_suspended false) else ret tt.

(** [bsfl] and the addition, on the low 32 bits. *)
Definition ffs (x : Z) : Z := if x mod 2 ^ 32 =? 0 then 0 else __ffs (x mod 2 ^ 32) + 1.

(** ** The softirq loop *)
Section softirq.
Context (action : Z -> M percpu unit).

(** [h->action(h)], for the [h] at index [nr]. *)
Definition call_action (nr : Z) : M percpu unit :=
  v <- gets softirq_vec ;;
  match v !! Z.to_nat nr with
  | Some (Some f) => modify (fun s => set_ran (ran s ++ [nr]) s) ;;; action f
  | _ => fault
  end.

(** [while ((softirq_bit = ffs(pending)))], from handler index [h]. *)
Fixpoint run_pending (fuel : nat) (h p : Z) : M percpu unit :=
  let softirq_bit := ffs p in
  if softirq_bit =? 0 then ret tt
  else
    match fuel with
    | O => out_of_fuel
    | S fuel' =>
        let h' := h + softirq_bit - 1 in
        call_action h' ;;;
        run_pending fuel' (h' + 1) (Z.shiftr p softirq_bit)
    end.

(** The code from [restart:] on; [max_restart] counts down before the test. *)
Fixpoint restart (max_restart : nat) (lim p : Z) : M percpu unit :=
  match max_restart with
  | O => ret tt
  | S max_restart' =>
      set_softirq_pending 0 ;;;
      local_irq_enable ;;;
      run_pending 32 0 p ;;;
      local_irq_disable ;;;
      p' <- local_softirq_pending ;;
      if negb (p' =? 0) then
        now <- gets msec_count ;;
        if (now <? lim) && negb (Nat.eqb max_restart' 0) then restart max_restart' lim p'
        else enable_tasklet ;;; wakeup_taskletd
      else enable_tasklet
  end.
Definition __do_softirq : M percpu unit :=
  now <- gets msec_count ;;
  p <- local_softirq_pending ;;
  disable_tasklet ;;;
  restart MAX_SOFTIRQ_RESTART (wrap64 (now + MAX_SOFTIRQ_TIME)) p.

Definition do_softirq : M percpu unit :=
  b <- in_tasklet ;;
  if (b : bool) then ret tt
  else
    flags <- local_irq_save ;;
    p <- local_softirq_pending ;;
    (if negb (p =? 0) then __do_softirq else ret tt) ;;;
    local_irq_restore flags.
Definition invoke_softirq : M percpu unit := __do_softirq.
Definition irq_enter : M percpu unit := ret tt.
Definition irq_exit : M percpu unit :=
  local_irq_disable ;;;
  b <- in_tasklet ;;
  p <- local_softirq_pending ;;
  if negb b && negb (p =? 0) then invoke_softirq else ret tt.

Definition ksoftirqd_should_run : M percpu Z := local_softirq_pending.
Definition run_ksoftirqd : M percpu Z :=
  local_irq_disable ;;;
  p <- local_softirq_pending ;;
  (if negb (p =? 0) then __do_softirq else ret tt) ;;;
  local_irq_enable ;;;
  ret 0.
End softirq.

(** ** Tasklets *)

(** [*tail = t; tail = &t->next;] after [t->next = NULL]. *)
Definition append_tasklet (w : which) (t : option nat) : M percpu unit :=
  put_pnext t None ;;;
  v <- gets (fun s => vec s w) ;;
  match tail v with
  | None => modify (set_vec w (Head t t))
  | Some i => put_pnext (Some i) t ;;; modify (set_vec w (Head (head v) t))
  end.
Definition softirq_of (w : which) : Z := match w with Lo => TASKLET_SOFTIRQ | Hi => HI_SOFTIRQ end.
Definition schedule_on (w : which) (t : option nat) : M percpu unit :=
  flags <- local_irq_save ;;
  append_tasklet w t ;;;
  raise_softirq_irqoff (softirq_of w) ;;;
  local_irq_restore flags.
Definition __tasklet_schedule : option nat -> M percpu unit := schedule_on Lo.
Definition __tasklet_hi_schedule : option nat -> M percpu unit := schedule_on Hi.
Definition __tasklet_hi_schedule_first (t : option nat) : M percpu unit :=
  b <- gets irqs ;;
  kassert (negb b) ;;;
  v <- gets (fun s => vec s Hi) ;;
  put_pnext t (head v) ;;;
  modify (set_vec Hi (Head t (tail v))) ;;;
  __raise_softirq_irqoff HI_SOFTIRQ.

(** The bit operations on [t->state]: the old bit. *)
Definition test_and_set_bit (nr : Z) (t : option nat) : M percpu bool :=
  n <- get t ;;
  put_val t (set_state (Z.setbit (state (val n)) nr)) ;;;
  ret (Z.testbit (state (val n)) nr).
Definition test_and_clear_bit (nr : Z) (t : option nat) : M percpu bool :=
  n <- get t ;;
  put_val t (set_state (Z.clearbit (state (val n)) nr)) ;;;
  ret (Z.testbit (state (val n)) nr).
Definition tasklet_trylock (t : option nat) : M percpu bool :=
  b <- test_and_set_bit TASKLET_STATE_RUN t ;; ret (negb b).
Definition tasklet_unlock (t : option nat) : M percpu unit :=
  put_val t (fun x => set_state (Z.clearbit (state x) TASKLET_STATE_RUN) x).

Definition tasklet_schedule (t : option nat) : M percpu unit :=
  b <- test_and_set_bit TASKLET_STATE_SCHED t ;;
  if (b : bool) then ret tt else __tasklet_schedule t.
Definition tasklet_hi_schedule (t : option nat) : M percpu unit :=
  b <- test_and_set_bit TASKLET_STATE_SCHED t ;;
  if (b : bool) then ret tt else __tasklet_hi_schedule t.
Definition tasklet_hi_schedule_first (t : option nat) : M percpu unit :=
  b <- test_and_set_bit TASKLET_STATE_SCHED t ;;
  if (b : bool) then ret tt else __tasklet_hi_schedule_first t.
Definition tasklet_disable_nosync (t : option nat) : M percpu unit :=
  put_val t (fun x => Tasklet (state x) (count x + 1) (func x) (data x)).
Definition tasklet_enable (t : option nat) : M percpu unit :=
  put_val t (fun x => Tasklet (state x) (count x - 1) (func x) (data x)).
Definition tasklet_init (t : option nat) (f d : Z) : M percpu unit :=
  put t (fun _ => Link None (Tasklet 0 0 f d)).

Section tasklets.
Context (tfunc : Z -> Z -> M percpu unit).

(** [t->func(t->data)] *)
Definition call_tasklet (x : tasklet_struct) : M percpu unit :=
  modify (fun s => set_called (called s ++ [(func x, data x)]) s) ;;;
  tfunc (func x) (data x).

(** One tasklet of the list taken by the action. *)
Definition run_tasklet (w : which) (t : option nat) : M percpu unit :=
  l <- tasklet_trylock t ;;
  requeue <- (if (l : bool) then
      n <- get t ;;
      if count (val n) =? 0 then
        old <- test_and_clear_bit TASKLET_STATE_SCHED t ;;
        kassert old ;;;
        call_tasklet (val n) ;;;
        tasklet_unlock t ;;;
        ret false
      else tasklet_unlock t ;;; ret true
    else ret true) ;;
  if (requeue : bool) then
    local_irq_disable ;;;
    append_tasklet w t ;;;
    __raise_softirq_irqoff (softirq_of w) ;;;
    local_irq_enable
  else ret tt.
Fixpoint run_tasklets (fuel : nat) (w : which) (list : option nat) : M percpu unit :=
  match list with
  | None => ret tt
  | Some _ =>
      match fuel with
      | O => out_of_fuel
      | S fuel' =>
          n <- get list ;;
          run_tasklet w list ;;;
          run_tasklets fuel' w (pnext n)
      end
  end.
Definition action_on (w : which) : M percpu unit :=
  local_irq_disable ;;;
  list <- gets (fun s => head (vec s w)) ;;
  modify (set_vec w (Head None None)) ;;;
  local_irq_enable ;;;
  fuel <- gets (fun s => S (size (tasklets s))) ;;
  run_tasklets fuel w list.
Definition tasklet_action : M percpu unit := action_on Lo.
Definition tasklet_hi_action : M percpu unit := action_on Hi.
End tasklets.

(** Start-up: nothing pending or scheduled, and the handlers of this file. *)
Definition softirq_init (h : gmap nat (link tasklet_struct)) (tasklet hi : Z) : percpu :=
  PerCpu h (fun _ => Head None None)
    (<[Z.to_nat HI_SOFTIRQ := Some hi]> (<[Z.to_nat TASKLET_SOFTIRQ := Some tasklet]> (replicate NR_SOFTIRQS None)))
    0 (-1) true 0 false [] [].

(** ** The loop runs the pending bits, lowest first *)
Definition bits_from (h p : Z) : list Z := filter (fun i => Z.testbit p i = true) (seqZ h (32 - h)).
Definition bits_of (p : Z) : list Z := bits_from 0 p.

(** Every bit of [p] is a softirq with a handler. *)
Definition registered (s : percpu) (p : Z) : Prop :=
  0 <= p < 2 ^ 32 /\ forall i, 0 <= i -> Z.testbit p i = true -> exists f, softirq_vec s !! Z.to_nat i = Some (Some f).

(** What a handler may do: raise softirqs that have handlers, and its own
    business; it runs with [tasklet_count] up, so that no interrupt runs the
    loop inside it. *)
Class SoftirqAction (action : Z -> M percpu unit) : Prop :=
  action_ok : forall f s, registered s (pending s) ->
    wp (action f) s (fun _ s' => softirq_vec s' = softirq_vec s /\ tasklet_count s' = tasklet_count s /\
      ran s' = ran s /\ registered s' (pending s') /\ exists r, pending s' = Z.lor (pending s) r).

#[export] Instance idle_action : SoftirqAction (fun _ => ret tt).
Proof. intros f s Hr. apply wp_ret. split_and!; try done. exists 0. by rewrite Z.lor_0_r. Qed.

(** A handler that raises another softirq is one. *)
#[export] Instance raising_action : SoftirqAction (fun f => v <- gets softirq_vec ;;
  match v !! Z.to_nat f with Some (Some _) => if (0 <=? f) && (f <? 32) then raise_softirq f else ret tt | _ => ret tt end).
Proof.
  intros f s [Hp Hr]. wp_steps. destruct (softirq_vec s !! Z.to_nat f) as [[g|]|] eqn:Hf.
  2-3: apply wp_ret; split_and!; try done; exists 0; by rewrite Z.lor_0_r.
  destruct ((0 <=? f) && (f <? 32)) eqn:Hb; [|apply wp_ret; split_and!; try done; exists 0; by rewrite Z.lor_0_r].
  apply andb_prop in Hb as [Hf0%Z.leb_le Hf1%Z.ltb_lt].
  unfold raise_softirq, local_irq_save, local_irq_disable, raise_softirq_irqoff, __raise_softirq_irqoff,
    or_softirq_pending, local_irq_restore. wp_steps. cbn.
  split_and!; try done; [|by eexists].
  assert (Hbits : forall i, 0 <= i -> Z.testbit (Z.lor (pending s) (Z.shiftl 1 f)) i = Z.testbit (pending s) i || (f =? i)).
  { intros i Hi. rewrite Z.lor_spec. f_equal. rewrite Z.shiftl_1_l. apply Z.pow2_bits_eqb. lia. }
  split.
  - apply range_of_bits; [lia|apply Z.lor_nonneg; split; [lia|apply Z.shiftl_nonneg; lia]|].
    intros i Hi. rewrite Hbits by lia. rewrite (testbit_above _ 32) by lia. cbn. lia.
  - intros i Hi Ht. rewrite Hbits in Ht by lia. apply orb_prop in Ht as [Ht|<-%Z.eqb_eq]; [by apply Hr|by eexists].
Qed.

Lemma bits_from_nil h p : 0 <= h -> 0 <= p -> Z.shiftr p h = 0 -> bits_from h p = [].
Proof.
  intros Hh Hp Hz. unfold bits_from. apply filter_none. intros i Hi%elem_of_seqZ Ht.
  replace i with ((i - h) + h) in Ht by lia. rewrite <- Z.shiftr_spec, Hz, Z.bits_0 in Ht by lia. done.
Qed.

Lemma bits_from_cons h k p : 0 <= h -> 0 <= k -> h + k < 32 -> Z.testbit p (h + k) = true ->
  (forall j, 0 <= j < k -> Z.testbit p (h + j) = false) ->
  bits_from h p = (h + k) :: bits_from (h + k + 1) p.
Proof.
  intros Hh Hk Hlt Hb Hlow. unfold bits_from. replace (32 - h) with (k + (1 + (32 - (h + k + 1)))) by lia.
  rewrite seqZ_app, list.filter_app by lia.
  assert (filter (fun i => Z.testbit p i = true) (seqZ h k) = []) as ->.
  { apply filter_none. intros i Hi%elem_of_seqZ Ht. replace i with (h + (i - h)) in Ht by lia.
    rewrite Hlow in Ht by lia. done. }
  rewrite seqZ_cons by lia. cbn [app]. rewrite filter_cons_True by done.
  by replace (Z.succ (h + k)) with (h + k + 1) by lia; replace (Z.pred (1 + (32 - (h + k + 1)))) with (32 - (h + k + 1)) by lia.
Qed.

Lemma ffs_spec p : 0 < p < 2 ^ 32 ->
  1 <= ffs p /\ Z.testbit p (ffs p - 1) = true /\ forall j, 0 <= j < ffs p - 1 -> Z.testbit p j = false.
Proof.
  intros Hp. unfold ffs. rewrite Z.mod_small by lia. destruct (Z.eqb_spec p 0); [lia|].
  destruct (__ffs_spec p) as (H1 & H2 & H3); [lia|lia|].
  replace (__ffs p + 1 - 1) with (__ffs p) by lia. split; [lia|done].
Qed.

(** A command that returns, and the state it returns in. *)
Lemma run_tt (m : M percpu unit) s (Q : percpu -> Prop) : wp m s (fun _ s' => Q s') -> exists s', m s = Done (tt, s') /\ Q s'.
Proof. intros ([] & s' & Hrun & Hs')%wp_run. by exists s'. Qed.

(** ** What the loop promises

    [handled l]: the handlers of the softirqs [l] were called, in that order.
    [rounds lim n ps]: at most [n] rounds, which started with [ps] pending: a
    round takes the whole pending word, runs the handlers of its bits lowest
    first with interrupts enabled and nothing pending, and is followed by
    another one for what they raised while there is some, the time [lim] is not
    reached and rounds are left. *)
Section rounds.
Context (action : Z -> M percpu unit).

Inductive handled : list Z -> percpu -> percpu -> Prop :=
  | handled_nil s : handled [] s s
  | handled_cons nr l f s s1 s2 :
      softirq_vec s !! Z.to_nat nr = Some (Some f) ->
      action f (set_ran (ran s ++ [nr]) s) = Done (tt, s1) ->
      handled l s1 s2 -> handled (nr :: l) s s2.

Inductive rounds (lim : Z) : nat -> list Z -> percpu -> percpu -> Prop :=
  | rounds_last n s s' :
      handled (bits_of (pending s)) (set_irqs true (set_pending 0 s)) s' ->
      pending s' = 0 \/ lim <= msec_count s' \/ n = 0%nat ->
      rounds lim (S n) [pending s] s s'
  | rounds_next n ps s s1 s' :
      handled (bits_of (pending s)) (set_irqs true (set_pending 0 s)) s1 ->
      pending s1 <> 0 -> msec_count s1 < lim ->
      rounds lim n ps (set_irqs false s1) s' ->
      rounds lim (S n) (pending s :: ps) s s'.

Lemma handled_one nr f s s' :
  softirq_vec s !! Z.to_nat nr = Some (Some f) ->
  action f (set_ran (ran s ++ [nr]) s) = Done (tt, s') -> handled [nr] s s'.
Proof. intros Hf Hrun. eapply handled_cons; [exact Hf|exact Hrun|constructor]. Qed.

Lemma handled_app l l' s s1 s2 : handled l s s1 -> handled l' s1 s2 -> handled (l ++ l') s s2.
Proof. intros H. induction H; [done|]. intros Hl. econstructor; eauto. Qed.
End rounds.

Section softirq_loop.
Context (action : Z -> M percpu unit) `{!SoftirqAction action}.

(** What running the handlers [l] changes. *)
Definition served (l : list Z) (s s' : percpu) : Prop :=
  handled action l s s' /\ softirq_vec s' = softirq_vec s /\ tasklet_count s' = tasklet_count s /\
  ran s' = ran s ++ l /\ registered s' (pending s').

Lemma served_nil s : registered s (pending s) -> served [] s s.
Proof. intros Hp. split; [constructor|]. by rewrite app_nil_r. Qed.

Lemma served_app l l' s s1 s2 : served l s s1 -> served l' s1 s2 -> served (l ++ l') s s2.
Proof.
  intros (H1 & V1 & C1 & R1 & _) (H2 & V2 & C2 & R2 & P2). split; [by eapply handled_app|].
  split_and!; [congruence|congruence| |done]. by rewrite R2, R1, <- (assoc_L (++)).
Qed.

Lemma call_action_ok s nr p :
  registered s p -> registered s (pending s) -> 0 <= nr -> Z.testbit p nr = true ->
  wp (call_action action nr) s (fun _ s' => served [nr] s s').
Proof.
  intros [_ Hr] Hp Hnr Hb. destruct (Hr nr Hnr Hb) as [f Hf]. unfold call_action. wp_steps. rewrite Hf. wp_steps.
  assert (registered (set_ran (ran s ++ [nr]) s) (pending s)) as Hp' by exact Hp.
  pose proof (action_ok f _ Hp') as Hw. apply wp_run in Hw as ([] & s' & Hrun & Hv & Hc & Hra & Hreg & _).
  unfold wp. rewrite Hrun. split; [by eapply handled_one|]. by rewrite Hv, Hc, Hra.
Qed.

Lemma run_pending_ok p fuel : forall s h,
  registered s p -> registered s (pending s) -> 0 <= h -> (Z.to_nat (32 - h) <= fuel)%nat ->
  wp (run_pending action fuel h (Z.shiftr p h)) s (fun _ s' => served (bits_from h p) s s').
Proof.
  induction fuel as [|fuel IH]; intros s h Hp Hpend Hh Hf; pose proof (proj1 Hp) as Hr.
  all: assert (Hq : 0 <= Z.shiftr p h < 2 ^ 32) by (rewrite Z.shiftr_div_pow2 by lia;
    split; [apply Z.div_pos; lia|apply Z.le_lt_trans with p; [apply Z.div_le_upper_bound; nia|lia]]).
  all: cbn [run_pending]; destruct (Z.eqb_spec (ffs (Z.shiftr p h)) 0) as [Hz|Hz].
  1,3: apply wp_ret; rewrite bits_from_nil; [by apply served_nil|..]; try done; try lia;
    destruct (decide (Z.shiftr p h = 0)); [done|destruct (ffs_spec (Z.shiftr p h)); lia].
  all: assert (Hne : Z.shiftr p h <> 0) by (intros E; by rewrite E in Hz);
    destruct (ffs_spec (Z.shiftr p h)) as (H1 & H2 & H3); [lia|];
    set (k := ffs (Z.shiftr p h) - 1) in *;
    rewrite Z.shiftr_spec, Z.add_comm in H2 by lia;
    assert (Hlt : h + k < 32) by (destruct (Z.lt_ge_cases (h + k) 32); [done|];
      rewrite (testbit_above p 32) in H2 by lia; done).
  { lia. }
  replace (h + ffs (Z.shiftr p h) - 1) with (h + k) by lia. wp_steps.
  eapply wp_mono; [apply (call_action_ok s (h + k) p); try done; lia|]. cbn beta.
  intros _ s1 Hs1. pose proof Hs1 as (_ & Hv1 & _ & _ & Hp1).
  rewrite Z.shiftr_shiftr by lia. replace (h + ffs (Z.shiftr p h)) with (h + k + 1) by lia.
  eapply wp_mono; [apply IH; [|done|lia|lia]|].
  - split; [done|]. rewrite Hv1. apply Hp.
  - cbn beta. intros _ s2 Hs2. rewrite (bits_from_cons h k p); [by eapply (served_app [_])|done|lia..|done|].
    intros j Hj. rewrite Z.add_comm, <- Z.shiftr_spec by lia. apply H3. lia.
Qed.

Lemma registered_0 s : registered s 0.
Proof. split; [lia|]. intros i Hi. by rewrite Z.bits_0. Qed.

(** One round, from [restart:] to the second read of the pending word. *)
Lemma round_ok s p :
  registered s p ->
  wp (run_pending action 32 0 p) (set_irqs true (set_pending 0 s))
    (fun _ s' => served (bits_of p) (set_irqs true (set_pending 0 s)) s').
Proof.
  intros Hp. rewrite <- (Z.shiftr_0_r p) at 1.
  apply (run_pending_ok p 32); [exact Hp|apply registered_0|done|done].
Qed.

(** How the loop ends after the last round: when something is pending the
    tasklet thread takes over. *)
Definition loop_end (s s' : percpu) : Prop :=
  tasklet_count s' = tasklet_count s - 1 /\ irqs s' = false /\ ran s' = ran s /\ pending s' = pending s /\
  suspended s' = (if pending s =? 0 then suspended s else false).

Lemma wakeup_end s : pending s <> 0 ->
  wp (enable_tasklet ;;; wakeup_taskletd) (set_irqs false s) (fun _ s' => loop_end s s').
Proof.
  intros Hp. unfold enable_tasklet, wakeup_taskletd. wp_steps. cbn. destruct (suspended s) eqn:Hs; wp_steps;
    unfold loop_end; rewrite (proj2 (Z.eqb_neq _ 0)) by done; cbn; by split_and!.
Qed.

Lemma enable_end s : pending s = 0 -> wp enable_tasklet (set_irqs false s) (fun _ s' => loop_end s s').
Proof. intros Hp. unfold enable_tasklet. wp_steps. unfold loop_end. rewrite Hp. cbn. by split_and!. Qed.

Lemma restart_S n lim p : restart action (S n) lim p =
  (set_softirq_pending 0 ;;; local_irq_enable ;;; run_pending action 32 0 p ;;; local_irq_disable ;;;
   p' <- local_softirq_pending ;;
   if negb (p' =? 0) then
     now <- gets msec_count ;;
     if (now <? lim) && negb (Nat.eqb n 0) then restart action n lim p'
     else enable_tasklet ;;; wakeup_taskletd
   else enable_tasklet).
Proof. reflexivity. Qed.

Definition rounds_end lim n (s s' : percpu) : Prop :=
  exists ps s1, rounds action lim n ps s s1 /\ loop_end s1 s' /\
    tasklet_count s1 = tasklet_count s /\ ran s1 = ran s ++ concat (bits_of <$> ps).

Lemma restart_ok n lim : forall s,
  registered s (pending s) -> wp (restart action (S n) lim (pending s)) s (fun _ s' => rounds_end lim (S n) s s').
Proof.
  induction n as [|n IH]; intros s Hp; rewrite restart_S;
    unfold set_softirq_pending, local_irq_enable, local_irq_disable, local_softirq_pending; wp_steps;
    (eapply wp_mono; [by apply round_ok|]); intros [] s1 (Hh & Hv1 & Hc1 & Hr1 & Hp1); wp_steps; cbn [pending set_irqs].
  all: cbn in Hc1, Hr1.
  all: assert (Hend : forall k (m : M percpu unit), pending s1 = 0 \/ lim <= msec_count s1 \/ k = 0%nat ->
    wp m (set_irqs false s1) (fun _ s' => loop_end s1 s') -> wp m (set_irqs false s1) (fun _ s' => rounds_end lim (S k) s s'))
    by (intros k m Hk Hm; eapply wp_mono; [exact Hm|]; intros [] s2 Hs2; exists [pending s], s1;
        cbn [fmap list_fmap concat]; rewrite app_nil_r; split; [by constructor|done]).
  all: destruct (Z.eqb_spec (pending s1) 0) as [Hz|Hz]; cbn [negb].
  1,3: apply Hend; [by left|by apply enable_end].
  - wp_steps. rewrite andb_false_r. apply Hend; [auto|by apply wakeup_end].
  - wp_steps. cbn [msec_count set_irqs negb Nat.eqb]. rewrite andb_true_r.
    destruct (Z.ltb_spec (msec_count s1) lim); [|apply Hend; [auto|by apply wakeup_end]].
    eapply wp_mono; [apply (IH (set_irqs false s1)); exact Hp1|].
    intros _ s2 (ps & s3 & Hrd & He & Hc2 & Hr2). exists (pending s :: ps), s3. cbn in Hc2, Hr2.
    split; [by eapply rounds_next|]. split; [done|]. cbn [fmap list_fmap concat].
    by rewrite Hc2, Hr2, Hr1, <- (assoc_L (++)).
Qed.

Lemma __do_softirq_ok s : registered s (pending s) ->
  wp (__do_softirq action) s (fun _ s' => rounds_end (wrap64 (msec_count s + MAX_SOFTIRQ_TIME)) MAX_SOFTIRQ_RESTART
    (set_tasklet_count (tasklet_count s + 1) s) s').
Proof.
  intros Hp. unfold __do_softirq, local_softirq_pending, disable_tasklet. wp_steps.
  by apply (restart_ok 9 _ (set_tasklet_count (tasklet_count s + 1) s)).
Qed.
End softirq_loop.

(** ** The lists of tasklets *)

(** Where a tasklet is: on a list, taken off it by the action and not yet
    looked at, or neither. *)
Inductive place := OnList (w : which) | Taken | Idle.
#[export] Instance which_eq : EqDecision which.
Proof. solve_decision. Defined.
#[export] Instance place_eq : EqDecision place.
Proof. solve_decision. Defined.

Definition scheduled (x : tasklet_struct) : bool := Z.testbit (state x) TASKLET_STATE_SCHED.
Definition running (x : tasklet_struct) : bool := Z.testbit (state x) TASKLET_STATE_RUN.

(** The chain of tasklets [l], whatever they hold. *)
Definition ids_chain (h : gmap nat (link tasklet_struct)) (p : option nat) (l : list nat) : Prop :=
  exists c, c.*1 = l /\ chain h p c None.

Lemma ids_chain_nil h : ids_chain h None [].
Proof. by exists []. Qed.

Lemma ids_chain_inv h p i l : ids_chain h p (i :: l) ->
  p = Some i /\ exists nx x, h !! i = Some (Link nx x) /\ ids_chain h nx l.
Proof.
  intros ([|[j x] c] & Hc & Hch); [done|]. injection Hc as -> Hc. destruct Hch as (-> & nx & Hi & Hch).
  split; [done|]. exists nx, x. split; [done|]. by exists c.
Qed.

Lemma ids_chain_frame h h' p l :
  ids_chain h p l -> (forall i, i ∈ l -> h' !! i = h !! i) -> ids_chain h' p l.
Proof. intros (c & <- & Hch) Hfr. exists c. split; [done|]. by eapply chain_frame. Qed.

Lemma ids_chain_elem h p l i : ids_chain h p l -> i ∈ l -> is_Some (h !! i).
Proof. intros (c & <- & Hch) Hi. by eapply chain_elem. Qed.

(** Payloads may change under a chain. *)
Lemma ids_chain_put h p l i nx x x' :
  ids_chain h p l -> h !! i = Some (Link nx x) -> ids_chain (<[i := Link nx x']> h) p l.
Proof.
  intros (c & Hc & Hch) Hi. revert p l Hc Hch. induction c as [|[j y] c IH]; intros p l <- Hch.
  - exists []. by split.
  - destruct Hch as (-> & ny & Hj & Hch). destruct (IH ny _ eq_refl Hch) as (c' & Hc' & Hch').
    destruct (decide (j = i)) as [->|Hji].
    + rewrite Hi in Hj. injection Hj as <- <-. exists ((i, x') :: c'). split; [cbn; by rewrite Hc'|].
      split; [done|]. exists nx. by rewrite lookup_insert_eq.
    + exists ((j, y) :: c'). split; [cbn; by rewrite Hc'|]. split; [done|]. exists ny. by rewrite lookup_insert_ne.
Qed.

Lemma last_Some_elem (l : list nat) e : list.last l = Some e -> e ∈ l.
Proof. intros [l' ->]%last_Some. apply elem_of_app. right. left. Qed.

Lemma ids_chain_snoc h p l i nx x :
  ids_chain h p l -> NoDup l -> i ∉ l -> h !! i = Some (Link nx x) ->
  exists h', ids_chain h' (match l with [] => Some i | _ => p end) (l ++ [i]) /\
    h' = match list.last l with
         | None => <[i := Link None x]> h
         | Some e => match h !! e with
                     | Some ne => <[e := Link (Some i) (val ne)]> (<[i := Link None x]> h)
                     | None => h
                     end
         end /\ (forall e, list.last l = Some e -> is_Some (h !! e) /\ e <> i).
Proof.
  intros (c & <- & Hch) Hnd Hi Hn. eexists. split; [|split; [reflexivity|]].
  - induction c as [|[e xe] k _] using rev_ind.
    + exists [(i, x)]. split; [done|]. cbn. split; [done|]. exists None. by rewrite lookup_insert_eq.
    + rewrite fmap_app. cbn [fmap list_fmap fst]. rewrite list.last_snoc.
      pose proof (chain_lookup _ _ _ _ _ _ _ Hch) as (ne & He & _ & Hne). cbn in Hne. subst ne. rewrite He.
      exists (k ++ [(e, xe); (i, x)]). split; [rewrite fmap_app; cbn; by rewrite <- (assoc_L (++))|].
      replace (match k.*1 ++ [e] with [] => Some i | _ => p end) with p by (by destruct k).
      by apply (chain_link h p k e xe [] None i x (Link None xe)).
  - intros e He. apply last_Some_elem in He. split; [by eapply chain_elem|by intros ->].
Qed.

(** [r] is the tasklet whose function runs, if any: only its RUN bit is set. *)
Record tasklets_ok (own : nat -> place) (r : option nat) (s : percpu) (l : which -> list nat) : Prop := {
  to_chain : forall w, ids_chain (tasklets s) (head (vec s w)) (l w);
  to_tail : forall w, tail (vec s w) = list.last (l w);
  to_nodup : forall w, NoDup (l w);
  to_own : forall w i, i ∈ l w <-> own i = OnList w;
  to_sched : forall i n, tasklets s !! i = Some n -> scheduled (val n) = bool_decide (own i <> Idle);
  to_run : forall i n, tasklets s !! i = Some n -> running (val n) = bool_decide (r = Some i);
  to_dom : forall i, tasklets s !! i = None -> own i = Idle
}.

(** What a tasklet's function may do: schedule tasklets. *)
Record steps (own : nat -> place) (s : percpu) (l : which -> list nat)
    (own' : nat -> place) (s' : percpu) (l' : which -> list nat) : Prop := {
  st_taken : forall i, own i = Taken -> own' i = Taken /\ tasklets s' !! i = tasklets s !! i;
  st_lists : forall w, sublist (l w) (l' w);
  st_pending : exists b, pending s' = Z.lor (pending s) b;
  st_dom : forall i, is_Some (tasklets s !! i) -> is_Some (tasklets s' !! i)
}.

Lemma steps_refl own s l : steps own s l own s l.
Proof. split; try done. exists 0. by rewrite Z.lor_0_r. Qed.

Class TaskletFunc (tfunc : Z -> Z -> M percpu unit) : Prop :=
  func_ok : forall f d own r s l, tasklets_ok own r s l ->
    wp (tfunc f d) s (fun _ s' => exists own' l', tasklets_ok own' r s' l' /\ steps own s l own' s' l' /\
      called s' = called s).

#[export] Instance idle_func : TaskletFunc (fun _ _ => ret tt).
Proof. intros f d own r s l Hok. apply wp_ret. exists own, l. split; [done|]. split; [apply steps_refl|done]. Qed.

Definition upd_list (w : which) (k : list nat) (l : which -> list nat) : which -> list nat :=
  fun w' => if decide (w' = w) then k else l w'.

Lemma vec_set_vec w h s w' : vec (set_vec w h s) w' = if decide (w' = w) then h else vec s w'.
Proof. destruct w, w'; reflexivity. Qed.

(** The state after tasklet [i] was linked behind list [w] in heap [h]: only
    links changed. *)
Lemma appended_ok own r s l w i h hd s' :
  (forall w', ids_chain (tasklets s) (head (vec s w')) (l w')) ->
  (forall w', tail (vec s w') = list.last (l w')) -> (forall w', NoDup (l w')) ->
  (forall w' j, j ∈ l w' <-> own j = OnList w') -> (forall w', own i <> OnList w') ->
  (forall j n, tasklets s !! j = Some n -> scheduled (val n) = bool_decide (own j <> Idle \/ j = i)) ->
  (forall j n, tasklets s !! j = Some n -> running (val n) = bool_decide (r = Some j)) ->
  (forall j, tasklets s !! j = None -> own j = Idle) ->
  ids_chain h hd (l w ++ [i]) ->
  (forall j n, h !! j = Some n -> exists n', tasklets s !! j = Some n' /\ val n' = val n) ->
  (forall j, j <> i -> j ∉ l w -> h !! j = tasklets s !! j) ->
  (forall j, is_Some (tasklets s !! j) -> is_Some (h !! j)) ->
  s' = set_vec w (Head hd (Some i)) (set_tasklets h s) ->
  tasklets_ok (give i (OnList w) own) r s' (upd_list w (l w ++ [i]) l).
Proof.
  intros Hch Htl Hnd Hown Hoi Hsc Hru Hdom Hc Hval Hout Hsome ->.
  assert (Hni : forall w', i ∉ l w') by (intros w' Hin; apply Hown in Hin; by apply (Hoi w')).
  split.
  - intros w'. rewrite vec_set_vec. unfold upd_list. destruct (decide (w' = w)) as [->|Hw]; [exact Hc|].
    eapply ids_chain_frame; [apply Hch|]. intros j Hj. cbn. apply Hout; [intros ->; by apply (Hni w')|].
    intros Hjw. apply Hown in Hj, Hjw. congruence.
  - intros w'. rewrite vec_set_vec. unfold upd_list. destruct (decide (w' = w)) as [->|Hw]; [|apply Htl].
    by rewrite list.last_snoc.
  - intros w'. unfold upd_list. destruct (decide (w' = w)) as [->|Hw]; [|done].
    apply list.NoDup_app. split; [done|]. split; [set_solver|apply NoDup_singleton].
  - intros w' j. unfold upd_list. destruct (decide (j = i)) as [->|Hji].
    + rewrite give_eq. destruct (decide (w' = w)) as [->|Hw]; [split; [done|set_solver]|].
      split; [intros Hj; by apply Hni in Hj|congruence].
    + rewrite give_ne by done. rewrite <- Hown. destruct (decide (w' = w)) as [->|Hw]; [|done]. set_solver.
  - intros j n Hj. destruct (Hval j n Hj) as (n' & Hn' & <-). rewrite (Hsc j n' Hn').
    apply bool_decide_ext. destruct (decide (j = i)) as [->|Hji]; [rewrite give_eq; naive_solver|rewrite give_ne by done; naive_solver].
  - intros j n Hj. destruct (Hval j n Hj) as (n' & Hn' & <-). by apply Hru.
  - intros j Hj. assert (tasklets s !! j = None) as Hn.
    { destruct (tasklets s !! j) eqn:He; [|done]. destruct (Hsome j) as [? Hj']; [by eexists|]. cbn in Hj. congruence. }
    destruct (decide (j = i)) as [->|Hji]; [|rewrite give_ne by done; by apply Hdom].
    cbn in Hj. destruct (ids_chain_elem _ _ _ i Hc) as [? Hi']; [set_solver|]. congruence.
Qed.

(** Appending a tasklet whose SCHED bit is set. *)
Lemma append_ok own r s l w i nx x :
  (forall w', ids_chain (tasklets s) (head (vec s w')) (l w')) ->
  (forall w', tail (vec s w') = list.last (l w')) -> (forall w', NoDup (l w')) ->
  (forall w' j, j ∈ l w' <-> own j = OnList w') -> (forall w', own i <> OnList w') ->
  (forall j n, tasklets s !! j = Some n -> scheduled (val n) = bool_decide (own j <> Idle \/ j = i)) ->
  (forall j n, tasklets s !! j = Some n -> running (val n) = bool_decide (r = Some j)) ->
  (forall j, tasklets s !! j = None -> own j = Idle) ->
  tasklets s !! i = Some (Link nx x) ->
  wp (append_tasklet w (Some i)) s (fun _ s' =>
    tasklets_ok (give i (OnList w) own) r s' (upd_list w (l w ++ [i]) l) /\
    (forall j, j <> i -> own j = Taken -> tasklets s' !! j = tasklets s !! j) /\
    (forall j, is_Some (tasklets s !! j) -> is_Some (tasklets s' !! j)) /\
    called s' = called s /\ pending s' = pending s).
Proof.
  intros Hch Htl Hnd Hown Hoi Hsc Hru Hdom Hi.
  assert (Hni : i ∉ l w) by (intros Hin; apply Hown in Hin; by apply (Hoi w)).
  destruct (ids_chain_snoc _ _ _ i nx x (Hch w) (Hnd w) Hni Hi) as (h' & Hc & Hh' & Hlast).
  assert (Hgoal : forall hd, ids_chain h' hd (l w ++ [i]) -> 
    let s' := set_vec w (Head hd (Some i)) (set_tasklets h' s) in
    tasklets_ok (give i (OnList w) own) r s' (upd_list w (l w ++ [i]) l) /\
    (forall j, j <> i -> own j = Taken -> tasklets s' !! j = tasklets s !! j) /\
    (forall j, is_Some (tasklets s !! j) -> is_Some (tasklets s' !! j)) /\
    called s' = called s /\ pending s' = pending s).
  { intros hd Hc' s'.
    assert (Hout : forall j, j <> i -> j ∉ l w -> h' !! j = tasklets s !! j).
    { intros j Hji Hj. rewrite Hh'. destruct (list.last (l w)) as [e|] eqn:Hl; [|by rewrite lookup_insert_ne].
      destruct (Hlast e eq_refl) as [[ne ->] _]. apply last_Some_elem in Hl. rewrite !lookup_insert_ne by set_solver. done. }
    assert (Hsome : forall j, is_Some (tasklets s !! j) -> is_Some (h' !! j)).
    { intros j Hj. rewrite Hh'. destruct (list.last (l w)) as [e|]; [|by apply lookup_insert_is_Some'; right].
      destruct (tasklets s !! e); [|done]. do 2 (apply lookup_insert_is_Some'; right). done. }
    split; [eapply (appended_ok own r s l w i h' hd); try done|split; [|done]].
    - intros j n. rewrite Hh'. destruct (list.last (l w)) as [e|].
      + destruct (Hlast e eq_refl) as [[ne He] Hei]. rewrite He. destruct (decide (j = e)) as [->|Hje].
        * rewrite lookup_insert_eq. intros [= <-]. by exists ne.
        * rewrite lookup_insert_ne by done. destruct (decide (j = i)) as [->|Hji];
            [rewrite lookup_insert_eq; intros [= <-]; by eexists|rewrite lookup_insert_ne by done; by exists n].
      + destruct (decide (j = i)) as [->|Hji];
          [rewrite lookup_insert_eq; intros [= <-]; by eexists|rewrite lookup_insert_ne by done; by exists n].
    - intros j Hji Hj. apply Hout; [done|]. intros Hjl. apply Hown in Hjl. congruence. }
  unfold append_tasklet. wp_steps. eapply wp_put_pnext; [exact Hi|]. cbn [val]. wp_steps.
  cbn [vec set_heap percpu_heap set_tasklets heap]. rewrite Htl. subst h'.
  destruct (list.last (l w)) as [e|] eqn:Hl.
  - destruct (Hlast e eq_refl) as [[ne He] Hei]. rewrite He in Hgoal, Hc.
    wp_steps. eapply wp_put_pnext; [cbn; rewrite lookup_insert_ne by done; exact He|]. wp_steps.
    apply (Hgoal (head (vec s w))). destruct (l w); [done|exact Hc].
  - apply last_None in Hl. rewrite Hl in Hc. wp_steps. apply (Hgoal (Some i)). by rewrite Hl.
Qed.

(** Changing the bits of a tasklet: the links stay. *)
Lemma put_bits_ok own r s l i nx x x' own' r' :
  tasklets_ok own r s l -> tasklets s !! i = Some (Link nx x) ->
  (forall w j, own' j = OnList w <-> own j = OnList w) ->
  (forall j, j <> i -> own' j = own j /\ bool_decide (r' = Some j) = bool_decide (r = Some j)) ->
  scheduled x' = bool_decide (own' i <> Idle) -> running x' = bool_decide (r' = Some i) ->
  tasklets_ok own' r' (set_tasklets (<[i := Link nx x']> (tasklets s)) s) l.
Proof.
  intros [Hch Htl Hnd Hown Hsc Hru Hdom] Hi Hon Hne Hsx Hrx. split; try done.
  - intros w. cbn. by eapply ids_chain_put.
  - intros w j. by rewrite Hon.
  - intros j n. cbn. destruct (decide (j = i)) as [->|Hji]; [rewrite lookup_insert_eq; by intros [= <-]|].
    rewrite lookup_insert_ne by done. destruct (Hne j Hji) as [-> _]. apply Hsc.
  - intros j n. cbn. destruct (decide (j = i)) as [->|Hji]; [rewrite lookup_insert_eq; by intros [= <-]|].
    rewrite lookup_insert_ne by done. destruct (Hne j Hji) as [_ ->]. apply Hru.
  - intros j. cbn. intros [Hj Hji]%lookup_insert_None. destruct (Hne j) as [-> _]; [congruence|]. by apply Hdom.
Qed.

Lemma testbit_set_0 z : Z.testbit (Z.setbit z 0) 0 = true /\ Z.testbit (Z.setbit z 0) 1 = Z.testbit z 1.
Proof. split; [apply Z.setbit_eq; lia|apply Z.setbit_neq; lia]. Qed.
Lemma testbit_set_1 z : Z.testbit (Z.setbit z 1) 1 = true /\ Z.testbit (Z.setbit z 1) 0 = Z.testbit z 0.
Proof. split; [apply Z.setbit_eq; lia|apply Z.setbit_neq; lia]. Qed.
Lemma testbit_clear_0 z : Z.testbit (Z.clearbit z 0) 0 = false /\ Z.testbit (Z.clearbit z 0) 1 = Z.testbit z 1.
Proof. split; [apply Z.clearbit_eq; lia|apply Z.clearbit_neq; lia]. Qed.
Lemma testbit_clear_1 z : Z.testbit (Z.clearbit z 1) 1 = false /\ Z.testbit (Z.clearbit z 1) 0 = Z.testbit z 0.
Proof. split; [apply Z.clearbit_eq; lia|apply Z.clearbit_neq; lia]. Qed.

Lemma setbit_id z n : 0 <= n -> Z.testbit z n = true -> Z.setbit z n = z.
Proof.
  intros Hn Hb. apply Z.bits_inj'. intros m Hm. destruct (decide (m = n)) as [->|Hne].
  - by rewrite Z.setbit_eq.
  - by rewrite Z.setbit_neq.
Qed.

Lemma wp_test_and_set_bit nr s i nx x (Q : bool -> percpu -> Prop) :
  tasklets s !! i = Some (Link nx x) ->
  Q (Z.testbit (state x) nr) (set_tasklets (<[i := Link nx (set_state (Z.setbit (state x) nr) x)]> (tasklets s)) s) ->
  wp (test_and_set_bit nr (Some i)) s Q.
Proof. intros Hi HQ. unfold test_and_set_bit. wp_steps. eapply wp_get; [exact Hi|]. wp_steps. by eapply wp_put_val. Qed.

Lemma wp_test_and_clear_bit nr s i nx x (Q : bool -> percpu -> Prop) :
  tasklets s !! i = Some (Link nx x) ->
  Q (Z.testbit (state x) nr) (set_tasklets (<[i := Link nx (set_state (Z.clearbit (state x) nr) x)]> (tasklets s)) s) ->
  wp (test_and_clear_bit nr (Some i)) s Q.
Proof. intros Hi HQ. unfold test_and_clear_bit. wp_steps. eapply wp_get; [exact Hi|]. wp_steps. by eapply wp_put_val. Qed.

Lemma set_tasklets_id i n s : tasklets s !! i = Some n -> set_tasklets (<[i := n]> (tasklets s)) s = s.
Proof. intros Hi. rewrite insert_id by done. by destruct s. Qed.

(** [tasklet_schedule] and [tasklet_hi_schedule]: an idle tasklet goes to the
    end of the list and the softirq is raised; another one stays where it is. *)
Definition schedule_w (w : which) (t : option nat) : M percpu unit :=
  b <- test_and_set_bit TASKLET_STATE_SCHED t ;; if (b : bool) then ret tt else schedule_on w t.

Lemma schedule_ok own r s l w i :
  tasklets_ok own r s l -> is_Some (tasklets s !! i) ->
  wp (schedule_w w (Some i)) s (fun _ s' =>
    (own i <> Idle /\ s' = s) \/
    (own i = Idle /\ tasklets_ok (give i (OnList w) own) r s' (upd_list w (l w ++ [i]) l) /\
     steps own s l (give i (OnList w) own) s' (upd_list w (l w ++ [i]) l) /\ called s' = called s /\
     pending s' = Z.lor (pending s) (Z.shiftl 1 (softirq_of w)))).
Proof.
  intros Hok [[nx x] Hi]. pose proof (to_sched _ _ _ _ Hok i _ Hi) as Hsx. cbn [val] in Hsx.
  pose proof (to_run _ _ _ _ Hok i _ Hi) as Hrx. cbn [val] in Hrx.
  unfold schedule_w. wp_steps. eapply wp_test_and_set_bit; [exact Hi|].
  change (Z.testbit (state x) TASKLET_STATE_SCHED) with (scheduled x).
  destruct (decide (own i <> Idle)) as [Hid|Hid].
  { rewrite bool_decide_true in Hsx by done. rewrite Hsx. wp_steps. left. split; [done|].
    rewrite setbit_id; [|done|exact Hsx].
    replace (set_state (state x) x) with x by (by destruct x). by apply set_tasklets_id. }
  rewrite bool_decide_false in Hsx by done. rewrite Hsx.
  apply dec_stable in Hid. set (x' := set_state _ x).
  set (s1 := set_tasklets _ s). assert (Hi1 : tasklets s1 !! i = Some (Link nx x')) by apply lookup_insert_eq.
  destruct (testbit_set_0 (state x)) as [Hb0 Hb1]. destruct Hok as [Hch Htl Hnd Hown Hsc Hru Hdom].
  unfold schedule_on, local_irq_save, local_irq_disable, raise_softirq_irqoff, __raise_softirq_irqoff,
    or_softirq_pending, local_irq_restore. wp_steps.
  eapply wp_mono; [eapply (append_ok own r (set_irqs false s1) l w i nx x'); try done|].
  - intros w'. cbn. eapply ids_chain_put; [apply Hch|exact Hi].
  - intros w'. congruence.
  - intros j n Hj. cbn in Hj. destruct (decide (j = i)) as [->|Hji].
    + rewrite lookup_insert_eq in Hj. injection Hj as <-. unfold scheduled. cbn. rewrite bool_decide_true by naive_solver. apply Hb0.
    + rewrite lookup_insert_ne in Hj by done. rewrite (Hsc j n Hj). apply bool_decide_ext. naive_solver.
  - intros j n Hj. cbn in Hj. destruct (decide (j = i)) as [->|Hji].
    + rewrite lookup_insert_eq in Hj. injection Hj as <-. unfold running in *. cbn. by rewrite <- Hrx.
    + rewrite lookup_insert_ne in Hj by done. by apply Hru.
  - intros j Hj. cbn in Hj. apply lookup_insert_None in Hj as [Hj _]. by apply Hdom.
  - cbn beta. intros _ s2 (Hok2 & Htk & Hso & Hca & Hpe). wp_steps. right. split; [done|].
    assert (Hfix : forall p b, tasklets_ok (give i (OnList w) own) r (set_irqs b (set_pending p s2)) (upd_list w (l w ++ [i]) l))
      by (intros p b; by destruct Hok2).
    split; [apply Hfix|]. cbn. split; [|split; [done|by rewrite Hpe]]. split; cbn.
    + intros j Hj. assert (j <> i) as Hji by (intros ->; congruence). rewrite give_ne by done. split; [done|].
      rewrite Htk by done. cbn. by rewrite lookup_insert_ne.
    + intros w'. unfold upd_list. destruct (decide (w' = w)) as [->|]; [by apply sublist_inserts_r|done].
    + rewrite Hpe. by eexists.
    + intros j Hj. apply Hso. cbn. by apply lookup_insert_is_Some'; right.
Qed.

(** A tasklet that schedules another one, or itself, is fine. *)
#[export] Instance schedule_func : TaskletFunc (fun _ d => h <- gets tasklets ;;
  match h !! Z.to_nat d with Some _ => tasklet_schedule (Some (Z.to_nat d)) | None => ret tt end).
Proof.
  intros f d own r s l Hok. wp_steps. destruct (tasklets s !! Z.to_nat d) eqn:Hi.
  - eapply wp_mono; [apply (schedule_ok own r s l Lo); [done|by eexists]|]. cbn beta.
    intros _ s' [(_ & ->)|(_ & Hok' & Hst & Hca & _)]; [exists own, l; split; [done|split; [apply steps_refl|done]]|by eexists _, _].
  - apply wp_ret. exists own, l. split; [done|split; [apply steps_refl|done]].
Qed.

(** ** The action runs a whole list *)
Definition job (h : gmap nat (link tasklet_struct)) (i : nat) : option (Z * Z) :=
  match h !! i with
  | Some n => if count (val n) =? 0 then Some (func (val n), data (val n)) else None
  | None => None
  end.
(** The calls to make for the enabled tasklets of [q], and the disabled ones. *)
Definition jobs (h : gmap nat (link tasklet_struct)) (q : list nat) : list (Z * Z) := omap (job h) q.
Definition waiting (h : gmap nat (link tasklet_struct)) (q : list nat) : list nat :=
  filter (fun i => job h i = None) q.

Lemma job_ext h h' i : h' !! i = h !! i -> job h' i = job h i.
Proof. unfold job. by intros ->. Qed.

Lemma jobs_cons h i q : jobs h (i :: q) = match job h i with Some c => [c] | None => [] end ++ jobs h q.
Proof. unfold jobs. cbn. by destruct (job h i). Qed.

Lemma waiting_cons h i q : waiting h (i :: q) = match job h i with Some _ => [] | None => [i] end ++ waiting h q.
Proof.
  unfold waiting. rewrite list.filter_cons. destruct (job h i) eqn:Hj.
  - by rewrite decide_False.
  - by rewrite decide_True.
Qed.

Lemma jobs_ext h h' q : (forall i, i ∈ q -> h' !! i = h !! i) -> jobs h' q = jobs h q /\ waiting h' q = waiting h q.
Proof.
  induction q as [|i q IH]; intros Hq; [done|].
  destruct IH as [H1 H2]; [intros j Hj; apply Hq; by right|].
  rewrite !jobs_cons, !waiting_cons, H1, H2, (job_ext h h') by (apply Hq; left). done.
Qed.

Section run_list.
Context (tfunc : Z -> Z -> M percpu unit) `{!TaskletFunc tfunc} (w : which).

(** What running one tasklet, or the rest of a list, leads to. *)
Record ran_on (own : nat -> place) (s : percpu) (l : which -> list nat) (done : list nat)
    (called_now : list (Z * Z)) (back : list nat)
    (own' : nat -> place) (s' : percpu) (l' : which -> list nat) : Prop := {
  rl_ok : tasklets_ok own' None s' l';
  rl_taken : forall j, j ∉ done -> own j = Taken -> own' j = Taken /\ tasklets s' !! j = tasklets s !! j;
  rl_others : forall w', sublist (l w') (l' w');
  rl_back : sublist (l w ++ back) (l' w);
  rl_called : called s' = called s ++ called_now;
  rl_pending : exists b, pending s' = Z.lor (pending s) b;
  rl_raised : back <> [] -> Z.testbit (pending s') (softirq_of w) = true
}.

Lemma lor_raised p b : Z.testbit (Z.lor (Z.lor p (Z.shiftl 1 (softirq_of w))) b) (softirq_of w) = true.
Proof. destruct w; cbn [softirq_of]; rewrite !Z.lor_spec; cbn; by rewrite orb_true_r. Qed.

Lemma run_enabled_ok own s l i nx x :
  tasklets_ok own None s l -> own i = Taken -> tasklets s !! i = Some (Link nx x) -> 
  let x2 := set_state (Z.clearbit (Z.setbit (state x) TASKLET_STATE_RUN) TASKLET_STATE_SCHED) x in
  wp (call_tasklet tfunc (set_state (Z.setbit (state x) TASKLET_STATE_RUN) x))
    (set_tasklets (<[i := Link nx x2]> (tasklets s)) s)
    (fun _ s1 => wp (tasklet_unlock (Some i)) s1
      (fun _ s' => exists own' l', ran_on own s l [i] [(func x, data x)] [] own' s' l')).
Proof.
  intros Hok Hi Hn x2. set (s2 := set_tasklets _ s).
  assert (Hok2 : tasklets_ok (give i Idle own) (Some i) s2 l).
  { destruct (testbit_set_1 (state x)) as [Hb1 Hb0]. destruct (testbit_clear_0 (Z.setbit (state x) 1)) as [Hc0 Hc1].
    eapply put_bits_ok; [exact Hok|exact Hn| | | |].
    - intros w' j. unfold give. case_decide as Hj; [subst j; naive_solver congruence|done].
    - intros j Hj. rewrite give_ne by done. split; [done|]. by rewrite !bool_decide_false by congruence.
    - rewrite give_eq, bool_decide_false by naive_solver. exact Hc0.
    - rewrite bool_decide_true by done. unfold running, x2. cbn [state set_state].
      change TASKLET_STATE_RUN with 1. change TASKLET_STATE_SCHED with 0. by rewrite Hc1. }
  unfold call_tasklet. wp_steps.
  eapply wp_mono; [eapply (func_ok (func x) (data x) _ (Some i) (set_called _ s2) l); by destruct Hok2|].
  cbn beta. intros _ s3 (own3 & l3 & Hok3 & [St Sl [b Sp] Sd] & Hca). cbn in Hca, Sp.
  destruct (Sd i) as [[nx3 x3] Hi3]; [cbn; rewrite lookup_insert_eq; by eexists|].
  unfold tasklet_unlock. eapply wp_put_val; [exact Hi3|]. cbn [pnext val].
  destruct (testbit_clear_1 (state x3)) as [Hd1 Hd0].
  exists own3, l3. split.
  - eapply put_bits_ok; [exact Hok3|exact Hi3|done|..].
    + intros j Hj. split; [done|]. by rewrite !bool_decide_false by congruence.
    + pose proof (to_sched _ _ _ _ Hok3 i _ Hi3) as Hs3. rewrite <- Hs3. exact Hd0.
    + rewrite bool_decide_false by done. exact Hd1.
  - intros j Hj Hoj. assert (j <> i) as Hji by set_solver.
    destruct (St j) as [Ho Hs]; [by rewrite give_ne|]. split; [done|]. cbn. rewrite lookup_insert_ne by done.
    rewrite Hs. cbn. by rewrite lookup_insert_ne.
  - exact Sl.
  - rewrite app_nil_r. apply Sl.
  - exact Hca.
  - by exists b.
  - done.
Qed.

Lemma run_tasklet_ok own s l i nx x :
  tasklets_ok own None s l -> own i = Taken -> tasklets s !! i = Some (Link nx x) ->
  wp (run_tasklet tfunc w (Some i)) s (fun _ s' => exists own' l',
    ran_on own s l [i] (jobs (tasklets s) [i]) (waiting (tasklets s) [i]) own' s' l').
Proof.
  intros Hok Hi Hn. pose proof (to_run _ _ _ _ Hok i _ Hn) as Hrx. pose proof (to_sched _ _ _ _ Hok i _ Hn) as Hsx.
  rewrite bool_decide_false in Hrx by done. rewrite bool_decide_true in Hsx by congruence. cbn [val] in Hrx, Hsx.
  destruct (testbit_set_1 (state x)) as [Hb1 Hb0].
  assert (Hjob : job (tasklets s) i = if count x =? 0 then Some (func x, data x) else None) by (unfold job; by rewrite Hn).
  unfold run_tasklet, tasklet_trylock. wp_steps. eapply wp_test_and_set_bit; [exact Hn|].
  change (Z.testbit (state x) TASKLET_STATE_RUN) with (running x). rewrite Hrx. wp_steps. cbn [negb]. wp_steps.
  eapply wp_get; [apply lookup_insert_eq|]. cbn [val count set_state]. rewrite jobs_cons, waiting_cons, Hjob.
  change (jobs (tasklets s) []) with (@nil (Z * Z)). change (waiting (tasklets s) []) with (@nil nat).
  destruct (count x =? 0) eqn:Hc; cbn [app].
  - wp_steps. eapply wp_test_and_clear_bit; [apply lookup_insert_eq|].
    cbn [state set_state]. change (Z.testbit (Z.setbit (state x) TASKLET_STATE_RUN) TASKLET_STATE_SCHED) with (Z.testbit (Z.setbit (state x) 1) 0).
    rewrite Hb0.
    change (Z.testbit (state x) 0) with (scheduled x). rewrite Hsx. wp_steps. cbn [tasklets set_tasklets]. rewrite insert_insert_eq.
    eapply wp_mono; [apply (run_enabled_ok own s l i nx x); done|]. cbn beta.
    intros _ s1 HQ. wp_steps. eapply wp_mono; [exact HQ|]. cbn beta. intros _ s' HQ'. wp_steps. exact HQ'.
  - wp_steps. unfold tasklet_unlock.
    eapply wp_put_val; [apply lookup_insert_eq|]. wp_steps. cbn [state set_state pnext val set_tasklets tasklets set_heap percpu_heap heap].
    rewrite insert_insert_eq. match goal with |- context [Link nx ?y] => set (x3 := y) end. unfold local_irq_disable, local_irq_enable, __raise_softirq_irqoff, or_softirq_pending.
    wp_steps. destruct (testbit_clear_1 (Z.setbit (state x) 1)) as [Hd1 Hd0]. destruct Hok as [Hch Htl Hnd Hown Hsc Hru Hdom].
    eapply wp_mono; [eapply (append_ok own None (set_irqs false (set_tasklets (<[i := Link nx x3]> (tasklets s)) s)) l w i nx x3);
      [| | | | |intros j n Hj; cbn in Hj|intros j n Hj; cbn in Hj| |]|].
    + intros w'. cbn. by eapply ids_chain_put; [apply Hch|exact Hn].
    + done.
    + done.
    + done.
    + congruence.
    + destruct (decide (j = i)) as [->|Hji].
      * rewrite lookup_insert_eq in Hj. injection Hj as <-. rewrite bool_decide_true by naive_solver.
        unfold scheduled, x3. cbn [val state set_state].
        change TASKLET_STATE_RUN with 1. change TASKLET_STATE_SCHED with 0. by rewrite Hd0, Hb0.
      * rewrite lookup_insert_ne in Hj by done. rewrite (Hsc j n Hj). apply bool_decide_ext. naive_solver.
    + destruct (decide (j = i)) as [->|Hji]; [|rewrite lookup_insert_ne in Hj by done; by apply Hru].
      rewrite lookup_insert_eq in Hj. injection Hj as <-. exact Hd1.
    + intros j Hj. cbn in Hj. apply lookup_insert_None in Hj as [Hj _]. by apply Hdom.
    + cbn. apply lookup_insert_eq.
    + cbn beta. intros _ s2 (Hok2 & Htk & Hso & Hca & Hpe). wp_steps. cbn in Hca, Hpe.
      exists (give i (OnList w) own), (upd_list w (l w ++ [i]) l). split.
      * by destruct Hok2.
      * intros j Hj Hoj. assert (j <> i) as Hji by set_solver. rewrite give_ne by done. split; [done|].
        cbn. rewrite Htk by done. cbn. by rewrite lookup_insert_ne.
      * intros w'. unfold upd_list. destruct (decide (w' = w)) as [->|]; [by apply sublist_inserts_r|done].
      * unfold upd_list. by rewrite decide_True.
      * cbn. by rewrite app_nil_r.
      * cbn. rewrite Hpe. by eexists.
      * intros _. cbn [pending set_irqs set_pending]. rewrite Hpe.
        pose proof (lor_raised (pending s) 0) as Hl. by rewrite Z.lor_0_r in Hl.
Qed.
Lemma ran_on_trans own s l q1 c1 b1 own1 s1 l1 q2 c2 b2 own2 s2 l2 :
  ran_on own s l q1 c1 b1 own1 s1 l1 -> ran_on own1 s1 l1 q2 c2 b2 own2 s2 l2 ->
  ran_on own s l (q1 ++ q2) (c1 ++ c2) (b1 ++ b2) own2 s2 l2.
Proof.
  intros [Ok1 Tk1 Ot1 Ba1 Ca1 [p1 Pe1] Ra1] [Ok2 Tk2 Ot2 Ba2 Ca2 [p2 Pe2] Ra2]. split.
  - done.
  - intros j Hj Ho. rewrite elem_of_app in Hj. destruct (Tk1 j) as [Ho1 Hs1]; [naive_solver|done|].
    destruct (Tk2 j) as [Ho2 Hs2]; [naive_solver|done|]. split; [done|congruence].
  - intros w'. etrans; [apply Ot1|apply Ot2].
  - rewrite (assoc_L (++)). etrans; [|exact Ba2]. by apply sublist_app.
  - by rewrite Ca2, Ca1, <- (assoc_L (++)).
  - exists (Z.lor p1 p2). by rewrite Pe2, Pe1, Z.lor_assoc.
  - intros Hne. destruct b1 as [|b b1]; [by apply Ra2|]. rewrite Pe2, Z.lor_spec, Ra1; done.
Qed.

Lemma run_tasklets_ok q : forall fuel own s l p,
  tasklets_ok own None s l -> ids_chain (tasklets s) p q -> NoDup q ->
  Forall (fun i => own i = Taken) q -> (length q <= fuel)%nat ->
  wp (run_tasklets tfunc fuel w p) s (fun _ s' => exists own' l',
    ran_on own s l q (jobs (tasklets s) q) (waiting (tasklets s) q) own' s' l').
Proof.
  induction q as [|i q IH]; intros fuel own s l p Hok Hch Hnd Hq Hf.
  { destruct Hch as ([|] & Hc & Hch); [|done]. cbn in Hch. subst p.
    assert (ran_on own s l [] [] [] own s l) as Hr0.
    { split; try done; [by rewrite app_nil_r|by rewrite app_nil_r|exists 0; by rewrite Z.lor_0_r]. }
    destruct fuel; apply wp_ret; by exists own, l. }
  destruct fuel as [|fuel]; [cbn in Hf; lia|]. apply ids_chain_inv in Hch as (-> & nx & x & Hi & Hch).
  apply list.NoDup_cons in Hnd as [Hiq Hnd]. apply list.Forall_cons in Hq as [Ho Hq].
  cbn [run_tasklets]. wp_steps. eapply wp_get; [exact Hi|]. wp_steps. cbn [pnext].
  eapply wp_mono; [by eapply (run_tasklet_ok own s l i nx x)|]. cbn beta. intros _ s1 (own1 & l1 & Hr1).
  assert (Hsame : forall j, j ∈ q -> own1 j = Taken /\ tasklets s1 !! j = tasklets s !! j).
  { intros j Hj. rewrite list.Forall_forall in Hq. apply (rl_taken _ _ _ _ _ _ _ _ _ Hr1); [set_solver|by apply Hq]. }
  destruct (jobs_ext (tasklets s) (tasklets s1) q) as [Hjq Hwq]; [intros j Hj; by apply Hsame|].
  eapply wp_mono; [eapply (IH fuel own1 s1 l1); [by destruct Hr1|eapply ids_chain_frame; [exact Hch|intros j Hj; by apply Hsame]|done| |cbn in Hf; lia]|].
  { apply list.Forall_forall. intros j Hj. by apply Hsame. }
  cbn beta. intros _ s2 (own2 & l2 & Hr2). exists own2, l2. rewrite Hjq, Hwq in Hr2.
  pose proof (ran_on_trans _ _ _ _ _ _ _ _ _ _ _ _ _ _ _ Hr1 Hr2) as Hr.
  rewrite jobs_cons, waiting_cons. rewrite !jobs_cons, !waiting_cons in Hr. cbn [app] in Hr.
  change (jobs (tasklets s) []) with (@nil (Z * Z)) in Hr. change (waiting (tasklets s) []) with (@nil nat) in Hr.
  by rewrite !app_nil_r in Hr.
Qed.

(** The owners once the action has taken list [w]. *)
Definition take (q : list nat) (own : nat -> place) : nat -> place :=
  fun i => if decide (i ∈ q) then Taken else own i.

Lemma taken_list_ok own s l b :
  tasklets_ok own None s l ->
  tasklets_ok (take (l w) own) None (set_irqs b (set_vec w (Head None None) s)) (upd_list w [] l).
Proof.
  intros [Hch Htl Hnd Hown Hsc Hru Hdom].
  assert (Ht : forall i, take (l w) own i <> Idle <-> own i <> Idle).
  { intros i. unfold take. case_decide as Hi; [|done]. rewrite Hown in Hi. rewrite Hi. naive_solver. }
  split.
  - intros w'. cbn [vec tasklets set_irqs]. rewrite vec_set_vec. unfold upd_list.
    destruct (decide (w' = w)); [apply ids_chain_nil|apply Hch].
  - intros w'. cbn [vec set_irqs]. rewrite vec_set_vec. unfold upd_list. destruct (decide (w' = w)); [done|apply Htl].
  - intros w'. unfold upd_list. destruct (decide (w' = w)); [constructor|apply Hnd].
  - intros w' i. unfold upd_list, take. destruct (decide (w' = w)) as [->|Hw]; case_decide as Hi.
    + split; [by intros Hin%not_elem_of_nil|done].
    + split; [by intros Hin%not_elem_of_nil|]. intros Hin. by apply Hown in Hin.
    + split; [|done]. intros Hin. apply Hown in Hi, Hin. congruence.
    + apply Hown.
  - intros i n Hi. rewrite (Hsc i n Hi). apply bool_decide_ext. by rewrite Ht.
  - exact Hru.
  - intros i Hi. pose proof (Hdom i Hi) as Hid. destruct (decide (take (l w) own i = Idle)) as [|Hne]; [done|].
    by apply Ht in Hne.
Qed.

Lemma action_on_ok own s l :
  tasklets_ok own None s l ->
  wp (action_on tfunc w) s (fun _ s' => exists own' l', tasklets_ok own' None s' l' /\
    called s' = called s ++ jobs (tasklets s) (l w) /\
    sublist (waiting (tasklets s) (l w)) (l' w) /\ (forall w', w' <> w -> sublist (l w') (l' w')) /\
    (exists b, pending s' = Z.lor (pending s) b) /\
    (waiting (tasklets s) (l w) <> [] -> Z.testbit (pending s') (softirq_of w) = true)).
Proof.
  intros Hok. unfold action_on, local_irq_disable, local_irq_enable. wp_steps.
  pose proof (taken_list_ok own s l true Hok) as Hok1.
  pose proof Hok as [Hch Htl Hnd Hown _ _ _]. cbn [head vec set_irqs set_vec].
  eapply wp_mono; [eapply (run_tasklets_ok (l w)); [exact Hok1|apply Hch|apply Hnd| |]|].
  - apply list.Forall_forall. intros i Hi. unfold take. by rewrite decide_True.
  - destruct (Hch w) as (c & Hc & Hcc). pose proof (Hnd w) as Hndw. rewrite <- Hc in Hndw |- *.
    rewrite length_fmap. pose proof (chain_length _ _ _ _ Hcc Hndw) as Hlen. cbn [tasklets set_irqs set_vec]. lia.
  - cbn beta. intros _ s' (own' & l' & [Rok Rtk Rot Rba Rca Rpe Rra]). exists own', l'.
    unfold upd_list in Rba, Rot. rewrite decide_True in Rba by done. cbn [app] in Rba.
    split_and!; [done|exact Rca|exact Rba| |exact Rpe|exact Rra].
    intros w' Hw. specialize (Rot w'). by rewrite decide_False in Rot.
Qed.
End run_list.

(** ** The theorems *)

(** C36: [do_softirq] does nothing inside the loop ([tasklet_count] up) or
    when nothing is pending; otherwise, for all handlers that return, keep the
    table and only raise softirqs that have handlers, it ends after at most ten
    rounds.  The first serves exactly what is pending, each later one exactly
    what the handlers of the round before raised; a round calls the handlers of
    its bits once each, lowest first, and nothing else is called.  Interrupts
    and [tasklet_count] are then as before, and softirqs still pending, after
    ten rounds or when the time is up, are left to the tasklet thread, which is
    awake. *)
Theorem do_softirq_correct action `{!SoftirqAction action} s (Hreg : registered s (pending s)) :
  exists s', do_softirq action s = Done (tt, s') /\
    ((0 <= tasklet_count s \/ pending s = 0) /\ s' = s \/
     tasklet_count s < 0 /\ pending s <> 0 /\
     exists ps s1,
       rounds action (wrap64 (msec_count s + MAX_SOFTIRQ_TIME)) MAX_SOFTIRQ_RESTART ps
         (set_irqs false (set_tasklet_count (tasklet_count s + 1) s)) s1 /\
       ran s' = ran s ++ concat (bits_of <$> ps) /\ pending s' = pending s1 /\
       suspended s' = (if pending s1 =? 0 then suspended s1 else false) /\
       tasklet_count s' = tasklet_count s /\ irqs s' = irqs s).
Proof.
  apply run_tt.
  unfold do_softirq, in_tasklet, local_irq_save, local_irq_disable, local_irq_restore, local_softirq_pending. wp_steps.
  destruct (Z.leb_spec 0 (tasklet_count s)); wp_steps; [by left; split; [left|]|]. cbn [pending set_irqs].
  destruct (Z.eqb_spec (pending s) 0) as [Hz|Hz]; cbn [negb]; wp_steps.
  { left. split; [by right|]. by destruct s. }
  eapply wp_mono; [by apply (__do_softirq_ok action (set_irqs false s))|].
  intros _ s2 (ps & s1 & Hrd & (Hc & _ & Hr & Hp & Hsu) & Hc1 & Hr1). wp_steps. right. split; [done|]. split; [done|].
  exists ps, s1. cbn in *. split; [exact Hrd|]. rewrite Hr, Hr1, Hc, Hc1. split_and!; try done. lia.
Qed.

(** A start-up state with the softirqs 0 and 6 raised. *)
Definition two_pending : percpu := set_pending 65 (softirq_init ∅ 6 0).

Lemma two_pending_registered : registered two_pending (pending two_pending).
Proof.
  split; [cbn; lia|]. intros i Hi Hb. cbn [pending two_pending set_pending] in Hb.
  destruct (decide (i = 0)) as [->|]; [by eexists|]. destruct (decide (i = 6)) as [->|]; [by eexists|].
  exfalso. destruct (decide (i < 7)).
  - assert (i = 1 \/ i = 2 \/ i = 3 \/ i = 4 \/ i = 5) as [->|[->|[->|[->| ->]]]] by lia; done.
  - rewrite (testbit_above 65 7) in Hb by lia. done.
Qed.

Lemma do_softirq_correct_witness : exists s' ps,
  do_softirq (fun _ => ret tt) two_pending = Done (tt, s') /\ ps !! 0%nat = Some 65 /\
  ran s' = [] ++ concat (bits_of <$> ps) /\ bits_of 65 = [0; 6].
Proof.
  destruct (do_softirq_correct (fun _ => ret tt) two_pending two_pending_registered)
    as (s' & Hrun & [[[Hc|Hz] _]|(_ & _ & ps & s1 & Hrd & Hr & _)]).
  - exfalso. cbn in Hc. lia.
  - exfalso. cbn in Hz. lia.
  - exists s', ps. split; [exact Hrun|]. split; [by inversion Hrd|]. by split.
Defined.

(** A handler that raises itself gets its ten rounds, then the thread. *)
Example raising_itself :
  match do_softirq (fun f => if f =? 0 then raise_softirq 0 else ret tt) (set_suspended true two_pending) with
  | Done (_, s') => ran s' = [0; 6; 0; 0; 0; 0; 0; 0; 0; 0; 0] /\ pending s' = 1 /\ suspended s' = false /\ irqs s' = true
  | _ => False
  end.
Proof. vm_compute. by split_and!. Qed.

(** The tasklet softirq takes the whole list and calls the function of
    every enabled tasklet exactly once, in the order of scheduling; disabled
    tasklets go back to the list in order, with the softirq raised again; what
    the functions schedule meanwhile, on either list, stays scheduled. *)
Theorem tasklet_action_correct tfunc `{!TaskletFunc tfunc} own s l :
  tasklets_ok own None s l ->
  exists s' own' l', tasklet_action tfunc s = Done (tt, s') /\ tasklets_ok own' None s' l' /\
    called s' = called s ++ jobs (tasklets s) (l Lo) /\
    sublist (waiting (tasklets s) (l Lo)) (l' Lo) /\ sublist (l Hi) (l' Hi) /\
    (waiting (tasklets s) (l Lo) <> [] -> Z.testbit (pending s') TASKLET_SOFTIRQ = true).
Proof.
  intros Hok. pose proof (action_on_ok tfunc Lo own s l Hok) as Hw.
  apply wp_run in Hw as ([] & s' & Hrun & own' & l' & H1 & H2 & H3 & H4 & _ & H6). exists s', own', l'.
  split_and!; try done. by apply H4.
Qed.

(** Three idle tasklets, of which 1 is disabled. *)
Definition three_tasklets : percpu :=
  softirq_init {[ 0%nat := Link None (Tasklet 0 0 7 70); 1%nat := Link None (Tasklet 0 1 8 80);
                  2%nat := Link None (Tasklet 0 0 9 90) ]} 6 0.

Lemma three_tasklets_ok : tasklets_ok (fun _ => Idle) None three_tasklets (fun _ => []).
Proof.
  split; try done.
  - intros w. apply ids_chain_nil.
  - intros w. constructor.
  - intros w i. split; [by intros Hi%not_elem_of_nil|done].
  - intros i n Hi. cbn [tasklets three_tasklets softirq_init] in Hi.
    repeat (apply lookup_insert_Some in Hi as [[<- <-]|[_ Hi]]; [done|]). apply lookup_singleton_Some in Hi as [<- <-]. done.
  - intros i n Hi. cbn [tasklets three_tasklets softirq_init] in Hi.
    repeat (apply lookup_insert_Some in Hi as [[<- <-]|[_ Hi]]; [done|]). apply lookup_singleton_Some in Hi as [<- <-]. done.
Qed.

Lemma tasklet_action_correct_witness : exists s s' own' l',
  (tasklet_schedule (Some 1%nat) ;;; tasklet_schedule (Some 0%nat)) three_tasklets = Done (tt, s) /\
  tasklet_action (fun _ _ => ret tt) s = Done (tt, s') /\ called s' = [(7, 70)] /\
  tasklets_ok own' None s' l' /\ sublist [1%nat] (l' Lo).
Proof.
  pose proof (schedule_ok _ None three_tasklets _ Lo 1%nat three_tasklets_ok ltac:(by eexists)) as Hw1.
  apply wp_run in Hw1 as ([] & s1 & Hr1 & [[Hn _]|(_ & Hok1 & Hst1 & _)]); [done|].
  pose proof (schedule_ok _ None s1 _ Lo 0%nat Hok1 ltac:(apply (st_dom _ _ _ _ _ _ Hst1); by eexists)) as Hw2.
  assert (Hs1 : s1 = match schedule_w Lo (Some 1%nat) three_tasklets with Done (_, s) => s | _ => s1 end) by (by rewrite Hr1).
  apply wp_run in Hw2 as ([] & s2 & Hr2 & [[Hn _]|(_ & Hok2 & _)]); [done|].
  assert (Hs2 : s2 = match schedule_w Lo (Some 0%nat) s1 with Done (_, s) => s | _ => s2 end) by (by rewrite Hr2).
  destruct (tasklet_action_correct (fun _ _ => ret tt) _ s2 _ Hok2) as (s' & own' & l' & Hrun & Hok' & Hca & Hsub & _).
  exists s2, s', own', l'. rewrite Hs1 in Hs2. vm_compute in Hs2. subst s2.
  split; [vm_compute; reflexivity|]. split; [exact Hrun|]. split; [exact Hca|]. split; [exact Hok'|exact Hsub].
Defined.

Lemma test_and_set_scheduled s i nx x :
  tasklets s !! i = Some (Link nx x) -> scheduled x = true ->
  test_and_set_bit TASKLET_STATE_SCHED (Some i) s = Done (true, s).
Proof.
  intros Hi Hs. assert (wp (test_and_set_bit TASKLET_STATE_SCHED (Some i)) s (fun b s' => b = true /\ s' = s)) as Hw.
  { eapply wp_test_and_set_bit; [exact Hi|]. split; [exact Hs|]. rewrite setbit_id; [|done|exact Hs].
    replace (set_state (state x) x) with x by (by destruct x). by apply set_tasklets_id. }
  by apply wp_run in Hw as (b & s' & Hr & -> & ->).
Qed.

Lemma first_then_schedule own s l i j ni xi nj xj :
  tasklets_ok own None s l -> irqs s = false -> l Hi = [] -> i <> j -> own i = Idle -> own j = Idle ->
  tasklets s !! i = Some (Link ni xi) -> tasklets s !! j = Some (Link nj xj) ->
  wp (tasklet_hi_schedule_first (Some i) ;;; tasklet_hi_schedule (Some j)) s (fun _ s' =>
    ids_chain (tasklets s') (head (vec s' Hi)) [j] /\
    exists nx x, tasklets s' !! i = Some (Link nx x) /\ scheduled x = true).
Proof.
  intros [Hch Htl Hnd Hown Hsc Hru Hdom] Hir Hl Hij Hi Hj Hti Htj.
  pose proof (Hsc i _ Hti) as Hsi. pose proof (Hsc j _ Htj) as Hsj. rewrite bool_decide_false in Hsi, Hsj by naive_solver.
  pose proof (Htl Softirq.Hi) as Htail. rewrite Hl in Htail. cbn in Htail.
  unfold tasklet_hi_schedule_first, tasklet_hi_schedule. wp_steps. eapply wp_test_and_set_bit; [exact Hti|].
  cbn [val] in Hsi, Hsj. change (Z.testbit (state xi) TASKLET_STATE_SCHED) with (scheduled xi). rewrite Hsi.
  unfold __tasklet_hi_schedule_first. wp_steps. cbn [irqs set_tasklets]. rewrite Hir. apply wp_kassert; [done|]. wp_steps.
  eapply wp_put_pnext; [apply lookup_insert_eq|]. unfold __raise_softirq_irqoff, or_softirq_pending. wp_steps.
  cbn [val heap set_heap percpu_heap tasklets set_tasklets]. rewrite insert_insert_eq.
  eapply wp_test_and_set_bit; [cbn; rewrite lookup_insert_ne by done; exact Htj|].
  change (Z.testbit (state xj) TASKLET_STATE_SCHED) with (scheduled xj). rewrite Hsj.
  unfold __tasklet_hi_schedule, schedule_on, append_tasklet, local_irq_save, local_irq_disable, raise_softirq_irqoff,
    __raise_softirq_irqoff, or_softirq_pending, local_irq_restore. wp_steps.
  eapply wp_put_pnext; [apply lookup_insert_eq|]. wp_steps. cbn [vec tail set_vec set_heap percpu_heap set_tasklets set_irqs set_pending].
  rewrite Htail. wp_steps. cbn. rewrite insert_insert_eq. split.
  - exists [(j, set_state (Z.setbit (state xj) TASKLET_STATE_SCHED) xj)]. split; [done|]. split; [done|].
    exists None. by rewrite lookup_insert_eq.
  - eexists _, _. rewrite lookup_insert_ne, lookup_insert_eq by done. split; [done|]. apply testbit_set_0.
Qed.

(** [tasklet_hi_schedule_first] on an empty list leaves the tail pointing
    at the head, so that the next [tasklet_hi_schedule] overwrites it: the
    first tasklet is on no list any more, and because its SCHED bit is still
    set no call can ever schedule it again. *)
Theorem tasklet_hi_schedule_first_loses own s l i j :
  tasklets_ok own None s l -> irqs s = false -> l Hi = [] -> i <> j -> own i = Idle -> own j = Idle ->
  is_Some (tasklets s !! i) -> is_Some (tasklets s !! j) ->
  exists s', (tasklet_hi_schedule_first (Some i) ;;; tasklet_hi_schedule (Some j)) s = Done (tt, s') /\
    ids_chain (tasklets s') (head (vec s' Hi)) [j] /\
    tasklet_hi_schedule (Some i) s' = Done (tt, s') /\ tasklet_schedule (Some i) s' = Done (tt, s') /\
    tasklet_hi_schedule_first (Some i) s' = Done (tt, s').
Proof.
  intros Hok Hir Hl Hij Hi Hj [[ni xi] Hti] [[nj xj] Htj].
  pose proof (first_then_schedule own s l i j ni xi nj xj Hok Hir Hl Hij Hi Hj Hti Htj) as Hw.
  apply wp_run in Hw as ([] & s' & Hrun & Hch & nx & x & Hx & Hsc). exists s'. split; [exact Hrun|]. split; [exact Hch|].
  pose proof (test_and_set_scheduled _ _ _ _ Hx Hsc) as Ht.
  unfold tasklet_hi_schedule, tasklet_schedule, tasklet_hi_schedule_first, bind. by rewrite Ht.
Qed.

Lemma tasklet_hi_schedule_first_loses_witness : exists s',
  (tasklet_hi_schedule_first (Some 0%nat) ;;; tasklet_hi_schedule (Some 2%nat)) (set_irqs false three_tasklets) = Done (tt, s') /\
  ids_chain (tasklets s') (head (vec s' Hi)) [2%nat] /\ tasklet_hi_schedule (Some 0%nat) s' = Done (tt, s').
Proof.
  destruct (tasklet_hi_schedule_first_loses (fun _ => Idle) (set_irqs false three_tasklets) (fun _ => []) 0%nat 2%nat)
    as (s' & H1 & H2 & H3 & _); [by destruct three_tasklets_ok|done..|by eexists|by eexists|]. by exists s'.
Defined.
