(* ===== verification/Net.v ===== *)
(** * Net: the network softirqs (kernel/net.c)

    Each CPU keeps a list of network drivers, linked through [pnext] over a
    static array and [yaos_malloc], and two request flags.  Drivers ask for a
    run with [run_net_tx] and [run_net_rx], which raise the softirqs of
    Softirq.v; the softirq handlers call back every driver.  The callbacks
    (function pointers) and [yaos_malloc] are parameters. *)
From Stdlib Require Import ZArith Lia.
From stdpp Require Import base tactics gmap list option.
From S2P Require Import Prelude Chain Softirq.
#[export] Set Warnings "-clear-no-such-hyp".

Definition ENOMEM : Z := 12.
Definition NR_NETDRIVER_BUF : nat := 8.
Definition NET_TX_SOFTIRQ : Z := 2.
Definition NET_RX_SOFTIRQ : Z := 3.

(** [struct net_callback], behind its link; functions and pointers are words. *)
Record net_callback := NetCallback { driver : Z; param : Z; tx_callback : Z; rx_callback : Z }.
Inductive direction := Rx | Tx.
#[export] Instance direction_eq_dec : EqDecision direction.
Proof. solve_decision. Defined.

(** [struct netdriver_manager] of this CPU, the softirq data of this CPU, and
    the callbacks made so far: function, driver and parameter. *)
Record netman := NetMan {
  netdrivers : gmap nat (link net_callback);
  pfree : option nat;
  phead : option nat;
  canrun_tx : bool;
  canrun_rx : bool;
  cpu : percpu;
  calls : list (Z * Z * Z)
}.
Definition set_netdrivers (h : gmap nat (link net_callback)) (s : netman) : netman :=
  NetMan h (pfree s) (phead s) (canrun_tx s) (canrun_rx s) (cpu s) (calls s).
Definition set_pfree (p : option nat) (s : netman) : netman :=
  NetMan (netdrivers s) p (phead s) (canrun_tx s) (canrun_rx s) (cpu s) (calls s).
Definition set_phead (p : option nat) (s : netman) : netman :=
  NetMan (netdrivers s) (pfree s) p (canrun_tx s) (canrun_rx s) (cpu s) (calls s).
Definition set_canrun_tx (b : bool) (s : netman) : netman :=
  NetMan (netdrivers s) (pfree s) (phead s) b (canrun_rx s) (cpu s) (calls s).
Definition set_canrun_rx (b : bool) (s : netman) : netman :=
  NetMan (netdrivers s) (pfree s) (phead s) (canrun_tx s) b (cpu s) (calls s).
Definition set_cpu (c : percpu) (s : netman) : netman :=
  NetMan (netdrivers s) (pfree s) (phead s) (canrun_tx s) (canrun_rx s) c (calls s).
Definition set_calls (l : list (Z * Z * Z)) (s : netman) : netman :=
  NetMan (netdrivers s) (pfree s) (phead s) (canrun_tx s) (canrun_rx s) (cpu s) l.
#[export] Instance netman_heap : HasHeap netman net_callback :=
  {| heap := netdrivers; set_heap := set_netdrivers; heap_set := fun _ _ => eq_refl |}.

Definition on_cpu {A} : M percpu A -> M netman A := zoom cpu set_cpu.

Section net.
Context (yaos_malloc : M netman (option nat)).
Context (callback : Z -> Z -> Z -> M netman unit).

Definition regist_net_driver_softirq (drv rx tx prm : Z) : M netman Z :=
  p0 <- gets pfree ;;
  p <- (match p0 with
        | None => yaos_malloc
        | Some _ => n <- get p0 ;; modify (set_pfree (pnext n)) ;;; ret p0
        end) ;;
  match p with
  | None => ret ENOMEM
  | Some _ =>
      put_val p (fun _ => NetCallback drv prm tx rx) ;;;
      h <- gets phead ;;
      put_pnext p h ;;;
      modify (set_phead p) ;;;
      ret 0
  end.

Definition run_net_rx : M netman unit :=
  modify (set_canrun_rx true) ;;; on_cpu (raise_softirq NET_RX_SOFTIRQ).
Definition run_net_tx : M netman unit :=
  modify (set_canrun_tx true) ;;; on_cpu (raise_softirq NET_TX_SOFTIRQ).

(** [p->tx_callback(p->driver, p->param)], or the rx one. *)
Definition call (d : direction) (x : net_callback) : M netman unit :=
  let f := match d with Rx => rx_callback x | Tx => tx_callback x end in
  modify (fun s => set_calls (calls s ++ [(f, driver x, param x)]) s) ;;;
  callback f (driver x) (param x).

(** [while (p) { p->..._callback(p->driver, p->param); p = p->pnext; }]: the
    link is read after the callback. *)
Fixpoint call_all (fuel : nat) (d : direction) (p : option nat) : M netman unit :=
  match p with
  | None => ret tt
  | Some _ =>
      match fuel with
      | O => out_of_fuel
      | S fuel' =>
          n <- get p ;;
          call d (val n) ;;;
          n' <- get p ;;
          call_all fuel' d (pnext n')
      end
  end.

(** [while (pm->canrun_xx && ++loop < 10) { pm->canrun_tx = 0; ... }]: [rounds]
    is what is left of the ten; [p] is NULL after the first round. *)
Fixpoint softirq_rounds (fuel rounds : nat) (d : direction) (p : option nat) : M netman unit :=
  match rounds with
  | O => ret tt
  | S rounds' =>
      b <- gets (match d with Rx => canrun_rx | Tx => canrun_tx end) ;;
      if (b : bool) then
        modify (set_canrun_tx false) ;;;
        call_all fuel d p ;;;
        softirq_rounds fuel rounds' d None
      else ret tt
  end.
Definition MAX_ROUNDS : nat := 9.

Definition run_net_tx_softirq (fuel : nat) : M netman unit :=
  p <- gets phead ;;
  match p with None => ret tt | Some _ => softirq_rounds fuel MAX_ROUNDS Tx p end.
Definition run_net_rx_softirq (fuel : nat) : M netman unit :=
  p <- gets phead ;;
  match p with None => ret tt | Some _ => softirq_rounds fuel MAX_ROUNDS Rx p end.
End net.

(** [tx_handler] and [rx_handler] are the addresses of the two handlers. *)
Definition init_net (tx_handler rx_handler : Z) (isbp : bool) : M netman Z :=
  modify (set_netdrivers (links (NetCallback 0 0 0 0) NR_NETDRIVER_BUF)) ;;;
  modify (set_pfree (Some 0%nat)) ;;;
  modify (set_phead None) ;;;
  (if isbp then
     on_cpu (open_softirq (Z.to_nat NET_TX_SOFTIRQ) tx_handler) ;;;
     on_cpu (open_softirq (Z.to_nat NET_RX_SOFTIRQ) rx_handler)
   else ret tt) ;;;
  ret 0.

(** ** The lists of drivers *)

(** [lf] are the unused structures, [l] the registered drivers. *)
Record net_ok (s : netman) (lf l : list (nat * net_callback)) : Prop := {
  no_free : chain (netdrivers s) (pfree s) lf None;
  no_head : chain (netdrivers s) (phead s) l None;
  no_nodup : NoDup (lf.*1 ++ l.*1)
}.

(** What a step may do to the drivers: put new ones in front. *)
Record grows (s : netman) (l : list (nat * net_callback)) (s' : netman) : Prop := {
  gr_ok : exists lf' l0, net_ok s' lf' (l0 ++ l);
  gr_frame i : i ∈ l.*1 -> netdrivers s' !! i = netdrivers s !! i
}.

(** [yaos_malloc] returns NULL, or a structure nobody has. *)
Class NetMalloc (yaos_malloc : M netman (option nat)) : Prop := {
  malloc_ok s : wp yaos_malloc s (fun r s' =>
    r = None /\ s' = s \/
    exists i n, r = Some i /\ netdrivers s !! i = None /\ s' = set_netdrivers (<[i := n]> (netdrivers s)) s)
}.

(** A callback returns; it may register drivers and ask for runs.  Nothing in
    the file clears [canrun_rx]. *)
Class NetDriver (callback : Z -> Z -> Z -> M netman unit) : Prop := {
  callback_ok f d p s lf l : net_ok s lf l ->
    wp (callback f d p) s (fun _ s' => grows s l s' /\ calls s' = calls s /\
      (canrun_rx s = true -> canrun_rx s' = true))
}.

Lemma net_ok_frame s s' lf l :
  netdrivers s' = netdrivers s -> pfree s' = pfree s -> phead s' = phead s ->
  net_ok s lf l -> net_ok s' lf l.
Proof. intros Hn Hf Hh []. split; rewrite ?Hn, ?Hf, ?Hh; done. Qed.

Lemma grows_frame s s' lf l :
  netdrivers s' = netdrivers s -> pfree s' = pfree s -> phead s' = phead s ->
  net_ok s lf l -> grows s l s'.
Proof.
  intros Hn Hf Hh Hok. split; [|intros i _; by rewrite Hn].
  exists lf, []. by eapply net_ok_frame.
Qed.

Section runs.
Context (callback : Z -> Z -> Z -> M netman unit) `{!NetDriver callback}.

Definition log (d : direction) (l : list (nat * net_callback)) : list (Z * Z * Z) :=
  match d with
  | Rx => (fun c => (rx_callback c.2, driver c.2, param c.2)) <$> l
  | Tx => (fun c => (tx_callback c.2, driver c.2, param c.2)) <$> l
  end.

Lemma log_cons d i x l :
  log d ((i, x) :: l) = (match d with Rx => rx_callback x | Tx => tx_callback x end, driver x, param x) :: log d l.
Proof. by destruct d. Qed.

(** All callbacks of a chain, each once and in order, whatever they do. *)
Lemma call_all_ok fuel d l : forall s p l1 lf l2,
  net_ok s lf (l2 ++ l1 ++ l) -> chain (netdrivers s) p l None -> (length l <= fuel)%nat ->
  wp (call_all callback fuel d p) s (fun _ s' =>
    grows s (l1 ++ l) s' /\ calls s' = calls s ++ log d l /\
    (canrun_rx s = true -> canrun_rx s' = true)).
Proof.
  revert fuel. induction l as [|[i x] l IH]; intros fuel s p l1 lf l2 Hok Hp Hfuel.
  - cbn in Hp. subst p. assert (call_all callback fuel d None = ret tt) as -> by (by destruct fuel). wp_steps.
    split; [split; [by exists lf, l2|done]|]. split; [destruct d; by rewrite app_nil_r|done].
  - destruct Hp as (-> & nx & Hi & Hl). destruct fuel as [|fuel]; [cbn in Hfuel; lia|].
    cbn [call_all]. wp_steps. eapply wp_get; [exact Hi|]. cbn [val]. unfold call. wp_steps.
    set (s1 := set_calls _ s).
    assert (net_ok s1 lf (l2 ++ l1 ++ (i, x) :: l)) as Hok1 by (by eapply net_ok_frame; last exact Hok).
    eapply wp_mono; [by apply (callback_ok _ _ _ _ _ _ Hok1)|].
    intros _ s2 ([(lf' & l0 & Hok2) Hfr] & Hc & Hrx). cbn [netdrivers s1 set_calls] in Hfr.
    assert (forall j, j ∈ (l1 ++ (i, x) :: l).*1 -> netdrivers s2 !! j = netdrivers s !! j) as Hfr'.
    { intros j Hj. apply Hfr. rewrite fmap_app, elem_of_app. by right. }
    assert (netdrivers s2 !! i = Some (Link nx x)) as Hi2.
    { rewrite Hfr'; [exact Hi|]. rewrite fmap_app. set_solver. }
    wp_steps. eapply wp_get; [exact Hi2|]. cbn [pnext]. eapply wp_mono.
    { apply (IH fuel s2 nx (l1 ++ [(i, x)]) lf' (l0 ++ l2)).
      - rewrite <- !(assoc_L app). exact Hok2.
      - eapply chain_frame; [exact Hl|]. intros j Hj. apply Hfr'. rewrite fmap_app. set_solver.
      - cbn in Hfuel. lia. }
    intros _ s3 ([Hex Hfr3] & Hc3 & Hrx3). rewrite <- (assoc_L app) in Hex, Hfr3. split.
    + split; [exact Hex|]. intros j Hj. rewrite Hfr3 by exact Hj. by apply Hfr'.
    + split; [|auto]. rewrite Hc3, Hc, log_cons. cbn [calls s1 set_calls]. by rewrite <- (assoc_L app).
Qed.

(** The later rounds find [p] NULL: they call nobody and clear [canrun_tx]. *)
Lemma rounds_idle fuel rounds d s lf l :
  net_ok s lf l ->
  wp (softirq_rounds callback fuel rounds d None) s (fun _ s' =>
    grows s l s' /\ calls s' = calls s /\ canrun_rx s' = canrun_rx s /\
    (canrun_tx s' = canrun_tx s \/ canrun_tx s' = false) /\
    (match d with Rx => canrun_rx s | Tx => canrun_tx s end = true -> (0 < rounds)%nat ->
     canrun_tx s' = false)).
Proof.
  revert s. induction rounds as [|rounds IH]; intros s Hok; cbn [softirq_rounds].
  { apply wp_ret. split_and!; try done; [by eapply grows_frame|by left|lia]. }
  wp_steps. assert (match d with Rx => canrun_rx | Tx => canrun_tx end s =
    match d with Rx => canrun_rx s | Tx => canrun_tx s end) as -> by (by destruct d).
  destruct (match d with Rx => canrun_rx s | Tx => canrun_tx s end).
  - wp_steps. assert (forall f, call_all callback f d None = ret tt) as -> by (by intros []).
    wp_steps. eapply wp_mono; [apply IH; by eapply net_ok_frame; last exact Hok|].
    intros _ s' ([Hex Hfr] & Hc & Hrx & Ht & _). cbn [canrun_tx set_canrun_tx] in Ht.
    split_and!; [by split|done|done|right; tauto|tauto].
  - wp_steps. split_and!; try done; [by eapply grows_frame|by left].
Qed.

(** One softirq: every driver once, in order; no request of a callback for
    transmission is left. *)
Lemma softirq_ok d fuel s lf l :
  net_ok s lf l -> l <> [] -> (length l <= fuel)%nat ->
  match d with Rx => canrun_rx s | Tx => canrun_tx s end = true ->
  wp (softirq_rounds callback fuel MAX_ROUNDS d (phead s)) s (fun _ s' =>
    grows s l s' /\ calls s' = calls s ++ log d l /\ canrun_tx s' = false /\
    (canrun_rx s = true -> canrun_rx s' = true)).
Proof.
  intros Hok Hne Hfuel Hrun. change MAX_ROUNDS with (S 8). cbn [softirq_rounds]. wp_steps.
  assert (match d with Rx => canrun_rx | Tx => canrun_tx end s = true) as -> by (by destruct d).
  wp_steps. eapply wp_mono.
  { apply (call_all_ok fuel d l _ _ [] lf []);
      [by eapply net_ok_frame; last exact Hok|by apply Hok|done]. }
  intros _ s1 ([(lf1 & l0 & Hok1) Hfr1] & Hc1 & Hrx1). cbn [app] in *.
  eapply wp_mono; [by apply (rounds_idle fuel 8 d s1 lf1 (l0 ++ l))|].
  intros _ s2 ([(lf2 & l2 & Hok2) Hfr2] & Hc2 & Hrx2 & Hold & Hnew). split; [split|].
  - exists lf2, (l2 ++ l0). by rewrite <- (assoc_L app).
  - intros i Hi. rewrite Hfr2; [by apply Hfr1|]. rewrite fmap_app. set_solver.
  - split; [by rewrite Hc2, Hc1|]. split; [destruct d|intros Hr; rewrite Hrx2; by apply Hrx1].
    + apply Hnew; [by apply Hrx1|lia].
    + destruct (canrun_tx s1) eqn:Ht; [apply Hnew; [done|lia]|]. by destruct Hold as [->| ->].
Qed.

Lemma run_softirq_ok d fuel s lf l :
  net_ok s lf l -> (length l <= fuel)%nat ->
  wp (match d with Rx => run_net_rx_softirq callback fuel | Tx => run_net_tx_softirq callback fuel end) s
    (fun _ s' =>
      (l = [] \/ match d with Rx => canrun_rx s | Tx => canrun_tx s end = false) /\ s' = s \/
      l <> [] /\ match d with Rx => canrun_rx s | Tx => canrun_tx s end = true /\
      grows s l s' /\ calls s' = calls s ++ log d l /\ canrun_tx s' = false /\
      (canrun_rx s = true -> canrun_rx s' = true)).
Proof.
  intros Hok Hfuel.
  assert (wp (p <- gets phead ;;
    match p with None => ret tt | Some _ => softirq_rounds callback fuel MAX_ROUNDS d p end) s
    (fun _ s' =>
      (l = [] \/ match d with Rx => canrun_rx s | Tx => canrun_tx s end = false) /\ s' = s \/
      l <> [] /\ match d with Rx => canrun_rx s | Tx => canrun_tx s end = true /\
      grows s l s' /\ calls s' = calls s ++ log d l /\ canrun_tx s' = false /\
      (canrun_rx s = true -> canrun_rx s' = true))) as H;
    [|by destruct d].
  wp_steps. pose proof (no_head _ _ _ Hok) as Hh.
  destruct l as [|[i x] l]; [cbn in Hh; rewrite Hh; wp_steps; left; split; [by left|done]|].
  assert (phead s = Some i) as Hp by apply Hh.
  replace (match phead s with None => ret tt | Some _ =>
    softirq_rounds callback fuel MAX_ROUNDS d (phead s) end)
    with (softirq_rounds callback fuel MAX_ROUNDS d (phead s)) by (by rewrite Hp).
  destruct (match d with Rx => canrun_rx s | Tx => canrun_tx s end) eqn:Hb.
  - eapply wp_mono; [by apply (softirq_ok d fuel s lf ((i, x) :: l))|]. intros [] s' H. right.
    split; [done|]. split; [done|exact H].
  - change MAX_ROUNDS with (S 8). cbn [softirq_rounds]. wp_steps.
    assert (match d with Rx => canrun_rx | Tx => canrun_tx end s = false) as -> by (by destruct d).
    wp_steps. left. split; [by right|done].
Qed.
End runs.

(** ** Registration *)
Lemma put_driver_ok s i (n : link net_callback) x Q :
  netdrivers s !! i = Some n ->
  Q 0 (set_phead (Some i) (set_netdrivers (<[i := Link (phead s) x]> (netdrivers s)) s)) ->
  wp (put_val (Some i) (fun _ => x)) s (fun _ s' =>
    wp (h <- gets phead ;; put_pnext (Some i) h ;;; modify (set_phead (Some i)) ;;; ret 0) s' Q).
Proof.
  intros Hi HQ. eapply wp_put_val; [exact Hi|]. wp_steps.
  eapply wp_put_pnext; [cbn; apply lookup_insert_eq|]. wp_steps. cbn.
  by rewrite insert_insert_eq.
Qed.

Lemma regist_ok yaos_malloc `{!NetMalloc yaos_malloc} s lf l drv rx tx prm :
  net_ok s lf l ->
  wp (regist_net_driver_softirq yaos_malloc drv rx tx prm) s (fun r s' =>
    r = ENOMEM /\ s' = s /\ lf = [] \/
    r = 0 /\ (exists i, net_ok s' (drop 1 lf) ((i, NetCallback drv prm tx rx) :: l) /\
       (lf <> [] -> exists x, lf !! 0%nat = Some (i, x)) /\
       (forall j, j ∈ l.*1 -> netdrivers s' !! j = netdrivers s !! j)) /\
    canrun_tx s' = canrun_tx s /\ canrun_rx s' = canrun_rx s /\ cpu s' = cpu s /\ calls s' = calls s).
Proof.
  intros [Hf Hh Hnd]. unfold regist_net_driver_softirq. wp_steps.
  destruct lf as [|[i y] lf].
  - cbn in Hf. rewrite Hf. wp_steps. eapply wp_mono; [apply malloc_ok|].
    intros r s1 [[-> ->]|(i & n & -> & Hi & ->)]; [wp_steps; by left|].
    wp_steps. apply (put_driver_ok _ i n); [cbn; apply lookup_insert_eq|]. right. split; [done|].
    split; [|done]. exists i. cbn [netdrivers set_phead set_netdrivers phead].
    rewrite insert_insert_eq.
    assert (i ∉ l.*1) as Hni.
    { intros Hin. pose proof (chain_elem _ _ _ _ _ Hh Hin) as [? ?]. congruence. }
    split; [|split; [done|]].
    + split; cbn [netdrivers pfree phead set_phead set_netdrivers drop].
      * exact Hf.
      * by apply chain_cons.
      * cbn. apply list.NoDup_cons. split; [done|]. by cbn in Hnd.
    + intros j Hj. rewrite lookup_insert_ne; [done|]. set_solver.
  - destruct Hf as (Hp & nx & Hi & Hf). rewrite Hp. wp_steps. eapply wp_get; [exact Hi|]. wp_steps.
    apply (put_driver_ok _ i (Link nx y)); [exact Hi|]. right. split; [done|]. split; [|done].
    exists i. cbn in Hnd. apply list.NoDup_cons in Hnd as [Hni Hnd].
    rewrite elem_of_app in Hni. split; [|split].
    + split; cbn [netdrivers pfree phead set_phead set_netdrivers set_pfree drop pnext].
      * apply chain_insert_ne; [tauto|exact Hf].
      * apply chain_cons; [tauto|exact Hh].
      * cbn. rewrite list.NoDup_app in Hnd |- *. destruct Hnd as (H1 & H2 & H3).
        split; [done|]. split; [|apply list.NoDup_cons; split; [tauto|done]].
        intros j Hj. apply not_elem_of_cons. split; [|by apply H2]. intros ->. tauto.
    + intros _. by exists y.
    + intros j Hj. cbn. apply lookup_insert_ne. set_solver.
Qed.

Lemma init_net_ok t r b s :
  wp (init_net t r b) s (fun x s' => x = 0 /\
    (exists lf, net_ok s' lf [] /\ length lf = NR_NETDRIVER_BUF) /\
    canrun_tx s' = canrun_tx s /\ canrun_rx s' = canrun_rx s /\ calls s' = calls s).
Proof.
  assert (forall s0, netdrivers s0 = links (NetCallback 0 0 0 0) NR_NETDRIVER_BUF ->
    pfree s0 = Some 0%nat -> phead s0 = None ->
    exists lf, net_ok s0 lf [] /\ length lf = NR_NETDRIVER_BUF) as Hinit.
  { intros s0 Hn Hf Hh. exists ((fun i => (i, NetCallback 0 0 0 0)) <$> seq 0 NR_NETDRIVER_BUF).
    split; [|done]. split; rewrite ?Hn, ?Hf, ?Hh; [apply links_chain; unfold NR_NETDRIVER_BUF; lia|done|].
    rewrite app_nil_r. vm_compute. repeat (constructor; [set_solver|]). constructor. }
  unfold init_net. wp_steps.
  destruct b; unfold on_cpu, open_softirq; wp_steps; (split; [done|]); (split; [by apply Hinit|done]).
Qed.

(** ** A driver that answers what it received *)
Definition REPLY : Z := 1.
Definition reply_driver (f d p : Z) : M netman unit := if f =? REPLY then run_net_tx else ret tt.

#[export] Instance reply_net_driver : NetDriver reply_driver.
Proof.
  split. intros f d p s lf l Hok. unfold reply_driver.
  destruct (f =? REPLY); [|apply wp_ret; split; [by eapply grows_frame|done]].
  unfold run_net_tx, on_cpu, raise_softirq, raise_softirq_irqoff, __raise_softirq_irqoff,
    or_softirq_pending, local_irq_save, local_irq_disable, local_irq_restore. wp_steps.
  split; [by eapply grows_frame|done].
Qed.

Definition no_memory : M netman (option nat) := ret None.
#[export] Instance no_memory_malloc : NetMalloc no_memory.
Proof. split. intros s. apply wp_ret. by left. Qed.

(** The state after start-up, with one answering driver and a receive request. *)
Definition cpu0 : percpu := softirq_init ∅ 6 0.
Definition net0 : netman := NetMan ∅ None None false false cpu0 [].
Definition one_driver : netman :=
  match (init_net 20 30 true ;;; regist_net_driver_softirq no_memory 7 REPLY 2 70 ;;; run_net_rx) net0 with
  | Done (_, s) => s
  | _ => net0
  end.

Lemma one_driver_ok :
  exists lf i, net_ok one_driver lf [(i, NetCallback 7 70 2 REPLY)] /\ canrun_rx one_driver = true.
Proof.
  enough (wp (init_net 20 30 true ;;; regist_net_driver_softirq no_memory 7 REPLY 2 70 ;;; run_net_rx) net0
    (fun _ s => exists lf i, net_ok s lf [(i, NetCallback 7 70 2 REPLY)] /\ canrun_rx s = true)) as Hwp.
  { apply wp_run in Hwp as (u & s & Hrun & Hres). unfold one_driver. by rewrite Hrun. }
  wp_steps. eapply wp_mono; [apply init_net_ok|].
  intros _ s1 (-> & (lf & Hok & Hlen) & _). wp_steps.
  eapply wp_mono; [by apply (regist_ok no_memory s1 lf [])|].
  intros r s2 [(_ & _ & ->)|(-> & (i & Hok2 & _) & _)]; [done|]. unfold run_net_rx, on_cpu. wp_steps.
  unfold raise_softirq, raise_softirq_irqoff, __raise_softirq_irqoff,
    or_softirq_pending, local_irq_save, local_irq_disable, local_irq_restore. wp_steps.
  exists (drop 1 lf), i. split; [|done]. by eapply net_ok_frame; last exact Hok2.
Qed.

(** ** Properties *)

(** [regist_net_driver_softirq] puts the driver in front of the list, in
    an unused structure of the array or, when there is none, one from
    [yaos_malloc], and changes nothing when that fails too. *)
Theorem regist_net_driver_correct yaos_malloc `{!NetMalloc yaos_malloc} s lf l drv rx tx prm
    (Hok : net_ok s lf l) :
  exists r s', regist_net_driver_softirq yaos_malloc drv rx tx prm s = Done (r, s') /\
    (r = ENOMEM /\ s' = s /\ lf = [] \/
     r = 0 /\ (exists i, net_ok s' (drop 1 lf) ((i, NetCallback drv prm tx rx) :: l) /\
       (lf <> [] -> exists x, lf !! 0%nat = Some (i, x)) /\
       (forall j, j ∈ l.*1 -> netdrivers s' !! j = netdrivers s !! j)) /\
     canrun_tx s' = canrun_tx s /\ canrun_rx s' = canrun_rx s /\ cpu s' = cpu s /\ calls s' = calls s).
Proof. by apply wp_run, regist_ok. Qed.

Lemma regist_net_driver_correct_witness :
  exists r s', regist_net_driver_softirq no_memory 8 3 4 80 one_driver = Done (r, s').
Proof.
  destruct one_driver_ok as (lf & i & Hok & _).
  destruct (regist_net_driver_correct no_memory one_driver lf _ 8 3 4 80 Hok) as (r & s' & Hrun & _).
  exists r, s'. exact Hrun.
Defined.

(** C37: a network softirq ends for all drivers that keep to the rules.  When
    no driver is registered or the flag of its direction is down it changes
    nothing.  Otherwise it calls the receive function of every registered
    driver, or the transmit function, exactly once each with that driver's
    arguments and in the order of the list, also when callbacks register more
    drivers, which stay in front of the list; and it leaves the transmit flag
    down and the receive flag up if it was, whichever direction it served. *)
Theorem net_softirq_correct callback `{!NetDriver callback} d fuel s lf l
    (Hok : net_ok s lf l) (Hfuel : (length l <= fuel)%nat) :
  exists s',
    (match d with Rx => run_net_rx_softirq callback fuel | Tx => run_net_tx_softirq callback fuel end) s
      = Done (tt, s') /\
    ((l = [] \/ match d with Rx => canrun_rx s | Tx => canrun_tx s end = false) /\ s' = s \/
     l <> [] /\ match d with Rx => canrun_rx s | Tx => canrun_tx s end = true /\
     calls s' = calls s ++ match d with
       | Rx => (fun c => (rx_callback c.2, driver c.2, param c.2)) <$> l
       | Tx => (fun c => (tx_callback c.2, driver c.2, param c.2)) <$> l
       end /\
     canrun_tx s' = false /\ (canrun_rx s = true -> canrun_rx s' = true) /\
     exists lf' l', net_ok s' lf' (l' ++ l)).
Proof.
  pose proof (run_softirq_ok callback d fuel s lf l Hok Hfuel) as Hwp.
  apply wp_run in Hwp as ([] & s' & Hrun & Hres). exists s'. split; [exact Hrun|].
  destruct Hres as [?|(? & ? & [Hg _] & ? & ? & ?)]; [by left|by right].
Qed.

Lemma net_softirq_correct_witness :
  exists s', run_net_rx_softirq reply_driver 1 one_driver = Done (tt, s') /\
    calls s' = calls one_driver ++ [(REPLY, 7, 70)].
Proof.
  destruct one_driver_ok as (lf & i & Hok & Hrx).
  destruct (net_softirq_correct reply_driver Rx 1 one_driver lf _ Hok) as (s' & Hrun & Hres).
  - cbn. lia.
  - exists s'. split; [exact Hrun|]. destruct Hres as [[[Hn|Hn] _]|(_ & _ & Hc & _)]; [discriminate|congruence|exact Hc].
Defined.

(** The receive softirq loses every request to transmit: it clears
    [canrun_tx] instead of [canrun_rx] in each of its rounds, so the transmit
    softirq that runs next calls no driver, whatever was requested before the
    receive run or by its callbacks. *)
Theorem net_rx_loses_tx callback `{!NetDriver callback} fuel s lf l
    (Hok : net_ok s lf l) (Hne : l <> []) (Hfuel : (length l <= fuel)%nat) (Hrx : canrun_rx s = true) :
  exists s', (run_net_rx_softirq callback fuel ;;; run_net_tx_softirq callback fuel) s = Done (tt, s') /\
    calls s' = calls s ++ ((fun c => (rx_callback c.2, driver c.2, param c.2)) <$> l) /\ canrun_tx s' = false.
Proof.
  enough (wp (run_net_rx_softirq callback fuel ;;; run_net_tx_softirq callback fuel) s (fun _ s' =>
    calls s' = calls s ++ ((fun c => (rx_callback c.2, driver c.2, param c.2)) <$> l) /\ canrun_tx s' = false)) as Hwp.
  { apply wp_run in Hwp as ([] & s' & Hrun & Hres). by exists s'. }
  wp_steps. eapply wp_mono; [by apply (run_softirq_ok callback Rx fuel s lf l)|].
  intros _ s1 [[[?|?] _]|(_ & _ & [_ _] & Hc & Htx & _)]; [done|congruence|].
  unfold run_net_tx_softirq. wp_steps. destruct (phead s1); [|wp_steps; by split].
  change MAX_ROUNDS with (S 8). cbn [softirq_rounds]. wp_steps. rewrite Htx. wp_steps. by split.
Qed.

Lemma net_rx_loses_tx_witness :
  exists s', (run_net_rx_softirq reply_driver 1 ;;; run_net_tx_softirq reply_driver 1) one_driver
      = Done (tt, s') /\ calls s' = calls one_driver ++ [(REPLY, 7, 70)] /\ canrun_tx s' = false.
Proof.
  destruct one_driver_ok as (lf & i & Hok & Hrx).
  apply (net_rx_loses_tx reply_driver 1 one_driver lf [(i, NetCallback 7 70 2 REPLY)] Hok).
  - discriminate.
  - cbn. lia.
  - exact Hrx.
Defined.

(** The request it loses: the driver above did ask, and the softirq is pending. *)
Example lost_request :
  match run_net_rx_softirq reply_driver 1 one_driver with
  | Done (_, s') => Z.testbit (pending (cpu s')) NET_TX_SOFTIRQ = true /\ canrun_tx s' = false
  | _ => False
  end.
Proof. vm_compute. by split. Qed.
