(* ===== verification/Vm.v ===== *)
(** * Vm: ranges of virtual addresses (kernel/vm.c)

    Four zones of the address space, each a hole list over the node array of
    HoleList.v with one more list, [alloced], of the ranges handed out; the
    register of kernel stacks; and [alloc_vm] and its kin, which back a range
    with pages of PgTable.v.  The fields [start], [end] and [name] of a zone
    are never read but for printing and are left out. *)
From Stdlib Require Import ZArith Lia String.
From stdpp Require Import base tactics gmap list option.
From S2P Require Import Prelude HoleList FreeSet Pages Layout PgTable.
#[export] Set Warnings "-clear-no-such-hyp".

Definition MAX_LINEAR_HOLE : nat := 100.
Definition PAGE_MASK : Z := PAGE_SIZE_LARGE - 1.
Definition FUEL_VM : nat := S MAX_LINEAR_HOLE.
#[global] Arguments FUEL_VM : simpl never.

(** ** Zones *)

(** [struct linear_zone]: [z_pool] holds [linear_holes], [pfreeh], [phead] and
    [spin_vm]; the nodes of [alloced] come from the same array. *)
Record linear_zone := Zone { z_pool : pool unit; z_alloced : option nat }.
Definition set_pool (p : pool unit) (z : linear_zone) : linear_zone := Zone p (z_alloced z).
Definition set_alloced (p : option nat) (z : linear_zone) : linear_zone := Zone (z_pool z) p.
Definition on_pool {A} : M (pool unit) A -> M linear_zone A := zoom z_pool set_pool.

(** [if (size & PAGE_MASK) size = (size & ~PAGE_MASK) + PAGE_SIZE_LARGE;] *)
Definition align_2m (size : Z) : Z :=
  if Z.land size PAGE_MASK =? 0 then size
  else wrap64 (Z.land size (lnot64 PAGE_MASK) + PAGE_SIZE_LARGE).

(** As in kernel/kheap.c, the merging branch returns with the lock held. *)
Definition free_linear_zone (addr size0 : Z) : M (pool unit) unit :=
  kassert (Z.land addr PAGE_MASK =? 0) ;;;
  let size := align_2m size0 in
  p <- gets p_free ;;
  match p with
  | None => panic
  | Some _ =>
      spin_lock ;;;
      h <- gets p_head ;;
      ph <- walk FUEL_VM (fun a z => wrap64 (a + z) =? addr) h ;;
      match ph with
      | Some _ =>
          n <- deref ph ;;
          put_range ph (n_addr n) (wrap64 (n_size n + size))
      | None =>
          new_hole FUEL_VM p addr size tt ;;;
          spin_unlock
      end
  end.

(** The search of [check_alloced] for a live range in the 2M page of [addr]
    with room behind (the first case) or above it (the second); 0 is NULL. *)
Fixpoint check_loop (fuel : nat) (addr size : Z) (p : option nat) : M (pool unit) Z :=
  match fuel with
  | O => out_of_fuel
  | S fuel' =>
      match p with
      | None => spin_unlock ;;; ret 0
      | Some _ =>
          let base := Z.land addr (lnot64 PAGE_MASK) in
          let addrmask := Z.land addr PAGE_MASK in
          let offset := wrap64 (addrmask + size) in
          n <- deref p ;;
          if (n_addr n =? base) && ((addrmask <=? n_size n) &&
               (wrap64 (n_size n + size) <? PAGE_SIZE_LARGE)) then
            put_range p (n_addr n) (wrap64 (n_size n + size)) ;;;
            spin_unlock ;;;
            ret (wrap64 (base + n_size n))
          else if (n_addr n =? base) && ((offset <? PAGE_SIZE_LARGE) &&
               (n_size n <=? addrmask)) then
            put_range p (n_addr n) offset ;;;
            spin_unlock ;;;
            ret addr
          else check_loop fuel' addr size (n_next n)
      end
  end.
Definition check_alloced (addr size : Z) : M linear_zone Z :=
  p <- gets z_alloced ;;
  on_pool spin_lock ;;;
  on_pool (check_loop FUEL_VM addr size p).

(** [z->pfreeh = pfree->pnext; pfree->addr = a; pfree->size = size;
    pfree->pnext = z->alloced; z->alloced = pfree;] *)
Definition record_alloced (pfree : option nat) (a size : Z) : M linear_zone unit :=
  n <- on_pool (deref pfree) ;;
  on_pool (modify (set_free (n_next n))) ;;;
  on_pool (put_range pfree a size) ;;;
  q <- gets z_alloced ;;
  on_pool (put_next pfree q) ;;;
  modify (set_alloced pfree).

(** The common end: take [size] bytes from the front of hole [p]. *)
Definition take_front (p pfree : option nat) (size low realsize : Z) : M linear_zone Z :=
  r <- on_pool (carve FUEL_VM drop0 p size) ;;
  record_alloced pfree r (wrap64 (realsize + low)) ;;;
  on_pool spin_unlock ;;;
  ret (wrap64 (r + low)).

(** [(p->addr <= addr && p->addr + p->size >= addr + size)] *)
Definition contains (addr size a z : Z) : bool :=
  (a <=? addr) && (wrap64 (addr + size) <=? wrap64 (a + z)).

(** The only recursive call passes NULL, and a NULL call makes none. *)
Fixpoint alloc_linear_zone_impl (fuel : nat) (realaddr realsize : Z) : M linear_zone Z :=
  match fuel with
  | O => out_of_fuel
  | S fuel' =>
  found <- (if realaddr =? 0 then ret 0 else check_alloced realaddr realsize) ;;
  if negb (found =? 0) then ret found else
  pfree <- on_pool (gets p_free) ;;
  match pfree with
  | None => panic
  | Some _ =>
      let low := Z.land realaddr PAGE_MASK in
      let addr := if low =? 0 then realaddr else Z.land realaddr (lnot64 PAGE_MASK) in
      let size := if low =? 0 then align_2m realsize else wrap64 (align_2m realsize + low) in
      on_pool spin_lock ;;;
      h <- on_pool (gets p_head) ;;
      if realaddr =? 0 then
        p <- on_pool (walk FUEL_VM (fun _ z => negb (z <? size)) h) ;;
        match p with
        | None => on_pool spin_unlock ;;; ret 0
        | Some _ => take_front p pfree size low realsize
        end
      else
        p <- on_pool (walk FUEL_VM (fun a z => negb (z <? size) || contains addr size a z) h) ;;
        let elsewhere :=
          on_pool spin_unlock ;;;
          alloc_linear_zone_impl fuel' 0 realsize in
        match p with
        | None => elsewhere
        | Some _ =>
            n <- on_pool (deref p) ;;
            if (n_size n <? size) || negb (contains addr size (n_addr n) (n_size n)) then elsewhere
            else if negb (n_addr n =? addr) then
              on_pool (put_range p (n_addr n) (wrap64 (addr - n_addr n))) ;;;
              record_alloced pfree addr (wrap64 (realsize + low)) ;;;
              on_pool spin_unlock ;;;
              let freeaddr := Z.land (wrap64 (wrap64 (addr + size) + PAGE_MASK)) (lnot64 PAGE_MASK) in
              on_pool (free_linear_zone freeaddr
                         (wrap64 (wrap64 (n_addr n + n_size n) - freeaddr))) ;;;
              ret (wrap64 (addr + low))
            else take_front p pfree size low realsize
        end
  end
  end.
Definition ALLOC_FUEL : nat := 2.
Definition alloc_linear_at (addr size : Z) : M linear_zone Z :=
  alloc_linear_zone_impl ALLOC_FUEL addr size.
Definition alloc_linear (size : Z) : M linear_zone Z := alloc_linear_at 0 size.

Definition init_vm_zone (addr size : Z) : M linear_zone unit :=
  modify (fun _ => Zone (init_pool tt MAX_LINEAR_HOLE) None) ;;;
  on_pool (free_linear_zone addr size).

(** ** The four zones *)
Definition VM_ZONE_VMALLOC : Z := 1.
Definition VM_ZONE_KERNEL_STACK : Z := 2.
Definition VM_ZONE_LOW_MMAP : Z := 3.
Definition VM_ZONE_KERNEL_BELOW1G : Z := 4.

Inductive zone_name := vmalloc_zone | low_mmap_zone | kernel_stack_zone | kernel_below1g_zone.
#[global] Instance zone_name_eq_dec : EqDecision zone_name.
Proof. solve_decision. Defined.

(** The static zones. *)
Definition zones : Type := zone_name -> linear_zone.
Definition on_zone {A} (n : zone_name) : M linear_zone A -> M zones A :=
  zoom (fun zs => zs n) (fun z zs => fun n' => if decide (n' = n) then z else zs n').

Definition get_zone (id : Z) : M zones zone_name :=
  if id =? VM_ZONE_VMALLOC then ret vmalloc_zone
  else if id =? VM_ZONE_LOW_MMAP then ret low_mmap_zone
  else if id =? VM_ZONE_KERNEL_STACK then ret kernel_stack_zone
  else if id =? VM_ZONE_KERNEL_BELOW1G then ret kernel_below1g_zone
  else panic.
Definition get_zone_from_addr (addr : Z) : M zones zone_name :=
  if (VMALLOC_START <=? addr) && (addr <=? VMALLOC_END) then ret vmalloc_zone
  else if (LOW_MMAP_START <=? addr) && (addr <=? LOW_MMAP_END) then ret low_mmap_zone
  else if (KERNEL_BELOW_1G_START <=? addr) && (addr <=? KERNEL_BELOW_1G_END) then
    ret kernel_below1g_zone
  else panic.

Definition free_linear (id addr size : Z) : M zones unit :=
  n <- get_zone id ;; on_zone n (on_pool (free_linear_zone addr size)).
Definition alloc_linear_impl (id addr size : Z) : M zones Z :=
  n <- get_zone id ;; on_zone n (alloc_linear_at addr size).
Definition alloc_linear_hint (addr size : Z) : M zones Z :=
  n <- get_zone_from_addr addr ;; on_zone n (alloc_linear_at addr size).
Definition free_linear_hint (addr size : Z) : M zones unit :=
  n <- get_zone_from_addr addr ;; on_zone n (on_pool (free_linear_zone addr size)).

(** ** The register of kernel stacks *)
Definition MAX_STACKS : nat := 100.

(** [struct stack_owner] is a node whose extra field is [cpu] and [name];
    [p_free] is [pStackFree] and [p_head] is [pStackHead]. *)
Definition stacks : Type := pool (Z * string).
Definition init_stack_owner : stacks := init_pool (0, EmptyString) MAX_STACKS.

Definition register_stack (start end_ : Z) (name : string) (cpu : Z) : M stacks unit :=
  p <- gets p_free ;;
  kassert (bool_decide (p <> None)) ;;;
  n <- deref p ;;
  modify (set_free (n_next n)) ;;;
  put_cell p start (wrap32 (end_ - start)) (cpu, name) ;;;
  h <- gets p_head ;;
  put_next p h ;;;
  modify (set_head p).

(** The loop of [check_stack] and [find_stack], which print or return what
    they find. *)
Definition in_stack (addr start size : Z) : bool :=
  (start <=? addr) && (addr <=? wrap64 (start + size)).
Definition check_stack (addr : Z) : M stacks bool :=
  h <- gets p_head ;;
  p <- walk (S MAX_STACKS) (in_stack addr) h ;;
  ret (bool_decide (p <> None)).
Definition find_stack (addr : Z) : M stacks (option (Z * Z * string)) :=
  h <- gets p_head ;;
  p <- walk (S MAX_STACKS) (in_stack addr) h ;;
  match p with
  | None => ret None
  | Some _ =>
      n <- deref p ;;
      ret (Some (n_addr n, wrap64 (n_addr n + n_size n), snd (n_meta n)))
  end.

(** ** Start, and ranges with pages behind them *)
Definition init_vm : M (zones * stacks) unit :=
  let zone n m := zoom fst (fun zs s => (zs, snd s)) (on_zone n m) in
  modify (fun s => (fst s, init_stack_owner)) ;;;
  zone vmalloc_zone (init_vm_zone VMALLOC_START VMALLOC_SIZE) ;;;
  zone low_mmap_zone (init_vm_zone LOW_MMAP_START LOW_MMAP_SIZE) ;;;
  zone kernel_stack_zone (init_vm_zone KERNEL_STACK_ZONE_START KERNEL_STACK_ZONE_SIZE) ;;;
  zone kernel_below1g_zone (init_vm_zone KERNEL_BELOW_1G_START KERNEL_BELOW_1G_SIZE).

Section backed.
Context {T : Type} `{FA : FrameAlloc T}.

Record vm := VMem { v_zones : zones; v_mm : mm T }.
Definition on_zones {A} : M zones A -> M vm A := zoom v_zones (fun z s => VMem z (v_mm s)).
Definition on_mm {A} : M (mm T) A -> M vm A := zoom v_mm (fun m s => VMem (v_zones s) m).

Definition free_vm (id addr size : Z) : M vm unit :=
  on_mm (unmap_free_at addr size) ;;;
  on_zones (free_linear id addr size).
Definition alloc_vm (id size : Z) : M vm Z :=
  p <- on_zones (alloc_linear_impl id 0 size) ;;
  if p =? 0 then ret p
  else
    e <- on_mm (map_alloc_at p size map_flags_rw) ;;
    if negb (e =? OK) then on_zones (free_linear id p size) ;;; ret 0
    else ret p.

(** The lowest 2M of a stack's range stay unmapped; only its top page is
    mapped at once. *)
Definition free_vm_stack (addr size : Z) : M vm unit :=
  on_mm (unmap_free_at addr size) ;;;
  on_zones (free_linear VM_ZONE_KERNEL_STACK (wrap64 (addr - PAGE_SIZE_LARGE))
              (wrap64 (size + PAGE_SIZE_LARGE))).
Definition alloc_vm_stack (size : Z) : M vm Z :=
  p <- on_zones (alloc_linear_impl VM_ZONE_KERNEL_STACK 0 (wrap64 (size + PAGE_SIZE_LARGE))) ;;
  if p =? 0 then ret p
  else
    let addr := wrap64 (p + PAGE_SIZE_LARGE) in
    e <- on_mm (map_alloc_at (wrap64 (wrap64 (addr + size) - PAGE_4K_SIZE)) PAGE_4K_SIZE
                  map_flags_stack) ;;
    if negb (e =? OK) then
      on_zones (free_linear VM_ZONE_KERNEL_STACK (wrap64 (addr - PAGE_SIZE_LARGE))
                  (wrap64 (size + PAGE_SIZE_LARGE))) ;;;
      ret 0
    else ret addr.
End backed.

(** ** The state of a zone between operations *)
Lemma page_mask_2m a : (Z.land a PAGE_MASK =? 0) = (a mod PAGE_SIZE_LARGE =? 0).
Proof.
  unfold PAGE_MASK. change PAGE_SIZE_LARGE with (2 ^ 21). by rewrite land_low_mod.
Qed.

Lemma align_2m_spec z :
  0 < z -> z + PAGE_SIZE_LARGE < 2 ^ 64 ->
  z <= align_2m z < z + PAGE_SIZE_LARGE /\ align_2m z mod PAGE_SIZE_LARGE = 0.
Proof.
  intros H0 H1. unfold align_2m. rewrite page_mask_2m.
  pose proof (Z.mod_pos_bound z PAGE_SIZE_LARGE ltac:(done)).
  destruct (Z.eqb_spec (z mod PAGE_SIZE_LARGE) 0) as [Hz|Hz]; [lia|].
  unfold PAGE_MASK in *. change PAGE_SIZE_LARGE with (2 ^ 21) in *.
  rewrite land_high, wrap64_small by lia. split; [lia|].
  replace (z - z mod 2 ^ 21 + 2 ^ 21) with ((z / 2 ^ 21 + 1) * 2 ^ 21);
    [apply Z.mod_mul; lia|]. pose proof (Z.div_mod z (2 ^ 21)). lia.
Qed.

Lemma put_range_unit p a z (s : pool unit) : put_range p a z s = put_cell p a z tt s.
Proof.
  unfold put_range, put_cell, update, bind.
  destruct (deref p s) as [[n s1]| | | |]; [|done..]. by destruct (n_meta n).
Qed.

Section zone_state.
Context (lo hi : Z) (Hlo : 0 < lo) (Hhi : hi < 2 ^ 64).
Implicit Types (z : linear_zone) (lf lh la : list (cell unit)).

Definition arena_of z lf lh : arena unit := Arena (ids lf ++ ids lh) (p_nodes (z_pool z)).

(** [lf] are the unused nodes, [lh] the free ranges and [la] the ranges handed
    out; nodes in none of the three lists are lost. *)
Record zone_ok z lf lh la : Prop := {
  zo_cells : cells_ok (arena_of z lf lh) lo hi PAGE_SIZE_LARGE (z_pool z) lf lh;
  zo_alloced : lseg (p_nodes (z_pool z)) (z_alloced z) la None;
  zo_apart : forall i, i ∈ ids la -> i ∉ ids lf ++ ids lh;
  zo_room : (length lf + length lh + length la <= MAX_LINEAR_HOLE)%nat
}.

(** Working on the pool alone leaves the ranges handed out alone. *)
Lemma zone_of_cells z lf lh la s' lf' lh' :
  zone_ok z lf lh la ->
  cells_ok (arena_of z lf lh) lo hi PAGE_SIZE_LARGE s' lf' lh' ->
  zone_ok (Zone s' (z_alloced z)) lf' lh' la.
Proof.
  intros [Hco Hal Hap Hroom] Hco'. pose proof (co_rep _ _ _ _ _ _ _ Hco') as Hrep'.
  pose proof (pool_rep_length _ _ _ _ _ Hrep') as Hlen.
  cbn in Hlen. unfold ids in Hlen. rewrite length_app, !length_map in Hlen.
  destruct Hrep' as (Hf & Hh & Hp & Hnd & Hfr).
  split; cbn.
  - destruct Hco' as [_ Hord Hali]. split; [|done|done]. split; [exact Hf|]. split; [exact Hh|].
    split; [done|]. split; [by rewrite Hp|done].
  - eapply lseg_frame; [exact Hal|]. intros i Hi. apply Hfr. cbn. by apply Hap.
  - intros i Hi. rewrite Hp. cbn. by apply Hap.
  - lia.
Qed.

(** The first unused node becomes the record of a range handed out; the nodes
    [k] put back in front of it are lost. *)
Lemma record_alloced_ok z k i c lf lh la a n Q :
  zone_ok z (k ++ (i, c) :: lf) lh la ->
  (forall z', zone_ok z' lf lh ((i, (a, n, tt)) :: la) ->
     p_lock (z_pool z') = p_lock (z_pool z) -> Q tt z') ->
  wp (record_alloced (Some i) a n) z Q.
Proof.
  intros [Hco Hal Hap Hroom] HQ. destruct Hco as [(Hf & Hh & _ & Hnd & _) Hord Hali]. cbn in Hnd.
  destruct c as [[b y] []]. apply lseg_lookup in Hf as (nx & Hi & _ & Hf).
  unfold ids in Hnd, Hap. rewrite map_app in Hnd, Hap. cbn in Hnd, Hap.
  apply list.NoDup_app in Hnd as (Hnd1 & Hd1 & Hnd2).
  apply list.NoDup_app in Hnd1 as (_ & Hd0 & [Hi1 Hnd1]%list.NoDup_cons).
  assert (Hi2 : i ∉ ids lh) by (apply Hd1; set_solver).
  assert (Hi3 : i ∉ ids la) by (intros Hi3; apply (Hap _ Hi3); set_solver).
  unfold record_alloced, on_pool. wp_steps. eapply wp_deref; [exact Hi|]. wp_steps.
  eapply wp_update; [exact Hi|]. cbn. wp_steps.
  eapply wp_update; [cbn; apply lookup_insert_eq|]. cbn. wp_steps.
  apply HQ; [|done]. rewrite insert_insert_eq. cbn.
  split; cbn.
  - split; [|done|done]. split; [by apply lseg_insert_ne|]. split; [by apply lseg_insert_ne|].
    split; [done|]. split; [|done]. cbn. apply list.NoDup_app. split; [done|]. split; [|done].
    intros j Hj. apply Hd1. set_solver.
  - split; [done|]. exists (z_alloced z). rewrite lookup_insert_eq. split; [done|].
    by apply lseg_insert_ne.
  - intros j Hj. unfold ids in *. set_solver.
  - rewrite length_app in Hroom. cbn in Hroom. lia.
Qed.

(** ** Returning a range *)
Definition ends_at (a : Z) (c : cell unit) : Prop := c_addr c + c_size c = a.

Lemma zone_fuel z lf lh la : zone_ok z lf lh la -> (length (ids lf ++ ids lh) <= FUEL_VM)%nat.
Proof.
  intros [_ _ _ H]. unfold ids. rewrite length_app, !length_map. unfold FUEL_VM. lia.
Qed.

Lemma cells_ok_lock b (A : arena unit) s lf lh :
  cells_ok A lo hi PAGE_SIZE_LARGE s lf lh ->
  cells_ok A lo hi PAGE_SIZE_LARGE (HoleList.set_lock b s) lf lh.
Proof. by intros []. Qed.

Lemma zone_free_head z i c lf lh la :
  zone_ok z ((i, c) :: lf) lh la -> p_free (z_pool z) = Some i.
Proof. intros [Hco _ _ _]. destruct c as [[? ?] ?]. exact (proj1 (proj1 (co_rep _ _ _ _ _ _ _ Hco))). Qed.

(** A hole's address and its end are words. *)
Lemma zone_hole z lf l1 i b y m l2 la :
  zone_ok z lf (l1 ++ (i, (b, y, m)) :: l2) la ->
  lo <= b /\ 0 < y /\ b + y <= hi /\ b mod PAGE_SIZE_LARGE = 0 /\ y mod PAGE_SIZE_LARGE = 0 /\
  wrap64 (b + y) = b + y.
Proof.
  intros [Hco _ _ _]. pose proof (co_elem _ _ _ _ _ _ _ _ _ _ _ _ Hco) as (? & ? & ? & ? & ?).
  split_and!; try done. apply wrap64_small. lia.
Qed.

Lemma free_linear_zone_ok z lf lh la a size0 :
  zone_ok z lf lh la -> p_lock (z_pool z) = false -> lf <> [] ->
  lo <= a -> 0 < size0 -> size0 + PAGE_SIZE_LARGE < 2 ^ 64 -> a + align_2m size0 <= hi ->
  a mod PAGE_SIZE_LARGE = 0 -> (forall x, in_range a (align_2m size0) x -> ~ covers lh x) ->
  wp (on_pool (free_linear_zone a size0)) z (fun _ z' => exists lf' lh',
    zone_ok z' lf' lh' la /\
    (forall x, covers lh' x <-> covers lh x \/ in_range a (align_2m size0) x) /\
    (Exists (ends_at a) lh /\ p_lock (z_pool z') = true /\ lf' = lf \/
     ~ Exists (ends_at a) lh /\ p_lock (z_pool z') = false /\ lf' = tail lf)).
Proof.
  intros Hok Hlk Hne Ha Hz0 Hz1 Hend Haa Hdis.
  destruct (align_2m_spec size0 Hz0 Hz1) as [Hsz Hszm].
  remember (align_2m size0) as size eqn:Hsize.
  destruct lf as [|[i c] lf]; [done|].
  pose proof (zone_free_head _ _ _ _ _ _ Hok) as Hfree.
  pose proof (zone_fuel _ _ _ _ Hok) as Hfuel.
  pose proof (co_rep _ _ _ _ _ _ _ (zo_cells _ _ _ _ Hok)) as (_ & Hh & _).
  pose proof (cells_ok_lock true _ _ _ _ (zo_cells _ _ _ _ Hok)) as Hok1.
  unfold on_pool, free_linear_zone. rewrite page_mask_2m, Haa, <- Hsize. wp_steps.
  apply wp_kassert; [done|]. wp_steps.
  rewrite Hfree. wp_steps. apply wp_spin_lock; [done|]. wp_steps.
  apply (wp_walk _ _ _ _ lh); [exact Hh| |].
  { unfold ids in Hfuel. rewrite length_app, !length_map in Hfuel. cbn in Hfuel. lia. }
  destruct (find_cell _ lh) as [j|] eqn:Hfind.
  - apply find_cell_Some in Hfind as (l1 & b & y & [] & l2 & -> & Hstop%Z.eqb_eq).
    destruct (zone_hole _ _ _ _ _ _ _ _ _ Hok) as (? & ? & ? & ? & ? & Hw). rewrite Hw in Hstop.
    wp_steps. eapply wp_deref_cell; [apply Hok1|]. intros nx. cbn [n_addr n_size].
    rewrite (wrap64_small (y + size)) by lia. unfold wp. rewrite put_range_unit.
    change (wp (put_cell (Some j) b (y + size) tt) (HoleList.set_lock true (z_pool z))
      (fun _ s' => exists lf' lh', zone_ok (set_pool s' z) lf' lh' la /\
        (forall x, covers lh' x <-> covers (l1 ++ (j, (b, y, ())) :: l2) x \/ in_range a size x) /\
        (Exists (ends_at a) (l1 ++ (j, (b, y, ())) :: l2) /\ p_lock s' = true /\ lf' = (i, c) :: lf \/
         ~ Exists (ends_at a) (l1 ++ (j, (b, y, ())) :: l2) /\ p_lock s' = false /\ lf' = lf))).
    eapply (merge_ok (arena_of z ((i, c) :: lf) (l1 ++ (j, (b, y, ())) :: l2)) lo hi PAGE_SIZE_LARGE);
      [done|exact Hok1|lia|lia|done| |].
    { intros x Hx. apply Hdis. unfold in_range. lia. }
    intros s' Hok' Hlk' Hc. eexists _, _. split; [eapply zone_of_cells; [exact Hok|exact Hok']|].
    split; [intros x; rewrite Hc; unfold in_range; by subst a|]. left. split; [|done].
    apply Exists_app. right. left. exact Hstop.
  - wp_steps. eapply wp_mono.
    { eapply (new_hole_ok (arena_of z ((i, c) :: lf) lh) lo hi PAGE_SIZE_LARGE);
        [exact Hok1|exact Hfuel|lia..|done|done|exact Hdis]. }
    intros _ s' (_ & Hok' & Hc). apply wp_modify. eexists _, _. split; [|split; [exact Hc|right]].
    { eapply zone_of_cells; [exact Hok|]. apply (cells_ok_lock false). exact Hok'. }
    split; [|done]. intros Hex. apply find_cell_None in Hfind.
    apply list.Exists_exists in Hex as ([j [[b y] []]] & (l1 & l2 & ->)%list_elem_of_split & Hst).
    destruct (zone_hole _ _ _ _ _ _ _ _ _ Hok) as (? & ? & ? & ? & ? & Hw).
    apply Forall_app in Hfind as [_ [Hf1 _]%list.Forall_cons]. cbn in Hf1.
    rewrite Hw, <- Hst in Hf1. apply Z.eqb_neq in Hf1. by apply Hf1.
Qed.

(** ** Handing out a range *)

(** Taking [size] bytes from the front of hole [i]. *)
Lemma take_front_ok z j c lf l1 i a y m l2 la size low realsize :
  zone_ok z ((j, c) :: lf) (l1 ++ (i, (a, y, m)) :: l2) la ->
  0 < size <= y -> size mod PAGE_SIZE_LARGE = 0 ->
  wp (take_front (Some i) (Some j) size low realsize) z (fun r z' => r = wrap64 (a + low) /\
    p_lock (z_pool z') = false /\ exists lh',
      zone_ok z' lf lh' ((j, (a, wrap64 (realsize + low), tt)) :: la) /\
      forall x, covers lh' x <->
        covers (l1 ++ (i, (a, y, m)) :: l2) x /\ ~ in_range a size x).
Proof.
  intros Hok Hsz Hm. pose proof (zone_fuel _ _ _ _ Hok) as Hfuel.
  unfold take_front. wp_steps. unfold on_pool. wp_steps. eapply wp_mono.
  { eapply (carve_ok (arena_of z ((j, c) :: lf) (l1 ++ (i, (a, y, m)) :: l2)) lo hi PAGE_SIZE_LARGE);
      [lia|done|done|apply Hok|exact Hfuel|done|done]. }
  cbn. intros r s' (-> & Hlk & lf' & lh' & Hok' & [k ->] & Hc). wp_steps.
  pose proof (zone_of_cells _ _ _ _ _ _ _ Hok Hok') as Hz.
  eapply record_alloced_ok; [exact Hz|]. intros z' Hz' Hlk'. wp_steps. unfold spin_unlock. wp_steps.
  split; [done|]. split; [done|]. exists lh'. split; [|exact Hc].
  replace (set_pool _ _) with (Zone (HoleList.set_lock false (z_pool z')) (z_alloced z')) by done.
  eapply zone_of_cells; [exact Hz'|]. apply cells_ok_lock, Hz'.
Qed.

Lemma alloc_linear_ok z lf lh la realsize :
  zone_ok z lf lh la -> p_lock (z_pool z) = false -> lf <> [] ->
  0 < realsize -> realsize + PAGE_SIZE_LARGE < 2 ^ 64 ->
  wp (alloc_linear realsize) z (fun r z' => p_lock (z_pool z') = false /\
    (r = 0 /\ zone_ok z' lf lh la /\ Forall (fun c => c_size c < align_2m realsize) lh \/
     exists i lh', lo <= r /\ r + align_2m realsize <= hi /\ r mod PAGE_SIZE_LARGE = 0 /\
       zone_ok z' (tail lf) lh' ((i, (r, realsize, tt)) :: la) /\
       (forall x, in_range r (align_2m realsize) x -> covers lh x) /\
       forall x, covers lh' x <-> covers lh x /\ ~ in_range r (align_2m realsize) x)).
Proof.
  intros Hok Hlk Hne Hz0 Hz1. destruct (align_2m_spec realsize Hz0 Hz1) as [Hsz Hszm].
  destruct lf as [|[j c] lf]; [done|].
  pose proof (zone_free_head _ _ _ _ _ _ Hok) as Hfree.
  pose proof (zone_fuel _ _ _ _ Hok) as Hfuel.
  pose proof (co_rep _ _ _ _ _ _ _ (zo_cells _ _ _ _ Hok)) as (_ & Hh & _).
  assert (Hok1 : zone_ok (Zone (HoleList.set_lock true (z_pool z)) (z_alloced z)) ((j, c) :: lf) lh la).
  { eapply zone_of_cells; [exact Hok|]. apply cells_ok_lock, Hok. }
  unfold alloc_linear, alloc_linear_at. cbn [ALLOC_FUEL alloc_linear_zone_impl Z.eqb].
  change (Z.land 0 PAGE_MASK) with 0. wp_steps. cbn [Z.eqb negb]. unfold on_pool at 1. wp_steps.
  rewrite Hfree. unfold on_pool at 1. wp_steps. apply wp_spin_lock; [done|]. wp_steps.
  unfold on_pool at 1 2. wp_steps. apply (wp_walk _ _ _ _ lh); [exact Hh| |].
  { unfold ids in Hfuel. rewrite length_app, !length_map in Hfuel. cbn in Hfuel. lia. }
  destruct (find_cell _ lh) as [i|] eqn:Hfind.
  - apply find_cell_Some in Hfind as (l1 & b & y & m & l2 & -> & Hstop%negb_true_iff%Z.ltb_ge).
    destruct (zone_hole _ _ _ _ _ _ _ _ _ Hok) as (? & ? & ? & ? & ? & Hw).
    eapply wp_mono; [eapply (take_front_ok _ j c lf l1 i b y m l2 la); [exact Hok1|lia|done]|].
    rewrite !Z.add_0_r, (wrap64_small b), (wrap64_small realsize) by lia.
    intros r z' (-> & Hlk' & lh' & Hz' & Hc). split; [done|]. right. exists j, lh'.
    split_and!; try done; [lia|]. intros x Hx. apply covers_app. right. apply covers_cons. left.
    unfold c_addr, c_size, in_range in *. cbn. lia.
  - unfold on_pool, spin_unlock. wp_steps. split; [done|]. left. split; [done|]. split.
    + replace (set_pool _ _) with (Zone (HoleList.set_lock false (z_pool z)) (z_alloced z)) by done.
      eapply zone_of_cells; [exact Hok|]. apply cells_ok_lock, Hok.
    + apply find_cell_None in Hfind. eapply list.Forall_impl; [exact Hfind|].
      intros [? [[? ?] ?]]. unfold c_size. cbn. intros H%negb_false_iff%Z.ltb_lt. exact H.
Qed.
End zone_state.

(** ** The life of a zone *)
Lemma align_2m_exact z : 0 < z -> z + PAGE_SIZE_LARGE < 2 ^ 64 ->
  z mod PAGE_SIZE_LARGE = 0 -> align_2m z = z.
Proof. intros H0 H1 Hm. unfold align_2m. by rewrite page_mask_2m, Hm. Qed.

Lemma fresh_zone_ok lo hi :
  lo <= hi -> exists lf, zone_ok lo hi (Zone (init_pool tt MAX_LINEAR_HOLE) None) lf [] [] /\
    length lf = MAX_LINEAR_HOLE.
Proof.
  intros Hle. destruct (init_pool_ok tt MAX_LINEAR_HOLE lo hi PAGE_SIZE_LARGE) as (lf & Hco & Hlen);
    [unfold MAX_LINEAR_HOLE; lia|lia|].
  exists lf. split; [|done].
  destruct Hco as [(Hf & Hh & Hp & Hnd & Hfr) Hord Hal]. split; [split; [|done|done]|done| |].
  - split; [exact Hf|]. split; [exact Hh|]. split; [done|]. split; [|done]. cbn. by rewrite Hp.
  - intros i Hi. by apply elem_of_nil in Hi.
  - cbn. lia.
Qed.

Lemma init_vm_zone_ok lo hi z :
  0 < lo < hi -> hi + PAGE_SIZE_LARGE < 2 ^ 64 ->
  lo mod PAGE_SIZE_LARGE = 0 -> (hi - lo) mod PAGE_SIZE_LARGE = 0 ->
  wp (init_vm_zone lo (hi - lo)) z (fun _ z' => p_lock (z_pool z') = false /\
    exists lf lh, zone_ok lo hi z' lf lh [] /\ length lf = 99%nat /\
      forall x, covers lh x <-> in_range lo (hi - lo) x).
Proof.
  intros Hlo Hhi Hm1 Hm2. assert (PAGE_SIZE_LARGE = 2 ^ 21) by done.
  destruct (fresh_zone_ok lo hi) as (lf & Hok & Hlen); [lia|].
  unfold init_vm_zone. wp_steps. eapply wp_mono.
  { eapply (free_linear_zone_ok lo hi); try exact Hok; try done; try lia.
    - intros ->. done.
    - rewrite align_2m_exact by (done || lia). lia.
    - intros x _ Hx. by apply covers_nil in Hx. }
  intros _ z' (lf' & lh' & Hok' & Hc & Hcase). rewrite align_2m_exact in Hc by (done || lia).
  destruct Hcase as [(Hex & _)|(_ & Hlk & ->)]; [by apply Exists_nil in Hex|].
  split; [done|]. exists (tail lf), lh'. split; [done|]. split.
  - destruct lf; [done|]. cbn in *. unfold MAX_LINEAR_HOLE in Hlen. lia.
  - intros x. rewrite Hc. rewrite covers_nil. tauto.
Qed.

(** A client that asks for ranges and returns what it was given: the ranges it
    holds and how many requests were served. *)
Inductive vm_op := VAlloc (size : Z) | VFree (k : nat).
Definition client : Type := list (Z * Z) * nat.
Definition run_op (op : vm_op) (st : client) : M linear_zone client :=
  match op with
  | VAlloc size =>
      r <- alloc_linear size ;;
      ret (if r =? 0 then st else ((r, size) :: fst st, S (snd st)))
  | VFree k =>
      match fst st !! k with
      | None => ret st
      | Some (a, n) =>
          on_pool (free_linear_zone a n) ;;;
          ret (delete k (fst st), snd st)
      end
  end.
Fixpoint run_ops (ops : list vm_op) (st : client) : M linear_zone client :=
  match ops with
  | [] => ret st
  | op :: ops' => st' <- run_op op st ;; run_ops ops' st'
  end.
Definition op_ok (op : vm_op) : Prop :=
  match op with
  | VAlloc size => 0 < size /\ size + PAGE_SIZE_LARGE < 2 ^ 64
  | VFree _ => True
  end.

Section life.
Context (lo hi : Z) (Hlo : 0 < lo) (Hhi : hi < 2 ^ 64).

(** The ranges held are apart from [F] and from each other. *)
Fixpoint held (F : Z -> Prop) (live : list (Z * Z)) : Prop :=
  match live with
  | [] => True
  | (a, n) :: live' =>
      (lo <= a /\ 0 < n /\ n + PAGE_SIZE_LARGE < 2 ^ 64 /\ a + align_2m n <= hi /\
       a mod PAGE_SIZE_LARGE = 0 /\ forall x, in_range a (align_2m n) x -> ~ F x) /\
      held (fun x => F x \/ in_range a (align_2m n) x) live'
  end.

Lemma held_mono (F F' : Z -> Prop) live :
  (forall x, F' x -> F x) -> held F live -> held F' live.
Proof.
  revert F F'. induction live as [|[a n] live IH]; intros F F' HF; cbn; [done|].
  intros [(? & ? & ? & ? & ? & Hd) Hl]. split.
  - split_and!; try done. intros x Hx Hx'. exact (Hd x Hx (HF x Hx')).
  - eapply IH; [|exact Hl]. cbn. intros x. specialize (HF x). tauto.
Qed.

Lemma held_delete F live k a n :
  held F live -> live !! k = Some (a, n) ->
  (lo <= a /\ 0 < n /\ n + PAGE_SIZE_LARGE < 2 ^ 64 /\ a + align_2m n <= hi /\
   a mod PAGE_SIZE_LARGE = 0 /\ forall x, in_range a (align_2m n) x -> ~ F x) /\
  held (fun x => F x \/ in_range a (align_2m n) x) (delete k live).
Proof.
  revert F k. induction live as [|[b m] live IH]; intros F k; cbn; [done|].
  intros [Hb Hl]. destruct k as [|k]; cbn.
  - intros [= -> ->]. done.
  - intros Hk. destruct (IH _ _ Hl Hk) as [(? & ? & ? & ? & ? & Hd) Hl'].
    destruct Hb as (? & ? & ? & ? & ? & Hdb). split; [split_and!; try done; naive_solver|].
    split; [split_and!; try done; naive_solver|].
    eapply held_mono; [|exact Hl']. cbn. tauto.
Qed.

(** While the lock is free, the unused nodes and the requests served add up to
    at most [b]; once a merge has kept the lock, no request is served. *)
Definition alive (b : nat) (st : client) (z : linear_zone) : Prop :=
  (snd st <= b)%nat /\
  (p_lock (z_pool z) = false -> exists lf lh la, zone_ok lo hi z lf lh la /\
     held (covers lh) (fst st) /\ (length lf + snd st <= b)%nat).

Lemma no_nodes_free z a n :
  p_free (z_pool z) = None -> on_pool (free_linear_zone a n) z = Panic.
Proof.
  intros Hf. unfold on_pool, zoom, free_linear_zone, bind at 1, kassert.
  destruct (Z.land a PAGE_MASK =? 0); [|done]. cbn. unfold bind, gets. by rewrite Hf.
Qed.
Lemma no_nodes_alloc z n : p_free (z_pool z) = None -> alloc_linear n z = Panic.
Proof.
  intros Hf. unfold alloc_linear, alloc_linear_at. cbn.
  unfold bind, on_pool, zoom, gets, ret. cbn. by rewrite Hf.
Qed.
Lemma locked_free z a n :
  p_lock (z_pool z) = true ->
  on_pool (free_linear_zone a n) z = Panic \/ on_pool (free_linear_zone a n) z = Deadlock.
Proof.
  intros Hlk. destruct (p_free (z_pool z)) as [i|] eqn:Hf; [|left; by apply no_nodes_free].
  unfold on_pool, zoom, free_linear_zone, bind at 1, kassert.
  destruct (Z.land a PAGE_MASK =? 0); [|by left]. right. cbn.
  unfold bind, gets, spin_lock. by rewrite Hf, Hlk.
Qed.
Lemma locked_alloc z n :
  p_lock (z_pool z) = true -> alloc_linear n z = Panic \/ alloc_linear n z = Deadlock.
Proof.
  intros Hlk. destruct (p_free (z_pool z)) as [i|] eqn:Hf; [|left; by apply no_nodes_alloc].
  right. unfold alloc_linear, alloc_linear_at. cbn.
  unfold bind, on_pool, zoom, gets, ret, spin_lock. cbn. rewrite Hf. cbn. by rewrite Hlk.
Qed.
Lemma zone_nodes z lf lh la :
  zone_ok lo hi z lf lh la -> p_free (z_pool z) = None \/ lf <> [].
Proof.
  intros [Hco _ _ _]. destruct lf as [|c lf]; [left|by right].
  exact (proj1 (co_rep _ _ _ _ _ _ _ Hco)).
Qed.

Lemma run_op_alive b op st z :
  op_ok op -> alive b st z ->
  match run_op op st z with
  | Done (st', z') => alive b st' z'
  | Panic | Deadlock => True
  | Fault | OutOfFuel => False
  end.
Proof.
  intros Hop [Hb Hal]. destruct op as [n|k]; cbn [run_op].
  - destruct Hop as [Hn0 Hn1]. unfold bind.
    destruct (p_lock (z_pool z)) eqn:Hlk; [by destruct (locked_alloc z n Hlk) as [->| ->]|].
    destruct (Hal eq_refl) as (lf & lh & la & Hok & Hheld & Hlen).
    destruct (zone_nodes _ _ _ _ Hok) as [Hf|Hne]; [by rewrite no_nodes_alloc|].
    pose proof (alloc_linear_ok lo hi Hlo Hhi z lf lh la n Hok Hlk Hne Hn0 Hn1) as Hwp.
    apply wp_run in Hwp as (r & z' & -> & Hlk' & [(-> & Hok' & _)|Hr]).
    + cbn. split; [done|]. intros _. by exists lf, lh, la.
    + destruct Hr as (i & lh' & Hr0 & Hr1 & Hr2 & Hok' & Hin & Hc).
      destruct (Z.eqb_spec r 0) as [->|_]; [lia|]. cbn. destruct lf as [|c lf]; [done|].
      cbn in Hlen. split; [cbn; lia|]. intros _. eexists _, _, _. split; [exact Hok'|].
      split; [|cbn; lia]. cbn. split.
      * split_and!; try done. intros x Hx Hx'. apply Hc in Hx'. tauto.
      * eapply held_mono; [|exact Hheld]. cbn. intros x [Hx|Hx]; [by apply Hc in Hx as []|by apply Hin].
  - destruct st as [live m]. cbn [fst snd] in *. destruct (live !! k) as [[a n]|] eqn:Hk; [|done].
    unfold bind.
    destruct (p_lock (z_pool z)) eqn:Hlk; [by destruct (locked_free z a n Hlk) as [->| ->]|].
    destruct (Hal eq_refl) as (lf & lh & la & Hok & Hheld & Hlen).
    destruct (zone_nodes _ _ _ _ Hok) as [Hf|Hne]; [by rewrite no_nodes_free|].
    destruct (held_delete _ _ _ _ _ Hheld Hk) as [(? & ? & ? & ? & ? & Hd) Hheld'].
    pose proof (free_linear_zone_ok lo hi Hlo Hhi z lf lh la a n Hok Hlk Hne) as Hwp.
    apply wp_run in Hwp as ([] & z' & -> & lf' & lh' & Hok' & Hc & Hcase); try done.
    cbn. split; [done|]. intros Hlk'. destruct Hcase as [(_ & Hlk2 & _)|(_ & _ & ->)]; [congruence|].
    eexists _, _, _. split; [exact Hok'|]. split.
    + eapply held_mono; [|exact Hheld']. intros x. apply Hc.
    + destruct lf; cbn in *; lia.
Qed.

Lemma run_ops_alive b ops st z :
  Forall op_ok ops -> alive b st z ->
  match run_ops ops st z with
  | Done (st', z') => alive b st' z'
  | Panic | Deadlock => True
  | Fault | OutOfFuel => False
  end.
Proof.
  intros Hops. revert st z. induction Hops as [|op ops Hop Hops IH]; intros st z Hal; [done|].
  cbn [run_ops]. unfold bind. pose proof (run_op_alive b op st z Hop Hal) as Hstep.
  destruct (run_op op st z) as [[st' z']| | | |]; [by apply IH|done..].
Qed.
End life.

(** The vmalloc zone as [init_vm] leaves it. *)
Definition blank_zone : linear_zone := Zone (Pool ∅ None None false) None.
Definition vmalloc_boot : linear_zone :=
  match init_vm_zone VMALLOC_START VMALLOC_SIZE blank_zone with
  | Done (_, z) => z
  | _ => blank_zone
  end.
Lemma vmalloc_boot_ok : p_lock (z_pool vmalloc_boot) = false /\
  exists lf lh, zone_ok VMALLOC_START (VMALLOC_END + 1) vmalloc_boot lf lh [] /\
    length lf = 99%nat /\ forall x, covers lh x <-> VMALLOC_START <= x <= VMALLOC_END.
Proof.
  pose proof (init_vm_zone_ok VMALLOC_START (VMALLOC_END + 1) blank_zone
    ltac:(split; reflexivity) ltac:(reflexivity) ltac:(reflexivity) ltac:(reflexivity)) as Hwp.
  apply wp_run in Hwp as ([] & z' & Hrun & Hlk & lf & lh & Hok & Hlen & Hc).
  assert (vmalloc_boot = z') as ->.
  { unfold vmalloc_boot. replace VMALLOC_SIZE with (VMALLOC_END + 1 - VMALLOC_START) by done.
    by rewrite Hrun. }
  split; [done|]. exists lf, lh. split; [done|]. split; [done|].
  intros x. rewrite Hc. unfold in_range. lia.
Qed.

(** A zone serves a hundred nodes' worth of requests even when every range is
    returned at once: fifty requests and returns exhaust it. *)
Lemma alloc_free_50_panics :
  run_ops (concat (repeat [VAlloc 4096; VFree 0] 50)) ([], O) vmalloc_boot = Panic.
Proof. vm_compute. reflexivity. Qed.

(** An address hint is followed only when the first hole that is large enough
    contains it: the second hint here is free, and ignored. *)
Lemma second_hint_ignored :
  match (r1 <- alloc_linear_at (VMALLOC_START + 4 * PAGE_SIZE_LARGE) PAGE_SIZE_LARGE ;;
         r2 <- alloc_linear_at (VMALLOC_START + 8 * PAGE_SIZE_LARGE) PAGE_SIZE_LARGE ;;
         ret (r1, r2)) vmalloc_boot with
  | Done (r, _) => r = (VMALLOC_START + 4 * PAGE_SIZE_LARGE, VMALLOC_START)
  | _ => False
  end.
Proof. vm_compute. reflexivity. Qed.

(** ** Properties *)

(** With an unused node left, [alloc_linear] always returns: either NULL,
    and then no free range is large enough and nothing changed, or the start of
    a 2M-aligned range that was free, and exactly that range, rounded to 2M,
    leaves the free ranges, at the cost of one node. *)
Theorem alloc_linear_correct lo hi z lf lh la realsize
    (Hb : 0 < lo /\ hi < 2 ^ 64) (Hok : zone_ok lo hi z lf lh la)
    (Hlk : p_lock (z_pool z) = false) (Hnode : lf <> [])
    (Hsz : 0 < realsize /\ realsize + PAGE_SIZE_LARGE < 2 ^ 64) :
  exists r z', alloc_linear realsize z = Done (r, z') /\ p_lock (z_pool z') = false /\
    (r = 0 /\ zone_ok lo hi z' lf lh la /\ Forall (fun c => c_size c < align_2m realsize) lh \/
     exists i lh', lo <= r /\ r + align_2m realsize <= hi /\ r mod PAGE_SIZE_LARGE = 0 /\
       zone_ok lo hi z' (tail lf) lh' ((i, (r, realsize, tt)) :: la) /\
       (forall x, in_range r (align_2m realsize) x -> covers lh x) /\
       forall x, covers lh' x <-> covers lh x /\ ~ in_range r (align_2m realsize) x).
Proof.
  destruct Hb, Hsz. by apply wp_run, alloc_linear_ok.
Qed.

Lemma alloc_linear_correct_witness :
  exists r z', alloc_linear 4097 vmalloc_boot = Done (r, z') /\ p_lock (z_pool z') = false /\
    (r = 0 \/ VMALLOC_START <= r /\ r + PAGE_SIZE_LARGE <= VMALLOC_END + 1).
Proof.
  destruct vmalloc_boot_ok as (Hlk & lf & lh & Hok & Hlen & _).
  destruct (alloc_linear_correct VMALLOC_START (VMALLOC_END + 1) vmalloc_boot lf lh [] 4097)
    as (r & z' & Hrun & Hlk' & Hres).
  - split; reflexivity.
  - exact Hok.
  - exact Hlk.
  - destruct lf; [discriminate Hlen|discriminate].
  - split; reflexivity.
  - exists r, z'. split; [exact Hrun|]. split; [exact Hlk'|].
    change PAGE_SIZE_LARGE with (align_2m 4097).
    destruct Hres as [[Hr _]|(i & lh' & Hr1 & Hr2 & _)]; [left; exact Hr|right].
    split; [exact Hr1|exact Hr2].
Defined.

(** C15: [free_linear_zone] returns exactly the given range, rounded to 2M, to
    the free ranges; when it extends a range that ends where it starts, it
    returns with the lock of the zone held, else it uses one node. *)
Theorem free_linear_zone_correct lo hi z lf lh la a size
    (Hb : 0 < lo /\ hi < 2 ^ 64) (Hok : zone_ok lo hi z lf lh la)
    (Hlk : p_lock (z_pool z) = false) (Hnode : lf <> [])
    (Hr : lo <= a /\ 0 < size /\ size + PAGE_SIZE_LARGE < 2 ^ 64 /\ a + align_2m size <= hi /\
          a mod PAGE_SIZE_LARGE = 0)
    (Hdis : forall x, in_range a (align_2m size) x -> ~ covers lh x) :
  exists z' lf' lh', on_pool (free_linear_zone a size) z = Done (tt, z') /\
    zone_ok lo hi z' lf' lh' la /\
    (forall x, covers lh' x <-> covers lh x \/ in_range a (align_2m size) x) /\
    (Exists (ends_at a) lh /\ p_lock (z_pool z') = true /\ lf' = lf \/
     ~ Exists (ends_at a) lh /\ p_lock (z_pool z') = false /\ lf' = tail lf).
Proof.
  destruct Hb as [Hlo Hhi], Hr as (? & ? & ? & ? & ?).
  pose proof (free_linear_zone_ok lo hi Hlo Hhi z lf lh la a size) as Hwp.
  apply wp_run in Hwp as ([] & z' & Hrun & lf' & lh' & Hres); try done. by exists z', lf', lh'.
Qed.

Lemma free_linear_zone_correct_witness :
  exists z' lf' lh',
    on_pool (free_linear_zone PAGE_SIZE_LARGE 1)
      (Zone (init_pool tt MAX_LINEAR_HOLE) None) = Done (tt, z') /\
    zone_ok PAGE_SIZE_LARGE (4 * PAGE_SIZE_LARGE) z' lf' lh' [] /\
    p_lock (z_pool z') = false.
Proof.
  destruct (fresh_zone_ok PAGE_SIZE_LARGE (4 * PAGE_SIZE_LARGE)) as (lf & Hok & Hlen);
    [vm_compute; discriminate|].
  destruct (free_linear_zone_correct PAGE_SIZE_LARGE (4 * PAGE_SIZE_LARGE)
    (Zone (init_pool tt MAX_LINEAR_HOLE) None) lf [] [] PAGE_SIZE_LARGE 1)
    as (z' & lf' & lh' & Hrun & Hok' & _ & Hcase).
  - split; reflexivity.
  - exact Hok.
  - reflexivity.
  - destruct lf; [discriminate Hlen|discriminate].
  - repeat split; vm_compute; discriminate.
  - intros x _ Hx. apply covers_nil in Hx. exact Hx.
  - exists z', lf', lh'. split; [exact Hrun|]. split; [exact Hok'|].
    destruct Hcase as [(Hex & _)|(_ & Hl & _)]; [apply Exists_nil in Hex; destruct Hex|exact Hl].
Defined.


