(* ===== verification/VmBack.v ===== *)
(** * VmBack: ranges of virtual addresses with memory behind them

    [alloc_vm] and [free_vm] of kernel/vm.c put the zones of Vm.v, the page
    tables of PgTable.v and the frame allocators together.  The invariant
    [vm_ok] ties them: no free address of the zone is mapped. *)
From Stdlib Require Import ZArith Lia.
From stdpp Require Import base tactics sets gmap list option.
From S2P Require Import Prelude HoleList FreeSet Pages Layout PhyMem PhyPage PgTable PgWalk PgMap PgBack Vm.
#[export] Set Warnings "-clear-no-such-hyp".

(** The zone identifiers of include/yaos/vm.h. *)
Definition zone_id (zn : zone_name) : Z :=
  match zn with
  | vmalloc_zone => VM_ZONE_VMALLOC
  | low_mmap_zone => VM_ZONE_LOW_MMAP
  | kernel_stack_zone => VM_ZONE_KERNEL_STACK
  | kernel_below1g_zone => VM_ZONE_KERNEL_BELOW1G
  end.

Lemma get_zone_id zn : get_zone (zone_id zn) = ret zn.
Proof. by destruct zn. Qed.

Section backed_zone.
Context {T : Type} `{FL : FrameLaws T}.
Context (zn : zone_name) (lo hi : Z).
Hypothesis (Hlo : 0 < lo) (Hhi : hi < 2 ^ 64) (Hspan : hi - lo < 2 ^ 48).
Implicit Types (s : vm (T := T)) (tab : list Z -> option Z) (lf lh la : list (cell unit)).

(** Nothing is mapped in the 2M page of [x], nor is there a page table. *)
Definition vacant (m : mm T) tab (x : Z) : Prop :=
  tab (take 3 (va_path x)) = None /\
  forall va, same_2m va x -> mmu (ram m) (pml4 m) va = None.

Record vm_ok s tab lf lh la : Prop := {
  vo_zone : zone_ok lo hi (v_zones s zn) lf lh la;
  vo_mm : mm_ok (v_mm s) tab;
  vo_closed : closed (frames (v_mm s));
  vo_vacant x : covers lh x -> vacant (v_mm s) tab x
}.

(** The other zones are left alone. *)
Definition same_zones s s' : Prop := forall zn', zn' <> zn -> v_zones s' zn' = v_zones s zn'.

Lemma on_zone_ok {A} (m : M linear_zone A) s (Q : A -> vm -> Prop) :
  wp m (v_zones s zn) (fun a z => forall s', v_zones s' zn = z -> same_zones s s' ->
    v_mm s' = v_mm s -> Q a s') ->
  wp (on_zones (on_zone zn m)) s Q.
Proof.
  intros H. unfold on_zones, on_zone. apply wp_zoom, wp_zoom. eapply wp_mono; [exact H|].
  intros a z Hq. apply Hq; [|intros zn' Hne|done]; cbn [v_zones]; by case_decide.
Qed.

(** An address of the zone outside a range is in none of the range's pages. *)
Lemma zone_off_pages p n x :
  p mod PAGE_SIZE_LARGE = 0 -> lo <= p -> p + Z.of_nat n * PAGE_SIZE_LARGE <= hi ->
  lo <= x < hi -> ~ in_range p (Z.of_nat n * PAGE_SIZE_LARGE) x -> off_pages p (Z.of_nat n) x.
Proof.
  intros Hp Hpl Hph Hx Hn i Hi Hs%same_2m_number. unfold page_at, in_range, PAGE_SIZE_LARGE in *.
  change (2 ^ 21) with 2097152 in *. rewrite Z.div_add in Hs by lia.
  pose proof (Z.div_mod p 2097152). pose proof (Z.div_mod x 2097152).
  pose proof (Z.mod_pos_bound x 2097152).
  pose proof (Z.div_mod (x / 2097152) (2 ^ 27)). pose proof (Z.div_mod (p / 2097152 + i) (2 ^ 27)).
  set (a := x / 2097152) in *. set (b := p / 2097152) in *.
  assert (a = b + i) by lia. lia.
Qed.

Lemma covers_bounds z lf lh la x : zone_ok lo hi z lf lh la -> covers lh x -> lo <= x < hi.
Proof.
  intros [Hco _ _ _] ([i [[a y] m]] & Hin & Hx).
  apply list_elem_of_split in Hin as (l1 & l2 & ->).
  pose proof (co_elem _ _ _ _ _ _ _ _ _ _ _ _ Hco) as (? & ? & ? & _).
  unfold c_addr, c_size in Hx. cbn in Hx. lia.
Qed.

(** A range that leaves the free set, and what becomes of the others. *)
Lemma vacant_range m tab p n :
  (forall x, in_range p (Z.of_nat n * PAGE_SIZE_LARGE) x -> vacant m tab x) ->
  no_tables tab p n /\ unmapped m p n.
Proof.
  intros H. assert (forall i, 0 <= i < Z.of_nat n -> vacant m tab (page_at p i)) as Hv.
  { intros i Hi. apply H. unfold in_range, page_at, PAGE_SIZE_LARGE. lia. }
  split; [intros i Hi; by apply Hv|]. intros va i Hi Hs. by apply (Hv i).
Qed.

Lemma vacant_gained m tab p flag pas m' tab' x :
  gained m tab p flag pas m' tab' -> off_pages p (Z.of_nat (length pas)) x ->
  vacant m tab x -> vacant m' tab' x.
Proof.
  intros Hg Hoff [Ht Hm]. split; [by apply (ga_tab _ _ _ _ _ _ _ Hg)|].
  intros va Hs. rewrite (ga_out _ _ _ _ _ _ _ Hg); [by apply Hm|].
  intros i Hi Hs'. apply (Hoff i Hi). unfold same_2m in *. congruence.
Qed.

Lemma vacant_restored m tab m' tab' x :
  restored m tab m' tab' -> vacant m tab x -> vacant m' tab' x.
Proof.
  intros Hr [Ht Hm]. split; [by apply (rs_tab _ _ _ _ Hr)|].
  intros va Hs. rewrite (rs_mmu _ _ _ _ Hr). by apply Hm.
Qed.

Lemma backed_no_tables m tab p flag pas :
  mm_ok m tab -> backed m tab p flag pas -> no_tables tab p (length pas).
Proof.
  intros Hok Hb i Hi. destruct (lookup_lt_is_Some_2 pas (Z.to_nat i)) as [pa Hpa]; [lia|].
  pose proof (bk_leaf _ _ _ _ _ Hb _ _ Hpa) as Hl. rewrite Z2Nat.id in Hl by lia.
  by destruct (leaf_tables _ _ _ _ Hok Hl) as (? & ? & _ & _ & ? & _).
Qed.

(** The page of the range an address lies in. *)
Lemma in_page p n x :
  p mod PAGE_SIZE_LARGE = 0 -> Z.of_nat n < 2 ^ 27 ->
  in_range p (Z.of_nat n * PAGE_SIZE_LARGE) x ->
  exists i, 0 <= i < Z.of_nat n /\ same_2m x (page_at p i).
Proof.
  intros Hp Hn Hx. exists ((x - p) / PAGE_SIZE_LARGE).
  assert (0 <= (x - p) / PAGE_SIZE_LARGE < Z.of_nat n) as Hi.
  { unfold in_range in Hx. split; [apply Z.div_pos; [lia|done]|]. apply Z.div_lt_upper_bound; [done|lia]. }
  split; [done|]. apply (same_2m_in_range p (Z.of_nat n)); [done|done|lia|done|].
  pose proof (Z.div_mod (x - p) PAGE_SIZE_LARGE ltac:(done)).
  pose proof (Z.mod_pos_bound (x - p) PAGE_SIZE_LARGE ltac:(done)). unfold in_range. lia.
Qed.

Lemma vacant_released m tab p pas m' tab' x :
  no_tables tab p (length pas) -> p mod PAGE_SIZE_LARGE = 0 -> Z.of_nat (length pas) < 2 ^ 27 ->
  released m tab p pas m' tab' ->
  vacant m tab x \/ in_range p (Z.of_nat (length pas) * PAGE_SIZE_LARGE) x -> vacant m' tab' x.
Proof.
  intros Hnt Hp Hlen Hr [[Ht Hm]|Hx]; (split; [rewrite (re_tab _ _ _ _ _ _ Hr)|intros va Hs]).
  - done.
  - destruct (off_pages_dec p (length pas) va) as [Hoff|(i & Hi & Hs')].
    + rewrite (re_out _ _ _ _ _ _ Hr) by done. by apply Hm.
    + by apply (re_in _ _ _ _ _ _ Hr va i).
  - destruct (in_page p _ x Hp Hlen Hx) as (i & Hi & Hs). rewrite Hs. by apply Hnt.
  - destruct (in_page p _ x Hp Hlen Hx) as (i & Hi & Hs'). apply (re_in _ _ _ _ _ _ Hr va i); [done|].
    unfold same_2m in *. congruence.
Qed.

(** ** The calls *)
Lemma align_2m_pages n :
  0 < Z.of_nat n < 2 ^ 27 -> align_2m (Z.of_nat n * PAGE_SIZE_LARGE) = Z.of_nat n * PAGE_SIZE_LARGE.
Proof.
  intros Hn. apply align_2m_exact; [unfold PAGE_SIZE_LARGE; lia..|]. by apply Z.mod_mul.
Qed.

(** The flags a range is mapped with. *)
Definition flag_ok (flag : Z) : Prop :=
  0 <= flag < 4096 /\ Z.testbit flag 0 = true /\ Z.testbit flag 7 = true.
Lemma map_flags_rw_ok : flag_ok map_flags_rw.
Proof. by repeat split. Qed.

(** The range a successful call returns. *)
Record served s tab lh (n : nat) (p flag : Z) pas s' tab' : Prop := {
  sv_range : lo <= p /\ p + Z.of_nat n * PAGE_SIZE_LARGE <= hi /\ p mod PAGE_SIZE_LARGE = 0;
  sv_free x : in_range p (Z.of_nat n * PAGE_SIZE_LARGE) x -> covers lh x;
  sv_count : length pas = n;
  sv_gained : gained (v_mm s) tab p flag pas (v_mm s') tab'
}.

(** A range of addresses that has left the zone, with nothing behind it yet. *)
Record reserved s lf lh la (n : nat) (p : Z) (i : nat) lh1 s1 : Prop := {
  rv_zones : same_zones s s1;
  rv_mm : v_mm s1 = v_mm s;
  rv_lock : p_lock (z_pool (v_zones s1 zn)) = false;
  rv_range : lo <= p /\ p + Z.of_nat n * PAGE_SIZE_LARGE <= hi /\ p mod PAGE_SIZE_LARGE = 0;
  rv_zone : zone_ok lo hi (v_zones s1 zn) (tail lf) lh1 ((i, (p, Z.of_nat n * PAGE_SIZE_LARGE, tt)) :: la);
  rv_in x : in_range p (Z.of_nat n * PAGE_SIZE_LARGE) x -> covers lh x;
  rv_out x : covers lh1 x <-> covers lh x /\ ~ in_range p (Z.of_nat n * PAGE_SIZE_LARGE) x
}.

Lemma reserve_ok s tab lf lh la n :
  vm_ok s tab lf lh la -> p_lock (z_pool (v_zones s zn)) = false -> lf <> [] -> 0 < Z.of_nat n < 2 ^ 27 ->
  wp (on_zones (alloc_linear_impl (zone_id zn) 0 (Z.of_nat n * PAGE_SIZE_LARGE))) s (fun p s1 =>
    p = 0 /\ same_zones s s1 /\ v_mm s1 = v_mm s /\ vm_ok s1 tab lf lh la /\
      p_lock (z_pool (v_zones s1 zn)) = false \/
    p <> 0 /\ exists i lh1, reserved s lf lh la n p i lh1 s1).
Proof.
  intros [Hz Hmm Hcl Hvac] Hlk Hne Hn. unfold alloc_linear_impl. rewrite get_zone_id.
  set (size := Z.of_nat n * PAGE_SIZE_LARGE).
  assert (align_2m size = size) as Hal by (by apply align_2m_pages).
  change (n0 <- ret zn;; on_zone n0 (alloc_linear_at 0 size)) with (on_zone zn (alloc_linear size)).
  apply on_zone_ok. eapply wp_mono.
  { apply (alloc_linear_ok lo hi Hlo Hhi _ lf lh la size Hz Hlk Hne); unfold size, PAGE_SIZE_LARGE; lia. }
  rewrite Hal. intros p z' [Hlk' Hres] s1 Hs1 Hsame1 Hmm1.
  destruct Hres as [(-> & Hz' & _)|(i & lh' & Hpl & Hph & Hpm & Hz' & Hin & Hout)].
  - left. split; [done|]. split; [done|]. split; [done|]. rewrite Hs1. split; [|done].
    split; rewrite ?Hs1, ?Hmm1; done.
  - right. split; [lia|]. exists i, lh'. split; rewrite ?Hs1; done.
Qed.

Lemma back_ok s tab lf lh la n p i lh1 s1 flag :
  vm_ok s tab lf lh la -> reserved s lf lh la n p i lh1 s1 -> can_back n (frames (v_mm s)) ->
  0 < Z.of_nat n < 2 ^ 27 -> flag_ok flag ->
  wp (on_mm (map_alloc_at p (Z.of_nat n * PAGE_SIZE_LARGE) flag)) s1 (fun e s2 =>
    v_zones s2 = v_zones s1 /\ exists tab',
    vm_ok s2 tab' (tail lf) lh1 ((i, (p, Z.of_nat n * PAGE_SIZE_LARGE, tt)) :: la) /\
    (e = OK /\ (exists pas, served s tab lh n p flag pas s2 tab') \/
     e = ENOMEM /\ restored (v_mm s) tab (v_mm s2) tab')).
Proof.
  intros [Hz Hmm Hcl Hvac] [_ Hmm1 _ (Hpl & Hph & Hpm) Hz1 Hin Hout] Hcan Hn Hfl.
  set (size := Z.of_nat n * PAGE_SIZE_LARGE) in *.
  destruct (vacant_range (v_mm s) tab p n) as [Hnt Hun]; [intros x Hx; by apply Hvac, Hin|].
  unfold on_mm. apply wp_zoom. rewrite Hmm1. eapply wp_mono.
  { apply (map_alloc_at_ok (v_mm s) tab p n flag); try done. split; try done.
    unfold size, PAGE_SIZE_LARGE in *. lia. }
  intros e m' Hres. split; [done|].
  destruct Hres as [(-> & pas & tab' & Hlen & Hg)|(-> & tab' & Hr)]; exists tab'; (split; [|eauto using served]).
  - split; cbn [v_zones v_mm]; [done|apply Hg|by eapply gained_closed|].
    intros x [Hx Hxn]%Hout. eapply vacant_gained; [exact Hg| |by apply Hvac].
    rewrite Hlen. apply zone_off_pages; try done. eapply covers_bounds; [exact Hz|done].
  - left. split; [done|]. exists pas. by split.
  - split; cbn [v_zones v_mm]; [done|apply Hr|by eapply restored_closed|].
    intros x [Hx _]%Hout. eapply vacant_restored; [exact Hr|by apply Hvac].
Qed.

Lemma alloc_vm_ok s tab lf lh la n :
  vm_ok s tab lf lh la -> p_lock (z_pool (v_zones s zn)) = false -> (2 <= length lf)%nat ->
  can_back n (frames (v_mm s)) -> 0 < Z.of_nat n < 2 ^ 27 ->
  wp (alloc_vm (zone_id zn) (Z.of_nat n * PAGE_SIZE_LARGE)) s (fun r s' => same_zones s s' /\
    (r = 0 /\ (exists tab' lf' lh' la', vm_ok s' tab' lf' lh' la' /\
       restored (v_mm s) tab (v_mm s') tab' /\ forall x, covers lh' x <-> covers lh x) \/
     exists i pas tab' lh', served s tab lh n r map_flags_rw pas s' tab' /\
       vm_ok s' tab' (tail lf) lh' ((i, (r, Z.of_nat n * PAGE_SIZE_LARGE, tt)) :: la) /\
       p_lock (z_pool (v_zones s' zn)) = false /\
       forall x, covers lh' x <-> covers lh x /\ ~ in_range r (Z.of_nat n * PAGE_SIZE_LARGE) x)).
Proof.
  intros Hok Hlk Hlf Hcan Hn. unfold alloc_vm. wp_steps. eapply wp_mono.
  { apply (reserve_ok s tab lf lh la n Hok Hlk); [intros ->; cbn in Hlf; lia|done]. }
  intros p s1 [(-> & Hsame & Hmm1 & Hok1 & _)|(Hp0 & i & lh1 & Hrv)].
  { cbn [Z.eqb]. wp_steps. split; [done|]. left. split; [done|]. exists tab, lf, lh, la.
    split; [done|]. split; [|done]. rewrite Hmm1. apply restored_refl, Hok. }
  rewrite (proj2 (Z.eqb_neq p 0)) by lia. wp_steps. eapply wp_mono.
  { by apply (back_ok s tab lf lh la n p i lh1 s1 map_flags_rw Hok Hrv Hcan Hn), map_flags_rw_ok. }
  destruct Hrv as [Hsame _ Hlk1 (Hpl & Hph & Hpm) _ Hin Hout].
  intros e s2 (Hzs & tab' & Hok2 & [(-> & pas & Hsv)|(-> & Hr)]).
  - change (OK =? OK) with true. cbn [negb]. wp_steps. split; [intros zn' Hne; rewrite Hzs; by apply Hsame|].
    right. exists i, pas, tab', lh1. rewrite Hzs. done.
  - change (ENOMEM =? OK) with false. cbn [negb]. wp_steps. unfold free_linear. rewrite get_zone_id.
    set (size := Z.of_nat n * PAGE_SIZE_LARGE) in *.
    assert (align_2m size = size) as Hal by (by apply align_2m_pages).
    change (n0 <- ret zn;; on_zone n0 (on_pool (free_linear_zone p size)))
      with (on_zone zn (on_pool (free_linear_zone p size))).
    apply on_zone_ok. destruct Hok2 as [Hz2 Hmm2 Hcl2 _]. rewrite Hzs. rewrite Hzs in Hz2. eapply wp_mono.
    { apply (free_linear_zone_ok lo hi Hlo Hhi _ (tail lf) lh1 _ p size Hz2 Hlk1);
        try done; try (unfold size, PAGE_SIZE_LARGE; lia).
      - destruct lf as [|c [|c' lf]]; cbn in *; [lia..|done].
      - rewrite Hal. lia.
      - rewrite Hal. intros x Hx [_ Hnx]%Hout. done. }
    rewrite Hal. intros [] z3 (lf3 & lh3 & Hz3 & Hc & _) s3 Hs3 Hsame3 Hmm3. wp_steps.
    split; [intros zn' Hne; rewrite Hsame3, Hzs by done; by apply Hsame|]. left. split; [done|].
    assert (forall x, covers lh3 x <-> covers lh x) as Hc'.
    { intros x. rewrite Hc, Hout. split; [intros [[]|]; auto|].
      intros Hx. destruct (decide (p <= x < p + size)); [by right|by left]. }
    eexists tab', lf3, lh3, _. rewrite Hmm3. split; [|by split].
    split; rewrite ?Hs3, ?Hmm3; [exact Hz3|done|done|].
    intros x Hx%Hc'. eapply vacant_restored; [exact Hr|]. by apply (vo_vacant _ _ _ _ _ Hok).
Qed.

Lemma free_vm_ok s tab lf lh la n p flag pas :
  vm_ok s tab lf lh la -> p_lock (z_pool (v_zones s zn)) = false -> lf <> [] ->
  range_ok p n flag -> length pas = n -> backed (v_mm s) tab p flag pas ->
  lo <= p -> p + Z.of_nat n * PAGE_SIZE_LARGE <= hi ->
  (forall x, in_range p (Z.of_nat n * PAGE_SIZE_LARGE) x -> ~ covers lh x) ->
  wp (free_vm (zone_id zn) p (Z.of_nat n * PAGE_SIZE_LARGE)) s (fun _ s' => same_zones s s' /\
    exists tab' lf' lh', vm_ok s' tab' lf' lh' la /\
      released (v_mm s) tab p pas (v_mm s') tab' /\
      (forall x, covers lh' x <-> covers lh x \/ in_range p (Z.of_nat n * PAGE_SIZE_LARGE) x) /\
      (p_lock (z_pool (v_zones s' zn)) = true <-> Exists (ends_at p) lh)).
Proof.
  intros [Hz Hmm Hcl Hvac] Hlk Hlf Hro Hlen Hb Hpl Hph Hdis.
  pose proof (ro_align _ _ _ Hro) as Hpm. pose proof (ro_pages _ _ _ Hro) as Hn.
  unfold free_vm, on_mm. wp_steps. eapply wp_mono.
  { rewrite <- Hlen. by apply (unmap_free_at_ok (v_mm s) tab p flag n); [done|done|lia|]. }
  intros [] m' (tab' & Hr). unfold free_linear. rewrite get_zone_id.
  set (size := Z.of_nat n * PAGE_SIZE_LARGE) in *.
  assert (align_2m size = size) as Hal by (by apply align_2m_pages).
  change (n0 <- ret zn;; on_zone n0 (on_pool (free_linear_zone p size)))
    with (on_zone zn (on_pool (free_linear_zone p size))).
  apply on_zone_ok. cbn [v_zones v_mm]. eapply wp_mono.
  { apply (free_linear_zone_ok lo hi Hlo Hhi _ lf lh la p size Hz Hlk Hlf Hpl);
      rewrite ?Hal; try done; unfold size, PAGE_SIZE_LARGE; lia. }
  rewrite Hal. intros [] z' (lf' & lh' & Hz' & Hc & Hcase) s' Hs' Hsame Hmm'. split; [done|].
  exists tab', lf', lh'. rewrite Hmm'. cbn [v_mm]. split; [|split; [done|split; [done|]]].
  - split; rewrite ?Hs', ?Hmm'; cbn [v_mm]; [done|apply Hr|by eapply released_closed|].
    intros x Hx. eapply vacant_released; try exact Hr; [by eapply backed_no_tables|done|lia|].
    rewrite Hlen. apply Hc in Hx as [Hx|Hx]; [left; by apply Hvac|by right].
  - rewrite Hs'. destruct Hcase as [(Hex & -> & _)|(Hex & -> & _)]; naive_solver.
Qed.
End backed_zone.

(** ** The state after start-up *)
Definition boot_vm : vm (T := phy_page phymem) := VMem (fun _ => vmalloc_boot) boot_mm.
Local Abbreviation LO := VMALLOC_START.
Local Abbreviation HI := (VMALLOC_END + 1).

Lemma boot_vm_ok :
  exists lf lh, vm_ok vmalloc_zone LO HI boot_vm root_only lf lh [] /\ length lf = 99%nat.
Proof.
  destruct vmalloc_boot_ok as (Hlk & lf & lh & Hok & Hlen & Hc). exists lf, lh.
  split; [|done]. split; [exact Hok|exact boot_mm_ok|exact two_pages_closed|].
  intros x _. split; [apply boot_mm_vacant|]. intros va _. apply boot_mm_vacant.
Qed.

(** ** Properties *)




