(* ===== verification/YaosCall.v ===== *)
(** * YaosCall: the table of kernel entry points and the memory calls over it

    Modules reach the kernel through a table of function pointers that
    [init_yaoscall] (kernel/yaoscall.c) fills from the linker section of
    [DECLARE_YAOSCALL]s.  kernel/yaos_page.c declares the memory functions,
    include/yaoscall/page.h calls them, and libc/mman.c makes [mmap],
    [munmap] and [mremap] of them, over the zones of Vm.v, the page tables and
    the physical allocators. *)
From Stdlib Require Import ZArith Lia.
From stdpp Require Import base tactics gmap list option.
From S2P Require Import Prelude Pages Layout PhyMem PhyPage PgTable Vm.
#[export] Set Warnings "-clear-no-such-hyp".

(** ** Numbers (include/yaos/yaoscall.h) *)
Definition YAOS_page_alloc : nat := 1.
Definition YAOS_page_free : nat := 2.
Definition YAOS_heap_alloc : nat := 3.
Definition YAOS_heap_free : nat := 4.
Definition YAOS_max_physical_mem : nat := 7.
Definition YAOS_alloc_at : nat := 8.
Definition YAOS_free_at : nat := 9.
Definition YAOS_map_p2v : nat := 10.
Definition YAOS_map_flags_at : nat := 11.
Definition YAOS_map_copy : nat := 12.
Definition YAOS_alloc_linear : nat := 13.
Definition YAOS_free_linear : nat := 14.
Definition YAOS_v2p : nat := 19.
Definition YAOS_unmap_at : nat := 20.
Definition MAX_YAOSCALL : nat := 21.
Definition ERR_YAOSCALL_NONE_EXIST : Z := -1.
Definition ERR_YAOSCALL_NO_MEM : Z := -2.
Definition YAOSCALL_OK : Z := 0.
Definition MIN_VM_ALLOC_SIZE : Z := PAGE_SIZE_LARGE.

(** What a slot of the table points to; [other] are the functions of other
    files, by an arbitrary number. *)
Inductive func :=
  | dummy | dummy1
  | heap_alloc_4k | heap_free_4k | page_alloc | page_free | max_phymem
  | s_map_p2v | s_alloc_linear | s_free_linear | s_alloc_at | s_free_at | s_copy_map
  | s_v2p | s_map_flags_at | s_unmap_at
  | other (n : nat).
#[global] Instance func_eq_dec : EqDecision func.
Proof. solve_decision. Defined.

(** The page [pyaoscall_table], and the memory it gives access to. *)
Record sys := Sys { pyaoscall_table : list func; vmem : vm (T := phy_page phymem) }.
Definition set_table (t : list func) (s : sys) : sys := Sys t (vmem s).
Definition set_vmem (v : vm) (s : sys) : sys := Sys (pyaoscall_table s) v.
Definition on_vm {A} : M vm A -> M sys A := zoom vmem set_vmem.
Definition on_tables {A} (m : M (mm (phy_page phymem)) A) : M sys A := on_vm (on_mm m).
Definition on_phys {A} (m : M (phy_page phymem) A) : M sys A := on_tables (on_frames m).

(** ** Filling the table (kernel/yaoscall.c) *)

(** [DECLARE_YAOSCALL]s in the order of the linker section. *)
Definition declaration : Type := nat * func.
Definition yaos_page_declarations : list declaration :=
  [(YAOS_heap_alloc, heap_alloc_4k); (YAOS_heap_free, heap_free_4k); (YAOS_page_alloc, page_alloc);
   (YAOS_page_free, page_free); (YAOS_max_physical_mem, max_phymem); (YAOS_map_p2v, s_map_p2v);
   (YAOS_alloc_linear, s_alloc_linear); (YAOS_free_linear, s_free_linear); (YAOS_alloc_at, s_alloc_at);
   (YAOS_free_at, s_free_at); (YAOS_map_copy, s_copy_map); (YAOS_v2p, s_v2p);
   (YAOS_map_flags_at, s_map_flags_at); (YAOS_unmap_at, s_unmap_at)].
Definition yaoscall_declarations : list declaration := [(0%nat, dummy1); (0%nat, dummy)].

Definition regist_yaoscall (id : nat) (f : func) : M sys unit :=
  t <- gets pyaoscall_table ;;
  if (id <? length t)%nat then modify (set_table (<[id := f]> t)) else fault.
Fixpoint regist_all (l : list declaration) : M sys unit :=
  match l with
  | [] => ret tt
  | (id, f) :: l' => regist_yaoscall id f ;;; regist_all l'
  end.
Definition init_yaoscall (isbp : bool) (section : list declaration) : M sys Z :=
  if negb isbp then ret 0
  else
    regist_all (map (fun i => (i, dummy)) (seq 0 MAX_YAOSCALL)) ;;;
    regist_all section ;;;
    ret 0.
Definition init_callpage (isbp : bool) : M sys Z :=
  if negb isbp then ret 0
  else on_tables (map_4k_page_p2v 0x9000 (P2V 0x9000) (Z.lor PTE_U PTE_P)) ;;; ret 0.

(** ** The entry points (kernel/yaos_page.c) *)

Definition call_max_phymem : M sys ret_t :=
  m <- on_phys (gets (fun s => max_phy_mem_addr (pp_src s))) ;; ret (RetT m YAOSCALL_OK).
Definition call_heap_alloc_4k (size : Z) : M sys ret_t :=
  kassert (Z.land size 0xfff =? 0) ;;;
  a <- on_phys (alloc_phy_page_small size) ;;
  ret (RetT (P2V a) 0).
Definition call_heap_free_4k (addr size : Z) : M sys ret_t :=
  kassert ((Z.land size 0xfff =? 0) && (Z.land addr 0xfff =? 0)) ;;;
  a <- V2P addr ;;
  on_phys (PhyPage.on_pool (free_phy_page_small a size)) ;;;
  ret (RetT 0 0).
Definition call_page_alloc (size : Z) : M sys ret_t :=
  kassert (size =? PAGE_SIZE_LARGE) ;;;
  v <- on_phys (on_src alloc_phy_page) ;;
  ret (RetT v (if v =? 0 then ERR_YAOSCALL_NO_MEM else YAOSCALL_OK)).
Definition call_page_free (addr size : Z) : M sys ret_t :=
  on_phys (on_src (free_phy_pages addr size)) ;;; ret (RetT 0 0).
Definition call_alloc_linear (id addr size : Z) : M sys ret_t :=
  v <- on_vm (on_zones (alloc_linear_impl id addr size)) ;;
  ret (RetT v (if v =? 0 then ERR_YAOSCALL_NO_MEM else YAOSCALL_OK)).
Definition call_free_linear (id addr size : Z) : M sys ret_t :=
  if negb (Z.land addr (MIN_VM_ALLOC_SIZE - 1) =? 0) then ret (RetT 0 0)
  else on_vm (on_zones (free_linear id addr size)) ;;; ret (RetT 0 0).
Definition call_alloc_at (addr size flag : Z) : M sys ret_t :=
  if addr =? 0 then ret (RetT 0 EINVAL)
  else e <- on_tables (map_alloc_at addr size flag) ;; ret (RetT 0 e).
Definition call_free_at (addr size : Z) : M sys ret_t :=
  on_tables (unmap_free_at addr size) ;;; ret (RetT 0 0).
Definition call_unmap_at (addr size : Z) : M sys ret_t :=
  on_tables (unmap_at addr size) ;;; ret (RetT 0 0).
Definition call_map_p2v (paddr vaddr size flag : Z) : M sys ret_t :=
  e <- on_tables (map_p2v paddr vaddr size flag) ;; ret (RetT 0 e).
(** The next three return one register, in [r_v]; [s_v2p] an [int]. *)
Definition call_copy_map (vaddr old size : Z) : M sys ret_t :=
  r <- on_tables (map_copy_map vaddr old size) ;; ret (RetT r 0).
Definition call_v2p (addr : Z) : M sys ret_t :=
  r <- on_tables (map_paddr_flags_at addr) ;; ret (RetT (wrap32 (r_v r)) 0).
Definition call_map_flags_at (addr : Z) : M sys ret_t :=
  r <- on_tables (map_paddr_flags_at addr) ;; ret (RetT (r_e r) 0).

Section calls.
(** What the functions of other files do with their argument registers. *)
Context (ext : nat -> Z -> Z -> Z -> Z -> M sys ret_t).

(** A call through the table: the callee takes its arguments from the first
    four argument registers, whatever the caller meant by them. *)
Definition invoke (f : func) (a1 a2 a3 a4 : Z) : M sys ret_t :=
  match f with
  | dummy | dummy1 => ret (RetT 0 ERR_YAOSCALL_NONE_EXIST)
  | heap_alloc_4k => call_heap_alloc_4k a1
  | heap_free_4k => call_heap_free_4k a1 a2
  | page_alloc => call_page_alloc a1
  | page_free => call_page_free a1 a2
  | max_phymem => call_max_phymem
  | s_map_p2v => call_map_p2v a1 a2 a3 a4
  | s_alloc_linear => call_alloc_linear a1 a2 a3
  | s_free_linear => call_free_linear a1 a2 a3
  | s_alloc_at => call_alloc_at a1 a2 a3
  | s_free_at => call_free_at a1 a2
  | s_copy_map => call_copy_map a1 a2 a3
  | s_v2p => call_v2p a1
  | s_map_flags_at => call_map_flags_at a1
  | s_unmap_at => call_unmap_at a1 a2
  | other n => ext n a1 a2 a3 a4
  end.
(** [yaoscall_p(id)] and the call; registers not passed are 0. *)
Definition yaoscall (id : nat) (a1 a2 a3 a4 : Z) : M sys ret_t :=
  t <- gets pyaoscall_table ;;
  f <- deref_opt (t !! id) ;;
  invoke f a1 a2 a3 a4.

(** ** The wrappers (include/yaoscall/page.h) *)
Definition get_vm_zone_from_addr (addr : Z) : Z :=
  if (VMALLOC_START <=? addr) && (addr <=? VMALLOC_END) then VM_ZONE_VMALLOC
  else if (LOW_MMAP_START <=? addr) && (addr <=? LOW_MMAP_END) then VM_ZONE_LOW_MMAP
  else if KERNEL_BELOW_1G_START <=? addr then VM_ZONE_KERNEL_BELOW1G
  else 0.

Definition yaos_v2p (addr : Z) : M sys Z :=
  if KERNEL_BASE <? addr then ret (K2P addr)
  else if (PHYS_VIRT_START <=? addr) && (addr <=? PHYS_VIRT_END) then V2P addr
  else r <- yaoscall YAOS_v2p addr 0 0 0 ;; ret (r_v r).
Definition yaos_heap_alloc_4k (size : Z) : M sys Z :=
  r <- yaoscall YAOS_heap_alloc size 0 0 0 ;; ret (r_v r).
Definition yaos_heap_free_4k (addr size : Z) : M sys unit :=
  yaoscall YAOS_heap_free addr size 0 0 ;;; ret tt.
Definition yaos_page_alloc (size : Z) : M sys Z :=
  r <- yaoscall YAOS_page_alloc size 0 0 0 ;; ret (r_v r).
Definition yaos_alloc_linear_at (id addr size : Z) : M sys Z :=
  r <- yaoscall YAOS_alloc_linear id addr size 0 ;; ret (r_v r).
Definition yaos_alloc_linear (id size : Z) : M sys Z := yaos_alloc_linear_at id 0 size.
Definition yaos_alloc_linear_hint (addr size : Z) : M sys Z :=
  let id := get_vm_zone_from_addr addr in
  if id =? 0 then ret 0 else yaos_alloc_linear_at id addr size.
Definition yaos_map_p2v (paddr addr size flag : Z) : M sys ret_t := yaoscall YAOS_map_p2v paddr addr size flag.
Definition yaos_alloc_at (addr size flag : Z) : M sys ret_t := yaoscall YAOS_alloc_at addr size flag 0.
Definition yaos_free_at (addr size : Z) : M sys ret_t := yaoscall YAOS_free_at addr size 0 0.
Definition yaos_map_flags_at (addr : Z) : M sys Z :=
  r <- yaoscall YAOS_map_flags_at addr 0 0 0 ;; ret (r_v r).
Definition yaos_map_copy (vaddr old size : Z) : M sys Z :=
  r <- yaoscall YAOS_map_copy vaddr old size 0 ;; ret (r_v r).
Definition yaos_free_linear (id addr size : Z) : M sys ret_t := yaoscall YAOS_free_linear id addr size 0.
Definition yaos_free_linear_low_mmap (addr size : Z) : M sys ret_t :=
  yaos_free_linear VM_ZONE_LOW_MMAP addr size.
Definition yaos_alloc_linear_low_mmap (addr size : Z) : M sys Z :=
  yaos_alloc_linear_at VM_ZONE_LOW_MMAP addr size.
Definition yaos_free_linear_hint (addr size : Z) : M sys ret_t :=
  let id := get_vm_zone_from_addr addr in
  kassert (negb (id =? 0)) ;;;
  yaos_free_linear id addr size.
Definition yaos_vm_unmap_low_mmap (addr size : Z) : M sys ret_t :=
  r <- yaoscall YAOS_unmap_at addr size 0 0 ;;
  if negb (r_e r =? OK) then ret r else yaos_free_linear_low_mmap addr size.
Definition yaos_vm_free_low_mmap (addr size : Z) : M sys ret_t :=
  r <- yaoscall YAOS_free_at addr size 0 0 ;;
  if negb (r_e r =? OK) then ret r else yaos_free_linear_low_mmap addr size.
Definition yaos_vm_free_hint (addr size : Z) : M sys ret_t :=
  let id := get_vm_zone_from_addr addr in
  kassert (negb (id =? 0)) ;;;
  r <- yaoscall YAOS_free_at addr size 0 0 ;;
  if negb (r_e r =? OK) then ret r else yaos_free_linear id addr size.
(** It calls [YAOS_page_alloc]. *)
Definition yaos_page_free (addr size : Z) : M sys unit :=
  yaoscall YAOS_page_alloc addr size 0 0 ;;; ret tt.
Definition yaos_max_physical_mem : M sys Z :=
  r <- yaoscall YAOS_max_physical_mem 0 0 0 0 ;; ret (r_v r).

(** ** The C library's calls (libc/mman.c) *)
Definition MAP_FAILED : Z := 2 ^ 64 - 1.
Definition PROT_WRITE : Z := 2.
Definition PROT_EXEC : Z := 4.
Definition MREMAP_FIXED : Z := 2.
Definition MREMAP_DONTUNMAP : Z := 4.
Definition flag_set (flags bit : Z) : bool := negb (Z.land flags bit =? 0).

Definition map_flags_base : Z := Z.lor PTE_P PTE_PS.
Definition map_flags_write : Z := PTE_W.
Definition map_flags_code : Z := 0.
Definition mmap_flags (prot : Z) : Z :=
  Z.lor (Z.lor map_flags_base (if flag_set prot PROT_WRITE then map_flags_write else 0))
        (if flag_set prot PROT_EXEC then map_flags_code else 0).

Definition mmap (addr length prot : Z) : M sys Z :=
  a <- (if addr =? 0 then yaos_alloc_linear_low_mmap addr length
        else yaos_alloc_linear_hint addr length) ;;
  if a =? 0 then ret MAP_FAILED
  else
    r <- yaos_alloc_at a length (mmap_flags prot) ;;
    if negb (r_e r =? OK) then ret MAP_FAILED else ret a.
Definition munmap (addr length : Z) : M sys Z :=
  r <- yaos_vm_free_hint addr length ;;
  if negb (r_e r =? OK) then ret (-1) else ret 0.

(** [__mremap]; [new_addr0] is its last argument. *)
Definition mremap_grow (new_addr old_addr old_len new_len : Z) : M sys bool :=
  flags <- yaos_map_flags_at old_addr ;;
  r <- yaos_alloc_at (wrap64 (new_addr + old_len)) (new_len - old_len) flags ;;
  ret (r_e r =? OK).
Definition __mremap (old_addr old_len0 new_len flags new_addr0 : Z) : M sys Z :=
  let old_len := if old_len0 =? 0 then new_len else old_len0 in
  let off := Z.land old_addr (MIN_VM_ALLOC_SIZE - 1) in
  x <- (if negb (flag_set flags MREMAP_FIXED) || (new_addr0 =? 0) then
          a <- yaos_alloc_linear_low_mmap 0 (wrap64 (new_len + off)) ;;
          ret (if a =? 0 then None else Some (wrap64 (a + off)))
        else ret (Some new_addr0)) ;;
  match x with
  | None => ret MAP_FAILED
  | Some new_addr =>
      ok <- (if old_len <? new_len then mremap_grow new_addr old_addr old_len new_len
             else if (new_len <? old_len) && (MIN_VM_ALLOC_SIZE <=? old_len - new_len) &&
                     negb (flag_set flags MREMAP_DONTUNMAP)
             then yaos_vm_unmap_low_mmap (wrap64 (new_addr + new_len)) (old_len - new_len) ;;; ret true
             else ret true) ;;
      if negb (ok : bool) then ret MAP_FAILED
      else
        c <- yaos_map_copy new_addr old_addr old_len ;;
        if negb (c =? OK) then ret MAP_FAILED
        else
          (if negb (flag_set flags MREMAP_DONTUNMAP)
           then yaos_vm_unmap_low_mmap old_addr old_len ;;; ret tt else ret tt) ;;;
          ret new_addr
  end.
End calls.
