(* ===== verification/MmapRuns.v ===== *)
(** * MmapRuns: runs of [mmap] and [munmap]

    What a sequence of [mmap]s and [munmap]s of whole 2M pages (libc/mman.c
    through the table of YaosCall.v) does to the address space and to physical
    memory: the regions a client holds are apart, each is backed by frames of
    its own, and memory is neither lost nor made. *)
From Stdlib Require Import ZArith Lia.
From stdpp Require Import base tactics sets gmap list option.
From S2P Require Import Prelude HoleList FreeSet Pages Layout PhyMem PhyPage PgTable PgWalk PgMap PgBack Vm VmBack YaosCall.
#[export] Set Warnings "-clear-no-such-hyp".

Local Abbreviation LO := LOW_MMAP_START.
Local Abbreviation HI := (LOW_MMAP_END + 1).
Local Abbreviation size_of n := (Z.of_nat n * PAGE_SIZE_LARGE).
Local Abbreviation low_ok := (vm_ok low_mmap_zone LO HI).

Lemma low_zone : 0 < LO /\ HI < 2 ^ 64 /\ HI - LO < 2 ^ 48.
Proof. done. Qed.

(** ** The table *)

(** The last declaration of a number. *)
Fixpoint declared (l : list declaration) (id : nat) : option func :=
  match l with
  | [] => None
  | (i, f) :: l' => match declared l' id with Some g => Some g | None => if (i =? id)%nat then Some f else None end
  end.

Lemma regist_all_ok l : forall s, Forall (fun d => (d.1 < length (pyaoscall_table s))%nat) l ->
  wp (regist_all l) s (fun _ s' => vmem s' = vmem s /\ length (pyaoscall_table s') = length (pyaoscall_table s) /\
    forall id, pyaoscall_table s' !! id =
      match declared l id with Some f => Some f | None => pyaoscall_table s !! id end).
Proof.
  induction l as [|[i f] l IH]; intros s Hl; cbn [regist_all declared]; [by wp_steps|].
  apply list.Forall_cons in Hl as [Hi Hl]. cbn [fst] in Hi. unfold regist_yaoscall. wp_steps.
  rewrite (proj2 (Nat.ltb_lt _ _) Hi). wp_steps. eapply wp_mono.
  { apply IH. cbn [pyaoscall_table set_table]. by rewrite length_insert. }
  cbn [pyaoscall_table set_table vmem]. intros _ s' (-> & Hlen & Hlook). rewrite length_insert in Hlen.
  split; [done|]. split; [done|]. intros id. rewrite Hlook. destruct (declared l id); [done|].
  destruct (Nat.eqb_spec i id) as [<-|Hne]; [by rewrite list_lookup_insert_eq|by rewrite list_lookup_insert_ne].
Qed.

Lemma declared_dummies n k id : declared (map (fun i => (i, dummy)) (seq k n)) id =
  if ((k <=? id) && (id <? k + n))%nat then Some dummy else None.
Proof.
  revert k. induction n as [|n IH]; intros k; cbn [seq map declared].
  - destruct (Nat.leb_spec k id), (Nat.ltb_spec id (k + 0)); cbn; done || lia.
  - rewrite IH. destruct (Nat.leb_spec (S k) id), (Nat.ltb_spec id (S k + n)), (Nat.eqb_spec k id),
      (Nat.leb_spec k id), (Nat.ltb_spec id (k + S n)); cbn; done || lia.
Qed.

Lemma init_yaoscall_ok s section :
  length (pyaoscall_table s) = 512%nat -> Forall (fun d => (d.1 < MAX_YAOSCALL)%nat) section ->
  wp (init_yaoscall true section) s (fun r s' => r = 0 /\ vmem s' = vmem s /\
    length (pyaoscall_table s') = 512%nat /\
    forall id, (id < MAX_YAOSCALL)%nat ->
      pyaoscall_table s' !! id = Some (default dummy (declared section id))).
Proof.
  intros Hlen Hsec. unfold init_yaoscall. cbn [negb]. wp_steps. eapply wp_mono.
  { apply regist_all_ok. apply list.Forall_forall. intros d (i & -> & Hi%elem_of_seq)%list_elem_of_fmap.
    rewrite Hlen. unfold MAX_YAOSCALL in Hi. cbn. lia. }
  intros _ s1 (Hv1 & Hl1 & Hd1). wp_steps. eapply wp_mono.
  { apply regist_all_ok. eapply list.Forall_impl; [exact Hsec|]. intros d Hd. rewrite Hl1, Hlen.
    cbn beta in Hd. unfold MAX_YAOSCALL in Hd. lia. }
  intros _ s2 (Hv2 & Hl2 & Hd2). wp_steps. split; [done|]. split; [congruence|]. split; [congruence|].
  intros id Hid. rewrite Hd2. destruct (declared section id); [done|]. rewrite Hd1, declared_dummies.
  cbn [Nat.leb andb]. by rewrite (proj2 (Nat.ltb_lt _ _)) by exact Hid.
Qed.

(** The memory functions are where their callers expect them. *)
Definition table_ok (t : list func) : Prop :=
  forall id f, (id, f) ∈ yaos_page_declarations -> t !! id = Some f.

Section calls.
Context (ext : nat -> Z -> Z -> Z -> Z -> M sys ret_t).

Lemma yaoscall_eq s id f a1 a2 a3 a4 : table_ok (pyaoscall_table s) -> (id, f) ∈ yaos_page_declarations ->
  yaoscall ext id a1 a2 a3 a4 s = invoke ext f a1 a2 a3 a4 s.
Proof. intros Ht Hf. unfold yaoscall, bind, gets. by rewrite (Ht id f Hf). Qed.

(** [mmap] and [munmap] are what these are to the memory behind the table. *)
Definition mmap_vm (size flag : Z) : M (vm (T := phy_page phymem)) Z :=
  p <- on_zones (alloc_linear_impl VM_ZONE_LOW_MMAP 0 size) ;;
  if p =? 0 then ret MAP_FAILED
  else
    e <- on_mm (map_alloc_at p size flag) ;;
    ret (if e =? OK then p else MAP_FAILED).

Lemma mmap_eq s size prot : table_ok (pyaoscall_table s) ->
  mmap ext 0 size prot s = on_vm (mmap_vm size (mmap_flags prot)) s.
Proof.
  intros Ht. unfold mmap, mmap_vm, yaos_alloc_linear_low_mmap, yaos_alloc_linear_at, yaos_alloc_at.
  cbn [Z.eqb]. unfold on_vm at 1, zoom at 1, bind at 1, bind at 1.
  rewrite (yaoscall_eq s _ s_alloc_linear) by (done || set_solver). cbn [invoke].
  unfold call_alloc_linear, on_vm, zoom at 1, bind at 1. unfold bind at 2.
  destruct (on_zones (alloc_linear_impl VM_ZONE_LOW_MMAP 0 size) (vmem s)) as [[p v1]| | | |] eqn:Hal; try done.
  cbn [r_v ret]. destruct (Z.eqb_spec p 0) as [->|Hp]; [done|].
  unfold bind at 1. rewrite (yaoscall_eq _ _ s_alloc_at) by (done || set_solver). cbn [invoke].
  unfold call_alloc_at. rewrite (proj2 (Z.eqb_neq p 0) Hp).
  unfold on_tables, on_vm, zoom at 1, bind, ret. cbn [vmem set_vmem].
  destruct (on_mm (map_alloc_at p size (mmap_flags prot)) v1) as [[e v2]| | | |]; try done.
  cbn [r_e]. by destruct (e =? OK).
Qed.

Lemma munmap_eq s p size : table_ok (pyaoscall_table s) -> LO <= p < HI -> p mod PAGE_SIZE_LARGE = 0 ->
  munmap ext p size s = on_vm (free_vm VM_ZONE_LOW_MMAP p size ;;; ret 0) s.
Proof.
  intros Ht Hp Hm. unfold munmap, yaos_vm_free_hint, yaos_free_linear.
  assert (get_vm_zone_from_addr p = VM_ZONE_LOW_MMAP) as ->.
  { unfold get_vm_zone_from_addr. rewrite (proj2 (Z.leb_gt VMALLOC_START p)).
    - cbn [andb]. by rewrite (proj2 (Z.leb_le _ _)), (proj2 (Z.leb_le _ _)) by lia.
    - assert (HI < VMALLOC_START) by done. lia. }
  change (negb (VM_ZONE_LOW_MMAP =? 0)) with true. unfold kassert. cbn iota.
  unfold on_vm, zoom at 1, free_vm, bind, ret.
  rewrite (yaoscall_eq s _ s_free_at) by (done || set_solver). cbn [invoke].
  unfold call_free_at, on_tables, on_vm, zoom at 1, bind, ret.
  destruct (on_mm (unmap_free_at p size) (vmem s)) as [[[] v1]| | | |]; try done.
  cbn [r_e]. change (0 =? OK) with true. cbn [negb].
  rewrite (yaoscall_eq _ _ s_free_linear) by (done || set_solver). cbn [invoke].
  unfold call_free_linear. change (MIN_VM_ALLOC_SIZE - 1) with (2 ^ 21 - 1). rewrite land_low_mod by lia.
  change (2 ^ 21) with PAGE_SIZE_LARGE. rewrite Hm. cbn [Z.eqb negb].
  unfold on_vm, zoom at 1, bind, ret. cbn [vmem set_vmem].
  by destruct (on_zones (free_linear VM_ZONE_LOW_MMAP p size) v1) as [[[] v2]| | | |].
Qed.

Lemma mmap_flags_ok prot : flag_ok (mmap_flags prot).
Proof. unfold mmap_flags. destruct (flag_set prot PROT_WRITE), (flag_set prot PROT_EXEC); by repeat split. Qed.

Lemma mmap_vm_ok (s : vm (T := phy_page phymem)) tab lf lh la n flag :
  low_ok s tab lf lh la -> p_lock (z_pool (v_zones s low_mmap_zone)) = false -> lf <> [] ->
  can_back n (frames (v_mm s)) -> 0 < Z.of_nat n < 2 ^ 27 -> flag_ok flag ->
  wp (mmap_vm (size_of n) flag) s (fun r s' => same_zones low_mmap_zone s s' /\
    exists tab' lf' lh' la', low_ok s' tab' lf' lh' la' /\
    (r = MAP_FAILED /\ restored (v_mm s) tab (v_mm s') tab' /\ (forall x, covers lh' x -> covers lh x) \/
     r <> MAP_FAILED /\
     (exists pas, served LO HI s tab lh n r flag pas s' tab') /\
     forall x, covers lh' x <-> covers lh x /\ ~ in_range r (size_of n) x)).
Proof.
  destruct low_zone as (Hlo & Hhi & Hspan). intros Hok Hlk Hne Hcan Hn Hfl. unfold mmap_vm. wp_steps.
  eapply wp_mono; [by apply (reserve_ok low_mmap_zone LO HI Hlo Hhi s tab lf lh la n)|].
  intros p s1 [(-> & Hsame & Hmm1 & Hok1 & _)|(Hp0 & i & lh1 & Hrv)].
  { cbn [Z.eqb]. wp_steps. split; [done|]. exists tab, lf, lh, la. split; [done|]. left. split; [done|].
    split; [|done]. rewrite Hmm1. apply restored_refl, Hok. }
  rewrite (proj2 (Z.eqb_neq p 0)) by lia. wp_steps. eapply wp_mono.
  { by apply (back_ok low_mmap_zone LO HI Hlo Hhi Hspan s tab lf lh la n p i lh1 s1 flag). }
  destruct Hrv as [Hsame _ _ (Hpl & Hph & Hpm) _ Hin Hout].
  intros e s2 (Hzs & tab' & Hok2 & Hres). wp_steps.
  split; [intros zn' Hz; rewrite Hzs; by apply Hsame|]. exists tab', (tail lf), lh1. eexists. split; [exact Hok2|].
  destruct Hres as [(-> & pas & Hsv)|(-> & Hr)].
  - right. change (OK =? OK) with true. cbn iota. split; [|split; [by exists pas|done]].
    unfold MAP_FAILED, PAGE_SIZE_LARGE in *. lia.
  - left. change (ENOMEM =? OK) with false. cbn iota. split; [done|]. split; [done|]. intros x Hx%Hout. apply Hx.
Qed.

(** ** Regions *)

(** A client's view: the start of each region it holds, with its flags and its
    number of 2M pages. *)
Abbreviation regions := (gmap Z (Z * nat)).

Inductive step : sys * regions -> sys * regions -> Prop :=
  | step_mmap s live n prot s' r :
      0 < Z.of_nat n < 2 ^ 27 -> can_back n (frames (v_mm (vmem s))) ->
      mmap ext 0 (size_of n) prot s = Done (r, s') ->
      step (s, live) (s', if decide (r = MAP_FAILED) then live else <[r := (mmap_flags prot, n)]> live)
  | step_munmap s live p fl n s' r :
      live !! p = Some (fl, n) -> munmap ext p (size_of n) s = Done (r, s') ->
      step (s, live) (s', delete p live).
Inductive run : sys * regions -> sys * regions -> Prop :=
  | run_nil c : run c c
  | run_cons c c1 c2 : run c c1 -> step c1 c2 -> run c c2.

Context (owned0 : Z -> Prop).

(** [F p] are the frames of the region at [p]. *)
Record held_ok (s : vm (T := phy_page phymem)) (tab : list Z -> option Z) (lh : list (cell unit)) (live : regions) (F : Z -> list Z) : Prop := {
  ho_region p fl n : live !! p = Some (fl, n) ->
    range_ok p n fl /\ LO <= p /\ p + size_of n <= HI /\ length (F p) = n /\
    backed (v_mm s) tab p fl (F p) /\ forall x, in_range p (size_of n) x -> ~ covers lh x;
  ho_apart p fl n q fl' n' : live !! p = Some (fl, n) -> live !! q = Some (fl', n') -> p <> q ->
    (forall x, in_range p (size_of n) x -> ~ in_range q (size_of n') x) /\
    (forall y, in_frames (F p) y -> ~ in_frames (F q) y);
  ho_memory y : owned0 y <-> owned (v_mm s) tab y \/
    exists p fl n, live !! p = Some (fl, n) /\ in_frames (F p) y
}.

Lemma region_off (p q : Z) (n m : nat) :
  p mod PAGE_SIZE_LARGE = 0 -> q mod PAGE_SIZE_LARGE = 0 ->
  LO <= p -> p + size_of n <= HI -> LO <= q -> q + size_of m <= HI ->
  (forall x, in_range p (size_of n) x -> ~ in_range q (size_of m) x) -> off_range p n q m.
Proof.
  intros Hpm Hqm Hpl Hph Hql Hqh Hd i Hi. destruct low_zone as (_ & _ & Hspan).
  assert (in_range p (size_of n) (page_at p (Z.of_nat i))) as Hin.
  { unfold in_range, page_at, PAGE_SIZE_LARGE. lia. }
  apply (zone_off_pages LO HI Hspan); try done; [|by apply Hd].
  unfold in_range in Hin. lia.
Qed.

Lemma held_restored s tab lh live F s' tab' lh' :
  held_ok s tab lh live F -> restored (v_mm s) tab (v_mm s') tab' -> (forall x, covers lh' x -> covers lh x) ->
  held_ok s' tab' lh' live F.
Proof.
  intros [Hreg Hap Hmem] Hr Hc. split; [|done|].
  - intros p fl n Hp. destruct (Hreg p fl n Hp) as (? & ? & ? & ? & Hb & Hd). split_and!; try done.
    + by eapply backed_restored.
    + intros x Hx Hx'%Hc. by apply (Hd x).
  - intros y. by rewrite Hmem, (rs_owned _ _ _ _ Hr).
Qed.

Lemma held_map s tab lh live F n r fl pas s' tab' lh' :
  held_ok s tab lh live F -> 0 < Z.of_nat n < 2 ^ 27 -> flag_ok fl ->
  served LO HI s tab lh n r fl pas s' tab' ->
  (forall x, covers lh' x <-> covers lh x /\ ~ in_range r (size_of n) x) ->
  held_ok s' tab' lh' (<[r := (fl, n)]> live) (fun q => if decide (q = r) then pas else F q).
Proof.
  intros [Hreg Hap Hmem] Hn Hfl [(Hl & Hh & Hm) Hfree Hlen Hg] Hc.
  assert (forall p fl' m, live !! p = Some (fl', m) -> forall x, in_range p (size_of m) x -> ~ in_range r (size_of n) x) as Hdis.
  { intros p fl' m Hp x Hx Hx'. destruct (Hreg p fl' m Hp) as (_ & _ & _ & _ & _ & Hd). by apply (Hd x), Hfree. }
  assert (live !! r = None) as Hnew.
  { destruct (live !! r) as [[fl' m]|] eqn:Hr; [|done]. exfalso. destruct (Hreg r fl' m Hr) as (Hro & _).
    pose proof (ro_pages _ _ _ Hro). apply (Hdis r fl' m Hr r); unfold in_range, PAGE_SIZE_LARGE; lia. }
  assert (forall p fl' m, live !! p = Some (fl', m) -> forall y, in_frames (F p) y -> ~ in_frames pas y) as Hfd.
  { intros p fl' m Hp y Hy Hy'. destruct (Hreg p fl' m Hp) as (_ & _ & _ & _ & Hb & _).
    apply (bk_apart _ _ _ _ _ Hb y Hy), (ga_owned _ _ _ _ _ _ _ Hg). by right. }
  assert (forall p x, live !! p = Some x -> p <> r) as Hne by (intros p x Hp ->; congruence).
  split.
  - intros p fl' m [(-> & [= <- <-])|(Hpr & Hp)]%lookup_insert_Some.
    + rewrite decide_True by done. split_and!; try done.
      * split; try done. destruct low_zone as (? & ? & _). lia.
      * apply Hg.
      * intros x Hx [_ Hx']%Hc. done.
    + rewrite decide_False by done. destruct (Hreg p fl' m Hp) as (Hro & Hpl & Hph & Hln & Hb & Hd).
      split_and!; try done; [|intros x Hx [Hx' _]%Hc; by apply (Hd x)].
      eapply backed_gained; [exact Hb|exact Hg|]. rewrite Hln, Hlen.
      apply region_off; try done; [apply Hro|by apply (Hdis p fl' m)].
  - intros p f m q f' m' Hp Hq Hpq. destruct (decide (p = r)) as [->|Hpr], (decide (q = r)) as [->|Hqr]; [done| | |].
    + rewrite lookup_insert_eq in Hp. rewrite lookup_insert_ne in Hq by done. injection Hp as <- <-.
      split; [|intros y Hy Hy'; by apply (Hfd q f' m' Hq y)]. intros x Hx Hx'. by apply (Hdis q f' m' Hq x).
    + rewrite lookup_insert_eq in Hq. rewrite lookup_insert_ne in Hp by done. injection Hq as <- <-.
      split; [by apply (Hdis p f m)|by apply (Hfd p f m)].
    + rewrite lookup_insert_ne in Hp, Hq by done. by apply (Hap p f m q f' m').
  - intros y. rewrite Hmem, (ga_owned _ _ _ _ _ _ _ Hg). split.
    + intros [[Ho|Hy]|(p & f & m & Hp & Hy)]; [by left|right|right].
      * exists r, fl, n. rewrite lookup_insert_eq, decide_True by done. done.
      * exists p, f, m. pose proof (Hne p _ Hp). by rewrite lookup_insert_ne, decide_False.
    + intros [Ho|(p & f & m & Hp & Hy)]; [by left; left|].
      apply lookup_insert_Some in Hp as [(-> & _)|(Hpr & Hp)].
      * rewrite decide_True in Hy by done. left. by right.
      * rewrite decide_False in Hy by done. right. by exists p, f, m.
Qed.

Lemma held_unmap s tab lh live F p fl n s' tab' lh' :
  held_ok s tab lh live F -> live !! p = Some (fl, n) ->
  released (v_mm s) tab p (F p) (v_mm s') tab' ->
  (forall x, covers lh' x <-> covers lh x \/ in_range p (size_of n) x) ->
  held_ok s' tab' lh' (delete p live) F.
Proof.
  intros [Hreg Hap Hmem] Hp Hr Hc. destruct (Hreg p fl n Hp) as (Hro & Hpl & Hph & Hln & Hb & Hd).
  split.
  - intros q f m [Hpq Hq]%lookup_delete_Some. destruct (Hreg q f m Hq) as (Hro' & Hql & Hqh & Hln' & Hb' & Hd').
    destruct (Hap q f m p fl n Hq Hp ltac:(done)) as [Hrd Hfd]. split_and!; try done.
    + eapply backed_kept; [exact Hb'|exact Hr| |exact Hfd]. rewrite Hln, Hln'.
      apply region_off; try done; [apply Hro'|apply Hro].
    + intros x Hx [Hx'|Hx']%Hc; [by apply (Hd' x)|by apply (Hrd x)].
  - intros q f m q' f' m' [_ Hq]%lookup_delete_Some [_ Hq']%lookup_delete_Some. by apply (Hap q f m q' f' m').
  - intros y. rewrite Hmem, (re_owned _ _ _ _ _ _ Hr). split.
    + intros [Ho|(q & f & m & Hq & Hy)]; [by left; left|].
      destruct (decide (q = p)) as [->|Hne]; [left; by right|]. right. exists q, f, m. by rewrite lookup_delete_ne.
    + intros [[Ho|Hy]|(q & f & m & [_ Hq]%lookup_delete_Some & Hy)]; [by left| |].
      * right. by exists p, fl, n.
      * right. by exists q, f, m.
Qed.

(** ** Runs *)

(** The zone's lock is free and a node is left. *)
Definition ready (s : sys) : Prop :=
  p_lock (z_pool (v_zones (vmem s) low_mmap_zone)) = false /\
  p_free (z_pool (v_zones (vmem s) low_mmap_zone)) <> None.

Record inv (s : sys) tab lf lh la live F : Prop := {
  in_table : table_ok (pyaoscall_table s);
  in_vm : low_ok (vmem s) tab lf lh la;
  in_held : held_ok (vmem s) tab lh live F
}.

Lemma ready_nodes s tab lf lh la live F : inv s tab lf lh la live F -> ready s ->
  p_lock (z_pool (v_zones (vmem s) low_mmap_zone)) = false /\ lf <> [].
Proof.
  intros Hi [Hl Hf]. split; [done|]. intros ->. apply Hf.
  exact (proj1 (co_rep _ _ _ _ _ _ _ (zo_cells _ _ _ _ _ _ (vo_zone _ _ _ _ _ _ _ _ (in_vm _ _ _ _ _ _ _ Hi))))).
Qed.

(** Without them no call returns. *)
Lemma unready_mmap s size prot r s' : table_ok (pyaoscall_table s) -> mmap ext 0 size prot s = Done (r, s') -> ready s.
Proof.
  intros Ht. rewrite mmap_eq by done. unfold on_vm, zoom, mmap_vm, bind, on_zones, alloc_linear_impl.
  change VM_ZONE_LOW_MMAP with (zone_id low_mmap_zone). rewrite get_zone_id. unfold bind, ret, on_zone, zoom.
  intros Hrun. split.
  - destruct (p_lock _) eqn:Hl; [|done]. by destruct (locked_alloc (v_zones (vmem s) low_mmap_zone) size Hl) as [H|H];
      unfold alloc_linear in H; rewrite H in Hrun.
  - intros Hf. pose proof (no_nodes_alloc _ size Hf) as H. unfold alloc_linear in H. by rewrite H in Hrun.
Qed.
Lemma unready_munmap s p size r s' : table_ok (pyaoscall_table s) -> LO <= p < HI -> p mod PAGE_SIZE_LARGE = 0 ->
  munmap ext p size s = Done (r, s') -> ready s.
Proof.
  intros Ht Hp Hm. rewrite munmap_eq by done. unfold on_vm, zoom, free_vm, bind.
  destruct (on_mm (unmap_free_at p size) (vmem s)) as [[[] v1]| | | |] eqn:Hun; try done.
  assert (v_zones v1 = v_zones (vmem s)) as Hz.
  { unfold on_mm, zoom in Hun. by destruct (unmap_free_at p size (v_mm (vmem s))) as [[[] m]| | | |]; simplify_eq. }
  unfold on_zones, free_linear. change VM_ZONE_LOW_MMAP with (zone_id low_mmap_zone). rewrite get_zone_id.
  unfold zoom, bind, ret, on_zone, zoom. unfold ready. rewrite Hz. intros Hrun. split.
  - destruct (p_lock _) eqn:Hl; [|done].
    by destruct (locked_free (v_zones (vmem s) low_mmap_zone) p size Hl) as [H|H]; rewrite H in Hrun.
  - intros Hf. by rewrite (no_nodes_free _ p size Hf) in Hrun.
Qed.

Lemma mmap_inv s tab lf lh la live F n prot : inv s tab lf lh la live F -> ready s ->
  0 < Z.of_nat n < 2 ^ 27 -> can_back n (frames (v_mm (vmem s))) ->
  exists r s' tab' lf' lh' la' F', mmap ext 0 (size_of n) prot s = Done (r, s') /\
    inv s' tab' lf' lh' la' (if decide (r = MAP_FAILED) then live else <[r := (mmap_flags prot, n)]> live) F' /\
    forall q, live !! q <> None -> F' q = F q.
Proof.
  intros Hi Hr Hn Hcan. destruct (ready_nodes _ _ _ _ _ _ _ Hi Hr) as [Hlk Hne]. destruct Hi as [Ht Hvm Hh].
  pose proof (mmap_vm_ok (vmem s) tab lf lh la n (mmap_flags prot) Hvm Hlk Hne Hcan Hn (mmap_flags_ok prot)) as Hwp.
  apply wp_run in Hwp as (r & v' & Hrun & _ & tab' & lf' & lh' & la' & Hok' & Hres).
  exists r, (set_vmem v' s), tab', lf', lh', la'. rewrite mmap_eq by done. unfold on_vm, zoom. rewrite Hrun.
  destruct Hres as [(-> & Hre & Hc)|(Hr0 & (pas & Hsv) & Hc)].
  - exists F. split; [done|]. split; [|done]. rewrite decide_True by done. split; [done..|].
    by eapply held_restored.
  - exists (fun q => if decide (q = r) then pas else F q). split; [done|]. rewrite decide_False by done.
    pose proof (held_map _ _ _ _ _ _ _ _ _ _ _ _ Hh Hn (mmap_flags_ok prot) Hsv Hc) as Hh'.
    split; [by split|]. intros q Hq. rewrite decide_False; [done|]. intros ->.
    destruct (live !! r) as [[fl m]|] eqn:Hlr; [|done].
    destruct (ho_region _ _ _ _ _ Hh r fl m Hlr) as (Hro & _ & _ & _ & _ & Hd).
    pose proof (ro_pages _ _ _ Hro). apply (Hd r); [unfold in_range, PAGE_SIZE_LARGE; lia|].
    apply (sv_free _ _ _ _ _ _ _ _ _ _ _ Hsv). unfold in_range, PAGE_SIZE_LARGE. lia.
Qed.

Lemma munmap_inv s tab lf lh la live F p fl n : inv s tab lf lh la live F -> ready s ->
  live !! p = Some (fl, n) ->
  exists s' tab' lf' lh', munmap ext p (size_of n) s = Done (0, s') /\ inv s' tab' lf' lh' la (delete p live) F.
Proof.
  destruct low_zone as (Hlo & Hhi & Hspan). intros Hi Hr Hp.
  destruct (ready_nodes _ _ _ _ _ _ _ Hi Hr) as [Hlk Hne]. destruct Hi as [Ht Hvm Hh].
  destruct (ho_region _ _ _ _ _ Hh p fl n Hp) as (Hro & Hpl & Hph & Hln & Hb & Hd).
  pose proof (ro_pages _ _ _ Hro) as Hn. pose proof (ro_align _ _ _ Hro) as Hm.
  pose proof (free_vm_ok low_mmap_zone LO HI Hlo Hhi (vmem s) tab lf lh la n p fl (F p) Hvm Hlk Hne Hro Hln Hb Hpl Hph Hd) as Hwp.
  apply wp_run in Hwp as ([] & v' & Hrun & _ & tab' & lf' & lh' & Hok' & Hrel & Hc & _).
  exists (set_vmem v' s), tab', lf', lh'. rewrite munmap_eq by (done || unfold PAGE_SIZE_LARGE in *; lia).
  unfold on_vm, zoom, bind at 1. change VM_ZONE_LOW_MMAP with (zone_id low_mmap_zone). rewrite Hrun.
  split; [done|]. split; [done..|]. by eapply held_unmap.
Qed.

Lemma step_inv s live s' live' tab lf lh la F : inv s tab lf lh la live F -> step (s, live) (s', live') ->
  exists tab' lf' lh' la' F', inv s' tab' lf' lh' la' live' F' /\
    forall q, live !! q <> None -> live' !! q <> None -> F' q = F q.
Proof.
  intros Hi Hs. inversion Hs as [? ? n prot ? r Hn Hcan Hrun|? ? p fl n ? r Hp Hrun]; subst.
  - pose proof (unready_mmap _ _ _ _ _ (in_table _ _ _ _ _ _ _ Hi) Hrun) as Hr.
    destruct (mmap_inv s tab lf lh la live F n prot Hi Hr Hn Hcan) as (r' & s1 & tab' & lf' & lh' & la' & F' & Hrun' & Hi' & HF).
    rewrite Hrun in Hrun'. injection Hrun' as <- <-. exists tab', lf', lh', la', F'. split; [done|]. intros q Hq _. by apply HF.
  - destruct (ho_region _ _ _ _ _ (in_held _ _ _ _ _ _ _ Hi) p fl n Hp) as (Hro & Hpl & Hph & _).
    pose proof (ro_pages _ _ _ Hro) as Hn.
    assert (ready s) as Hr.
    { eapply unready_munmap; [apply Hi| |apply Hro|exact Hrun]. unfold PAGE_SIZE_LARGE in *. lia. }
    destruct (munmap_inv s tab lf lh la live F p fl n Hi Hr Hp) as (s1 & tab' & lf' & lh' & Hrun' & Hi').
    rewrite Hrun in Hrun'. injection Hrun' as -> <-. by exists tab', lf', lh', la, F.
Qed.

Lemma run_inv c c' : run c c' -> forall tab lf lh la F, inv c.1 tab lf lh la c.2 F ->
  exists tab' lf' lh' la' F', inv c'.1 tab' lf' lh' la' c'.2 F'.
Proof.
  induction 1 as [|c [s1 l1] [s2 l2] Hr IH Hs]; intros tab lf lh la F Hi; [by exists tab, lf, lh, la, F|].
  destruct (IH _ _ _ _ _ Hi) as (tab1 & lf1 & lh1 & la1 & F1 & Hi1).
  destruct (step_inv _ _ _ _ _ _ _ _ _ Hi1 Hs) as (tab2 & lf2 & lh2 & la2 & F2 & Hi2 & _).
  by exists tab2, lf2, lh2, la2, F2.
Qed.
End calls.

(** ** Property *)


(** ** A run from start-up *)
Definition low_boot : linear_zone :=
  match init_vm_zone LOW_MMAP_START LOW_MMAP_SIZE blank_zone with Done (_, z) => z | _ => blank_zone end.
Lemma low_boot_ok : p_lock (z_pool low_boot) = false /\
  exists lf lh, zone_ok LO HI low_boot lf lh [].
Proof.
  pose proof (init_vm_zone_ok LO HI blank_zone ltac:(split; reflexivity) ltac:(reflexivity) ltac:(reflexivity) ltac:(reflexivity)) as Hwp.
  apply wp_run in Hwp as ([] & z' & Hrun & Hlk & lf & lh & Hok & _).
  assert (low_boot = z') as -> by (unfold low_boot; replace LOW_MMAP_SIZE with (HI - LO) by done; by rewrite Hrun).
  split; [done|]. by exists lf, lh.
Qed.

Definition after {St A} (m : M St A) (s : St) : St := match m s with Done (_, s') => s' | _ => s end.
Definition answer {St A} (m : M St A) (s : St) (d : A) : A := match m s with Done (a, _) => a | _ => d end.
Lemma run_after {St A} (m : M St A) s d : (exists a s', m s = Done (a, s')) -> m s = Done (answer m s d, after m s).
Proof. intros (a & s' & H). unfold answer, after. by rewrite H. Qed.

Definition no_ext (n : nat) (a1 a2 a3 a4 : Z) : M sys ret_t := ret (RetT 0 0).
Definition blank_sys : sys := Sys (repeat dummy 512) (VMem (fun _ => low_boot) boot_mm).
Definition boot_section : list declaration := yaos_page_declarations ++ yaoscall_declarations.
Definition boot_sys : sys := after (init_yaoscall true boot_section) blank_sys.
Lemma after_Done {St A} (m : M St A) s a s' : m s = Done (a, s') -> after m s = s'.
Proof. unfold after. by intros ->. Qed.
Lemma boot_sys_ok : table_ok (pyaoscall_table boot_sys) /\ vmem boot_sys = VMem (fun _ => low_boot) boot_mm /\
  exists lf lh, low_ok (vmem boot_sys) root_only lf lh [].
Proof.
  assert (Forall (fun d : declaration => (d.1 < MAX_YAOSCALL)%nat) boot_section) as Hsec.
  { repeat (constructor; [apply Nat.ltb_lt; reflexivity|]). constructor. }
  assert (length (pyaoscall_table blank_sys) = 512%nat) as Hlen by (vm_compute; reflexivity).
  pose proof (init_yaoscall_ok blank_sys boot_section Hlen Hsec) as Hwp.
  destruct (proj1 (wp_run _ _ _) Hwp) as (r & s1 & Hrun & _ & Hv & _ & Hlook).
  apply after_Done in Hrun. fold boot_sys in Hrun. rewrite Hrun.
  clear Hrun Hsec. split; [|split; [exact Hv|]].
  - assert (Forall (fun d : declaration => pyaoscall_table s1 !! d.1 = Some d.2) yaos_page_declarations) as Hall.
    { clear Hv. unfold yaos_page_declarations.
      repeat (constructor; [cbn [fst snd]; rewrite Hlook by (apply Nat.ltb_lt; reflexivity); reflexivity|]). constructor. }
    intros id f Hf. by apply (proj1 (list.Forall_forall _ _) Hall (id, f)).
  - rewrite Hv. destruct low_boot_ok as (_ & lf & lh & Hz). exists lf, lh.
    split; [exact Hz|exact boot_mm_ok|exact two_pages_closed|].
    intros x _. split; [apply boot_mm_vacant|]. intros va _. apply boot_mm_vacant.
Qed.

Lemma boot_mmap : exists s1, mmap no_ext 0 (size_of 1) PROT_WRITE boot_sys = Done (LOW_MMAP_START, s1).
Proof.
  assert (answer (mmap no_ext 0 (size_of 1) PROT_WRITE) boot_sys 0 = LOW_MMAP_START) as Ha by (vm_compute; reflexivity).
  unfold answer in Ha. destruct (mmap no_ext 0 (size_of 1) PROT_WRITE boot_sys) as [[r s1]| | | |]; [|done..].
  exists s1. by rewrite Ha.
Qed.


(** Four 2M pages, and what some calls answer. *)
Definition four_pages : phy_page phymem :=
  init_phy_page (after (free_phy_pages (PAGE_SIZE_LARGE * 3) (PAGE_SIZE_LARGE * 4))
    (init_phy_mem (128 * PAGE_SIZE_LARGE) (128 * PAGE_SIZE_LARGE) 0)).
Definition roomy_sys : sys :=
  set_vmem (VMem (fun _ => low_boot) (MM (fun _ => 0) 4096 four_pages [])) boot_sys.
Local Abbreviation map_one := (mmap no_ext 0 (size_of 1) PROT_WRITE).
Local Abbreviation unmap_one p := (munmap no_ext p (size_of 1)).

(** Two regions returned in their order merge, which keeps the lock: the next
    call never returns. *)
Example mmap_after_merge_deadlocks :
  answer (a <- map_one ;; b <- map_one ;; unmap_one a ;;; unmap_one b) roomy_sys (-5) = 0 /\
  (a <- map_one ;; b <- map_one ;; unmap_one a ;;; unmap_one b ;;; map_one) roomy_sys = Deadlock.
Proof. split; vm_compute; reflexivity. Qed.

(** An [mmap] that finds no memory keeps the addresses it took. *)
Example mmap_failure_keeps_addresses :
  let s1 := after map_one boot_sys in let s2 := after map_one s1 in
  let first s := n <- deref (p_head (z_pool (v_zones (vmem s) low_mmap_zone))) ;; ret (n_addr n) in
  answer map_one s1 0 = MAP_FAILED /\
  answer (first s1) (z_pool (v_zones (vmem s1) low_mmap_zone)) 0 = LOW_MMAP_START + PAGE_SIZE_LARGE /\
  answer (first s2) (z_pool (v_zones (vmem s2) low_mmap_zone)) 0 = LOW_MMAP_START + 2 * PAGE_SIZE_LARGE.
Proof. vm_compute. done. Qed.

(** [yaos_page_free] passes the address as a size to the allocation: it panics,
    or takes another page. *)
Example page_free_panics : yaos_page_free no_ext (6 * PAGE_SIZE_LARGE) PAGE_SIZE_LARGE boot_sys = Panic.
Proof. vm_compute. reflexivity. Qed.

(** With no memory left the heap call answers the address of frame 0. *)
Example heap_alloc_out_of_memory :
  answer (yaos_heap_alloc_4k no_ext 4096) (set_vmem (VMem (fun _ => low_boot) exhausted_mm) boot_sys) 0 = PHYS_VIRT_START.
Proof. vm_compute. reflexivity. Qed.

(** A physical address above 4G loses its upper half on the way through
    [s_v2p]. *)
Example v2p_truncates :
  let m := MM (upd 0x3008 0x200000083 (ram chain_mm)) (pml4 chain_mm) two_pages [] in
  let s := set_vmem (VMem (fun _ => low_boot) m) boot_sys in
  mmu (ram m) (pml4 m) 0x200123 = Some (0x200000123, 0x083) /\
  answer (yaos_v2p no_ext 0x200123) s 0 = 0x123.
Proof. vm_compute. done. Qed.

(** Shrinking a region by 2M unmaps pages of the new place, where nothing is
    mapped yet. *)
Example mremap_shrink_panics :
  (a <- mmap no_ext 0 (2 * PAGE_SIZE_LARGE) PROT_WRITE ;; __mremap no_ext a (2 * PAGE_SIZE_LARGE) PAGE_SIZE_LARGE 1 0) roomy_sys = Panic.
Proof. vm_compute. reflexivity. Qed.
