(* ===== verification/KThread.v ===== *)
(** * KThread: switching between kernel threads (kernel/kthread.c)

    Kernel threads are coroutines of one processor: [resume_thread] and
    [wake_up_thread] make the running thread the parent of the one they enter,
    [yield_thread], [suspend_thread] and [exit_thread] go back to the parent.
    A switch saves the stack pointer of the thread that leaves and continues
    the other one where it stopped; the assembly of arch/x86_64/entry64.S
    ([switch_first], [switch_to]) is followed by what the code it returns to
    does next.  The polls of a thread are in Timer.v. *)
From Stdlib Require Import ZArith Lia.
From stdpp Require Import base tactics gmap list option relations.
From S2P Require Import Prelude Layout.
#[export] Set Warnings "-clear-no-such-hyp".

Definition THREAD_SUSPEND : Z := 8.
Inductive thread_state := THREAD_INIT | THREAD_READY | THREAD_RUN | THREAD_DONE.
#[global] Instance thread_state_eq_dec : EqDecision thread_state.
Proof. solve_decision. Defined.

(** Where the code of a thread stands when it is not running: after the switch
    of one of these functions, or of the [yield_thread(arg)] in the loop of
    [thread_main].  It is the return address [switch_to] leaves on the stack
    below [rsp]. *)
Inductive point := in_resume | in_yield | in_suspend | in_wake | in_exit | in_main (arg : Z).

(** [struct thread_struct]: the fields switching works with. *)
Record thread := Thread {
  stack_addr : Z; stack_size : Z;
  rsp : Z; at_point : point;
  flag : Z; state : thread_state;
  parent : option nat
}.
Definition set_ctx (r : Z) (pt : point) (t : thread) : thread :=
  Thread (stack_addr t) (stack_size t) r pt (flag t) (state t) (parent t).
Definition set_flag (f : Z) (t : thread) : thread :=
  Thread (stack_addr t) (stack_size t) (rsp t) (at_point t) f (state t) (parent t).
Definition set_state (st : thread_state) (t : thread) : thread :=
  Thread (stack_addr t) (stack_size t) (rsp t) (at_point t) (flag t) st (parent t).
Definition set_parent (p : option nat) (t : thread) : thread :=
  Thread (stack_addr t) (stack_size t) (rsp t) (at_point t) (flag t) (state t) p.
Definition suspended (t : thread) : bool := negb (Z.land (flag t) THREAD_SUSPEND =? 0).

(** The processor: [current] is the per-CPU variable, [sp] the stack pointer,
    [irq] whether interrupts are enabled, [given] the value the last switch
    handed over.  [running] is the thread whose code the processor executes; no
    code reads it. *)
Record cpu := Cpu {
  threads : gmap nat thread;
  current : nat;
  running : nat;
  sp : Z;
  irq : bool;
  given : Z
}.
Definition set_threads ts (s : cpu) : cpu :=
  Cpu ts (current s) (running s) (sp s) (irq s) (given s).
Definition set_cur p (s : cpu) : cpu :=
  Cpu (threads s) p (running s) (sp s) (irq s) (given s).
Definition set_irq b (s : cpu) : cpu :=
  Cpu (threads s) (current s) (running s) (sp s) b (given s).
Definition set_sp r (s : cpu) : cpu :=
  Cpu (threads s) (current s) (running s) r (irq s) (given s).
Definition goto (p : nat) (r a : Z) (s : cpu) : cpu :=
  Cpu (threads s) (current s) p r (irq s) a.

Section operations.
(** The two conditions of the assertion in [thread_switch_first] on the first
    stack address: below [__max_phy_mem_addr] or mapped (PgTable.v). *)
Context (stack_mapped : Z -> bool).

Definition get (p : nat) : M cpu thread :=
  fun s => match threads s !! p with Some t => Done (t, s) | None => Fault end.
Definition upd (p : nat) (f : thread -> thread) : M cpu unit :=
  t <- get p ;; modify (fun s => set_threads (<[p := f t]> (threads s)) s).
Definition set_current (p : nat) : M cpu unit := modify (set_cur p).
Definition local_irq_disable : M cpu unit := modify (set_irq false).
Definition local_irq_enable : M cpu unit := modify (set_irq true).

(** [mov %rsp,(&old->rsp)] after the call pushed the return address and the
    code six registers. *)
Definition save_context (pold : nat) (pt : point) : M cpu unit :=
  r <- gets sp ;; upd pold (set_ctx (wrap64 (r - 56)) pt).

(** [yield_thread], over the switch it ends with. *)
Definition yield_with (switch : nat -> nat -> bool -> Z -> point -> M cpu unit)
    (arg : Z) (pt : point) : M cpu unit :=
  local_irq_disable ;;;
  pold <- gets current ;;
  told <- get pold ;;
  kassert (bool_decide (parent told <> Some pold)) ;;;
  match parent told with
  | None => panic
  | Some p =>
      set_current p ;;;
      t <- get p ;;
      upd p (set_state THREAD_RUN) ;;;
      switch p pold (bool_decide (state t = THREAD_READY)) arg pt
  end.

(** The loop of [thread_main]; [main] itself is the code the thread runs. *)
Definition main_with (switch : nat -> nat -> bool -> Z -> point -> M cpu unit)
    (p : nat) (arg : Z) : M cpu unit :=
  t <- get p ;;
  if suspended t then yield_with switch arg (in_main arg) else ret tt.

(** [thread_switch_first] ([first]) and [thread_switch_to], up to the point
    where the thread entered runs its own code. *)
Fixpoint switch (fuel : nat) (p pold : nat) (first : bool) (arg : Z) (pt : point) : M cpu unit :=
  match fuel with
  | O => out_of_fuel
  | S fuel' =>
      t <- get p ;;
      if first then
        let stack_point := wrap64 (stack_addr t + stack_size t - 16) in
        kassert (negb (stack_point =? 0)) ;;;
        kassert (stack_mapped stack_point) ;;;
        save_context pold pt ;;;
        modify (goto p (wrap64 (stack_point - 8)) arg) ;;;
        upd p (set_state THREAD_RUN) ;;;
        main_with (switch fuel') p arg
      else
        kassert (negb (rsp t =? 0)) ;;;
        kassert (KERNEL_STACK_ZONE_START <? rsp t) ;;;
        save_context pold pt ;;;
        t' <- get p ;;
        modify (goto p (wrap64 (rsp t + 56)) arg) ;;;
        match at_point t' with
        | in_resume => ret tt
        | in_yield | in_suspend | in_wake => local_irq_enable
        | in_main arg0 => local_irq_enable ;;; main_with (switch fuel') p arg0
        | in_exit => fault
        end
  end.
(** A thread that is entered only to yield leads to one more switch. *)
Definition SWITCHES : nat := 4.
Definition thread_switch (p pold : nat) (first : bool) (arg : Z) (pt : point) : M cpu unit :=
  switch SWITCHES p pold first arg pt.

Definition yield_thread (arg : Z) : M cpu unit := yield_with thread_switch arg in_yield.

(** [Some r] is a return without a switch. *)
Definition resume_thread (p : nat) (arg : Z) : M cpu (option (Z * Z)) :=
  local_irq_disable ;;;
  t <- get p ;;
  if decide (state t = THREAD_DONE) then local_irq_enable ;;; ret (Some (0, wrap64 (-1)))
  else
    pold <- gets current ;;
    upd p (set_parent (Some pold)) ;;;
    kassert (negb (Nat.eqb pold p)) ;;;
    set_current p ;;;
    (if decide (state t = THREAD_READY) then
       upd p (set_state THREAD_RUN) ;;;
       local_irq_enable ;;;
       thread_switch p pold true arg in_resume
     else
       local_irq_enable ;;;
       thread_switch p pold false arg in_resume) ;;;
    ret None.

(** [while(p && (p->flag & THREAD_SUSPEND)) p=p->parent;] *)
Fixpoint skip_suspended (fuel : nat) (p : option nat) : M cpu (option nat) :=
  match fuel with
  | O => out_of_fuel
  | S fuel' =>
      match p with
      | None => ret None
      | Some i => t <- get i ;; if suspended t then skip_suspended fuel' (parent t) else ret p
      end
  end.
Definition chain_fuel (s : cpu) : nat := S (S (size (threads s))).

Definition suspend_thread : M cpu unit :=
  local_irq_disable ;;;
  pold <- gets current ;;
  told <- get pold ;;
  kassert (bool_decide (parent told <> Some pold)) ;;;
  fuel <- gets chain_fuel ;;
  p <- skip_suspended fuel (parent told) ;;
  match p with
  | None => panic
  | Some p =>
      told' <- get pold ;;
      kassert (negb (suspended told')) ;;;
      upd pold (set_flag (Z.lor (flag told') THREAD_SUSPEND)) ;;;
      set_current p ;;;
      t <- get p ;;
      upd p (set_state THREAD_RUN) ;;;
      thread_switch p pold (bool_decide (state t = THREAD_READY)) 0 in_suspend
  end.

(** The walk of the debug check: is [p] above [pold]? *)
Fixpoint is_above (fuel : nat) (p : nat) (pold : option nat) (found : bool) : M cpu bool :=
  match fuel with
  | O => out_of_fuel
  | S fuel' =>
      match pold with
      | None => ret found
      | Some i =>
          t <- get i ;;
          is_above fuel' p (parent t) (found || bool_decide (parent t = Some p))
      end
  end.

Definition wake_up_thread (p : nat) : M cpu unit :=
  pold <- gets current ;;
  if Nat.eqb p pold then ret tt
  else
    t <- get p ;;
    if decide (state t = THREAD_INIT) then ret tt
    else if negb (suspended t) then
      fuel <- gets chain_fuel ;;
      found <- is_above fuel p (Some pold) false ;;
      kassert (negb found)
    else
      local_irq_disable ;;;
      upd p (set_flag (Z.land (flag t) (Z.lxor THREAD_SUSPEND (2 ^ 32 - 1)))) ;;;
      set_current p ;;;
      upd p (set_parent (Some pold)) ;;;
      if decide (state t = THREAD_READY) then
        upd p (set_state THREAD_RUN) ;;;
        thread_switch p pold true 0 in_wake
      else thread_switch p pold false 0 in_wake.

(** No [set_current]: the thread entered runs with [current] still the one
    that is done. *)
Definition exit_thread (arg : Z) : M cpu unit :=
  local_irq_disable ;;;
  pold <- gets current ;;
  told <- get pold ;;
  upd pold (set_state THREAD_DONE) ;;;
  match parent told with
  | None => panic
  | Some p =>
      t <- get p ;;
      upd p (set_state THREAD_RUN) ;;;
      local_irq_enable ;;;
      thread_switch p pold (bool_decide (state t = THREAD_READY)) arg in_exit
  end.
End operations.
#[global] Arguments thread_switch : simpl never.

(** ** Lemmas: one switch *)
Section lemmas.
(** [home i] bounds the memory thread [i] runs on: its stack, but for the
    thread that runs on the boot stack; [root] is the thread whose parent is
    never entered by the operations below. *)
Context (stack_mapped : Z -> bool) (home : nat -> Z * Z) (root : nat).
Implicit Types (s : cpu) (t : thread) (ts : gmap nat thread).

Lemma wp_thread p t s Q : threads s !! p = Some t -> Q t s -> wp (get p) s Q.
Proof. intros Hp HQ. unfold wp, get. by rewrite Hp. Qed.

Lemma wp_upd p f t s (Q : unit -> cpu -> Prop) :
  threads s !! p = Some t -> Q tt (set_threads (<[p := f t]> (threads s)) s) -> wp (upd p f) s Q.
Proof. intros Hp HQ. unfold upd. wp_steps. eapply wp_thread; [exact Hp|]. wp_steps. exact HQ. Qed.

(** A stack that can be entered: mapped, in the zone of the stacks. *)
Definition fresh_stack t : Prop :=
  KERNEL_STACK_ZONE_START < stack_addr t /\ 128 <= stack_size t /\
  stack_addr t + stack_size t < 2 ^ 64 /\
  stack_mapped (stack_addr t + stack_size t - 16) = true.
Definition stack_ok (i : nat) t : Prop :=
  KERNEL_STACK_ZONE_START < fst (home i) /\ snd (home i) < 2 ^ 64 /\
  (state t = THREAD_READY ->
     fresh_stack t /\ home i = (stack_addr t, stack_addr t + stack_size t)).
(** A stack pointer with room for a saved context. *)
Definition on_stack (i : nat) (r : Z) : Prop := fst (home i) + 56 <= r <= snd (home i).
(** The thread stopped in a switch it can come back from. *)
Definition returns (pt : point) : bool :=
  match pt with in_resume | in_yield | in_suspend | in_wake => true | _ => false end.
Definition context_ok (i : nat) t : Prop := on_stack i (rsp t + 56) /\ returns (at_point t) = true.
(** Whether interrupts are enabled after coming back to [pt] with [b]. *)
Definition irq_after (pt : point) (b : bool) : bool :=
  match pt with in_resume => b | _ => true end.

Lemma zone_start_pos : 0 < KERNEL_STACK_ZONE_START.
Proof. reflexivity. Qed.

Lemma switch_ok s p pold t told first arg pt Q :
  p <> pold -> threads s !! p = Some t -> threads s !! pold = Some told ->
  KERNEL_STACK_ZONE_START < fst (home p) /\ snd (home p) < 2 ^ 64 -> suspended t = false ->
  (if (first : bool) then fresh_stack t else context_ok p t) ->
  Q tt (Cpu (<[p := if first then set_state THREAD_RUN t else t]>
               (<[pold := set_ctx (wrap64 (sp s - 56)) pt told]> (threads s)))
          (current s) p
          (if first then stack_addr t + stack_size t - 24 else rsp t + 56)
          (if first then irq s else irq_after (at_point t) (irq s)) arg) ->
  wp (thread_switch stack_mapped p pold first arg pt) s Q.
Proof.
  intros Hne Hp Hold Hhome Hsus Hctx HQ. pose proof zone_start_pos.
  unfold thread_switch, SWITCHES. cbn [switch]. wp_steps. eapply wp_thread; [exact Hp|].
  destruct first.
  - destruct Hctx as (Hst1 & Hst2 & Hst3 & Hmap).
    rewrite (wrap64_small (stack_addr t + stack_size t - 16)) by lia. rewrite Hmap.
    wp_steps. apply wp_kassert; [apply negb_true_iff, Z.eqb_neq; lia|]. wp_steps.
    unfold save_context. wp_steps. eapply wp_upd; [exact Hold|]. wp_steps.
    rewrite wrap64_small by lia.
    eapply wp_upd; [cbn; rewrite lookup_insert_ne by done; exact Hp|].
    unfold main_with. wp_steps. eapply wp_thread; [cbn; apply lookup_insert_eq|]. cbn.
    change (suspended (set_state THREAD_RUN t)) with (suspended t). rewrite Hsus. wp_steps.
    replace (stack_addr t + stack_size t - 16 - 8) with (stack_addr t + stack_size t - 24) by lia.
    exact HQ.
  - destruct Hctx as [Hon Hret]. unfold on_stack in Hon.
    wp_steps. apply wp_kassert; [apply negb_true_iff, Z.eqb_neq; lia|]. wp_steps.
    apply wp_kassert; [apply Z.ltb_lt; lia|]. wp_steps. unfold save_context. wp_steps.
    eapply wp_upd; [exact Hold|]. wp_steps.
    eapply wp_thread; [cbn; rewrite lookup_insert_ne by done; exact Hp|]. wp_steps.
    rewrite wrap64_small by lia.
    rewrite insert_id in HQ by (by rewrite lookup_insert_ne).
    destruct (at_point t); try done; unfold local_irq_enable; wp_steps; exact HQ.
Qed.

(** ** The invariant *)

(** The running thread, the one that waits for it, and so on to [root]; all of
    them are in state RUN and not suspended. *)
Fixpoint chain ts (p : option nat) (l : list nat) : Prop :=
  match l with
  | [] => False
  | i :: l' => p = Some i /\ exists t, ts !! i = Some t /\ state t = THREAD_RUN /\
      suspended t = false /\ (if decide (l' = []) then i = root else chain ts (parent t) l')
  end.

Record sched_ok s (l : list nat) : Prop := {
  so_current : running s = current s;
  so_chain : chain (threads s) (Some (current s)) l;
  so_nodup : NoDup l;
  so_stacks i t : threads s !! i = Some t -> stack_ok i t;
  so_sp : on_stack (current s) (sp s);
  so_saved i t : threads s !! i = Some t -> i <> current s -> state t = THREAD_RUN -> context_ok i t
}.

Definition link_of t := (state t, flag t, parent t).
Lemma path_frame ts ts' p l :
  (forall i, i ∈ l -> link_of <$> ts' !! i = link_of <$> ts !! i) ->
  chain ts p l -> chain ts' p l.
Proof.
  revert p. induction l as [|i l IH]; intros p Hfr; cbn; [done|].
  intros (-> & t & Ht & Hst & Hsu & Hl). split; [done|].
  specialize (Hfr i) as Hi. rewrite Ht in Hi. cbn in Hi.
  destruct (ts' !! i) as [t'|]; [|by specialize (Hi ltac:(left))].
  specialize (Hi ltac:(left)). injection Hi as Hs Hf Hp. exists t'.
  unfold suspended in *. rewrite Hs, Hf, Hp. split_and!; try done.
  destruct (decide (l = [])); [done|]. apply IH; [|done]. intros j Hj. apply Hfr. by right.
Qed.

Lemma path_elem ts p l i :
  chain ts p l -> i ∈ l -> exists t, ts !! i = Some t /\ state t = THREAD_RUN /\ suspended t = false.
Proof.
  revert p. induction l as [|j l IH]; intros p; cbn; [done|].
  intros (_ & t & Ht & Hst & Hsu & Hl) [->|Hi]%elem_of_cons; [by exists t|].
  destruct (decide (l = [])) as [->|]; [by apply elem_of_nil in Hi|by eapply IH].
Qed.

(** Entering [p]: the thread left behind saves its context on its stack. *)
Lemma sched_enter s l p l' t told tp tc pt r b g :
  sched_ok s l -> p <> current s ->
  threads s !! p = Some t -> threads s !! current s = Some told ->
  state tp = THREAD_RUN -> state tc = THREAD_RUN -> on_stack p r ->
  rsp tc = wrap64 (sp s - 56) -> at_point tc = pt -> returns pt = true ->
  chain (<[p := tp]> (<[current s := tc]> (threads s))) (Some p) l' -> NoDup l' ->
  sched_ok (Cpu (<[p := tp]> (<[current s := tc]> (threads s))) p p r b g) l'.
Proof.
  intros Hok Hne Hp Hc Htp Htc Hr Hcr Hcp Hret Hch Hnd. pose proof zone_start_pos as Hz.
  assert (Hrun : forall i u v, state u = THREAD_RUN -> threads s !! i = Some v -> stack_ok i u).
  { intros i u v Hu Hv. destruct (so_stacks _ _ Hok _ _ Hv) as (? & ? & _).
    split_and!; try done. congruence. }
  split; cbn; try done.
  - intros i u. destruct (decide (i = p)) as [->|Hip].
    + rewrite lookup_insert_eq. intros [= <-]. by eapply Hrun.
    + rewrite lookup_insert_ne by done. destruct (decide (i = current s)) as [->|Hic].
      * rewrite lookup_insert_eq. intros [= <-]. by eapply Hrun.
      * rewrite lookup_insert_ne by done. exact (so_stacks _ _ Hok i u).
  - intros i u Hu Hip Hst. rewrite lookup_insert_ne in Hu by done.
    destruct (decide (i = current s)) as [->|Hic].
    + rewrite lookup_insert_eq in Hu. injection Hu as <-. split; [|by rewrite Hcp].
      pose proof (so_sp _ _ Hok) as Hsp. destruct (so_stacks _ _ Hok _ _ Hc) as (? & ? & _).
      unfold on_stack in *. rewrite Hcr, wrap64_small by lia. lia.
    + rewrite lookup_insert_ne in Hu by done. by eapply (so_saved _ _ Hok).
Qed.

(** ** The operations keep it *)
Lemma suspended_set f t : suspended (set_flag (Z.lor f THREAD_SUSPEND) t) = true.
Proof.
  unfold suspended, set_flag. cbn. apply negb_true_iff, Z.eqb_neq.
  rewrite Z.land_lor_distr_l. intros [_ H]%Z.lor_eq_0_iff. done.
Qed.
Lemma suspended_clear f t :
  suspended (set_flag (Z.land f (Z.lxor THREAD_SUSPEND (2 ^ 32 - 1))) t) = false.
Proof.
  unfold suspended, set_flag. cbn [flag]. apply negb_false_iff, Z.eqb_eq.
  rewrite <- Z.land_assoc. apply Z.land_0_r.
Qed.

(** The chain seen from the running thread. *)
Lemma sched_current s l :
  sched_ok s l -> exists t rest, threads s !! current s = Some t /\ l = current s :: rest /\
    state t = THREAD_RUN /\ suspended t = false /\
    (if decide (rest = []) then current s = root else chain (threads s) (parent t) rest).
Proof.
  intros Hok. pose proof (so_chain _ _ Hok) as Hch. destruct l as [|i rest]; [done|].
  destruct Hch as ([= <-] & t & Ht & ? & ? & Hch). by exists t, rest.
Qed.

(** The parent of a thread other than [root] awaits it. *)
Lemma sched_parent s c p rest told t :
  sched_ok s (c :: p :: rest) -> threads s !! c = Some told -> threads s !! p = Some t ->
  current s = c /\ p <> c /\ parent told = Some p /\
  state told = THREAD_RUN /\ suspended told = false /\ state t = THREAD_RUN /\ suspended t = false /\
  context_ok p t /\ (KERNEL_STACK_ZONE_START < fst (home p) /\ snd (home p) < 2 ^ 64) /\
  chain (threads s) (Some p) (p :: rest).
Proof.
  intros Hok Hc Hp. pose proof (so_chain _ _ Hok) as ([= Hcur] & told' & Hc' & Hst & Hsu & Hch).
  rewrite Hc in Hc'. injection Hc' as <-. rewrite decide_False in Hch by done.
  pose proof Hch as (Hpar & t' & Hp' & Hrun & Hsus & _).
  rewrite Hp in Hp'. injection Hp' as <-.
  pose proof (so_nodup _ _ Hok) as [Hni _]%list.NoDup_cons.
  assert (Hne : p <> c) by (intros ->; apply Hni; left).
  destruct (so_stacks _ _ Hok _ _ Hp) as (? & ? & _).
  split_and!; try done; [|by rewrite <- Hpar..].
  eapply (so_saved _ _ Hok); [exact Hp|congruence|done].
Qed.

(** Requests a careful caller makes: a thread that is entered exists, has been
    created, is not suspended and does not already wait for the caller. *)
Inductive op := Work (r : Z) | Resume (p : nat) (arg : Z) | Yield (arg : Z) | Suspend | WakeUp (p : nat).
Definition exec (o : op) : M cpu unit :=
  match o with
  | Work r => modify (set_sp r)
  | Resume p arg => (resume_thread stack_mapped p arg ;;; ret tt)
  | Yield arg => yield_thread stack_mapped arg
  | Suspend => suspend_thread stack_mapped
  | WakeUp p => wake_up_thread stack_mapped p
  end.
Definition waits s (p : nat) : Prop :=
  exists l, chain (threads s) (Some (current s)) l /\ p ∈ l.
Definition allowed s (o : op) : Prop :=
  match o with
  | Work r => on_stack (current s) r
  | Resume p _ => ~ waits s p /\ exists t, threads s !! p = Some t /\ suspended t = false /\
      (state t = THREAD_READY \/ state t = THREAD_RUN)
  | Yield _ | Suspend => current s <> root
  | WakeUp p => exists t, threads s !! p = Some t /\
      if suspended t then state t <> THREAD_DONE else p = current s \/ state t = THREAD_INIT
  end.

Lemma work_ok s l r :
  sched_ok s l -> on_stack (current s) r ->
  sched_ok (set_sp r s) l.
Proof. intros [] Hr. by split. Qed.

Lemma irq_ok s l b : sched_ok s l -> sched_ok (set_irq b s) l.
Proof. by intros []. Qed.

Lemma state_run_eta t : state t = THREAD_RUN -> set_state THREAD_RUN t = t.
Proof. destruct t. cbn. by intros ->. Qed.

(** Entering a thread [p] off the chain, which then waits for nobody but the
    caller: the common part of [resume_thread] and [wake_up_thread]. *)
Lemma enter_child s l p t told pt r b g fl :
  sched_ok s l -> p ∉ l -> threads s !! p = Some t -> threads s !! current s = Some told ->
  returns pt = true -> on_stack p r -> suspended (set_flag fl t) = false ->
  sched_ok (Cpu (<[p := Thread (stack_addr t) (stack_size t) (rsp t) (at_point t) fl THREAD_RUN
                          (Some (current s))]>
                   (<[current s := set_ctx (wrap64 (sp s - 56)) pt told]> (threads s)))
             p p r b g) (p :: l).
Proof.
  intros Hok Hpl Hp Hc Hret Hr Hsus.
  destruct (sched_current _ _ Hok) as (told' & rest & Hc' & Hl & Hst & _).
  rewrite Hc in Hc'. injection Hc' as <-.
  assert (Hne : p <> current s) by (intros ->; apply Hpl; rewrite Hl; left).
  eapply sched_enter; try done.
  - split; [done|]. eexists. rewrite lookup_insert_eq. split; [done|]. split; [done|].
    split; [exact Hsus|]. cbn [parent]. rewrite decide_False by (rewrite Hl; done).
    eapply path_frame; [|exact (so_chain _ _ Hok)]. intros i Hi.
    rewrite lookup_insert_ne by (intros ->; done).
    destruct (decide (i = current s)) as [->|Hic]; [by rewrite lookup_insert_eq, Hc|].
    by rewrite lookup_insert_ne.
  - apply list.NoDup_cons. split; [done|exact (so_nodup _ _ Hok)].
Qed.

(** Going back to the parent [p], the caller leaving the chain. *)
Lemma enter_parent s c p rest told t tc pt r b g :
  sched_ok s (c :: p :: rest) ->
  threads s !! c = Some told -> threads s !! p = Some t -> returns pt = true ->
  state tc = THREAD_RUN -> rsp tc = wrap64 (sp s - 56) -> at_point tc = pt -> on_stack p r ->
  sched_ok (Cpu (<[p := t]> (<[c := tc]> (threads s))) p p r b g) (p :: rest).
Proof.
  intros Hok Hc Hp Hret Hst Hrsp Hpt Hr.
  destruct (sched_parent _ _ _ _ _ _ Hok Hc Hp) as (<- & Hne & _ & _ & _ & Hrun & _ & _ & _ & Hch).
  pose proof (so_nodup _ _ Hok) as [Hni Hnd]%list.NoDup_cons.
  eapply sched_enter; try done.
  eapply path_frame; [|exact Hch]. intros i Hi.
  destruct (decide (i = p)) as [->|Hip]; [by rewrite lookup_insert_eq, Hp|].
  rewrite lookup_insert_ne by done. rewrite lookup_insert_ne; [done|]. intros <-. by apply Hni.
Qed.

Lemma insert_absorb ts p c a b x :
  p <> c -> <[p := a]> (<[c := b]> (<[p := x]> ts)) = <[p := a]> (<[c := b]> ts : gmap nat thread).
Proof. intros Hne. by rewrite (insert_insert_ne _ c p), insert_insert_eq by done. Qed.

(** The first stack pointer of a thread. *)
Definition first_sp t : Z := stack_addr t + stack_size t - 24.
Lemma first_sp_ok i t : stack_ok i t -> state t = THREAD_READY -> on_stack i (first_sp t).
Proof.
  intros (_ & _ & H) Hst. destruct (H Hst) as [(_ & ? & _) Hh].
  unfold on_stack, first_sp. rewrite Hh. cbn. lia.
Qed.

Definition entry_sp t : Z := if decide (state t = THREAD_READY) then first_sp t else rsp t + 56.
Definition entry_irq t (b : bool) : bool :=
  if decide (state t = THREAD_READY) then b else irq_after (at_point t) b.

Lemma resume_ok s l p t told arg :
  sched_ok s l -> p ∉ l -> threads s !! p = Some t -> threads s !! current s = Some told ->
  suspended t = false -> state t = THREAD_READY \/ state t = THREAD_RUN ->
  wp (resume_thread stack_mapped p arg) s (fun r s' => r = None /\
    s' = Cpu (<[p := Thread (stack_addr t) (stack_size t) (rsp t) (at_point t) (flag t) THREAD_RUN
                       (Some (current s))]>
                (<[current s := set_ctx (wrap64 (sp s - 56)) in_resume told]> (threads s)))
           p p (entry_sp t) (entry_irq t true) arg /\ sched_ok s' (p :: l)).
Proof.
  intros Hok Hpl Hp Hc Hsus Hst.
  destruct (sched_current _ _ Hok) as (told' & rest & _ & Hl & _).
  assert (Hne : p <> current s) by (intros ->; apply Hpl; rewrite Hl; left).
  pose proof (so_stacks _ _ Hok _ _ Hp) as Hstack. pose proof Hstack as (Hh1 & Hh2 & Hfresh).
  assert (Hctx : state t = THREAD_RUN -> context_ok p t).
  { intros Hrun. by eapply (so_saved _ _ Hok). }
  unfold resume_thread, local_irq_disable, local_irq_enable, set_current. wp_steps.
  eapply wp_thread; [exact Hp|]. cbn. rewrite decide_False by (destruct Hst; congruence). wp_steps.
  eapply wp_upd; [exact Hp|]. wp_steps. cbn.
  apply wp_kassert; [apply negb_true_iff, Nat.eqb_neq; cbn; congruence|]. wp_steps.
  unfold entry_sp, entry_irq. destruct (decide (state t = THREAD_READY)) as [Hrdy|Hrdy].
  - wp_steps. eapply wp_upd; [cbn; apply lookup_insert_eq|]. wp_steps. cbn.
    eapply (switch_ok _ _ _ _ told); [done|cbn; apply lookup_insert_eq|
      cbn; rewrite !lookup_insert_ne by done; exact Hc|done|exact Hsus|exact (proj1 (Hfresh Hrdy))|].
    wp_steps. split; [done|]. cbn.
    match goal with |- ?x = ?y /\ _ => assert (x = y) as -> end.
    { f_equal. rewrite insert_absorb, insert_absorb by done. done. }
    split; [done|]. apply enter_child; try done. by apply first_sp_ok.
  - assert (state t = THREAD_RUN) as Hrun by (destruct Hst; done).
    wp_steps. cbn.
    eapply (switch_ok _ _ _ _ told); [done|cbn; apply lookup_insert_eq|
      cbn; rewrite !lookup_insert_ne by done; exact Hc|done|exact Hsus|exact (Hctx Hrun)|].
    wp_steps. split; [done|]. cbn.
    match goal with |- ?x = ?y /\ _ => assert (x = y) as -> end.
    { f_equal. rewrite insert_absorb by done. unfold set_parent. by rewrite Hrun. }
    split; [done|]. apply enter_child; try done. by apply Hctx.
Qed.

Lemma yield_ok s c p rest told t arg :
  sched_ok s (c :: p :: rest) -> threads s !! c = Some told -> threads s !! p = Some t ->
  wp (yield_thread stack_mapped arg) s (fun _ s' =>
    s' = Cpu (<[p := t]> (<[c := set_ctx (wrap64 (sp s - 56)) in_yield told]> (threads s)))
           p p (rsp t + 56) (irq_after (at_point t) false) arg /\ sched_ok s' (p :: rest)).
Proof.
  intros Hok Hc Hp.
  destruct (sched_parent _ _ _ _ _ _ Hok Hc Hp)
    as (Hcur & Hne & Hpar & Hst & Hsu & Hrun & Hsus & Hctx & Hhome & Hch).
  unfold yield_thread, yield_with, local_irq_disable, set_current. wp_steps. cbn. rewrite Hcur.
  eapply wp_thread; [exact Hc|]. wp_steps. rewrite Hpar.
  apply wp_kassert; [apply bool_decide_eq_true; congruence|]. wp_steps.
  eapply wp_thread; [exact Hp|]. wp_steps. eapply wp_upd; [exact Hp|]. cbn.
  rewrite state_run_eta, insert_id by done. rewrite Hrun.
  eapply (switch_ok _ _ _ t told); [done|exact Hp|exact Hc|exact Hhome|done|done|].
  cbn. split; [done|]. eapply (enter_parent _ _ _ _ told _ _ in_yield); try done. apply Hctx.
Qed.

Lemma suspend_ok s c p rest told t :
  sched_ok s (c :: p :: rest) -> threads s !! c = Some told -> threads s !! p = Some t ->
  wp (suspend_thread stack_mapped) s (fun _ s' => sched_ok s' (p :: rest)).
Proof.
  intros Hok Hc Hp.
  destruct (sched_parent _ _ _ _ _ _ Hok Hc Hp)
    as (Hcur & Hne & Hpar & Hst & Hsu & Hrun & Hsus & Hctx & Hhome & Hch).
  unfold suspend_thread, local_irq_disable, set_current. wp_steps. cbn. rewrite Hcur.
  eapply wp_thread; [exact Hc|]. wp_steps. rewrite Hpar.
  apply wp_kassert; [apply bool_decide_eq_true; congruence|]. wp_steps.
  unfold chain_fuel. cbn [skip_suspended]. wp_steps. eapply wp_thread; [exact Hp|]. rewrite Hsus. wp_steps.
  eapply wp_thread; [exact Hc|]. rewrite Hsu. wp_steps.
  apply wp_kassert; [done|]. wp_steps. eapply wp_upd; [exact Hc|]. wp_steps. cbn.
  eapply wp_thread; [cbn; rewrite lookup_insert_ne by done; exact Hp|]. wp_steps.
  eapply wp_upd; [cbn; rewrite lookup_insert_ne by done; exact Hp|]. cbn.
  rewrite state_run_eta by done. rewrite Hrun.
  eapply (switch_ok _ _ _ t); [done|apply lookup_insert_eq| |exact Hhome|done|done|].
  { cbn. rewrite lookup_insert_ne by done. apply lookup_insert_eq. }
  cbn. rewrite (insert_insert_ne _ c p), insert_insert_eq, insert_insert_eq by done.
  eapply (enter_parent _ _ _ _ told _ _ in_suspend); try done. apply Hctx.
Qed.

Lemma wake_ok s l p :
  sched_ok s l -> allowed s (WakeUp p) ->
  wp (wake_up_thread stack_mapped p) s (fun _ s' => exists l', sched_ok s' l').
Proof.
  intros Hok (t & Hp & Hall).
  destruct (sched_current _ _ Hok) as (told & rest & Hc & Hl & Hst & Hsu & Hch).
  unfold wake_up_thread. wp_steps.
  destruct (Nat.eqb_spec p (current s)) as [->|Hne]; [wp_steps; by exists l|].
  wp_steps. eapply wp_thread; [exact Hp|].
  destruct (decide (state t = THREAD_INIT)) as [|Hni]; [wp_steps; by exists l|].
  destruct (suspended t) eqn:Hsus; cbn [negb].
  - assert (Hpl : p ∉ l).
    { intros Hi. destruct (path_elem _ _ _ p (so_chain _ _ Hok) Hi) as (t' & Ht' & _ & Hs').
      rewrite Hp in Ht'. injection Ht' as <-. congruence. }
    pose proof (so_stacks _ _ Hok _ _ Hp) as Hstack. pose proof Hstack as (Hh1 & Hh2 & Hfresh).
    assert (Hctx : state t = THREAD_RUN -> context_ok p t).
    { intros Hrun. by eapply (so_saved _ _ Hok). }
    unfold local_irq_disable, set_current. wp_steps. eapply wp_upd; [exact Hp|]. wp_steps.
    eapply wp_upd; [cbn; apply lookup_insert_eq|]. cbn. rewrite insert_insert_eq.
    destruct (decide (state t = THREAD_READY)) as [Hrdy|Hrdy].
    + wp_steps. eapply wp_upd; [cbn; apply lookup_insert_eq|]. cbn. rewrite insert_insert_eq.
      eapply (switch_ok _ _ _ _ told); [done|apply lookup_insert_eq|
        cbn; rewrite lookup_insert_ne by done; exact Hc|done|apply suspended_clear|exact (proj1 (Hfresh Hrdy))|].
      cbn. rewrite insert_absorb by done. exists (p :: l).
      apply (enter_child s l p t told in_wake); try done; [by apply first_sp_ok|apply suspended_clear].
    + assert (state t = THREAD_RUN) as Hrun by (destruct (state t); done).
      eapply (switch_ok _ _ _ _ told); [done|apply lookup_insert_eq|
        cbn; rewrite lookup_insert_ne by done; exact Hc|done|apply suspended_clear|
        exact (Hctx Hrun)|].
      cbn. rewrite insert_absorb by done. unfold set_parent, set_flag. cbn. rewrite Hrun.
      exists (p :: l).
      apply (enter_child s l p t told in_wake); try done; [by apply Hctx|apply suspended_clear].
  - by destruct Hall.
Qed.

Lemma exec_ok s l o :
  sched_ok s l -> allowed s o -> wp (exec o) s (fun _ s' => exists l', sched_ok s' l').
Proof.
  intros Hok Hall. destruct (sched_current _ _ Hok) as (told & rest & Hc & -> & Hst & Hsu & Hch).
  assert (Hpar : current s <> root -> exists p t rest', rest = p :: rest' /\ threads s !! p = Some t).
  { intros Hr. destruct (decide (rest = [])); [done|]. destruct rest as [|p rest']; [done|].
    destruct Hch as (_ & t & Ht & _). by exists p, t, rest'. }
  destruct o as [r|p arg|arg| |p]; cbn [exec].
  - wp_steps. eexists. by apply work_ok.
  - destruct Hall as (Hpl & t & Hp & Hsus & Hstate). wp_steps.
    assert (p ∉ current s :: rest) by (intros Hi; apply Hpl; eexists; split; [apply Hok|done]).
    eapply wp_mono; [by apply (resume_ok _ (current s :: rest) _ t told)|].
    intros r s' (-> & _ & Hok'). wp_steps. by eexists.
  - destruct (Hpar Hall) as (p & t & rest' & -> & Hp).
    eapply wp_mono; [by apply (yield_ok _ (current s) p rest' told t)|]. cbn. intros u s' Hs'. exists (p :: rest'). apply Hs'.
  - destruct (Hpar Hall) as (p & t & rest' & -> & Hp).
    eapply wp_mono; [by apply (suspend_ok _ (current s) p rest' told t)|]. cbn. intros u s' Hok'. by eexists.
  - by apply (wake_ok _ (current s :: rest)).
Qed.

(** Leaving a thread for good: [p] runs again, but [current] stays. *)
Lemma exit_ok s c p rest told t arg :
  sched_ok s (c :: p :: rest) -> threads s !! c = Some told -> threads s !! p = Some t ->
  wp (exit_thread stack_mapped arg) s (fun _ s' =>
    s' = Cpu (<[p := t]> (<[c := set_ctx (wrap64 (sp s - 56)) in_exit (set_state THREAD_DONE told)]>
                            (threads s)))
           c p (rsp t + 56) true arg).
Proof.
  intros Hok Hc Hp.
  destruct (sched_parent _ _ _ _ _ _ Hok Hc Hp)
    as (Hcur & Hne & Hpar & Hst & Hsu & Hrun & Hsus & Hctx & Hhome & Hch).
  unfold exit_thread, local_irq_disable, local_irq_enable. wp_steps. cbn. rewrite Hcur.
  eapply wp_thread; [exact Hc|]. wp_steps. eapply wp_upd; [exact Hc|]. rewrite Hpar. wp_steps.
  eapply wp_thread; [cbn; rewrite lookup_insert_ne by done; exact Hp|]. wp_steps.
  eapply wp_upd; [cbn; rewrite lookup_insert_ne by done; exact Hp|]. wp_steps. cbn.
  rewrite state_run_eta by done. rewrite Hrun. cbn.
  eapply (switch_ok _ _ _ t); [done|apply lookup_insert_eq| |exact Hhome|done|done|].
  { cbn. rewrite lookup_insert_ne by done. apply lookup_insert_eq. }
  cbn. rewrite (insert_insert_ne _ c p), insert_insert_eq, insert_insert_eq by done.
  rewrite Hcur. by destruct (at_point t).
Qed.

(** ** Runs *)
Inductive sched_step s s' : Prop :=
  | sched_step_intro (o : op) : allowed s o -> exec o s = Done (tt, s') -> sched_step s s'.

Lemma reach_ok s0 l0 s : sched_ok s0 l0 -> rtc sched_step s0 s -> exists l, sched_ok s l.
Proof.
  intros Hok Hsteps. revert l0 Hok. induction Hsteps as [s|s s1 s2 [o Hall Hex] _ IH];
    intros l0 Hok; [by exists l0|].
  pose proof (exec_ok _ _ _ Hok Hall) as Hwp. unfold wp in Hwp. rewrite Hex in Hwp.
  destruct Hwp as [l1 Hok1]. by eapply IH.
Qed.

(** The walk of the debug check does not end on a closed set of threads. *)
Lemma is_above_cycle s (C : list nat) :
  (forall i, i ∈ C -> exists t j, threads s !! i = Some t /\ parent t = Some j /\ j ∈ C) ->
  forall fuel p i b, i ∈ C -> is_above fuel p (Some i) b s = OutOfFuel.
Proof.
  intros HC fuel. induction fuel as [|fuel IH]; intros p i b Hi; [done|].
  destruct (HC i Hi) as (t & j & Ht & Hj & Hin). cbn. unfold bind, get. rewrite Ht, Hj.
  by apply IH.
Qed.
End lemmas.

(** ** The processor at [init_thread_call]

    Thread 0 is the idle thread, thread 1 is kmain, which runs on the boot stack
    and whose parent is the idle thread; thread 2 is a thread created later. *)
Definition any_mapped (_ : Z) : bool := true.
Definition boot_home (i : nat) : Z * Z :=
  let base := KERNEL_STACK_ZONE_START + 0x400000 * (Z.of_nat i + 1) in
  if Nat.eqb i 1 then (0xffffffff80200000, 0xffffffff80210000) else (base, base + 0x4000).
Definition new_thread (i : nat) (p : option nat) : thread :=
  Thread (fst (boot_home i)) 0x4000 (snd (boot_home i) - 8) in_resume 0 THREAD_READY p.
Definition boot_cpu : cpu :=
  Cpu (<[0%nat := new_thread 0 None]> (<[1%nat := set_state THREAD_RUN (new_thread 1 (Some 0%nat))]>
        (<[2%nat := new_thread 2 None]> ∅))) 1 1 0xffffffff80208000 true 0.

Lemma boot_threads i t : threads boot_cpu !! i = Some t ->
  (i = 0%nat /\ t = new_thread 0 None) \/
  (i = 1%nat /\ t = set_state THREAD_RUN (new_thread 1 (Some 0%nat))) \/
  (i = 2%nat /\ t = new_thread 2 None).
Proof.
  cbn [threads boot_cpu]. rewrite !lookup_insert_Some, lookup_empty.
  intros [[<- <-]|[_ [[<- <-]|[_ [[<- <-]|[_ ?]]]]]]; auto. discriminate.
Qed.

Lemma boot_ok : sched_ok any_mapped boot_home 1 boot_cpu [1%nat].
Proof.
  split.
  - reflexivity.
  - split; [reflexivity|]. eexists. split; [reflexivity|]. repeat split.
  - apply NoDup_singleton.
  - intros i t [[-> ->]|[[-> ->]|[-> ->]]]%boot_threads;
      (split; [reflexivity|]); (split; [reflexivity|]); intros Hst; try discriminate Hst;
      (split; [repeat split; vm_compute; discriminate|reflexivity]).
  - split; vm_compute; discriminate.
  - intros i t [[-> ->]|[[-> ->]|[-> ->]]]%boot_threads; done.
Qed.

Lemma boot_waits p : waits 1 boot_cpu p -> p = 1%nat.
Proof.
  intros (l & Hch & Hp). destruct l as [|i [|j l]]; [done| |].
  - destruct Hch as ([= <-] & _). by apply list_elem_of_singleton in Hp.
  - destruct Hch as ([= <-] & t & [= <-] & _ & _ & ([= <-] & t' & [= <-] & [=] & _)).
Qed.

(** After the start kmain and the idle thread are each other's parent, and
    [wake_up_thread] of a thread that is awake never returns. *)
Definition started :=
  (resume_thread any_mapped 0 0 ;;; yield_thread any_mapped 0 ;;;
   r <- resume_thread any_mapped 2 0 ;; ret tt) boot_cpu.
Lemma wake_awake_never_returns :
  match started with
  | Done (_, s) => current s = 2%nat /\ wake_up_thread any_mapped 1 s = OutOfFuel /\
      forall fuel, is_above fuel 1 (Some 2%nat) false s = OutOfFuel
  | _ => False
  end.
Proof.
  destruct started as [[[] s]| | | |] eqn:Hrun; try (vm_compute in Hrun; discriminate).
  vm_compute in Hrun. injection Hrun as <-. split; [reflexivity|]. split; [reflexivity|].
  intros fuel. apply (is_above_cycle _ [0; 1; 2]%nat).
  - intros i Hi. set_unfold in Hi. destruct Hi as [->|[->|[->|[]]]]; eexists _, _;
      (split; [reflexivity|]); (split; [reflexivity|]); set_solver.
  - set_solver.
Qed.

(** ** Properties *)

(** Entering a thread and coming back: [resume_thread] makes the thread
    current with the given argument, and when it yields, wherever on its stack,
    the resumer continues at the stack pointer it left, with the value yielded;
    the switch back leaves interrupts disabled, though [resume_thread] enabled
    them before it left. *)
Theorem resume_yield_roundtrip stack_mapped home root (s : cpu) l p t arg arg' sp'
    (Hok : sched_ok stack_mapped home root s l) (Hp : threads s !! p = Some t)
    (Hnew : (p ∉ l) /\ suspended t = false /\ (state t = THREAD_READY \/ state t = THREAD_RUN))
    (Hsp : on_stack home p sp') :
  exists s1 s2, resume_thread stack_mapped p arg s = Done (None, s1) /\
    current s1 = p /\ running s1 = p /\ given s1 = arg /\
    yield_thread stack_mapped arg' (set_sp sp' s1) = Done (tt, s2) /\
    current s2 = current s /\ running s2 = current s /\ given s2 = arg' /\ sp s2 = sp s /\
    irq s2 = false.
Proof.
  destruct Hnew as (Hpl & Hsus & Hst).
  destruct (sched_current _ _ _ _ _ Hok) as (told & rest & Hc & Hl & Hrun & Hsu & Hch).
  assert (Hne : p <> current s) by (intros ->; apply Hpl; rewrite Hl; left).
  pose proof (resume_ok _ _ _ _ _ _ _ _ arg Hok Hpl Hp Hc Hsus Hst) as Hwp.
  apply wp_run in Hwp as (r & s1 & Hrun1 & -> & Hs1 & Hok1). rewrite Hl in Hok1.
  set (t' := Thread (stack_addr t) (stack_size t) (rsp t) (at_point t) (flag t) THREAD_RUN
               (Some (current s))) in *.
  set (told' := set_ctx (wrap64 (sp s - 56)) in_resume told) in *.
  assert (Hok2 : sched_ok stack_mapped home root (set_sp sp' s1) (p :: current s :: rest)).
  { apply work_ok; [exact Hok1|]. rewrite Hs1. exact Hsp. }
  pose proof (yield_ok _ _ _ _ _ _ _ t' told' arg' Hok2) as Hy.
  rewrite Hs1 in Hy. cbn in Hy.
  specialize (Hy (lookup_insert_eq _ _ _)).
  rewrite lookup_insert_ne, lookup_insert_eq in Hy by done. specialize (Hy eq_refl).
  apply wp_run in Hy as ([] & s2 & Hrun2 & -> & _). rewrite <- Hs1 in Hrun2.
  exists s1. eexists. split; [exact Hrun1|]. rewrite Hs1. split; [done|]. split; [done|]. split; [done|].
  rewrite <- Hs1. split; [exact Hrun2|]. cbn. split_and!; try done.
  pose proof (so_sp _ _ _ _ _ Hok) as Hon. destruct (so_stacks _ _ _ _ _ Hok _ _ Hc) as (? & ? & _).
  pose proof zone_start_pos. unfold on_stack in Hon. rewrite wrap64_small by lia. lia.
Qed.

Lemma resume_yield_roundtrip_witness :
  exists s1 s2, resume_thread any_mapped 2 7 boot_cpu = Done (None, s1) /\
    yield_thread any_mapped 9 (set_sp (fst (boot_home 2) + 0x1000) s1) = Done (tt, s2) /\
    current s2 = 1%nat /\ given s2 = 9 /\ sp s2 = sp boot_cpu /\ irq s2 = false.
Proof.
  destruct (resume_yield_roundtrip any_mapped boot_home 1 boot_cpu [1%nat] 2 (new_thread 2 None)
    7 9 (fst (boot_home 2) + 0x1000)) as (s1 & s2 & H1 & _ & _ & _ & H2 & H3 & _ & H4 & H5 & H6).
  - exact boot_ok.
  - reflexivity.
  - split; [|split; [reflexivity|left; reflexivity]].
    intros Hin. apply list_elem_of_singleton in Hin. discriminate Hin.
  - split; vm_compute; discriminate.
  - exists s1, s2. repeat (split; [assumption|]). assumption.
Defined.

(** C39: in every run of allowed requests the thread whose code runs is the
    current one, every thread that was left has a context in its own memory to
    come back to, and the next allowed request returns: it asserts nothing false,
    never panics and never switches for ever.  Allowed are: work on the thread's
    own stack; [resume_thread] of a thread that is created or left, not suspended
    and not waiting for the caller; [yield_thread] and [suspend_thread] outside
    the first thread; and [wake_up_thread] of a suspended thread, of the caller
    or of one that is not set up.  Left out are [exit_thread], after which another
    thread than the current one runs ([exit_thread_stale_current]), and
    [wake_up_thread] of a thread that is awake, which may never return
    ([wake_awake_never_returns]). *)
Theorem sched_run_safe stack_mapped home root (s0 s : cpu) l0
    (Hboot : sched_ok stack_mapped home root s0 l0)
    (Hsteps : rtc (sched_step stack_mapped home root) s0 s) :
  running s = current s /\ on_stack home (current s) (sp s) /\
  (forall i t, threads s !! i = Some t -> i <> current s -> state t = THREAD_RUN ->
     on_stack home i (rsp t + 56)) /\
  forall o, allowed home root s o -> exists s', exec stack_mapped o s = Done (tt, s').
Proof.
  destruct (reach_ok _ _ _ _ _ _ Hboot Hsteps) as [l Hok]. split; [apply Hok|]. split; [apply Hok|].
  split; [intros i t Ht Hi Hrun; by eapply (so_saved _ _ _ _ _ Hok)|].
  intros o Hall. pose proof (exec_ok _ _ _ _ _ _ Hok Hall) as Hwp.
  apply wp_run in Hwp as ([] & s' & Hrun & _). by exists s'.
Qed.

Lemma sched_run_safe_witness :
  exists s, exec any_mapped (Resume 2 5) boot_cpu = Done (tt, s) /\
    running s = current s /\ exists s', exec any_mapped Suspend s = Done (tt, s').
Proof.
  destruct (exec any_mapped (Resume 2 5) boot_cpu) as [[[] s]| | | |] eqn:Hrun;
    try (vm_compute in Hrun; discriminate).
  exists s. split; [reflexivity|].
  destruct (sched_run_safe any_mapped boot_home 1 boot_cpu s [1%nat]) as (Hcur & _ & _ & Hgo).
  - exact boot_ok.
  - apply rtc_once. apply (sched_step_intro _ _ _ _ _ (Resume 2 5)); [|exact Hrun].
    split; [intros Hw; apply boot_waits in Hw; discriminate Hw|].
    exists (new_thread 2 None). split; [reflexivity|]. split; [reflexivity|]. left. reflexivity.
  - split; [exact Hcur|]. apply Hgo. vm_compute in Hrun. injection Hrun as <-. discriminate.
Defined.

(** [exit_thread] leaves [current] at the thread that is done: its parent
    runs, but is not current, and when it next yields, wherever it then is, the
    switch goes to its own old context: it comes back once more at the stack
    pointer it was entered with. *)
Theorem exit_thread_stale_current stack_mapped home root (s : cpu) c p rest told t arg arg' sp'
    (Hok : sched_ok stack_mapped home root s (c :: p :: rest))
    (Hc : threads s !! c = Some told) (Hp : threads s !! p = Some t) :
  exists s1 s2, exit_thread stack_mapped arg s = Done (tt, s1) /\
    running s1 = p /\ current s1 = c /\ state <$> threads s1 !! c = Some THREAD_DONE /\
    yield_thread stack_mapped arg' (set_sp sp' s1) = Done (tt, s2) /\
    running s2 = p /\ current s2 = p /\ sp s2 = sp s1 /\ given s2 = arg'.
Proof.
  destruct (sched_parent _ _ _ _ _ _ _ _ _ Hok Hc Hp)
    as (Hcur & Hne & Hpar & _ & _ & Hrun & Hsus & Hctx & Hhome & _).
  pose proof (exit_ok _ _ _ _ _ _ _ _ _ arg Hok Hc Hp) as Hwp.
  apply wp_run in Hwp as ([] & s1 & Hrun1 & Hs1).
  assert (Hwp : wp (yield_thread stack_mapped arg') (set_sp sp' s1) (fun _ s2 =>
    running s2 = p /\ current s2 = p /\ sp s2 = rsp t + 56 /\ given s2 = arg')).
  { unfold yield_thread, yield_with, local_irq_disable, set_current. wp_steps. rewrite Hs1. cbn.
    eapply wp_thread; [cbn; rewrite lookup_insert_ne by done; apply lookup_insert_eq|]. wp_steps. cbn.
    rewrite Hpar. apply wp_kassert; [apply bool_decide_eq_true; congruence|]. wp_steps.
    eapply wp_thread; [apply lookup_insert_eq|]. wp_steps.
    eapply wp_upd; [apply lookup_insert_eq|]. cbn. rewrite state_run_eta by done. rewrite Hrun.
    eapply (switch_ok _ home _ p c t); [done|apply lookup_insert_eq| |done|done|done|].
    { cbn. rewrite !(lookup_insert_ne _ p) by done. apply lookup_insert_eq. }
    done. }
  apply wp_run in Hwp as ([] & s2 & Hrun2 & H1 & H2 & H3 & H4).
  exists s1, s2. split; [exact Hrun1|]. subst s1. split; [done|]. split; [done|].
  split; [cbn; by rewrite lookup_insert_ne, lookup_insert_eq by done|]. split; [exact Hrun2|]. done.
Qed.

Lemma exit_thread_stale_current_witness :
  exists s s1 s2, resume_thread any_mapped 2 5 boot_cpu = Done (None, s) /\
    exit_thread any_mapped 3 s = Done (tt, s1) /\ current s1 = 2%nat /\ running s1 = 1%nat /\
    yield_thread any_mapped 4 (set_sp 0xffffffff80204000 s1) = Done (tt, s2) /\ sp s2 = sp s1.
Proof.
  pose proof (resume_ok any_mapped boot_home 1 boot_cpu [1%nat] 2 (new_thread 2 None)
    (set_state THREAD_RUN (new_thread 1 (Some 0%nat))) 5 boot_ok) as Hwp.
  apply wp_run in Hwp; try reflexivity; [|set_solver|left; reflexivity].
  destruct Hwp as (r & s & Hrun & -> & Hs & Hok).
  destruct (exit_thread_stale_current any_mapped boot_home 1 s 2 1 []
    (Thread (fst (boot_home 2)) 0x4000 (snd (boot_home 2) - 8) in_resume 0 THREAD_RUN (Some 1%nat))
    (set_ctx (wrap64 (0xffffffff80208000 - 56)) in_resume
       (set_state THREAD_RUN (new_thread 1 (Some 0%nat)))) 3 4 0xffffffff80204000)
    as (s1 & s2 & H1 & H2 & H3 & _ & H4 & _ & _ & H5 & _).
  - exact Hok.
  - rewrite Hs. reflexivity.
  - rewrite Hs. reflexivity.
  - exists s, s1, s2. repeat (split; [assumption|]). assumption.
Defined.
