(* ===== verification/Module.v ===== *)
(** * Module: loading of modules (kernel/module.c)

    The linker gathers the [DECLARE_MODULE] records between
    [_module_data_start] and [_module_data_end]; the first CPU calls the
    handler of each at load time and again in up to nine retry rounds, the
    other CPUs call the handlers of the loaded modules in the same way, and two
    later init calls run all of them once.  The event handlers are parameters:
    they work on the rest of the kernel, [W], and cannot reach the table, whose
    type is private to the file. *)
From Stdlib Require Import ZArith Lia.
From stdpp Require Import base tactics list option.
From S2P Require Import Prelude.
#[export] Set Warnings "-clear-no-such-hyp".

Definition MAX_MODULE_NR : nat := 256.
Definition MOD_ERR_OK : Z := 0.
Definition MOD_ERR_NEXTLOOP : Z := -1.
Definition MODULE_INIT : Z := 0.
Definition MODULE_LOADED : Z := 1.
(** [modeventtype_t]. *)
Definition MOD_BPLOAD : Z := 0.
Definition MOD_APLOAD : Z := 1.
Definition MOD_BPSUBSYS : Z := 2.
Definition MOD_APSUBSYS : Z := 3.
Definition MOD_BPDEVICE : Z := 4.
Definition MOD_APDEVICE : Z := 5.

(** [struct moduledata]; the name and the handler may be NULL. *)
Record moduledata := ModuleData { md_name : option Z; md_evhand : option Z; md_priv : Z }.

(** [struct module]: [id] is the index, [data] is never read. *)
Record module := Module { status : Z; name : Z; handler : Z; arg : Z }.
Definition set_status (z : Z) (m : module) : module := Module z (name m) (handler m) (arg m).

(** A handler call: the module, the event and the result. *)
Record call := Call { c_id : nat; c_event : Z; c_ret : Z }.
#[export] Instance call_eq_dec : EqDecision call.
Proof. solve_decision. Defined.

Section modules.
Context {W : Type}.
Context (run : Z -> nat -> Z -> Z -> M W Z).     (* handler, module, event, arg *)

(** [all], [total], the image of [percpu_status] that later CPUs copy, this
    CPU's copy, the rest of the kernel, and the calls made. *)
Record kmod := KMod {
  all : list module;
  total : nat;
  image : list Z;
  pstatus : list Z;
  world : W;
  calls : list call
}.
Definition set_all (l : list module) (s : kmod) : kmod :=
  KMod l (total s) (image s) (pstatus s) (world s) (calls s).
Definition set_total (n : nat) (s : kmod) : kmod :=
  KMod (all s) n (image s) (pstatus s) (world s) (calls s).
Definition set_image (l : list Z) (s : kmod) : kmod :=
  KMod (all s) (total s) l (pstatus s) (world s) (calls s).
Definition set_pstatus (l : list Z) (s : kmod) : kmod :=
  KMod (all s) (total s) (image s) l (world s) (calls s).
Definition set_world (w : W) (s : kmod) : kmod :=
  KMod (all s) (total s) (image s) (pstatus s) w (calls s).
Definition set_calls (l : list call) (s : kmod) : kmod :=
  KMod (all s) (total s) (image s) (pstatus s) (world s) l.

(** An index past an array faults. *)
Definition at_idx {A} (l : kmod -> list A) (i : nat) : M kmod A :=
  x <- gets (fun s => l s !! i) ;; deref_opt x.
Definition put_module (i : nat) (m : module) : M kmod unit :=
  _ <- at_idx all i ;; modify (fun s => set_all (<[i := m]> (all s)) s).

(** [all[i].handler(&all[i], event, all[i].arg)] *)
Definition call_handler (i : nat) (event : Z) : M kmod Z :=
  m <- at_idx all i ;;
  r <- zoom world set_world (run (handler m) i event (arg m)) ;;
  modify (fun s => set_calls (calls s ++ [Call i event r]) s) ;;;
  ret r.

Definition mark_loaded (i : nat) : M kmod unit :=
  m <- at_idx all i ;; put_module i (set_status MODULE_LOADED m).

(** The first loop of [init_module]: one named entry, and the table from entry
    [i]; [found] so far. *)
Definition load_one (i : nat) (nm h priv : Z) : M kmod Z :=
  put_module i (Module 0 nm h priv) ;;;
  _ <- at_idx image i ;;
  modify (fun s => set_image (<[i := MODULE_INIT]> (image s)) s) ;;;
  r <- call_handler i MOD_BPLOAD ;;
  (if r =? MOD_ERR_OK then mark_loaded i else ret tt) ;;;
  ret r.
Fixpoint load_all (tab : list moduledata) (i : nat) (found : bool) : M kmod (nat * bool) :=
  match tab with
  | [] => ret (i, found)
  | d :: tab' =>
      match md_name d, md_evhand d with
      | Some nm, Some h =>
          r <- load_one i nm h (md_priv d) ;;
          load_all tab' (S i) (if r =? MOD_ERR_OK then found else found || (r =? MOD_ERR_NEXTLOOP))
      | _, _ => load_all tab' i found
      end
  end.

(** [for (i = 0; i < total; i++)] of a retry round: [again i] is its test and
    [done i] what it records on success. *)
Fixpoint round (n i : nat) (event : Z) (again : nat -> M kmod bool) (done : nat -> M kmod unit)
    (found : bool) : M kmod bool :=
  match n with
  | O => ret found
  | S n' =>
      b <- again i ;;
      f <- (if (b : bool) then
              r <- call_handler i event ;;
              if r =? MOD_ERR_OK then done i ;;; ret found
              else ret (found || (r =? MOD_ERR_NEXTLOOP))
            else ret found) ;;
      round n' (S i) event again done f
  end.

(** [while (found && --times) { found = false; ... }] *)
Fixpoint retry (times : nat) (one : M kmod bool) (found : bool) : M kmod bool :=
  match times with
  | O => ret found
  | S times' => if found then f <- one ;; retry times' one f else ret false
  end.
Definition RETRIES : nat := 9.

Definition is_loaded (i : nat) : M kmod bool :=
  m <- at_idx all i ;; ret (status m =? MODULE_LOADED).
Definition ap_waiting (i : nat) : M kmod bool :=
  m <- at_idx all i ;;
  if status m =? MODULE_LOADED then p <- at_idx pstatus i ;; ret (p =? MODULE_INIT) else ret false.
Definition ap_mark (i : nat) : M kmod unit :=
  _ <- at_idx pstatus i ;; modify (fun s => set_pstatus (<[i := MODULE_LOADED]> (pstatus s)) s).

Definition init_module (tab : list moduledata) : M kmod Z :=
  x <- load_all tab 0 false ;;
  let '(i, found) := x in
  modify (set_total i) ;;;
  _ <- retry RETRIES (round i 0 MOD_BPLOAD is_loaded mark_loaded false) found ;;
  ret 0.

Definition init_module_ap : M kmod Z :=
  n <- gets total ;;
  found <- round n 0 MOD_APLOAD ap_waiting ap_mark false ;;
  _ <- retry RETRIES (round n 0 MOD_APLOAD ap_waiting ap_mark false) found ;;
  ret 0.

Definition init_module_call (tab : list moduledata) (isbp : bool) : M kmod Z :=
  (if isbp then init_module tab else init_module_ap) ;;; ret 0.

Fixpoint step_loop (n i : nat) (step : Z) : M kmod unit :=
  match n with
  | O => ret tt
  | S n' =>
      _ <- at_idx pstatus i ;;
      b <- is_loaded i ;;
      (if (b : bool) then _ <- call_handler i step ;; ret tt else ret tt) ;;;
      step_loop n' (S i) step
  end.
Definition init_module_step (step : Z) : M kmod Z :=
  n <- gets total ;; step_loop n 0 step ;;; ret 0.
Definition init_module_device (isbp : bool) : M kmod Z :=
  init_module_step (if isbp then MOD_BPDEVICE else MOD_APDEVICE).
Definition init_module_subsys (isbp : bool) : M kmod Z :=
  init_module_step (if isbp then MOD_BPSUBSYS else MOD_APSUBSYS).
End modules.
#[global] Arguments kmod W : clear implicits.

(** ** What the loops do *)

(** Handlers return; what they do to the rest of the kernel is theirs. *)
Class ModHandlers {W} (run : Z -> nat -> Z -> Z -> M W Z) : Prop := {
  run_total h i e a w : wp (run h i e a) w (fun _ _ => True)
}.

Section loops.
Context {W : Type} (run : Z -> nat -> Z -> Z -> M W Z) `{!ModHandlers run}.
Implicit Types (s : kmod W) (ext : list call).

(** The state after the calls [ext]. *)
Definition after s w ext : kmod W := set_calls (calls s ++ ext) (set_world w s).
Definition asks ext : bool := existsb (fun c => c_ret c =? MOD_ERR_NEXTLOOP) ext.
Definition loaded s (i : nat) : bool :=
  match all s !! i with Some m => status m =? MODULE_LOADED | None => false end.
Definition waiting s (i : nat) : bool :=
  loaded s i && match pstatus s !! i with Some p => p =? MODULE_INIT | None => false end.

Lemma wp_at_idx {A} (l : kmod W -> list A) i x s Q : l s !! i = Some x -> Q x s -> wp (at_idx l i) s Q.
Proof. intros Hi HQ. unfold at_idx. wp_steps. by eapply wp_deref_opt. Qed.

Lemma call_handler_ok s i e m :
  all s !! i = Some m ->
  wp (call_handler run i e) s (fun r s' => exists w, s' = after s w [Call i e r]).
Proof.
  intros Hi. unfold call_handler. wp_steps. eapply wp_at_idx; [exact Hi|]. wp_steps.
  eapply wp_mono; [apply run_total|]. intros r w _. wp_steps. by exists w.
Qed.

Lemma after_after s w1 e1 w2 e2 : after (after s w1 e1) w2 e2 = after s w2 (e1 ++ e2).
Proof. unfold after, set_calls, set_world. cbn. by rewrite (assoc_L app). Qed.

Lemma after_nil s : after s (world s) [] = s.
Proof. unfold after. rewrite app_nil_r. by destruct s. Qed.

Lemma asks_app e1 e2 : asks (e1 ++ e2) = asks e1 || asks e2.
Proof. apply existsb_app. Qed.

Lemma mark_loaded_ok s i m Q :
  all s !! i = Some m -> status m = MODULE_LOADED -> Q tt s -> wp (mark_loaded i) s Q.
Proof.
  intros Hi Hm HQ. unfold mark_loaded. wp_steps. eapply wp_at_idx; [exact Hi|]. wp_steps.
  unfold put_module. wp_steps. eapply wp_at_idx; [exact Hi|]. wp_steps.
  assert (set_status MODULE_LOADED m = m) as -> by (destruct m; cbn in *; by subst).
  rewrite list_insert_id by done. by destruct s.
Qed.

(** A retry round of the first CPU calls the loaded modules. *)
Lemma bp_round_ok n : forall i s found,
  (i + n <= length (all s))%nat ->
  wp (round run n i MOD_BPLOAD is_loaded mark_loaded found) s (fun f s' =>
    exists w ext, s' = after s w ext /\
      c_id <$> ext = filter (fun j => loaded s j = true) (seq i n) /\
      Forall (fun c => c_event c = MOD_BPLOAD) ext /\ f = found || asks ext).
Proof.
  induction n as [|n IH]; intros i s found Hlen; cbn [round seq].
  { apply wp_ret. exists (world s), []. rewrite after_nil. cbn. by rewrite orb_false_r. }
  destruct (lookup_lt_is_Some_2 (all s) i) as [m Hi]; [lia|].
  assert (loaded s i = (status m =? MODULE_LOADED)) as Hld by (unfold loaded; by rewrite Hi).
  wp_steps. unfold is_loaded at 1. wp_steps. eapply wp_at_idx; [exact Hi|]. wp_steps.
  destruct (Z.eqb_spec (status m) MODULE_LOADED) as [Hm|Hm].
  - rewrite filter_cons_True by done. wp_steps. eapply wp_mono; [by eapply call_handler_ok|].
    intros r s1 (w & ->).
    assert (forall f, wp (round run n (S i) MOD_BPLOAD is_loaded mark_loaded f) (after s w [Call i MOD_BPLOAD r])
      (fun f' s' => exists w ext, s' = after s w ext /\
        c_id <$> ext = i :: filter (fun j => loaded s j = true) (seq (S i) n) /\
        Forall (fun c => c_event c = MOD_BPLOAD) ext /\ f' = f || asks (drop 1 ext) /\
        head ext = Some (Call i MOD_BPLOAD r))) as Hrest.
    { intros f. eapply wp_mono; [apply (IH (S i)); cbn; lia|].
      intros f' s' (w' & ext & -> & Hids & Hev & ->). exists w', (Call i MOD_BPLOAD r :: ext).
      rewrite after_after. split; [done|]. split; [cbn; by f_equal|]. split; [by constructor|done]. }
    destruct (Z.eqb_spec r MOD_ERR_OK) as [->|Hr]; wp_steps.
    + eapply mark_loaded_ok; [exact Hi|done|]. wp_steps. eapply wp_mono; [apply Hrest|].
      intros f s' (w' & ext & -> & Hids & Hev & -> & Hhd). exists w', ext. split; [done|].
      split; [done|]. split; [done|]. destruct ext as [|c ext]; [done|]. by injection Hhd as ->.
    + eapply wp_mono; [apply Hrest|].
      intros f s' (w' & ext & -> & Hids & Hev & -> & Hhd). exists w', ext. split; [done|].
      split; [done|]. split; [done|]. destruct ext as [|c ext]; [done|]. injection Hhd as ->.
      cbn. by rewrite orb_assoc.
  - rewrite filter_cons_False by (by rewrite Hld). wp_steps. apply IH. lia.
Qed.

Lemma bp_retry_ok times : forall n s found,
  (n <= length (all s))%nat ->
  wp (retry times (round run n 0 MOD_BPLOAD is_loaded mark_loaded false) found) s (fun _ s' =>
    exists w ext, s' = after s w ext /\
      Forall (fun c => c_event c = MOD_BPLOAD /\ loaded s (c_id c) = true /\ (c_id c < n)%nat) ext /\
      (length ext <= times * n)%nat /\ (found = false -> ext = []) /\
      (found = true -> (0 < times)%nat ->
       filter (fun j => loaded s j = true) (seq 0 n) `prefix_of` (c_id <$> ext))).
Proof.
  induction times as [|times IH]; intros n s found Hn; cbn [retry].
  { apply wp_ret. exists (world s), []. rewrite after_nil. split_and!; try done. lia. }
  destruct found; cycle 1.
  { apply wp_ret. exists (world s), []. rewrite after_nil. split_and!; try done. cbn. lia. }
  wp_steps. eapply wp_mono; [by apply (bp_round_ok n 0)|].
  intros f s1 (w & ext & -> & Hids & Hev & _). eapply wp_mono; [by apply (IH n (after s w ext))|].
  intros _ s' (w' & ext' & -> & Hall & Hlen & _ & _). rewrite after_after.
  exists w', (ext ++ ext'). split; [done|].
  assert (Forall (fun c => loaded s (c_id c) = true /\ (c_id c < n)%nat) ext) as Hld.
  { apply list.Forall_forall. intros c Hc.
    assert (c_id c ∈ c_id <$> ext) as Hin by (apply list_elem_of_fmap; by exists c).
    rewrite Hids in Hin. apply list_elem_of_filter in Hin as [? Hin%elem_of_seq]. split; [done|lia]. }
  split; [apply Forall_app; split; [by apply list.Forall_and|exact Hall]|].
  split; [|split; [done|]].
  - rewrite length_app. assert (length ext <= n)%nat; [|lia].
    rewrite <- (length_fmap c_id), Hids. etransitivity; [apply length_filter|]. by rewrite length_seq.
  - intros _ _. rewrite fmap_app, Hids. by apply prefix_app_r.
Qed.

(** ** The first loop *)
Definition named (tab : list moduledata) : list (Z * Z * Z) :=
  omap (fun d => match md_name d, md_evhand d with Some nm, Some h => Some (nm, h, md_priv d) | _, _ => None end) tab.
Definition new_module (x : Z * Z * Z) (r : Z) : module :=
  Module (if r =? MOD_ERR_OK then MODULE_LOADED else 0) (fst (fst x)) (snd (fst x)) (snd x).

(** One entry of the table: the handler is called and the status recorded. *)
Lemma load_one_ok s i nm h a :
  (i < length (all s))%nat -> (i < length (image s))%nat ->
  wp (load_one run i nm h a) s
    (fun r s' => calls s' = calls s ++ [Call i MOD_BPLOAD r] /\ pstatus s' = pstatus s /\
      image s' = <[i := MODULE_INIT]> (image s) /\
      all s' = <[i := new_module (nm, h, a) r]> (all s)).
Proof.
  intros Hl1 Hl2. destruct (lookup_lt_is_Some_2 (all s) i Hl1) as [m Hm].
  destruct (lookup_lt_is_Some_2 (image s) i Hl2) as [z Hz].
  unfold load_one, put_module. wp_steps. eapply wp_at_idx; [exact Hm|]. wp_steps.
  eapply wp_at_idx; [exact Hz|]. wp_steps. eapply wp_mono.
  { eapply call_handler_ok. cbn. by apply list_lookup_insert_eq. }
  intros r s1 (w & ->). destruct (Z.eqb_spec r MOD_ERR_OK) as [->|Hr]; wp_steps.
  - unfold mark_loaded. wp_steps. eapply wp_at_idx; [cbn; by apply list_lookup_insert_eq|]. wp_steps. unfold put_module. wp_steps.
    eapply wp_at_idx; [cbn; by apply list_lookup_insert_eq|]. wp_steps. cbn.
    by rewrite list_insert_insert_eq.
  - cbn. split_and!; try done. unfold new_module. by rewrite (proj2 (Z.eqb_neq _ _) Hr).
Qed.

Lemma load_all_ok tab : forall i found s,
  (i + length (named tab) <= length (all s))%nat -> (i + length (named tab) <= length (image s))%nat ->
  wp (load_all run tab i found) s (fun x s' => exists rets,
    length rets = length (named tab) /\
    x = ((i + length (named tab))%nat, found || existsb (fun r => r =? MOD_ERR_NEXTLOOP) rets) /\
    calls s' = calls s ++ zip_with (fun k r => Call k MOD_BPLOAD r) (seq i (length (named tab))) rets /\
    pstatus s' = pstatus s /\ length (all s') = length (all s) /\
    (forall j, (j < i \/ i + length (named tab) <= j)%nat ->
       all s' !! j = all s !! j /\ image s' !! j = image s !! j) /\
    (forall j x r, named tab !! j = Some x -> rets !! j = Some r ->
       all s' !! (i + j)%nat = Some (new_module x r) /\ image s' !! (i + j)%nat = Some MODULE_INIT)).
Proof.
  induction tab as [|d tab IH]; intros i found s Hl1 Hl2; cbn [load_all].
  { apply wp_ret. exists []. cbn. rewrite app_nil_r, orb_false_r, Nat.add_0_r. by split_and!. }
  destruct d as [[nm|] [h|] a]; cbn [md_name md_evhand md_priv named omap list_omap] in *;
    [|by apply IH..].
  fold (named tab) in *. cbn [length] in *.
  wp_steps. eapply wp_mono; [apply load_one_ok; lia|].
  intros r s1 (Hc & Hp & Him & Hall). eapply wp_mono.
  { apply (IH (S i)); rewrite ?Hall, ?Him, length_insert; lia. }
  intros x s' (rets & Hlen & -> & Hc' & Hp' & Hla & Hout & Hin). exists (r :: rets).
  cbn [length seq zip_with existsb]. split; [lia|]. split; [|split; [|split; [|split; [|split]]]].
  - f_equal; [lia|]. destruct (Z.eqb_spec r MOD_ERR_OK) as [->|]; [done|]. by rewrite orb_assoc.
  - by rewrite Hc', Hc, <- (assoc_L app).
  - congruence.
  - by rewrite Hla, Hall, length_insert.
  - intros j Hj. destruct (Hout j) as [-> ->]; [lia|]. rewrite Hall, Him.
    rewrite !list_lookup_insert_ne by lia. done.
  - intros [|j] y r'; cbn [lookup list_lookup].
    + intros [= <-] [= <-]. rewrite Nat.add_0_r. destruct (Hout i) as [-> ->]; [lia|].
      rewrite Hall, Him. rewrite !list_lookup_insert_eq by lia. done.
    + intros Hy Hr'. destruct (Hin j y r' Hy Hr') as [<- <-]. split; f_equal; lia.
Qed.
End loops.

(** ** The other CPUs *)
Section ap.
Context {W : Type} (run : Z -> nat -> Z -> Z -> M W Z) `{!ModHandlers run}.
Implicit Types (s : kmod W) (ext : list call).

(** The results of the calls to one module, and that the calls to it stop at
    the first success. *)
Definition rets_of (j : nat) ext : list Z := c_ret <$> filter (fun c => c_id c = j) ext.
Fixpoint ok_last (l : list Z) : Prop :=
  match l with
  | [] => True
  | r :: l' => if r =? MOD_ERR_OK then l' = [] else ok_last l'
  end.

#[local] Arguments rets_of : simpl never.

Lemma rets_of_app j e1 e2 : rets_of j (e1 ++ e2) = rets_of j e1 ++ rets_of j e2.
Proof. unfold rets_of. by rewrite list.filter_app, fmap_app. Qed.

Lemma rets_of_cons j c ext :
  rets_of j (c :: ext) = if decide (c_id c = j) then c_ret c :: rets_of j ext else rets_of j ext.
Proof. unfold rets_of. rewrite list.filter_cons. by case_decide. Qed.

Lemma rets_of_nil j ext : j ∉ c_id <$> ext -> rets_of j ext = [].
Proof.
  induction ext as [|c ext IH]; [done|]. cbn. rewrite not_elem_of_cons. intros [Hc Hn].
  rewrite rets_of_cons, decide_False by naive_solver. by apply IH.
Qed.

Lemma rets_of_one j ext :
  NoDup (c_id <$> ext) -> j ∈ c_id <$> ext ->
  exists c, c ∈ ext /\ c_id c = j /\ rets_of j ext = [c_ret c].
Proof.
  induction ext as [|c ext IH]; cbn; [by intros _ ?%elem_of_nil|].
  intros [Hc Hnd]%list.NoDup_cons Hj. rewrite rets_of_cons. case_decide as Hd.
  - exists c. split; [left|]. split; [done|]. rewrite rets_of_nil; [done|]. by subst.
  - apply elem_of_cons in Hj as [->|Hj]; [done|]. destruct (IH Hnd Hj) as (c' & ? & ? & ?).
    exists c'. split; [by right|done].
Qed.

Lemma asks_elem c ext : c ∈ ext -> c_ret c = MOD_ERR_NEXTLOOP -> asks ext = true.
Proof.
  intros Hc Hr. unfold asks. apply existsb_exists. exists c. split; [by apply list_elem_of_In|].
  by rewrite Hr.
Qed.

Lemma filter_ext_in {A} (P Q : A -> Prop) `{!forall x, Decision (P x)} `{!forall x, Decision (Q x)} (l : list A) :
  (forall x, x ∈ l -> P x <-> Q x) -> filter P l = filter Q l.
Proof.
  induction l as [|x l IH]; intros Heq; [done|]. rewrite !list.filter_cons.
  rewrite IH by (intros y Hy; apply Heq; by right).
  specialize (Heq x ltac:(left)). repeat case_decide; tauto.
Qed.

(** This CPU's status of module [j] after the calls [ext]. *)
Definition ap_after s ext (ps : list Z) : Prop :=
  length ps = length (pstatus s) /\
  forall j, (j < length ps)%nat ->
    ps !! j = if decide (MOD_ERR_OK ∈ rets_of j ext) then Some MODULE_LOADED else pstatus s !! j.

Lemma after_self s : after (set_pstatus (pstatus s) s) (world s) [] = s.
Proof. unfold after. cbn. rewrite app_nil_r. by destruct s. Qed.

Lemma ap_after_nil s : ap_after s [] (pstatus s).
Proof. split; [done|]. intros j _. rewrite decide_False; [done|]. apply not_elem_of_nil. Qed.

Lemma ap_after_trans s w e1 e2 ps1 ps2 :
  ap_after s e1 ps1 -> ap_after (after (set_pstatus ps1 s) w e1) e2 ps2 -> ap_after s (e1 ++ e2) ps2.
Proof.
  intros [Hl1 H1] [Hl2 H2]. cbn [pstatus after set_calls set_world set_pstatus] in *.
  split; [congruence|]. intros j Hj. rewrite H2, rets_of_app by done. rewrite H1 by lia.
  pose proof (elem_of_app (rets_of j e1) (rets_of j e2) MOD_ERR_OK) as Hin.
  repeat case_decide; tauto.
Qed.

Lemma waiting_call s i :
  (i < length (all s))%nat -> (i < length (pstatus s))%nat ->
  exists m, all s !! i = Some m /\ wp (ap_waiting i) s (fun b s' => b = waiting s i /\ s' = s).
Proof.
  intros Hl1 Hl2. destruct (lookup_lt_is_Some_2 (all s) i Hl1) as [m Hm].
  destruct (lookup_lt_is_Some_2 (pstatus s) i Hl2) as [p Hp]. exists m. split; [done|].
  unfold ap_waiting, waiting, loaded. rewrite Hm, Hp. wp_steps. eapply wp_at_idx; [exact Hm|]. wp_steps.
  destruct (status m =? MODULE_LOADED); [|by wp_steps]. wp_steps.
  eapply wp_at_idx; [exact Hp|]. by wp_steps.
Qed.

Lemma ap_mark_ok s i Q :
  (i < length (pstatus s))%nat -> Q tt (set_pstatus (<[i := MODULE_LOADED]> (pstatus s)) s) ->
  wp (ap_mark i) s Q.
Proof.
  intros Hl HQ. destruct (lookup_lt_is_Some_2 (pstatus s) i Hl) as [p Hp]. unfold ap_mark. wp_steps.
  eapply wp_at_idx; [exact Hp|]. by wp_steps.
Qed.

(** One call to a waiting module, and its status. *)
Lemma ap_one_ok s i found :
  (i < length (all s))%nat -> (i < length (pstatus s))%nat ->
  wp (b <- ap_waiting i ;;
      if (b : bool) then
        r <- call_handler run i MOD_APLOAD ;;
        if r =? MOD_ERR_OK then ap_mark i ;;; ret found
        else ret (found || (r =? MOD_ERR_NEXTLOOP))
      else ret found) s (fun f s' => exists w ext ps, s' = after (set_pstatus ps s) w ext /\
        c_id <$> ext = (if waiting s i then [i] else []) /\
        Forall (fun c => c_event c = MOD_APLOAD) ext /\ f = found || asks ext /\ ap_after s ext ps /\
        (forall j, j <> i -> ps !! j = pstatus s !! j)).
Proof.
  intros Hl1 Hl2. destruct (waiting_call s i Hl1 Hl2) as (m & Hm & Hw). wp_steps.
  eapply wp_mono; [exact Hw|]. intros b s1 [-> ->]. destruct (waiting s i) eqn:Hwt; wp_steps.
  - eapply wp_mono; [by eapply call_handler_ok|]. intros r s1 (w & ->).
    destruct (Z.eqb_spec r MOD_ERR_OK) as [->|Hr]; wp_steps.
    + apply ap_mark_ok; [done|]. wp_steps.
      exists w, [Call i MOD_APLOAD MOD_ERR_OK], (<[i := MODULE_LOADED]> (pstatus s)).
      split; [done|]. split; [done|]. split; [by repeat constructor|]. split; [cbn; by rewrite orb_false_r|].
      split; [|intros j Hj; by apply list_lookup_insert_ne].
      split; [apply length_insert|]. intros j Hj. rewrite length_insert in Hj. rewrite rets_of_cons. cbn.
      destruct (decide (i = j)) as [->|].
      * rewrite decide_True by left. by apply list_lookup_insert_eq.
      * rewrite decide_False by apply not_elem_of_nil. by apply list_lookup_insert_ne.
    + exists w, [Call i MOD_APLOAD r], (pstatus s). split; [by destruct s|]. split; [done|].
      split; [by repeat constructor|]. split; [cbn; by rewrite orb_false_r|]. split; [|done].
      split; [done|]. intros j Hj. rewrite rets_of_cons. cbn. rewrite decide_False; [done|].
      case_decide; [|apply not_elem_of_nil]. intros Hin%list_elem_of_singleton. congruence.
  - exists (world s), [], (pstatus s). rewrite orb_false_r. split; [by rewrite after_self|].
    split; [done|]. split; [done|]. split; [done|]. split; [apply ap_after_nil|done].
Qed.

Lemma ap_round_ok n : forall i s found,
  (i + n <= length (all s))%nat -> (i + n <= length (pstatus s))%nat ->
  wp (round run n i MOD_APLOAD ap_waiting ap_mark found) s (fun f s' => exists w ext ps,
    s' = after (set_pstatus ps s) w ext /\
    c_id <$> ext = filter (fun j => waiting s j = true) (seq i n) /\
    Forall (fun c => c_event c = MOD_APLOAD) ext /\ f = found || asks ext /\ ap_after s ext ps).
Proof.
  induction n as [|n IH]; intros i s found Hl1 Hl2; cbn [round seq].
  { apply wp_ret. exists (world s), [], (pstatus s). rewrite orb_false_r. split; [by rewrite after_self|].
    split; [done|]. split; [done|]. split; [done|apply ap_after_nil]. }
  apply wp_bind_assoc. eapply wp_mono; [apply ap_one_ok; lia|].
  intros f s1 (w & ext & ps & -> & Hids & Hev & -> & Hps & Hfr).
  assert (length ps = length (pstatus s)) as Hlp by apply Hps.
  eapply wp_mono; [apply (IH (S i)); cbn; lia|].
  intros f s' (w2 & ext2 & ps2 & -> & Hids2 & Hev2 & -> & Hps2).
  exists w2, (ext ++ ext2), ps2. split; [|split; [|split; [|split]]].
  - unfold after, set_calls, set_world, set_pstatus. cbn. by rewrite (assoc_L app).
  - rewrite fmap_app, Hids, Hids2.
    assert (filter (fun j => waiting (after (set_pstatus ps s) w ext) j = true) (seq (S i) n) =
      filter (fun j => waiting s j = true) (seq (S i) n)) as ->.
    { apply filter_ext_in. intros j Hj%elem_of_seq. unfold waiting, loaded.
      cbn [all pstatus after set_calls set_world set_pstatus]. by rewrite Hfr by lia. }
    rewrite list.filter_cons. destruct (waiting s i); by case_decide.
  - by apply Forall_app.
  - by rewrite asks_app, orb_assoc.
  - by eapply ap_after_trans.
Qed.

(** ** Up to ten rounds *)
Record ap_hist s (n times : nat) (found : bool) ext ps : Prop := {
  ah_after : ap_after s ext ps;
  ah_call c : c ∈ ext -> c_event c = MOD_APLOAD /\ waiting s (c_id c) = true /\ (c_id c < n)%nat;
  ah_bound j : (length (rets_of j ext) <= times)%nat;
  ah_last j : ok_last (rets_of j ext);
  ah_more j : found = true -> waiting s j = true -> (j < n)%nat ->
    Forall (fun r => r = MOD_ERR_NEXTLOOP) (rets_of j ext) -> length (rets_of j ext) = times
}.

Lemma ap_hist_nil s n found : ap_hist s n 0 found [] (pstatus s).
Proof. split; [apply ap_after_nil|by intros c ?%elem_of_nil|intros j; change (rets_of j []) with (@nil Z); cbn; lia|done|done]. Qed.

Lemma ap_hist_quiet s n times : ap_hist s n times false [] (pstatus s).
Proof. split; [apply ap_after_nil|by intros c ?%elem_of_nil|intros j; change (rets_of j []) with (@nil Z); cbn; lia|done|done]. Qed.

Lemma ap_hist_round s n times w ext1 ps1 ext2 ps2 :
  c_id <$> ext1 = filter (fun j => waiting s j = true) (seq 0 n) ->
  Forall (fun c => c_event c = MOD_APLOAD) ext1 -> ap_after s ext1 ps1 ->
  (n <= length (pstatus s))%nat ->
  ap_hist (after (set_pstatus ps1 s) w ext1) n times (asks ext1) ext2 ps2 ->
  ap_hist s n (S times) true (ext1 ++ ext2) ps2.
Proof.
  intros Hids Hev Hps1 Hn [Haf Hcall Hb Hlast Hmore].
  assert (Hin : forall j, j ∈ c_id <$> ext1 <-> waiting s j = true /\ (j < n)%nat).
  { intros j. rewrite Hids, list_elem_of_filter, elem_of_seq. naive_solver lia. }
  assert (NoDup (c_id <$> ext1)) as Hnd by (rewrite Hids; apply list.NoDup_filter, NoDup_seq).
  assert (Hwt : forall j, (j < n)%nat -> waiting (after (set_pstatus ps1 s) w ext1) j =
    waiting s j && negb (bool_decide (MOD_ERR_OK ∈ rets_of j ext1))).
  { intros j Hj. unfold waiting, loaded. cbn [all pstatus after set_calls set_world set_pstatus].
    destruct Hps1 as [Hl Hps1]. rewrite Hps1 by lia. case_decide as Hd.
    - rewrite bool_decide_true by done. by rewrite !andb_false_r.
    - rewrite bool_decide_false by done. by rewrite andb_true_r. }
  assert (Hnone : forall j, waiting (after (set_pstatus ps1 s) w ext1) j = false \/ (n <= j)%nat ->
    rets_of j ext2 = []).
  { intros j Hj. apply rets_of_nil. intros (c & -> & Hc)%list_elem_of_fmap.
    apply Hcall in Hc as (_ & Hw' & Hlt). destruct Hj; [congruence|lia]. }
  assert (Hcase : forall j, (rets_of j ext1 = [] /\ rets_of j ext2 = [] /\ ~ (waiting s j = true /\ (j < n)%nat)) \/
    (rets_of j ext1 = [MOD_ERR_OK] /\ rets_of j ext2 = []) \/
    exists r, rets_of j ext1 = [r] /\ r <> MOD_ERR_OK /\ (j < n)%nat /\
      waiting (after (set_pstatus ps1 s) w ext1) j = true /\ (r = MOD_ERR_NEXTLOOP -> asks ext1 = true)).
  { intros j. destruct (decide (j ∈ c_id <$> ext1)) as [Hj|Hj].
    - destruct (rets_of_one j ext1 Hnd Hj) as (c & Hc & Hcj & Hr). apply Hin in Hj as [Hw Hj].
      right. destruct (decide (c_ret c = MOD_ERR_OK)) as [Hok|Hok]; [left|right].
      + rewrite Hr, Hok. split; [done|]. apply Hnone. left. rewrite Hwt, Hr, Hok by done.
        rewrite bool_decide_true by left. by rewrite andb_false_r.
      + exists (c_ret c). split; [done|]. split; [done|]. split; [done|]. split.
        * rewrite Hwt, Hr, Hw by done. rewrite bool_decide_false; [done|].
          intros Heq%list_elem_of_singleton. congruence.
        * intros Hr'. by eapply asks_elem.
    - left. pose proof (rets_of_nil j ext1 Hj) as Hr. split; [done|]. rewrite Hin in Hj. split; [|done].
      apply Hnone. destruct (decide (j < n)%nat) as [Hlt|]; [left|right; lia].
      rewrite Hwt by done. destruct (waiting s j) eqn:Hw; [tauto|done]. }
  split.
  - by eapply ap_after_trans.
  - intros c [Hc|Hc]%elem_of_app.
    + rewrite list.Forall_forall in Hev. split; [by apply Hev|]. apply Hin. apply list_elem_of_fmap. by exists c.
    + apply Hcall in Hc as (He & Hw & Hlt). split; [done|]. split; [|done].
      rewrite Hwt in Hw by done. by apply andb_prop in Hw as [? _].
  - intros j. specialize (Hb j). rewrite rets_of_app, length_app.
    destruct (Hcase j) as [(-> & -> & _)|[(-> & ->)|(r & -> & _)]]; cbn; lia.
  - intros j. rewrite rets_of_app. destruct (Hcase j) as [(-> & -> & _)|[(-> & ->)|(r & -> & Hr & _)]];
      [done..|]. cbn. rewrite (proj2 (Z.eqb_neq _ _) Hr). apply Hlast.
  - intros j _ Hw Hj. rewrite rets_of_app.
    destruct (Hcase j) as [(_ & _ & Hn')|[(-> & ->)|(r & -> & Hr & _ & Hw' & Hask)]]; [tauto|..].
    + cbn. by intros [? _]%list.Forall_cons.
    + cbn. intros [-> Hall]%list.Forall_cons. f_equal. apply Hmore; [by apply Hask|done..].
Qed.

Lemma ap_retry_ok times : forall n s found,
  (n <= length (all s))%nat -> (n <= length (pstatus s))%nat ->
  wp (retry times (round run n 0 MOD_APLOAD ap_waiting ap_mark false) found) s (fun _ s' =>
    exists w ext ps, s' = after (set_pstatus ps s) w ext /\ ap_hist s n times found ext ps).
Proof.
  induction times as [|times IH]; intros n s found Hl1 Hl2; cbn [retry].
  { apply wp_ret. exists (world s), [], (pstatus s). rewrite after_self. split; [done|]. apply ap_hist_nil. }
  destruct found; cycle 1.
  { apply wp_ret. exists (world s), [], (pstatus s). rewrite after_self. split; [done|]. apply ap_hist_quiet. }
  wp_steps. eapply wp_mono; [by apply (ap_round_ok n 0)|].
  intros f s1 (w & ext & ps & -> & Hids & Hev & -> & Hps). eapply wp_mono.
  { apply (IH n); cbn; [done|]. destruct Hps as [-> _]. done. }
  intros _ s' (w2 & ext2 & ps2 & -> & Hh). exists w2, (ext ++ ext2), ps2. split.
  - unfold after, set_calls, set_world, set_pstatus. cbn. by rewrite (assoc_L app).
  - by eapply ap_hist_round.
Qed.

Lemma init_module_ap_ok s :
  (total s <= length (all s))%nat -> (total s <= length (pstatus s))%nat ->
  wp (init_module_ap run) s (fun r s' => r = 0 /\ exists w ext ps,
    s' = after (set_pstatus ps s) w ext /\ ap_hist s (total s) 10 true ext ps).
Proof.
  intros Hl1 Hl2. unfold init_module_ap. wp_steps. eapply wp_mono; [by apply (ap_round_ok (total s) 0)|].
  intros f s1 (w & ext & ps & -> & Hids & Hev & -> & Hps). wp_steps. eapply wp_mono.
  { apply (ap_retry_ok RETRIES (total s)); cbn; [done|]. destruct Hps as [-> _]. done. }
  intros _ s' (w2 & ext2 & ps2 & -> & Hh). wp_steps. split; [done|].
  exists w2, (ext ++ ext2), ps2. split.
  - unfold after, set_calls, set_world, set_pstatus. cbn. by rewrite (assoc_L app).
  - by eapply (ap_hist_round _ _ 9).
Qed.
End ap.

(** ** The later init calls *)
Section steps.
Context {W : Type} (run : Z -> nat -> Z -> Z -> M W Z) `{!ModHandlers run}.

Lemma step_loop_ok n : forall i (s : kmod W) step,
  (i + n <= length (all s))%nat -> (i + n <= length (pstatus s))%nat ->
  wp (step_loop run n i step) s (fun _ s' => exists w ext, s' = after s w ext /\
    c_id <$> ext = filter (fun j => loaded s j = true) (seq i n) /\
    Forall (fun c => c_event c = step) ext).
Proof.
  induction n as [|n IH]; intros i s step Hl1 Hl2; cbn [step_loop seq].
  { apply wp_ret. exists (world s), []. by rewrite after_nil. }
  destruct (lookup_lt_is_Some_2 (all s) i) as [m Hm]; [lia|].
  destruct (lookup_lt_is_Some_2 (pstatus s) i) as [p Hp]; [lia|].
  assert (loaded s i = (status m =? MODULE_LOADED)) as Hld by (unfold loaded; by rewrite Hm).
  wp_steps. eapply wp_at_idx; [exact Hp|]. wp_steps. unfold is_loaded. wp_steps.
  eapply wp_at_idx; [exact Hm|]. wp_steps. destruct (status m =? MODULE_LOADED).
  - rewrite filter_cons_True by done. wp_steps. eapply wp_mono; [by eapply call_handler_ok|].
    intros r s1 (w & ->). wp_steps. eapply wp_mono; [apply (IH (S i)); cbn; lia|].
    intros _ s' (w' & ext & -> & Hids & Hev). exists w', (Call i step r :: ext). rewrite after_after.
    split; [done|]. split; [cbn; by f_equal|by constructor].
  - rewrite filter_cons_False by (by rewrite Hld). wp_steps. apply (IH (S i)); lia.
Qed.

(** [init_module_step] runs every loaded module once, in order. *)
Lemma init_module_step_ok (s : kmod W) step :
  (total s <= length (all s))%nat -> (total s <= length (pstatus s))%nat ->
  wp (init_module_step run step) s (fun r s' => r = 0 /\ exists w ext, s' = after s w ext /\
    c_id <$> ext = filter (fun j => loaded s j = true) (seq 0 (total s)) /\
    Forall (fun c => c_event c = step) ext).
Proof.
  intros Hl1 Hl2. unfold init_module_step. wp_steps.
  eapply wp_mono; [by apply step_loop_ok|]. intros [] s' Hres. by wp_steps.
Qed.
End steps.

(** ** A kernel with three modules *)

(** Handler 1 loads at once, handler 2 asks for another loop, handler 3 asks
    for another loop until it has been called four times; the world counts the
    calls. *)
Definition sample_run (h : Z) (i : nat) (e a : Z) : M Z Z :=
  n <- gets id ;;
  modify (fun n => n + 1) ;;;
  ret (if h =? 1 then MOD_ERR_OK else if (h =? 3) && (8 <=? n) then MOD_ERR_OK else MOD_ERR_NEXTLOOP).
#[export] Instance sample_handlers : ModHandlers sample_run.
Proof. split. intros h i e a w. unfold sample_run. by wp_steps. Qed.

Definition boot_kmod : kmod Z :=
  KMod (replicate MAX_MODULE_NR (Module 0 0 0 0)) 0 (replicate MAX_MODULE_NR 0)
    (replicate MAX_MODULE_NR 0) 0 [].
Definition sample_table : list moduledata :=
  [ModuleData (Some 100) (Some 1) 0; ModuleData None (Some 9) 0; ModuleData (Some 200) (Some 2) 0;
   ModuleData (Some 300) (Some 3) 0].

(** ** Properties *)

(** C38: loading the modules on the first CPU always ends and returns 0, for
    every table that fits the array and all handlers.  Entries without a name
    or handler are skipped; every other one is recorded and its handler called
    once, in order, and its status is LOADED exactly when that call succeeded.
    When some handler asks for another loop, up to nine rounds follow, in which
    only the modules already loaded are called again: a module that asked is
    never called a second time, and the first round calls all loaded ones. *)
Theorem init_module_correct {W} (run : Z -> nat -> Z -> Z -> M W Z) `{!ModHandlers run}
    (s : kmod W) (tab : list moduledata)
    (Hfit : (length (named tab) <= length (all s))%nat /\ (length (named tab) <= length (image s))%nat) :
  exists s' rets extra, init_module run tab s = Done (0, s') /\
    total s' = length (named tab) /\ length rets = length (named tab) /\
    (forall j x r, named tab !! j = Some x -> rets !! j = Some r ->
       all s' !! j = Some (new_module x r) /\ image s' !! j = Some MODULE_INIT) /\
    calls s' = calls s ++
      zip_with (fun k r => Call k MOD_BPLOAD r) (seq 0 (length (named tab))) rets ++ extra /\
    Forall (fun c => c_event c = MOD_BPLOAD /\ rets !! c_id c = Some MOD_ERR_OK) extra /\
    (length extra <= 9 * length (named tab))%nat /\
    (MOD_ERR_NEXTLOOP ∉ rets -> extra = []) /\
    (MOD_ERR_NEXTLOOP ∈ rets ->
       filter (fun j => rets !! j = Some MOD_ERR_OK) (seq 0 (length (named tab))) `prefix_of` (c_id <$> extra)).
Proof.
  destruct Hfit as [Hf1 Hf2].
  enough (wp (init_module run tab) s (fun x s' => x = 0 /\ exists rets extra,
    total s' = length (named tab) /\ length rets = length (named tab) /\
    (forall j x r, named tab !! j = Some x -> rets !! j = Some r ->
       all s' !! j = Some (new_module x r) /\ image s' !! j = Some MODULE_INIT) /\
    calls s' = calls s ++
      zip_with (fun k r => Call k MOD_BPLOAD r) (seq 0 (length (named tab))) rets ++ extra /\
    Forall (fun c => c_event c = MOD_BPLOAD /\ rets !! c_id c = Some MOD_ERR_OK) extra /\
    (length extra <= 9 * length (named tab))%nat /\
    (MOD_ERR_NEXTLOOP ∉ rets -> extra = []) /\
    (MOD_ERR_NEXTLOOP ∈ rets ->
       filter (fun j => rets !! j = Some MOD_ERR_OK) (seq 0 (length (named tab))) `prefix_of` (c_id <$> extra)))) as Hwp.
  { apply wp_run in Hwp as (x & s' & Hrun & -> & rets & extra & Hres). by exists s', rets, extra. }
  unfold init_module. wp_steps. eapply wp_mono; [by apply (load_all_ok run tab 0)|].
  intros x s1 (rets & Hlen & -> & Hc & Hp & Hla & _ & Hin). rewrite Nat.add_0_l in *. wp_steps.
  cbn [orb]. eapply wp_mono.
  { apply (bp_retry_ok run RETRIES (length (named tab))); cbn. by rewrite Hla. }
  intros _ s' (w & extra & -> & Hall & Hle & Hno & Hyes). wp_steps. split; [done|].
  exists rets, extra. cbn [total all image calls after set_calls set_world set_total] in *.
  assert (Hld : forall j, (j < length (named tab))%nat ->
    loaded (set_total (length (named tab)) s1) j = true <-> rets !! j = Some MOD_ERR_OK).
  { intros j Hj. destruct (lookup_lt_is_Some_2 (named tab) j Hj) as [x Hx].
    destruct (lookup_lt_is_Some_2 rets j) as [r Hr]; [lia|].
    destruct (Hin j x r Hx Hr) as [Ha _]. change (0 + j)%nat with j in Ha. unfold loaded. cbn [all set_total]. rewrite Ha, Hr. cbn.
    destruct (Z.eqb_spec r MOD_ERR_OK) as [->|Hne]; [done|]. split; [done|congruence]. }
  assert (Hnl : existsb (fun r => r =? MOD_ERR_NEXTLOOP) rets = true <-> MOD_ERR_NEXTLOOP ∈ rets).
  { rewrite existsb_exists. setoid_rewrite <- list_elem_of_In. split.
    - intros (r & Hr & ->%Z.eqb_eq). done.
    - intros Hr. by exists MOD_ERR_NEXTLOOP. }
  split_and!; try done.
  - by rewrite Hc, <- (assoc_L app).
  - eapply list.Forall_impl; [exact Hall|]. intros c (He & Hl & Hlt). split; [done|]. by apply Hld.
  - intros Hn. apply Hno. destruct (existsb _ rets) eqn:Hb; [|done]. tauto.
  - intros Hy. rewrite (filter_ext_in _ (fun j => loaded (set_total (length (named tab)) s1) j = true)).
    + apply Hyes; [by apply Hnl|unfold RETRIES; lia].
    + intros j Hj%elem_of_seq. symmetry. apply Hld. lia.
Qed.

Lemma init_module_correct_witness :
  exists s' (rets : list Z) (extra : list call), init_module sample_run sample_table boot_kmod = Done (0, s') /\
    length rets = 3%nat /\ (MOD_ERR_NEXTLOOP ∉ rets -> extra = []).
Proof.
  destruct (init_module_correct sample_run boot_kmod sample_table)
    as (s' & rets & extra & Hrun & _ & Hlen & _ & _ & _ & _ & Hno & _).
  - cbn [all image boot_kmod]. rewrite !length_replicate. unfold MAX_MODULE_NR. split; cbn; lia.
  - exists s', rets, extra. split; [exact Hrun|]. split; [exact Hlen|exact Hno].
Defined.

(** In that kernel modules 1 and 2 ask for another loop; the retry round calls
    the module that is loaded, and neither of them. *)
Example retries_go_to_loaded :
  match init_module sample_run sample_table boot_kmod with
  | Done (_, s') => c_id <$> calls s' = [0; 1; 2; 0]%nat
  | _ => False
  end.
Proof. vm_compute. reflexivity. Qed.

(** Loading the modules on another CPU always ends and returns 0, for
    all handlers.  Only loaded modules are called; a module is called again
    until its first success, at most ten times in all, and then never again;
    this CPU records it as loaded exactly when a call succeeded; and a module
    that asks for another loop every time is called ten times. *)
Theorem init_module_ap_correct {W} (run : Z -> nat -> Z -> Z -> M W Z) `{!ModHandlers run}
    (s : kmod W)
    (Hfit : (total s <= length (all s))%nat /\ (total s <= length (pstatus s))%nat) :
  exists s' ext, init_module_ap run s = Done (0, s') /\ calls s' = calls s ++ ext /\ all s' = all s /\
    (forall c, c ∈ ext -> c_event c = MOD_APLOAD /\ loaded s (c_id c) = true /\ (c_id c < total s)%nat) /\
    (forall j, ok_last (rets_of j ext) /\ (length (rets_of j ext) <= 10)%nat) /\
    (forall j, (j < total s)%nat ->
       pstatus s' !! j = if decide (MOD_ERR_OK ∈ rets_of j ext) then Some MODULE_LOADED else pstatus s !! j) /\
    (forall j, (j < total s)%nat -> waiting s j = true ->
       Forall (fun r => r = MOD_ERR_NEXTLOOP) (rets_of j ext) -> length (rets_of j ext) = 10%nat).
Proof.
  destruct Hfit as [Hf1 Hf2]. pose proof (init_module_ap_ok run s Hf1 Hf2) as Hwp.
  apply wp_run in Hwp as (x & s' & Hrun & -> & w & ext & ps & -> & [[Hl Hps] Hcall Hb Hlast Hmore]).
  exists (after (set_pstatus ps s) w ext), ext. split; [exact Hrun|]. split; [done|]. split; [done|].
  split_and!.
  - intros c Hc. destruct (Hcall c Hc) as (He & Hw & Hlt). split; [done|]. split; [|done].
    unfold waiting in Hw. by apply andb_prop in Hw as [? _].
  - intros j. split; [apply Hlast|apply Hb].
  - intros j Hj. apply Hps. lia.
  - intros j Hj Hw. by apply Hmore.
Qed.

Lemma init_module_ap_correct_witness :
  exists s' ext, init_module_ap sample_run (set_total 3 (set_all (replicate 3 (Module MODULE_LOADED 100 2 0)) boot_kmod))
      = Done (0, s') /\ length (rets_of 1 ext) = 10%nat.
Proof.
  destruct (init_module_ap_correct sample_run
    (set_total 3 (set_all (replicate 3 (Module MODULE_LOADED 100 2 0)) boot_kmod)))
    as (s' & ext & Hrun & Hc & _ & _ & _ & _ & Hmore).
  - split; cbn; [lia|]. unfold MAX_MODULE_NR. lia.
  - exists s', ext. split; [exact Hrun|]. apply Hmore; [cbn; lia|reflexivity|].
    assert (exists s1, init_module_ap sample_run
      (set_total 3 (set_all (replicate 3 (Module MODULE_LOADED 100 2 0)) boot_kmod)) = Done (0, s1) /\
      Forall (fun r => r = MOD_ERR_NEXTLOOP) (rets_of 1 (calls s1))) as (s1 & Hrun1 & Hall).
    { eexists. split; [vm_compute; reflexivity|]. vm_compute. repeat constructor. }
    rewrite Hrun in Hrun1. injection Hrun1 as ->. rewrite Hc in Hall. exact Hall.
Defined.
