(* ===== verification/Split.v ===== *)
(** * Split: yaos.split of the Lua modules (module/lua/yaos/split.c)

    Splits a string at every occurrence of a search string of at most eight
    bytes, comparing whole words for lengths 2, 4 and 8.  Strings are lists of
    bytes; the byte behind the last is Lua's terminator 0, and reading further
    faults.  The Lua stack is the list of strings pushed so far; an error that
    [luaL_error] raises is a value. *)
From Stdlib Require Import ZArith Lia.
From stdpp Require Import base tactics list option.
From S2P Require Import Prelude Bytes.
#[export] Set Warnings "-clear-no-such-hyp".

Abbreviation bytes := (list Z).
Abbreviation stack := (list (list Z)).
Definition PERCENT : Z := 37.
Definition LETTER_S : Z := 115.
Inductive lua_error := TooLong | BadEscape.

(** [s[i]] of a Lua string. *)
Definition byte_at (s : bytes) (i : nat) : M stack Z :=
  match s !! i with
  | Some b => ret b
  | None => if Nat.eqb i (length s) then ret 0 else fault
  end.
(** [*((uN * )&s[i])] for [n] bytes, little endian. *)
Fixpoint load_le (s : bytes) (i n : nat) : M stack Z :=
  match n with
  | O => ret 0
  | S n' => b <- byte_at s i ;; w <- load_le s (S i) n' ;; ret (b + 256 * w)
  end.
(** [strncmp(&s[i], t, n) == 0] *)
Fixpoint strncmp_eq (s : bytes) (i : nat) (t : bytes) (j n : nat) : M stack bool :=
  match n with
  | O => ret true
  | S n' =>
      a <- byte_at s i ;;
      b <- byte_at t j ;;
      if negb (a =? b) then ret false
      else if a =? 0 then ret true
      else strncmp_eq s (S i) t (S j) n'
  end.
(** [lua_pushlstring(L, s + pos, n)] *)
Definition lua_pushlstring (s : bytes) (pos n : nat) : M stack unit :=
  if Nat.leb (pos + n) (length s) then modify (fun st => st ++ [take n (drop pos s)]) else fault.

Definition isblank (c : Z) : bool := (c =? 32) || (c =? 9).

(** The loop all cases but the empty search share: [i < lim] compares an [int]
    with a [size_t]; on a hit the piece is pushed and [k] bytes are skipped. *)
Fixpoint scan (fuel : nat) (src : bytes) (lim : Z) (hit : nat -> M stack bool) (k : nat)
    (i pos n : nat) : M stack (nat * nat) :=
  if Z.of_nat i <? lim then
    match fuel with
    | O => out_of_fuel
    | S fuel' =>
        b <- hit i ;;
        if (b : bool) then
          lua_pushlstring src pos (i - pos) ;;;
          let i' := (i + (k - 1))%nat in
          scan fuel' src lim hit k (S i') (S i') (S n)
        else scan fuel' src lim hit k (S i) pos n
    end
  else ret (pos, n).

(** Length 0: every byte by itself. *)
Fixpoint push_each (m : nat) (src : bytes) (pos : nat) : M stack nat :=
  match m with
  | O => ret pos
  | S m' => lua_pushlstring src pos 1 ;;; push_each m' src (S pos)
  end.

Definition word_hit (src search : bytes) (k i : nat) : M stack bool :=
  w <- load_le search 0 k ;; x <- load_le src i k ;; ret (x =? w).

(** What a case leaves: the start of the rest and the number of results. *)
Definition scanned (m : M stack (nat * nat)) : M stack ((nat * nat) + lua_error) :=
  x <- m ;; ret (inl x).

(** [yaos_split]: the number of results, or the error raised. *)
Definition yaos_split (src search : bytes) : M stack (nat + lua_error) :=
  let len := Z.of_nat (length src) in
  let searchlen := Z.of_nat (length search) in
  let fuel := S (S (length src)) in
  if 8 <? searchlen then ret (inr TooLong)
  else
    c0 <- byte_at search 0 ;;
    let isescape := c0 =? PERCENT in
    if isescape && negb (searchlen =? 2) then ret (inr BadEscape)
    else
      x <- (if isescape then
              c1 <- byte_at search 1 ;;
              if c1 =? LETTER_S then
                scanned (scan fuel src len (fun i => c <- byte_at src i ;; ret (isblank c)) 1 0 0 1)
              else ret (inr BadEscape)
            else if searchlen =? 0 then
              pos <- push_each (length src) src 0 ;; ret (inl (pos, S (length src)))
            else if searchlen =? 1 then
              scanned (scan fuel src len (fun i => c <- byte_at src i ;; ret (c =? c0)) 1 0 0 1)
            else if (searchlen =? 2) || (searchlen =? 4) || (searchlen =? 8) then
              let k := length search in
              scanned (scan fuel src (wrap64 (len - (searchlen - 1))) (word_hit src search k) k 0 0 1)
            else
              let k := length search in
              scanned (scan fuel src (wrap64 (wrap64 (len - searchlen) - 1))
                         (fun i => strncmp_eq src i search 0 k) k 0 0 1)) ;;
      match x with
      | inr e => ret (inr e)
      | inl (pos, n) =>
          lua_pushlstring src pos (length src - pos) ;;;
          ret (inl n)
      end.

(** ** What splitting is *)

Definition occurs_at (t s : bytes) (i : nat) : Prop := t `prefix_of` drop i s.

(** The pieces of [s]: cut at the leftmost occurrence of [t], and go on behind
    it. *)
Inductive split_spec (t : bytes) : bytes -> list bytes -> Prop :=
  | sp_last s : (forall i, ~ occurs_at t s i) -> split_spec t s [s]
  | sp_cut p rest ps :
      (forall i, (i < length p)%nat -> ~ occurs_at t (p ++ t ++ rest) i) ->
      split_spec t rest ps -> split_spec t (p ++ t ++ rest) (p :: ps).

Fixpoint join (t : bytes) (ps : list bytes) : bytes :=
  match ps with
  | [] => []
  | [p] => p
  | p :: ps' => p ++ t ++ join t ps'
  end.

Lemma split_spec_nonempty t s ps : split_spec t s ps -> ps <> [].
Proof. by destruct 1. Qed.

Lemma join_cons t p ps : ps <> [] -> join t (p :: ps) = p ++ t ++ join t ps.
Proof. by destruct ps. Qed.

Lemma split_spec_join t s ps : split_spec t s ps -> join t ps = s.
Proof.
  induction 1 as [s _|p rest ps _ Hs IH]; [done|].
  rewrite join_cons by (by eapply split_spec_nonempty). by rewrite IH.
Qed.

(** The specification leaves no choice. *)
Lemma split_spec_det t s ps ps' : t <> [] -> split_spec t s ps -> split_spec t s ps' -> ps = ps'.
Proof.
  intros Ht Hs. revert ps'. induction Hs as [s Hno|p rest ps Hno Hs IH]; intros ps' Hs'.
  - inversion Hs' as [? Hno' | p' rest' ps2 Hno' Hs2]; subst; [done|].
    exfalso. apply (Hno (length p')). unfold occurs_at. rewrite drop_app_length. by exists rest'.
  - inversion Hs' as [? Hno' Heq | p' rest' ps2 Hno' Hs2 Heq]; subst.
    + exfalso. apply (Hno' (length p)). unfold occurs_at. rewrite drop_app_length. by exists rest.
    + assert (length p = length p') as Hlen.
      { destruct (Nat.lt_trichotomy (length p) (length p')) as [Hlt|[?|Hlt]]; [|done|].
        - exfalso. apply (Hno' _ Hlt). rewrite Heq. unfold occurs_at. rewrite drop_app_length. by exists rest.
        - exfalso. apply (Hno _ Hlt). rewrite <- Heq. unfold occurs_at. rewrite drop_app_length. by exists rest'. }
      apply app_inj_1 in Heq as [-> Heq]; [|done]. apply app_inv_head in Heq as ->. f_equal. by apply IH.
Qed.

(** ** The loop *)
Section loop.
Context (src : bytes) (lim : Z) (hit : nat -> M stack bool) (H : nat -> bool) (k : nat).
Hypothesis (Hk : (0 < k)%nat) (Hlim : lim <= Z.of_nat (length src)).
Hypothesis (Hhit : forall i st, Z.of_nat i < lim -> hit i st = Done (H i, st)).
Hypothesis (Hroom : forall i, Z.of_nat i < lim -> H i = true -> (i + k <= length src)%nat).

(** From [pos] the loop cuts off [ps] and ends with the rest from [pos']. *)
Inductive cuts : nat -> list bytes -> nat -> Prop :=
  | cuts_end pos : (pos <= length src)%nat ->
      (forall j, (pos <= j)%nat -> Z.of_nat j < lim -> H j = false) -> cuts pos [] pos
  | cuts_hit pos j ps pos' : (pos <= j)%nat -> Z.of_nat j < lim -> H j = true ->
      (forall i, (pos <= i < j)%nat -> H i = false) -> cuts (j + k) ps pos' ->
      cuts pos (take (j - pos) (drop pos src) :: ps) pos'.

Lemma wp_push pos n st Q :
  (pos + n <= length src)%nat -> Q tt (st ++ [take n (drop pos src)]) -> wp (lua_pushlstring src pos n) st Q.
Proof. intros Hp HQ. unfold lua_pushlstring. rewrite (proj2 (Nat.leb_le _ _) Hp). by wp_steps. Qed.

Lemma scan_ok fuel : forall i pos n st,
  (pos <= i)%nat -> (pos <= length src)%nat -> lim <= Z.of_nat i + Z.of_nat fuel ->
  (forall j, (pos <= j < i)%nat -> H j = false) ->
  wp (scan fuel src lim hit k i pos n) st (fun x st' => exists ps pos',
    x = (pos', (n + length ps)%nat) /\ st' = st ++ ps /\ cuts pos ps pos').
Proof.
  induction fuel as [|fuel IH]; intros i pos n st Hpi Hps Hf Hno; cbn [scan];
    destruct (Z.ltb_spec (Z.of_nat i) lim) as [Hlt|Hge]; try lia.
  1, 3: apply wp_ret; exists [], pos; rewrite Nat.add_0_r, app_nil_r; split; [done|];
    split; [done|]; constructor; [done|]; intros j Hj Hjl; apply Hno; lia.
  unfold wp, bind. rewrite Hhit by done.
  destruct (H i) eqn:Hi.
  - pose proof (Hroom i Hlt Hi) as Hr.
    change (wp (lua_pushlstring src pos (i - pos) ;;;
      scan fuel src lim hit k (S (i + (k - 1))) (S (i + (k - 1))) (S n)) st
      (fun x st' => exists ps pos', x = (pos', (n + length ps)%nat) /\ st' = st ++ ps /\ cuts pos ps pos')).
    replace (S (i + (k - 1))) with (i + k)%nat by lia. wp_steps.
    apply wp_push; [lia|]. eapply wp_mono; [apply IH; lia|].
    intros x st' (ps & pos' & -> & -> & Hc). exists (take (i - pos) (drop pos src) :: ps), pos'.
    cbn [length]. split; [f_equal; lia|]. split; [by rewrite <- (assoc_L app)|].
    by apply cuts_hit.
  - apply IH; try lia. intros j Hj. destruct (decide (j = i)) as [->|]; [done|]. apply Hno. lia.
Qed.

Lemma split_at pos j : (pos <= j)%nat -> take (j - pos) (drop pos src) ++ drop j src = drop pos src.
Proof.
  intros Hj. replace (drop j src) with (drop (j - pos) (drop pos src)); [apply take_drop|].
  rewrite drop_drop. f_equal. lia.
Qed.

Lemma cuts_bound pos ps pos' : cuts pos ps pos' -> (pos' <= length src)%nat.
Proof. by induction 1. Qed.

(** When the matched text is always [t], joining gives the text back. *)
Lemma cuts_join t pos ps pos' :
  length t = k -> (forall i, Z.of_nat i < lim -> H i = true -> occurs_at t src i) ->
  cuts pos ps pos' -> (pos <= length src)%nat ->
  join t (ps ++ [drop pos' src]) = drop pos src.
Proof.
  intros Ht Hocc. induction 1 as [pos Hp Hno|pos j ps pos' Hpj Hj Hh Hno Hc IH]; intros Hpos; [done|].
  cbn [app]. rewrite join_cons by (by destruct ps). pose proof (Hroom j Hj Hh).
  rewrite IH by lia. destruct (Hocc j Hj Hh) as [rest Hrest].
  assert (drop (j + k) src = rest) as ->.
  { rewrite <- drop_drop, Hrest, <- Ht, drop_app_length. done. }
  rewrite <- Hrest. by apply split_at.
Qed.

(** When the hits are the occurrences, the pieces are those of the
    specification. *)
Lemma cuts_spec t pos ps pos' :
  length t = k -> (forall i, occurs_at t src i <-> Z.of_nat i < lim /\ H i = true) ->
  cuts pos ps pos' -> split_spec t (drop pos src) (ps ++ [drop pos' src]).
Proof.
  intros Ht Hocc. induction 1 as [pos Hp Hno|pos j ps pos' Hpj Hj Hh Hno Hc IH].
  - cbn. constructor. intros i Hi. unfold occurs_at in Hi. rewrite drop_drop in Hi.
    apply Hocc in Hi as [Hi1 Hi2]. rewrite Hno in Hi2; [done|lia|done].
  - assert (occurs_at t src j) as [rest Hrest] by (by apply Hocc).
    assert (drop (j + k) src = rest) as Hd.
    { rewrite <- drop_drop, Hrest, <- Ht, drop_app_length. done. }
    rewrite Hd in IH.
    assert (drop pos src = take (j - pos) (drop pos src) ++ t ++ rest) as Heq.
    { rewrite <- Hrest. symmetry. by apply split_at. }
    cbn [app]. rewrite Heq at 1. constructor; [|exact IH].
    intros i Hi. rewrite <- Heq. unfold occurs_at. rewrite drop_drop. intros Hi'.
    pose proof (Hroom j Hj Hh). rewrite length_take in Hi.
    assert (H (pos + i)%nat = false) by (apply Hno; lia).
    apply Hocc in Hi' as [_ Hi']. congruence.
Qed.
End loop.

(** ** Comparisons *)
Lemma byte_at_in s i b Q st : s !! i = Some b -> Q b st -> wp (byte_at s i) st Q.
Proof. intros Hi HQ. unfold byte_at. rewrite Hi. by apply wp_ret. Qed.

Lemma load_le_ok s n : forall i st,
  (i + n <= length s)%nat -> load_le s i n st = Done (le_word (take n (drop i s)), st).
Proof.
  induction n as [|n IH]; intros i st Hn; [done|].
  destruct (lookup_lt_is_Some_2 s i) as [b Hb]; [lia|]. cbn [load_le].
  rewrite (drop_S s b i Hb). cbn [take le_word]. unfold bind, byte_at. rewrite Hb. cbn.
  by rewrite IH by lia.
Qed.

Lemma take_drop_prefix (t s : bytes) i :
  (i + length t <= length s)%nat -> take (length t) (drop i s) = t <-> occurs_at t s i.
Proof.
  intros Hl. unfold occurs_at. split.
  - intros Heq. exists (drop (length t) (drop i s)). by rewrite <- Heq at 1; rewrite take_drop.
  - intros [rest ->]. apply take_app_length.
Qed.

Lemma occurs_length t s i : occurs_at t s i -> t <> [] -> (i + length t <= length s)%nat.
Proof.
  intros Ho Ht. apply prefix_length in Ho. rewrite length_drop in Ho.
  destruct t; [done|]. cbn in *. lia.
Qed.

(** Equal words are equal bytes. *)
Lemma word_hit_ok src t i st :
  Forall is_byte src -> Forall is_byte t -> (i + length t <= length src)%nat ->
  word_hit src t (length t) i st = Done (bool_decide (take (length t) (drop i src) = t), st).
Proof.
  intros Hs Ht Hi. unfold word_hit, bind. rewrite load_le_ok, load_le_ok by lia. cbn.
  rewrite drop_0, (take_ge t) by lia. unfold ret. do 2 f_equal.
  destruct (Z.eqb_spec (le_word (take (length t) (drop i src))) (le_word t)) as [Heq|Hne].
  - symmetry. apply bool_decide_eq_true. apply le_word_inj; try done.
    + by apply Forall_take, Forall_drop.
    + rewrite length_take, length_drop. lia.
  - symmetry. apply bool_decide_eq_false. congruence.
Qed.

(** Without a 0 in the search string, [strncmp] compares the bytes. *)
Lemma strncmp_ok src t : forall n i j st,
  0 ∉ t -> (i + n <= length src)%nat -> (j + n <= length t)%nat ->
  strncmp_eq src i t j n st = Done (bool_decide (take n (drop i src) = take n (drop j t)), st).
Proof.
  induction n as [|n IH]; intros i j st H0 Hi Hj; [done|].
  destruct (lookup_lt_is_Some_2 src i) as [a Ha]; [lia|].
  destruct (lookup_lt_is_Some_2 t j) as [b Hb]; [lia|].
  cbn [strncmp_eq]. unfold bind, byte_at. rewrite Ha. cbn. rewrite Hb. cbn.
  rewrite (drop_S src a i Ha), (drop_S t b j Hb). cbn [take].
  destruct (Z.eqb_spec a b) as [->|Hne]; cbn.
  - destruct (Z.eqb_spec b 0) as [->|_].
    { exfalso. apply H0. by eapply list_elem_of_lookup_2. }
    rewrite IH by (done || lia). do 2 f_equal. apply bool_decide_ext. split; [by intros ->|by intros [=]].
  - rewrite bool_decide_false by congruence. done.
Qed.

(** ** The cases of [yaos_split] *)
Definition word_length (k : nat) : Prop := k = 1%nat \/ k = 2%nat \/ k = 4%nat \/ k = 8%nat.
Definition other_length (k : nat) : Prop := k = 3%nat \/ k = 5%nat \/ k = 6%nat \/ k = 7%nat.

(** The common frame: a search of length 1 to 8 that is no escape runs one
    loop and pushes the rest. *)
Lemma yaos_split_scan src t lim hit (Q : nat + lua_error -> stack -> Prop) :
  (0 < length t <= 8)%nat -> t !! 0%nat <> Some PERCENT ->
  (forall c0, t !! 0%nat = Some c0 ->
    (if Z.of_nat (length t) =? 1 then
       scanned (scan (S (S (length src))) src (Z.of_nat (length src))
         (fun i => c <- byte_at src i ;; ret (c =? c0)) 1 0 0 1)
     else if (Z.of_nat (length t) =? 2) || (Z.of_nat (length t) =? 4) || (Z.of_nat (length t) =? 8) then
       scanned (scan (S (S (length src))) src (wrap64 (Z.of_nat (length src) - (Z.of_nat (length t) - 1)))
         (word_hit src t (length t)) (length t) 0 0 1)
     else
       scanned (scan (S (S (length src))) src (wrap64 (wrap64 (Z.of_nat (length src) - Z.of_nat (length t)) - 1))
         (fun i => strncmp_eq src i t 0 (length t)) (length t) 0 0 1)) =
    scanned (scan (S (S (length src))) src lim hit (length t) 0 0 1)) ->
  wp (scan (S (S (length src))) src lim hit (length t) 0 0 1) [] (fun x st' =>
    forall pos n, x = (pos, n) -> (pos <= length src)%nat /\ Q (inl n) (st' ++ [drop pos src])) ->
  wp (yaos_split src t) [] Q.
Proof.
  intros Hlen Hpct Heq Hscan. unfold yaos_split.
  rewrite (proj2 (Z.ltb_ge 8 _)) by lia. wp_steps.
  destruct (lookup_lt_is_Some_2 t 0%nat) as [c0 Hc0]; [lia|].
  eapply byte_at_in; [exact Hc0|]. assert ((c0 =? PERCENT) = false) as -> by (apply Z.eqb_neq; congruence).
  cbn [andb]. rewrite (proj2 (Z.eqb_neq (Z.of_nat (length t)) 0)) by lia.
  rewrite (Heq c0 Hc0). unfold scanned. wp_steps. eapply wp_mono; [exact Hscan|].
  intros [pos n] st' Hres. wp_steps. destruct (Hres pos n eq_refl) as [Hp HQ].
  apply wp_push; [lia|]. rewrite take_ge by (rewrite length_drop; lia). wp_steps. exact HQ.
Qed.

(** The test of a case, as a predicate on positions. *)
Definition found (src t : bytes) (i : nat) : bool := bool_decide (take (length t) (drop i src) = t).

Lemma found_spec src t i :
  (i + length t <= length src)%nat -> found src t i = true <-> occurs_at t src i.
Proof. intros Hi. unfold found. rewrite bool_decide_eq_true. by apply take_drop_prefix. Qed.

Lemma split_scan_ok src t lim hit (Q : nat + lua_error -> stack -> Prop) :
  (0 < length t <= 8)%nat -> t !! 0%nat <> Some PERCENT ->
  lim + Z.of_nat (length t) <= Z.of_nat (length src) + 1 ->
  (forall i st, Z.of_nat i < lim -> hit i st = Done (found src t i, st)) ->
  (forall ps pos', cuts src lim (found src t) (length t) 0 ps pos' ->
     Q (inl (length (ps ++ [drop pos' src]))) (ps ++ [drop pos' src])) ->
  wp (scan (S (S (length src))) src lim hit (length t) 0 0 1) [] (fun x st' =>
    forall pos n, x = (pos, n) -> (pos <= length src)%nat /\ Q (inl n) (st' ++ [drop pos src])).
Proof.
  intros Hlen Hpct Hlim Hhit HQ. eapply wp_mono.
  { apply (scan_ok src lim hit (found src t) (length t)); try lia. exact Hhit. }
  cbn beta. intros x st' (ps & pos' & -> & -> & Hc) pos n [= <- <-].
  split; [by eapply cuts_bound|]. specialize (HQ _ _ Hc). rewrite length_app in HQ.
  by rewrite Nat.add_comm in HQ.
Qed.

Lemma byte_hit_ok src c i st :
  (i < length src)%nat -> (b <- byte_at src i ;; ret (b =? c)) st = Done (found src [c] i, st).
Proof.
  intros Hi. destruct (lookup_lt_is_Some_2 src i Hi) as [b Hb]. unfold bind, byte_at. rewrite Hb. cbn.
  unfold found. cbn [length]. rewrite (drop_S src b i Hb). cbn [take]. unfold ret. do 2 f_equal.
  destruct (Z.eqb_spec b c) as [->|Hne]; symmetry; [by apply bool_decide_eq_true|].
  apply bool_decide_eq_false. congruence.
Qed.

(** Lengths 1, 2, 4 and 8 with a text not much shorter. *)
Lemma split_words_ok src t (Q : nat + lua_error -> stack -> Prop) :
  word_length (length t) -> t !! 0%nat <> Some PERCENT -> Forall is_byte src -> Forall is_byte t ->
  (length t <= S (length src))%nat -> Z.of_nat (length src) < 2 ^ 31 ->
  (forall ps pos', cuts src (Z.of_nat (length src) + 1 - Z.of_nat (length t)) (found src t) (length t) 0 ps pos' ->
     Q (inl (length (ps ++ [drop pos' src]))) (ps ++ [drop pos' src])) ->
  wp (yaos_split src t) [] Q.
Proof.
  intros Hk Hpct Hbs Hbt Hlen Hint HQ.
  set (lim := Z.of_nat (length src) + 1 - Z.of_nat (length t)) in *.
  assert (0 < length t <= 8)%nat as Hk8 by (unfold word_length in Hk; lia).
  destruct (decide (length t = 1%nat)) as [H1|H1].
  - destruct t as [|c [|? t]]; [done| |cbn in H1; lia].
    apply (yaos_split_scan src [c] lim (fun i => b <- byte_at src i ;; ret (b =? c))); [done|done| |].
    + intros c0 [= ->]. cbn [length]. unfold lim. cbn [length].
      by replace (Z.of_nat (length src) + 1 - Z.of_nat 1) with (Z.of_nat (length src)) by lia.
    + apply split_scan_ok; [done|done|unfold lim; cbn; lia| |exact HQ].
      intros i st Hi. apply byte_hit_ok. unfold lim in Hi. cbn in Hi. lia.
  - apply (yaos_split_scan src t lim (word_hit src t (length t))); [done|done| |].
    + intros c0 _. rewrite (proj2 (Z.eqb_neq (Z.of_nat (length t)) 1)) by lia.
      assert ((Z.of_nat (length t) =? 2) || (Z.of_nat (length t) =? 4) || (Z.of_nat (length t) =? 8) = true) as ->.
      { destruct Hk as [|[->|[->| ->]]]; done. }
      rewrite wrap64_small by lia. unfold lim. do 2 f_equal. lia.
    + apply split_scan_ok; [done|done|unfold lim; lia| |exact HQ].
      intros i st Hi. apply word_hit_ok; [done|done|unfold lim in Hi; lia].
Qed.

(** The other lengths: the last two positions are not tried. *)
Lemma split_other_ok src t (Q : nat + lua_error -> stack -> Prop) :
  other_length (length t) -> t !! 0%nat <> Some PERCENT -> 0 ∉ t ->
  (length t < length src)%nat -> Z.of_nat (length src) < 2 ^ 31 ->
  (forall ps pos', cuts src (Z.of_nat (length src) - 1 - Z.of_nat (length t)) (found src t) (length t) 0 ps pos' ->
     Q (inl (length (ps ++ [drop pos' src]))) (ps ++ [drop pos' src])) ->
  wp (yaos_split src t) [] Q.
Proof.
  intros Hk Hpct H0 Hlen Hint HQ.
  set (lim := Z.of_nat (length src) - 1 - Z.of_nat (length t)) in *.
  assert (0 < length t <= 8)%nat as Hk8 by (unfold other_length in Hk; lia).
  apply (yaos_split_scan src t lim (fun i => strncmp_eq src i t 0 (length t))); [done|done| |].
  - intros c0 _. rewrite (proj2 (Z.eqb_neq (Z.of_nat (length t)) 1)) by (unfold other_length in Hk; lia).
    assert ((Z.of_nat (length t) =? 2) || (Z.of_nat (length t) =? 4) || (Z.of_nat (length t) =? 8) = false) as ->.
    { destruct Hk as [->|[->|[->| ->]]]; done. }
    rewrite (wrap64_small (_ - Z.of_nat (length t))) by lia. rewrite wrap64_small by lia.
    unfold lim. do 2 f_equal. lia.
  - apply split_scan_ok; [done|done|unfold lim; lia| |exact HQ].
    intros i st Hi. rewrite strncmp_ok; [|done|unfold lim in Hi; lia|lia].
    unfold found. by rewrite drop_0, (take_ge t) by lia.
Qed.

(** ** Texts that are too short *)
Lemma byte_at_over s i st : (length s < i)%nat -> byte_at s i st = Fault.
Proof.
  intros Hi. unfold byte_at. rewrite lookup_ge_None_2 by lia.
  destruct (Nat.eqb_spec i (length s)); [lia|done].
Qed.

Lemma load_le_over s n : forall i st, (0 < n)%nat -> (S (length s) < i + n)%nat -> load_le s i n st = Fault.
Proof.
  induction n as [|n IH]; intros i st Hn Hi; [lia|]. cbn [load_le]. unfold bind.
  destruct (byte_at s i st) as [[b st']| | | |] eqn:Hb; try done.
  - destruct (decide (length s < i)%nat) as [Hl|Hl]; [by rewrite byte_at_over in Hb|].
    rewrite IH; [done|lia|lia].
  - unfold byte_at in Hb. repeat case_match; done.
  - unfold byte_at in Hb. repeat case_match; done.
  - unfold byte_at in Hb. repeat case_match; done.
Qed.

Lemma strncmp_end src t : forall n i j st,
  0 ∉ t -> (i <= length src)%nat -> (length src < i + n)%nat -> (j + n <= length t)%nat ->
  strncmp_eq src i t j n st = Done (false, st).
Proof.
  induction n as [|n IH]; intros i j st H0 Hi Hn Hj; [lia|].
  destruct (lookup_lt_is_Some_2 t j) as [b Hb]; [lia|].
  assert (b <> 0) as Hb0 by (intros ->; apply H0; by eapply list_elem_of_lookup_2).
  cbn [strncmp_eq]. unfold bind, byte_at at 1 2. rewrite Hb.
  destruct (decide (i = length src)) as [->|Hne].
  - rewrite lookup_ge_None_2, Nat.eqb_refl by lia. cbn.
    destruct b; done.
  - destruct (lookup_lt_is_Some_2 src i) as [a Ha]; [lia|]. rewrite Ha. cbn.
    destruct (Z.eqb_spec a b) as [->|]; [|done]. cbn. rewrite (proj2 (Z.eqb_neq b 0)) by done.
    apply IH; [done|lia..].
Qed.

(** A loop whose bound has wrapped runs into the end of the text. *)
Lemma scan_faults src lim hit k :
  (0 < k)%nat -> Z.of_nat (S (length src)) < lim ->
  (forall i st, (i <= length src)%nat -> exists b, hit i st = Done (b, st) /\
     (b = true -> (i + k <= length src)%nat)) ->
  (forall st, hit (S (length src)) st = Fault) ->
  forall fuel i pos n st, (pos <= i)%nat -> (i <= S (length src))%nat -> (S (length src) < i + fuel)%nat ->
  scan fuel src lim hit k i pos n st = Fault.
Proof.
  intros Hk Hlim Hhit Hend. induction fuel as [|fuel IH]; intros i pos n st Hp Hi Hf; [lia|].
  cbn [scan]. rewrite (proj2 (Z.ltb_lt _ _)) by lia. unfold bind.
  destruct (decide (i = S (length src))) as [->|Hne]; [by rewrite Hend|].
  destruct (Hhit i st) as (b & -> & Hb); [lia|]. destruct b.
  - specialize (Hb eq_refl). unfold lua_pushlstring. rewrite (proj2 (Nat.leb_le _ _)) by lia. cbn.
    apply IH; lia.
  - apply IH; lia.
Qed.

Lemma length_eqb_1 (t : bytes) : length t <> 1%nat -> (Z.of_nat (length t) =? 1) = false.
Proof. intros H. apply Z.eqb_neq. lia. Qed.

Lemma length_word_case (t : bytes) : word_length (length t) -> length t <> 1%nat ->
  (Z.of_nat (length t) =? 2) || (Z.of_nat (length t) =? 4) || (Z.of_nat (length t) =? 8) = true.
Proof. by intros [?|[->|[->| ->]]] ?. Qed.

Lemma length_other_case (t : bytes) : other_length (length t) ->
  (Z.of_nat (length t) =? 2) || (Z.of_nat (length t) =? 4) || (Z.of_nat (length t) =? 8) = false.
Proof. by intros [->|[->|[->| ->]]]. Qed.

Lemma wrap64_neg x : - 2 ^ 64 <= x < 0 -> wrap64 x = x + 2 ^ 64.
Proof. intros Hx. unfold wrap64. symmetry. apply Z.mod_unique with (-1); lia. Qed.

Lemma wrap64_sub2 a b : wrap64 (wrap64 (a - b) - 1) = wrap64 (a - b - 1).
Proof. unfold wrap64. by rewrite Zminus_mod_idemp_l. Qed.

(** A case whose loop faults. *)
Lemma yaos_split_fault src t c0 lim hit :
  t !! 0%nat = Some c0 -> c0 <> PERCENT -> (0 < length t <= 8)%nat ->
  (if Z.of_nat (length t) =? 1 then
     scanned (scan (S (S (length src))) src (Z.of_nat (length src))
       (fun i => c <- byte_at src i ;; ret (c =? c0)) 1 0 0 1)
   else if (Z.of_nat (length t) =? 2) || (Z.of_nat (length t) =? 4) || (Z.of_nat (length t) =? 8) then
     scanned (scan (S (S (length src))) src (wrap64 (Z.of_nat (length src) - (Z.of_nat (length t) - 1)))
       (word_hit src t (length t)) (length t) 0 0 1)
   else
     scanned (scan (S (S (length src))) src (wrap64 (wrap64 (Z.of_nat (length src) - Z.of_nat (length t)) - 1))
       (fun i => strncmp_eq src i t 0 (length t)) (length t) 0 0 1)) =
    scanned (scan (S (S (length src))) src lim hit (length t) 0 0 1) ->
  scan (S (S (length src))) src lim hit (length t) 0 0 1 [] = Fault ->
  yaos_split src t [] = Fault.
Proof.
  intros Hc0 Hp Hk Heq Hf. unfold yaos_split. rewrite (proj2 (Z.ltb_ge 8 _)) by lia.
  unfold bind at 1, byte_at at 1. rewrite Hc0. cbn [ret].
  rewrite (proj2 (Z.eqb_neq c0 PERCENT) Hp). cbn [andb].
  rewrite (proj2 (Z.eqb_neq (Z.of_nat (length t)) 0)) by lia. rewrite Heq.
  unfold bind at 1, scanned, bind at 1. by rewrite Hf.
Qed.

(** ** Properties *)

(** The pieces of a text that is long enough. *)
Lemma split_words_spec (src search : bytes) :
  word_length (length search) -> search !! 0%nat <> Some PERCENT ->
  Forall is_byte src /\ Forall is_byte search -> (length search <= S (length src))%nat -> Z.of_nat (length src) < 2 ^ 31 ->
  exists ps, yaos_split src search [] = Done (inl (length ps), ps) /\
    split_spec search src ps /\ join search ps = src.
Proof.
  intros Hlength Hescape Hbytes Hl1 Hl2.
  destruct Hbytes as [Hbs Hbt].
  pose proof (split_words_ok src search (fun r st => r = inl (length st) /\ split_spec search src st)
    Hlength Hescape Hbs Hbt Hl1 Hl2) as Hwp.
  apply wp_run in Hwp as (r & ps & Hrun & -> & Hs).
  - exists ps. split; [exact Hrun|]. split; [exact Hs|]. by eapply split_spec_join.
  - intros ps pos' Hc. split; [done|]. rewrite <- (drop_0 src) at 1.
    eapply (cuts_spec src _ (found src search) (length search)); [| |done| |exact Hc].
    + unfold word_length in Hlength. lia.
    + lia.
    + intros i. split.
      * intros Ho. assert (search <> []) as Hne.
        { intros ->. unfold word_length in Hlength. cbn in Hlength. lia. }
        pose proof (occurs_length _ _ _ Ho Hne). split; [lia|]. by apply found_spec.
      * intros [Hi Hf]. apply found_spec in Hf; [done|lia].
Qed.

(** On a text that is too short the unsigned bound of the loop wraps and
    the scan leaves the string: with a search of 2, 4 or 8 bytes when the text
    is at least two bytes shorter, with one of 3, 5, 6 or 7 bytes also when it
    is as long as the text, as in splitting a string by itself. *)
Theorem yaos_split_short_text_faults (src search : bytes)
    (Hescape : search !! 0%nat <> Some PERCENT)
    (Hshort : word_length (length search) /\ (S (length src) < length search)%nat \/
              other_length (length search) /\ (length src <= length search)%nat /\ 0 ∉ search) :
  yaos_split src search [] = Fault.
Proof.
  assert (0 < length search <= 8)%nat as Hk by (unfold word_length, other_length in *; lia).
  destruct (lookup_lt_is_Some_2 search 0%nat) as [c0 Hc0]; [lia|].
  destruct Hshort as [[Hw Hlen]|(Ho & Hlen & Hnul)].
  - assert (length search <> 1%nat) by lia.
    apply (yaos_split_fault src search c0 (wrap64 (Z.of_nat (length src) - (Z.of_nat (length search) - 1)))
      (word_hit src search (length search))); [done|congruence|lia| |].
    + by rewrite length_eqb_1, length_word_case.
    + cbn [scan]. rewrite (proj2 (Z.ltb_lt _ _)) by (rewrite wrap64_neg; lia).
      unfold bind, word_hit, bind. rewrite load_le_ok by lia. by rewrite load_le_over by lia.
  - apply (yaos_split_fault src search c0 (wrap64 (wrap64 (Z.of_nat (length src) - Z.of_nat (length search)) - 1))
      (fun i => strncmp_eq src i search 0 (length search))); [done|congruence|lia| |].
    + rewrite length_eqb_1 by (unfold other_length in Ho; lia). by rewrite length_other_case.
    + apply scan_faults; [lia| | | |lia..].
      * rewrite wrap64_sub2. rewrite wrap64_neg by lia. lia.
      * intros i st Hi. destruct (decide (i + length search <= length src)%nat) as [Hin|Hout].
        -- eexists. by rewrite strncmp_ok by (done || lia).
        -- exists false. by rewrite strncmp_end by (done || lia).
      * intros st. destruct search as [|c t]; [cbn in Hk; lia|]. cbn [length strncmp_eq].
        unfold bind. by rewrite byte_at_over by lia.
Qed.

Lemma yaos_split_short_text_faults_witness : yaos_split [97; 98; 99] [97; 98; 99] [] = Fault.
Proof.
  apply yaos_split_short_text_faults; [discriminate|]. right. split; [left; reflexivity|].
  split; [cbn; lia|].
  apply (bool_decide_unpack _). vm_compute. exact I.
Defined.

(** C40: [yaos_split] with a search string of 1, 2, 4 or 8 bytes that is no
    escape, on a text below 2G: unless the text is at least two bytes shorter
    than the search string, it pushes exactly the pieces of the text cut at the
    leftmost occurrences of the search string, whatever the bytes, and returns
    their number, and joining the pieces with the search string gives the text
    back; on such a shorter text, also the empty one, it faults. *)
Theorem yaos_split_correct (src search : bytes)
    (Hlength : word_length (length search)) (Hescape : search !! 0%nat <> Some PERCENT)
    (Hbytes : Forall is_byte src /\ Forall is_byte search)
    (Hlen : Z.of_nat (length src) < 2 ^ 31) :
  if Nat.leb (length search) (S (length src)) then
    exists ps, yaos_split src search [] = Done (inl (length ps), ps) /\
      split_spec search src ps /\ join search ps = src
  else yaos_split src search [] = Fault.
Proof.
  destruct (Nat.leb_spec (length search) (S (length src))) as [Hl|Hl].
  2: { apply yaos_split_short_text_faults; [done|]. by left. }
  by apply split_words_spec.
Qed.

Lemma yaos_split_correct_witness :
  (exists ps, yaos_split [97; 44; 32; 98; 44; 32] [44; 32] [] = Done (inl (length ps), ps) /\
    join [44; 32] ps = [97; 44; 32; 98; 44; 32]) /\ yaos_split [] [44; 32] [] = Fault.
Proof.
  split.
  - destruct (yaos_split_correct [97; 44; 32; 98; 44; 32] [44; 32]) as (ps & Hrun & _ & Hj).
    + right. left. reflexivity.
    + discriminate.
    + unfold is_byte. split; repeat (constructor; [lia|]); constructor.
    + cbn. lia.
    + exists ps. split; [exact Hrun|exact Hj].
  - apply (yaos_split_correct [] [44; 32]).
    + right. left. reflexivity.
    + discriminate.
    + unfold is_byte. split; repeat (constructor; [lia|]); constructor.
    + cbn. lia.
Defined.

(** With a search string of 3, 5, 6 or 7 bytes joining the pieces still
    gives the text back, but the last two positions are never tried: an
    occurrence that begins at or behind [len - searchlen - 1] is left in the
    last piece, and a text that has no other comes back whole. *)
Theorem yaos_split_misses_last (src search : bytes)
    (Hlength : other_length (length search)) (Hescape : search !! 0%nat <> Some PERCENT)
    (Hnul : 0 ∉ search)
    (Hlen : (length search < length src)%nat /\ Z.of_nat (length src) < 2 ^ 31) :
  exists ps, yaos_split src search [] = Done (inl (length ps), ps) /\ join search ps = src /\
    ((forall i, occurs_at search src i -> (length src - length search - 1 <= i)%nat) -> ps = [src]).
Proof.
  destruct Hlen as [Hl1 Hl2].
  pose proof (split_other_ok src search (fun r st => r = inl (length st) /\ join search st = src /\
    ((forall i, occurs_at search src i -> (length src - length search - 1 <= i)%nat) -> st = [src]))
    Hlength Hescape Hnul Hl1 Hl2) as Hwp.
  apply wp_run in Hwp as (r & ps & Hrun & -> & Hs); [by exists ps|].
  intros ps pos' Hc. split; [done|]. split.
  - rewrite <- (drop_0 src) at 2.
    eapply (cuts_join src _ (found src search) (length search)); [| |done| |exact Hc|lia].
    + unfold other_length in Hlength. lia.
    + lia.
    + intros i Hi Hf. apply found_spec in Hf; [done|lia].
  - intros Hno. inversion Hc as [pos Hp Hn|pos j ps' pos2 Hj Hlt Hh Hn Hc']; subst; [by rewrite drop_0|].
    exfalso. apply found_spec in Hh; [|lia]. apply Hno in Hh. lia.
Qed.

Lemma yaos_split_misses_last_witness :
  exists ps, yaos_split [97; 44; 44; 44] [44; 44; 44] [] = Done (inl (length ps), ps) /\
    join [44; 44; 44] ps = [97; 44; 44; 44].
Proof.
  destruct (yaos_split_misses_last [97; 44; 44; 44] [44; 44; 44]) as (ps & Hrun & Hj & _).
  - left. reflexivity.
  - discriminate.
  - apply (bool_decide_unpack _). vm_compute. exact I.
  - cbn. lia.
  - exists ps. split; [exact Hrun|exact Hj].
Defined.
