(* ===== verification/Palloc.v ===== *)
(** * Palloc: the memory pools of the HTTP server (module/httpd/palloc.c)

    A pool is a chain of equal blocks from [yaos_malloc].  A block begins with a
    [httpd_pool_data_t] (the first one with a whole [httpd_pool_t]) and hands
    out the rest from left to right; larger requests are areas of their own,
    recorded in nodes that live in the pool, as do the cleanup records.
    Structures are kept by address in a map per type, user data as bytes.
    [yaos_malloc], [yaos_mfree] and the cleanup handlers are an interface. *)
From Stdlib Require Import ZArith Lia.
From stdpp Require Import base tactics gmap list option.
From S2P Require Import Prelude.
#[export] Set Warnings "-clear-no-such-hyp".

Definition ESRCH : Z := 3.
Definition HTTPD_ALIGNMENT : Z := 8.
Definition HTTPD_MAX_ALLOC_FROM_POOL : Z := 4096 - 1.
Definition SIZEOF_POOL_DATA : Z := 32.
Definition SIZEOF_POOL : Z := 72.
Definition SIZEOF_LARGE : Z := 16.
Definition SIZEOF_CLEANUP : Z := 24.
(** [sizeof(httpd_pool_t) + 2 * sizeof(httpd_pool_large_t)], rounded up to a
    multiple of 16. *)
Definition HTTPD_MIN_POOL_SIZE : Z := 112.
Definition httpd_align_ptr (p a : Z) : Z := Z.land (wrap64 (p + (a - 1))) (lnot64 (a - 1)).

Record pool_data := PoolData { last : Z; dend : Z; next : Z; failed : Z }.
Record pool_head := PoolHead { max : Z; now : Z; pchain : Z; large : Z; cleanup : Z }.
Record pool_large := PoolLarge { l_next : Z; alloc : Z }.
Record pool_cleanup := PoolCleanup { handler : Z; c_data : Z; c_next : Z }.

(** What the pools take from the kernel; [handler] is a call through a cleanup
    record's function pointer. *)
Class Malloc (H : Type) := {
  yaos_malloc : Z -> M H Z;
  yaos_mfree : Z -> M H unit;
  call_handler : Z -> Z -> M H unit
}.

Section palloc.
Context {H : Type} `{!Malloc H}.

(** [httpd_pool_t] is [data] and [head] at the same address. *)
Record memory := Memory {
  data : gmap Z pool_data;
  head : gmap Z pool_head;
  larges : gmap Z pool_large;
  cleanups : gmap Z pool_cleanup;
  bytes : Z -> Z;
  handled : list (Z * Z);
  env : H
}.
Definition set_data (d : gmap Z pool_data) (s : memory) : memory :=
  Memory d (head s) (larges s) (cleanups s) (bytes s) (handled s) (env s).
Definition set_head (h : gmap Z pool_head) (s : memory) : memory :=
  Memory (data s) h (larges s) (cleanups s) (bytes s) (handled s) (env s).
Definition set_larges (l : gmap Z pool_large) (s : memory) : memory :=
  Memory (data s) (head s) l (cleanups s) (bytes s) (handled s) (env s).
Definition set_cleanups (c : gmap Z pool_cleanup) (s : memory) : memory :=
  Memory (data s) (head s) (larges s) c (bytes s) (handled s) (env s).
Definition set_bytes (b : Z -> Z) (s : memory) : memory :=
  Memory (data s) (head s) (larges s) (cleanups s) b (handled s) (env s).
Definition set_handled (l : list (Z * Z)) (s : memory) : memory :=
  Memory (data s) (head s) (larges s) (cleanups s) (bytes s) l (env s).
Definition set_env (h : H) (s : memory) : memory :=
  Memory (data s) (head s) (larges s) (cleanups s) (bytes s) (handled s) h.
Definition on_env {A} : M H A -> M memory A := zoom env set_env.

(** Reading and writing the structure at [p]. *)
Definition load {V} (f : memory -> gmap Z V) (p : Z) : M memory V := fun s =>
  match f s !! p with Some v => Done (v, s) | None => Fault end.
Definition put_data (p : Z) (d : pool_data) : M memory unit := modify (fun s => set_data (<[p := d]> (data s)) s).
Definition put_head (p : Z) (h : pool_head) : M memory unit := modify (fun s => set_head (<[p := h]> (head s)) s).
Definition put_large (p : Z) (l : pool_large) : M memory unit :=
  modify (fun s => set_larges (<[p := l]> (larges s)) s).
Definition put_cleanup (p : Z) (c : pool_cleanup) : M memory unit :=
  modify (fun s => set_cleanups (<[p := c]> (cleanups s)) s).
Definition httpd_memzero (a n : Z) : M memory unit :=
  modify (fun s => set_bytes (fun x => if (a <=? x) && (x <? a + n) then 0 else bytes s x) s).

(** [httpd_free]: a block that is freed is a block no more. *)
Definition httpd_free (a : Z) : M memory unit :=
  on_env (yaos_mfree a) ;;;
  modify (fun s => set_data (delete a (data s)) (set_head (delete a (head s)) s)).
Definition httpd_memalign (align n : Z) : M memory Z := on_env (yaos_malloc n).
Definition httpd_alloc (n : Z) : M memory Z := on_env (yaos_malloc n).

Definition with_last (v : Z) (d : pool_data) : pool_data := PoolData v (dend d) (next d) (failed d).
Definition with_next (v : Z) (d : pool_data) : pool_data := PoolData (last d) (dend d) v (failed d).
Definition with_failed (v : Z) (d : pool_data) : pool_data := PoolData (last d) (dend d) (next d) v.
Definition with_now (v : Z) (h : pool_head) : pool_head := PoolHead (max h) v (pchain h) (large h) (cleanup h).
Definition with_large (v : Z) (h : pool_head) : pool_head := PoolHead (max h) (now h) (pchain h) v (cleanup h).
Definition with_cleanup (v : Z) (h : pool_head) : pool_head := PoolHead (max h) (now h) (pchain h) (large h) v.

Definition httpd_create_pool (size : Z) : M memory Z :=
  p <- httpd_memalign 16 size ;;
  if p =? 0 then ret 0
  else
    put_data p (PoolData (wrap64 (p + SIZEOF_POOL)) (wrap64 (p + size)) 0 0) ;;;
    let size := wrap64 (size - SIZEOF_POOL) in
    put_head p (PoolHead (if size <? HTTPD_MAX_ALLOC_FROM_POOL then size else HTTPD_MAX_ALLOC_FROM_POOL) p 0 0 0) ;;;
    ret p.

(** The chain is walked at most once over; its nodes are bounded by the map. *)
Definition nodes {V} (f : memory -> gmap Z V) : M memory nat := gets (fun s => S (size (f s))).

(** The loop of [httpd_palloc_small]; [None] when no block has room. *)
Fixpoint find_room (fuel : nat) (p size : Z) (align : bool) : M memory (option Z) :=
  match fuel with
  | O => out_of_fuel
  | S fuel' =>
      d <- load data p ;;
      let m := if align then httpd_align_ptr (last d) HTTPD_ALIGNMENT else last d in
      if size <=? wrap64 (dend d - m) then
        put_data p (with_last (wrap64 (m + size)) d) ;;; ret (Some m)
      else if next d =? 0 then ret None
      else find_room fuel' (next d) size align
  end.

(** [for (p = pool->now; p->d.next; p = p->d.next) if (p->d.failed++ > 4) ...] *)
Fixpoint count_failed (fuel : nat) (pool p : Z) : M memory Z :=
  match fuel with
  | O => out_of_fuel
  | S fuel' =>
      d <- load data p ;;
      if next d =? 0 then ret p
      else
        put_data p (with_failed (wrap32 (failed d + 1)) d) ;;;
        (if 4 <? failed d then
           h <- load head pool ;;
           put_head pool (with_now (next d) h)
         else ret tt) ;;;
        count_failed fuel' pool (next d)
  end.

Definition httpd_palloc_block (pool size : Z) : M memory Z :=
  d <- load data pool ;;
  let psize := wrap64 (dend d - pool) in
  m <- httpd_memalign 16 psize ;;
  if m =? 0 then ret 0
  else
    let new := m in
    let m := httpd_align_ptr (wrap64 (new + SIZEOF_POOL_DATA)) HTTPD_ALIGNMENT in
    put_data new (PoolData (wrap64 (m + size)) (wrap64 (new + psize)) 0 0) ;;;
    h <- load head pool ;;
    fuel <- nodes data ;;
    p <- count_failed fuel pool (now h) ;;
    d <- load data p ;;
    put_data p (with_next new d) ;;;
    ret m.

Definition httpd_palloc_small (pool size : Z) (align : bool) : M memory Z :=
  h <- load head pool ;;
  fuel <- nodes data ;;
  r <- find_room fuel (now h) size align ;;
  match r with
  | Some m => ret m
  | None => httpd_palloc_block pool size
  end.

(** The search for an emptied slot among the first nodes; [n++ > 3] leaves. *)
Fixpoint reuse_slot (fuel : nat) (n l p : Z) : M memory bool :=
  match fuel with
  | O => out_of_fuel
  | S fuel' =>
      if l =? 0 then ret false
      else
        v <- load larges l ;;
        if alloc v =? 0 then put_large l (PoolLarge (l_next v) p) ;;; ret true
        else if 3 <? n then ret false
        else reuse_slot fuel' (n + 1) (l_next v) p
  end.

(** The tail [httpd_palloc_large] and [httpd_pmemalign] share. *)
Definition add_slot (pool p : Z) : M memory Z :=
  l <- httpd_palloc_small pool SIZEOF_LARGE true ;;
  if l =? 0 then httpd_free p ;;; ret 0
  else
    h <- load head pool ;;
    put_large l (PoolLarge (large h) p) ;;;
    put_head pool (with_large l h) ;;;
    ret p.

Definition httpd_palloc_large (pool size : Z) : M memory Z :=
  p <- httpd_alloc size ;;
  if p =? 0 then ret 0
  else
    h <- load head pool ;;
    b <- reuse_slot 6 0 (large h) p ;;
    if (b : bool) then ret p else add_slot pool p.

Definition httpd_palloc (pool size : Z) : M memory Z :=
  h <- load head pool ;;
  if size <=? max h then httpd_palloc_small pool size true else httpd_palloc_large pool size.
Definition httpd_pnalloc (pool size : Z) : M memory Z :=
  h <- load head pool ;;
  if size <=? max h then httpd_palloc_small pool size false else httpd_palloc_large pool size.

Definition httpd_pmemalign (pool size alignment : Z) : M memory Z :=
  p <- httpd_memalign alignment size ;;
  if p =? 0 then ret 0 else add_slot pool p.

Fixpoint pfree_from (fuel : nat) (l p : Z) : M memory Z :=
  match fuel with
  | O => out_of_fuel
  | S fuel' =>
      if l =? 0 then ret ESRCH
      else
        v <- load larges l ;;
        if p =? alloc v then
          httpd_free (alloc v) ;;; put_large l (PoolLarge (l_next v) 0) ;;; ret 0
        else pfree_from fuel' (l_next v) p
  end.
Definition httpd_pfree (pool p : Z) : M memory Z :=
  h <- load head pool ;;
  fuel <- nodes larges ;;
  pfree_from fuel (large h) p.

Definition httpd_pcalloc (pool size : Z) : M memory Z :=
  p <- httpd_palloc pool size ;;
  if p =? 0 then ret p else httpd_memzero p size ;;; ret p.

Definition httpd_pool_cleanup_add (pool size : Z) : M memory Z :=
  c <- httpd_palloc pool SIZEOF_CLEANUP ;;
  if c =? 0 then ret 0
  else
    d <- (if size =? 0 then ret 0 else httpd_palloc pool size) ;;
    if negb (size =? 0) && (d =? 0) then ret 0
    else
      h <- load head pool ;;
      put_cleanup c (PoolCleanup 0 d (cleanup h)) ;;;
      put_head pool (with_cleanup c h) ;;;
      ret c.

Fixpoint run_cleanups (fuel : nat) (c : Z) : M memory unit :=
  match fuel with
  | O => out_of_fuel
  | S fuel' =>
      if c =? 0 then ret tt
      else
        v <- load cleanups c ;;
        (if handler v =? 0 then ret tt
         else modify (fun s => set_handled (handled s ++ [(handler v, c_data v)]) s) ;;;
              on_env (call_handler (handler v) (c_data v))) ;;;
        v' <- load cleanups c ;;
        run_cleanups fuel' (c_next v')
  end.

Fixpoint free_larges (fuel : nat) (l : Z) : M memory unit :=
  match fuel with
  | O => out_of_fuel
  | S fuel' =>
      if l =? 0 then ret tt
      else
        v <- load larges l ;;
        (if alloc v =? 0 then ret tt else httpd_free (alloc v)) ;;;
        v' <- load larges l ;;
        free_larges fuel' (l_next v')
  end.

(** [for (p = pool, n = pool->d.next; ; p = n, n = n->d.next)] *)
Fixpoint free_blocks (fuel : nat) (p n : Z) : M memory unit :=
  match fuel with
  | O => out_of_fuel
  | S fuel' =>
      httpd_free p ;;;
      if n =? 0 then ret tt
      else d <- load data n ;; free_blocks fuel' n (next d)
  end.

Definition httpd_destroy_pool (pool : Z) : M memory unit :=
  h <- load head pool ;;
  fuel <- nodes cleanups ;;
  run_cleanups fuel (cleanup h) ;;;
  h <- load head pool ;;
  fuel <- nodes larges ;;
  free_larges fuel (large h) ;;;
  d <- load data pool ;;
  fuel <- nodes data ;;
  free_blocks fuel pool (next d).

Fixpoint reset_blocks (fuel : nat) (p : Z) : M memory unit :=
  match fuel with
  | O => out_of_fuel
  | S fuel' =>
      if p =? 0 then ret tt
      else
        d <- load data p ;;
        put_data p (PoolData (wrap64 (p + SIZEOF_POOL)) (dend d) (next d) 0) ;;;
        reset_blocks fuel' (next d)
  end.
Definition httpd_reset_pool (pool : Z) : M memory unit :=
  h <- load head pool ;;
  fuel <- nodes larges ;;
  free_larges fuel (large h) ;;;
  fuel <- nodes data ;;
  reset_blocks fuel pool ;;;
  h <- load head pool ;;
  put_head pool (PoolHead (max h) pool 0 0 (cleanup h)).
End palloc.
Arguments memory H : clear implicits.
Arguments Memory {H}.

(** ** Linked structures in a map *)
Section mseg.
Context {V : Type} (nx : V -> Z).
Implicit Types (m : gmap Z V) (l : list (Z * V)).

Fixpoint mseg m (p : Z) l : Prop :=
  match l with
  | [] => p = 0
  | (a, v) :: l' => p = a /\ a <> 0 /\ m !! a = Some v /\ mseg m (nx v) l'
  end.

Lemma mseg_nil m p l : mseg m p l -> p = 0 -> l = [].
Proof. destruct l as [|[a v] l]; [done|]. intros (-> & Ha & _) ->. done. Qed.

Lemma mseg_cons m p l : mseg m p l -> p <> 0 -> exists v l', l = (p, v) :: l' /\ m !! p = Some v /\ mseg m (nx v) l'.
Proof. destruct l as [|[a v] l]; [done|]. intros (-> & Ha & Hv & Hl) _. eauto. Qed.

Lemma mseg_det m l1 : forall p l2, mseg m p l1 -> mseg m p l2 -> l1 = l2.
Proof.
  induction l1 as [|[a v] l1 IH]; intros p [|[b w] l2]; cbn; [done|naive_solver..|].
  intros (-> & _ & Hv & H1) (<- & _ & Hw & H2). simplify_eq. f_equal. by eapply IH.
Qed.

Lemma mseg_suffix m p l1 a v l2 : mseg m p (l1 ++ (a, v) :: l2) -> mseg m a ((a, v) :: l2).
Proof. revert p. induction l1 as [|[b w] l1 IH]; intros p; cbn; [naive_solver|]. intros (_ & _ & _ & Hl). by eapply IH. Qed.

Lemma mseg_lookup m p l a v : mseg m p l -> (a, v) ∈ l -> m !! a = Some v.
Proof. intros Hl (l1 & l2 & ->)%list_elem_of_split. apply mseg_suffix in Hl. apply Hl. Qed.

Lemma mseg_nonzero m p l : mseg m p l -> 0 ∉ l.*1.
Proof.
  revert p. induction l as [|[a v] l IH]; intros p; [set_solver|]. intros (-> & Ha & _ & Hl).
  cbn. apply IH in Hl. set_solver.
Qed.

(** A chain that ends has no repetition. *)
Lemma mseg_nodup m p l : mseg m p l -> NoDup l.*1.
Proof.
  revert p. induction l as [|[a v] l IH]; intros p Hl; cbn; [constructor|].
  destruct Hl as (-> & Ha & Hv & Hl). constructor; [|by eapply IH].
  intros ([b w] & Heq & (l1 & l2 & ->)%list_elem_of_split)%list_elem_of_fmap. cbn in Heq. subst b.
  pose proof (mseg_suffix _ _ _ _ _ _ Hl) as Hs.
  assert (m !! a = Some w) as Hw by apply Hs. simplify_eq.
  destruct Hs as (_ & _ & _ & Hs). pose proof (mseg_det _ _ _ _ Hl Hs) as Heq.
  apply (f_equal length) in Heq. rewrite length_app in Heq. cbn in Heq. lia.
Qed.

Lemma mseg_frame m m' p l : (forall a, a ∈ l.*1 -> m' !! a = m !! a) -> mseg m p l -> mseg m' p l.
Proof.
  revert p. induction l as [|[a v] l IH]; intros p Hfr; cbn; [done|].
  intros (-> & Ha & Hv & Hl). split; [done|]. split; [done|]. split.
  - rewrite Hfr; [done|cbn; set_solver].
  - apply IH; [|done]. intros b Hb. apply Hfr. cbn. set_solver.
Qed.

Lemma mseg_insert m p l a v : a ∉ l.*1 -> mseg m p l -> mseg (<[a := v]> m) p l.
Proof. intros Ha. apply mseg_frame. intros b Hb. apply lookup_insert_ne. set_solver. Qed.

Lemma mseg_delete m p l a : a ∉ l.*1 -> mseg m p l -> mseg (delete a m) p l.
Proof. intros Ha. apply mseg_frame. intros b Hb. apply lookup_delete_ne. set_solver. Qed.

(** A new value with the same link. *)
Lemma mseg_update m p l1 a v w l2 :
  nx w = nx v -> mseg m p (l1 ++ (a, v) :: l2) -> mseg (<[a := w]> m) p (l1 ++ (a, w) :: l2).
Proof.
  intros Hn Hl. pose proof (mseg_nodup _ _ _ Hl) as Hnd. revert p Hl Hnd.
  induction l1 as [|[b u] l1 IH]; intros p; cbn.
  - intros (-> & Ha & Hv & Hl) [Hnin _]%list.NoDup_cons. rewrite lookup_insert_eq, Hn.
    split_and!; [done..|]. by apply mseg_insert.
  - intros (-> & Hb & Hu & Hl) [Hnin Hnd]%list.NoDup_cons.
    rewrite lookup_insert_ne by (intros ->; apply Hnin; rewrite fmap_app; set_solver).
    split_and!; [done..|]. by apply IH.
Qed.

(** A new last node. *)
Lemma mseg_snoc m p l a v w b u :
  b <> 0 -> b ∉ (l ++ [(a, v)]).*1 -> nx w = b -> nx u = 0 ->
  mseg m p (l ++ [(a, v)]) -> m !! b = Some u -> mseg (<[a := w]> m) p (l ++ [(a, w); (b, u)]).
Proof.
  intros Hb0 Hb Hw Hu Hl. pose proof (mseg_nodup _ _ _ Hl) as Hnd. revert p Hl Hnd Hb.
  induction l as [|[c x] l IH]; intros p; cbn.
  - intros (-> & Ha & Hv & Hl) _ Hb Hmb. rewrite lookup_insert_eq, lookup_insert_ne by set_solver.
    by split_and!.
  - intros (-> & Hc & Hx & Hl) [Hnin Hnd]%list.NoDup_cons Hb Hmb.
    rewrite lookup_insert_ne by (intros ->; apply Hnin; rewrite fmap_app; set_solver).
    split_and!; [done..|]. apply IH; [done..| |done]. cbn in Hb. by apply not_elem_of_cons in Hb as [_ Hb].
Qed.

Lemma mseg_length m p l : mseg m p l -> (length l <= size m)%nat.
Proof.
  intros Hl. pose proof (mseg_nodup _ _ _ Hl) as Hnd.
  rewrite <- (length_fmap fst), <- (size_list_to_set (C := gset Z)) by exact Hnd.
  rewrite <- (size_dom m). apply subseteq_size. intros a Ha%elem_of_list_to_set.
  apply list_elem_of_fmap in Ha as ([b v] & -> & Hin). apply elem_of_dom. eexists. by eapply mseg_lookup.
Qed.
End mseg.

(** ** Ranges of bytes *)
Definition disj (c c' : Z * Z) : Prop := c.1 + c.2 <= c'.1 \/ c'.1 + c'.2 <= c.1.

Fixpoint apart (l : list (Z * Z)) : Prop :=
  match l with [] => True | c :: l' => Forall (disj c) l' /\ apart l' end.

Lemma align8 p : 0 <= p -> p + 7 < 2 ^ 64 ->
  p <= httpd_align_ptr p HTTPD_ALIGNMENT < p + 8 /\ httpd_align_ptr p HTTPD_ALIGNMENT mod 8 = 0.
Proof.
  intros Hp Hp'. assert (httpd_align_ptr p HTTPD_ALIGNMENT = p + 7 - (p + 7) mod 8) as ->.
  { unfold httpd_align_ptr, HTTPD_ALIGNMENT. rewrite wrap64_small by lia. apply (land_high (p + 7) 3); lia. }
  pose proof (Z.mod_pos_bound (p + 7) 8). split; [lia|].
  rewrite Zminus_mod_idemp_r, Z.sub_diag. done.
Qed.

Lemma align8_below p e : 0 <= p <= e -> e < 2 ^ 64 -> e mod 8 = 0 ->
  p <= httpd_align_ptr p HTTPD_ALIGNMENT <= e /\ httpd_align_ptr p HTTPD_ALIGNMENT mod 8 = 0.
Proof.
  intros Hp He He8. pose proof (Z.div_mod e 8 ltac:(lia)).
  assert (e <= 2 ^ 64 - 8). { assert (e / 8 < 2 ^ 61) by (apply Z.div_lt_upper_bound; lia). lia. }
  destruct (align8 p) as [Ha Ha8]; [lia..|]. split; [|done].
  pose proof (Z.div_mod (httpd_align_ptr p HTTPD_ALIGNMENT) 8 ltac:(lia)). lia.
Qed.

(** ** What the kernel's [yaos_malloc] promises *)
Class MallocLaws (H : Type) `{!Malloc H} := {
  areas : H -> gmap Z Z;
  sound : H -> Prop;
  area_ok h a n : sound h -> areas h !! a = Some n -> 0 < a /\ a mod 8 = 0 /\ 0 < n /\ a + n < 2 ^ 64;
  areas_disj h a n b m : sound h -> areas h !! a = Some n -> areas h !! b = Some m -> a <> b -> disj (a, n) (b, m);
  malloc_ok h n : sound h -> 0 < n < 2 ^ 64 -> wp (yaos_malloc n) h (fun a h' => sound h' /\
    (a = 0 /\ areas h' = areas h \/ a <> 0 /\ areas h !! a = None /\ areas h' = <[a := n]> (areas h)));
  mfree_ok h a n : sound h -> areas h !! a = Some n ->
    wp (yaos_mfree a) h (fun _ h' => sound h' /\ areas h' = delete a (areas h));
  handler_ok f d h : sound h -> wp (call_handler f d) h (fun _ h' => sound h' /\ areas h' = areas h)
}.

(** ** The invariant of a pool *)

(** The blocks, the nodes of the large areas and the cleanup records in the
    order of their links, and the ranges handed out of the blocks. *)
Record ghost := Ghost {
  blocks : list (Z * pool_data);
  slots : list (Z * pool_large);
  records : list (Z * pool_cleanup);
  given : list (Z * Z)
}.
Definition held (sl : list (Z * pool_large)) : list Z := filter (fun a => a <> 0) (alloc <$> sl.*2).
(** The addresses of the areas a pool owns. *)
Definition own (g : ghost) : list Z := (blocks g).*1 ++ held (slots g).
Definition block_start (P b : Z) : Z := b + (if decide (b = P) then SIZEOF_POOL else SIZEOF_POOL_DATA).

Record block_ok (ar : gmap Z Z) (P psize : Z) (x : Z * pool_data) : Prop := {
  bo_area : ar !! x.1 = Some psize;
  bo_end : dend x.2 = x.1 + psize;
  bo_last : block_start P x.1 <= last x.2 <= dend x.2
}.
Definition inside (P : Z) (bl : list (Z * pool_data)) (c : Z * Z) : Prop :=
  0 <= c.2 /\ exists b d, (b, d) ∈ bl /\ block_start P b <= c.1 /\ c.1 + c.2 <= last d.

Record head_ok {H} (s : memory H) (psize : Z) (g : ghost) (h : pool_head) : Prop := {
  ho_max : max h = Z.min (psize - SIZEOF_POOL) HTTPD_MAX_ALLOC_FROM_POOL;
  ho_now : now h ∈ (blocks g).*1;
  ho_large : mseg l_next (larges s) (large h) (slots g);
  ho_cleanup : mseg c_next (cleanups s) (cleanup h) (records g)
}.

Section proofs.
Context {H : Type} `{!Malloc H} `{!MallocLaws H}.
Implicit Types (s : memory H) (g : ghost) (R : gmap Z Z).

(** The pool at [P] with blocks of [psize] bytes; [R] is what the allocator has
    handed out to everybody else. *)
Record pool_ok (P psize : Z) R s g : Prop := {
  po_sound : sound (env s);
  po_size : HTTPD_MIN_POOL_SIZE <= psize /\ psize mod 8 = 0;
  po_data : mseg next (data s) P (blocks g);
  po_block : Forall (block_ok (areas (env s)) P psize) (blocks g);
  po_head : exists h, head s !! P = Some h /\ head_ok s psize g h;
  po_held : NoDup (own g) /\ Forall (fun a => is_Some (areas (env s) !! a)) (held (slots g));
  po_rest a : (a ∉ own g -> areas (env s) !! a = R !! a) /\ (a ∈ own g -> R !! a = None);
  po_nodes : Forall (fun l => (l, SIZEOF_LARGE) ∈ given g) (slots g).*1 /\
             Forall (fun c => (c, SIZEOF_CLEANUP) ∈ given g) (records g).*1;
  po_given : Forall (inside P (blocks g)) (given g) /\ apart (given g)
}.

Lemma wp_load_at {V} (f : memory H -> gmap Z V) p v s Q : f s !! p = Some v -> Q v s -> wp (load f p) s Q.
Proof. unfold wp, load. by intros ->. Qed.

Lemma pool_first P psize R s g : pool_ok P psize R s g -> exists d bl, blocks g = (P, d) :: bl /\ data s !! P = Some d.
Proof.
  intros Hok. destruct (po_head _ _ _ _ _ Hok) as (h & _ & Hh). pose proof (ho_now _ _ _ _ Hh) as Hn.
  pose proof (po_data _ _ _ _ _ Hok) as Hl. destruct (blocks g) as [|[a d] bl]; [by inversion Hn|].
  destruct Hl as (-> & _ & Hd & _). eauto.
Qed.

Lemma block_bounds P psize R s g b d : pool_ok P psize R s g -> (b, d) ∈ blocks g ->
  0 < b /\ b mod 8 = 0 /\ b + psize < 2 ^ 64 /\ dend d = b + psize /\ block_start P b <= last d <= dend d /\
  b + 32 <= block_start P b /\ dend d mod 8 = 0.
Proof.
  intros Hok Hin. pose proof (proj1 (list.Forall_forall _ _) (po_block _ _ _ _ _ Hok) _ Hin) as [Ha He Hl]. cbn in *.
  destruct (area_ok _ _ _ (po_sound _ _ _ _ _ Hok) Ha) as (? & ? & ? & ?).
  assert (b + 32 <= block_start P b) by (unfold block_start, SIZEOF_POOL, SIZEOF_POOL_DATA; case_decide; lia).
  split_and!; try done; [lia..|]. rewrite He, Z.add_mod by lia.
  destruct (po_size _ _ _ _ _ Hok) as [_ ->]. rewrite Z.add_0_r, Z.mod_mod by lia. done.
Qed.

(** Two ranges in different blocks do not meet. *)
Lemma blocks_disj P psize R s g b d b' d' : pool_ok P psize R s g ->
  (b, d) ∈ blocks g -> (b', d') ∈ blocks g -> b <> b' -> b + psize <= b' \/ b' + psize <= b.
Proof.
  intros Hok Hb Hb' Hne.
  pose proof (proj1 (list.Forall_forall _ _) (po_block _ _ _ _ _ Hok) _ Hb) as [Ha _ _].
  pose proof (proj1 (list.Forall_forall _ _) (po_block _ _ _ _ _ Hok) _ Hb') as [Ha' _ _].
  exact (areas_disj _ _ _ _ _ (po_sound _ _ _ _ _ Hok) Ha Ha' Hne).
Qed.

(** ** Updates that keep the invariant *)

Lemma inside_grow P bl1 b d d' bl2 c : last d <= last d' ->
  inside P (bl1 ++ (b, d) :: bl2) c -> inside P (bl1 ++ (b, d') :: bl2) c.
Proof.
  intros Hl (Hc & b0 & d0 & Hin & H1 & H2). split; [done|].
  apply elem_of_app in Hin as [Hin|[[= -> ->]|Hin]%elem_of_cons].
  - exists b0, d0. split; [set_solver|done].
  - exists b, d'. split; [set_solver|]. split; [done|lia].
  - exists b0, d0. split; [set_solver|done].
Qed.

(** A block whose fill level grows or whose failure count changes. *)
Lemma pool_ok_block P psize R s bl1 b d d' bl2 sl cl gv :
  pool_ok P psize R s (Ghost (bl1 ++ (b, d) :: bl2) sl cl gv) ->
  next d' = next d -> dend d' = dend d -> last d <= last d' <= dend d ->
  pool_ok P psize R (set_data (<[b := d']> (data s)) s) (Ghost (bl1 ++ (b, d') :: bl2) sl cl gv).
Proof.
  intros [Hs Hz Hd Hb (h & Hh & [Hm Hn Hl Hc]) Hheld Hrest Hnodes [Hg Ha]] Hnext Hend Hlast.
  unfold own in *. cbn [blocks slots records given] in *.
  assert ((bl1 ++ (b, d') :: bl2).*1 = (bl1 ++ (b, d) :: bl2).*1) as Hfst by by rewrite !fmap_app.
  split; cbn [env data larges cleanups head set_data blocks slots records given]; unfold own;
    cbn [blocks slots]; rewrite ?Hfst; try done.
  - by eapply mseg_update.
  - apply list.Forall_app in Hb as [Hb1 [[Hb2 Hb3 Hb4] Hb5]%list.Forall_cons]. cbn in *.
    apply list.Forall_app. split; [done|]. constructor; [|done]. split; cbn; [done|lia|lia].
  - exists h. split; [done|]. split; cbn [blocks slots records larges cleanups]; rewrite ?Hfst; done.
  - split; [|done]. eapply list.Forall_impl; [exact Hg|]. intros c. apply inside_grow. lia.
Qed.

Lemma pool_ok_head P psize R s g h h' :
  pool_ok P psize R s g -> head s !! P = Some h -> max h' = max h -> now h' ∈ (blocks g).*1 ->
  large h' = large h -> cleanup h' = cleanup h -> pool_ok P psize R (set_head (<[P := h']> (head s)) s) g.
Proof.
  intros [Hs Hz Hd Hb (h0 & Hh & [Hm Hn Hl Hc]) Hheld Hrest Hnodes Hg] Hh' Em En El Ec. simplify_eq.
  split; try done. exists h'. cbn. rewrite lookup_insert_eq. split; [done|].
  split; cbn; [congruence|done|by rewrite El|by rewrite Ec].
Qed.

(** A range above a fill level meets nothing handed out. *)
Lemma carve_disj P psize R s bl1 b d bl2 sl cl gv m n :
  pool_ok P psize R s (Ghost (bl1 ++ (b, d) :: bl2) sl cl gv) ->
  last d <= m -> 0 <= n -> m + n <= dend d -> Forall (disj (m, n)) gv.
Proof.
  intros Hok Hm Hn He. apply list.Forall_forall. intros [m' n'] Hin.
  destruct (po_given _ _ _ _ _ Hok) as [Hg _].
  apply (proj1 (list.Forall_forall _ _) Hg) in Hin as (Hn' & b' & d' & Hin' & H1 & H2). cbn in *.
  assert ((b, d) ∈ bl1 ++ (b, d) :: bl2) as Hinb by set_solver.
  pose proof (block_bounds _ _ _ _ _ b d Hok Hinb). pose proof (block_bounds _ _ _ _ _ b' d' Hok Hin').
  destruct (decide (b = b')) as [<-|Hne].
  - pose proof (mseg_lookup _ _ _ _ _ _ (po_data _ _ _ _ _ Hok) Hinb).
    pose proof (mseg_lookup _ _ _ _ _ _ (po_data _ _ _ _ _ Hok) Hin'). simplify_eq. right. cbn. lia.
  - destruct (blocks_disj _ _ _ _ _ _ _ _ _ Hok Hinb Hin' Hne); [left|right]; cbn; lia.
Qed.

Lemma carve_range_ok P psize R s bl1 b d bl2 sl cl gv m n :
  pool_ok P psize R s (Ghost (bl1 ++ (b, d) :: bl2) sl cl gv) ->
  last d <= m -> 0 <= n -> m + n <= dend d ->
  pool_ok P psize R (set_data (<[b := with_last (m + n) d]> (data s)) s)
    (Ghost (bl1 ++ (b, with_last (m + n) d) :: bl2) sl cl ((m, n) :: gv)).
Proof.
  intros Hok Hm Hn He. pose proof (carve_disj _ _ _ _ _ _ _ _ _ _ _ _ _ Hok Hm Hn He) as Hdisj.
  pose proof (block_bounds _ _ _ _ _ b d Hok ltac:(cbn; set_solver)) as Hbb.
  assert (pool_ok P psize R (set_data (<[b := with_last (m + n) d]> (data s)) s)
    (Ghost (bl1 ++ (b, with_last (m + n) d) :: bl2) sl cl gv)) as [Hs Hz Hd Hb Hh Hheld Hrest [Hn1 Hn2] [Hg Ha]].
  { eapply pool_ok_block; [exact Hok|done|done|]. cbn. lia. }
  cbn [blocks slots records given] in *.
  split; try done; cbn [blocks slots records given].
  - destruct Hh as (h & Hh & []). by exists h.
  - split; (eapply list.Forall_impl; [eassumption|]; set_solver).
  - split; [|done]. constructor; [|done]. split; [done|]. exists b, (with_last (m + n) d). cbn.
    split; [set_solver|]. split; [lia|lia].
Qed.

Lemma give_ok P psize R s bl sl cl gv c :
  pool_ok P psize R s (Ghost bl sl cl gv) -> inside P bl c -> Forall (disj c) gv ->
  pool_ok P psize R s (Ghost bl sl cl (c :: gv)).
Proof.
  intros [Hs Hz Hd Hb (h & Hh & []) Hheld Hrest [Hn1 Hn2] [Hg Ha]] Hin Hdisj. cbn [blocks slots records given] in *.
  split; try done; cbn [blocks slots records given].
  - by exists h.
  - split; (eapply list.Forall_impl; [eassumption|]; set_solver).
  - split; [by constructor|by split].
Qed.

(** The allocator runs; what the pool owns is left alone. *)
Lemma pool_ok_env P psize R R' s g h :
  pool_ok P psize R s g -> sound h ->
  (forall a, a ∈ own g -> areas h !! a = areas (env s) !! a /\ R' !! a = None) ->
  (forall a, a ∉ own g -> areas h !! a = R' !! a) -> pool_ok P psize R' (set_env h s) g.
Proof.
  intros [Hs Hz Hd Hb (h0 & Hh & []) [Hnd Hheld] Hrest Hnodes Hg] Hsd Hown Hother.
  split; try done; cbn [env set_env].
  - apply list.Forall_forall. intros x Hx. pose proof (proj1 (list.Forall_forall _ _) Hb x Hx) as [].
    split; [|done..]. rewrite (proj1 (Hown x.1 ltac:(apply elem_of_app; left; apply list_elem_of_fmap_2; done))). done.
  - by exists h0.
  - split; [done|]. apply list.Forall_forall. intros a Ha. rewrite (proj1 (Hown a ltac:(apply elem_of_app; by right))).
    exact (proj1 (list.Forall_forall _ _) Hheld a Ha).
  - intros a. split; [apply Hother|apply Hown].
Qed.

Lemma malloc_step P psize R s g n : pool_ok P psize R s g -> 0 < n < 2 ^ 64 ->
  wp (on_env (yaos_malloc n)) s (fun a s' => s' = set_env (env s') s /\
    (a = 0 /\ pool_ok P psize R s' g \/
     0 < a /\ a mod 8 = 0 /\ a + n < 2 ^ 64 /\ areas (env s') !! a = Some n /\ R !! a = None /\ (a ∉ own g) /\
     pool_ok P psize (<[a := n]> R) s' g)).
Proof.
  intros Hok Hn. unfold on_env. wp_steps.
  eapply wp_mono; [by apply (malloc_ok _ n (po_sound _ _ _ _ _ Hok))|].
  intros a h' (Hs & [[-> Ha]|(Ha0 & Hno & Ha)]); split; [done|left|done|right].
  - split; [done|]. eapply pool_ok_env; [exact Hok|done| |]; intros a Hin; rewrite Ha.
    + split; [done|by apply (po_rest _ _ _ _ _ Hok)].
    + by apply (po_rest _ _ _ _ _ Hok).
  - assert (areas h' !! a = Some n) as Hin by (rewrite Ha; apply lookup_insert_eq).
    destruct (area_ok _ _ _ Hs Hin) as (? & ? & _ & ?).
    assert (a ∉ own g) as Hown.
    { intros Hin'. assert (is_Some (areas (env s) !! a)) as [? Hx]; [|congruence].
      apply elem_of_app in Hin' as [([b d] & -> & Hb)%list_elem_of_fmap|Hb].
      - pose proof (proj1 (list.Forall_forall _ _) (po_block _ _ _ _ _ Hok) _ Hb) as []. eauto.
      - exact (proj1 (list.Forall_forall _ _) (proj2 (po_held _ _ _ _ _ Hok)) _ Hb). }
    split_and!; try done. { rewrite <- (proj1 (po_rest _ _ _ _ _ Hok a)); done. }
    eapply pool_ok_env; [exact Hok|done| |]; intros b Hb; rewrite ?Ha.
    + rewrite !lookup_insert_ne by (intros ->; done). split; [done|by apply (po_rest _ _ _ _ _ Hok)].
    + destruct (decide (a = b)) as [->|]; [by rewrite !lookup_insert_eq|].
      rewrite !lookup_insert_ne by done. by apply (po_rest _ _ _ _ _ Hok).
Qed.

(** ** [httpd_palloc_small] *)
Lemma find_room_ok P psize R s g n al : pool_ok P psize R s g -> 0 <= n < 2 ^ 64 ->
  forall l2 fuel p l1, blocks g = l1 ++ l2 -> p <> 0 -> mseg next (data s) p l2 -> (length l2 <= fuel)%nat ->
  wp (find_room fuel p n al) s (fun r s' => match r with
    | None => s' = s
    | Some m => exists bl1 b d bl2, blocks g = bl1 ++ (b, d) :: bl2 /\ last d <= m /\ m + n <= dend d /\
        (al = true -> m mod 8 = 0) /\ s' = set_data (<[b := with_last (m + n) d]> (data s)) s
    end).
Proof.
  intros Hok Hn. induction l2 as [|[b d] l2 IH]; intros fuel p l1 Hbl Hp Hl Hf; [done|].
  destruct Hl as (-> & _ & Hd & Hl). destruct fuel as [|fuel]; [cbn in Hf; lia|]. cbn [find_room]. wp_steps.
  eapply wp_load_at; [exact Hd|].
  pose proof (block_bounds _ _ _ _ _ b d Hok ltac:(rewrite Hbl; set_solver)) as (Hb & _ & He & Hend & Hlast & Hst & H8).
  set (m := if al then httpd_align_ptr (last d) HTTPD_ALIGNMENT else last d).
  assert (last d <= m <= dend d /\ (al = true -> m mod 8 = 0)) as [Hm Hm8].
  { unfold m. destruct al; [|split; [lia|done]].
    destruct (align8_below (last d) (dend d)) as [? ?]; [lia..|done|]. by split. }
  rewrite wrap64_small by lia. destruct (Z.leb_spec n (dend d - m)) as [Hfit|_].
  - rewrite wrap64_small by lia. unfold put_data. wp_steps.
    exists l1, b, d, l2. split_and!; [done|lia|lia|done|done].
  - destruct (Z.eqb_spec (next d) 0) as [|Hnext]; [by wp_steps|].
    apply (IH fuel (next d) (l1 ++ [(b, d)])); [by rewrite Hbl, <- (assoc_L app)|done|done|cbn in Hf; lia].
Qed.

Lemma pool_ok_data_ne P psize R s g a d :
  pool_ok P psize R s g -> a ∉ (blocks g).*1 -> pool_ok P psize R (set_data (<[a := d]> (data s)) s) g.
Proof.
  intros [Hs Hz Hd Hb (h & Hh & []) Hheld Hrest Hnodes Hg] Ha.
  split; try done; [by apply mseg_insert|by exists h].
Qed.

Lemma count_failed_ok P psize R sl cl gv : forall l2 fuel p l1 s,
  pool_ok P psize R s (Ghost (l1 ++ l2) sl cl gv) -> p <> 0 -> mseg next (data s) p l2 -> (length l2 <= fuel)%nat ->
  wp (count_failed fuel P p) s (fun q s' => exists bl d, pool_ok P psize R s' (Ghost (bl ++ [(q, d)]) sl cl gv) /\
    (bl ++ [(q, d)]).*1 = (l1 ++ l2).*1 /\ env s' = env s /\
    forall a, a ∉ (l1 ++ l2).*1 -> data s' !! a = data s !! a).
Proof.
  induction l2 as [|[b d] l2 IH]; intros fuel p l1 s Hok Hp Hl Hf; [done|].
  destruct Hl as (-> & _ & Hd & Hl). destruct fuel as [|fuel]; [cbn in Hf; lia|]. cbn [count_failed]. wp_steps.
  eapply wp_load_at; [exact Hd|]. destruct (Z.eqb_spec (next d) 0) as [H0|Hnext].
  { apply mseg_nil in Hl as ->; [|done]. wp_steps. by exists l1, d. }
  unfold put_data. wp_steps.
  assert ((b, d) ∈ l1 ++ (b, d) :: l2) as Hin by set_solver.
  pose proof (block_bounds _ _ _ _ _ b d Hok Hin) as (_ & _ & _ & _ & Hlast & _).
  set (d' := with_failed (wrap32 (failed d + 1)) d). set (s1 := set_data _ s).
  assert (pool_ok P psize R s1 (Ghost (l1 ++ (b, d') :: l2) sl cl gv)) as Hok1.
  { eapply pool_ok_block; [exact Hok|done|done|]. cbn. lia. }
  pose proof (mseg_nodup _ _ _ _ (po_data _ _ _ _ _ Hok1)) as Hnd. cbn [blocks] in Hnd.
  assert (mseg next (data s1) (next d) l2) as Hl1.
  { apply mseg_insert; [|done]. rewrite fmap_app in Hnd. apply list.NoDup_app in Hnd as (_ & _ & Hnd).
    by apply list.NoDup_cons in Hnd as [Hnd _]. }
  assert (forall s2, pool_ok P psize R s2 (Ghost (l1 ++ (b, d') :: l2) sl cl gv) -> data s2 = data s1 ->
    env s2 = env s1 -> wp (count_failed fuel P (next d)) s2 (fun q s' => exists bl dq,
      pool_ok P psize R s' (Ghost (bl ++ [(q, dq)]) sl cl gv) /\
      (bl ++ [(q, dq)]).*1 = (l1 ++ (b, d) :: l2).*1 /\ env s' = env s /\
      forall a, a ∉ (l1 ++ (b, d) :: l2).*1 -> data s' !! a = data s !! a)) as Hgo.
  { intros s2 Hok2 Hd2 He2. eapply wp_mono.
    { apply (IH fuel (next d) (l1 ++ [(b, d')])); [|done|by rewrite Hd2|cbn in Hf; lia].
      by rewrite <- (assoc_L app). }
    intros q s' (bl & dq & Hok' & Heq & He & Hfr). exists bl, dq.
    rewrite <- (assoc_L app) in Heq, Hfr. rewrite !fmap_app in *. cbn [fmap list_fmap app] in *.
    split_and!; [done|done|by rewrite He, He2|].
    intros a Ha. rewrite Hfr, Hd2 by done. apply lookup_insert_ne. intros ->. apply Ha. set_solver. }
  case_match; wp_steps; [|by apply Hgo].
  destruct (po_head _ _ _ _ _ Hok1) as (h & Hh & Hho). eapply wp_load_at; [exact Hh|]. unfold put_head. wp_steps.
  apply Hgo; [|done..]. eapply pool_ok_head; [exact Hok1|exact Hh|done| |done|done]. cbn.
  apply mseg_cons in Hl as (v & l' & -> & _); [|done]. rewrite fmap_app. set_solver.
Qed.

(** The new block at the end of the chain; its area leaves [R]. *)
Lemma link_block P psize R s bl q dq new D sl cl gv :
  pool_ok P psize (<[new := psize]> R) s (Ghost (bl ++ [(q, dq)]) sl cl gv) ->
  data s !! new = Some D -> next D = 0 -> dend D = new + psize -> block_start P new <= last D <= dend D ->
  0 < new -> areas (env s) !! new = Some psize -> R !! new = None ->
  new ∉ own (Ghost (bl ++ [(q, dq)]) sl cl gv) ->
  pool_ok P psize R (set_data (<[q := with_next new dq]> (data s)) s)
    (Ghost (bl ++ [(q, with_next new dq); (new, D)]) sl cl gv).
Proof.
  intros [Hs Hz Hd Hb (h & Hh & [Hm Hn Hl Hc]) [Hnd Hheld] Hrest Hnodes [Hg Ha]] HD HD0 HDe HDl Hnew Harea HR Hown.
  unfold own in *. cbn [blocks slots records given] in *.
  assert (forall x, x ∈ (bl ++ [(q, with_next new dq); (new, D)]).*1 ++ held sl <->
    x = new \/ x ∈ (bl ++ [(q, dq)]).*1 ++ held sl) as Hmem.
  { intros x. rewrite !fmap_app. cbn. rewrite !elem_of_app, !elem_of_cons. naive_solver. }
  assert ((bl ++ [(q, with_next new dq); (new, D)]).*1 = (bl ++ [(q, dq)]).*1 ++ [new]) as Hfst.
  { rewrite !fmap_app. cbn. by rewrite <- (assoc_L app). }
  split; cbn [env data larges cleanups head set_data blocks slots records given]; unfold own; cbn [blocks slots].
  - done.
  - done.
  - eapply mseg_snoc; [lia| |done|done|exact Hd|done]. intros Hin. apply Hown, elem_of_app. by left.
  - apply list.Forall_app in Hb as [Hb1 [[Hb2 Hb3 Hb4] _]%list.Forall_cons]. cbn in *.
    apply list.Forall_app. split; [done|]. repeat constructor; cbn; try done; lia.
  - exists h. split; [done|]. split; cbn [blocks slots records larges cleanups set_data]; try done.
    rewrite Hfst. apply elem_of_app. by left.
  - split; [|done]. rewrite Hfst, <- (assoc_L app). apply list.NoDup_app in Hnd as (Hnd1 & Hdis & Hnd2).
    apply list.NoDup_app. split; [done|]. split.
    + intros x Hx. cbn. rewrite elem_of_cons. intros [->|Hx']; [apply Hown, elem_of_app; by left|by eapply Hdis].
    + cbn. constructor; [|done]. intros Hx. apply Hown, elem_of_app. by right.
  - intros a. rewrite Hmem. destruct (Hrest a) as [Hr1 Hr2]. split.
    + intros Ha'. rewrite Hr1 by naive_solver. rewrite lookup_insert_ne; [done|naive_solver].
    + intros [->|Ha']; [done|]. apply Hr2 in Ha'. by apply lookup_insert_None in Ha' as [? _].
  - done.
  - split; [|done]. eapply list.Forall_impl; [exact Hg|]. intros c (Hc0 & b & d & Hin & H1 & H2).
    split; [done|]. apply elem_of_app in Hin as [Hin|Hin].
    + exists b, d. split; [set_solver|done].
    + apply list_elem_of_singleton in Hin as [= -> ->]. exists q, (with_next new dq). split; [set_solver|done].
Qed.

(** What a request to the blocks leaves: NULL, or a fresh range. *)
Definition small_post (P psize : Z) R g (n : Z) (al : bool) (r : Z) s' : Prop := exists g', pool_ok P psize R s' g' /\
  slots g' = slots g /\ records g' = records g /\
  (r = 0 /\ given g' = given g \/
   0 < r /\ r + n < 2 ^ 64 /\ (al = true -> r mod 8 = 0) /\ given g' = (r, n) :: given g /\ Forall (disj (r, n)) (given g)).

Lemma palloc_block_ok P psize R s g n al : pool_ok P psize R s g -> 0 <= n <= psize - SIZEOF_POOL_DATA ->
  wp (httpd_palloc_block P n) s (small_post P psize R g n al).
Proof.
  intros Hok Hn. destruct (pool_first _ _ _ _ _ Hok) as (d & bl & Hbl & Hd). unfold httpd_palloc_block. wp_steps.
  eapply wp_load_at; [exact Hd|].
  destruct (block_bounds _ _ _ _ _ P d Hok ltac:(rewrite Hbl; set_solver)) as (HP & _ & HPe & -> & _).
  pose proof (po_size _ _ _ _ _ Hok) as [Hz Hz8]. unfold HTTPD_MIN_POOL_SIZE, SIZEOF_POOL, SIZEOF_POOL_DATA in *.
  replace (P + psize - P) with psize by lia. rewrite (wrap64_small psize) by lia. unfold httpd_memalign. wp_steps.
  eapply wp_mono; [apply (malloc_step _ _ _ _ _ psize Hok); lia|].
  intros new s1 (Es1 & [[-> Hok1]|(Hnew & Hnew8 & Hlim & Harea & HR & Hown & Hok1)]).
  { wp_steps. exists g. split_and!; [done..|]. by left. }
  rewrite (proj2 (Z.eqb_neq new 0)) by lia.
  rewrite (wrap64_small (new + 32)) by lia.
  destruct (align8_below (new + 32) (new + psize)) as [_ Hal8].
  { lia. } { lia. } { rewrite Z.add_mod, Hnew8, Hz8 by lia. done. }
  assert (httpd_align_ptr (new + 32) HTTPD_ALIGNMENT = new + 32) as Hal.
  { destruct (align8_below (new + 32) (new + 32)) as [? _]; [lia|lia| |lia]. rewrite Z.add_mod, Hnew8 by lia. done. }
  rewrite Hal in *. rewrite !wrap64_small by lia. unfold put_data at 1. wp_steps.
  set (D := PoolData (new + 32 + n) (new + psize) 0 0). set (s2 := set_data _ s1).
  assert (new ∉ (blocks g).*1) as Hnb by (intros Hin; apply Hown, elem_of_app; by left).
  assert (pool_ok P psize (<[new := psize]> R) s2 g) as Hok2 by by apply pool_ok_data_ne.
  destruct (po_head _ _ _ _ _ Hok2) as (h & Hh & Hho). eapply wp_load_at; [exact Hh|]. unfold nodes. wp_steps.
  pose proof (ho_now _ _ _ _ Hho) as ([b db] & Hb & Hin)%list_elem_of_fmap. cbn in Hb.
  apply list_elem_of_split in Hin as (l1 & l2 & Hsplit).
  destruct g as [gbl sl cl gv]. cbn [blocks slots records given] in *.
  rewrite Hsplit in *. clear gbl Hsplit.
  pose proof (mseg_suffix _ _ _ _ _ _ _ (po_data _ _ _ _ _ Hok2)) as Hseg. cbn [blocks] in Hseg.
  eapply wp_mono.
  { eapply (count_failed_ok _ _ _ _ _ _ ((b, db) :: l2) _ _ l1); [exact Hok2| |by rewrite Hb|].
    - rewrite Hb. apply Hseg.
    - apply mseg_length in Hseg. lia. }
  intros q s3 (bl' & dq & Hok3 & Hfst & He3 & Hfr).
  assert (data s3 !! new = Some D) as HD by (rewrite Hfr by done; apply lookup_insert_eq).
  assert ((q, dq) ∈ bl' ++ [(q, dq)]) as Hq by set_solver.
  wp_steps. eapply wp_load_at; [exact (mseg_lookup _ _ _ _ _ _ (po_data _ _ _ _ _ Hok3) Hq)|].
  unfold put_data. wp_steps.
  assert (new <> P) as HnP by (intros ->; apply Hnb; rewrite Hbl; cbn; set_solver).
  assert (block_start P new = new + 32) as Hst by (unfold block_start; by rewrite decide_False).
  exists (Ghost (bl' ++ [(q, with_next new dq); (new, D)]) sl cl ((new + 32, n) :: gv)).
  pose proof (link_block P psize R s3 bl' q dq new D sl cl gv Hok3 HD) as Hok4.
  assert (pool_ok P psize R (set_data (<[q := with_next new dq]> (data s3)) s3)
    (Ghost (bl' ++ [(q, with_next new dq); (new, D)]) sl cl gv)) as Hok5.
  { apply Hok4; [done|done|rewrite Hst; cbn; lia|done| |done|].
    - rewrite He3. cbn. by rewrite Es1 in Harea |- *.
    - unfold own in *. cbn [blocks slots] in *. by rewrite Hfst. }
  assert (Forall (disj (new + 32, n)) gv) as Hdisj.
  { apply list.Forall_forall. intros [m' n'] Hm. pose proof (po_given _ _ _ _ _ Hok) as [Hg _]. cbn [given blocks] in Hg.
    apply (proj1 (list.Forall_forall _ _) Hg) in Hm as (_ & b' & d' & Hin' & H1 & H2). cbn in *.
    pose proof (block_bounds _ _ _ _ _ b' d' Hok Hin') as (? & ? & ? & Hde & ? & ? & _).
    pose proof (proj1 (list.Forall_forall _ _) (po_block _ _ _ _ _ Hok1) _ Hin') as [Ha' _ _]. cbn in Ha'.
    assert (new <> b') as Hne by (intros ->; apply Hnb; by apply (list_elem_of_fmap_2' fst _ (b', d'))).
    destruct (areas_disj _ _ _ _ _ (po_sound _ _ _ _ _ Hok1) Harea Ha' Hne); [left|right]; cbn in *; lia. }
  split; [|split; [done|split; [done|right]]].
  - apply give_ok; [exact Hok5| |done]. split; [cbn; lia|]. exists new, D. rewrite Hst. cbn. split; [set_solver|lia].
  - split_and!; [lia|lia|done|done|done].
Qed.

Lemma palloc_small_ok P psize R s g n al : pool_ok P psize R s g -> 0 <= n <= psize - SIZEOF_POOL_DATA ->
  wp (httpd_palloc_small P n al) s (small_post P psize R g n al).
Proof.
  intros Hok Hn. unfold httpd_palloc_small. wp_steps.
  destruct (po_head _ _ _ _ _ Hok) as (h & Hh & Hho). eapply wp_load_at; [exact Hh|]. unfold nodes. wp_steps.
  pose proof (ho_now _ _ _ _ Hho) as ([b db] & Hb & Hin)%list_elem_of_fmap. cbn in Hb.
  apply list_elem_of_split in Hin as (l1 & l2 & Hsplit).
  pose proof (po_data _ _ _ _ _ Hok) as Hseg. rewrite Hsplit in Hseg. apply mseg_suffix in Hseg.
  destruct (pool_first _ _ _ _ _ Hok) as (d0 & bl & Hbl & _).
  destruct (block_bounds _ _ _ _ _ P d0 Hok ltac:(rewrite Hbl; set_solver)) as (HP & _ & HPe & _).
  unfold SIZEOF_POOL_DATA in *.
  eapply wp_mono.
  { apply (find_room_ok _ _ _ _ _ n al Hok ltac:(lia) ((b, db) :: l2) _ _ l1); [done| |by rewrite Hb|].
    - rewrite Hb. apply Hseg.
    - apply mseg_length in Hseg. lia. }
  intros [m|] s'; [|intros ->; by apply palloc_block_ok].
  intros (bl1 & c & d & bl2 & Hg & Hm & Hme & Hm8 & ->). wp_steps.
  pose proof (block_bounds _ _ _ _ _ c d Hok ltac:(rewrite Hg; set_solver)) as (? & ? & ? & Hde & ? & ? & _).
  destruct g as [gbl sl cl gv]. cbn [blocks] in Hg. subst gbl.
  exists (Ghost (bl1 ++ (c, with_last (m + n) d) :: bl2) sl cl ((m, n) :: gv)). cbn [slots records given].
  split; [apply carve_range_ok; [done|lia..]|]. split; [done|]. split; [done|]. right.
  split_and!; [lia|lia|done|done|]. eapply carve_disj; [exact Hok|lia..].
Qed.

(** ** Large areas *)
Lemma held_cons l nx p (sl : list (Z * pool_large)) : p <> 0 -> held ((l, PoolLarge nx p) :: sl) = p :: held sl.
Proof. intros Hp. unfold held. cbn [fmap list_fmap snd alloc]. by rewrite filter_cons_True. Qed.

Lemma held_empty l nx (sl : list (Z * pool_large)) : held ((l, PoolLarge nx 0) :: sl) = held sl.
Proof. unfold held. cbn [fmap list_fmap snd alloc]. by rewrite filter_cons_False by (intros Hn; by apply Hn). Qed.

Lemma held_app (sl sl' : list (Z * pool_large)) : held (sl ++ sl') = held sl ++ held sl'.
Proof. unfold held. by rewrite !fmap_app, list.filter_app. Qed.

(** A list of slots that holds one area more, taken from [R]. *)
Lemma adopt P psize R s s' h bl sl sl' cl gv p n :
  pool_ok P psize (<[p := n]> R) s (Ghost bl sl cl gv) -> env s' = env s -> data s' = data s ->
  head s' !! P = Some h -> head_ok s' psize (Ghost bl sl' cl gv) h ->
  held sl' ≡ₚ p :: held sl -> Forall (fun l => (l, SIZEOF_LARGE) ∈ gv) sl'.*1 ->
  areas (env s) !! p = Some n -> R !! p = None -> p ∉ own (Ghost bl sl cl gv) ->
  pool_ok P psize R s' (Ghost bl sl' cl gv).
Proof.
  intros [Hs Hz Hd Hb _ [Hnd Hheld] Hrest [_ Hn2] Hg] He Hdat Hh Hho Hp Hn1 Harea HR Hown.
  unfold own in *. cbn [blocks slots records given] in *.
  split; unfold own; cbn [blocks slots records given]; rewrite ?He, ?Hdat; try done.
  - by exists h.
  - split; [|rewrite Hp; constructor; [by exists n|done]].
    apply (NoDup_Permutation_proper _ (p :: bl.*1 ++ held sl)).
    { rewrite Hp. symmetry. apply Permutation_middle. } by constructor.
  - intros a. rewrite Hp. rewrite elem_of_app, elem_of_cons in *. destruct (Hrest a) as [Hr1 Hr2]. split.
    + intros Ha. rewrite Hr1 by (rewrite elem_of_app; naive_solver). apply lookup_insert_ne. naive_solver.
    + intros [Ha|[->|Ha]]; [|done|]; apply (lookup_insert_None R p a n), Hr2; rewrite elem_of_app; naive_solver.
Qed.

(** The reverse, when the area goes back to the allocator. *)
Lemma release P psize R s s' h bl sl sl' cl gv p :
  pool_ok P psize R s (Ghost bl sl cl gv) -> sound (env s') -> areas (env s') = delete p (areas (env s)) ->
  data s' = delete p (data s) -> head s' !! P = Some h -> head_ok s' psize (Ghost bl sl' cl gv) h ->
  held sl ≡ₚ p :: held sl' -> Forall (fun l => (l, SIZEOF_LARGE) ∈ gv) sl'.*1 ->
  pool_ok P psize R s' (Ghost bl sl' cl gv).
Proof.
  intros [Hs Hz Hd Hb _ [Hnd Hheld] Hrest [_ Hn2] Hg] Hs' He Hdat Hh Hho Hp Hn1.
  unfold own in *. cbn [blocks slots records given] in *.
  assert (NoDup (p :: bl.*1 ++ held sl')) as [Hpn Hnd']%list.NoDup_cons.
  { apply (NoDup_Permutation_proper _ (bl.*1 ++ held sl)); [|done]. rewrite Hp. apply Permutation_middle. }
  rewrite elem_of_app in Hpn.
  split; unfold own; cbn [blocks slots records given]; rewrite ?He, ?Hdat; try done.
  - apply mseg_delete; [naive_solver|done].
  - apply list.Forall_forall. intros x Hx. pose proof (proj1 (list.Forall_forall _ _) Hb x Hx) as [].
    split; [|done..]. rewrite lookup_delete_ne; [done|]. intros ->. apply Hpn. left. by apply list_elem_of_fmap_2.
  - by exists h.
  - split; [done|]. rewrite Hp in Hheld. apply list.Forall_cons in Hheld as [_ Hheld].
    apply list.Forall_forall. intros x Hx. rewrite lookup_delete_ne by (intros ->; naive_solver).
    exact (proj1 (list.Forall_forall _ _) Hheld x Hx).
  - intros a. destruct (Hrest a) as [Hr1 Hr2]. rewrite Hp, elem_of_app, elem_of_cons in Hr1, Hr2.
    rewrite elem_of_app. destruct (decide (p = a)) as [->|Hne].
    + rewrite lookup_delete_eq. split; [intros _; symmetry|intros _]; apply Hr2; naive_solver.
    + rewrite lookup_delete_ne by done. split; [intros Ha; apply Hr1; naive_solver|intros Ha; apply Hr2; naive_solver].
Qed.

(** An area nobody else has goes back. *)
Lemma release_rest P psize R s g p n : pool_ok P psize (<[p := n]> R) s g ->
  areas (env s) !! p = Some n -> R !! p = None -> p ∉ own g ->
  wp (httpd_free p) s (fun _ s' => pool_ok P psize R s' g).
Proof.
  intros Hok Harea HR Hown. unfold httpd_free, on_env. wp_steps.
  eapply wp_mono; [by apply (mfree_ok _ _ _ (po_sound _ _ _ _ _ Hok) Harea)|]. intros _ h' [Hs Ha].
  assert (pool_ok P psize R (set_env h' s) g) as [? ? Hd Hb (h & Hh & []) ? ? ? ?].
  { eapply pool_ok_env; [exact Hok|done| |]; intros a Hin; rewrite Ha.
    - assert (p <> a) as Hne by (intros ->; done). rewrite lookup_delete_ne by done. split; [done|].
      apply (po_rest _ _ _ _ _ Hok) in Hin. by apply lookup_insert_None in Hin as [? _].
    - destruct (decide (p = a)) as [->|]; [by rewrite lookup_delete_eq|]. rewrite lookup_delete_ne by done.
      rewrite (proj1 (po_rest _ _ _ _ _ Hok a) Hin). by apply lookup_insert_ne. }
  assert (p ∉ (blocks g).*1) as Hp by (intros Hin; apply Hown, elem_of_app; by left).
  assert (p <> P) as HpP.
  { intros ->. apply Hp. destruct (pool_first _ _ _ _ _ Hok) as (d & bl & -> & _). cbn. set_solver. }
  wp_steps. split; try done; cbn.
  - by apply mseg_delete.
  - exists h. rewrite lookup_delete_ne by done. done.
Qed.

(** What a request for an area of its own leaves. *)
Definition area_post (P psize : Z) R g (n : Z) (r : Z) s' : Prop := exists g', pool_ok P psize R s' g' /\
  records g' = records g /\ (exists gv, given g' = gv ++ given g) /\
  (r = 0 /\ held (slots g') = held (slots g) \/
   0 < r /\ r mod 8 = 0 /\ areas (env s') !! r = Some n /\ (r ∉ own g) /\ held (slots g') ≡ₚ r :: held (slots g)).

Lemma fresh_node n k m gv : 0 < k -> 0 < m -> Forall (disj (n, k)) gv -> (n, m) ∉ gv.
Proof. intros Hk Hm Hd Hin. apply (proj1 (list.Forall_forall _ _) Hd) in Hin as [Hin|Hin]; cbn in Hin; lia. Qed.

Lemma fresh_nodes n k m gv (l : list Z) : 0 < k -> 0 < m -> Forall (disj (n, k)) gv ->
  Forall (fun a => (a, m) ∈ gv) l -> n ∉ l.
Proof.
  intros Hk Hm Hd Hl Hin. eapply fresh_node; [exact Hk|exact Hm|exact Hd|].
  exact (proj1 (list.Forall_forall _ _) Hl _ Hin).
Qed.

Lemma add_slot_ok P psize R s g p n :
  pool_ok P psize (<[p := n]> R) s g -> 0 < p -> p mod 8 = 0 -> areas (env s) !! p = Some n -> R !! p = None -> p ∉ own g ->
  wp (add_slot P p) s (area_post P psize R g n).
Proof.
  intros Hok Hp Hp8 Harea HR Hown. unfold add_slot. wp_steps.
  pose proof (po_size _ _ _ _ _ Hok) as [Hz _]. unfold HTTPD_MIN_POOL_SIZE in Hz.
  eapply wp_mono; [apply (palloc_small_ok _ _ _ _ _ SIZEOF_LARGE true Hok); unfold SIZEOF_LARGE, SIZEOF_POOL_DATA; lia|].
  intros l s1 (g1 & Hok1 & Hsl & Hcl & Hcase).
  assert (areas (env s1) !! p = Some n /\ p ∉ own g1) as [Harea1 Hown1].
  { assert (p ∉ own g1) as Hn.
    { intros Hin. apply (po_rest _ _ _ _ _ Hok1) in Hin. by rewrite lookup_insert_eq in Hin. }
    split; [|done]. rewrite (proj1 (po_rest _ _ _ _ _ Hok1 p) Hn). apply lookup_insert_eq. }
  destruct Hcase as [[-> Hgv]|(Hl & _ & _ & Hgv & Hdisj)]; cbn [Z.eqb].
  { wp_steps. eapply wp_mono; [by apply (release_rest _ _ _ _ _ _ _ Hok1)|]. intros [] s2 Hok2. wp_steps.
    exists g1. split_and!; [done|done|by exists []|]. left. by rewrite Hsl. }
  rewrite (proj2 (Z.eqb_neq l 0)) by lia. wp_steps.
  destruct (po_head _ _ _ _ _ Hok1) as (h & Hh & [Hm Hn Hla Hc]). eapply wp_load_at; [exact Hh|].
  unfold put_large, put_head. wp_steps. destruct g1 as [bl sl cl gv1]. cbn [slots records given blocks] in *. subst sl cl gv1.
  exists (Ghost bl ((l, PoolLarge (large h) p) :: slots g) (records g) ((l, SIZEOF_LARGE) :: given g)).
  pose proof (po_nodes _ _ _ _ _ Hok) as [Hn1 _].
  assert (l ∉ (slots g).*1) as Hlf by (eapply fresh_nodes; [| |exact Hdisj|exact Hn1]; done).
  assert (held ((l, PoolLarge (large h) p) :: slots g) = p :: held (slots g)) as Hheld.
  { apply held_cons. lia. }
  assert (pool_ok P psize R (set_head (<[P:=with_large l h]> (head s1)) (set_larges (<[l:=PoolLarge (large h) p]> (larges s1)) s1))
    (Ghost bl ((l, PoolLarge (large h) p) :: slots g) (records g) ((l, SIZEOF_LARGE) :: given g))) as Hok2.
  { eapply (adopt _ _ _ _ _ (with_large l h)); [exact Hok1|done|done|cbn; apply lookup_insert_eq| |by rewrite Hheld| |done|done|done].
    - split; cbn [blocks slots records larges cleanups set_head set_larges max now large cleanup with_large]; try done.
      cbn [mseg]. split; [done|]. split; [lia|]. rewrite lookup_insert_eq. split; [done|]. by apply mseg_insert.
    - constructor; [left|]. eapply list.Forall_impl; [exact Hn1|]. intros a Ha. by right. }
  split; [exact Hok2|]. split; [done|]. split; [by exists [(l, SIZEOF_LARGE)]|]. right.
  split_and!; [done|done|done|done|]. cbn [slots]. by rewrite Hheld.
Qed.

Lemma reuse_slot_ok (m : gmap Z pool_large) p s : larges s = m ->
  forall l2 fuel n l l1, mseg l_next m l l2 -> 0 <= n <= 4 -> 5 <= n + Z.of_nat fuel ->
  wp (reuse_slot fuel n l p) s (fun (b : bool) s' => if b then exists l3 a v l4,
      l1 ++ l2 = l3 ++ (a, v) :: l4 /\ alloc v = 0 /\ s' = set_larges (<[a := PoolLarge (l_next v) p]> m) s
    else s' = s).
Proof.
  intros <- l2. induction l2 as [|[a v] l2 IH]; intros fuel n l l1 Hl Hn Hf; (destruct fuel as [|fuel]; [lia|]); cbn [reuse_slot].
  { cbn in Hl. subst l. by wp_steps. }
  destruct Hl as (-> & Ha & Hv & Hl). rewrite (proj2 (Z.eqb_neq a 0) Ha). wp_steps. eapply wp_load_at; [exact Hv|].
  destruct (Z.eqb_spec (alloc v) 0) as [H0|_].
  - unfold put_large. wp_steps. by exists l1, a, v, l2.
  - destruct (Z.ltb_spec 3 n); [by wp_steps|].
    eapply wp_mono; [apply (IH fuel (n + 1) (l_next v) (l1 ++ [(a, v)])); [done|lia|lia]|].
    intros [] s'; [by rewrite <- (assoc_L app)|done].
Qed.

Lemma slot_update (bl : list (Z * pool_data)) (sl1 sl2 : list (Z * pool_large)) a v p (gv : list (Z * Z)) :
  (sl1 ++ (a, PoolLarge (l_next v) p) :: sl2).*1 = (sl1 ++ (a, v) :: sl2).*1.
Proof. by rewrite !fmap_app. Qed.

Lemma palloc_large_ok P psize R s g n : pool_ok P psize R s g -> 0 < n < 2 ^ 64 ->
  wp (httpd_palloc_large P n) s (area_post P psize R g n).
Proof.
  intros Hok Hn. unfold httpd_palloc_large, httpd_alloc. wp_steps.
  eapply wp_mono; [by apply (malloc_step _ _ _ _ _ n Hok)|].
  intros p s1 (Es & [[-> Hok1]|(Hp & Hp8 & _ & Harea & HR & Hown & Hok1)]); cbn [Z.eqb].
  { wp_steps. exists g. split_and!; [done|done|by exists []|]. by left. }
  rewrite (proj2 (Z.eqb_neq p 0)) by lia. wp_steps.
  destruct (po_head _ _ _ _ _ Hok1) as (h & Hh & Hho). eapply wp_load_at; [exact Hh|]. wp_steps.
  eapply wp_mono; [eapply (reuse_slot_ok _ p s1 eq_refl (slots g) 6 0 (large h) []); [exact (ho_large _ _ _ _ Hho)|lia|lia]|].
  intros [] s2; [|intros ->; by apply (add_slot_ok _ _ _ _ _ _ _ Hok1)].
  intros (l3 & a & v & l4 & Hsl & Hv & ->). wp_steps. destruct g as [bl sl cl gv]. cbn [app slots records given] in *. subst sl.
  pose proof (po_nodes _ _ _ _ _ Hok1) as [Hn1 _]. cbn [slots given] in Hn1.
  assert (held (l3 ++ (a, PoolLarge (l_next v) p) :: l4) ≡ₚ p :: held (l3 ++ (a, v) :: l4)) as Hheld.
  { destruct v as [nx al]. cbn in Hv. subst al. rewrite !held_app, held_empty, held_cons by lia.
    symmetry. apply Permutation_middle. }
  exists (Ghost bl (l3 ++ (a, PoolLarge (l_next v) p) :: l4) cl gv). split.
  - eapply (adopt _ _ _ _ _ h); [exact Hok1|done|done|exact Hh| |exact Hheld| |exact Harea|done|done].
    + destruct Hho as [? ? Hl ?]. split; try done. cbn [slots larges set_larges].
      eapply mseg_update; [|exact Hl]. done.
    + by rewrite slot_update.
  - split; [done|]. split; [by exists []|]. right. by split_and!.
Qed.

(** ** Requests of any size *)
Definition small_limit (psize : Z) : Z := Z.min (psize - SIZEOF_POOL) HTTPD_MAX_ALLOC_FROM_POOL.

Definition request_post (P psize : Z) R g (n : Z) (al : bool) (r : Z) s' : Prop := exists g', pool_ok P psize R s' g' /\
  records g' = records g /\ (exists gv, given g' = gv ++ given g) /\
  (r = 0 /\ held (slots g') = held (slots g) \/
   0 < r /\ (al = true -> r mod 8 = 0) /\
   if n <=? small_limit psize
   then held (slots g') = held (slots g) /\ given g' = (r, n) :: given g /\ Forall (disj (r, n)) (given g)
   else areas (env s') !! r = Some n /\ (r ∉ own g) /\ held (slots g') ≡ₚ r :: held (slots g)).

Lemma request_ok P psize R s g n al : pool_ok P psize R s g -> 0 <= n < 2 ^ 64 ->
  wp (h <- load head P ;; if n <=? max h then httpd_palloc_small P n al else httpd_palloc_large P n) s
    (request_post P psize R g n al).
Proof.
  intros Hok Hn. wp_steps. destruct (po_head _ _ _ _ _ Hok) as (h & Hh & Hho). eapply wp_load_at; [exact Hh|].
  pose proof (po_size _ _ _ _ _ Hok) as [Hz _]. unfold HTTPD_MIN_POOL_SIZE in Hz.
  unfold request_post. rewrite (ho_max _ _ _ _ Hho). fold (small_limit psize). destruct (Z.leb_spec n (small_limit psize)) as [Hle|Hgt];
    unfold small_limit, SIZEOF_POOL, HTTPD_MAX_ALLOC_FROM_POOL in *.
  - eapply wp_mono; [apply (palloc_small_ok _ _ _ _ _ n al Hok); unfold SIZEOF_POOL_DATA; lia|].
    intros r s' (g' & Hok' & Hsl & Hcl & [[-> Hg]|(Hr & _ & Hr8 & Hg & Hd)]); exists g'; rewrite Hsl, Hg.
    + split_and!; [done|done|by exists []|]. by left.
    + split_and!; [done|done|by exists [(r, n)]|]. by right.
  - eapply wp_mono; [apply (palloc_large_ok _ _ _ _ _ n Hok); lia|].
    intros r s' (g' & Hok' & Hcl & Hg & [[-> Hh']|(Hr & Hr8 & Ha & Hown & Hp)]); exists g'; split_and!; try done.
    + by left.
    + right. by split_and!.
Qed.

Lemma pmemalign_ok P psize R s g n a : pool_ok P psize R s g -> 0 < n < 2 ^ 64 ->
  wp (httpd_pmemalign P n a) s (area_post P psize R g n).
Proof.
  intros Hok Hn. unfold httpd_pmemalign, httpd_memalign. wp_steps.
  eapply wp_mono; [by apply (malloc_step _ _ _ _ _ n Hok)|].
  intros p s1 (Es & [[-> Hok1]|(Hp & Hp8 & _ & Harea & HR & Hown & Hok1)]); cbn [Z.eqb].
  { wp_steps. exists g. split_and!; [done|done|by exists []|]. by left. }
  rewrite (proj2 (Z.eqb_neq p 0)) by lia. by apply (add_slot_ok _ _ _ _ _ _ _ Hok1).
Qed.

Lemma pool_ok_bytes P psize R s g b : pool_ok P psize R s g -> pool_ok P psize R (set_bytes b s) g.
Proof. intros [? ? ? ? (h & ? & []) ? ? ? ?]. split; try done. by exists h. Qed.

Lemma pcalloc_ok P psize R s g n : pool_ok P psize R s g -> 0 <= n < 2 ^ 64 ->
  wp (httpd_pcalloc P n) s (fun r s' => request_post P psize R g n true r s' /\
    (r <> 0 -> forall a, r <= a < r + n -> bytes s' a = 0)).
Proof.
  intros Hok Hn. unfold httpd_pcalloc. wp_steps. eapply wp_mono; [by apply (request_ok _ _ _ _ _ n true Hok)|].
  intros r s1 Hr. destruct (Z.eqb_spec r 0) as [->|Hr0]; wp_steps; [done|]. unfold httpd_memzero. wp_steps. split.
  - destruct Hr as (g' & Hok' & Hr). exists g'. split; [by apply pool_ok_bytes|exact Hr].
  - intros _ a Ha. cbn. by rewrite (proj2 (Z.leb_le r a)), (proj2 (Z.ltb_lt a (r + n))) by lia.
Qed.

(** ** [httpd_pfree] *)
Lemma pfree_ok P psize R s g p : pool_ok P psize R s g -> p <> 0 ->
  wp (httpd_pfree P p) s (fun r s' => exists g', pool_ok P psize R s' g' /\ records g' = records g /\ given g' = given g /\
    (r = 0 /\ held (slots g) ≡ₚ p :: held (slots g') \/ r = ESRCH /\ (p ∉ held (slots g)) /\ s' = s /\ g' = g)).
Proof.
  intros Hok Hp. unfold httpd_pfree. wp_steps.
  destruct (po_head _ _ _ _ _ Hok) as (h & Hh & Hho). eapply wp_load_at; [exact Hh|]. unfold nodes. wp_steps.
  destruct g as [bl sl cl gv]. cbn [slots records given] in *. pose proof (ho_large _ _ _ _ Hho) as Hl. cbn [slots] in Hl.
  pose proof (mseg_length _ _ _ _ Hl) as Hlen.
  enough (forall l2 fuel l l1, sl = l1 ++ l2 -> mseg l_next (larges s) l l2 -> (length l2 < fuel)%nat -> p ∉ held l1 ->
    wp (pfree_from fuel l p) s (fun r s' => exists g', pool_ok P psize R s' g' /\ records g' = cl /\ given g' = gv /\
      (r = 0 /\ held sl ≡ₚ p :: held (slots g') \/ r = ESRCH /\ (p ∉ held sl) /\ s' = s /\ g' = Ghost bl sl cl gv))) as Hgo.
  { apply (Hgo sl _ _ []); [done|done|lia|set_solver]. }
  induction l2 as [|[a v] l2 IH]; intros fuel l l1 Hsl Hlg Hf Hno; (destruct fuel as [|fuel]; [cbn in Hf; lia|]); cbn [pfree_from].
  { cbn in Hlg. subst l. wp_steps. exists (Ghost bl sl cl gv). split_and!; [done..|]. right.
    rewrite app_nil_r in Hsl. by subst sl. }
  destruct Hlg as (-> & Ha & Hv & Hlg). rewrite (proj2 (Z.eqb_neq a 0) Ha). wp_steps. eapply wp_load_at; [exact Hv|].
  destruct (Z.eqb_spec p (alloc v)) as [->|Hne].
  - assert (held sl ≡ₚ alloc v :: held (l1 ++ (a, PoolLarge (l_next v) 0) :: l2)) as Hheld.
    { rewrite Hsl. destruct v as [nx al]. cbn in *. rewrite !held_app, held_empty, held_cons by done.
      symmetry. apply Permutation_middle. }
    pose proof (po_held _ _ _ _ _ Hok) as [Hnd Hheld2]. cbn [slots] in Hheld2. rewrite Hheld in Hheld2.
    apply list.Forall_cons in Hheld2 as [[n Harea] _].
    unfold httpd_free, on_env. wp_steps. eapply wp_mono; [by apply (mfree_ok _ _ _ (po_sound _ _ _ _ _ Hok) Harea)|].
    intros [] h' [Hs' Ha']. wp_steps. unfold put_large. wp_steps.
    exists (Ghost bl (l1 ++ (a, PoolLarge (l_next v) 0) :: l2) cl gv). split_and!; [|done|done|by left].
    eapply (release _ _ _ _ _ h); [exact Hok|done|exact Ha'|done| | |exact Hheld|].
    + cbn. rewrite lookup_delete_ne; [exact Hh|]. intros Heq.
      destruct (pool_first _ _ _ _ _ Hok) as (d & bl' & Hbl & _). cbn in Hbl.
      unfold own in Hnd. cbn [blocks slots] in Hnd. rewrite Hbl in Hnd.
      apply list.NoDup_app in Hnd as (_ & Hdis & _). apply (Hdis P); [cbn; set_solver|]. rewrite Hheld, Heq. left.
    + destruct Hho as []. split; try done. cbn. subst sl. eapply mseg_update; [|exact Hl]. done.
    + pose proof (po_nodes _ _ _ _ _ Hok) as [Hn1 _]. cbn [slots given] in Hn1. subst sl. by rewrite slot_update.
  - apply (IH fuel (l_next v) (l1 ++ [(a, v)])); [by rewrite Hsl, <- (assoc_L app)|done|cbn in Hf; lia|].
    rewrite held_app. destruct v as [nx al]. cbn in Hne. destruct (decide (al = 0)) as [->|Hal].
    + rewrite held_empty. set_solver.
    + rewrite held_cons by done. set_solver.
Qed.
End proofs.
