(* ===== verification/PoolRuns.v ===== *)
(** * PoolRuns: pools of the HTTP server over their life (module/httpd/palloc.c)

    On the requests of Palloc.v: cleanup records, giving areas back,
    [httpd_reset_pool], [httpd_destroy_pool], [httpd_create_pool], and what
    holds of every sequence of requests; an allocator that shows the interface
    can be met; and three ways the code goes wrong. *)
From Stdlib Require Import ZArith Lia.
From stdpp Require Import base tactics gmap list option.
From S2P Require Import Prelude Palloc.
#[export] Set Warnings "-clear-no-such-hyp".

Section proofs.
Context {H : Type} `{!Malloc H} `{!MallocLaws H}.
Implicit Types (s : memory H) (g : ghost) (R : gmap Z Z).

(** ** Cleanup records *)
Lemma pool_ok_record P psize R s h bl sl cl gv c v :
  pool_ok P psize R s (Ghost bl sl cl gv) -> head s !! P = Some h -> 0 < c -> c ∉ cl.*1 -> (c, SIZEOF_CLEANUP) ∈ gv ->
  c_next v = cleanup h ->
  pool_ok P psize R (set_head (<[P := with_cleanup c h]> (head s)) (set_cleanups (<[c := v]> (cleanups s)) s))
    (Ghost bl sl ((c, v) :: cl) gv).
Proof.
  intros [Hs Hz Hd Hb (h0 & Hh & [Hm Hn Hl Hc]) Hheld Hrest [Hn1 Hn2] Hg] Hh' Hc0 Hcl Hin Hv. simplify_eq.
  split; try done; [|split; [done|by constructor]].
  exists (with_cleanup c h0). cbn. rewrite lookup_insert_eq. split; [done|]. split; try done.
  cbn. rewrite lookup_insert_eq. split_and!; [done|lia|done|]. rewrite Hv. by apply mseg_insert.
Qed.

Lemma cleanup_add_ok P psize R s g n : pool_ok P psize R s g -> 0 <= n < 2 ^ 64 ->
  wp (httpd_pool_cleanup_add P n) s (fun c s' => exists g', pool_ok P psize R s' g' /\
    (exists gv, given g' = gv ++ given g) /\
    (c = 0 /\ records g' = records g \/
     c <> 0 /\ exists d nx, records g' = (c, PoolCleanup 0 d nx) :: records g)).
Proof.
  intros Hok Hn. unfold httpd_pool_cleanup_add. wp_steps.
  eapply wp_mono; [apply (request_ok _ _ _ _ _ SIZEOF_CLEANUP true Hok); unfold SIZEOF_CLEANUP; lia|].
  intros c s1 (g1 & Hok1 & Hcl1 & [gv1 Hgv1] & [[-> _]|(Hc & _ & Hcase)]); cbn [Z.eqb].
  { wp_steps. exists g1. split_and!; [done|by exists gv1|]. by left. }
  assert (SIZEOF_CLEANUP <= small_limit psize) as Hle.
  { pose proof (po_size _ _ _ _ _ Hok) as [Hz _].
    unfold small_limit, HTTPD_MIN_POOL_SIZE, SIZEOF_CLEANUP, SIZEOF_POOL, HTTPD_MAX_ALLOC_FROM_POOL in *. lia. }
  rewrite (proj2 (Z.leb_le _ _) Hle) in Hcase. destruct Hcase as (_ & Hg1 & Hdisj).
  rewrite (proj2 (Z.eqb_neq c 0)) by lia.
  assert (c ∉ (records g).*1) as Hcf.
  { pose proof (po_nodes _ _ _ _ _ Hok) as [_ Hn2]. by eapply fresh_nodes; [| |exact Hdisj|exact Hn2]. }
  assert (forall d s2 g2, pool_ok P psize R s2 g2 -> records g2 = records g -> (exists gv, given g2 = gv ++ given g1) ->
    wp (h <- load head P ;; put_cleanup c (PoolCleanup 0 d (cleanup h)) ;;; put_head P (with_cleanup c h) ;;; ret c) s2
      (fun c s' => exists g', pool_ok P psize R s' g' /\ (exists gv, given g' = gv ++ given g) /\
        (c = 0 /\ records g' = records g \/ c <> 0 /\ exists d nx, records g' = (c, PoolCleanup 0 d nx) :: records g))) as Hgo.
  { intros d s2 [bl sl cl gv] Hok2 Hcl2 [gv2 Hgv2]. cbn [records given] in *. subst cl. wp_steps.
    destruct (po_head _ _ _ _ _ Hok2) as (h & Hh & Hho). eapply wp_load_at; [exact Hh|]. unfold put_cleanup, put_head. wp_steps.
    exists (Ghost bl sl ((c, PoolCleanup 0 d (cleanup h)) :: records g) gv). split; [|split].
    - apply (pool_ok_record P psize R s2); [done|done|done|done| |done]. rewrite Hgv2, Hg1. set_solver.
    - exists (gv2 ++ gv1). cbn. by rewrite Hgv2, Hgv1, (assoc_L app).
    - right. split; [lia|]. by exists d, (cleanup h). }
  wp_steps. destruct (Z.eqb_spec n 0) as [->|Hn0]; wp_steps.
  { apply (Hgo 0 s1 g1); [done..|by exists []]. }
  eapply wp_mono; [by apply (request_ok _ _ _ _ _ n true Hok1)|].
  intros d s2 (g2 & Hok2 & Hcl2 & Hgv2 & _). rewrite Hcl1 in Hcl2.
  destruct (Z.eqb_spec d 0) as [->|Hd]; cbn [negb andb]; [|by apply (Hgo d s2 g2)].
  wp_steps. exists g2. split; [done|]. split; [|by left]. destruct Hgv2 as [gv2 ->]. exists (gv2 ++ gv1).
  by rewrite Hgv1, (assoc_L app).
Qed.

(** A client sets the handler of its record. *)
Lemma set_handler_ok P psize R s bl sl cl gv c v f : pool_ok P psize R s (Ghost bl sl ((c, v) :: cl) gv) ->
  pool_ok P psize R (set_cleanups (<[c := PoolCleanup f (c_data v) (c_next v)]> (cleanups s)) s)
    (Ghost bl sl ((c, PoolCleanup f (c_data v) (c_next v)) :: cl) gv).
Proof.
  intros [? ? ? ? (h & Hh & [? ? ? Hc]) ? ? [? ?] ?]. split; try done. exists h. split; [done|]. split; try done.
  exact (mseg_update c_next (cleanups s) (cleanup h) [] c v (PoolCleanup f (c_data v) (c_next v)) cl eq_refl Hc).
Qed.

(** The calls the records of a pool stand for. *)
Definition handler_log (cl : list (Z * pool_cleanup)) : list (Z * Z) :=
  filter (fun x => x.1 <> 0) ((fun c => (handler c.2, c_data c.2)) <$> cl).

Lemma handler_log_cons c v (cl : list (Z * pool_cleanup)) :
  handler_log ((c, v) :: cl) = (if handler v =? 0 then [] else [(handler v, c_data v)]) ++ handler_log cl.
Proof.
  unfold handler_log. cbn [fmap list_fmap snd]. destruct (Z.eqb_spec (handler v) 0).
  - by rewrite filter_cons_False by (cbn; intros Hn; by apply Hn).
  - by rewrite filter_cons_True.
Qed.

Lemma pool_ok_handled P psize R s g l : pool_ok P psize R s g -> pool_ok P psize R (set_handled l s) g.
Proof. intros [? ? ? ? (h & ? & []) ? ? ? ?]. split; try done. by exists h. Qed.

Lemma run_cleanups_ok P psize R g cl : forall fuel c s,
  pool_ok P psize R s g -> mseg c_next (cleanups s) c cl -> (length cl < fuel)%nat ->
  wp (run_cleanups fuel c) s (fun _ s' => pool_ok P psize R s' g /\ handled s' = handled s ++ handler_log cl).
Proof.
  induction cl as [|[a v] cl IH]; intros fuel c s Hok Hl Hf; (destruct fuel as [|fuel]; [cbn in Hf; lia|]); cbn [run_cleanups].
  { cbn in Hl. subst c. wp_steps. by rewrite app_nil_r. }
  destruct Hl as (-> & Ha & Hv & Hl). rewrite (proj2 (Z.eqb_neq a 0) Ha). wp_steps. eapply wp_load_at; [exact Hv|].
  rewrite handler_log_cons. destruct (Z.eqb_spec (handler v) 0) as [_|_]; wp_steps.
  { eapply wp_load_at; [exact Hv|]. cbn in Hf. eapply wp_mono; [by apply (IH fuel _ s); [..|lia]|]. done. }
  unfold on_env. wp_steps. eapply wp_mono; [exact (handler_ok _ _ _ (po_sound _ _ _ _ _ Hok))|].
  intros [] h' [Hs Hh]. wp_steps. set (s1 := set_env h' _).
  assert (pool_ok P psize R s1 g) as Hok1.
  { eapply pool_ok_env; [by apply pool_ok_handled|done| |]; intros b Hb; cbn; rewrite Hh.
    - split; [done|]. by apply (po_rest _ _ _ _ _ Hok).
    - by apply (po_rest _ _ _ _ _ Hok). }
  eapply wp_load_at; [exact Hv|]. cbn in Hf. eapply wp_mono; [by apply (IH fuel _ s1); [..|lia]|].
  intros [] s2 [Hok2 Hh2]. split; [done|]. rewrite Hh2. cbn. by rewrite <- (assoc_L app).
Qed.

(** ** Giving areas back *)

(** [s'] is [s] with the areas [l] returned, and the blocks among them gone. *)
Record freed (l : list Z) (s s' : memory H) : Prop := {
  fr_sound : sound (env s');
  fr_areas a : areas (env s') !! a = if decide (a ∈ l) then None else areas (env s) !! a;
  fr_larges : larges s' = larges s;
  fr_cleanups : cleanups s' = cleanups s;
  fr_handled : handled s' = handled s;
  fr_data a : a ∉ l -> data s' !! a = data s !! a;
  fr_head a : a ∉ l -> head s' !! a = head s !! a
}.

Lemma freed_nil s : sound (env s) -> freed [] s s.
Proof. by split. Qed.

Lemma freed_trans l1 l2 s1 s2 s3 : freed l1 s1 s2 -> freed l2 s2 s3 -> freed (l1 ++ l2) s1 s3.
Proof.
  intros [] []. split; try congruence; try done.
  - intros a. rewrite fr_areas1, fr_areas0.
    destruct (decide (a ∈ l1)), (decide (a ∈ l2)), (decide (a ∈ l1 ++ l2)) as [Hd|Hd];
      rewrite elem_of_app in Hd; done || tauto.
  - intros a Ha. rewrite elem_of_app in Ha. rewrite fr_data1, fr_data0 by tauto. done.
  - intros a Ha. rewrite elem_of_app in Ha. rewrite fr_head1, fr_head0 by tauto. done.
Qed.

Lemma httpd_free_ok s a : sound (env s) -> is_Some (areas (env s) !! a) ->
  wp (httpd_free a) s (fun _ s' => freed [a] s s').
Proof.
  intros Hs [n Ha]. unfold httpd_free, on_env. wp_steps. eapply wp_mono; [by apply (mfree_ok _ _ _ Hs Ha)|].
  intros [] h' [Hs' Ha']. wp_steps. split; cbn; try done.
  - intros b. rewrite Ha'. case_decide as Hb.
    + apply list_elem_of_singleton in Hb as ->. apply lookup_delete_eq.
    + apply lookup_delete_ne. set_solver.
  - intros b Hb. apply lookup_delete_ne. set_solver.
  - intros b Hb. apply lookup_delete_ne. set_solver.
Qed.

Lemma freed_area l s s' a : freed l s s' -> a ∉ l -> is_Some (areas (env s) !! a) -> is_Some (areas (env s') !! a).
Proof. intros Hf Ha. by rewrite (fr_areas _ _ _ Hf), decide_False. Qed.

Lemma freed_areas l l' s s' : freed l s s' -> (forall a, a ∈ l' -> a ∉ l) ->
  Forall (fun a => is_Some (areas (env s) !! a)) l' -> Forall (fun a => is_Some (areas (env s') !! a)) l'.
Proof.
  intros Hf Hd Hl. apply list.Forall_forall. intros a Ha. eapply freed_area; [exact Hf|by apply Hd|].
  exact (proj1 (list.Forall_forall _ _) Hl a Ha).
Qed.

Lemma free_larges_ok sl : forall fuel l s, sound (env s) -> mseg l_next (larges s) l sl -> (length sl < fuel)%nat ->
  NoDup (held sl) -> Forall (fun a => is_Some (areas (env s) !! a)) (held sl) ->
  wp (free_larges fuel l) s (fun _ s' => freed (held sl) s s').
Proof.
  induction sl as [|[a v] sl IH]; intros fuel l s Hs Hl Hf Hnd Har; (destruct fuel as [|fuel]; [cbn in Hf; lia|]); cbn [free_larges].
  { cbn in Hl. subst l. wp_steps. by apply freed_nil. }
  destruct Hl as (-> & Ha & Hv & Hl). rewrite (proj2 (Z.eqb_neq a 0) Ha). wp_steps. eapply wp_load_at; [exact Hv|].
  cbn in Hf. destruct v as [nx al]. cbn [alloc l_next] in *. destruct (Z.eqb_spec al 0) as [->|Hal]; wp_steps.
  - eapply wp_load_at; [exact Hv|]. rewrite held_empty in *. by apply (IH fuel); [..|lia| |].
  - rewrite held_cons in * by done. apply list.NoDup_cons in Hnd as [Hn Hnd]. apply list.Forall_cons in Har as [Ha1 Har].
    eapply wp_mono; [by apply httpd_free_ok|]. intros [] s1 Hf1. wp_steps.
    eapply wp_load_at; [rewrite (fr_larges _ _ _ Hf1); exact Hv|].
    eapply wp_mono; [apply (IH fuel); [apply Hf1|by rewrite (fr_larges _ _ _ Hf1)|lia|done|]|].
    + eapply freed_areas; [exact Hf1| |done]. set_solver.
    + intros [] s2 Hf2. exact (freed_trans [al] _ _ _ _ Hf1 Hf2).
Qed.

Lemma free_blocks_ok bl : forall fuel p d s, sound (env s) -> mseg next (data s) p ((p, d) :: bl) -> (length bl < fuel)%nat ->
  Forall (fun a => is_Some (areas (env s) !! a)) (p :: bl.*1) ->
  wp (free_blocks fuel p (next d)) s (fun _ s' => freed (p :: bl.*1) s s').
Proof.
  induction bl as [|[b db] bl IH]; intros fuel p d s Hs Hl Hf Har; (destruct fuel as [|fuel]; [cbn in Hf; lia|]); cbn [free_blocks];
    wp_steps; apply list.Forall_cons in Har as [Ha1 Har]; pose proof (mseg_nodup _ _ _ _ Hl) as Hnd;
    destruct Hl as (_ & Hp0 & Hd & Hl); (eapply wp_mono; [by apply httpd_free_ok|]); intros [] s1 Hf1.
  - cbn in Hl. rewrite Hl. wp_steps. exact Hf1.
  - cbn in Hf, Hnd. apply list.NoDup_cons in Hnd as [Hpn Hnd].
    assert (mseg next (data s1) (next d) ((b, db) :: bl)) as Hl1.
    { eapply mseg_frame; [|exact Hl]. intros a Ha. apply (fr_data _ _ _ Hf1). set_solver. }
    destruct Hl1 as (Hnx & Hb0 & Hb & Hl1). rewrite Hnx. rewrite (proj2 (Z.eqb_neq b 0) Hb0). wp_steps.
    eapply wp_load_at; [exact Hb|]. eapply wp_mono; [apply (IH fuel b db s1); [apply Hf1|done|lia|]|].
    + eapply freed_areas; [exact Hf1| |exact Har]. set_solver.
    + intros [] s2 Hf2. exact (freed_trans [p] _ _ _ _ Hf1 Hf2).
Qed.

Lemma blocks_areas P psize R s g : pool_ok P psize R s g -> Forall (fun a => is_Some (areas (env s) !! a)) (blocks g).*1.
Proof.
  intros Hok. apply list.Forall_forall. intros a ([b d] & -> & Hin)%list_elem_of_fmap.
  pose proof (proj1 (list.Forall_forall _ _) (po_block _ _ _ _ _ Hok) _ Hin) as [Ha _ _]. by eexists.
Qed.

Lemma destroy_ok P psize R s g : pool_ok P psize R s g ->
  wp (httpd_destroy_pool P) s (fun _ s' => sound (env s') /\ areas (env s') = R /\
    handled s' = handled s ++ handler_log (records g)).
Proof.
  intros Hok. unfold httpd_destroy_pool. wp_steps.
  destruct (po_head _ _ _ _ _ Hok) as (h & Hh & Hho). eapply wp_load_at; [exact Hh|]. unfold nodes. wp_steps.
  eapply wp_mono.
  { eapply run_cleanups_ok; [exact Hok|exact (ho_cleanup _ _ _ _ Hho)|].
    pose proof (mseg_length _ _ _ _ (ho_cleanup _ _ _ _ Hho)). lia. }
  intros [] s1 [Hok1 Hlog]. wp_steps. clear h Hh Hho.
  destruct (po_head _ _ _ _ _ Hok1) as (h & Hh & Hho). eapply wp_load_at; [exact Hh|]. wp_steps.
  pose proof (po_held _ _ _ _ _ Hok1) as [Hnd Hheld]. apply list.NoDup_app in Hnd as (Hnd1 & Hdis & Hnd2).
  eapply wp_mono.
  { eapply free_larges_ok; [apply Hok1|exact (ho_large _ _ _ _ Hho)| |done|done].
    pose proof (mseg_length _ _ _ _ (ho_large _ _ _ _ Hho)). lia. }
  intros [] s2 Hf2. destruct (pool_first _ _ _ _ _ Hok1) as (d & bl & Hbl & Hd). wp_steps.
  eapply wp_load_at; [rewrite (fr_data _ _ _ Hf2); [exact Hd|apply Hdis; rewrite Hbl; left]|]. wp_steps.
  pose proof (po_data _ _ _ _ _ Hok1) as Hseg. rewrite Hbl in *.
  assert (mseg next (data s2) P ((P, d) :: bl)) as Hseg2.
  { eapply mseg_frame; [|exact Hseg]. intros a Ha. by apply (fr_data _ _ _ Hf2), Hdis. }
  eapply wp_mono.
  { apply (free_blocks_ok bl); [apply Hf2|done| |].
    - apply mseg_length in Hseg2. cbn in Hseg2. lia.
    - eapply freed_areas; [exact Hf2|exact Hdis|]. pose proof (blocks_areas _ _ _ _ _ Hok1) as Hb. by rewrite Hbl in Hb. }
  intros [] s3 Hf3. pose proof (freed_trans _ _ _ _ _ Hf2 Hf3) as Hf. split; [apply Hf|]. split.
  - apply map_eq. intros a. rewrite (fr_areas _ _ _ Hf). destruct (po_rest _ _ _ _ _ Hok1 a) as [Hr1 Hr2].
    unfold own in Hr1, Hr2. rewrite Hbl in Hr1, Hr2. rewrite elem_of_app in Hr1, Hr2. cbn in Hr1, Hr2.
    case_decide as Ha; rewrite elem_of_app in Ha; [symmetry; apply Hr2; tauto|apply Hr1; tauto].
  - by rewrite (fr_handled _ _ _ Hf), Hlog.
Qed.

(** ** [httpd_reset_pool] and [httpd_create_pool] *)
Definition fresh_block (x : Z * pool_data) : Z * pool_data :=
  (x.1, PoolData (wrap64 (x.1 + SIZEOF_POOL)) (dend x.2) (next x.2) 0).

Lemma fresh_blocks_fst bl : (fresh_block <$> bl).*1 = bl.*1.
Proof. rewrite <- list_fmap_compose. by apply list_fmap_ext. Qed.

Lemma reset_blocks_ok bl : forall fuel p s, mseg next (data s) p bl -> (length bl < fuel)%nat ->
  wp (reset_blocks fuel p) s (fun _ s' => s' = set_data (data s') s /\
    mseg next (data s') p (fresh_block <$> bl) /\ forall a, a ∉ bl.*1 -> data s' !! a = data s !! a).
Proof.
  induction bl as [|[b d] bl IH]; intros fuel p s Hl Hf; (destruct fuel as [|fuel]; [cbn in Hf; lia|]); cbn [reset_blocks].
  { cbn in Hl. subst p. by wp_steps; destruct s. }
  pose proof (mseg_nodup _ _ _ _ Hl) as Hnd. cbn in Hnd. apply list.NoDup_cons in Hnd as [Hbn Hnd].
  destruct Hl as (-> & Hb0 & Hd & Hl). rewrite (proj2 (Z.eqb_neq b 0) Hb0). wp_steps. eapply wp_load_at; [exact Hd|].
  unfold put_data. wp_steps. cbn in Hf. set (d' := PoolData _ _ _ _).
  eapply wp_mono; [apply (IH fuel); [by apply mseg_insert|lia]|]. cbn [data set_data].
  intros [] s1 (Hs1 & Hl1 & Hfr). split; [rewrite Hs1 at 1; by destruct s|]. split.
  - change (b = b /\ b <> 0 /\ data s1 !! b = Some d' /\ mseg next (data s1) (next d) (fresh_block <$> bl)).
    split_and!; [done|done| |exact Hl1]. rewrite Hfr by done. apply lookup_insert_eq.
  - intros a Ha. cbn in Ha. apply not_elem_of_cons in Ha as [Hab Ha]. rewrite Hfr by done. by apply lookup_insert_ne.
Qed.

Lemma reset_ok P psize R s g : pool_ok P psize R s g -> records g = [] ->
  wp (httpd_reset_pool P) s (fun _ s' => pool_ok P psize R s' (Ghost (fresh_block <$> blocks g) [] [] [])).
Proof.
  intros Hok Hrec. unfold httpd_reset_pool. wp_steps.
  destruct (po_head _ _ _ _ _ Hok) as (h & Hh & Hho). eapply wp_load_at; [exact Hh|]. unfold nodes. wp_steps.
  pose proof (po_held _ _ _ _ _ Hok) as [Hnd Hheld]. apply list.NoDup_app in Hnd as (Hnd1 & Hdis & Hnd2).
  eapply wp_mono.
  { eapply free_larges_ok; [apply Hok|exact (ho_large _ _ _ _ Hho)| |done|done].
    pose proof (mseg_length _ _ _ _ (ho_large _ _ _ _ Hho)). lia. }
  intros [] s1 Hf. wp_steps.
  assert (mseg next (data s1) P (blocks g)) as Hseg.
  { eapply mseg_frame; [|exact (po_data _ _ _ _ _ Hok)]. intros a Ha. by apply (fr_data _ _ _ Hf), Hdis. }
  eapply wp_mono; [apply (reset_blocks_ok (blocks g)); [done|apply mseg_length in Hseg; lia]|].
  intros [] s2 (Hs2 & Hseg2 & _). wp_steps.
  destruct (pool_first _ _ _ _ _ Hok) as (d & bl & Hbl & _).
  assert (head s2 !! P = Some h) as Hh2.
  { rewrite Hs2. cbn. rewrite (fr_head _ _ _ Hf); [exact Hh|]. apply Hdis. rewrite Hbl. left. }
  eapply wp_load_at; [exact Hh2|]. unfold put_head. wp_steps.
  assert (env s2 = env s1) as He by by rewrite Hs2.
  split; cbn [env data larges cleanups head set_head blocks slots records given]; unfold own; cbn [blocks slots];
    rewrite ?He, ?fresh_blocks_fst.
  - apply Hf.
  - apply Hok.
  - exact Hseg2.
  - apply list.Forall_fmap, list.Forall_forall. intros [b db] Hin.
    pose proof (block_bounds _ _ _ _ _ b db Hok Hin) as (? & ? & ? & ? & ? & ? & _).
    pose proof (proj1 (list.Forall_forall _ _) (po_block _ _ _ _ _ Hok) _ Hin) as [Ha _ _].
    pose proof (po_size _ _ _ _ _ Hok) as [Hz _]. unfold HTTPD_MIN_POOL_SIZE in Hz.
    split; cbn in *; [|done|].
    + rewrite (fr_areas _ _ _ Hf), decide_False; [done|]. apply Hdis. by apply (list_elem_of_fmap_2' fst _ (b, db)).
    + rewrite wrap64_small by (unfold SIZEOF_POOL; lia). unfold block_start, SIZEOF_POOL, SIZEOF_POOL_DATA.
      case_decide; lia.
  - exists (PoolHead (max h) P 0 0 (cleanup h)). rewrite lookup_insert_eq. split; [done|].
    destruct Hho as [Hm _ _ Hc]. split; cbn; [done| |done|by rewrite Hrec in Hc].
    rewrite fresh_blocks_fst, Hbl. left.
  - rewrite app_nil_r. done.
  - intros a. rewrite app_nil_r. destruct (po_rest _ _ _ _ _ Hok a) as [Hr1 Hr2].
    unfold own in Hr1, Hr2. rewrite elem_of_app in Hr1, Hr2. rewrite (fr_areas _ _ _ Hf).
    case_decide; split; intros Ha; first [tauto|symmetry; tauto|apply Hr1; tauto].
  - done.
  - done.
Qed.

Lemma create_ok s n : sound (env s) -> HTTPD_MIN_POOL_SIZE <= n < 2 ^ 64 -> n mod 8 = 0 ->
  wp (httpd_create_pool n) s (fun r s' => sound (env s') /\ handled s' = handled s /\
    (r = 0 /\ areas (env s') = areas (env s) \/
     0 < r /\ exists d, pool_ok r n (areas (env s)) s' (Ghost [(r, d)] [] [] []))).
Proof.
  intros Hs Hn Hn8. unfold HTTPD_MIN_POOL_SIZE in *. unfold httpd_create_pool, httpd_memalign, on_env. wp_steps.
  eapply wp_mono; [apply (malloc_ok _ n Hs); lia|].
  intros a h' (Hs' & [[-> Ha]|(Ha0 & Hno & Ha)]); cbn [Z.eqb].
  { wp_steps. split_and!; [done|done|]. by left. }
  rewrite (proj2 (Z.eqb_neq a 0)) by lia. unfold put_data, put_head. wp_steps.
  assert (areas h' !! a = Some n) as Hin by (rewrite Ha; apply lookup_insert_eq).
  destruct (area_ok _ _ _ Hs' Hin) as (? & ? & _ & ?). unfold SIZEOF_POOL, HTTPD_MAX_ALLOC_FROM_POOL.
  rewrite !wrap64_small by lia. split; [done|]. split; [done|]. right. split; [lia|].
  eexists. split; cbn [env data larges cleanups head set_head set_data set_env blocks slots records given]; unfold own; cbn [blocks slots].
  - done.
  - split; [unfold HTTPD_MIN_POOL_SIZE; lia|done].
  - cbn. rewrite lookup_insert_eq. by split_and!.
  - repeat constructor; cbn; [done|unfold block_start, SIZEOF_POOL; rewrite decide_True; lia|lia].
  - eexists. rewrite lookup_insert_eq. split; [done|]. split; cbn; [|left|done|done].
    unfold SIZEOF_POOL, HTTPD_MAX_ALLOC_FROM_POOL. destruct (Z.ltb_spec (n - 72) (4096 - 1)); lia.
  - split; [apply NoDup_singleton|constructor].
  - intros b. cbn. rewrite list_elem_of_singleton, Ha. split; [intros Hb; by apply lookup_insert_ne|by intros ->].
  - by split.
  - by split.
Qed.

(** ** Sequences of requests *)
Inductive request :=
  | Palloc (n : Z)
  | Pnalloc (n : Z)
  | Pcalloc (n : Z)
  | Pmemalign (n a : Z)
  | Pfree (p : Z)
  | CleanupAdd (n f : Z)
  | Reset.

(** One request; a client that got a cleanup record sets its handler.  The
    result lists the handlers set. *)
Definition serve (P : Z) (q : request) : M (memory H) (list Z) :=
  match q with
  | Palloc n => httpd_palloc P n ;;; ret []
  | Pnalloc n => httpd_pnalloc P n ;;; ret []
  | Pcalloc n => httpd_pcalloc P n ;;; ret []
  | Pmemalign n a => httpd_pmemalign P n a ;;; ret []
  | Pfree p => httpd_pfree P p ;;; ret []
  | CleanupAdd n f =>
      c <- httpd_pool_cleanup_add P n ;;
      if c =? 0 then ret []
      else
        v <- load cleanups c ;;
        put_cleanup c (PoolCleanup f (c_data v) (c_next v)) ;;; ret [f]
  | Reset => httpd_reset_pool P ;;; ret []
  end.
Fixpoint serve_all (P : Z) (qs : list request) : M (memory H) (list Z) :=
  match qs with
  | [] => ret []
  | q :: qs' => l <- serve P q ;; l' <- serve_all P qs' ;; ret (l' ++ l)
  end.
(** A pool from its creation to its end. *)
Definition session (n : Z) (qs : list request) : M (memory H) (list Z) :=
  p <- httpd_create_pool n ;;
  if p =? 0 then ret []
  else l <- serve_all p qs ;; httpd_destroy_pool p ;;; ret l.

(** Sizes are words and not absurd; a pool is not reset while it has cleanup
    records, which [httpd_reset_pool] would leave pointing into free memory. *)
Definition admissible (q : request) : Prop :=
  match q with
  | Palloc n | Pnalloc n | Pcalloc n => 0 <= n < 2 ^ 64
  | Pmemalign n _ => 0 < n < 2 ^ 64
  | Pfree p => p <> 0
  | CleanupAdd n f => 0 <= n < 2 ^ 64 /\ f <> 0
  | Reset => True
  end.
Fixpoint sensible (recorded : bool) (qs : list request) : bool :=
  match qs with
  | [] => true
  | CleanupAdd _ _ :: qs' => sensible true qs'
  | Reset :: qs' => negb recorded && sensible recorded qs'
  | _ :: qs' => sensible recorded qs'
  end.

Lemma serve_step P psize R s g q : pool_ok P psize R s g -> admissible q -> (q = Reset -> records g = []) ->
  wp (serve P q) s (fun l s' => exists g', pool_ok P psize R s' g' /\
    (handler_log (records g')).*1 = l ++ (handler_log (records g)).*1 /\
    ((forall n f, q <> CleanupAdd n f) -> records g' = records g) /\
    (q <> Reset -> exists gv, given g' = gv ++ given g)).
Proof.
  intros Hok Hq Hreset. destruct q as [n|n|n|n a|p|n f|]; cbn [serve admissible] in *; wp_steps.
  1, 2: eapply wp_mono; [by apply (request_ok _ _ _ _ _ _ _ Hok)|]; intros r s' (g' & Hok' & Hr & Hg & _); wp_steps;
    exists g'; rewrite Hr; split_and!; done.
  - eapply wp_mono; [by apply (pcalloc_ok _ _ _ _ _ _ Hok)|]. intros r s' [(g' & Hok' & Hr & Hg & _) _]. wp_steps.
    exists g'. rewrite Hr. by split_and!.
  - eapply wp_mono; [by apply (pmemalign_ok _ _ _ _ _ _ a Hok)|]. intros r s' (g' & Hok' & Hr & Hg & _). wp_steps.
    exists g'. rewrite Hr. by split_and!.
  - eapply wp_mono; [by apply (pfree_ok _ _ _ _ _ _ Hok)|]. intros r s' (g' & Hok' & Hr & Hg & _). wp_steps.
    exists g'. rewrite Hr, Hg. split_and!; try done. by exists [].
  - destruct Hq as [Hn Hf]. eapply wp_mono; [by apply (cleanup_add_ok _ _ _ _ _ _ Hok)|].
    intros c s' (g' & Hok' & Hg & [[-> Hr]|(Hc & d & nx & Hr)]); cbn [Z.eqb].
    { wp_steps. exists g'. rewrite Hr. by split_and!. }
    rewrite (proj2 (Z.eqb_neq c 0) Hc). wp_steps. destruct g' as [bl sl cl gv]. cbn [records given] in *. subst cl.
    destruct (po_head _ _ _ _ _ Hok') as (h & Hh & [_ _ _ Hcl]).
    eapply wp_load_at; [eapply (mseg_lookup _ _ _ _ c); [exact Hcl|left]|]. unfold put_cleanup. wp_steps.
    eexists. split; [by apply set_handler_ok|]. cbn [records given handler c_data c_next]. rewrite handler_log_cons. cbn [handler c_data].
    rewrite (proj2 (Z.eqb_neq f 0) Hf). split_and!; [done| |done]. intros Hno. by destruct (Hno n f).
  - eapply wp_mono; [by apply (reset_ok _ _ _ _ _ Hok), Hreset|]. intros [] s' Hok'. wp_steps.
    eexists. split; [exact Hok'|]. cbn [records given]. rewrite (Hreset eq_refl). by split_and!.
Qed.

Lemma serve_all_ok P psize R qs : forall s g recorded, pool_ok P psize R s g -> Forall admissible qs ->
  (recorded = false -> records g = []) -> sensible recorded qs = true ->
  wp (serve_all P qs) s (fun l s' => exists g', pool_ok P psize R s' g' /\
    (handler_log (records g')).*1 = l ++ (handler_log (records g)).*1).
Proof.
  induction qs as [|q qs IH]; intros s g recorded Hok Hadm Hrec Hsens; cbn [serve_all]; wp_steps; [by exists g|].
  apply list.Forall_cons in Hadm as [Hq Hadm].
  assert (q = Reset -> records g = []) as Hreset.
  { intros ->. cbn in Hsens. apply andb_prop in Hsens as [Hr _]. by destruct recorded; [|apply Hrec]. }
  eapply wp_mono; [by apply (serve_step _ _ _ _ _ _ Hok Hq)|]. intros l s1 (g1 & Hok1 & Hl & Hsame & _). wp_steps.
  assert (exists recorded', (recorded' = false -> records g1 = []) /\ sensible recorded' qs = true) as (recorded' & Hrec' & Hsens').
  { destruct q; [exists recorded; cbn in Hsens; split; [intros Hr; rewrite Hsame by done; by apply Hrec|done]..| |].
    - by exists true.
    - cbn in Hsens. apply andb_prop in Hsens as [_ Hs]. exists recorded. split; [|done].
      intros Hr. rewrite Hsame by done. by apply Hrec. }
  eapply wp_mono; [by apply (IH s1 g1 recorded')|]. intros l' s2 (g2 & Hok2 & Hl2). wp_steps.
  exists g2. split; [done|]. by rewrite Hl2, Hl, (assoc_L app).
Qed.

(** ** Only [httpd_destroy_pool] calls handlers *)
Definition quiet s s' : Prop := handled s' = handled s.
#[local] Instance quiet_preorder : PreOrder quiet.
Proof. split; [done|]. intros s1 s2 s3 H1 H2. unfold quiet in *. congruence. Qed.

Lemma quiet_load {V} (f : memory H -> gmap Z V) p : respects quiet (load f p).
Proof. intros s a s' Hl. unfold load in Hl. case_match; [by injection Hl as _ <-|done]. Qed.

Ltac quiet_steps := repeat first
  [ assumption
  | match goal with IH : forall _, respects _ _ |- _ => apply IH | IH : forall _ _, respects _ _ |- _ => apply IH
      | IH : forall _ _ _, respects _ _ |- _ => apply IH end
  | apply respects_bind; [apply _| |intros ?] | apply respects_ret, _ | apply respects_gets, _
  | apply respects_out_of_fuel | apply respects_modify; intros ?; reflexivity | apply quiet_load
  | apply respects_zoom; intros; reflexivity
  | match goal with |- respects _ (if ?b then _ else _) => destruct b end
  | match goal with |- respects _ (match ?r with Some _ => _ | None => _ end) => destruct r end ].

Lemma quiet_find_room fuel : forall p n al, respects quiet (find_room fuel p n al).
Proof. induction fuel as [|fuel IH]; intros p n al; cbn [find_room]; unfold put_data; quiet_steps. Qed.
Lemma quiet_count_failed fuel P : forall p, respects quiet (count_failed fuel P p).
Proof. induction fuel as [|fuel IH]; intros p; cbn [count_failed]; unfold put_data, put_head; quiet_steps. Qed.
Lemma quiet_small P n al : respects quiet (httpd_palloc_small P n al).
Proof.
  unfold httpd_palloc_small, httpd_palloc_block, httpd_memalign, nodes, put_data, on_env.
  quiet_steps; first [apply quiet_find_room|apply quiet_count_failed|idtac]; quiet_steps; apply quiet_count_failed.
Qed.
Lemma quiet_free a : respects quiet (httpd_free a).
Proof. unfold httpd_free, on_env. quiet_steps. Qed.
Lemma quiet_add_slot P p : respects quiet (add_slot P p).
Proof.
  unfold add_slot, put_large, put_head. pose proof (quiet_small P SIZEOF_LARGE true). pose proof (quiet_free p). quiet_steps.
Qed.
Lemma quiet_reuse_slot p fuel : forall n l, respects quiet (reuse_slot fuel n l p).
Proof. induction fuel as [|fuel IH]; intros n l; cbn [reuse_slot]; unfold put_large; quiet_steps. Qed.
Lemma quiet_request P n al :
  respects quiet (h <- load head P ;; if n <=? max h then httpd_palloc_small P n al else httpd_palloc_large P n).
Proof.
  pose proof (quiet_small P n al). pose proof (fun p => quiet_reuse_slot p 6). pose proof (quiet_add_slot P).
  unfold httpd_palloc_large, httpd_alloc, on_env. quiet_steps.
Qed.
Lemma quiet_pfree_from p fuel : forall l, respects quiet (pfree_from fuel l p).
Proof.
  pose proof quiet_free. induction fuel as [|fuel IH]; intros l; cbn [pfree_from]; unfold put_large; quiet_steps.
Qed.
Lemma quiet_free_larges fuel : forall l, respects quiet (free_larges fuel l).
Proof. pose proof quiet_free. induction fuel as [|fuel IH]; intros l; cbn [free_larges]; quiet_steps. Qed.
Lemma quiet_reset_blocks fuel : forall p, respects quiet (reset_blocks fuel p).
Proof. induction fuel as [|fuel IH]; intros p; cbn [reset_blocks]; unfold put_data; quiet_steps. Qed.

Lemma quiet_serve P q : respects quiet (serve P q).
Proof.
  pose proof (fun n => quiet_request P n true) as Ht. pose proof (fun n => quiet_request P n false) as Hf.
  change (forall n, respects quiet (httpd_palloc P n)) in Ht. change (forall n, respects quiet (httpd_pnalloc P n)) in Hf.
  pose proof (fun p => quiet_pfree_from p). pose proof quiet_free_larges. pose proof quiet_reset_blocks.
  pose proof (quiet_add_slot P).
  destruct q; cbn [serve]; unfold httpd_pcalloc, httpd_memzero, httpd_pmemalign, httpd_memalign, on_env, httpd_pfree,
    httpd_pool_cleanup_add, httpd_reset_pool, nodes, put_cleanup, put_head; quiet_steps.
Qed.

Lemma quiet_serve_all P qs : respects quiet (serve_all P qs).
Proof. induction qs as [|q qs IH]; cbn [serve_all]; pose proof (quiet_serve P); quiet_steps. Qed.

Lemma wp_quiet {A} (m : M (memory H) A) s Q :
  respects quiet m -> wp m s Q -> wp m s (fun a s' => Q a s' /\ handled s' = handled s).
Proof. intros Hm (a & s' & Hrun & HQ)%wp_run. apply wp_run. exists a, s'. split_and!; [done|done|by eapply Hm]. Qed.

(** ** Properties *)

(** [httpd_palloc] and [httpd_pnalloc] return NULL only when the
    allocator did, and otherwise memory nobody else has: up to the pool's limit
    a range inside a block that meets no range handed out before, beyond it an
    area of that size the pool did not own; [httpd_palloc] aligns it.  The pool
    stays well formed and everything outside it is left alone. *)
Theorem httpd_palloc_correct (P psize : Z) R s g (n : Z) (aligned : bool)
    (Hok : pool_ok P psize R s g) (Hn : 0 <= n < 2 ^ 64) :
  wp (if aligned then httpd_palloc P n else httpd_pnalloc P n) s (request_post P psize R g n aligned).
Proof. destruct aligned; by apply (request_ok _ _ _ _ _ _ _ Hok). Qed.

(** C31: every request with a 64-bit size (also one that fails or frees) keeps
    the pool well formed: blocks, large areas and cleanup records linked and
    owned, all ranges inside their blocks and apart, the rest of memory as it
    was; and so does a reset of a pool without cleanup records, which alone takes
    ranges back.  A reset of a pool that has such records is left out: it keeps
    their list but hands out their memory again ([reset_keeps_cleanups]). *)
Theorem pool_request_well_formed (P psize : Z) R s g (q : request)
    (Hok : pool_ok P psize R s g) (Hq : admissible q) (Hreset : q = Reset -> records g = []) :
  wp (serve P q) s (fun _ s' => exists g', pool_ok P psize R s' g' /\
    (q <> Reset -> exists gv, given g' = gv ++ given g)).
Proof.
  eapply wp_mono; [by apply (serve_step _ _ _ _ _ _ Hok Hq)|]. intros l s' (g' & Hok' & _ & _ & Hg). by exists g'.
Qed.

(** C30: a pool created with a size that is a multiple of 8 and at least the
    smallest one, used by any sequence of requests in which no reset comes after
    a cleanup was added, and destroyed, leaves the allocator with exactly the
    areas it had before, no leak and nothing freed twice, and has called the
    handler of every cleanup record once, the latest first.  The two conditions
    are needed: [reset_keeps_cleanups], [odd_pool_overruns]. *)
Theorem pool_session_returns_everything s (n : Z) (qs : list request)
    (Hs : sound (env s)) (Hn : HTTPD_MIN_POOL_SIZE <= n < 2 ^ 64 /\ n mod 8 = 0)
    (Hadm : Forall admissible qs) (Hsens : sensible false qs = true) :
  wp (session n qs) s (fun l s' => areas (env s') = areas (env s) /\ (handled s').*1 = (handled s).*1 ++ l).
Proof.
  destruct Hn as [Hn Hn8]. unfold session. wp_steps. eapply wp_mono; [by apply (create_ok s n Hs)|].
  intros p s1 (Hs1 & Hh1 & [[-> Ha]|(Hp & d & Hok)]); cbn [Z.eqb].
  { wp_steps. by rewrite Hh1, app_nil_r. }
  rewrite (proj2 (Z.eqb_neq p 0)) by lia. wp_steps.
  eapply wp_mono; [apply wp_quiet; [apply quiet_serve_all|by apply (serve_all_ok _ _ _ qs _ _ false Hok)]|].
  intros l s2 [(g2 & Hok2 & Hl) Hh2]. wp_steps. eapply wp_mono; [by apply (destroy_ok _ _ _ _ _ Hok2)|].
  intros [] s3 (_ & Ha & Hh3). wp_steps. split; [exact Ha|]. rewrite Hh3, Hh2, Hh1, fmap_app, Hl. by rewrite app_nil_r.
Qed.
End proofs.

(** ** An allocator that only moves forward *)
Record forward := Forward { at_ : Z; live : gmap Z Z }.
Definition forward_malloc (n : Z) : M forward Z := fun h =>
  if (0 <? n) && (at_ h + 8 * ((n + 7) / 8) <? 2 ^ 63)
  then Done (at_ h, Forward (at_ h + 8 * ((n + 7) / 8)) (<[at_ h := n]> (live h)))
  else Done (0, h).
Definition forward_free (a : Z) : M forward unit := modify (fun h => Forward (at_ h) (delete a (live h))).
#[export] Instance forward_alloc : Malloc forward :=
  {| yaos_malloc := forward_malloc; yaos_mfree := forward_free; call_handler := fun _ _ => ret tt |}.

Record forward_sound (h : forward) : Prop := {
  fw_at : 0 < at_ h /\ at_ h mod 8 = 0;
  fw_live a n : live h !! a = Some n -> 0 < a /\ a mod 8 = 0 /\ 0 < n /\ a + n <= at_ h /\ a + n < 2 ^ 64;
  fw_disj a n b m : live h !! a = Some n -> live h !! b = Some m -> a <> b -> disj (a, n) (b, m)
}.

#[export] Program Instance forward_laws : MallocLaws forward := {| areas := live; sound := forward_sound |}.
Next Obligation. intros h a n Hs Ha. pose proof (fw_live _ Hs _ _ Ha). tauto. Qed.
Next Obligation. intros h a n b m Hs. apply (fw_disj _ Hs). Qed.
Next Obligation.
  intros h n Hs Hn. pose proof Hs as [[H0 H8] Hl Hd]. unfold wp. cbn. unfold forward_malloc.
  rewrite (proj2 (Z.ltb_lt 0 n)) by lia. cbn [andb].
  pose proof (Z.div_mod (n + 7) 8 ltac:(lia)). pose proof (Z.mod_pos_bound (n + 7) 8 ltac:(lia)).
  assert (live h !! at_ h = None) as Hno.
  { destruct (live h !! at_ h) as [m|] eqn:Hm; [|done]. apply Hl in Hm. lia. }
  destruct (Z.ltb_spec (at_ h + 8 * ((n + 7) / 8)) (2 ^ 63)); [|split; [done|by left]].
  split; [|right; split_and!; [lia|done|done]]. split; cbn.
  - split; [lia|]. rewrite Z.mul_comm, Z_mod_plus_full. done.
  - intros a m Ha. destruct (decide (at_ h = a)) as [<-|Hne].
    + rewrite lookup_insert_eq in Ha. injection Ha as <-. split_and!; [done|done|lia..].
    + rewrite lookup_insert_ne in Ha by done. pose proof (Hl _ _ Ha). split_and!; [lia|tauto|lia..].
  - intros a k b m Ha Hb Hab. apply lookup_insert_Some in Ha as [[<- <-]|[Ha1 Ha]];
      apply lookup_insert_Some in Hb as [[<- <-]|[Hb1 Hb]]; [done| | |by eapply Hd].
    + right. cbn. pose proof (Hl _ _ Hb). lia.
    + left. cbn. pose proof (Hl _ _ Ha). lia.
Qed.
Next Obligation.
  intros h a n Hs Ha. destruct Hs as [H0 Hl Hd]. cbn. split; [|done]. split; cbn; [done| |].
  - intros b m Hb. apply lookup_delete_Some in Hb as [_ Hb]. by apply Hl.
  - intros b k c m Hb Hc. apply lookup_delete_Some in Hb as [_ Hb]. apply lookup_delete_Some in Hc as [_ Hc].
    by apply Hd.
Qed.
Next Obligation. intros f d h Hs. by split. Qed.

Definition empty_memory : memory forward := Memory ∅ ∅ ∅ ∅ (fun _ => 0xcc) [] (Forward 0x1000 ∅).
Lemma empty_sound : sound (env empty_memory).
Proof. split; cbn; [done|by intros ??|by intros ??]. Qed.

(** A pool of 1024 bytes fresh from the allocator. *)
Definition fresh_memory : memory forward :=
  match httpd_create_pool 1024 empty_memory with Done (_, s) => s | _ => empty_memory end.
Definition fresh_ghost : ghost := Ghost [(0x1000, PoolData 0x1048 0x1400 0 0)] [] [] [].
Lemma fresh_ok : pool_ok 0x1000 1024 ∅ fresh_memory fresh_ghost.
Proof.
  pose proof (create_ok empty_memory 1024 empty_sound ltac:(unfold HTTPD_MIN_POOL_SIZE; lia) eq_refl) as Hc.
  apply wp_run in Hc as (r & s' & Hrun & _ & _ & Hcase). unfold fresh_memory. rewrite Hrun.
  vm_compute in Hrun. injection Hrun as Hr Hs'.
  destruct Hcase as [[-> _]|(_ & d & Hok)]; [done|]. subst r.
  pose proof (mseg_lookup _ _ _ _ _ _ (po_data _ _ _ _ _ Hok) (list_elem_of_here _ _)) as Hd. cbn in Hd.
  rewrite <- Hs' in Hd. vm_compute in Hd. injection Hd as <-. exact Hok.
Qed.

Lemma httpd_palloc_correct_witness :
  wp (httpd_palloc 0x1000 100) fresh_memory (request_post 0x1000 1024 ∅ fresh_ghost 100 true).
Proof.
  apply (httpd_palloc_correct 0x1000 1024 ∅ fresh_memory fresh_ghost 100 true); [exact fresh_ok|lia].
Defined.

Lemma pool_request_well_formed_witness :
  wp (serve 0x1000 (CleanupAdd 5000 7)) fresh_memory (fun _ s' => exists g', pool_ok 0x1000 1024 ∅ s' g').
Proof.
  eapply wp_mono.
  - apply (pool_request_well_formed 0x1000 1024 ∅ fresh_memory fresh_ghost (CleanupAdd 5000 7) fresh_ok);
      [split; [lia|done]|done].
  - intros _ s' (g' & Hg' & _). by exists g'.
Defined.

Definition some_requests : list request :=
  [Palloc 100; Pnalloc 33; Palloc 900; CleanupAdd 8 5; Pcalloc 5000; Pmemalign 64 32; CleanupAdd 0 6; Pfree 0x2000].

Lemma pool_session_returns_everything_witness :
  wp (session 1024 some_requests) empty_memory (fun l s' => areas (env s') = ∅ /\ (handled s').*1 = l).
Proof.
  apply (pool_session_returns_everything empty_memory 1024 some_requests empty_sound).
  - unfold HTTPD_MIN_POOL_SIZE. split; [lia|reflexivity].
  - unfold some_requests. repeat (constructor; [cbn; lia|]). constructor.
  - reflexivity.
Defined.

(** The handlers run latest first. *)
Example session_handlers :
  match session 1024 some_requests empty_memory with
  | Done (l, s') => l = [6; 5] /\ (handled s').*1 = [6; 5]
  | _ => False
  end.
Proof. vm_compute. by split. Qed.

(** ** Where the code goes wrong *)

(** [httpd_reset_pool] keeps the cleanup records, whose memory it hands out
    again: the next record is linked to itself, and destroying never ends. *)
Lemma run_cleanups_cycle {H} `{!Malloc H} (s : memory H) c d fuel :
  c <> 0 -> cleanups s !! c = Some (PoolCleanup 0 d c) -> run_cleanups fuel c s = OutOfFuel.
Proof.
  intros Hc Hv. induction fuel as [|fuel IH]; [done|]. cbn [run_cleanups]. rewrite (proj2 (Z.eqb_neq c 0) Hc).
  unfold bind, load, ret. rewrite Hv. cbn. by rewrite Hv.
Qed.

Example reset_keeps_cleanups :
  match (httpd_pool_cleanup_add 0x1000 0 ;;; httpd_reset_pool 0x1000 ;;;
         c <- httpd_pool_cleanup_add 0x1000 0 ;; ret c) fresh_memory with
  | Done (c, s') => c = 0x1048 /\ cleanups s' !! c = Some (PoolCleanup 0 0 c) /\ httpd_destroy_pool 0x1000 s' = OutOfFuel
  | _ => False
  end.
Proof. vm_compute. by split_and!. Qed.

(** A pool whose size is no multiple of 8 hands out memory behind its end: the
    aligned fill level passes [end], and the difference wraps. *)
Example odd_pool_overruns :
  match (p <- httpd_create_pool 1001 ;; httpd_pnalloc p 929 ;;; a <- httpd_palloc p 500 ;; ret (p, a)) empty_memory with
  | Done ((p, a), _) => a = p + 1008
  | _ => False
  end.
Proof. vm_compute. reflexivity. Qed.

(** [httpd_pmemalign] ignores the alignment. *)
Example pmemalign_unaligned :
  match httpd_pmemalign 0x1000 64 0x1000 fresh_memory with Done (a, _) => a = 0x1400 | _ => False end.
Proof. vm_compute. reflexivity. Qed.
